(* ===== verification/_CoqProject ===== *)
-Q . S2P
Prelude.v
Hardfork.v
Rlp.v
MorphTx.v
Envelope.v
Consensus.v
EngineValidator.v
L1Fee.v
TxEnv.v
TokenFee.v
Journal.v
FeeHandler.v
FeeSafety.v
Receipts.v
BlockExecutor.v
PayloadTypes.v
PayloadBuilder.v
TxPool.v
PoolOffers.v
BuildSafety.v
EngineApi.v
Versioned.v
HistoryWrites.v
ProofsStore.v
StoreRefinement.v
StoreSafety.v
Initialize.v
Live.v
SyncTarget.v
ProofsSync.v
SyncSafety.v
SyncLiveness.v
SyncStore.v
PoolSafety.v
PoolAdmission.v
RefIndex.v
RefIndexTables.v
RefIndexSafety.v
RefIndexLiveness.v
RefIndexService.v
RefIndexServing.v
RefIndexRuns.v
Precompiles.v
EthRpc.v
EthRpcSafety.v
ProofsRpc.v
ProofsCodec.v
InMemory.v
FetchUpdates.v
RpcReceipts.v
TrieCursors.v
HistoricalTrie.v
