(* ===== verification/Prelude.v ===== *)
(** * Morph Reth: a verification of the execution client

    ** The program

    Morph Reth ([src/crates]) is the execution client of the Morph L2: a reth node
    with its own transaction types, fee rules, consensus checks, block builder and
    engine API.  A block is made as follows.  The sequencer asks the engine API for a
    block with some L1 messages; the payload builder executes them and then the
    pool's transactions through the block executor, whose EVM charges the L2 fee and
    the L1 data fee in ETH or in a registered token; the block is assembled, sealed
    and sent out as executable data.  Other nodes rebuild the block from the data,
    validate it before and after execution and move their fork choice to it; nodes
    that derive from L1 rebuild it from the committed transactions.

    Beside the chain, a node keeps three things that follow it: the transaction pool,
    which admits and keeps transactions that can pay; a store of historical states
    (versioned trie nodes, accounts and slots over a window of blocks), filled by an
    initialization job and an execution extension, from which proofs and witnesses
    are served; and an index of Morph transactions by reference, filled by a
    background loop.  The RPC reads the chain, the store and the index.

    ** The files

    Each file models one part; a definition carries the name of the Rust item it
    translates, with a prefix or suffix where two items share a name.

    - [Prelude]: results and the stateful error monad [sm] (a Rust function with a
      [&mut] argument and a [Result]), machine integers with their wrapping, checked
      and saturating operations, tactics, the hint database [uints].
    - [Hardfork]: [chainspec/src/hardfork.rs, spec.rs, genesis.rs, constants.rs].
      The fork order, the fork table, activation by block and by time.  reth's
      tables are the classes [ForkConditionOps] and [ChainHardforksOps] with laws;
      [Concrete] is an executable instance with the mainnet activations.
    - [Rlp]: the RLP encoder and decoder of alloy that the codecs call: the class
      [AlloyRlp], its laws, and [Standard], an executable instance that satisfies
      them.
    - [MorphTx]: [primitives/src/transaction/morph_transaction.rs], Module [TxMorph].
    - [Envelope]: [l1_transaction.rs] (Module [TxL1Msg]) and [envelope.rs] (Module
      [MorphTxEnvelope]).
    - [Consensus]: [consensus/src/validation.rs], the checks on headers and blocks.
    - [EngineValidator]: [node/src/validator.rs], the parent-aware check of the L1
      index and the cache of withdraw-root expectations.
    - [L1Fee], [TxEnv], [TokenFee]: [revm/src/l1block.rs, tx.rs, token_fee.rs].
    - [Journal]: the interface of revm's journal, as the handler uses it (class
      [JournalOps]; [JournalLaws] states what revm documents; [MapJournal] is an
      executable instance).
    - [FeeHandler]: [revm/src/handler.rs], every phase of a transaction that moves a
      fee; [FeeSafety] holds its theorems.
    - [Receipts]: [primitives/src/receipt].
    - [BlockExecutor]: [evm/src/block], [config.rs], [assemble.rs].
    - [PayloadTypes]: [payload/types]; [PayloadBuilder]: [payload/builder];
      [PoolOffers] says what the pool's iterator offers the builder, and what the pool's
      admission makes of it; [BuildSafety] holds the builder's theorems, against the record
      [block_builder_laws] of what reth's [BlockBuilder] does with the executor and
      the assembler.
    - [EngineApi]: [engine-api/src/builder.rs], its endpoints over a world of
      provider, engine tree and payload service (class [EngineOps]).
    - [Versioned]: [proofs/src/db/cursor.rs] and the models of keys and values: rows
      of versions, and cursors that read them as of a block, over dup-sorted tables
      (class [DupDb] with laws; [ListDb] is an instance).  [HistoryWrites] and
      [ProofsStore]: [proofs/src/db/store.rs] and the pruner; [StoreRefinement]
      relates the tables to the abstract [Window] of block states, and [StoreSafety]
      holds the theorems.  [ProofsCodec]: [proofs/src/db/models], the tables in bytes,
      and the identity of a database.  [Initialize]: [proofs/src/initialize.rs].  [Live]:
      [proofs/src/live.rs, db/batch.rs].  [FetchUpdates]: [fetch_trie_updates] of
      [proofs/src/db/store.rs], which reads the changes of a block back.  [InMemory]:
      [proofs/src/in_memory.rs], the store that keeps the same window in maps.
    - [SyncTarget] and [ProofsSync]: [proofs-exex/src], the shared target, the
      notification handlers and the loop as a step relation; [SyncSafety] and
      [SyncLiveness] prove over the interface [ProofsHistory], which [SyncStore]
      discharges with the store of [StoreSafety].
    - [TxPool]: [txpool/src]; [PoolSafety] and [PoolAdmission] hold its theorems.
    - [RefIndex]: [reference-index/src], its tables (class [OrdTables]), writes,
      rollback and the turn of the runtime; [RefIndexTables] has the key encodings
      and table laws, [RefIndexSafety] the invariant of the index and
      [RefIndexLiveness] the progress of turns.  [RefIndexService]: the runtime's
      event loop and the RPC method [getTransactionHashesByReference]
      ([rpc/src/morph/handler.rs]); [RefIndexServing] holds their theorems and
      [RefIndexRuns] concrete runs.
    - [Precompiles]: [revm/src/precompiles.rs] and the opcodes of [revm/src/evm.rs].
    - [EthRpc]: [rpc/src/eth/call.rs, transaction.rs]: the gas allowance of
      [eth_estimateGas] and transaction requests; [EthRpcSafety] holds its theorems.
    - [ProofsRpc]: [proofs/src/provider.rs], [rpc/src/state.rs, eth/proofs.rs,
      execution_witness.rs, proof_status.rs]: serving historical states and proofs.
    - [TrieCursors]: [proofs/src/cursor_factory.rs, cursor.rs] and the cursors of
      [db/cursor.rs] as reth's trie code uses them; a computation of reth is a tree of
      [reads] of cursors, run over a store or over the listing of a state.
      [HistoricalTrie]: [proofs/src/proof.rs, batch_provider.rs] and the root, proof and
      witness methods of [provider.rs].
    - [RpcReceipts]: [primitives/src/receipt/envelope.rs], [rpc/src/eth/receipt.rs,
      types/receipt.rs]: the receipts of a block as the RPC answers them.

    ** What the theorems show

    - Blocks: L1 messages lead, with consecutive indices ([l1_messages_accepted_iff]);
      the exact acceptance condition before execution; invariants along a header
      chain; every block that a sequencer builds, for a job within its bounds and from
      transactions that the pool admitted at some earlier head, is accepted by every
      check ([built_block_accepted]), and what a node reconstructs from the executable
      data is that block ([built_payload_imports]).
    - Derivation: a deterministic build is the requested list or an error, whatever
      the pool and the clock ([deterministic_build_exact]), and an import from L1
      data answers a header that commits to that data
      ([safe_import_reproduces_data]).
    - Engine: the head is always a validated block ([head_always_validated]); a call
      that sets both tags leaves them in order, and one that sets a single tag does
      exactly when it does not cross the other ([block_tags_ordered]); the expectation cache stays bounded, and importing
      leaves no expectation behind.
    - Fees: what a sender pays in ETH and in tokens, conservation over deduction,
      refund and reward, no leak between transactions, and the L1 fee free of
      saturation in practice.
    - Gas: the executor's accounting, its agreement with the builder's, and
      termination of the build loop.
    - Codecs: round trips, injectivity of the signing payload, exact announced
      lengths, for transactions, L1 messages and receipts, on the wire and in the
      database; the receipts that the RPC serves carry the fields of the stored ones
      ([served_receipts_faithful]).
    - Funds: what the pool admits ([admitted_tx_can_pay]) and any gas limit that an
      estimate allows ([estimated_gas_can_be_paid]) is never refused by the fee
      handler for lack of funds on the same state, when it is paid in ETH or in a token
      with a balance slot (call-mode tokens are left out); pool maintenance keeps exactly the
      transactions that their sender's budgets pay for
      ([maintenance_keeps_payable]); a request is priced by the bytes that signing
      it posts ([estimate_prices_signed_bytes]).
    - Historical states: the store refines the window of states
      ([proofs_store_refines]) and its readers see it ([readers_see_window]), over
      bytes that MDBX keeps in that order ([proofs_tables_ordered]);
      initialization resumes after any interruption; the extension serves only
      canonical states under every interleaving without a refused revert
      ([sync_serves_canonical]), catches up ([sync_catches_up]), and mixes branches
      after a refused revert ([refused_revert_mixes_branches]).  A provider stays
      pinned to the store it was checked against ([served_state_is_pinned]), a
      multiproof agrees with single proofs, and a witness uses the parent's state.
      Proofs, witnesses and roots over the store are those of the block's state
      ([historical_proofs_exact], [roots_of_state_exact]), for every computation that
      keeps to the contract of the cursor traits.
      The changes read back from the store replay the block they were written for
      ([fetched_changes_replay]), and the in-memory store answers every reader as the
      database does after operations that delete no storage trie as a whole
      ([in_memory_agrees]).
    - Reference index: over a chain that is not reorganized while a turn of the loop
      runs, an answer is the page of the chain canonical at its last read
      ([rpc_answers_canonical]) and the tables stay exact; the backoff and the counter
      of the loop stay within their bounds in every run ([loop_stays_well_formed]); the
      loop reaches the head over a chain at rest ([run_reaches_live]); a reorganization
      inside a turn can mix branches ([reorg_inside_turn_mixes_branches]).
    - EVM: the precompile set of each hardfork is a table ([precompiles_by_fork]),
      and [BLOCKHASH] is a window of 256 synthetic hashes ([blockhash_window]).

    ** Conventions and bounds

    An integer of width [w] is a [Z] with its wrap-around, saturation or check
    written out; 256-bit words, hashes and addresses are [Z]; bytes are lists of
    [Z].  Errors are values with the source's variants; the text of a formatted
    message is reduced to its kind.  Code outside the repository (alloy, revm, reth)
    is a parameter or a class, with what the code relies on as laws, and each class
    has an executable instance that satisfies them.  Time and cancellation are
    functions of the loop iteration.

    Loops that do not recurse on data take fuel, and the theorems give what suffices.
    Decoding a list in [Rlp] gets the length of the payload, and every item takes at
    least one byte.  The builder's pool loop gets an argument, and [build_returns]
    gives the number: one more than the iteration at which the clock passes the time
    limit.  Cursors of the proofs store need one step more than their table has keys
    (twice that where zero slots are skipped), and a write as many as [op_fuel] says
    (a prune: the rows it visits; a pruner run: one batch per batch of blocks to go).
    In the reference index the search for the first Jade block halves its interval,
    rewinding and rolling back take one step per indexed block, and the RPC method
    polls at most sixty-one times before its deadline, which [rpc_returns] proves.

    ** What is not modelled

    JSON serialization; reth's trie algorithms, which are parameters of
    [HistoricalTrie], as the proofs they give are of [ProofsRpc] and the execution of a
    block is of [Live]; the bytes of change sets; metrics, logging, command line and
    component wiring, which compute nothing of the protocol.  The EVM's frames are revm's and remain parameters.
    Concurrency is modelled where the code shares state: the expectation cache and
    the sync target are step relations over any interleaving of their operations,
    the canonical chain of the reference index changes between any two reads, the
    proofs store may change between any two calls of a provider, and every awaited
    call of the engine API may change the world. *)

From stdpp Require Export base tactics numbers option list gmap strings.
From Stdlib Require Export ZArith Lia.

#[global] Open Scope Z_scope.

(** ** Fallible computations *)

(** Rust's [Result<A, E>]. *)
Inductive result (A E : Type) : Type :=
| Ok (a : A)
| Err (e : E).
Arguments Ok {A E} a.
Arguments Err {A E} e.

Declare Scope result_scope.
Delimit Scope result_scope with result.
#[global] Open Scope result_scope.

Definition result_bind {A B E} (c : result A E) (k : A → result B E) : result B E :=
  match c with Ok a => k a | Err e => Err e end.

(** Rust's [Result::map_err]. *)
Definition map_err {A E F} (f : E → F) (c : result A E) : result A F :=
  match c with Ok a => Ok a | Err e => Err (f e) end.

(** Rust's [Option::ok_or]. *)
Definition ok_or {A E} (o : option A) (e : E) : result A E :=
  match o with Some a => Ok a | None => Err e end.

(** [let? x := c in k] is Rust's [let x = c?; k]. *)
Notation "'let?' x ':=' c 'in' k" := (result_bind c (λ x, k))
  (at level 10, x binder, c at level 100, k at level 200) : result_scope.

(** [do? c in k] is Rust's [c?; k]. *)
Notation "'do?' c 'in' k" := (result_bind c (λ _, k))
  (at level 10, c at level 100, k at level 200) : result_scope.

(** [reject e when b in k] is Rust's [if b { return Err(e); } k]. *)
Notation "'reject' e 'when' b 'in' k" := (if b : bool then Err e else k)
  (at level 10, e at level 100, b at level 100, k at level 200) : result_scope.

Definition is_ok {A E} (c : result A E) : bool :=
  match c with Ok _ => true | Err _ => false end.

(** Rust's [Option::unwrap_or]. *)
Abbreviation unwrap_or d o := (default d o).

Section ResultLemmas.
Context {A B E : Type}.

Lemma bind_Ok (c : result A E) (k : A → result B E) b :
  result_bind c k = Ok b ↔ ∃ a, c = Ok a ∧ k a = Ok b.
Proof. destruct c; naive_solver. Qed.

Lemma bind_Err (c : result A E) (k : A → result B E) e :
  result_bind c k = Err e ↔ c = Err e ∨ ∃ a, c = Ok a ∧ k a = Err e.
Proof. destruct c; naive_solver. Qed.

Lemma bind_unit_Ok (c : result unit E) (k : result B E) b :
  result_bind c (λ _, k) = Ok b ↔ c = Ok tt ∧ k = Ok b.
Proof. destruct c as [[]|]; naive_solver. Qed.

Lemma reject_Ok (b : bool) (e : E) (k : result A E) a :
  (if b then Err e else k) = Ok a ↔ b = false ∧ k = Ok a.
Proof. destruct b; naive_solver. Qed.

Lemma ok_or_Ok (o : option A) (e : E) a : ok_or o e = Ok a ↔ o = Some a.
Proof. destruct o; naive_solver. Qed.

Lemma map_err_Ok {F} (f : E → F) (c : result A E) a : map_err f c = Ok a ↔ c = Ok a.
Proof. destruct c; naive_solver. Qed.

Lemma is_ok_spec (c : result A E) : is_ok c = true ↔ ∃ a, c = Ok a.
Proof. destruct c; naive_solver. Qed.
End ResultLemmas.

(** ** Stateful fallible computations

    A Rust function with a [&mut S] argument and a [Result<A, E>] is a function
    from states to a state and a result; what it wrote before failing stays. *)

Definition sm (S E A : Type) : Type := S → S * result A E.

#[global] Instance sm_ret S E : MRet (sm S E) := λ A a s, (s, Ok a).
#[global] Instance sm_bind S E : MBind (sm S E) := λ A B k c s,
  match c s with (s, Ok a) => k a s | (s, Err e) => (s, Err e) end.

Definition sm_fail {S E A} (e : E) : sm S E A := λ s, (s, Err e).
Definition sm_lift {S E A} (r : result A E) : sm S E A := λ s, (s, r).
Definition sm_modify {S E} (f : S → S) : sm S E unit := λ s, (f s, Ok tt).
Definition sm_get {S E A} (f : S → A) : sm S E A := λ s, (s, Ok (f s)).
(** A fallible read of the state, and [map_err] on a computation. *)
Definition sm_read {S E A} (f : S → result A E) : sm S E A := λ s, (s, f s).
Definition sm_map_err {S E F A} (f : E → F) (c : sm S E A) : sm S F A := λ s,
  let '(s, r) := c s in (s, map_err f r).

Section StatefulLemmas.
Context {S E A B : Type}.

Lemma sm_bind_Ok (c : sm S E A) (k : A → sm S E B) s s' b :
  (c ≫= k) s = (s', Ok b) ↔ ∃ s1 a, c s = (s1, Ok a) ∧ k a s1 = (s', Ok b).
Proof.
  unfold mbind, sm_bind. destruct (c s) as [s1 [a|e]]; split.
  - intros Hk. by exists s1, a.
  - by intros (? & ? & [= <- <-] & Hk).
  - intros [= ].
  - by intros (? & ? & [= ] & _).
Qed.

Lemma sm_bind_Err (c : sm S E A) (k : A → sm S E B) s s' e :
  (c ≫= k) s = (s', Err e) ↔
  c s = (s', Err e) ∨ ∃ s1 a, c s = (s1, Ok a) ∧ k a s1 = (s', Err e).
Proof.
  unfold mbind, sm_bind. destruct (c s) as [s1 [a|e']]; split.
  - intros Hk. right. by exists s1, a.
  - by intros [[= ]|(? & ? & [= <- <-] & Hk)].
  - intros [= <- <-]. by left.
  - by intros [[= <- <-]|(? & ? & [= ] & _)].
Qed.

(** Running a bind when the first step is known. *)
Lemma sm_bind_run (c : sm S E A) (k : A → sm S E B) s s1 a :
  c s = (s1, Ok a) → (c ≫= k) s = k a s1.
Proof. unfold mbind, sm_bind. by intros ->. Qed.

Lemma sm_bind_run_Err (c : sm S E A) (k : A → sm S E B) s s1 e :
  c s = (s1, Err e) → (c ≫= k) s = (s1, Err e).
Proof. unfold mbind, sm_bind. by intros ->. Qed.
End StatefulLemmas.

(** ** Machine integers

    An unsigned integer of width [w] is a [Z]; [uN_max] is its largest value.
    Saturating and checked operations take the largest value explicitly. *)

Definition u8_max : Z := 2 ^ 8 - 1.
Definition u16_max : Z := 2 ^ 16 - 1.
Definition u64_max : Z := 2 ^ 64 - 1.
Definition u128_max : Z := 2 ^ 128 - 1.
Definition u256_max : Z := 2 ^ 256 - 1.
Definition i64_max : Z := 2 ^ 63 - 1.

Definition in_range (m x : Z) : Prop := 0 ≤ x ≤ m.
Abbreviation is_u8 := (in_range u8_max).
Abbreviation is_u16 := (in_range u16_max).
Abbreviation is_u64 := (in_range u64_max).
Abbreviation is_u128 := (in_range u128_max).
Abbreviation is_u256 := (in_range u256_max).

Definition saturating_add (m a b : Z) : Z := Z.min (a + b) m.
Definition saturating_mul (m a b : Z) : Z := Z.min (a * b) m.
Definition saturating_sub (a b : Z) : Z := Z.max (a - b) 0.
Definition checked_add (m a b : Z) : option Z := if a + b <=? m then Some (a + b) else None.
Definition checked_mul (m a b : Z) : option Z := if a * b <=? m then Some (a * b) else None.
Definition checked_sub (a b : Z) : option Z := if b <=? a then Some (a - b) else None.
Definition wrapping_add (m a b : Z) : Z := (a + b) mod (m + 1).
Definition wrapping_sub (m a b : Z) : Z := (a - b) mod (m + 1).
Definition abs_diff (a b : Z) : Z := Z.abs (a - b).

(** Facts about the bounds that [lia] can use without unfolding powers of two. *)
Lemma uint_max_order :
  0 < u8_max ∧ u8_max < u16_max ∧ u16_max < u64_max ∧ u64_max < u128_max
  ∧ u64_max * u64_max < u128_max ∧ u128_max < u256_max
  ∧ u64_max * u128_max < u256_max ∧ 10 ^ 12 < u64_max.
Proof. repeat split; reflexivity. Qed.

#[global] Opaque u16_max u64_max u128_max u256_max.

(** [ulia] is [lia] knowing the widths' order. *)
Ltac ulia :=
  pose proof uint_max_order;
  unfold in_range, saturating_add, saturating_sub, saturating_mul, abs_diff in *; lia.

(** [nonneg] proves [0 ≤ e] for sums and products of non-negative terms. *)
Ltac nonneg :=
  repeat first [assumption | apply Z.add_nonneg_nonneg | apply Z.mul_nonneg_nonneg | lia].

Section IntLemmas.
Lemma checked_add_Some m a b c : checked_add m a b = Some c ↔ c = a + b ∧ a + b ≤ m.
Proof. unfold checked_add. destruct (Z.leb_spec (a + b) m); naive_solver lia. Qed.

Lemma checked_add_None m a b : checked_add m a b = None ↔ m < a + b.
Proof. unfold checked_add. destruct (Z.leb_spec (a + b) m); naive_solver lia. Qed.

Lemma checked_mul_Some m a b c : checked_mul m a b = Some c ↔ c = a * b ∧ a * b ≤ m.
Proof. unfold checked_mul. destruct (Z.leb_spec (a * b) m); naive_solver lia. Qed.

Lemma checked_sub_Some a b c : checked_sub a b = Some c ↔ c = a - b ∧ b ≤ a.
Proof. unfold checked_sub. destruct (Z.leb_spec b a); naive_solver lia. Qed.

Lemma saturating_add_exact m a b : a + b ≤ m → saturating_add m a b = a + b.
Proof. unfold saturating_add. lia. Qed.

Lemma saturating_mul_exact m a b : a * b ≤ m → saturating_mul m a b = a * b.
Proof. unfold saturating_mul. lia. Qed.

Lemma saturating_add_range m a b :
  in_range m a → in_range m b → in_range m (saturating_add m a b).
Proof. unfold in_range, saturating_add. lia. Qed.

Lemma saturating_mul_range m a b :
  in_range m a → in_range m b → in_range m (saturating_mul m a b).
Proof. unfold in_range, saturating_mul. nia. Qed.

Lemma saturating_mul_mono m a b c d :
  0 ≤ a ≤ c → 0 ≤ b ≤ d → saturating_mul m a b ≤ saturating_mul m c d.
Proof. unfold saturating_mul. nia. Qed.

Lemma saturating_add_mono m a b c d :
  a ≤ c → b ≤ d → saturating_add m a b ≤ saturating_add m c d.
Proof. unfold saturating_add. lia. Qed.

Lemma wrapping_add_exact m a b : 0 ≤ a + b ≤ m → wrapping_add m a b = a + b.
Proof. intros. unfold wrapping_add. apply Z.mod_small. lia. Qed.

Lemma wrapping_sub_exact m a b : 0 ≤ a - b ≤ m → wrapping_sub m a b = a - b.
Proof. intros. unfold wrapping_sub. apply Z.mod_small. lia. Qed.

(** Saturation composes: clamping early and clamping once at the end agree. *)
Lemma saturating_add_clamp m a b :
  0 ≤ a → 0 ≤ b → 0 ≤ m → saturating_add m (Z.min a m) (Z.min b m) = Z.min (a + b) m.
Proof. unfold saturating_add. lia. Qed.

Lemma saturating_mul_clamp m a b :
  0 ≤ a → 0 ≤ b → 0 ≤ m → saturating_mul m (Z.min a m) b = Z.min (a * b) m.
Proof.
  intros. unfold saturating_mul. destruct (Z.le_gt_cases a m).
  - by rewrite (Z.min_l a m).
  - rewrite (Z.min_r a m) by lia. destruct (Z.eq_dec b 0) as [->|]; [lia|].
    rewrite !Z.min_r; nia.
Qed.

(** A saturating sum stays under a limit below the ceiling exactly when the
    true sum does. *)
Lemma saturating_add_le m a b l :
  l < m → saturating_add m a b ≤ l ↔ a + b ≤ l.
Proof. unfold saturating_add. lia. Qed.

Lemma wrapping_add_range m a b : 0 ≤ m → in_range m (wrapping_add m a b).
Proof.
  intros. unfold in_range, wrapping_add. pose proof (Z.mod_pos_bound (a + b) (m + 1)). lia.
Qed.
End IntLemmas.

(** [auto with uints] proves that the results of saturating and wrapping
    arithmetic are in range. *)
Create HintDb uints.
#[export] Hint Resolve saturating_add_range saturating_mul_range wrapping_add_range : uints.

(** ** Boolean reflection *)

(** Turns the boolean tests of the code, in hypotheses and in the goal, into
    propositions that [lia] and [congruence] understand. *)
Ltac bool_simp :=
  repeat match goal with
  | H : context [negb _ = true] |- _ => rewrite negb_true_iff in H
  | H : context [negb _ = false] |- _ => rewrite negb_false_iff in H
  | H : context [_ && _ = true] |- _ => rewrite andb_true_iff in H
  | H : context [_ || _ = false] |- _ => rewrite orb_false_iff in H
  | H : context [_ && _ = false] |- _ => rewrite andb_false_iff in H
  | H : context [_ || _ = true] |- _ => rewrite orb_true_iff in H
  | H : context [(_ <? _) = true] |- _ => rewrite Z.ltb_lt in H
  | H : context [(_ <? _) = false] |- _ => rewrite Z.ltb_ge in H
  | H : context [(_ <=? _) = true] |- _ => rewrite Z.leb_le in H
  | H : context [(_ <=? _) = false] |- _ => rewrite Z.leb_gt in H
  | H : context [(_ =? _) = true] |- _ => rewrite Z.eqb_eq in H
  | H : context [(_ =? _) = false] |- _ => rewrite Z.eqb_neq in H
  | H : context [bool_decide _ = true] |- _ => rewrite bool_decide_eq_true in H
  | H : context [bool_decide _ = false] |- _ => rewrite bool_decide_eq_false in H
  | |- context [negb _ = true] => rewrite negb_true_iff
  | |- context [negb _ = false] => rewrite negb_false_iff
  | |- context [_ && _ = true] => rewrite andb_true_iff
  | |- context [_ || _ = false] => rewrite orb_false_iff
  | |- context [_ && _ = false] => rewrite andb_false_iff
  | |- context [_ || _ = true] => rewrite orb_true_iff
  | |- context [(_ <? _) = true] => rewrite Z.ltb_lt
  | |- context [(_ <? _) = false] => rewrite Z.ltb_ge
  | |- context [(_ <=? _) = true] => rewrite Z.leb_le
  | |- context [(_ <=? _) = false] => rewrite Z.leb_gt
  | |- context [(_ =? _) = true] => rewrite Z.eqb_eq
  | |- context [(_ =? _) = false] => rewrite Z.eqb_neq
  | |- context [bool_decide _ = true] => rewrite bool_decide_eq_true
  | |- context [bool_decide _ = false] => rewrite bool_decide_eq_false
  end.

(** Unfolds a chain of [let?], [do?] and [reject] in the goal and in the
    hypotheses into the conditions under which it returns [Ok]. *)
Ltac ok_simp :=
  repeat (first
    [ setoid_rewrite bind_unit_Ok | setoid_rewrite bind_Ok | setoid_rewrite reject_Ok
    | setoid_rewrite ok_or_Ok | setoid_rewrite map_err_Ok ]).

(** ** Lists *)

Section ListLemmas.
Context {A : Type}.

(** The sum of a measure over a list. *)
Definition sum_by (f : A → Z) (l : list A) : Z := foldr (λ x acc, f x + acc) 0 l.

Lemma sum_by_app f l1 l2 : sum_by f (l1 ++ l2) = sum_by f l1 + sum_by f l2.
Proof. induction l1; simpl; lia. Qed.

Lemma sum_by_nonneg f l : (∀ x, x ∈ l → 0 ≤ f x) → 0 ≤ sum_by f l.
Proof.
  induction l as [|x l IH]; simpl; intros H; [lia|].
  assert (0 ≤ f x) by (apply H; left). assert (0 ≤ sum_by f l); [|lia].
  apply IH. intros y Hy. apply H. by right.
Qed.
End ListLemmas.

Lemma sum_by_map {A} (f : A → Z) l : sum_by id (map f l) = sum_by f l.
Proof. induction l as [|x l IH]; simpl; [done|]. by rewrite IH. Qed.

(** Folding [u64::saturating_add] over a list computes the sum, capped. *)
Lemma foldl_saturating_add m (l : list Z) acc :
  0 ≤ acc ≤ m → Forall (λ x, 0 ≤ x) l →
  foldl (saturating_add m) acc l = Z.min (acc + sum_by id l) m.
Proof.
  intros Hacc Hl. revert acc Hacc.
  induction Hl as [|x l Hx Hl IH]; intros acc Hacc; simpl; [lia|].
  assert (0 ≤ sum_by id l).
  { apply sum_by_nonneg. intros y Hy. rewrite Forall_forall in Hl. by apply Hl. }
  change (id x) with x. rewrite IH; unfold saturating_add; lia.
Qed.
