(* ===== verification/Hardfork.v ===== *)
(** * Hardforks and the chain specification

    Models [crates/chainspec/src/hardfork.rs] and the fork schedule of
    [crates/chainspec/src/spec.rs] and [genesis.rs].  The types that come from
    [alloy-hardforks], [reth-chainspec] and [revm] ([ForkCondition],
    [ChainHardforks], [SpecId]) are classes: their operations are parameters and
    their documented behaviour is a class of laws, with a concrete instance in
    [Module Concrete] on which the model can be run. *)

From S2P Require Import Prelude.

(** ** Foreign interfaces *)

(** [alloy_hardforks::ForkCondition]: the constructors and tests the code uses. *)
Class ForkConditionOps (F : Type) := {
  fc_block : Z → F;
  fc_timestamp : Z → F;
  fc_never : F;
  active_at_block : F → Z → bool;
  active_at_timestamp : F → Z → bool;
}.

Class ForkConditionLaws (F : Type) `{ForkConditionOps F} := {
  active_block_block b n : active_at_block (fc_block b) n = (b <=? n);
  active_block_never n : active_at_block fc_never n = false;
  active_timestamp_timestamp t n : active_at_timestamp (fc_timestamp t) n = (t <=? n);
  active_timestamp_block b n : active_at_timestamp (fc_block b) n = false;
  active_timestamp_never n : active_at_timestamp fc_never n = false;
}.

(** [revm::primitives::hardfork::SpecId]: the levels the code names and the test
    [is_enabled_in]. *)
Class SpecIdOps (S : Type) := {
  CANCUN : S;
  PRAGUE : S;
  OSAKA : S;
  is_enabled_in : S → S → bool;
}.

Class SpecIdLaws (S : Type) `{SpecIdOps S} := {
  enabled_refl s : is_enabled_in s s = true;
  osaka_prague : is_enabled_in OSAKA PRAGUE = true;
  prague_not_osaka : is_enabled_in PRAGUE OSAKA = false;
  cancun_not_prague : is_enabled_in CANCUN PRAGUE = false;
  cancun_not_osaka : is_enabled_in CANCUN OSAKA = false;
}.

(** ** Morph hardforks *)

(** [hardfork! { MorphHardfork { ... } }]; the derived order is the order of
    declaration. *)
Inductive MorphHardfork :=
| Bernoulli
| Curie
| Morph203
| Viridian
| Emerald
| Jade
| Celadon.

#[global] Instance MorphHardfork_eq_dec : EqDecision MorphHardfork.
Proof. solve_decision. Defined.

(** The discriminant the derived [PartialOrd] compares. *)
Definition hf_rank (h : MorphHardfork) : Z :=
  match h with
  | Bernoulli => 0 | Curie => 1 | Morph203 => 2 | Viridian => 3
  | Emerald => 4 | Jade => 5 | Celadon => 6
  end.

Definition hf_geb (h1 h2 : MorphHardfork) : bool := hf_rank h2 <=? hf_rank h1.
Definition hf_le (h1 h2 : MorphHardfork) : Prop := hf_rank h1 ≤ hf_rank h2.

Definition is_bernoulli (h : MorphHardfork) : bool := hf_geb h Bernoulli.
Definition is_curie (h : MorphHardfork) : bool := hf_geb h Curie.
Definition is_morph203 (h : MorphHardfork) : bool := hf_geb h Morph203.
Definition is_viridian (h : MorphHardfork) : bool := hf_geb h Viridian.
Definition is_emerald (h : MorphHardfork) : bool := hf_geb h Emerald.
Definition is_jade (h : MorphHardfork) : bool := hf_geb h Jade.
Definition is_celadon (h : MorphHardfork) : bool := hf_geb h Celadon.

(** ** Trait [MorphHardforks] *)

(** A chain specification is seen through the one required method,
    [morph_fork_activation]. *)
Class MorphHardforks (C F : Type) := morph_fork_activation : C → MorphHardfork → F.

Section MorphHardforksTrait.
Context {C F : Type} `{ForkConditionOps F} `{MorphHardforks C F}.
Implicit Types spec : C.

Definition is_bernoulli_active_at_block spec (block_number : Z) : bool :=
  active_at_block (morph_fork_activation spec Bernoulli) block_number.
Definition is_curie_active_at_block spec (block_number : Z) : bool :=
  active_at_block (morph_fork_activation spec Curie) block_number.
Definition is_morph203_active_at_timestamp spec (timestamp : Z) : bool :=
  active_at_timestamp (morph_fork_activation spec Morph203) timestamp.
Definition is_viridian_active_at_timestamp spec (timestamp : Z) : bool :=
  active_at_timestamp (morph_fork_activation spec Viridian) timestamp.
Definition is_emerald_active_at_timestamp spec (timestamp : Z) : bool :=
  active_at_timestamp (morph_fork_activation spec Emerald) timestamp.
Definition is_jade_active_at_timestamp spec (timestamp : Z) : bool :=
  active_at_timestamp (morph_fork_activation spec Jade) timestamp.
Definition is_celadon_active_at_timestamp spec (timestamp : Z) : bool :=
  active_at_timestamp (morph_fork_activation spec Celadon) timestamp.

Definition morph_hardfork_at spec (block_number timestamp : Z) : MorphHardfork :=
  if is_celadon_active_at_timestamp spec timestamp then Celadon
  else if is_jade_active_at_timestamp spec timestamp then Jade
  else if is_emerald_active_at_timestamp spec timestamp then Emerald
  else if is_viridian_active_at_timestamp spec timestamp then Viridian
  else if is_morph203_active_at_timestamp spec timestamp then Morph203
  else if is_curie_active_at_block spec block_number then Curie
  else Bernoulli.
End MorphHardforksTrait.

(** ** Conversions to and from [SpecId] *)

Section SpecIdConversions.
Context {S : Type} `{SpecIdOps S}.

Definition spec_id_of (value : MorphHardfork) : S :=
  match value with
  | Bernoulli | Curie | Morph203 => CANCUN
  | Viridian => PRAGUE
  | Emerald | Jade | Celadon => OSAKA
  end.

Definition hardfork_of_spec_id (spec : S) : MorphHardfork :=
  if is_enabled_in spec OSAKA then Celadon
  else if is_enabled_in spec PRAGUE then Viridian
  else Morph203.
End SpecIdConversions.

(** ** The fork schedule of a genesis file *)

Definition Address := Z.
Definition B256 := Z.

(** [genesis.rs]: [MorphHardforkInfo], [MorphChainConfig], [MorphGenesisInfo]. *)
Record MorphHardforkInfo := {
  bernoulli_block : option Z;
  curie_block : option Z;
  morph203_time : option Z;
  viridian_time : option Z;
  emerald_time : option Z;
  jade_fork_time : option Z;
  celadon_time : option Z;
}.

Definition MorphHardforkInfo_default : MorphHardforkInfo := {|
  bernoulli_block := None; curie_block := None; morph203_time := None;
  viridian_time := None; emerald_time := None; jade_fork_time := None;
  celadon_time := None |}.

Record MorphChainConfig := { fee_vault_address : option Address }.

Record MorphGenesisInfo := {
  hard_fork_info : option MorphHardforkInfo;
  morph_chain_info : MorphChainConfig;
}.

Definition config_is_fee_vault_enabled (c : MorphChainConfig) : bool :=
  bool_decide (is_Some (fee_vault_address c)).

(** [reth_chainspec::ChainHardforks]: a keyed table of conditions.  The code
    inserts under Morph forks and under Ethereum's Prague. *)
Inductive fork_name (E : Type) :=
| MorphFork (h : MorphHardfork)
| EthereumFork (e : E).
Arguments MorphFork {E} h.
Arguments EthereumFork {E} e.

Class ChainHardforksOps (T E F : Type) := {
  hf_fork : T → fork_name E → F;
  hf_insert : fork_name E → F → T → T;
  Prague : E;
}.

Class ChainHardforksLaws (T E F : Type) `{ChainHardforksOps T E F} := {
  hf_fork_insert_eq (t : T) (k : fork_name E) c : hf_fork (hf_insert k c t) k = c;
  hf_fork_insert_ne (t : T) (k k' : fork_name E) c :
    k ≠ k' → hf_fork (hf_insert k c t) k' = hf_fork t k';
}.

Section ChainSpec.
Context {T E F : Type} `{ForkConditionOps F} `{ChainHardforksOps T E F}.

(** [ChainHardforks::extend]. *)
Definition hf_extend (forks : list (fork_name E * F)) (t : T) : T :=
  foldl (λ t '(k, c), hf_insert k c t) t forks.

Definition build_hardforks (base : T) (chain_info : MorphGenesisInfo) : T :=
  let hardfork_info := default MorphHardforkInfo_default (hard_fork_info chain_info) in
  let block_forks :=
    omap (λ '(fork, block), (λ b, (MorphFork fork, fc_block b)) <$> block)
      [(Bernoulli, bernoulli_block hardfork_info); (Curie, curie_block hardfork_info)] in
  let time_forks :=
    omap (λ '(fork, time), (λ t, (MorphFork fork, fc_timestamp t)) <$> time)
      [(Morph203, morph203_time hardfork_info); (Viridian, viridian_time hardfork_info);
       (Emerald, emerald_time hardfork_info); (Jade, jade_fork_time hardfork_info);
       (Celadon, celadon_time hardfork_info)] in
  let hardforks := hf_extend (block_forks ++ time_forks) base in
  match viridian_time hardfork_info with
  | Some viridian_time => hf_insert (EthereumFork Prague) (fc_timestamp viridian_time) hardforks
  | None => hardforks
  end.

(** [MorphChainSpec]: of reth's inner [ChainSpec] the model keeps the fork
    table, which is all that the modelled code reads of it. *)
Record MorphChainSpec := {
  hardforks : T;
  info : MorphGenesisInfo;
}.

#[global] Instance MorphChainSpec_hardforks : MorphHardforks MorphChainSpec F :=
  λ spec fork, hf_fork (hardforks spec) (MorphFork fork).

Definition is_fee_vault_enabled (spec : MorphChainSpec) : bool :=
  config_is_fee_vault_enabled (morph_chain_info (info spec)).

(** The part of [MorphChainSpec::from_genesis_with_config] that fixes the fork
    table and the Morph settings; [base] is the table reth derives. *)
Definition spec_from_genesis (base : T) (chain_info : MorphGenesisInfo) : MorphChainSpec :=
  {| hardforks := build_hardforks base chain_info; info := chain_info |}.

Definition set_hardfork (spec : MorphChainSpec) (hardfork : MorphHardfork) (time : Z)
  : MorphChainSpec :=
  {| hardforks := hf_insert (MorphFork hardfork) (fc_timestamp time) (hardforks spec);
     info := info spec |}.
End ChainSpec.
Arguments MorphChainSpec T : clear implicits.

(** ** Order of hardforks *)

Lemma hf_le_refl h : hf_le h h.
Proof. unfold hf_le. lia. Qed.

Lemma hf_le_trans h1 h2 h3 : hf_le h1 h2 → hf_le h2 h3 → hf_le h1 h3.
Proof. unfold hf_le. lia. Qed.

Lemma hf_geb_mono h h' x : hf_le h h' → hf_geb h x = true → hf_geb h' x = true.
Proof. unfold hf_le, hf_geb. bool_simp. lia. Qed.

Section TraitLemmas.
Context {C F : Type} `{ForkConditionOps F} `{MorphHardforks C F}.
Implicit Types spec : C.

(** Every fork test is stable under growing block numbers and timestamps. *)
Definition schedule_monotone spec : Prop :=
  (∀ b b', b ≤ b' → is_curie_active_at_block spec b = true →
     is_curie_active_at_block spec b' = true)
  ∧ ∀ h t t', t ≤ t' → active_at_timestamp (morph_fork_activation spec h) t = true →
     active_at_timestamp (morph_fork_activation spec h) t' = true.

Lemma hardfork_at_monotone_aux spec b b' t t' :
  schedule_monotone spec → b ≤ b' → t ≤ t' →
  hf_le (morph_hardfork_at spec b t) (morph_hardfork_at spec b' t').
Proof.
  intros [Hb Ht] Hbb Htt. unfold morph_hardfork_at.
  pose proof (Hb b b' Hbb) as HC.
  pose proof (λ h, Ht h t t' Htt) as HT.
  pose proof (HT Celadon); pose proof (HT Jade); pose proof (HT Emerald);
    pose proof (HT Viridian); pose proof (HT Morph203); clear HT Hb Ht.
  unfold is_celadon_active_at_timestamp, is_jade_active_at_timestamp,
    is_emerald_active_at_timestamp, is_viridian_active_at_timestamp,
    is_morph203_active_at_timestamp in *.
  repeat case_match; first [done | by unfold hf_le; simpl; lia
    | exfalso; naive_solver congruence].
Qed.

(** Later forks are only scheduled once the earlier ones are active. *)
Definition schedule_ordered spec (b t : Z) : Prop :=
  (is_celadon_active_at_timestamp spec t = true → is_jade_active_at_timestamp spec t = true)
  ∧ (is_jade_active_at_timestamp spec t = true → is_emerald_active_at_timestamp spec t = true)
  ∧ (is_emerald_active_at_timestamp spec t = true → is_viridian_active_at_timestamp spec t = true)
  ∧ (is_viridian_active_at_timestamp spec t = true → is_morph203_active_at_timestamp spec t = true)
  ∧ (is_morph203_active_at_timestamp spec t = true → is_curie_active_at_block spec b = true).
End TraitLemmas.

Section SpecLemmas.
Context {T E F : Type} `{ForkConditionLaws F} `{ChainHardforksLaws T E F}.

(** What the table built from a genesis answers for a Morph fork. *)
Definition configured (i : MorphHardforkInfo) (h : MorphHardfork) : F :=
  match h with
  | Bernoulli => from_option fc_block fc_never (bernoulli_block i)
  | Curie => from_option fc_block fc_never (curie_block i)
  | Morph203 => from_option fc_timestamp fc_never (morph203_time i)
  | Viridian => from_option fc_timestamp fc_never (viridian_time i)
  | Emerald => from_option fc_timestamp fc_never (emerald_time i)
  | Jade => from_option fc_timestamp fc_never (jade_fork_time i)
  | Celadon => from_option fc_timestamp fc_never (celadon_time i)
  end.

Lemma build_hardforks_lookup (base : T) (ci : MorphGenesisInfo) h :
  (∀ h', hf_fork base (MorphFork h') = fc_never) →
  hf_fork (build_hardforks base ci) (MorphFork h)
  = configured (default MorphHardforkInfo_default (hard_fork_info ci)) h.
Proof.
  intros Hbase. unfold build_hardforks.
  generalize (default MorphHardforkInfo_default (hard_fork_info ci)) as i.
  intros [[] [] [] [] [] [] []]; unfold hf_extend; simpl;
    repeat (rewrite hf_fork_insert_ne by done);
    destruct h; simpl; rewrite ?hf_fork_insert_ne by done;
    repeat first [rewrite hf_fork_insert_eq | rewrite hf_fork_insert_ne by done];
    rewrite ?Hbase; done.
Qed.

Lemma configured_block_active i h b :
  active_at_block (configured i h) b = true →
  (h = Bernoulli ∨ h = Curie) → ∀ b', b ≤ b' → active_at_block (configured i h) b' = true.
Proof.
  intros Ha [-> | ->] b' Hb; simpl in *;
    [destruct (bernoulli_block i) | destruct (curie_block i)]; simpl in *;
    rewrite ?active_block_block, ?active_block_never in *; bool_simp; by try lia.
Qed.

Lemma configured_time_active i h t t' :
  t ≤ t' → active_at_timestamp (configured i h) t = true →
  active_at_timestamp (configured i h) t' = true.
Proof.
  intros Ht. destruct h; simpl;
    (match goal with |- context [from_option _ _ ?o] => destruct o end); simpl;
    rewrite ?active_timestamp_timestamp, ?active_timestamp_block, ?active_timestamp_never;
    bool_simp; by try lia.
Qed.

Lemma spec_from_genesis_monotone (base : T) ci :
  (∀ h, hf_fork base (MorphFork h) = fc_never) →
  schedule_monotone (spec_from_genesis base ci).
Proof.
  intros Hbase. split.
  - intros b b' Hb. unfold is_curie_active_at_block, morph_fork_activation,
      MorphChainSpec_hardforks. simpl. rewrite build_hardforks_lookup by done.
    intros Ha. eapply configured_block_active; eauto.
  - intros h t t' Ht. unfold morph_fork_activation, MorphChainSpec_hardforks. simpl.
    rewrite build_hardforks_lookup by done. by apply configured_time_active.
Qed.
End SpecLemmas.

(** ** Concrete instances *)

Module Concrete.
Inductive ForkCondition := Block (b : Z) | Timestamp (t : Z) | Never.

#[export] Instance fc_ops : ForkConditionOps ForkCondition := {|
  fc_block := Block; fc_timestamp := Timestamp; fc_never := Never;
  active_at_block c n := match c with Block b => b <=? n | _ => false end;
  active_at_timestamp c n := match c with Timestamp t => t <=? n | _ => false end;
|}.
#[export] Instance fc_laws : ForkConditionLaws ForkCondition.
Proof. by split. Qed.

(** A spec level is its rank among CANCUN, PRAGUE and OSAKA. *)
#[export] Instance spec_ops : SpecIdOps Z := {|
  CANCUN := 17; PRAGUE := 18; OSAKA := 19; is_enabled_in s o := o <=? s |}.
#[export] Instance spec_laws : SpecIdLaws Z.
Proof. split; try done. intros s. simpl. bool_simp. lia. Qed.

Definition table := fork_name unit → ForkCondition.

#[export] Instance fork_name_eq_dec : EqDecision (fork_name unit).
Proof. solve_decision. Defined.

#[export] Instance table_ops : ChainHardforksOps table unit ForkCondition := {|
  hf_fork t k := t k;
  hf_insert k c t := λ k', if decide (k = k') then c else t k';
  Prague := tt;
|}.
#[export] Instance table_laws : ChainHardforksLaws table unit ForkCondition.
Proof. split; intros; simpl; by case_decide. Qed.

Definition empty_table : table := λ _, Never.

(** The Morph Mainnet schedule. *)
Definition mainnet_info : MorphGenesisInfo := {|
  hard_fork_info := Some {| bernoulli_block := Some 0; curie_block := Some 0;
    morph203_time := Some 1747029600; viridian_time := Some 1762149600;
    emerald_time := Some 1767765600; jade_fork_time := Some 1775628000;
    celadon_time := Some 1793772000 |};
  morph_chain_info := {| fee_vault_address := Some 0x530000000000000000000000000000000000000A |}
|}.
Definition mainnet : MorphChainSpec table := spec_from_genesis empty_table mainnet_info.
End Concrete.

Import Concrete.

(** ** Theorems *)

(** A chain specification built from any genesis never moves back to an
    earlier hardfork: with growing block number and timestamp the active Morph
    hardfork only advances. *)
Theorem morph_hardfork_at_monotone {T E F : Type}
    `{ForkConditionLaws F} `{ChainHardforksLaws T E F}
    (base : T) (ci : MorphGenesisInfo) (b b' t t' : Z) :
  (∀ h, hf_fork base (MorphFork h) = fc_never) → b ≤ b' → t ≤ t' →
  hf_le (morph_hardfork_at (spec_from_genesis base ci) b t)
        (morph_hardfork_at (spec_from_genesis base ci) b' t').
Proof. intros. apply hardfork_at_monotone_aux; auto using spec_from_genesis_monotone. Qed.

Lemma morph_hardfork_at_monotone_witness :
  hf_le (morph_hardfork_at mainnet 5 1762149600)
        (morph_hardfork_at mainnet 9 1775628000).
Proof.
  apply (morph_hardfork_at_monotone empty_table mainnet_info);
    [reflexivity | lia | lia].
Defined.

(** On a schedule that activates the forks in order, the hardfork selected
    for execution agrees with every single fork test that consensus makes. *)
Theorem hardfork_predicates_agree {C F : Type} `{ForkConditionOps F} `{MorphHardforks C F}
    (spec : C) (b t : Z) :
  schedule_ordered spec b t →
  let h := morph_hardfork_at spec b t in
  is_curie h = is_curie_active_at_block spec b
  ∧ is_morph203 h = is_morph203_active_at_timestamp spec t
  ∧ is_viridian h = is_viridian_active_at_timestamp spec t
  ∧ is_emerald h = is_emerald_active_at_timestamp spec t
  ∧ is_jade h = is_jade_active_at_timestamp spec t
  ∧ is_celadon h = is_celadon_active_at_timestamp spec t.
Proof.
  intros (H1 & H2 & H3 & H4 & H5) h. subst h. unfold morph_hardfork_at.
  destruct (is_celadon_active_at_timestamp spec t), (is_jade_active_at_timestamp spec t),
    (is_emerald_active_at_timestamp spec t), (is_viridian_active_at_timestamp spec t),
    (is_morph203_active_at_timestamp spec t), (is_curie_active_at_block spec b);
    first [by repeat split | exfalso; naive_solver].
Qed.

Lemma hardfork_predicates_agree_witness :
  is_jade (morph_hardfork_at mainnet 5 1775628000) = true.
Proof.
  destruct (hardfork_predicates_agree mainnet 5 1775628000) as (_ & _ & _ & _ & Hj & _).
  { repeat split; vm_compute; auto. }
  rewrite Hj. reflexivity.
Defined.

(** The conversion of an EVM level back to a hardfork picks the latest Morph
    hardfork with that level, and both conversions agree on the level. *)
Theorem spec_id_conversion_latest {S : Type} `{SpecIdLaws S} (h : MorphHardfork) :
  spec_id_of (S:=S) (hardfork_of_spec_id (spec_id_of (S:=S) h)) = spec_id_of h
  ∧ ∀ h', spec_id_of (S:=S) h' = spec_id_of h →
      hf_le h' (hardfork_of_spec_id (spec_id_of (S:=S) h)).
Proof.
  assert ((CANCUN : S) ≠ PRAGUE) as Hcp
    by (intros E; pose proof cancun_not_prague; rewrite E, enabled_refl in *; done).
  assert ((CANCUN : S) ≠ OSAKA) as Hco
    by (intros E; pose proof cancun_not_osaka; rewrite E, enabled_refl in *; done).
  assert ((PRAGUE : S) ≠ OSAKA) as Hpo
    by (intros E; pose proof prague_not_osaka; rewrite E, enabled_refl in *; done).
  unfold hardfork_of_spec_id, hf_le.
  split; [|intros h' Heq]; destruct h; try destruct h'; simpl in *;
    rewrite ?enabled_refl, ?osaka_prague, ?prague_not_osaka, ?cancun_not_prague, ?cancun_not_osaka;
    simpl; first [done | congruence | lia].
Qed.

Lemma spec_id_conversion_latest_witness :
  hf_le Emerald (hardfork_of_spec_id (S := Z) (spec_id_of Jade)).
Proof.
  exact (proj2 (spec_id_conversion_latest (S := Z) Jade) Emerald eq_refl).
Defined.

(** On every chain specification whose genesis schedules Viridian, the
    Ethereum Prague fork (EIP-7702) becomes active exactly when Viridian does. *)
Theorem prague_active_iff_viridian {T E F : Type}
    `{ForkConditionLaws F} `{ChainHardforksLaws T E F}
    (base : T) (ci : MorphGenesisInfo) (i : MorphHardforkInfo) (v t : Z) :
  (∀ h, hf_fork base (MorphFork h) = fc_never) →
  hard_fork_info ci = Some i → viridian_time i = Some v →
  active_at_timestamp (hf_fork (hardforks (spec_from_genesis base ci)) (EthereumFork Prague)) t
  = is_viridian_active_at_timestamp (spec_from_genesis base ci) t.
Proof.
  intros Hbase Hi Hv.
  unfold is_viridian_active_at_timestamp, morph_fork_activation, MorphChainSpec_hardforks.
  simpl. rewrite build_hardforks_lookup by done. unfold build_hardforks.
  rewrite Hi. simpl. rewrite Hv. simpl. by rewrite hf_fork_insert_eq.
Qed.

Lemma prague_active_iff_viridian_witness :
  active_at_timestamp (hf_fork (hardforks mainnet) (EthereumFork Prague)) 1762149600 = true.
Proof.
  unfold mainnet.
  rewrite (prague_active_iff_viridian empty_table mainnet_info
    (default MorphHardforkInfo_default (hard_fork_info mainnet_info)) 1762149600);
    reflexivity.
Defined.
