(* ===== verification/Rlp.v ===== *)
(** * RLP: the interface the transaction codecs rely on

    [alloy-rlp] and the codec helpers of [alloy-consensus] are not part of the
    repository.  This file states what the transaction code relies on as the
    class [AlloyRlp] with the laws [AlloyRlpLaws], and discharges the laws for
    an executable implementation of the RLP standard ([Module Standard]), so
    that every theorem proved against the interface also holds of RLP. *)

From S2P Require Import Prelude.

(** A byte is an integer of width 8, a buffer a list of bytes. *)
Definition bytes := list Z.

Definition len (b : bytes) : Z := Z.of_nat (length b).

Lemma len_app a b : len (a ++ b) = len a + len b.
Proof. unfold len. rewrite length_app. lia. Qed.

Lemma len_nonneg b : 0 ≤ len b.
Proof. unfold len. lia. Qed.

Lemma len_cons x b : len (x :: b) = 1 + len b.
Proof. unfold len. simpl. lia. Qed.

Lemma len_nil : len [] = 0.
Proof. done. Qed.

(** [alloy_rlp::Error], as far as the code builds or inspects it. *)
Inductive rlp_error :=
| InputTooShort
| UnexpectedString
| UnexpectedList
| UnexpectedLength
| Overflow
| LeadingZero
| ListLengthMismatch (expected got : Z)
| Custom (reason : string).

(** [Encodable] and [Decodable] for one type.  Decoding consumes a prefix of the
    buffer and returns the rest, as the [&mut &[u8]] argument does. *)
Record rlp_codec (A : Type) := {
  encode : A → bytes;
  length_of : A → Z;
  decode : bytes → result (A * bytes) rlp_error;
}.
Arguments encode {A} c a : rename.
Arguments length_of {A} c a : rename.
Arguments decode {A} c b : rename.

(** A codec is sound on a domain of values: lengths are exact, decoding undoes
    encoding and leaves the rest of the buffer, no encoding is empty. *)
Record codec_ok {A} (dom : A → Prop) (c : rlp_codec A) : Prop := {
  length_exact a : dom a → length_of c a = len (encode c a);
  decode_encode a rest : dom a → decode c (encode c a ++ rest) = Ok (a, rest);
  encode_nonempty a : dom a → encode c a ≠ [];
}.

(** [alloy_rlp::Header]. *)
Record Header := { hdr_list : bool; payload_length : Z }.

(** ** The interface *)

Inductive TxKind := Create | Call (to : Z).

Definition is_byte (b : Z) : Prop := 0 ≤ b < 256.
Definition is_bytes (b : bytes) : Prop := Forall is_byte b ∧ len b ≤ u64_max.
Lemma is_bytes_nil : is_bytes [].
Proof. split; [constructor|]. rewrite len_nil. ulia. Qed.

Definition is_address (a : Z) : Prop := 0 ≤ a < 2 ^ 160.
Definition tx_kind_ok (k : TxKind) : Prop :=
  match k with Create => True | Call a => is_address a end.

Class AlloyRlp (AccessList SignedAuthorization Signature : Type) := {
  rlp_u8 : rlp_codec Z;
  rlp_u16 : rlp_codec Z;
  rlp_u64 : rlp_codec Z;
  rlp_u128 : rlp_codec Z;
  rlp_u256 : rlp_codec Z;
  rlp_usize : rlp_codec Z;
  rlp_address : rlp_codec Z;
  rlp_tx_kind : rlp_codec TxKind;
  rlp_bytes : rlp_codec bytes;
  (** [[u8; 32]] *)
  rlp_b256 : rlp_codec bytes;
  rlp_access_list : rlp_codec AccessList;
  rlp_auth_list : rlp_codec (list SignedAuthorization);
  header_encode : Header → bytes;
  header_length : Header → Z;
  header_decode : bytes → result (Header * bytes) rlp_error;
  (** [Signature::write_rlp_vrs] and [Signature::decode_rlp_vrs] *)
  rlp_signature : rlp_codec Signature;
  (** The values the foreign types admit. *)
  access_list_ok : AccessList → Prop;
  auth_list_ok : list SignedAuthorization → Prop;
  signature_ok : Signature → Prop;
  (** Default methods of [RlpEcdsaEncodableTx], given the length and the bytes of
      the transaction's fields. *)
  default_rlp_encode : Z → bytes → bytes;
  default_rlp_encoded_length : Z → Z;
  default_rlp_header_signed : Z → Signature → Header;
}.

Class AlloyRlpLaws (AL SA SG : Type) `{AlloyRlp AL SA SG} := {
  rlp_u8_ok : codec_ok is_u8 rlp_u8;
  rlp_u16_ok : codec_ok is_u16 rlp_u16;
  rlp_u64_ok : codec_ok is_u64 rlp_u64;
  rlp_u128_ok : codec_ok is_u128 rlp_u128;
  rlp_u256_ok : codec_ok is_u256 rlp_u256;
  rlp_address_ok : codec_ok is_address rlp_address;
  rlp_tx_kind_ok : codec_ok tx_kind_ok rlp_tx_kind;
  rlp_bytes_ok : codec_ok is_bytes rlp_bytes;
  rlp_access_list_ok : codec_ok access_list_ok rlp_access_list;
  rlp_auth_list_ok : codec_ok auth_list_ok rlp_auth_list;
  rlp_signature_ok : codec_ok signature_ok rlp_signature;
  (** A fixed byte array is the RLP string of its bytes. *)
  rlp_b256_bytes b : len b = 32 →
    encode rlp_b256 b = encode rlp_bytes b ∧ length_of rlp_b256 b = length_of rlp_bytes b;
  (** The integer zero and the empty string have encodings of the same length. *)
  rlp_usize_zero : length_of rlp_usize 0 = length_of rlp_bytes [];
  header_length_exact h : 0 ≤ payload_length h ≤ u64_max →
    header_length h = len (header_encode h);
  (** A list header starts with a byte of at least 0xC0 and decodes back when
      its payload is there. *)
  header_list_byte n : 0 ≤ n ≤ u64_max →
    ∃ b hd, header_encode {| hdr_list := true; payload_length := n |} = b :: hd ∧ 0xC0 ≤ b;
  header_decode_encode n rest : 0 ≤ n ≤ u64_max → n ≤ len rest →
    header_decode (header_encode {| hdr_list := true; payload_length := n |} ++ rest)
    = Ok ({| hdr_list := true; payload_length := n |}, rest);
  default_rlp_encode_spec n fields :
    default_rlp_encode n fields
    = header_encode {| hdr_list := true; payload_length := n |} ++ fields;
  default_rlp_encoded_length_spec n :
    default_rlp_encoded_length n
    = header_length {| hdr_list := true; payload_length := n |} + n;
  default_rlp_header_signed_spec n sig :
    default_rlp_header_signed n sig
    = {| hdr_list := true; payload_length := n + length_of rlp_signature sig |};
}.

(** ** Consequences of the laws *)

Section CodecLemmas.
Context {A : Type} {dom : A → Prop} {c : rlp_codec A} (Hc : codec_ok dom c).

(** Encodings are prefix codes: equal buffers start with equal values. *)
Lemma encode_prefix_inj a b ra rb :
  dom a → dom b → encode c a ++ ra = encode c b ++ rb → a = b ∧ ra = rb.
Proof using Hc.
  intros Ha Hb Heq. pose proof (decode_encode _ _ Hc a ra Ha) as H1.
  rewrite Heq, (decode_encode _ _ Hc b rb Hb) in H1. naive_solver.
Qed.

Lemma encode_len_pos a : dom a → 0 < len (encode c a).
Proof using Hc.
  intros Ha. pose proof (encode_nonempty _ _ Hc a Ha) as Hne.
  destruct (encode c a); [done|]. rewrite len_cons. pose proof (len_nonneg b). lia.
Qed.
End CodecLemmas.

(** ** The RLP standard, as an instance *)

Module Standard.
(** Minimal little-endian digits, at most [n] of them. *)
Fixpoint le_bytes (n : nat) (z : Z) : bytes :=
  match n with
  | O => []
  | S n => if z =? 0 then [] else z mod 256 :: le_bytes n (z / 256)
  end.

Fixpoint of_le (b : bytes) : Z :=
  match b with [] => 0 | x :: b => x + 256 * of_le b end.

(** Exactly [n] little-endian digits. *)
Fixpoint fixed_le (n : nat) (z : Z) : bytes :=
  match n with O => [] | S n => z mod 256 :: fixed_le n (z / 256) end.

Definition be_bytes (n : nat) (z : Z) : bytes := rev (le_bytes n z).
Definition of_be (b : bytes) : Z := of_le (rev b).

Definition hdr (base n : Z) : bytes :=
  if n <=? 55 then [base + n]
  else base + 55 + len (be_bytes 8 n) :: be_bytes 8 n.

Definition with_payload (l : bool) (n : Z) (rest : bytes)
  : result (Header * bytes) rlp_error :=
  if n <=? len rest then Ok ({| hdr_list := l; payload_length := n |}, rest)
  else Err InputTooShort.

Definition long_header (l : bool) (k : Z) (r : bytes) : result (Header * bytes) rlp_error :=
  if k <=? len r
  then with_payload l (of_be (take (Z.to_nat k) r)) (drop (Z.to_nat k) r)
  else Err InputTooShort.

Definition decode_header (b : bytes) : result (Header * bytes) rlp_error :=
  match b with
  | [] => Err InputTooShort
  | x :: r =>
      if x <? 0x80 then Ok ({| hdr_list := false; payload_length := 1 |}, x :: r)
      else if x <? 0xB8 then with_payload false (x - 0x80) r
      else if x <? 0xC0 then long_header false (x - 0xB7) r
      else if x <? 0xF8 then with_payload true (x - 0xC0) r
      else long_header true (x - 0xF7) r
  end.

Definition encode_str (b : bytes) : bytes :=
  match b with
  | [x] => if x <? 0x80 then [x] else hdr 0x80 1 ++ [x]
  | _ => hdr 0x80 (len b) ++ b
  end.

Definition decode_str (b : bytes) : result (bytes * bytes) rlp_error :=
  let? '(h, r) := decode_header b in
  if hdr_list h then Err UnexpectedList
  else Ok (take (Z.to_nat (payload_length h)) r, drop (Z.to_nat (payload_length h)) r).

Definition str_codec : rlp_codec bytes :=
  {| encode := encode_str; length_of b := len (encode_str b); decode := decode_str |}.

Definition map_codec {A B} (f : A → B) (g : B → option A) (c : rlp_codec B) : rlp_codec A := {|
  encode a := encode c (f a);
  length_of a := length_of c (f a);
  decode b :=
    let? '(x, r) := decode c b in
    match g x with Some a => Ok (a, r) | None => Err UnexpectedLength end |}.

Definition uint (n : nat) : rlp_codec Z :=
  map_codec (be_bytes n) (λ b, if len b <=? Z.of_nat n then Some (of_be b) else None) str_codec.

Definition address_bytes (a : Z) : bytes := rev (fixed_le 20 a).

Definition address : rlp_codec Z :=
  map_codec address_bytes (λ b, if len b =? 20 then Some (of_be b) else None) str_codec.

Definition tx_kind : rlp_codec TxKind :=
  map_codec (λ k, match k with Create => [] | Call a => address_bytes a end)
    (λ b, if len b =? 0 then Some Create
          else if len b =? 20 then Some (Call (of_be b)) else None) str_codec.

Definition payload (l : list bytes) : bytes := concat (map encode_str l).

(** Decodes items until the payload of [n] bytes is used up. *)
Fixpoint decode_items (fuel : nat) (b : bytes) : result (list bytes) rlp_error :=
  match fuel, b with
  | _, [] => Ok []
  | O, _ => Err InputTooShort
  | S fuel, _ =>
      let? '(x, r) := decode_str b in
      let? l := decode_items fuel r in
      Ok (x :: l)
  end.

Definition str_list : rlp_codec (list bytes) := {|
  encode l := hdr 0xC0 (len (payload l)) ++ payload l;
  length_of l := len (hdr 0xC0 (len (payload l)) ++ payload l);
  decode b :=
    let? '(h, r) := decode_header b in
    if negb (hdr_list h) then Err UnexpectedString
    else
      let n := Z.to_nat (payload_length h) in
      let? l := decode_items n (take n r) in Ok (l, drop n r) |}.

Definition pair_codec {A B} (c : rlp_codec A) (d : rlp_codec B) : rlp_codec (A * B) := {|
  encode p := encode c p.1 ++ encode d p.2;
  length_of p := length_of c p.1 + length_of d p.2;
  decode b := let? '(x, r) := decode c b in let? '(y, r) := decode d r in Ok ((x, y), r) |}.

Definition parity : rlp_codec bool :=
  map_codec (λ v : bool, be_bytes 1 (if v then 1 else 0)) (λ b, Some (of_be b =? 1)) str_codec.

Definition header_bytes (h : Header) : bytes :=
  hdr (if hdr_list h then 0xC0 else 0x80) (payload_length h).

Definition str_list_ok (l : list bytes) : Prop :=
  Forall is_bytes l ∧ len (payload l) ≤ u64_max.

Definition Signature : Type := bool * (Z * Z).

#[export] Instance ops : AlloyRlp (list bytes) bytes Signature := {|
  rlp_u8 := uint 1; rlp_u16 := uint 2; rlp_u64 := uint 8; rlp_u128 := uint 16;
  rlp_u256 := uint 32; rlp_usize := uint 8; rlp_address := address;
  rlp_tx_kind := tx_kind; rlp_bytes := str_codec; rlp_b256 := str_codec;
  rlp_access_list := str_list; rlp_auth_list := str_list;
  header_encode := header_bytes; header_length h := len (header_bytes h);
  header_decode := decode_header;
  rlp_signature := pair_codec parity (pair_codec (uint 32) (uint 32));
  access_list_ok := str_list_ok; auth_list_ok := str_list_ok;
  signature_ok s := is_u256 s.2.1 ∧ is_u256 s.2.2;
  default_rlp_encode n fields := header_bytes {| hdr_list := true; payload_length := n |} ++ fields;
  default_rlp_encoded_length n :=
    len (header_bytes {| hdr_list := true; payload_length := n |}) + n;
  default_rlp_header_signed n s :=
    {| hdr_list := true;
       payload_length := n + length_of (pair_codec parity (pair_codec (uint 32) (uint 32))) s |};
|}.

(** *** Digits *)

Lemma of_le_le_bytes n z : 0 ≤ z < 256 ^ Z.of_nat n → of_le (le_bytes n z) = z.
Proof.
  revert z. induction n as [|n IH]; intros z Hz; simpl; [change (256 ^ 0) with 1 in Hz; lia|].
  destruct (Z.eqb_spec z 0) as [->|Hne]; [done|]. simpl. rewrite IH.
  - pose proof (Z.div_mod z 256). lia.
  - rewrite Nat2Z.inj_succ, Z.pow_succ_r in Hz by lia.
    split; [apply Z.div_pos; lia|]. apply Z.div_lt_upper_bound; lia.
Qed.

Lemma of_le_fixed_le n z : 0 ≤ z < 256 ^ Z.of_nat n → of_le (fixed_le n z) = z.
Proof.
  revert z. induction n as [|n IH]; intros z Hz; simpl; [change (256 ^ 0) with 1 in Hz; lia|].
  rewrite IH.
  - pose proof (Z.div_mod z 256). lia.
  - rewrite Nat2Z.inj_succ, Z.pow_succ_r in Hz by lia.
    split; [apply Z.div_pos; lia|]. apply Z.div_lt_upper_bound; lia.
Qed.

Lemma le_bytes_byte n z : Forall is_byte (le_bytes n z).
Proof.
  revert z. induction n as [|n IH]; intros z; simpl; [constructor|].
  destruct (z =? 0); constructor; [|done]. unfold is_byte. apply Z.mod_pos_bound. lia.
Qed.

Lemma fixed_le_byte n z : Forall is_byte (fixed_le n z).
Proof.
  revert z. induction n as [|n IH]; intros z; simpl; constructor; [|done].
  unfold is_byte. apply Z.mod_pos_bound. lia.
Qed.

Lemma length_le_bytes n z : (length (le_bytes n z) ≤ n)%nat.
Proof.
  revert z. induction n as [|n IH]; intros z; simpl; [lia|].
  destruct (z =? 0); simpl; [lia|]. specialize (IH (z / 256)). lia.
Qed.

Lemma length_fixed_le n z : length (fixed_le n z) = n.
Proof. revert z. induction n as [|n IH]; intros z; simpl; [done|]. by rewrite IH. Qed.

Lemma be_bytes_len n z : 0 ≤ len (be_bytes n z) ≤ Z.of_nat n.
Proof. unfold be_bytes, len. rewrite length_rev. pose proof (length_le_bytes n z). lia. Qed.

Lemma of_be_be_bytes n z : 0 ≤ z < 256 ^ Z.of_nat n → of_be (be_bytes n z) = z.
Proof. intros. unfold of_be, be_bytes. rewrite rev_involutive. by apply of_le_le_bytes. Qed.

Lemma be_bytes_ok n z : (Z.of_nat n ≤ 1000) → is_bytes (be_bytes n z).
Proof.
  intros Hn. split.
  - unfold be_bytes. apply List.Forall_rev, le_bytes_byte.
  - pose proof (be_bytes_len n z). ulia.
Qed.

Lemma be_bytes_pos n z : 0 < z < 256 ^ Z.of_nat n → 0 < len (be_bytes n z).
Proof.
  intros Hz. unfold be_bytes, len. rewrite length_rev.
  destruct n; [change (256 ^ 0) with 1 in Hz; lia|]. simpl.
  destruct (Z.eqb_spec z 0); [lia|]. simpl. lia.
Qed.

(** *** Headers and strings *)

Lemma u64_256 : u64_max < 256 ^ Z.of_nat 8.
Proof. reflexivity. Qed.

Lemma take_drop_app (a b : bytes) :
  take (Z.to_nat (len a)) (a ++ b) = a ∧ drop (Z.to_nat (len a)) (a ++ b) = b.
Proof.
  unfold len. rewrite Nat2Z.id. split; [apply take_app_length | apply drop_app_length].
Qed.

Lemma long_header_be l n rest :
  0 ≤ n ≤ u64_max → n ≤ len rest →
  long_header l (len (be_bytes 8 n)) (be_bytes 8 n ++ rest)
  = Ok ({| hdr_list := l; payload_length := n |}, rest).
Proof.
  intros Hn Hr. unfold long_header. rewrite len_app.
  destruct (take_drop_app (be_bytes 8 n) rest) as [-> ->].
  rewrite of_be_be_bytes by (pose proof u64_256; lia).
  pose proof (len_nonneg rest).
  destruct (Z.leb_spec (len (be_bytes 8 n)) (len (be_bytes 8 n) + len rest)); [|lia].
  unfold with_payload. destruct (Z.leb_spec n (len rest)); [done|lia].
Qed.

Lemma decode_header_hdr (l : bool) n rest :
  0 ≤ n ≤ u64_max → n ≤ len rest →
  decode_header (hdr (if l then 0xC0 else 0x80) n ++ rest)
  = Ok ({| hdr_list := l; payload_length := n |}, rest).
Proof.
  intros Hn Hr. unfold hdr. destruct (Z.leb_spec n 55) as [Hs|Hs].
  - assert (with_payload l n rest = Ok ({| hdr_list := l; payload_length := n |}, rest)) as Hw
      by (unfold with_payload; destruct (Z.leb_spec n (len rest)); [done|lia]).
    destruct l; cbn -[with_payload]; (repeat case_match; bool_simp; try lia);
      rewrite <-Hw; f_equal; lia.
  - pose proof (be_bytes_len 8 n). pose proof (be_bytes_pos 8 n).
    pose proof u64_256. pose proof (long_header_be l n rest Hn Hr) as Hl.
    destruct l; cbn -[be_bytes long_header]; (repeat case_match; bool_simp; try lia);
      rewrite <-Hl; f_equal; lia.
Qed.

Lemma decode_header_str b rest : is_bytes b →
  decode_header (encode_str b ++ rest)
  = Ok ({| hdr_list := false; payload_length := len b |}, b ++ rest).
Proof.
  intros [Hb Hlen]. pose proof (len_nonneg b). pose proof (len_nonneg rest).
  assert (decode_header (hdr 0x80 (len b) ++ (b ++ rest))
    = Ok ({| hdr_list := false; payload_length := len b |}, b ++ rest)) as Hd.
  { apply (decode_header_hdr false); [lia|]. rewrite len_app. lia. }
  unfold encode_str. destruct b as [|x [|y b]]; try by rewrite <-app_assoc.
  destruct (Z.ltb_spec x 0x80); [|by rewrite <-app_assoc].
  simpl. destruct (Z.ltb_spec x 0x80); [done|lia].
Qed.

Lemma decode_str_encode b rest : is_bytes b → decode_str (encode_str b ++ rest) = Ok (b, rest).
Proof.
  intros Hb. unfold decode_str. rewrite decode_header_str by done. simpl.
  by destruct (take_drop_app b rest) as [-> ->].
Qed.

Lemma hdr_nonempty base n : hdr base n ≠ [].
Proof. unfold hdr. by destruct (n <=? 55). Qed.

Lemma encode_str_nonempty b : encode_str b ≠ [].
Proof.
  unfold encode_str. destruct b as [|x [|y b]]; [done| |].
  - by destruct (x <? 128).
  - intros [Hh _]%app_eq_nil. by apply hdr_nonempty in Hh.
Qed.

Lemma str_codec_ok : codec_ok is_bytes str_codec.
Proof.
  split; simpl; [done| |intros; apply encode_str_nonempty].
  intros. by apply decode_str_encode.
Qed.

Lemma map_codec_ok {A B} (f : A → B) g (c : rlp_codec B) (da : A → Prop) (db : B → Prop) :
  codec_ok db c → (∀ a, da a → db (f a)) → (∀ a, da a → g (f a) = Some a) →
  codec_ok da (map_codec f g c).
Proof.
  intros Hc Hf Hg. split; simpl; intros a.
  - intros Ha. eapply length_exact; eauto.
  - intros rest Ha. rewrite (decode_encode _ _ Hc) by auto. simpl. by rewrite Hg.
  - intros Ha. eapply encode_nonempty; eauto.
Qed.

Lemma uint_ok n m : Z.of_nat n ≤ 1000 → m < 256 ^ Z.of_nat n → codec_ok (in_range m) (uint n).
Proof.
  intros Hn Hm. eapply map_codec_ok; [apply str_codec_ok| |].
  - intros a Ha. by apply be_bytes_ok.
  - intros a [H0 Ha]. pose proof (be_bytes_len n a). simpl.
    destruct (Z.leb_spec (len (be_bytes n a)) (Z.of_nat n)); [|lia].
    rewrite of_be_be_bytes by lia. done.
Qed.

Lemma address_bytes_facts a : is_address a →
  is_bytes (address_bytes a) ∧ len (address_bytes a) = 20 ∧ of_be (address_bytes a) = a.
Proof.
  intros Ha. unfold address_bytes, len, of_be. rewrite length_rev, length_fixed_le.
  split; [|split; [done|]].
  - split; [apply List.Forall_rev, fixed_le_byte|].
    unfold len. rewrite length_rev, length_fixed_le. ulia.
  - rewrite rev_involutive. apply of_le_fixed_le. exact Ha.
Qed.

Lemma address_ok : codec_ok is_address address.
Proof.
  eapply map_codec_ok; [apply str_codec_ok| |]; intros a Ha;
    destruct (address_bytes_facts a Ha) as (Hb & Hl & Hv); [done|].
  by rewrite Hl, Hv.
Qed.

Lemma tx_kind_codec_ok : codec_ok tx_kind_ok tx_kind.
Proof.
  eapply map_codec_ok; [apply str_codec_ok| |]; intros [|a] Ha; simpl in *;
    try (destruct (address_bytes_facts a Ha) as (Hb & Hl & Hv)); try done;
    try apply is_bytes_nil; by rewrite ?Hl, ?Hv.
Qed.

(** *** Lists of strings *)

Lemma decode_items_payload l fuel : Forall is_bytes l → (length (payload l) ≤ fuel)%nat →
  decode_items fuel (payload l) = Ok l.
Proof.
  intros Hl. revert fuel. induction Hl as [|b l Hb Hl IH]; intros fuel Hf.
  - by destruct fuel.
  - change (payload (b :: l)) with (encode_str b ++ payload l) in *.
    rewrite length_app in Hf. pose proof (encode_str_nonempty b) as Hne.
    destruct (encode_str b ++ payload l) eqn:He;
      [by apply app_eq_nil in He as [??]|].
    destruct fuel as [|fuel]; [destruct (encode_str b); simpl in *; [done|lia]|].
    cbn [decode_items]. rewrite <-He, decode_str_encode by done. cbn [result_bind].
    rewrite IH; [done|]. destruct (encode_str b); simpl in *; [done|lia].
Qed.

Lemma str_list_codec_ok : codec_ok str_list_ok str_list.
Proof.
  split; simpl; [done| |].
  - intros l rest [Hl Hn]. pose proof (len_nonneg (payload l)). pose proof (len_nonneg rest).
    rewrite <-app_assoc, (decode_header_hdr true) by (rewrite ?len_app; lia). simpl.
    destruct (take_drop_app (payload l) rest) as [-> ->].
    rewrite decode_items_payload; [done|done|]. unfold len. lia.
  - intros l _ [Hh _]%app_eq_nil. by apply hdr_nonempty in Hh.
Qed.

Lemma pair_codec_ok {A B} (c : rlp_codec A) (d : rlp_codec B) da db :
  codec_ok da c → codec_ok db d → codec_ok (λ p, da p.1 ∧ db p.2) (pair_codec c d).
Proof.
  intros Hc Hd. split; simpl; intros [a b]; simpl.
  - intros [Ha Hb]. rewrite len_app, (length_exact _ _ Hc), (length_exact _ _ Hd) by done. done.
  - intros rest [Ha Hb]. rewrite <-app_assoc, (decode_encode _ _ Hc) by done. simpl.
    by rewrite (decode_encode _ _ Hd).
  - intros [Ha Hb] [He _]%app_eq_nil. by apply (encode_nonempty _ _ Hc) in He.
Qed.

Lemma parity_ok : codec_ok (λ _ : bool, True) parity.
Proof.
  eapply map_codec_ok; [apply str_codec_ok| |]; intros v _; [by apply be_bytes_ok|].
  by destruct v.
Qed.

#[export] Instance laws : AlloyRlpLaws (list bytes) bytes Signature.
Proof.
  split; simpl; try (apply uint_ok; by vm_compute).
  - apply address_ok.
  - apply tx_kind_codec_ok.
  - apply str_codec_ok.
  - apply str_list_codec_ok.
  - apply str_list_codec_ok.
  - assert (codec_ok is_u256 (uint 32)) by (apply uint_ok; by vm_compute).
    pose proof (pair_codec_ok _ _ _ _ parity_ok (pair_codec_ok _ _ _ _ H H)) as [H1 H2 H3].
    split; naive_solver.
  - done.
  - done.
  - done.
  - intros n Hn. unfold header_bytes, hdr. simpl.
    destruct (Z.leb_spec n 55); do 2 eexists; (split; [done|]); [lia|].
    pose proof (be_bytes_len 8 n). lia.
  - intros n rest Hn Hr. by apply (decode_header_hdr true).
  - done.
  - done.
  - done.
Qed.
End Standard.
