(* ===== verification/MorphTx.v ===== *)
(** * The Morph transaction (type 0x7F)

    Models [crates/primitives/src/transaction/morph_transaction.rs]: the
    validation rules of the three wire versions, the effective gas price, the
    wire and signing encodings and their decoders, and the packing of memo and
    input in the database encoding.  Foreign codecs are those of [Rlp]. *)

From S2P Require Import Prelude Rlp.

Module TxMorph.

(** ** Data *)

Definition MORPH_TX_TYPE_ID : Z := 0x7F.
Definition MORPH_TX_VERSION_0 : Z := 0.
Definition MORPH_TX_VERSION_1 : Z := 1.
Definition MORPH_TX_VERSION_2 : Z := 2.
Definition MAX_MEMO_LENGTH : Z := 64.

Definition B256_ZERO : bytes := replicate 32 0.

Section Data.
Context {AccessList SignedAuthorization : Type}.

Record TxMorph := {
  chain_id : Z;
  nonce : Z;
  gas_limit : Z;
  max_fee_per_gas : Z;
  max_priority_fee_per_gas : Z;
  to : TxKind;
  value : Z;
  access_list : AccessList;
  version : Z;
  fee_token_id : Z;
  fee_limit : Z;
  reference : option bytes;
  memo : option bytes;
  authorization_list : list SignedAuthorization;
  input : bytes;
}.
End Data.
Arguments TxMorph : clear implicits.

Definition is_create (k : TxKind) : bool := match k with Create => true | Call _ => false end.

Definition set_version {AL SA} (tx : TxMorph AL SA) (v : Z) : TxMorph AL SA :=
  {| chain_id := chain_id tx; nonce := nonce tx; gas_limit := gas_limit tx;
     max_fee_per_gas := max_fee_per_gas tx;
     max_priority_fee_per_gas := max_priority_fee_per_gas tx; to := to tx;
     value := value tx; access_list := access_list tx; version := v;
     fee_token_id := fee_token_id tx; fee_limit := fee_limit tx;
     reference := reference tx; memo := memo tx;
     authorization_list := authorization_list tx; input := input tx |}.

(** ** Validation and gas price *)

Section Operations.
Context {AL SA : Type}.
Implicit Types tx : TxMorph AL SA.

Definition is_v0 tx : bool := version tx =? MORPH_TX_VERSION_0.
Definition is_v1 tx : bool := version tx =? MORPH_TX_VERSION_1.
Definition is_v2 tx : bool := version tx =? MORPH_TX_VERSION_2.

Definition has_authorizations tx : bool :=
  match authorization_list tx with [] => false | _ => true end.

(** The sum [max_priority_fee_per_gas + base_fee as u128] is taken at width
    128: it wraps when it does not fit. *)
Definition effective_gas_price tx (base_fee : option Z) : Z :=
  match base_fee with
  | None => max_fee_per_gas tx
  | Some base_fee =>
      let tip := saturating_sub (max_fee_per_gas tx) base_fee in
      if max_priority_fee_per_gas tx <? tip
      then (max_priority_fee_per_gas tx + base_fee) mod (u128_max + 1)
      else max_fee_per_gas tx
  end.

Definition validate_version tx : result unit string :=
  if version tx =? MORPH_TX_VERSION_0 then
    reject "version 0 MorphTx requires FeeTokenID > 0"%string
      when fee_token_id tx =? 0 in
    reject "version 0 MorphTx does not support Reference field"%string
      when match reference tx with Some r => bool_decide (r ≠ B256_ZERO) | None => false end in
    reject "version 0 MorphTx does not support Memo field"%string
      when match memo tx with Some m => negb (len m =? 0) | None => false end in
    reject "version 0 MorphTx does not support authorization list"%string
      when has_authorizations tx in
    Ok tt
  else if version tx =? MORPH_TX_VERSION_1 then
    reject "version 1 MorphTx cannot have FeeLimit when FeeTokenID is 0"%string
      when (fee_token_id tx =? 0) && (0 <? fee_limit tx) in
    reject "version 1 MorphTx does not support authorization list"%string
      when has_authorizations tx in
    Ok tt
  else if version tx =? MORPH_TX_VERSION_2 then
    reject "version 2 MorphTx cannot have FeeLimit when FeeTokenID is 0"%string
      when (fee_token_id tx =? 0) && (0 <? fee_limit tx) in
    reject "MorphTx with an authorization list cannot create a contract"%string
      when has_authorizations tx && is_create (to tx) in
    Ok tt
  else Err "unsupported MorphTx version"%string.

Definition validate tx : result unit string :=
  reject "max priority fee per gas exceeds max fee per gas"%string
    when max_fee_per_gas tx <? max_priority_fee_per_gas tx in
  reject "memo exceeds maximum length of 64 bytes"%string
    when match memo tx with Some m => MAX_MEMO_LENGTH <? len m | None => false end in
  validate_version tx.

Definition inferred_version (has_authorizations : bool) : Z :=
  if has_authorizations then MORPH_TX_VERSION_2 else MORPH_TX_VERSION_1.

Definition with_inferred_version tx : TxMorph AL SA :=
  set_version tx (inferred_version (has_authorizations tx)).

(** The list that is part of the wire and signing encodings; the debug
    assertion of the code is not part of a release build. *)
Definition encoded_authorization_list tx : list SA :=
  if is_v2 tx then authorization_list tx else [].

(** [Transaction::authorization_list]: the version-gated view. *)
Definition applied_authorization_list tx : option (list SA) :=
  if is_v2 tx && has_authorizations tx then Some (authorization_list tx) else None.

Definition uses_token_fee tx : bool := 0 <? fee_token_id tx.
Definition has_reference tx : bool := bool_decide (is_Some (reference tx)).
Definition has_memo tx : bool :=
  match memo tx with Some m => negb (len m =? 0) | None => false end.
End Operations.

(** ** Encodings *)

Section Encoding.
Context {AL SA SG : Type} `{AlloyRlp AL SA SG}.
Implicit Types tx : TxMorph AL SA.

Definition fields_len tx : Z :=
  let common :=
    length_of rlp_u64 (chain_id tx) + length_of rlp_u64 (nonce tx)
    + length_of rlp_u128 (max_priority_fee_per_gas tx)
    + length_of rlp_u128 (max_fee_per_gas tx)
    + length_of rlp_u64 (gas_limit tx) + length_of rlp_tx_kind (to tx)
    + length_of rlp_u256 (value tx) + length_of rlp_bytes (input tx)
    + length_of rlp_access_list (access_list tx)
    + length_of rlp_u16 (fee_token_id tx) + length_of rlp_u256 (fee_limit tx) in
  let v1 :=
    if negb (is_v0 tx) then
      from_option (length_of rlp_b256) (length_of rlp_usize 0) (reference tx)
      + from_option (length_of rlp_bytes) (length_of rlp_usize 0) (memo tx)
    else 0 in
  let v2 :=
    if is_v2 tx then length_of rlp_auth_list (encoded_authorization_list tx) else 0 in
  common + v1 + v2.

Definition encode_common tx : bytes :=
  encode rlp_u64 (chain_id tx) ++ encode rlp_u64 (nonce tx)
  ++ encode rlp_u128 (max_priority_fee_per_gas tx)
  ++ encode rlp_u128 (max_fee_per_gas tx)
  ++ encode rlp_u64 (gas_limit tx) ++ encode rlp_tx_kind (to tx)
  ++ encode rlp_u256 (value tx) ++ encode rlp_bytes (input tx)
  ++ encode rlp_access_list (access_list tx)
  ++ encode rlp_u16 (fee_token_id tx) ++ encode rlp_u256 (fee_limit tx).

Definition encode_reference tx : bytes :=
  match reference tx with Some r => encode rlp_b256 r | None => encode rlp_bytes [] end.

Definition encode_memo tx : bytes :=
  match memo tx with Some m => encode rlp_bytes m | None => encode rlp_bytes [] end.

Definition encode_fields tx : bytes :=
  encode_common tx
  ++ (if negb (is_v0 tx) then encode_reference tx ++ encode_memo tx else [])
  ++ (if is_v2 tx then encode rlp_auth_list (encoded_authorization_list tx) else []).

(** Signing: the version is a field of the list instead of a prefix byte. *)
Definition sig_hash_fields_len tx : Z :=
  let common :=
    length_of rlp_u64 (chain_id tx) + length_of rlp_u64 (nonce tx)
    + length_of rlp_u128 (max_priority_fee_per_gas tx)
    + length_of rlp_u128 (max_fee_per_gas tx)
    + length_of rlp_u64 (gas_limit tx) + length_of rlp_tx_kind (to tx)
    + length_of rlp_u256 (value tx) + length_of rlp_bytes (input tx)
    + length_of rlp_access_list (access_list tx)
    + length_of rlp_u16 (fee_token_id tx) + length_of rlp_u256 (fee_limit tx) in
  let v1 :=
    if negb (is_v0 tx) then
      length_of rlp_u8 (version tx)
      + from_option (length_of rlp_b256) (length_of rlp_usize 0) (reference tx)
      + from_option (length_of rlp_bytes) (length_of rlp_usize 0) (memo tx)
    else 0 in
  let v2 :=
    if is_v2 tx then length_of rlp_auth_list (encoded_authorization_list tx) else 0 in
  common + v1 + v2.

Definition encode_sig_hash_fields tx : bytes :=
  encode_common tx
  ++ (if negb (is_v0 tx)
      then encode rlp_u8 (version tx) ++ encode_reference tx ++ encode_memo tx else [])
  ++ (if is_v2 tx then encode rlp_auth_list (encoded_authorization_list tx) else []).

Definition encode_for_sig_hash tx : bytes :=
  [MORPH_TX_TYPE_ID]
  ++ header_encode {| hdr_list := true; payload_length := sig_hash_fields_len tx |}
  ++ encode_sig_hash_fields tx.

Definition signature_hash (keccak256 : bytes → bytes) tx : bytes :=
  keccak256 (encode_for_sig_hash tx).

Definition payload_len_for_signature tx : Z :=
  let payload_length := sig_hash_fields_len tx in
  1 + header_length {| hdr_list := true; payload_length := payload_length |} + payload_length.

(** [Encodable for TxMorph]. *)
Definition tx_encode tx : bytes :=
  (if negb (is_v0 tx) then [version tx] else [])
  ++ default_rlp_encode (fields_len tx) (encode_fields tx).

Definition tx_length tx : Z :=
  if is_v0 tx then default_rlp_encoded_length (fields_len tx)
  else 1 + default_rlp_encoded_length (fields_len tx).

(** [Encodable2718 for TxMorph]. *)
Definition encode_2718_len tx : Z := 1 + tx_length tx.
Definition encode_2718 tx : bytes := [MORPH_TX_TYPE_ID] ++ tx_encode tx.

(** [RlpEcdsaEncodableTx for TxMorph]. *)
Definition rlp_encode_signed tx (signature : SG) : bytes :=
  (if negb (is_v0 tx) then [version tx] else [])
  ++ header_encode (default_rlp_header_signed (fields_len tx) signature)
  ++ encode_fields tx
  ++ encode rlp_signature signature.

Definition rlp_encoded_length_with_signature tx (signature : SG) : Z :=
  let h := default_rlp_header_signed (fields_len tx) signature in
  let base := header_length h + payload_length h in
  if is_v0 tx then base else base + 1.
End Encoding.

(** ** Decoders *)

Section Decoding.
Context {AL SA SG : Type} `{AlloyRlp AL SA SG}.

Definition wire_version (first_byte : Z) : result (Z * bool) rlp_error :=
  if (first_byte =? MORPH_TX_VERSION_0) || (0xC0 <=? first_byte)
  then Ok (MORPH_TX_VERSION_0, false)
  else if (first_byte =? MORPH_TX_VERSION_1) || (first_byte =? MORPH_TX_VERSION_2)
  then Ok (first_byte, true)
  else Err (Custom "unsupported morph tx version"%string).

Definition decode_reference (reference_bytes : bytes) : result (option bytes) rlp_error :=
  if len reference_bytes =? 0 then Ok None
  else if len reference_bytes =? 32 then Ok (Some reference_bytes)
  else Err (Custom "invalid reference length"%string).

Definition decode_memo (memo_bytes : bytes) : result (option bytes) rlp_error :=
  if len memo_bytes =? 0 then Ok None
  else if MAX_MEMO_LENGTH <? len memo_bytes
  then Err (Custom "memo exceeds maximum length"%string)
  else Ok (Some memo_bytes).

Definition decode_fields_versioned_inner (version : Z) (buf : bytes)
  : result (TxMorph AL SA * bytes) rlp_error :=
  let? '(chain_id, buf) := decode rlp_u64 buf in
  let? '(nonce, buf) := decode rlp_u64 buf in
  let? '(max_priority_fee_per_gas, buf) := decode rlp_u128 buf in
  let? '(max_fee_per_gas, buf) := decode rlp_u128 buf in
  let? '(gas_limit, buf) := decode rlp_u64 buf in
  let? '(to, buf) := decode rlp_tx_kind buf in
  let? '(value, buf) := decode rlp_u256 buf in
  let? '(input, buf) := decode rlp_bytes buf in
  let? '(access_list, buf) := decode rlp_access_list buf in
  let? '(fee_token_id, buf) := decode rlp_u16 buf in
  let? '(fee_limit, buf) := decode rlp_u256 buf in
  let? '(reference_bytes, buf) := decode rlp_bytes buf in
  let? reference := decode_reference reference_bytes in
  let? '(memo_bytes, buf) := decode rlp_bytes buf in
  let? memo := decode_memo memo_bytes in
  let? '(authorization_list, buf) :=
    (if version =? MORPH_TX_VERSION_2 then decode rlp_auth_list buf else Ok ([], buf)) in
  Ok ({| chain_id := chain_id; nonce := nonce; gas_limit := gas_limit;
         max_fee_per_gas := max_fee_per_gas;
         max_priority_fee_per_gas := max_priority_fee_per_gas; to := to; value := value;
         access_list := access_list; version := version; fee_token_id := fee_token_id;
         fee_limit := fee_limit; reference := reference; memo := memo;
         authorization_list := authorization_list; input := input |}, buf).

Definition decode_fields_v1_inner := decode_fields_versioned_inner MORPH_TX_VERSION_1.
Definition decode_fields_v2_inner := decode_fields_versioned_inner MORPH_TX_VERSION_2.

Definition decode_fields_v0_inner (buf : bytes) : result (TxMorph AL SA * bytes) rlp_error :=
  let? '(chain_id, buf) := decode rlp_u64 buf in
  let? '(nonce, buf) := decode rlp_u64 buf in
  let? '(max_priority_fee_per_gas, buf) := decode rlp_u128 buf in
  let? '(max_fee_per_gas, buf) := decode rlp_u128 buf in
  let? '(gas_limit, buf) := decode rlp_u64 buf in
  let? '(to, buf) := decode rlp_tx_kind buf in
  let? '(value, buf) := decode rlp_u256 buf in
  let? '(input, buf) := decode rlp_bytes buf in
  let? '(access_list, buf) := decode rlp_access_list buf in
  let? '(fee_token_id, buf) := decode rlp_u16 buf in
  let? '(fee_limit, buf) := decode rlp_u256 buf in
  reject Custom "invalid fee token id, expected non-zero for V0"%string
    when fee_token_id =? 0 in
  Ok ({| chain_id := chain_id; nonce := nonce; gas_limit := gas_limit;
         max_fee_per_gas := max_fee_per_gas;
         max_priority_fee_per_gas := max_priority_fee_per_gas; to := to; value := value;
         access_list := access_list; version := MORPH_TX_VERSION_0;
         fee_token_id := fee_token_id; fee_limit := fee_limit; reference := None;
         memo := None; authorization_list := []; input := input |}, buf).

(** The version's inner decoder, as the [match version] of the code selects it. *)
Definition decode_inner (version : Z) : bytes → result (TxMorph AL SA * bytes) rlp_error :=
  if version =? MORPH_TX_VERSION_0 then decode_fields_v0_inner
  else if version =? MORPH_TX_VERSION_1 then decode_fields_v1_inner
  else decode_fields_v2_inner.

Definition decode_exact_list
    (decode_inner : bytes → result (TxMorph AL SA * bytes) rlp_error) (buf : bytes)
  : result (TxMorph AL SA * bytes) rlp_error :=
  let? '(header, buf) := header_decode buf in
  reject UnexpectedString when negb (hdr_list header) in
  let remaining := len buf in
  reject InputTooShort when remaining <? payload_length header in
  let? '(tx, buf) := decode_inner buf in
  reject ListLengthMismatch (payload_length header) (remaining - len buf)
    when negb (len buf + payload_length header =? remaining) in
  Ok (tx, buf).

Definition decode_fields_v0 := decode_exact_list decode_fields_v0_inner.
Definition decode_fields_versioned (buf : bytes) (version : Z) :=
  decode_exact_list (decode_fields_versioned_inner version) buf.
Definition decode_fields_v1 (buf : bytes) := decode_fields_versioned buf MORPH_TX_VERSION_1.
Definition decode_fields_v2 (buf : bytes) := decode_fields_versioned buf MORPH_TX_VERSION_2.

Definition decode_fields (buf : bytes) : result (TxMorph AL SA * bytes) rlp_error :=
  match buf with
  | [] => Err InputTooShort
  | b :: rest =>
      let? '(version, has_version_byte) := wire_version b in
      let buf := if has_version_byte : bool then rest else buf in
      if version =? MORPH_TX_VERSION_0 then decode_fields_v0 buf
      else if version =? MORPH_TX_VERSION_1 then decode_fields_v1 buf
      else decode_fields_v2 buf
  end.

(** [Decodable for TxMorph]. *)
Definition tx_decode (buf : bytes) : result (TxMorph AL SA * bytes) rlp_error :=
  match buf with
  | [] => Err InputTooShort
  | b :: rest =>
      let? '(version, has_version_byte) := wire_version b in
      let buf := if has_version_byte : bool then rest else buf in
      let? '(header, buf) := header_decode buf in
      reject UnexpectedString when negb (hdr_list header) in
      let remaining := len buf in
      reject InputTooShort when remaining <? payload_length header in
      let? '(tx, buf) := decode_inner version buf in
      reject ListLengthMismatch (payload_length header) (remaining - len buf)
        when negb (len buf + payload_length header =? remaining) in
      Ok (tx, buf)
  end.

(** [RlpEcdsaDecodableTx for TxMorph]. *)
Definition rlp_decode_with_signature (buf : bytes)
  : result ((TxMorph AL SA * SG) * bytes) rlp_error :=
  match buf with
  | [] => Err InputTooShort
  | b :: rest =>
      let? '(version, has_version_byte) := wire_version b in
      let buf := if has_version_byte : bool then rest else buf in
      let? '(header, buf) := header_decode buf in
      reject UnexpectedString when negb (hdr_list header) in
      let remaining := len buf in
      let? '(tx, buf) := decode_inner version buf in
      let? '(signature, buf) := decode rlp_signature buf in
      reject ListLengthMismatch (payload_length header) (remaining - len buf)
        when negb (len buf + payload_length header =? remaining) in
      Ok ((tx, signature), buf)
  end.
End Decoding.

(** ** Database encoding *)

(** The helper struct whose [Compact] codec reth derives. *)
Record TxMorphCompact (AL SA : Type) := {
  c_chain_id : Z;
  c_nonce : Z;
  c_gas_limit : Z;
  c_max_fee_per_gas : Z;
  c_max_priority_fee_per_gas : Z;
  c_to : TxKind;
  c_value : Z;
  c_access_list : AL;
  c_version : Z;
  c_fee_token_id : Z;
  c_fee_limit : Z;
  c_reference : option bytes;
  c_authorization_list : option (list SA);
  c_data : bytes;
}.
Arguments c_chain_id {AL SA}.
Arguments c_nonce {AL SA}.
Arguments c_gas_limit {AL SA}.
Arguments c_max_fee_per_gas {AL SA}.
Arguments c_max_priority_fee_per_gas {AL SA}.
Arguments c_to {AL SA}.
Arguments c_value {AL SA}.
Arguments c_access_list {AL SA}.
Arguments c_version {AL SA}.
Arguments c_fee_token_id {AL SA}.
Arguments c_fee_limit {AL SA}.
Arguments c_reference {AL SA}.
Arguments c_authorization_list {AL SA}.
Arguments c_data {AL SA}.

Section Compact.
Context {AL SA : Type}.
(** The derived codec of the helper struct: the bytes written, and the value
    and rest read back from a buffer whose encoding has the given length. *)
Context (derived_to_compact : TxMorphCompact AL SA → bytes).
Context (derived_from_compact : bytes → Z → TxMorphCompact AL SA * bytes).
Implicit Types tx : TxMorph AL SA.

Definition compact_helper tx : TxMorphCompact AL SA :=
  let memo_slice := default [] (memo tx) in
  {| c_chain_id := chain_id tx; c_nonce := nonce tx; c_gas_limit := gas_limit tx;
     c_max_fee_per_gas := max_fee_per_gas tx;
     c_max_priority_fee_per_gas := max_priority_fee_per_gas tx;
     c_to := to tx; c_value := value tx; c_access_list := access_list tx;
     c_version := version tx; c_fee_token_id := fee_token_id tx;
     c_fee_limit := fee_limit tx; c_reference := reference tx;
     c_authorization_list :=
       if has_authorizations tx then Some (authorization_list tx) else None;
     c_data := (len memo_slice mod 256) :: memo_slice ++ input tx |}.

Definition to_compact tx : bytes := derived_to_compact (compact_helper tx).

(** [None] is the panic of an out-of-range index or slice. *)
Definition from_compact (buf : bytes) (length : Z) : option (TxMorph AL SA * bytes) :=
  let '(helper, remaining) := derived_from_compact buf length in
  match c_data helper with
  | [] => None
  | memo_len :: data =>
      if len data <? memo_len then None
      else
        let memo :=
          if memo_len =? 0 then None else Some (take (Z.to_nat memo_len) data) in
        Some ({| chain_id := c_chain_id helper; nonce := c_nonce helper;
                 gas_limit := c_gas_limit helper;
                 max_fee_per_gas := c_max_fee_per_gas helper;
                 max_priority_fee_per_gas := c_max_priority_fee_per_gas helper;
                 to := c_to helper; value := c_value helper;
                 access_list := c_access_list helper;
                 version := c_version helper mod 2 ^ 8;
                 fee_token_id := c_fee_token_id helper mod 2 ^ 16;
                 fee_limit := c_fee_limit helper; reference := c_reference helper;
                 memo := memo;
                 authorization_list := default [] (c_authorization_list helper);
                 input := drop (Z.to_nat memo_len) data |}, remaining)
  end.
End Compact.

(** ** Well-formed values *)

(** What the Rust types guarantee of a transaction's fields. *)
Record tx_ok {AL SA SG : Type} `{AlloyRlp AL SA SG} (tx : TxMorph AL SA) : Prop := {
  ok_chain_id : is_u64 (chain_id tx);
  ok_nonce : is_u64 (nonce tx);
  ok_gas_limit : is_u64 (gas_limit tx);
  ok_max_fee : is_u128 (max_fee_per_gas tx);
  ok_max_priority : is_u128 (max_priority_fee_per_gas tx);
  ok_to : tx_kind_ok (to tx);
  ok_value : is_u256 (value tx);
  ok_access_list : access_list_ok (access_list tx);
  ok_version : is_u8 (version tx);
  ok_fee_token_id : is_u16 (fee_token_id tx);
  ok_fee_limit : is_u256 (fee_limit tx);
  ok_reference : ∀ r, reference tx = Some r → is_bytes r ∧ len r = 32;
  ok_memo : ∀ m, memo tx = Some m → is_bytes m;
  ok_auth : auth_list_ok (authorization_list tx);
  ok_input : is_bytes (input tx);
}.

Definition norm_memo (m : option bytes) : option bytes :=
  match m with Some [] => None | _ => m end.

(** The representative of a transaction that the decoders return: version 0 has
    no reference and no memo, and an empty memo is no memo. *)
Definition normalize {AL SA} (tx : TxMorph AL SA) : TxMorph AL SA :=
  {| chain_id := chain_id tx; nonce := nonce tx; gas_limit := gas_limit tx;
     max_fee_per_gas := max_fee_per_gas tx;
     max_priority_fee_per_gas := max_priority_fee_per_gas tx; to := to tx;
     value := value tx; access_list := access_list tx; version := version tx;
     fee_token_id := fee_token_id tx; fee_limit := fee_limit tx;
     reference := if is_v0 tx then None else reference tx;
     memo := if is_v0 tx then None else norm_memo (memo tx);
     authorization_list := authorization_list tx; input := input tx |}.

(** The transaction read back under a given version and authorization list. *)
Definition read_back {AL SA} (tx : TxMorph AL SA) (v : Z) (auths : list SA) : TxMorph AL SA :=
  let t := normalize tx in
  {| chain_id := chain_id t; nonce := nonce t; gas_limit := gas_limit t;
     max_fee_per_gas := max_fee_per_gas t;
     max_priority_fee_per_gas := max_priority_fee_per_gas t; to := to t;
     value := value t; access_list := access_list t; version := v;
     fee_token_id := fee_token_id t; fee_limit := fee_limit t;
     reference := reference t; memo := memo t;
     authorization_list := auths; input := input t |}.

(** ** Lemmas *)

Create HintDb rlp.
#[export] Hint Resolve rlp_u8_ok rlp_u16_ok rlp_u64_ok rlp_u128_ok rlp_u256_ok rlp_address_ok
  rlp_tx_kind_ok rlp_bytes_ok rlp_access_list_ok rlp_auth_list_ok rlp_signature_ok : rlp.
#[export] Hint Resolve ok_chain_id ok_nonce ok_gas_limit ok_max_fee ok_max_priority ok_to
  ok_value ok_access_list ok_version ok_fee_token_id ok_fee_limit ok_auth ok_input : rlp.

Section Lemmas.
Context {AL SA SG : Type} `{AlloyRlpLaws AL SA SG}.
Implicit Types tx : TxMorph AL SA.

(** The versions a validated transaction can have, with what they carry. *)
Lemma validate_version_cases tx :
  validate_version tx = Ok tt →
  (version tx = 0 ∧ fee_token_id tx ≠ 0 ∧ authorization_list tx = []
     ∧ (reference tx = None ∨ reference tx = Some B256_ZERO)
     ∧ (memo tx = None ∨ memo tx = Some []))
  ∨ (version tx = 1 ∧ authorization_list tx = []
     ∧ (fee_token_id tx = 0 → fee_limit tx ≤ 0))
  ∨ (version tx = 2 ∧ (fee_token_id tx = 0 → fee_limit tx ≤ 0)
     ∧ (authorization_list tx ≠ [] → ∃ a, to tx = Call a)).
Proof.
  unfold validate_version, MORPH_TX_VERSION_0, MORPH_TX_VERSION_1, MORPH_TX_VERSION_2.
  destruct (Z.eqb_spec (version tx) 0) as [E0|E0];
    [|destruct (Z.eqb_spec (version tx) 1) as [E1|E1];
      [|destruct (Z.eqb_spec (version tx) 2) as [E2|E2]; [|done]]];
    rewrite !reject_Ok; unfold has_authorizations.
  - intros (Hf & Hr & Hm & Ha & _). left. bool_simp. repeat split; try done.
    + by destruct (authorization_list tx).
    + destruct (reference tx) as [r|]; [right|by left]. bool_simp.
      f_equal. destruct (decide (r = B256_ZERO)); naive_solver.
    + destruct (memo tx) as [[|x m]|]; [by right| |by left].
      bool_simp. rewrite len_cons in Hm. pose proof (len_nonneg m). lia.
  - intros (Hf & Ha & _). right; left. bool_simp. repeat split; [done| |lia].
    by destruct (authorization_list tx).
  - intros (Hf & Ha & _). right; right. bool_simp. repeat split; [done|lia|].
    destruct (authorization_list tx); [done|]. destruct (to tx); naive_solver.
Qed.

Lemma validate_Ok tx :
  validate tx = Ok tt ↔
  max_priority_fee_per_gas tx ≤ max_fee_per_gas tx
  ∧ (∀ m, memo tx = Some m → len m ≤ MAX_MEMO_LENGTH) ∧ validate_version tx = Ok tt.
Proof.
  unfold validate. rewrite !reject_Ok. bool_simp.
  destruct (memo tx) as [m|]; bool_simp; naive_solver.
Qed.

Lemma encode_reference_bytes tx : tx_ok tx →
  encode_reference tx = encode rlp_bytes (default [] (reference tx))
  ∧ is_bytes (default [] (reference tx))
  ∧ from_option (length_of rlp_b256) (length_of rlp_usize 0) (reference tx)
    = len (encode_reference tx).
Proof.
  intros Hok. unfold encode_reference. destruct (reference tx) as [r|] eqn:Hr; simpl.
  - destruct (ok_reference tx Hok r Hr) as [Hb Hl].
    destruct (rlp_b256_bytes r Hl) as [-> ->]. split; [done|]. split; [done|].
    apply (length_exact _ _ rlp_bytes_ok). done.
  - split; [done|]. split; [apply is_bytes_nil|]. rewrite rlp_usize_zero.
    apply (length_exact _ _ rlp_bytes_ok), is_bytes_nil.
Qed.

Lemma encode_memo_bytes tx : tx_ok tx →
  encode_memo tx = encode rlp_bytes (default [] (memo tx))
  ∧ is_bytes (default [] (memo tx))
  ∧ from_option (length_of rlp_bytes) (length_of rlp_usize 0) (memo tx)
    = len (encode_memo tx).
Proof.
  intros Hok. unfold encode_memo. destruct (memo tx) as [m|] eqn:Hm; simpl.
  - pose proof (ok_memo tx Hok m Hm). split; [done|]. split; [done|].
    by apply (length_exact _ _ rlp_bytes_ok).
  - split; [done|]. split; [apply is_bytes_nil|]. rewrite rlp_usize_zero.
    apply (length_exact _ _ rlp_bytes_ok), is_bytes_nil.
Qed.

(** *** Lengths *)

Ltac lengths Hok :=
  rewrite ?len_app;
  rewrite ?(length_exact _ _ rlp_u64_ok), ?(length_exact _ _ rlp_u128_ok),
    ?(length_exact _ _ rlp_u256_ok), ?(length_exact _ _ rlp_u16_ok),
    ?(length_exact _ _ rlp_u8_ok), ?(length_exact _ _ rlp_tx_kind_ok),
    ?(length_exact _ _ rlp_bytes_ok), ?(length_exact _ _ rlp_access_list_ok),
    ?(length_exact _ _ rlp_auth_list_ok) by (destruct Hok; assumption).

Lemma fields_len_exact tx : tx_ok tx → fields_len tx = len (encode_fields tx).
Proof.
  intros Hok. unfold fields_len, encode_fields, encode_common.
  destruct (encode_reference_bytes tx Hok) as (_ & _ & Hr).
  destruct (encode_memo_bytes tx Hok) as (_ & _ & Hm).
  unfold encoded_authorization_list. lengths Hok. rewrite Hr, Hm.
  destruct (is_v0 tx) eqn:E0, (is_v2 tx) eqn:E2; simpl; lengths Hok; rewrite ?len_nil; lia.
Qed.

Lemma sig_hash_fields_len_exact tx :
  tx_ok tx → sig_hash_fields_len tx = len (encode_sig_hash_fields tx).
Proof.
  intros Hok. unfold sig_hash_fields_len, encode_sig_hash_fields, encode_common.
  destruct (encode_reference_bytes tx Hok) as (_ & _ & Hr).
  destruct (encode_memo_bytes tx Hok) as (_ & _ & Hm).
  unfold encoded_authorization_list. lengths Hok. rewrite Hr, Hm.
  destruct (is_v0 tx) eqn:E0, (is_v2 tx) eqn:E2; simpl; lengths Hok; rewrite ?len_nil; lia.
Qed.

(** *** Decoding undoes encoding *)

Lemma decode_reference_ok tx : tx_ok tx →
  decode_reference (default [] (reference tx)) = Ok (reference tx).
Proof.
  intros Hok. unfold decode_reference. destruct (reference tx) as [r|] eqn:Hr; [|done].
  destruct (ok_reference tx Hok r Hr) as [_ Hl]. simpl. by rewrite Hl.
Qed.

Lemma decode_memo_ok (m : option bytes) :
  (∀ b, m = Some b → len b ≤ MAX_MEMO_LENGTH) →
  decode_memo (default [] m) = Ok (norm_memo m).
Proof.
  intros Hm. unfold decode_memo. destruct m as [[|x b]|]; [done| |done]. simpl.
  specialize (Hm _ eq_refl). rewrite len_cons in *. pose proof (len_nonneg b).
  destruct (Z.eqb_spec (1 + len b) 0); [lia|].
  destruct (Z.ltb_spec MAX_MEMO_LENGTH (1 + len b)); [lia|done].
Qed.

(** Rewrites the first decoder of a chain with the round trip of its codec. *)
Ltac decode_step Hok :=
  first
  [ rewrite (decode_encode _ _ rlp_u64_ok) by (destruct Hok; assumption)
  | rewrite (decode_encode _ _ rlp_u128_ok) by (destruct Hok; assumption)
  | rewrite (decode_encode _ _ rlp_u256_ok) by (destruct Hok; assumption)
  | rewrite (decode_encode _ _ rlp_u16_ok) by (destruct Hok; assumption)
  | rewrite (decode_encode _ _ rlp_tx_kind_ok) by (destruct Hok; assumption)
  | rewrite (decode_encode _ _ rlp_access_list_ok) by (destruct Hok; assumption)
  | rewrite (decode_encode _ _ rlp_auth_list_ok) by (destruct Hok; assumption)
  | rewrite (decode_encode _ _ rlp_bytes_ok) by (destruct Hok; assumption) ];
  cbn [result_bind].

(** The versioned decoder reads the fields up to the memo and, when asked for
    version 2, the authorization list that follows. *)
Lemma decode_versioned_prefix tx v rest :
  tx_ok tx → (∀ m, memo tx = Some m → len m ≤ MAX_MEMO_LENGTH) → is_v0 tx = false →
  decode_fields_versioned_inner v
    (encode_common tx ++ encode_reference tx ++ encode_memo tx
     ++ (if v =? 2 then encode rlp_auth_list (authorization_list tx) else []) ++ rest)
  = Ok (read_back tx v (if v =? 2 then authorization_list tx else []), rest).
Proof.
  intros Hok Hm Hv. unfold decode_fields_versioned_inner, encode_common.
  destruct (encode_reference_bytes tx Hok) as (-> & Hrb & _).
  destruct (encode_memo_bytes tx Hok) as (-> & Hmb & _).
  rewrite <-!app_assoc. do 12 decode_step Hok.
  rewrite decode_reference_ok by done. cbn [result_bind]. decode_step Hok.
  rewrite decode_memo_ok by done. cbn [result_bind]. unfold read_back, normalize. rewrite Hv.
  unfold MORPH_TX_VERSION_2. destruct (Z.eqb_spec v 2) as [->|Hv2]; [|done].
  cbv beta iota. by decode_step Hok.
Qed.

Lemma decode_v0_prefix tx rest :
  tx_ok tx → is_v0 tx = true → fee_token_id tx ≠ 0 → authorization_list tx = [] →
  decode_fields_v0_inner (encode_common tx ++ rest) = Ok (normalize tx, rest).
Proof.
  intros Hok Hv Hf Ha. unfold decode_fields_v0_inner, encode_common.
  rewrite <-!app_assoc. do 11 decode_step Hok.
  destruct (Z.eqb_spec (fee_token_id tx) 0); [done|]. unfold normalize. rewrite Hv, Ha.
  unfold is_v0 in Hv. bool_simp. by rewrite Hv.
Qed.

Lemma read_back_id tx : read_back tx (version tx) (authorization_list tx) = normalize tx.
Proof using. done. Qed.

(** A validated transaction's version selects the decoder that reads its
    fields back. *)
Lemma decode_inner_encode tx rest :
  tx_ok tx → validate tx = Ok tt →
  decode_inner (version tx) (encode_fields tx ++ rest) = Ok (normalize tx, rest).
Proof.
  intros Hok (_ & Hm & Hv)%validate_Ok. unfold decode_inner, encode_fields.
  rewrite <-(read_back_id tx).
  destruct (validate_version_cases tx Hv) as
    [(E & Hf & Ha & _)|[(E & Ha & _)|(E & _)]]; unfold is_v0, is_v2;
    rewrite E in *; simpl; rewrite ?app_nil_r, <-?app_assoc.
  - rewrite decode_v0_prefix; try done; [|unfold is_v0; by rewrite E].
    rewrite <-(read_back_id tx). by rewrite E.
  - rewrite Ha. apply (decode_versioned_prefix tx 1 rest); [done..|].
    unfold is_v0. by rewrite E.
  - unfold encoded_authorization_list, is_v2. rewrite E. simpl.
    apply (decode_versioned_prefix tx 2 rest); [done..|]. unfold is_v0. by rewrite E.
Qed.

(** The first bytes of an encoding select the version. *)
Lemma wire_version_encode tx n :
  validate tx = Ok tt → 0 ≤ n ≤ u64_max → ∀ rest,
  ∃ b r, (if negb (is_v0 tx) then [version tx] else [])
         ++ header_encode {| hdr_list := true; payload_length := n |} ++ rest = b :: r
    ∧ wire_version b = Ok (version tx, negb (is_v0 tx))
    ∧ (if negb (is_v0 tx) then r else b :: r)
      = header_encode {| hdr_list := true; payload_length := n |} ++ rest.
Proof.
  intros (_ & _ & Hv)%validate_Ok Hn rest.
  destruct (header_list_byte n Hn) as (b & hd & -> & Hb).
  destruct (validate_version_cases tx Hv) as [(E & _)|[(E & _)|(E & _)]];
    unfold is_v0; rewrite E; simpl; do 2 eexists; (split; [done|]); (split; [|done]).
  - unfold wire_version. destruct (Z.leb_spec 192 b); [|lia]. by rewrite orb_true_r.
  - done.
  - done.
Qed.

(** Both decoders find the header, check it and hand the payload on. *)
Lemma list_of_encode_fields tx : tx_ok tx → validate tx = Ok tt →
  len (encode_fields tx) ≤ u64_max → ∀ rest,
  tx_decode (tx_encode tx ++ rest) = Ok (normalize tx, rest).
Proof.
  intros Hok Hval Hsz rest. unfold tx_encode.
  rewrite default_rlp_encode_spec, fields_len_exact, <-!app_assoc by done.
  pose proof (len_nonneg (encode_fields tx)). pose proof (len_nonneg rest).
  assert (0 ≤ len (encode_fields tx) ≤ u64_max) as Hn by lia.
  destruct (wire_version_encode tx _ Hval Hn (encode_fields tx ++ rest)) as (b & r & Heq & Hw & Hr).
  rewrite Heq. unfold tx_decode. rewrite Hw. cbn [result_bind]. rewrite Hr.
  rewrite header_decode_encode by (rewrite ?len_app; lia). cbn [result_bind hdr_list negb].
  cbn [payload_length]. rewrite decode_inner_encode by done. cbn [result_bind].
  rewrite len_app. destruct (Z.ltb_spec (len (encode_fields tx) + len rest)
    (len (encode_fields tx))); [lia|].
  destruct (Z.eqb_spec (len rest + len (encode_fields tx))
    (len (encode_fields tx) + len rest)); [done|lia].
Qed.

Lemma encode_common_inj tx1 tx2 r1 r2 : tx_ok tx1 → tx_ok tx2 →
  encode_common tx1 ++ r1 = encode_common tx2 ++ r2 →
  (chain_id tx1 = chain_id tx2 ∧ nonce tx1 = nonce tx2
   ∧ max_priority_fee_per_gas tx1 = max_priority_fee_per_gas tx2
   ∧ max_fee_per_gas tx1 = max_fee_per_gas tx2 ∧ gas_limit tx1 = gas_limit tx2
   ∧ to tx1 = to tx2 ∧ value tx1 = value tx2 ∧ input tx1 = input tx2
   ∧ access_list tx1 = access_list tx2 ∧ fee_token_id tx1 = fee_token_id tx2
   ∧ fee_limit tx1 = fee_limit tx2) ∧ r1 = r2.
Proof.
  intros [] []. unfold encode_common. rewrite <-!app_assoc. intros Heq.
  repeat match type of Heq with
  | encode ?c _ ++ _ = encode ?c _ ++ _ =>
      first [ apply (encode_prefix_inj rlp_u64_ok) in Heq as [? Heq]; [|done|done]
            | apply (encode_prefix_inj rlp_u128_ok) in Heq as [? Heq]; [|done|done]
            | apply (encode_prefix_inj rlp_u256_ok) in Heq as [? Heq]; [|done|done]
            | apply (encode_prefix_inj rlp_u16_ok) in Heq as [? Heq]; [|done|done]
            | apply (encode_prefix_inj rlp_tx_kind_ok) in Heq as [? Heq]; [|done|done]
            | apply (encode_prefix_inj rlp_bytes_ok) in Heq as [? Heq]; [|done|done]
            | apply (encode_prefix_inj rlp_access_list_ok) in Heq as [? Heq]; [|done|done] ]
  end.
  naive_solver.
Qed.

(** The optional byte fields are determined by their bytes, up to the empty
    memo. *)
Lemma reference_bytes_inj tx1 tx2 : tx_ok tx1 → tx_ok tx2 →
  default [] (reference tx1) = default [] (reference tx2) → reference tx1 = reference tx2.
Proof.
  intros H1 H2. destruct (reference tx1) eqn:E1, (reference tx2) eqn:E2; simpl; intros Heq;
    subst; try done.
  - by destruct (ok_reference tx1 H1 [] E1).
  - by destruct (ok_reference tx2 H2 [] E2).
Qed.

Lemma memo_bytes_inj (m1 m2 : option bytes) :
  default [] m1 = default [] m2 → norm_memo m1 = norm_memo m2.
Proof using. destruct m1 as [[]|], m2 as [[]|]; simpl; naive_solver. Qed.

(** What follows the common fields in the signing payload. *)
Definition sig_tail tx : bytes :=
  (if negb (is_v0 tx)
   then encode rlp_u8 (version tx) ++ encode_reference tx ++ encode_memo tx else [])
  ++ (if is_v2 tx then encode rlp_auth_list (encoded_authorization_list tx) else []).

Lemma sig_tail_inj tx1 tx2 :
  tx_ok tx1 → tx_ok tx2 → validate_version tx1 = Ok tt → validate_version tx2 = Ok tt →
  sig_tail tx1 = sig_tail tx2 →
  version tx1 = version tx2 ∧ authorization_list tx1 = authorization_list tx2
  ∧ (is_v0 tx1 = false →
     reference tx1 = reference tx2 ∧ norm_memo (memo tx1) = norm_memo (memo tx2)).
Proof.
  intros H1 H2 V1 V2. unfold sig_tail, is_v0, is_v2, encoded_authorization_list, is_v2.
  destruct (encode_reference_bytes tx1 H1) as (-> & R1 & _).
  destruct (encode_reference_bytes tx2 H2) as (-> & R2 & _).
  destruct (encode_memo_bytes tx1 H1) as (-> & M1 & _).
  destruct (encode_memo_bytes tx2 H2) as (-> & M2 & _).
  pose proof (ok_version tx1 H1) as O1. pose proof (ok_version tx2 H2) as O2.
  pose proof (encode_nonempty _ _ rlp_u8_ok _ O1) as N1.
  pose proof (encode_nonempty _ _ rlp_u8_ok _ O2) as N2.
  pose proof (reference_bytes_inj tx1 tx2 H1 H2) as Hr.
  pose proof (ok_auth tx1 H1) as A1. pose proof (ok_auth tx2 H2) as A2.
  destruct (validate_version_cases tx1 V1) as [(E1 & _ & L1 & _)|[(E1 & L1 & _)|(E1 & _)]],
    (validate_version_cases tx2 V2) as [(E2 & _ & L2 & _)|[(E2 & L2 & _)|(E2 & _)]];
    rewrite E1, E2 in *; simpl; rewrite ?app_nil_r, <-?app_assoc; intros Heq.
  all: try (by apply app_eq_nil in Heq as [? _]).
  all: try (symmetry in Heq; by apply app_eq_nil in Heq as [? _]).
  1: by rewrite L1, L2.
  all: apply (encode_prefix_inj rlp_u8_ok) in Heq as [? Heq]; try done.
  all: try apply (encode_prefix_inj rlp_bytes_ok) in Heq as [? Heq]; try done.
  - rewrite L1, L2. rewrite <-(app_nil_r (encode rlp_bytes (default [] (memo tx1)))) in Heq.
    rewrite <-(app_nil_r (encode rlp_bytes (default [] (memo tx2)))) in Heq.
    apply (encode_prefix_inj rlp_bytes_ok) in Heq as [? _]; try done.
    split; [done|]. split; [done|]. auto using memo_bytes_inj.
  - apply (encode_prefix_inj rlp_bytes_ok) in Heq as [? Heq]; try done.
    rewrite <-(app_nil_r (encode rlp_auth_list (authorization_list tx1))) in Heq.
    rewrite <-(app_nil_r (encode rlp_auth_list (authorization_list tx2))) in Heq.
    apply (encode_prefix_inj rlp_auth_list_ok) in Heq as [? _]; try done.
    split; [done|]. split; [done|]. auto using memo_bytes_inj.
Qed.

Lemma encode_sig_hash_fields_tail tx :
  encode_sig_hash_fields tx = encode_common tx ++ sig_tail tx.
Proof using. done. Qed.

(** The list header is a prefix code when its payload follows it. *)
Lemma header_payload_inj p1 p2 :
  len p1 ≤ u64_max → len p2 ≤ u64_max →
  header_encode {| hdr_list := true; payload_length := len p1 |} ++ p1
  = header_encode {| hdr_list := true; payload_length := len p2 |} ++ p2 → p1 = p2.
Proof.
  intros L1 L2 Heq. pose proof (len_nonneg p1). pose proof (len_nonneg p2).
  pose proof (header_decode_encode (len p1) p1 ltac:(lia) ltac:(lia)) as D1.
  rewrite Heq, header_decode_encode in D1 by lia. naive_solver.
Qed.
End Lemmas.

(** ** A sample transaction, on the RLP standard *)

Definition sample (v : Z) (refr : option bytes) (auths : list bytes)
  : TxMorph (list bytes) bytes := {|
  chain_id := 2818; nonce := 7; gas_limit := 21000; max_fee_per_gas := 3000000;
  max_priority_fee_per_gas := 1000000; to := Call 0x5300000000000000000000000000000000000021;
  value := 10 ^ 18; access_list := []; version := v; fee_token_id := 3; fee_limit := 500;
  reference := refr; memo := Some [104; 105]; authorization_list := auths;
  input := [0xa9; 0x05; 0x9c; 0xbb] |}.

Definition sample_v1 := sample 1 (Some B256_ZERO) [].
Definition sample_v2 := sample 2 None [[1; 2; 3]].
Definition sample_signature : Standard.Signature := (true, (5, 6)).

#[local] Existing Instance Standard.ops.
#[local] Existing Instance Standard.laws.

Lemma bytes_check (b : bytes) :
  forallb (λ x, (0 <=? x) && (x <? 256)) b && (len b <=? 1000) = true → is_bytes b.
Proof.
  intros [Hb Hl]%andb_true_iff. bool_simp. split; [|ulia].
  apply Forall_forall. intros x Hx. rewrite forallb_forall in Hb.
  specialize (Hb x (proj1 (list_elem_of_In _ _) Hx)). unfold is_byte. bool_simp. lia.
Qed.

Ltac str_list_check :=
  lazymatch goal with
  | |- Forall _ [] => constructor
  | |- Forall _ (_ :: _) =>
      constructor; [apply bytes_check; vm_compute; reflexivity | str_list_check]
  end.

Ltac check_ok :=
  constructor; cbn; intros; simplify_eq;
  lazymatch goal with
  | |- in_range _ _ => split; vm_compute; discriminate
  | |- is_address _ => split; vm_compute; congruence
  | |- is_bytes _ => apply bytes_check; vm_compute; reflexivity
  | |- is_bytes _ ∧ _ => split; [apply bytes_check; vm_compute; reflexivity | reflexivity]
  | |- Standard.str_list_ok _ =>
      split; [str_list_check | vm_compute; discriminate]
  end.

Lemma sample_v1_ok : tx_ok sample_v1.
Proof. check_ok. Qed.

Lemma sample_v2_ok : tx_ok sample_v2.
Proof. check_ok. Qed.

(** ** Theorems *)

Section Theorems.
Context {AL SA SG : Type} `{AlloyRlpLaws AL SA SG}.
Implicit Types tx : TxMorph AL SA.

(** C22. Wire round trip: decoding a signed, validated transaction gives the
    transaction back (in its canonical representative), with its signature,
    for all three versions, and leaves the bytes after it unread. *)
Theorem signed_round_trip tx (sig : SG) (rest : bytes) :
  tx_ok tx → validate tx = Ok tt → signature_ok sig →
  len (encode_fields tx) + len (encode rlp_signature sig) ≤ u64_max →
  rlp_decode_with_signature (rlp_encode_signed tx sig ++ rest)
  = Ok ((normalize tx, sig), rest).
Proof.
  intros Hok Hval Hsig Hsz. unfold rlp_encode_signed.
  rewrite default_rlp_header_signed_spec, fields_len_exact by done.
  rewrite (length_exact _ _ rlp_signature_ok), <-!app_assoc by done.
  pose proof (len_nonneg (encode_fields tx)). pose proof (len_nonneg rest).
  pose proof (len_nonneg (encode rlp_signature sig)).
  set (n := len (encode_fields tx) + len (encode rlp_signature sig)) in *.
  assert (0 ≤ n ≤ u64_max) as Hn by lia.
  destruct (wire_version_encode tx n Hval Hn
    (encode_fields tx ++ encode rlp_signature sig ++ rest)) as (b & r & Heq & Hw & Hr).
  rewrite Heq. unfold rlp_decode_with_signature. rewrite Hw. cbn [result_bind]. rewrite Hr.
  rewrite header_decode_encode by (rewrite ?len_app; lia). cbn [result_bind hdr_list negb].
  rewrite decode_inner_encode by done. cbn [result_bind].
  rewrite (decode_encode _ _ rlp_signature_ok) by done. cbn [result_bind payload_length].
  rewrite !len_app. by destruct (Z.eqb_spec (len rest + n)
    (len (encode_fields tx) + (len (encode rlp_signature sig) + len rest))); [|lia].
Qed.

(** The unsigned codec round-trips as well, and the two unsigned decoders
    of the code, [Decodable::decode] and [decode_fields], agree on every
    buffer, errors included. *)
Theorem unsigned_decoders tx (rest : bytes) :
  (tx_ok tx → validate tx = Ok tt → len (encode_fields tx) ≤ u64_max →
   tx_decode (tx_encode tx ++ rest) = Ok (normalize tx, rest))
  ∧ ∀ buf : bytes, decode_fields buf = tx_decode (AL:=AL) (SA:=SA) buf.
Proof.
  split; [intros; by apply list_of_encode_fields|].
  intros [|b buf]; [done|]. simpl. destruct (wire_version b) as [[v h]|e]; [|done].
  cbn [result_bind]. unfold decode_fields_v0, decode_fields_v1, decode_fields_v2,
    decode_fields_versioned, decode_exact_list, decode_inner, decode_fields_v1_inner,
    decode_fields_v2_inner.
  by destruct (v =? MORPH_TX_VERSION_0), (v =? MORPH_TX_VERSION_1).
Qed.

(** C26. The signing payload determines the transaction: two validated
    transactions with the same payload are the same transaction, version,
    reference, memo and authorization list included. *)
Theorem signing_payload_injective tx1 tx2 :
  tx_ok tx1 → tx_ok tx2 → validate tx1 = Ok tt → validate tx2 = Ok tt →
  len (encode_sig_hash_fields tx1) ≤ u64_max → len (encode_sig_hash_fields tx2) ≤ u64_max →
  encode_for_sig_hash tx1 = encode_for_sig_hash tx2 → normalize tx1 = normalize tx2.
Proof.
  intros O1 O2 (_ & _ & V1)%validate_Ok (_ & _ & V2)%validate_Ok L1 L2.
  unfold encode_for_sig_hash. rewrite !sig_hash_fields_len_exact by done.
  intros [= Heq]. apply header_payload_inj in Heq; [|done..].
  rewrite !encode_sig_hash_fields_tail in Heq.
  apply encode_common_inj in Heq as [(?&?&?&?&?&?&?&?&?&?&?) Heq]; [|done..].
  apply sig_tail_inj in Heq as (Ev & Ea & Hrm); [|done..].
  assert (is_v0 tx1 = is_v0 tx2) as E0 by (unfold is_v0; by rewrite Ev).
  unfold normalize. rewrite <-E0. destruct (is_v0 tx1); [|destruct Hrm as [-> ->]; [done|]];
    by f_equal.
Qed.

(** The lengths the code announces are the lengths of what it writes: of
    the unsigned and the signed encodings and of the signing payload. *)
Theorem announced_lengths_exact tx (sig : SG) :
  tx_ok tx → signature_ok sig →
  len (encode_fields tx) + len (encode rlp_signature sig) ≤ u64_max →
  len (encode_sig_hash_fields tx) ≤ u64_max →
  encode_2718_len tx = len (encode_2718 tx)
  ∧ rlp_encoded_length_with_signature tx sig = len (rlp_encode_signed tx sig)
  ∧ payload_len_for_signature tx = len (encode_for_sig_hash tx).
Proof.
  intros Hok Hsig Hsz Hsz'.
  pose proof (len_nonneg (encode_fields tx)).
  pose proof (len_nonneg (encode rlp_signature sig)).
  pose proof (len_nonneg (encode_sig_hash_fields tx)).
  unfold encode_2718_len, encode_2718, tx_length, tx_encode,
    rlp_encoded_length_with_signature, rlp_encode_signed,
    payload_len_for_signature, encode_for_sig_hash.
  rewrite default_rlp_header_signed_spec, default_rlp_encode_spec,
    default_rlp_encoded_length_spec, fields_len_exact, sig_hash_fields_len_exact,
    (length_exact _ _ rlp_signature_ok) by done.
  rewrite !header_length_exact by (simpl; lia). cbn [payload_length].
  rewrite !len_app. change (len [MORPH_TX_TYPE_ID]) with 1.
  destruct (is_v0 tx); simpl negb; cbn match; rewrite ?len_cons, ?len_nil; lia.
Qed.

(** A version 2 payload behind a version 1 prefix is rejected, with the
    length mismatch that the surplus authorization list causes. *)
Theorem v2_payload_behind_v1_prefix_rejected tx (rest : bytes) :
  tx_ok tx → validate tx = Ok tt → version tx = MORPH_TX_VERSION_2 →
  len (encode_fields tx) ≤ u64_max →
  tx_decode ([MORPH_TX_VERSION_1] ++ drop 1 (tx_encode tx) ++ rest)
  = Err (ListLengthMismatch (len (encode_fields tx))
      (len (encode_fields tx) - len (encode rlp_auth_list (authorization_list tx)))).
Proof.
  intros Hok (_ & Hm & _)%validate_Ok Hv Hsz.
  assert (is_v0 tx = false) as V0 by (unfold is_v0; by rewrite Hv).
  assert (is_v2 tx = true) as V2 by (unfold is_v2; by rewrite Hv).
  unfold tx_encode. rewrite V0, default_rlp_encode_spec, fields_len_exact by done.
  cbn [negb app drop]. unfold tx_decode. cbn [app].
  change (wire_version MORPH_TX_VERSION_1) with
    (@Ok (Z * bool) rlp_error (MORPH_TX_VERSION_1, true)). cbn [result_bind].
  rewrite drop_0, <-app_assoc.
  pose proof (len_nonneg (encode_fields tx)). pose proof (len_nonneg rest).
  rewrite header_decode_encode by (rewrite ?len_app; lia). cbn [result_bind hdr_list negb].
  cbn [payload_length]. rewrite len_app.
  destruct (Z.ltb_spec (len (encode_fields tx) + len rest) (len (encode_fields tx))); [lia|].
  set (n := len (encode_fields tx)) in *.
  unfold encode_fields at 1. rewrite V0, V2. unfold encoded_authorization_list. rewrite V2.
  set (al := encode rlp_auth_list (authorization_list tx)).
  cbn [negb]. rewrite <-!app_assoc. unfold decode_inner.
  change (MORPH_TX_VERSION_1 =? MORPH_TX_VERSION_0) with false.
  change (MORPH_TX_VERSION_1 =? MORPH_TX_VERSION_1) with true. cbn match.
  pose proof (decode_versioned_prefix tx 1 (al ++ rest) Hok Hm V0) as Hd.
  simpl app in Hd. unfold decode_fields_v1_inner, MORPH_TX_VERSION_1.
  rewrite Hd. cbn [result_bind]. rewrite len_app.
  pose proof (encode_len_pos rlp_auth_list_ok _ (ok_auth tx Hok)).
  destruct (Z.eqb_spec (len al + len rest + n) (n + len rest)); [unfold al in *; lia|].
  cbn [negb]. do 2 f_equal. lia.
Qed.

(** The effective gas price is the smaller of the fee cap and base fee plus
    tip, never exceeds the cap, and its 128-bit sum cannot wrap. *)
Theorem effective_gas_price_min tx (base_fee : Z) :
  is_u128 (max_fee_per_gas tx) → is_u128 (max_priority_fee_per_gas tx) → is_u64 base_fee →
  effective_gas_price tx (Some base_fee)
  = Z.min (max_fee_per_gas tx) (max_priority_fee_per_gas tx + base_fee).
Proof using.
  intros Hm Hp Hb. unfold effective_gas_price.
  destruct (Z.ltb_spec (max_priority_fee_per_gas tx)
    (saturating_sub (max_fee_per_gas tx) base_fee)).
  - rewrite Z.mod_small; ulia.
  - ulia.
Qed.

(** A transaction built from user intent gets a version under which it
    validates whenever its fields allow any version at all. *)
Theorem inferred_version_validates tx :
  max_priority_fee_per_gas tx ≤ max_fee_per_gas tx →
  (∀ m, memo tx = Some m → len m ≤ MAX_MEMO_LENGTH) →
  (fee_token_id tx = 0 → fee_limit tx = 0) →
  (authorization_list tx ≠ [] → to tx ≠ Create) →
  validate (with_inferred_version tx) = Ok tt.
Proof using.
  intros Hp Hm Hf Hc. apply validate_Ok. split; [done|]. split; [done|].
  unfold with_inferred_version, inferred_version, validate_version, has_authorizations.
  assert ((fee_token_id tx =? 0) && (0 <? fee_limit tx) = false) as Hl
    by (bool_simp; destruct (Z.eq_dec (fee_token_id tx) 0); [rewrite Hf by done|]; auto; lia).
  destruct (authorization_list tx) eqn:Ha; cbn -[Z.eqb Z.ltb]; rewrite ?Ha, Hl; cbn; [done|].
  destruct (to tx) eqn:Ht; [|done]. by destruct (Hc ltac:(done)).
Qed.
End Theorems.

Section CompactTheorem.
Context {AL SA : Type}.
Context (to_c : TxMorphCompact AL SA → bytes).
Context (from_c : bytes → Z → TxMorphCompact AL SA * bytes).

(** Database round trip: a stored transaction whose memo respects the
    protocol limit is read back unchanged (an empty memo as no memo), whatever
    the derived codec of the helper struct is, as long as it round-trips. *)
Theorem compact_round_trip (tx : TxMorph AL SA) (rest : bytes) :
  (∀ h r, from_c (to_c h ++ r) (len (to_c h)) = (h, r)) →
  is_u8 (version tx) → is_u16 (fee_token_id tx) →
  (∀ m, memo tx = Some m → len m ≤ MAX_MEMO_LENGTH) →
  ∃ tx', from_compact from_c (to_compact to_c tx ++ rest) (len (to_compact to_c tx))
         = Some (tx', rest)
    ∧ normalize tx' = normalize tx
    ∧ (memo tx ≠ Some [] → tx' = tx).
Proof using.
  intros Hrt Hv Hf Hm. unfold from_compact, to_compact. rewrite Hrt.
  cbn [c_data compact_helper]. set (m := default [] (memo tx)).
  assert (len m ≤ MAX_MEMO_LENGTH) as Hl
    by (unfold m; destruct (memo tx); simpl; [auto|done]).
  unfold MAX_MEMO_LENGTH in Hl. pose proof (len_nonneg m). pose proof (len_nonneg (input tx)).
  rewrite Z.mod_small by lia. rewrite len_app.
  destruct (Z.ltb_spec (len m + len (input tx)) (len m)); [lia|].
  eexists. split; [reflexivity|].
  destruct (Standard.take_drop_app m (input tx)) as [-> ->]. cbn.
  change u16_max with (2 ^ 16 - 1) in Hf. unfold in_range, u8_max in *.
  rewrite !Z.mod_small by lia.
  assert (default [] (if has_authorizations tx then Some (authorization_list tx) else None)
    = authorization_list tx) as Ha
    by (unfold has_authorizations; destruct (authorization_list tx) eqn:E; by rewrite ?E).
  assert ((if len m =? 0 then None else Some m) = norm_memo (memo tx)) as Hmm.
  { unfold m. destruct (memo tx) as [[|x b]|]; cbn -[len]; [done| |done].
    rewrite len_cons. pose proof (len_nonneg b). destruct (Z.eqb_spec (1 + len b) 0); [lia|done]. }
  rewrite Ha, Hmm. split.
  - unfold normalize. cbn. unfold is_v0. cbn. f_equal.
    by destruct (memo tx) as [[]|].
  - intros Hne. destruct tx; cbn in *. f_equal. by destruct memo0 as [[]|].
Qed.
End CompactTheorem.

(** ** Witnesses *)

(** Bytes that follow an encoding in its buffer. *)
Definition trailing : bytes := [1; 2].

Lemma signed_round_trip_witness :
  rlp_decode_with_signature (rlp_encode_signed sample_v2 sample_signature ++ trailing)
  = Ok ((normalize sample_v2, sample_signature), trailing).
Proof.
  simple refine (signed_round_trip sample_v2 sample_signature trailing _ _ _ _).
  - exact sample_v2_ok.
  - reflexivity.
  - split; (split; vm_compute; discriminate).
  - vm_compute. discriminate.
Defined.

Lemma unsigned_decoders_witness :
  tx_decode (tx_encode sample_v1 ++ trailing) = Ok (normalize sample_v1, trailing).
Proof.
  simple refine (proj1 (unsigned_decoders sample_v1 trailing) _ _ _).
  - exact sample_v1_ok.
  - reflexivity.
  - vm_compute. discriminate.
Defined.

Lemma signing_payload_injective_witness :
  normalize (sample 1 (Some B256_ZERO) []) = normalize sample_v1.
Proof.
  simple refine (signing_payload_injective (sample 1 (Some B256_ZERO) []) sample_v1
    _ _ _ _ _ _ _);
    [exact sample_v1_ok | exact sample_v1_ok | reflexivity | reflexivity
    | vm_compute; discriminate | vm_compute; discriminate | reflexivity].
Defined.

Lemma announced_lengths_exact_witness :
  encode_2718_len sample_v2 = len (encode_2718 sample_v2).
Proof.
  simple refine (proj1 (announced_lengths_exact sample_v2 sample_signature _ _ _ _)).
  - exact sample_v2_ok.
  - split; (split; vm_compute; discriminate).
  - vm_compute. discriminate.
  - vm_compute. discriminate.
Defined.

Lemma v2_payload_behind_v1_prefix_rejected_witness :
  tx_decode ([MORPH_TX_VERSION_1] ++ drop 1 (tx_encode sample_v2) ++ trailing)
  = Err (ListLengthMismatch (len (encode_fields sample_v2))
      (len (encode_fields sample_v2) - len (encode rlp_auth_list (authorization_list sample_v2)))).
Proof.
  simple refine (v2_payload_behind_v1_prefix_rejected sample_v2 trailing _ _ _ _);
    [exact sample_v2_ok | reflexivity | reflexivity | vm_compute; discriminate].
Defined.

Lemma effective_gas_price_min_witness :
  effective_gas_price sample_v1 (Some 1000000) = 2000000.
Proof.
  rewrite (effective_gas_price_min sample_v1 1000000);
    [reflexivity | split; vm_compute; discriminate ..].
Defined.

Lemma inferred_version_validates_witness :
  validate (with_inferred_version (sample 0 None [[4]])) = Ok tt.
Proof.
  apply (inferred_version_validates (sample 0 None [[4]])).
  - vm_compute. discriminate.
  - intros m [= <-]. vm_compute. discriminate.
  - discriminate.
  - discriminate.
Defined.

(** A codec for the helper struct on which the database round trip can be run:
    every field in order, variable parts prefixed with their length. *)
Module SampleCompact.
Definition opt (o : option bytes) : bytes :=
  match o with None => [0] | Some b => 1 :: len b :: b end.
Definition kind (k : TxKind) : bytes := match k with Create => [0; 0] | Call a => [1; a] end.

Definition to_c (h : TxMorphCompact unit Z) : bytes :=
  [c_chain_id h; c_nonce h; c_gas_limit h; c_max_fee_per_gas h;
   c_max_priority_fee_per_gas h] ++ kind (c_to h)
  ++ [c_value h; c_version h; c_fee_token_id h; c_fee_limit h]
  ++ opt (c_reference h) ++ opt (c_authorization_list h)
  ++ len (c_data h) :: c_data h.

Definition read (b : bytes) : bytes * bytes :=
  match b with
  | n :: b => (take (Z.to_nat n) b, drop (Z.to_nat n) b)
  | [] => ([], [])
  end.
Definition read_opt (b : bytes) : option bytes * bytes :=
  match b with
  | 0 :: b => (None, b)
  | _ :: b => let '(x, r) := read b in (Some x, r)
  | [] => (None, [])
  end.

Definition from_c (b : bytes) (_ : Z) : TxMorphCompact unit Z * bytes :=
  match b with
  | a1 :: a2 :: a3 :: a4 :: a5 :: k :: ka :: a8 :: a9 :: a10 :: a11 :: b =>
      let '(r, b) := read_opt b in
      let '(l, b) := read_opt b in
      let '(d, b) := read b in
      ({| c_chain_id := a1; c_nonce := a2; c_gas_limit := a3; c_max_fee_per_gas := a4;
          c_max_priority_fee_per_gas := a5; c_to := if k =? 0 then Create else Call ka;
          c_value := a8; c_access_list := tt; c_version := a9; c_fee_token_id := a10;
          c_fee_limit := a11; c_reference := r; c_authorization_list := l; c_data := d |}, b)
  | _ => ({| c_chain_id := 0; c_nonce := 0; c_gas_limit := 0; c_max_fee_per_gas := 0;
             c_max_priority_fee_per_gas := 0; c_to := Create; c_value := 0;
             c_access_list := tt; c_version := 0; c_fee_token_id := 0; c_fee_limit := 0;
             c_reference := None; c_authorization_list := None; c_data := [] |}, [])
  end.

Lemma read_len d rest : read (len d :: d ++ rest) = (d, rest).
Proof. simpl. by destruct (Standard.take_drop_app d rest) as [-> ->]. Qed.

Lemma read_opt_opt o rest : read_opt (opt o ++ rest) = (o, rest).
Proof. destruct o as [b|]; [|done]. cbn [opt app read_opt]. by rewrite read_len. Qed.

Lemma round_trip h r : from_c (to_c h ++ r) (len (to_c h)) = (h, r).
Proof.
  destruct h as [? ? ? ? ? k ? [] ? ? ? re au d]. unfold to_c. cbn [c_chain_id c_nonce
    c_gas_limit c_max_fee_per_gas c_max_priority_fee_per_gas c_to c_value c_version
    c_fee_token_id c_fee_limit c_reference c_authorization_list c_data].
  destruct k as [|a]; cbn [kind app]; unfold from_c;
    rewrite <-!app_assoc, !read_opt_opt; cbn [app]; by rewrite read_len.
Qed.
End SampleCompact.

Lemma compact_round_trip_witness :
  let tx := {| chain_id := 1; nonce := 2; gas_limit := 3; max_fee_per_gas := 4;
    max_priority_fee_per_gas := 4; to := Call 9; value := 6; access_list := tt; version := 2;
    fee_token_id := 3; fee_limit := 5; reference := None; memo := Some [1; 2];
    authorization_list := [7]; input := [5; 6; 7] |} in
  from_compact SampleCompact.from_c (to_compact SampleCompact.to_c tx ++ [8])
    (len (to_compact SampleCompact.to_c tx)) = Some (tx, [8]).
Proof.
  intros tx.
  destruct (compact_round_trip SampleCompact.to_c SampleCompact.from_c tx [8])
    as (tx' & Hd & _ & Hid).
  - exact SampleCompact.round_trip.
  - split; vm_compute; discriminate.
  - split; vm_compute; discriminate.
  - intros m [= <-]. vm_compute. discriminate.
  - rewrite Hd, Hid; [reflexivity | discriminate].
Defined.

End TxMorph.
