(* ===== verification/Envelope.v ===== *)
(** * L1 messages and the transaction envelope

    Models [crates/primitives/src/transaction/l1_transaction.rs] (the L1 message
    transaction, type 0x7E, and its codec) and
    [crates/primitives/src/transaction/envelope.rs] (the sum of all transaction
    types with its accessors). *)

From S2P Require Import Prelude Rlp MorphTx.

Module TxL1Msg.

Definition L1_TX_TYPE_ID : Z := 0x7E.

Record TxL1Msg := {
  queue_index : Z;
  gas_limit : Z;
  to : Z;
  value : Z;
  sender : Z;
  input : bytes;
}.

(** [Transaction for TxL1Msg]. *)
Definition nonce (_ : TxL1Msg) : Z := 0.
Definition gas_price (_ : TxL1Msg) : option Z := Some 0.
Definition max_fee_per_gas (_ : TxL1Msg) : Z := 0.
Definition effective_gas_price (_ : TxL1Msg) (base_fee : option Z) : Z := default 0 base_fee.
Definition kind (tx : TxL1Msg) : TxKind := Call (to tx).

Inductive Eip2718Error := UnexpectedType (ty : Z) | RlpError (e : rlp_error).

Section Codec.
Context {AL SA SG : Type} `{AlloyRlp AL SA SG}.
Implicit Types tx : TxL1Msg.

Definition fields_len tx : Z :=
  length_of rlp_u64 (queue_index tx)
  + length_of rlp_u64 (gas_limit tx)
  + length_of rlp_address (to tx)
  + length_of rlp_u256 (value tx)
  + length_of rlp_bytes (input tx)
  + length_of rlp_address (sender tx).

Definition encode_fields tx : bytes :=
  encode rlp_u64 (queue_index tx)
  ++ encode rlp_u64 (gas_limit tx)
  ++ encode rlp_address (to tx)
  ++ encode rlp_u256 (value tx)
  ++ encode rlp_bytes (input tx)
  ++ encode rlp_address (sender tx).

Definition decode_fields (buf : bytes) : result (TxL1Msg * bytes) rlp_error :=
  let? '(queue_index, buf) := decode rlp_u64 buf in
  let? '(gas_limit, buf) := decode rlp_u64 buf in
  let? '(to, buf) := decode rlp_address buf in
  let? '(value, buf) := decode rlp_u256 buf in
  let? '(input, buf) := decode rlp_bytes buf in
  let? '(sender, buf) := decode rlp_address buf in
  Ok ({| queue_index := queue_index; gas_limit := gas_limit; to := to; value := value;
         sender := sender; input := input |}, buf).

Definition tx_encode tx : bytes := default_rlp_encode (fields_len tx) (encode_fields tx).
Definition tx_length tx : Z := default_rlp_encoded_length (fields_len tx).

Definition tx_decode (buf : bytes) : result (TxL1Msg * bytes) rlp_error :=
  let? '(header, buf) := header_decode buf in
  reject UnexpectedString when negb (hdr_list header) in
  let remaining := len buf in
  reject InputTooShort when remaining <? payload_length header in
  let? '(this, buf) := decode_fields buf in
  reject UnexpectedLength when negb (len buf + payload_length header =? remaining) in
  Ok (this, buf).

Definition encode_2718_len tx : Z := 1 + default_rlp_encoded_length (fields_len tx).
Definition encode_2718 tx : bytes :=
  [L1_TX_TYPE_ID] ++ default_rlp_encode (fields_len tx) (encode_fields tx).

Definition typed_decode (ty : Z) (buf : bytes) : result (TxL1Msg * bytes) Eip2718Error :=
  reject UnexpectedType ty when negb (ty =? L1_TX_TYPE_ID) in
  map_err RlpError (tx_decode buf).

Definition tx_hash (keccak256 : bytes → bytes) tx : bytes := keccak256 (encode_2718 tx).
End Codec.

(** What the Rust types guarantee of an L1 message's fields. *)
Record tx_ok (tx : TxL1Msg) : Prop := {
  ok_queue_index : is_u64 (queue_index tx);
  ok_gas_limit : is_u64 (gas_limit tx);
  ok_to : is_address (to tx);
  ok_value : is_u256 (value tx);
  ok_sender : is_address (sender tx);
  ok_input : is_bytes (input tx);
}.

Section Theorems.
Context {AL SA SG : Type} `{AlloyRlpLaws AL SA SG}.
Implicit Types tx : TxL1Msg.

Lemma l1_fields_len_exact tx : tx_ok tx → fields_len tx = len (encode_fields tx).
Proof.
  intros []. unfold fields_len, encode_fields. rewrite !len_app,
    !(length_exact _ _ rlp_u64_ok), !(length_exact _ _ rlp_address_ok),
    !(length_exact _ _ rlp_u256_ok), !(length_exact _ _ rlp_bytes_ok) by done. lia.
Qed.

Lemma decode_fields_encode tx rest : tx_ok tx →
  decode_fields (encode_fields tx ++ rest) = Ok (tx, rest).
Proof.
  intros []. unfold decode_fields, encode_fields. rewrite <-!app_assoc.
  repeat first
    [ rewrite (decode_encode _ _ rlp_u64_ok) by done
    | rewrite (decode_encode _ _ rlp_address_ok) by done
    | rewrite (decode_encode _ _ rlp_u256_ok) by done
    | rewrite (decode_encode _ _ rlp_bytes_ok) by done
    | progress cbn [result_bind] ].
  by destruct tx.
Qed.

(** An L1 message is written with the type byte 0x7E and the announced
    length, and reading it back under that type gives the message; under any
    other type byte it is refused. *)
Theorem l1_message_round_trip tx (rest : bytes) :
  tx_ok tx → len (encode_fields tx) ≤ u64_max →
  (∃ body, encode_2718 tx = L1_TX_TYPE_ID :: body
     ∧ typed_decode L1_TX_TYPE_ID (body ++ rest) = Ok (tx, rest))
  ∧ encode_2718_len tx = len (encode_2718 tx)
  ∧ ∀ ty buf, ty ≠ L1_TX_TYPE_ID → typed_decode ty buf = Err (UnexpectedType ty).
Proof.
  intros Hok Hsz. pose proof (len_nonneg (encode_fields tx)). pose proof (len_nonneg rest).
  unfold encode_2718, encode_2718_len.
  rewrite default_rlp_encode_spec, default_rlp_encoded_length_spec, l1_fields_len_exact by done.
  split_and!.
  - eexists. split; [reflexivity|]. unfold typed_decode. rewrite Z.eqb_refl. cbn [negb].
    unfold tx_decode. rewrite <-app_assoc, header_decode_encode by (rewrite ?len_app; lia).
    cbn [result_bind hdr_list negb payload_length].
    rewrite decode_fields_encode, len_app by done. cbn [result_bind].
    destruct (Z.ltb_spec (len (encode_fields tx) + len rest) (len (encode_fields tx))); [lia|].
    by destruct (Z.eqb_spec (len rest + len (encode_fields tx))
      (len (encode_fields tx) + len rest)); [|lia].
  - rewrite header_length_exact by (simpl; lia). cbn [app]. rewrite len_cons, len_app. lia.
  - intros ty buf Hty. unfold typed_decode. by destruct (Z.eqb_spec ty L1_TX_TYPE_ID).
Qed.
End Theorems.

Definition sample_msg : TxL1Msg := {|
  queue_index := 5; gas_limit := 200000; to := 0x53; value := 1; sender := 0x99;
  input := [1; 200; 0] |}.

Lemma l1_message_round_trip_witness :
  @encode_2718_len _ _ _ Standard.ops sample_msg = len (@encode_2718 _ _ _ Standard.ops sample_msg).
Proof.
  simple refine (proj1 (proj2 (@l1_message_round_trip _ _ _ Standard.ops Standard.laws
    sample_msg TxMorph.trailing _ _))).
  - constructor; cbn; first [split; vm_compute; congruence | apply TxMorph.bytes_check; reflexivity].
  - vm_compute. discriminate.
Defined.

End TxL1Msg.

(** ** The envelope *)

Module MorphTxEnvelope.

Inductive MorphTxType := TLegacy | TEip2930 | TEip1559 | TEip7702 | TL1Msg | TMorph.

#[global] Instance MorphTxType_eq_dec : EqDecision MorphTxType.
Proof. solve_decision. Defined.

(** [alloy_consensus::Signed<T>], without its cached hash. *)
Record Signed (T SG : Type) := { tx : T; signature : SG }.
Arguments tx {T SG}.
Arguments signature {T SG}.

(** The Ethereum transactions are foreign: [ETH] stands for their payloads. *)
Inductive MorphTxEnvelope (ETH AL SA SG : Type) :=
| Legacy (t : ETH)
| Eip2930 (t : ETH)
| Eip1559 (t : ETH)
| Eip7702 (t : ETH)
| L1Msg (t : TxL1Msg.TxL1Msg)
| Morph (t : Signed (TxMorph.TxMorph AL SA) SG).
Arguments Legacy {ETH AL SA SG} t.
Arguments Eip2930 {ETH AL SA SG} t.
Arguments Eip1559 {ETH AL SA SG} t.
Arguments Eip7702 {ETH AL SA SG} t.
Arguments L1Msg {ETH AL SA SG} t.
Arguments Morph {ETH AL SA SG} t.

Section Accessors.
Context {ETH AL SA SG : Type}.
Abbreviation envelope := (MorphTxEnvelope ETH AL SA SG).

Definition tx_type (e : envelope) : MorphTxType :=
  match e with
  | Legacy _ => TLegacy
  | Eip2930 _ => TEip2930
  | Eip1559 _ => TEip1559
  | Eip7702 _ => TEip7702
  | L1Msg _ => TL1Msg
  | Morph _ => TMorph
  end.

Definition is_l1_msg (e : envelope) : bool := bool_decide (tx_type e = TL1Msg).
Definition is_morph_tx (e : envelope) : bool := bool_decide (tx_type e = TMorph).

Definition fee_token_id (e : envelope) : option Z :=
  match e with Morph t => Some (TxMorph.fee_token_id (tx t)) | _ => None end.
Definition fee_limit (e : envelope) : option Z :=
  match e with Morph t => Some (TxMorph.fee_limit (tx t)) | _ => None end.
Definition version (e : envelope) : option Z :=
  match e with Morph t => Some (TxMorph.version (tx t)) | _ => None end.
Definition reference (e : envelope) : option bytes :=
  match e with Morph t => TxMorph.reference (tx t) | _ => None end.
Definition memo (e : envelope) : option bytes :=
  match e with Morph t => TxMorph.memo (tx t) | _ => None end.
Definition queue_index (e : envelope) : option Z :=
  match e with
  | Legacy _ | Eip2930 _ | Eip1559 _ | Eip7702 _ | Morph _ => None
  | L1Msg t => Some (TxL1Msg.queue_index t)
  end.

Context `{AlloyRlp AL SA SG}.
(** [Encodable2718::encode_2718_len] of the foreign transactions. *)
Context (eth_encode_2718_len : ETH → Z).

Definition encode_2718_len (e : envelope) : Z :=
  match e with
  | Legacy t | Eip2930 t | Eip1559 t | Eip7702 t => eth_encode_2718_len t
  | L1Msg t => TxL1Msg.encode_2718_len t
  | Morph t => 1 + TxMorph.rlp_encoded_length_with_signature (tx t) (signature t)
  end.
End Accessors.

Section Lemmas.
Context {ETH AL SA SG : Type}.

Lemma is_l1_msg_spec (e : MorphTxEnvelope ETH AL SA SG) :
  is_l1_msg e = true ↔ ∃ q, queue_index e = Some q.
Proof. unfold is_l1_msg. rewrite bool_decide_eq_true. destruct e; naive_solver. Qed.

Lemma is_l1_msg_L1Msg (e : MorphTxEnvelope ETH AL SA SG) :
  is_l1_msg e = true ↔ ∃ m, e = L1Msg m.
Proof. unfold is_l1_msg. rewrite bool_decide_eq_true. destruct e; naive_solver. Qed.
End Lemmas.

End MorphTxEnvelope.
