(* ===== verification/Consensus.v ===== *)
(** * Consensus validation

    Models [crates/consensus/src/validation.rs] (header, header-against-parent,
    block body and post-execution checks of [MorphConsensus]) and
    [crates/consensus/src/error.rs].  The system clock is the argument [now];
    reth's own checks and the hash functions are parameters. *)

From S2P Require Import Prelude Hardfork Rlp MorphTx Envelope.

(** ** Data *)

(** [alloy_consensus::Header], as far as the code reads it, and
    [crates/primitives/src/header.rs]. *)
Record Header := {
  parent_hash : B256;
  ommers_hash : B256;
  beneficiary : Address;
  state_root : B256;
  transactions_root : B256;
  receipts_root : B256;
  logs_bloom : Z;
  difficulty : Z;
  number : Z;
  gas_limit : Z;
  gas_used : Z;
  timestamp : Z;
  mix_hash : B256;
  nonce : option Z;
  base_fee_per_gas : option Z;
  extra_data : bytes;
}.

Record MorphHeader := { next_l1_msg_index : Z; inner : Header }.

(** [SealedHeader]: a header with its block hash. *)
Record SealedHeader := { header : MorphHeader; hash : B256 }.

Inductive MorphConsensusError :=
| InvalidL1MessageOrder
| L1MessagesNotInOrder (expected actual : Z)
| MalformedL1Message
| BaseFeeOverLimit (fee : Z)
| InvalidNextL1MessageIndex (expected actual : Z)
| InvalidCoinbase (a : Address)
| InvalidHeader (s : string)
| InvalidBody (s : string)
| TransactionDecodeError (s : string)
| WithdrawalsNonEmpty
| InvalidBlockPayloadSize (size limit : Z).

(** [reth_consensus::ConsensusError], the variants the code builds; [Foreign]
    stands for what reth's own checks report. *)
Inductive ConsensusError :=
| ExtraDataExceedsMax (len : Z)
| TheMergeNonceIsNotZero
| TheMergeOmmerRootIsNotEmpty
| TheMergeDifficultyIsNotZero
| TimestampIsInFuture (timestamp present_timestamp : Z)
| TimestampIsInPast (parent_timestamp timestamp : Z)
| HeaderGasLimitExceedsMax (gas_limit : Z)
| HeaderGasUsedExceedsGasLimit (gas_used gas_limit : Z)
| BaseFeeMissing
| GasLimitInvalidIncrease (parent_gas_limit child_gas_limit : Z)
| GasLimitInvalidDecrease (parent_gas_limit child_gas_limit : Z)
| GasLimitInvalidMinimum (child_gas_limit : Z)
| BodyOmmersHashDiff (got expected : B256)
| BodyTransactionRootDiff (got expected : B256)
| BlockGasUsed (got expected : Z) (gas_spent_by_tx : list (Z * Z))
| BodyReceiptRootDiff (got expected : B256)
| BodyBloomLogDiff (got expected : Z)
| Msg (s : string)
| Other (e : MorphConsensusError)
| Foreign (s : string).

(** ** Constants *)

Definition MORPH_MAXIMUM_BASE_FEE : Z := 10000000000.
Definition MAX_GAS_LIMIT : Z := 0x7fffffffffffffff.
Definition GAS_LIMIT_BOUND_DIVISOR : Z := 1024.
Definition MINIMUM_GAS_LIMIT : Z := 5000.
Definition MORPH_MAX_TX_PAYLOAD_BYTES_PER_BLOCK : Z := 720 * 1024.

Import MorphTxEnvelope.

(** ** Header validation *)

Section HeaderValidation.
Context {T E F : Type} `{ForkConditionOps F} `{ChainHardforksOps T E F}.
Context (EMPTY_OMMER_ROOT_HASH : B256).
(** [reth_consensus_common::validation::validate_against_parent_hash_number]. *)
Context (validate_against_parent_hash_number :
  MorphHeader → SealedHeader → result unit ConsensusError).
Implicit Types chain_spec : MorphChainSpec T.

Definition validate_header chain_spec (now : Z) (sealed : SealedHeader)
  : result unit ConsensusError :=
  let h := inner (header sealed) in
  reject ExtraDataExceedsMax (len (extra_data h)) when negb (len (extra_data h) =? 0) in
  reject TheMergeNonceIsNotZero
    when negb (match nonce h with Some n => n =? 0 | None => false end) in
  reject TheMergeOmmerRootIsNotEmpty when negb (ommers_hash h =? EMPTY_OMMER_ROOT_HASH) in
  reject TheMergeDifficultyIsNotZero when negb (difficulty h =? 0) in
  reject Other (InvalidCoinbase (beneficiary h))
    when is_fee_vault_enabled chain_spec && negb (beneficiary h =? 0) in
  reject TimestampIsInFuture (timestamp h) now when now <? timestamp h in
  reject HeaderGasLimitExceedsMax (gas_limit h) when MAX_GAS_LIMIT <? gas_limit h in
  reject HeaderGasUsedExceedsGasLimit (gas_used h) (gas_limit h)
    when gas_limit h <? gas_used h in
  let? base_fee := ok_or (base_fee_per_gas h) BaseFeeMissing in
  reject Other (BaseFeeOverLimit base_fee) when MORPH_MAXIMUM_BASE_FEE <? base_fee in
  Ok tt.

Definition validate_against_parent_timestamp (h parent : Header) (is_emerald : bool)
  : result unit ConsensusError :=
  reject TimestampIsInPast (timestamp parent) (timestamp h)
    when (timestamp h <? timestamp parent)
         || ((timestamp h =? timestamp parent) && negb is_emerald) in
  Ok tt.

Definition validate_against_parent_gas_limit (h parent : Header)
  : result unit ConsensusError :=
  let diff := abs_diff (gas_limit h) (gas_limit parent) in
  let limit := gas_limit parent / GAS_LIMIT_BOUND_DIVISOR in
  if limit <=? diff then
    if gas_limit parent <? gas_limit h
    then Err (GasLimitInvalidIncrease (gas_limit parent) (gas_limit h))
    else Err (GasLimitInvalidDecrease (gas_limit parent) (gas_limit h))
  else
    reject GasLimitInvalidMinimum (gas_limit h) when gas_limit h <? MINIMUM_GAS_LIMIT in
    Ok tt.

Definition validate_header_against_parent chain_spec (sealed parent : SealedHeader)
  : result unit ConsensusError :=
  do? validate_against_parent_hash_number (header sealed) parent in
  let is_emerald :=
    is_emerald_active_at_timestamp chain_spec (timestamp (inner (header sealed))) in
  do? validate_against_parent_timestamp
        (inner (header sealed)) (inner (header parent)) is_emerald in
  do? validate_against_parent_gas_limit (inner (header sealed)) (inner (header parent)) in
  reject Other (InvalidNextL1MessageIndex
      (next_l1_msg_index (header parent)) (next_l1_msg_index (header sealed)))
    when next_l1_msg_index (header sealed) <? next_l1_msg_index (header parent) in
  Ok tt.

Definition is_transient_error (e : ConsensusError) : bool :=
  match e with TimestampIsInFuture _ _ => true | _ => false end.
End HeaderValidation.

(** ** Block body validation *)

Section BodyValidation.
Context {T E F : Type} `{ForkConditionOps F} `{ChainHardforksOps T E F}.
Context {ETH AL SA SG : Type} `{AlloyRlp AL SA SG}.
Context (EMPTY_OMMER_ROOT_HASH : B256).
Context (eth_encode_2718_len : ETH → Z).
Abbreviation tx := (MorphTxEnvelope ETH AL SA SG).
Context (calculate_transaction_root : list tx → B256).
Implicit Types chain_spec : MorphChainSpec T.

Record BlockBody := {
  transactions : list tx;
  ommers : list MorphHeader;
  withdrawals : option (list Z);
}.

Record SealedBlock := { block_header : SealedHeader; body : BlockBody }.

Definition l2_tx_payload_bytes (txs : list tx) : Z :=
  foldl (saturating_add u64_max) 0
    (map (encode_2718_len eth_encode_2718_len) (List.filter (λ t, negb (is_l1_msg t)) txs)).

Definition validate_l2_tx_payload_size (txs : list tx) : result unit ConsensusError :=
  let size := l2_tx_payload_bytes txs in
  reject Other (InvalidBlockPayloadSize size MORPH_MAX_TX_PAYLOAD_BYTES_PER_BLOCK)
    when MORPH_MAX_TX_PAYLOAD_BYTES_PER_BLOCK <? size in
  Ok tt.

(** The loop of [validate_l1_messages_in_block]: its three variables are the
    arguments, their values after the loop the result. *)
Fixpoint l1_messages_loop (txs : list tx)
    (l1_msg_count : Z) (saw_l2_transaction : bool) (prev_queue_index : option Z)
  : result (Z * bool * option Z) ConsensusError :=
  match txs with
  | [] => Ok (l1_msg_count, saw_l2_transaction, prev_queue_index)
  | t :: txs =>
      if is_l1_msg t then
        reject Other InvalidL1MessageOrder when saw_l2_transaction in
        let? tx_queue_index := ok_or (queue_index t) (Other MalformedL1Message) in
        do? match prev_queue_index with
            | Some prev =>
                let? expected := ok_or (checked_add u64_max prev 1)
                  (Other (L1MessagesNotInOrder u64_max tx_queue_index)) in
                reject Other (L1MessagesNotInOrder expected tx_queue_index)
                  when negb (tx_queue_index =? expected) in
                Ok tt
            | None => Ok tt
            end in
        l1_messages_loop txs (l1_msg_count + 1) saw_l2_transaction (Some tx_queue_index)
      else l1_messages_loop txs l1_msg_count true prev_queue_index
  end.

Definition validate_l1_messages_in_block (txs : list tx)
    (header_next_l1_msg_index : Z) (is_jade : bool) : result unit ConsensusError :=
  let? '(l1_msg_count, _, prev_queue_index) := l1_messages_loop txs 0 false None in
  if 0 <? l1_msg_count then
    let? last_queue_index := ok_or prev_queue_index
      (Msg "internal error: l1_msg_count > 0 but prev_queue_index is None"%string) in
    let? expected := ok_or (checked_add u64_max last_queue_index 1)
      (Other (InvalidNextL1MessageIndex u64_max header_next_l1_msg_index)) in
    let inconsistent :=
      if is_jade then negb (header_next_l1_msg_index =? expected)
      else header_next_l1_msg_index <? expected in
    reject Other (InvalidNextL1MessageIndex expected header_next_l1_msg_index)
      when inconsistent in
    Ok tt
  else Ok tt.

Fixpoint validate_morph_txs (txs : list tx) (is_emerald is_jade is_celadon : bool)
  : result unit ConsensusError :=
  match txs with
  | [] => Ok tt
  | Morph signed :: txs =>
      let morph_tx := MorphTxEnvelope.tx signed in
      reject Other (InvalidBody
          "MorphTx type is not yet active (emerald fork not reached)"%string)
        when negb is_emerald in
      reject Other (InvalidBody
          "MorphTx version 1 is not yet active (jade fork not reached)"%string)
        when negb is_jade && (TxMorph.version morph_tx =? TxMorph.MORPH_TX_VERSION_1) in
      reject Other (InvalidBody
          "MorphTx version 2 is not yet active (celadon fork not reached)"%string)
        when negb is_celadon && (TxMorph.version morph_tx =? TxMorph.MORPH_TX_VERSION_2) in
      do? map_err (λ reason, Other (InvalidBody reason)) (TxMorph.validate morph_tx) in
      validate_morph_txs txs is_emerald is_jade is_celadon
  | _ :: txs => validate_morph_txs txs is_emerald is_jade is_celadon
  end.

Definition validate_block_pre_execution chain_spec (block : SealedBlock)
  : result unit ConsensusError :=
  let h := header (block_header block) in
  let txs := transactions (body block) in
  reject Msg "uncles not allowed"%string
    when (0 <? length (ommers (body block)))%nat in
  reject BodyOmmersHashDiff (ommers_hash (inner h)) EMPTY_OMMER_ROOT_HASH
    when negb (ommers_hash (inner h) =? EMPTY_OMMER_ROOT_HASH) in
  reject BodyTransactionRootDiff (calculate_transaction_root txs) (transactions_root (inner h))
    when negb (calculate_transaction_root txs =? transactions_root (inner h)) in
  reject Other WithdrawalsNonEmpty when bool_decide (is_Some (withdrawals (body block))) in
  do? validate_l2_tx_payload_size txs in
  let is_emerald := is_emerald_active_at_timestamp chain_spec (timestamp (inner h)) in
  let is_jade := is_jade_active_at_timestamp chain_spec (timestamp (inner h)) in
  let is_celadon := is_celadon_active_at_timestamp chain_spec (timestamp (inner h)) in
  do? validate_morph_txs txs is_emerald is_jade is_celadon in
  do? validate_l1_messages_in_block txs (next_l1_msg_index h) is_jade in
  Ok tt.
End BodyValidation.
Arguments BlockBody : clear implicits.
Arguments SealedBlock : clear implicits.

(** ** Post-execution validation *)

Section PostExecution.
(** Receipts are seen through their cumulative gas and their bloom. *)
Context {R : Type} (cumulative_gas_used : R → Z) (bloom_ref : R → Z).
Context (calculate_receipt_root : list R → B256).
Context (gas_spent_by_transactions : list R → list (Z * Z)).

Definition verify_receipts_precomputed
    (expected_receipts_root : B256) (expected_logs_bloom : Z)
    (receipts_root : B256) (logs_bloom : Z) : result unit ConsensusError :=
  reject BodyReceiptRootDiff receipts_root expected_receipts_root
    when negb (receipts_root =? expected_receipts_root) in
  reject BodyBloomLogDiff logs_bloom expected_logs_bloom
    when negb (logs_bloom =? expected_logs_bloom) in
  Ok tt.

Definition verify_receipts (expected_receipts_root : B256) (expected_logs_bloom : Z)
    (receipts : list R) : result unit ConsensusError :=
  let receipts_root := calculate_receipt_root receipts in
  let logs_bloom := foldl (λ bloom r, Z.lor bloom (bloom_ref r)) 0 receipts in
  reject BodyReceiptRootDiff receipts_root expected_receipts_root
    when negb (receipts_root =? expected_receipts_root) in
  reject BodyBloomLogDiff logs_bloom expected_logs_bloom
    when negb (logs_bloom =? expected_logs_bloom) in
  Ok tt.

Definition validate_block_post_execution (h : Header) (receipts : list R)
    (receipt_root_bloom : option (B256 * Z)) : result unit ConsensusError :=
  let cumulative := default 0 (cumulative_gas_used <$> last receipts) in
  reject BlockGasUsed cumulative (gas_used h) (gas_spent_by_transactions receipts)
    when negb (gas_used h =? cumulative) in
  match receipt_root_bloom with
  | Some (root, bloom) =>
      do? verify_receipts_precomputed (receipts_root h) (logs_bloom h) root bloom in Ok tt
  | None => do? verify_receipts (receipts_root h) (logs_bloom h) receipts in Ok tt
  end.
End PostExecution.

(** ** Lemmas: headers *)

Section HeaderLemmas.
Context {T E F : Type} `{ForkConditionOps F} `{ChainHardforksOps T E F}.
Context (EMPTY_OMMER_ROOT_HASH : B256).
Context (vph : MorphHeader → SealedHeader → result unit ConsensusError).
Implicit Types chain_spec : MorphChainSpec T.

Lemma validate_header_Ok chain_spec now sealed :
  validate_header EMPTY_OMMER_ROOT_HASH chain_spec now sealed = Ok tt ↔
  let h := inner (header sealed) in
  extra_data h = [] ∧ nonce h = Some 0 ∧ ommers_hash h = EMPTY_OMMER_ROOT_HASH
  ∧ difficulty h = 0
  ∧ (is_fee_vault_enabled chain_spec = true → beneficiary h = 0)
  ∧ timestamp h ≤ now ∧ gas_limit h ≤ MAX_GAS_LIMIT ∧ gas_used h ≤ gas_limit h
  ∧ ∃ fee, base_fee_per_gas h = Some fee ∧ fee ≤ MORPH_MAXIMUM_BASE_FEE.
Proof.
  unfold validate_header. cbv zeta. rewrite !reject_Ok, bind_Ok.
  setoid_rewrite ok_or_Ok. setoid_rewrite reject_Ok. bool_simp.
  assert (len (extra_data (inner (header sealed))) = 0
    ↔ extra_data (inner (header sealed)) = []) as ->.
  { destruct (extra_data _) as [|x b]; [done|]. rewrite len_cons.
    pose proof (len_nonneg b). split; [lia|done]. }
  assert (match nonce (inner (header sealed)) with Some n => n =? 0 | None => false end = true
    ↔ nonce (inner (header sealed)) = Some 0) as ->.
  { destruct (nonce _) as [n|]; [|naive_solver]. bool_simp. naive_solver. }
  assert (is_fee_vault_enabled chain_spec = false ∨ beneficiary (inner (header sealed)) = 0
    ↔ (is_fee_vault_enabled chain_spec = true → beneficiary (inner (header sealed)) = 0)) as ->.
  { destruct (is_fee_vault_enabled chain_spec); naive_solver. }
  split.
  - intros (? & ? & ? & ? & ? & ? & ? & ? & fee & ? & ? & _).
    repeat (split; [assumption|]). exists fee. split; [done|]. bool_simp. lia.
  - intros (? & ? & ? & ? & ? & ? & ? & ? & fee & ? & ?).
    repeat (split; [assumption|]). exists fee. split; [done|]. split; [|done].
    bool_simp. lia.
Qed.

(** The child's gas limit stays strictly within 1/1024 of its parent's. *)
Lemma parent_gas_limit_Ok (h parent : Header) :
  0 ≤ gas_limit parent →
  validate_against_parent_gas_limit h parent = Ok tt ↔
  Z.abs (gas_limit h - gas_limit parent) < gas_limit parent / GAS_LIMIT_BOUND_DIVISOR
  ∧ MINIMUM_GAS_LIMIT ≤ gas_limit h.
Proof.
  intros _. unfold validate_against_parent_gas_limit, abs_diff. cbv zeta.
  destruct (Z.leb_spec (gas_limit parent / GAS_LIMIT_BOUND_DIVISOR)
    (Z.abs (gas_limit h - gas_limit parent))).
  - split; [by destruct (gas_limit parent <? gas_limit h)|lia].
  - rewrite reject_Ok. bool_simp. naive_solver.
Qed.

Lemma parent_timestamp_Ok (h parent : Header) is_emerald :
  validate_against_parent_timestamp h parent is_emerald = Ok tt ↔
  timestamp parent < timestamp h ∨ (timestamp parent = timestamp h ∧ is_emerald = true).
Proof.
  unfold validate_against_parent_timestamp. rewrite reject_Ok.
  destruct is_emerald; cbn [negb]; rewrite ?andb_true_r, ?andb_false_r; bool_simp;
    intuition lia.
Qed.

Lemma header_against_parent_Ok chain_spec sealed parent :
  0 ≤ gas_limit (inner (header parent)) →
  validate_header_against_parent vph chain_spec sealed parent = Ok tt ↔
  let h := inner (header sealed) in
  let p := inner (header parent) in
  vph (header sealed) parent = Ok tt
  ∧ (timestamp p < timestamp h
     ∨ (timestamp p = timestamp h
        ∧ is_emerald_active_at_timestamp chain_spec (timestamp h) = true))
  ∧ (Z.abs (gas_limit h - gas_limit p) < gas_limit p / GAS_LIMIT_BOUND_DIVISOR
     ∧ MINIMUM_GAS_LIMIT ≤ gas_limit h)
  ∧ next_l1_msg_index (header parent) ≤ next_l1_msg_index (header sealed).
Proof.
  intros Hg. unfold validate_header_against_parent. cbv zeta.
  rewrite !bind_unit_Ok, parent_timestamp_Ok, parent_gas_limit_Ok, reject_Ok by done.
  bool_simp. naive_solver.
Qed.
End HeaderLemmas.

(** ** Lemmas: L1 messages in a block *)

Section L1Messages.
Context {ETH AL SA SG : Type}.
Abbreviation tx := (MorphTxEnvelope ETH AL SA SG).

(** Queue indices that continue a previous one, each one above the last, with
    no overflow on the way. *)
Fixpoint continues (prev : option Z) (qs : list Z) : Prop :=
  match qs with
  | [] => True
  | q :: qs =>
      match prev with Some p => q = p + 1 ∧ p + 1 ≤ u64_max | None => True end
      ∧ continues (Some q) qs
  end.

Lemma l1_messages_loop_Ok (txs : list tx) c saw prev res :
  l1_messages_loop txs c saw prev = Ok res ↔
  ∃ msgs l2, txs = (L1Msg <$> msgs) ++ l2
    ∧ Forall (λ t, is_l1_msg t = false) l2
    ∧ (saw = true → msgs = [])
    ∧ continues prev (TxL1Msg.queue_index <$> msgs)
    ∧ res = (c + Z.of_nat (length msgs),
             saw || match l2 with [] => false | _ => true end,
             match last (TxL1Msg.queue_index <$> msgs) with Some q => Some q | None => prev end).
Proof.
  revert c saw prev. induction txs as [|t txs IH]; intros c saw prev; cbn [l1_messages_loop].
  { split.
    - intros [= <-]. exists [], []. repeat split; try done.
      by rewrite Z.add_0_r, orb_false_r.
    - intros (msgs & l2 & Heq & _ & _ & _ & ->). symmetry in Heq.
      apply app_eq_nil in Heq as [Hm ->]. destruct msgs; [|done].
      by rewrite Z.add_0_r, orb_false_r. }
  destruct (is_l1_msg t) eqn:Ht.
  - apply is_l1_msg_L1Msg in Ht as [m ->]. destruct saw.
    { split; [done|]. intros (msgs & l2 & Heq & Hl2 & Hs & _). rewrite Hs in Heq by done.
      cbn in Heq. subst l2. by apply Forall_cons_1 in Hl2 as [Hl2 _]. }
    cbn [queue_index ok_or result_bind]. rewrite bind_unit_Ok, IH.
    assert (∀ q : Z, match prev with
      | Some prev => let? expected := ok_or (checked_add u64_max prev 1)
            (Other (L1MessagesNotInOrder u64_max q)) in
          reject Other (L1MessagesNotInOrder expected q) when negb (q =? expected) in Ok tt
      | None => Ok tt end = Ok tt
      ↔ match prev with Some p => q = p + 1 ∧ p + 1 ≤ u64_max | None => True end) as ->.
    { intros q. destruct prev as [p|]; [|done]. rewrite bind_Ok.
      setoid_rewrite ok_or_Ok. setoid_rewrite reject_Ok.
      setoid_rewrite checked_add_Some. split.
      - intros (a & (-> & Hb) & Hq & _). bool_simp. done.
      - intros (-> & Hb). exists (p + 1). by rewrite Z.eqb_refl. }
    split.
    + intros (Hp & msgs & l2 & -> & Hl2 & _ & Hc & ->). exists (m :: msgs), l2.
      repeat split; try done. f_equal; [f_equal; simpl; lia|].
      rewrite fmap_cons, last_cons. by destruct (last (TxL1Msg.queue_index <$> msgs)).
    + intros (msgs & l2 & Heq & Hl2 & _ & Hc & ->). destruct msgs as [|m' msgs].
      { cbn in Heq. subst l2. by apply Forall_cons_1 in Hl2 as [Hl2 _]. }
      cbn in Heq. injection Heq as <- ->. destruct Hc as [Hp Hc]. split; [done|].
      exists msgs, l2. repeat split; try done. f_equal; [f_equal; simpl; lia|].
      rewrite fmap_cons, last_cons. by destruct (last (TxL1Msg.queue_index <$> msgs)).
  - rewrite IH. split.
    + intros (msgs & l2 & -> & Hl2 & Hs & _ & ->). rewrite Hs by done.
      exists [], (t :: l2). repeat split; try done; [by constructor|].
      cbn. by rewrite orb_true_r.
    + intros (msgs & l2 & Heq & Hl2 & Hs & Hc & ->). destruct msgs as [|m msgs].
      * cbn in Heq. subst l2. apply Forall_cons_1 in Hl2 as [_ Hl2].
        exists [], txs. repeat split; try done. cbn. by rewrite orb_true_r.
      * cbn in Heq. injection Heq as -> _. done.
Qed.

Lemma continues_seqZ q qs :
  continues (Some q) qs ↔
  qs = seqZ (q + 1) (Z.of_nat (length qs))
  ∧ (qs ≠ [] → q + Z.of_nat (length qs) ≤ u64_max).
Proof.
  revert q. induction qs as [|q' qs IH]; intros q; cbn [continues]; [done|].
  rewrite IH. cbn [length]. rewrite Nat2Z.inj_succ, (seqZ_cons (q + 1)) by lia.
  rewrite Z.pred_succ. replace (Z.succ (q + 1)) with (q + 1 + 1) by lia. split.
  - intros [[-> Hb] [Hqs Hl]]. split; [by rewrite <-Hqs|]. intros _.
    destruct qs; [cbn [length]; lia|]. specialize (Hl ltac:(done)). lia.
  - intros [[= -> Hqs] Hl]. specialize (Hl ltac:(done)).
    split; [split; [done|lia]|]. split; [done|]. intros _. lia.
Qed.

Lemma last_seqZ q n d : 0 < n → last (seqZ q n) = Some d → d = q + n - 1.
Proof.
  intros Hn. rewrite last_lookup, length_seqZ, lookup_seqZ. lia.
Qed.
End L1Messages.

(** ** What a block's L1 messages must look like *)

(** The L1 messages come first, carry consecutive queue indices that do not
    overflow, and the header's next index is the one after the last of them
    (from Jade on) or at least that (before). *)
Definition l1_messages_well_placed {ETH AL SA SG}
    (txs : list (MorphTxEnvelope ETH AL SA SG)) (next : Z) (is_jade : bool) : Prop :=
  ∃ msgs l2, txs = (L1Msg <$> msgs) ++ l2
    ∧ Forall (λ t, is_l1_msg t = false) l2
    ∧ (msgs = []
       ∨ ∃ q, (TxL1Msg.queue_index <$> msgs) = seqZ q (Z.of_nat (length msgs))
           ∧ q + Z.of_nat (length msgs) ≤ u64_max
           ∧ (if is_jade then next = q + Z.of_nat (length msgs)
              else q + Z.of_nat (length msgs) ≤ next)).

Section BodyLemmas.
Context {ETH AL SA SG : Type} `{AlloyRlp AL SA SG}.
Abbreviation tx := (MorphTxEnvelope ETH AL SA SG).
Context (eth_len : ETH → Z).

Lemma last_index_check q next (is_jade : bool) :
  (let? expected := ok_or (checked_add u64_max q 1)
     (Other (InvalidNextL1MessageIndex u64_max next)) in
   reject Other (InvalidNextL1MessageIndex expected next)
     when (if is_jade then negb (next =? expected) else next <? expected) in
   Ok tt) = Ok tt
  ↔ q + 1 ≤ u64_max ∧ (if is_jade then next = q + 1 else q + 1 ≤ next).
Proof.
  rewrite bind_Ok. setoid_rewrite ok_or_Ok. setoid_rewrite reject_Ok.
  setoid_rewrite checked_add_Some. split.
  - intros (a & (-> & Hb) & Hi & _). split; [done|]. destruct is_jade; bool_simp; lia.
  - intros (Hb & Hi). exists (q + 1). split; [done|]. split; [|done].
    destruct is_jade; bool_simp; lia.
Qed.

(** A non-empty run of indices, seen from its last one. *)
Lemma continues_None q qs :
  continues None (q :: qs) ↔
  q :: qs = seqZ q (Z.of_nat (length (q :: qs)))
  ∧ (qs ≠ [] → q + Z.of_nat (length qs) ≤ u64_max).
Proof.
  cbn [continues]. rewrite continues_seqZ. cbn [length].
  rewrite Nat2Z.inj_succ, (seqZ_cons q) by lia. rewrite Z.pred_succ.
  replace (Z.succ q) with (q + 1) by lia. naive_solver congruence.
Qed.

Lemma last_of_run q qs :
  q :: qs = seqZ q (Z.of_nat (length (q :: qs))) →
  last (q :: qs) = Some (q + Z.of_nat (length qs)).
Proof.
  intros Hq. rewrite Hq, last_lookup, length_seqZ. apply lookup_seqZ.
  cbn [length]. lia.
Qed.

Lemma validate_l1_messages_spec (txs : list tx) next is_jade :
  validate_l1_messages_in_block txs next is_jade = Ok tt ↔
  l1_messages_well_placed txs next is_jade.
Proof.
  unfold validate_l1_messages_in_block, l1_messages_well_placed. rewrite bind_Ok.
  setoid_rewrite l1_messages_loop_Ok. split.
  - intros ([[c saw] prev] & (msgs & l2 & -> & Hl2 & _ & Hc & [= -> -> ->]) & Hend).
    exists msgs, l2. split; [done|]. split; [done|].
    destruct msgs as [|m msgs]; [by left|]. right.
    exists (TxL1Msg.queue_index m). rewrite fmap_cons in *.
    apply continues_None in Hc as [Hq _].
    rewrite last_of_run in Hend by done. rewrite length_cons, length_fmap in Hq.
    rewrite length_cons, length_fmap in Hend. rewrite length_cons.
    destruct (Z.ltb_spec 0 (0 + Z.of_nat (S (length msgs)))); [|lia].
    cbn [ok_or result_bind] in Hend. apply last_index_check in Hend as [Hb Hn].
    split; [done|]. split; [lia|]. destruct is_jade; lia.
  - intros (msgs & l2 & -> & Hl2 & Hm).
    eexists (Z.of_nat (length msgs), match l2 with [] => false | _ => true end,
             last (TxL1Msg.queue_index <$> msgs)).
    destruct Hm as [->|(q & Hq & Hb & Hn)].
    { split; [|done]. exists [], l2. by repeat split. }
    destruct msgs as [|m msgs].
    { split; [|done]. exists [], l2. by repeat split. }
    assert (TxL1Msg.queue_index m = q) as <-.
    { rewrite fmap_cons, length_cons, Nat2Z.inj_succ, seqZ_cons in Hq by lia. congruence. }
    rewrite fmap_cons in Hq. rewrite length_cons in Hq, Hb, Hn.
    rewrite <-(length_fmap TxL1Msg.queue_index msgs), <-(length_cons (TxL1Msg.queue_index m))
      in Hq.
    split.
    + exists (m :: msgs), l2. rewrite (fmap_cons TxL1Msg.queue_index), continues_None,
        last_of_run by done.
      split_and!; try done. rewrite length_fmap. intros _. lia.
    + rewrite fmap_cons, last_of_run, length_cons, length_fmap by done.
      destruct (Z.ltb_spec 0 (Z.of_nat (S (length msgs)))); [|lia].
      cbn [ok_or result_bind]. apply last_index_check. split; [lia|]. destruct is_jade; lia.
Qed.

Lemma l2_payload_sum (txs : list tx) :
  (∀ t, t ∈ txs → 0 ≤ encode_2718_len eth_len t) →
  l2_tx_payload_bytes eth_len txs
  = Z.min (sum_by (encode_2718_len eth_len) (List.filter (λ t, negb (is_l1_msg t)) txs)) u64_max.
Proof.
  intros Hpos. unfold l2_tx_payload_bytes.
  set (l := List.filter (λ t, negb (is_l1_msg t)) txs).
  assert (∀ t, t ∈ l → 0 ≤ encode_2718_len eth_len t) as Hl.
  { intros t Ht. apply Hpos. unfold l in Ht. rewrite list_elem_of_In in *.
    by apply filter_In in Ht as [Ht _]. }
  rewrite foldl_saturating_add.
  - by rewrite Z.add_0_l, sum_by_map.
  - ulia.
  - apply Forall_forall. intros x Hx. rewrite list_elem_of_In in Hx.
    apply in_map_iff in Hx as (t & <- & Ht). apply Hl. by apply list_elem_of_In.
Qed.

Lemma validate_morph_txs_Ok (txs : list tx) is_emerald is_jade is_celadon :
  validate_morph_txs txs is_emerald is_jade is_celadon = Ok tt ↔
  ∀ s, Morph s ∈ txs →
    is_emerald = true
    ∧ (TxMorph.version (MorphTxEnvelope.tx s) = 1 → is_jade = true)
    ∧ (TxMorph.version (MorphTxEnvelope.tx s) = 2 → is_celadon = true)
    ∧ TxMorph.validate (MorphTxEnvelope.tx s) = Ok tt.
Proof.
  induction txs as [|t txs IH]; [split; [intros _ s Hs; by apply not_elem_of_nil in Hs|done]|].
  assert (∀ P : Signed (TxMorph.TxMorph AL SA) SG → Prop,
    (∀ s, Morph s ∈ t :: txs → P s) ↔ (∀ s, t = Morph s → P s) ∧ ∀ s, Morph s ∈ txs → P s) as ->.
  { intros P. setoid_rewrite elem_of_cons. naive_solver. }
  rewrite <-IH. destruct t; cbn [validate_morph_txs];
    try (split; [intros Hr; split; [by intros s | done] | by intros [_ Hr]]).
  rewrite !reject_Ok, bind_unit_Ok, map_err_Ok. bool_simp.
  unfold TxMorph.MORPH_TX_VERSION_1, TxMorph.MORPH_TX_VERSION_2.
  split.
  - intros (-> & Hj & Hc & Hv & Hr). split; [|done]. intros s [= <-].
    split; [done|]. split; [|split; [|done]].
    + destruct is_jade; [done|]. by destruct Hj.
    + destruct is_celadon; [done|]. by destruct Hc.
  - intros [Hs Hr]. destruct (Hs _ eq_refl) as (-> & Hj & Hc & Hv).
    split; [done|]. split; [|split; [|done]].
    + destruct is_jade; [by left|]. right. intros E1. by specialize (Hj E1).
    + destruct is_celadon; [by left|]. right. intros E2. by specialize (Hc E2).
Qed.
End BodyLemmas.

(** ** Chains of validated headers *)

Section Chain.
Context {T E F : Type} `{ForkConditionOps F} `{ChainHardforksOps T E F}.
Context (vph : MorphHeader → SealedHeader → result unit ConsensusError).
Context (chain_spec : MorphChainSpec T).

(** [child_of p h]: [h] passes the check against its parent [p]. *)
Definition child_of (p h : SealedHeader) : Prop :=
  validate_header_against_parent vph chain_spec h p = Ok tt.

(** reth's check: the child names its parent's hash and the next number. *)
Definition links_parent : Prop :=
  ∀ h p, vph h p = Ok tt →
    number (inner h) = number (inner (header p)) + 1 ∧ parent_hash (inner h) = hash p.

Lemma child_of_gas p h :
  0 ≤ gas_limit (inner (header p)) → child_of p h →
  MINIMUM_GAS_LIMIT ≤ gas_limit (inner (header h))
  ∧ 1024 * gas_limit (inner (header h)) < 1025 * gas_limit (inner (header p))
  ∧ 1023 * gas_limit (inner (header p)) < 1024 * gas_limit (inner (header h)).
Proof.
  intros Hg Hc. apply header_against_parent_Ok in Hc as (_ & _ & [Hd Hm] & _); [|done].
  unfold GAS_LIMIT_BOUND_DIVISOR in Hd.
  pose proof (Z.mul_div_le (gas_limit (inner (header p))) 1024 ltac:(lia)). lia.
Qed.

Lemma nsteps_child_of n p h :
  links_parent → 0 ≤ gas_limit (inner (header p)) → nsteps child_of n p h →
  number (inner (header h)) = number (inner (header p)) + Z.of_nat n
  ∧ timestamp (inner (header p)) ≤ timestamp (inner (header h))
  ∧ next_l1_msg_index (header p) ≤ next_l1_msg_index (header h)
  ∧ 0 ≤ gas_limit (inner (header h))
  ∧ 1024 ^ Z.of_nat n * gas_limit (inner (header h))
    ≤ 1025 ^ Z.of_nat n * gas_limit (inner (header p)).
Proof.
  intros Hl Hg Hn. induction Hn as [p|n p q h Hpq Hqh IH]; [lia|].
  destruct (child_of_gas p q Hg Hpq) as (Hm & Hu & _). unfold MINIMUM_GAS_LIMIT in Hm.
  apply header_against_parent_Ok in Hpq as (Hv & Ht & _ & Hi); [|done].
  destruct (Hl _ _ Hv) as [Hnum _].
  destruct IH as (IHn & IHt & IHi & IHg & IHl); [lia|].
  rewrite Nat2Z.inj_succ, !Z.pow_succ_r by lia.
  assert (0 < 1025 ^ Z.of_nat n) by (apply Z.pow_pos_nonneg; lia).
  repeat split; try lia. nia.
Qed.
End Chain.

(** ** Theorems *)

Section Theorems.
Context {T E F : Type} `{ForkConditionOps F} `{ChainHardforksOps T E F}.
Context {ETH AL SA SG : Type} `{AlloyRlp AL SA SG}.
Abbreviation tx := (MorphTxEnvelope ETH AL SA SG).
Implicit Types chain_spec : MorphChainSpec T.

(** C1. A block's L1 messages are accepted exactly when they lead the block
    with consecutive queue indices that do not overflow 64 bits and the header
    names the index after the last one: equal to it from Jade on, at least it
    before. *)
Theorem l1_messages_accepted_iff (txs : list tx) (next : Z) (is_jade : bool) :
  validate_l1_messages_in_block txs next is_jade = Ok tt ↔
  l1_messages_well_placed txs next is_jade.
Proof. apply validate_l1_messages_spec. Qed.

(** C23. A block body passes the pre-execution check exactly when it has no
    uncles and no withdrawals, commits to its transactions, keeps its L2
    payload within 720 KiB (the saturating sum hides no overflow), contains
    only Morph transactions that are active and valid, and places its L1
    messages well. *)
Theorem pre_execution_accepted_iff (empty_ommers : B256) (eth_len : ETH → Z)
    (tx_root : list tx → B256) chain_spec (block : SealedBlock ETH AL SA SG) :
  (∀ t, t ∈ transactions (body block) → 0 ≤ encode_2718_len eth_len t) →
  validate_block_pre_execution empty_ommers eth_len tx_root chain_spec block = Ok tt ↔
  let h := header (block_header block) in
  let txs := transactions (body block) in
  let ts := timestamp (inner h) in
  ommers (body block) = []
  ∧ ommers_hash (inner h) = empty_ommers
  ∧ tx_root txs = transactions_root (inner h)
  ∧ withdrawals (body block) = None
  ∧ sum_by (encode_2718_len eth_len) (List.filter (λ t, negb (is_l1_msg t)) txs)
    ≤ MORPH_MAX_TX_PAYLOAD_BYTES_PER_BLOCK
  ∧ (∀ s, Morph s ∈ txs →
       is_emerald_active_at_timestamp chain_spec ts = true
       ∧ (TxMorph.version (MorphTxEnvelope.tx s) = 1 →
          is_jade_active_at_timestamp chain_spec ts = true)
       ∧ (TxMorph.version (MorphTxEnvelope.tx s) = 2 →
          is_celadon_active_at_timestamp chain_spec ts = true)
       ∧ TxMorph.validate (MorphTxEnvelope.tx s) = Ok tt)
  ∧ l1_messages_well_placed txs (next_l1_msg_index h)
      (is_jade_active_at_timestamp chain_spec ts).
Proof.
  intros Hpos. cbv zeta. unfold validate_block_pre_execution, validate_l2_tx_payload_size.
  cbv zeta. rewrite !reject_Ok, !bind_unit_Ok, reject_Ok, validate_morph_txs_Ok,
    validate_l1_messages_spec, l2_payload_sum by done.
  assert ((0 <? length (ommers (body block)))%nat = false ↔ ommers (body block) = []) as ->
    by (destruct (ommers (body block)); naive_solver).
  assert (bool_decide (is_Some (withdrawals (body block))) = false
    ↔ withdrawals (body block) = None) as ->
    by (rewrite bool_decide_eq_false, eq_None_not_Some; done).
  bool_simp. unfold MORPH_MAX_TX_PAYLOAD_BYTES_PER_BLOCK.
  set (n := sum_by _ _). assert (Z.min n u64_max ≤ 720 * 1024 ↔ n ≤ 720 * 1024) as -> by ulia.
  tauto.
Qed.

(** Along any chain of validated headers the block number grows by one per
    block, time and the next L1 message index never go back, and after [n]
    blocks the gas limit has grown at most by the factor (1025/1024)^n. *)
Theorem header_chain_invariant
    (vph : MorphHeader → SealedHeader → result unit ConsensusError) chain_spec
    (n : nat) (p h : SealedHeader) :
  links_parent vph → 0 ≤ gas_limit (inner (header p)) →
  nsteps (child_of vph chain_spec) n p h →
  number (inner (header h)) = number (inner (header p)) + Z.of_nat n
  ∧ timestamp (inner (header p)) ≤ timestamp (inner (header h))
  ∧ next_l1_msg_index (header p) ≤ next_l1_msg_index (header h)
  ∧ 1024 ^ Z.of_nat n * gas_limit (inner (header h))
    ≤ 1025 ^ Z.of_nat n * gas_limit (inner (header p)).
Proof. intros Hl Hg Hn. apply nsteps_child_of in Hn; [tauto|done|done]. Qed.

(** The transient error is classified soundly: a header refused with a
    transient error is from the future, and once the clock has reached its
    timestamp it is never refused transiently again; a header refused with any
    other error is refused at every clock reading. *)
Theorem transient_error_classification (empty_ommers : B256) chain_spec
    (now now' : Z) (sealed : SealedHeader) (e : ConsensusError) :
  validate_header empty_ommers chain_spec now sealed = Err e →
  (is_transient_error e = true →
     now < timestamp (inner (header sealed))
     ∧ (timestamp (inner (header sealed)) ≤ now' →
        ∀ e', validate_header empty_ommers chain_spec now' sealed = Err e' →
        is_transient_error e' = false))
  ∧ (is_transient_error e = false →
     validate_header empty_ommers chain_spec now' sealed ≠ Ok tt).
Proof.
  unfold validate_header. cbv zeta. intros Herr.
  destruct (len _ =? 0); cbn [negb] in *; [|naive_solver].
  destruct (match nonce _ with Some n => n =? 0 | None => false end);
    cbn [negb] in *; [|naive_solver].
  destruct (ommers_hash _ =? _); cbn [negb] in *; [|naive_solver].
  destruct (difficulty _ =? 0); cbn [negb] in *; [|naive_solver].
  destruct (_ && _); [naive_solver|].
  destruct (Z.ltb_spec now (timestamp (inner (header sealed)))),
    (Z.ltb_spec now' (timestamp (inner (header sealed)))); simplify_eq;
    split; intros Htr; try done; try (split; [done|]); try lia.
  all: destruct (_ <? gas_limit _); simplify_eq; try (intros; by simplify_eq).
  all: destruct (gas_limit _ <? _); simplify_eq; try (intros; by simplify_eq).
  all: destruct (base_fee_per_gas _) as [fee|]; cbn in *; simplify_eq;
    try (intros; by simplify_eq).
  all: destruct (_ <? fee); simplify_eq; intros; by simplify_eq.
Qed.
End Theorems.

Section PostExecutionTheorem.
Context {R : Type} (cumulative_gas_used : R → Z) (bloom_ref : R → Z).
Context (calculate_receipt_root : list R → B256).
Context (gas_spent_by_transactions : list R → list (Z * Z)).

(** The post-execution check with the executor's precomputed root and
    bloom gives the same verdict and error as recomputing them from the
    receipts, and accepts exactly when gas, receipts root and bloom match. *)
Theorem precomputed_receipts_equivalent (h : Header) (receipts : list R) :
  let check := validate_block_post_execution cumulative_gas_used bloom_ref
                 calculate_receipt_root gas_spent_by_transactions h receipts in
  let bloom := foldl (λ bloom r, Z.lor bloom (bloom_ref r)) 0 receipts in
  check (Some (calculate_receipt_root receipts, bloom)) = check None
  ∧ (check None = Ok tt ↔
     gas_used h = default 0 (cumulative_gas_used <$> last receipts)
     ∧ receipts_root h = calculate_receipt_root receipts ∧ logs_bloom h = bloom).
Proof.
  cbv zeta. split; [done|]. unfold validate_block_post_execution, verify_receipts.
  cbv zeta. rewrite reject_Ok, bind_unit_Ok, !reject_Ok. bool_simp. naive_solver.
Qed.
End PostExecutionTheorem.

(** ** Witnesses *)

Module Samples.
Import Concrete.

Definition sample_header (num ts next gas : Z) : SealedHeader := {|
  header := {| next_l1_msg_index := next; inner := {|
    parent_hash := num - 1; ommers_hash := 77; beneficiary := 0;
    state_root := 66; transactions_root := 88; mix_hash := 0; receipts_root := 0; logs_bloom := 0;
    difficulty := 0; number := num; gas_limit := gas;
    gas_used := 21000; timestamp := ts; nonce := Some 0; base_fee_per_gas := Some 1000000;
    extra_data := [] |} |};
  hash := num |}.

Definition msg (q : Z) : TxL1Msg.TxL1Msg := {|
  TxL1Msg.queue_index := q; TxL1Msg.gas_limit := 100000; TxL1Msg.to := 1;
  TxL1Msg.value := 0; TxL1Msg.sender := 2; TxL1Msg.input := [] |}.

Definition l1 (q : Z) : MorphTxEnvelope unit (list bytes) bytes Standard.Signature :=
  L1Msg (msg q).

Definition sample_block : SealedBlock unit (list bytes) bytes Standard.Signature := {|
  block_header := sample_header 10 1775628000 7 30000000;
  body := {| transactions := [l1 5; l1 6; Legacy tt;
               Morph {| MorphTxEnvelope.tx := TxMorph.sample_v1;
                        MorphTxEnvelope.signature := TxMorph.sample_signature |}];
             ommers := []; withdrawals := None |} |}.

(** A parent check with the documented behaviour. *)
Definition check_parent (h : MorphHeader) (p : SealedHeader) : result unit ConsensusError :=
  if (number (inner h) =? number (inner (header p)) + 1) && (parent_hash (inner h) =? hash p)
  then Ok tt else Err (Foreign "parent"%string).

Lemma check_parent_links : links_parent check_parent.
Proof.
  intros h p. unfold check_parent.
  destruct (_ && _) eqn:Hb; [|done]. intros _. bool_simp. tauto.
Qed.
End Samples.

Import Concrete Samples.

Lemma pre_execution_accepted_iff_witness :
  sum_by (@encode_2718_len unit _ _ _ Standard.ops (λ _, 100))
    (List.filter (λ t, negb (is_l1_msg t)) (transactions (body sample_block)))
  ≤ MORPH_MAX_TX_PAYLOAD_BYTES_PER_BLOCK.
Proof.
  simple refine (proj1 (proj2 (proj2 (proj2 (proj2
    (proj1 (@pre_execution_accepted_iff _ _ _ fc_ops table_ops unit _ _ _ Standard.ops
      77 (λ _, 100) (λ _, 88) mainnet sample_block _) _)))))).
  - intros t Ht. rewrite list_elem_of_In in Ht.
    repeat (destruct Ht as [<-|Ht]; [vm_compute; discriminate|]). done.
  - vm_compute. reflexivity.
Defined.

Lemma header_chain_invariant_witness :
  1024 ^ 1 * 30029000 ≤ 1025 ^ 1 * 30000000.
Proof.
  simple refine (proj2 (proj2 (proj2 (@header_chain_invariant _ _ _ fc_ops table_ops
    check_parent mainnet 1 (sample_header 10 1775628000 7 30000000)
    (sample_header 11 1775628000 9 30029000) _ _ _)))).
  - exact check_parent_links.
  - vm_compute. discriminate.
  - apply nsteps_once. vm_compute. reflexivity.
Defined.

Lemma transient_error_classification_witness :
  validate_header 77 mainnet 200 (sample_header 10 100 7 30000000) ≠ Err BaseFeeMissing
  ∧ 50 < 100.
Proof.
  split; [vm_compute; discriminate|].
  exact (proj1 (proj1 (transient_error_classification 77 mainnet 50 200
    (sample_header 10 100 7 30000000) (TimestampIsInFuture 100 50) eq_refl) eq_refl)).
Defined.
