(* ===== verification/EngineValidator.v ===== *)
(** * The engine tree validator

    Models [crates/node/src/validator.rs]: the parent-aware check of the next L1
    message index, the bounded cache of withdraw-trie-root expectations, and the
    way [MorphTreeEngineValidator::validate_payload] threads both around reth's
    own payload validation, which is a parameter.  The mutex and the concurrent
    map are modelled as one state that each operation reads and updates. *)

From S2P Require Import Prelude Hardfork Rlp MorphTx Envelope Consensus.

Import MorphTxEnvelope.

(** ** The next L1 message index against the parent *)

(** [InsertBlockErrorKind]: the messages the code formats, with their values, and
    what the provider reports. *)
Inductive InsertBlockErrorKind :=
| MissingQueueIndex
| InvalidNextL1MsgIndex (expected actual : Z)
| ProviderError (s : string)
| InnerError (s : string)
| WithdrawRootMismatch (expected actual : B256).

Section NextL1MsgIndex.
Context {T E F : Type} `{ForkConditionOps F} `{ChainHardforksOps T E F}.
Context {ETH AL SA SG : Type}.
Abbreviation tx := (MorphTxEnvelope ETH AL SA SG).
Abbreviation block := (SealedBlock ETH AL SA SG).

(** The loop over the leading L1 messages; [expected] is its variable. *)
Fixpoint expected_next_index (txs : list tx) (expected header_next : Z)
  : result Z InsertBlockErrorKind :=
  match txs with
  | [] => Ok expected
  | t :: txs =>
      if negb (is_l1_msg t) then Ok expected
      else
        let? q := ok_or (queue_index t) MissingQueueIndex in
        let? expected := ok_or (checked_add u64_max q 1)
          (InvalidNextL1MsgIndex u64_max header_next) in
        expected_next_index txs expected header_next
  end.

(** [tree_header] and [provider_header] look a header up by hash, in the
    in-memory tree and in the database. *)
Definition validate_next_l1_msg_index (chain_spec : MorphChainSpec T)
    (tree_header : B256 → option SealedHeader)
    (provider_header : B256 → result (option SealedHeader) InsertBlockErrorKind)
    (b : block) : result unit InsertBlockErrorKind :=
  let h := header (block_header b) in
  if negb (is_jade_active_at_timestamp chain_spec (timestamp (inner h))) then Ok tt
  else
    let parent_hash := parent_hash (inner h) in
    let? parent :=
      match tree_header parent_hash with
      | Some parent => Ok (Some parent)
      | None => provider_header parent_hash
      end in
    match parent with
    | None => Ok tt
    | Some parent =>
        let actual := next_l1_msg_index h in
        let? expected := expected_next_index (transactions (body b))
          (next_l1_msg_index (header parent)) actual in
        reject InvalidNextL1MsgIndex expected actual when negb (actual =? expected) in
        Ok tt
    end.
End NextL1MsgIndex.

(** ** The cache of expected withdraw trie roots *)

Inductive WithdrawTrieRootExpectation :=
| SkipValidation
| Verify (root : B256).

Record MorphEngineValidator := {
  expected_withdraw_trie_roots : gmap B256 WithdrawTrieRootExpectation;
  expected_withdraw_trie_root_order : list B256;
}.

Definition MAX_EXPECTED_WITHDRAW_TRIE_ROOTS : Z := 4096.

Definition validator_new : MorphEngineValidator := {|
  expected_withdraw_trie_roots := ∅; expected_withdraw_trie_root_order := [] |}.

(** The eviction loop: pops the oldest hash until the map fits. *)
Fixpoint evict (roots : gmap B256 WithdrawTrieRootExpectation) (order : list B256)
  : gmap B256 WithdrawTrieRootExpectation * list B256 :=
  if MAX_EXPECTED_WITHDRAW_TRIE_ROOTS <? Z.of_nat (size roots) then
    match order with
    | [] => (roots, [])
    | evicted_hash :: order => evict (delete evicted_hash roots) order
    end
  else (roots, order).

Definition record_withdraw_trie_root_expectation (v : MorphEngineValidator)
    (block_hash : B256) (expectation : WithdrawTrieRootExpectation) : MorphEngineValidator :=
  let is_new_entry := bool_decide (expected_withdraw_trie_roots v !! block_hash = None) in
  let roots := <[block_hash := expectation]> (expected_withdraw_trie_roots v) in
  if is_new_entry then
    let '(roots, order) := evict roots (expected_withdraw_trie_root_order v ++ [block_hash]) in
    {| expected_withdraw_trie_roots := roots; expected_withdraw_trie_root_order := order |}
  else
    {| expected_withdraw_trie_roots := roots;
       expected_withdraw_trie_root_order := expected_withdraw_trie_root_order v |}.

Definition take_withdraw_trie_root_expectation (v : MorphEngineValidator) (block_hash : B256)
  : MorphEngineValidator * option WithdrawTrieRootExpectation :=
  let removed := expected_withdraw_trie_roots v !! block_hash in
  let roots := delete block_hash (expected_withdraw_trie_roots v) in
  match removed with
  | Some _ =>
      ({| expected_withdraw_trie_roots := roots;
          expected_withdraw_trie_root_order :=
            List.filter (λ h, negb (h =? block_hash)) (expected_withdraw_trie_root_order v) |},
       removed)
  | None =>
      ({| expected_withdraw_trie_roots := roots;
          expected_withdraw_trie_root_order := expected_withdraw_trie_root_order v |}, removed)
  end.

Definition clear_withdraw_trie_root_expectation_on_error {A Er : Type}
    (v : MorphEngineValidator) (block_hash : B256) (r : result A Er)
  : MorphEngineValidator * result A Er :=
  if negb (is_ok r) then ((take_withdraw_trie_root_expectation v block_hash).1, r) else (v, r).

(** [HashedPostStateSorted]: per hashed account the changed slots, sorted. *)
Definition HashedPostStateSorted : Type := gmap B256 (list (B256 * Z)).

Section WithdrawRoot.
(** The hashes of the message queue's address and of its root slot. *)
Context (hashed_address hashed_slot : B256).

(** The binary search over the sorted slots finds the entry of the slot. *)
Definition updated_withdraw_trie_root_from_sorted_hashed_state
    (state_updates : HashedPostStateSorted) : option B256 :=
  storage ← state_updates !! hashed_address;
  snd <$> List.find (λ p, p.1 =? hashed_slot) storage.

Definition validate_withdraw_trie_root_update (v : MorphEngineValidator) (block_hash : B256)
    (state_updates : HashedPostStateSorted)
  : MorphEngineValidator * result unit InsertBlockErrorKind :=
  let '(v, expectation) := take_withdraw_trie_root_expectation v block_hash in
  match expectation with
  | None | Some SkipValidation => (v, Ok tt)
  | Some (Verify expected) =>
      match updated_withdraw_trie_root_from_sorted_hashed_state state_updates with
      | None => (v, Ok tt)
      | Some actual =>
          if negb (actual =? expected) then (v, Err (WithdrawRootMismatch expected actual))
          else (v, Ok tt)
      end
  end.

(** [PayloadValidator::convert_payload_to_block]: registers the expectation the
    consensus layer sent; zero means it sent none. *)
Definition convert_payload_to_block (v : MorphEngineValidator) (block_hash : B256)
    (expected_withdraw_trie_root : option B256) : MorphEngineValidator :=
  let expectation :=
    match expected_withdraw_trie_root with
    | Some root => if negb (root =? 0) then Verify root else SkipValidation
    | None => SkipValidation
    end in
  record_withdraw_trie_root_expectation v block_hash expectation.

Definition validate_payload_attributes_against_header (attr_timestamp : Z) (h : Header)
  : result unit string :=
  reject "InvalidTimestamp"%string when attr_timestamp <? timestamp h in Ok tt.

(** [MorphTreeEngineValidator::validate_payload] and [validate_block], which
    differ only in reth's inner validation: [inner] validates and executes the
    block, may register expectations on the way, and returns the state changes
    of the execution. *)
Definition validate_payload
    (l1_validation : result unit InsertBlockErrorKind)
    (inner : MorphEngineValidator →
      MorphEngineValidator * result HashedPostStateSorted InsertBlockErrorKind)
    (v : MorphEngineValidator) (block_hash : B256)
  : MorphEngineValidator * result HashedPostStateSorted InsertBlockErrorKind :=
  match clear_withdraw_trie_root_expectation_on_error v block_hash l1_validation with
  | (v, Err e) => (v, Err e)
  | (v, Ok _) =>
      let '(v, validation) := inner v in
      match clear_withdraw_trie_root_expectation_on_error v block_hash validation with
      | (v, Err e) => (v, Err e)
      | (v, Ok output) =>
          let '(v, r) := validate_withdraw_trie_root_update v block_hash output in
          (v, let? _ := r in Ok output)
      end
  end.
End WithdrawRoot.

(** ** Lemmas *)

Section NextIndexLemmas.
Context {ETH AL SA SG : Type}.
Abbreviation tx := (MorphTxEnvelope ETH AL SA SG).

(** Without overflow the loop returns the index after the last leading L1
    message, or the parent's index when there is none. *)
Lemma expected_next_index_spec (msgs : list TxL1Msg.TxL1Msg) (l2 : list tx) parent_next next :
  Forall (λ m, TxL1Msg.queue_index m < u64_max) msgs →
  (∀ t, head l2 = Some t → is_l1_msg t = false) →
  expected_next_index ((L1Msg <$> msgs) ++ l2) parent_next next
  = Ok (from_option (λ m, TxL1Msg.queue_index m + 1) parent_next (last msgs)).
Proof.
  intros Hm Hl. revert parent_next. induction Hm as [|m msgs Hm Hms IH]; intros e.
  - cbn. destruct l2 as [|t l2]; [done|]. cbn. by rewrite (Hl t eq_refl).
  - rewrite fmap_cons. cbn [app expected_next_index is_l1_msg tx_type].
    change (bool_decide (TL1Msg = TL1Msg)) with true. cbn [negb queue_index ok_or result_bind].
    assert (checked_add u64_max (TxL1Msg.queue_index m) 1
      = Some (TxL1Msg.queue_index m + 1)) as -> by (apply checked_add_Some; lia).
    cbn [ok_or result_bind]. rewrite IH, last_cons. by destruct (last msgs).
Qed.
End NextIndexLemmas.

(** The cache's invariant: the queue lists every key of the map once, oldest
    first, and the map is within its bound. *)
Record cache_ok (v : MorphEngineValidator) : Prop := {
  order_nodup : NoDup (expected_withdraw_trie_root_order v);
  order_dom : ∀ h, h ∈ expected_withdraw_trie_root_order v
                   ↔ is_Some (expected_withdraw_trie_roots v !! h);
  cache_bound : Z.of_nat (size (expected_withdraw_trie_roots v))
                ≤ MAX_EXPECTED_WITHDRAW_TRIE_ROOTS;
}.

Lemma cache_ok_new : cache_ok validator_new.
Proof.
  split; simpl; [constructor| |].
  - intros h. rewrite lookup_empty. split; [by intros ?%not_elem_of_nil|by intros [? [=]]].
  - rewrite map_size_empty. by vm_compute.
Qed.

Lemma elem_of_filter_ne (l : list Z) x y :
  y ∈ List.filter (λ h, negb (h =? x)) l ↔ y ∈ l ∧ y ≠ x.
Proof. rewrite !list_elem_of_In, filter_In. bool_simp. done. Qed.

Lemma NoDup_filter_ne (l : list Z) x : NoDup l → NoDup (List.filter (λ h, negb (h =? x)) l).
Proof. rewrite !NoDup_ListNoDup. apply List.NoDup_filter. Qed.

Lemma take_ok v h : cache_ok v → cache_ok (take_withdraw_trie_root_expectation v h).1.
Proof.
  intros [Hn Hd Hb]. unfold take_withdraw_trie_root_expectation.
  destruct (expected_withdraw_trie_roots v !! h) eqn:Hh; simpl.
  - split; simpl; [by apply NoDup_filter_ne| |].
    + intros h'. rewrite elem_of_filter_ne, Hd, lookup_delete_is_Some. naive_solver.
    + rewrite map_size_delete, Hh. cbn [from_option]. lia.
  - split; simpl; rewrite ?delete_id; done.
Qed.

Lemma take_gone v h :
  expected_withdraw_trie_roots (take_withdraw_trie_root_expectation v h).1 !! h = None.
Proof.
  unfold take_withdraw_trie_root_expectation.
  destruct (expected_withdraw_trie_roots v !! h); simpl; apply lookup_delete_eq.
Qed.

Lemma take_result v h :
  (take_withdraw_trie_root_expectation v h).2 = expected_withdraw_trie_roots v !! h.
Proof.
  unfold take_withdraw_trie_root_expectation.
  by destruct (expected_withdraw_trie_roots v !! h).
Qed.

(** Eviction at most one above the bound removes the oldest key, and only it. *)
Lemma evict_one roots o order :
  roots !! o ≠ None →
  Z.of_nat (size roots) ≤ MAX_EXPECTED_WITHDRAW_TRIE_ROOTS + 1 →
  evict roots (o :: order)
  = if MAX_EXPECTED_WITHDRAW_TRIE_ROOTS <? Z.of_nat (size roots)
    then (delete o roots, order) else (roots, o :: order).
Proof.
  intros Ho Hb. cbn [evict].
  destruct (Z.ltb_spec MAX_EXPECTED_WITHDRAW_TRIE_ROOTS (Z.of_nat (size roots))) as [Hlt|];
    [|done].
  assert (size (delete o roots) = pred (size roots)) as Hs.
  { rewrite map_size_delete. by destruct (roots !! o). }
  assert ((MAX_EXPECTED_WITHDRAW_TRIE_ROOTS <? Z.of_nat (size (delete o roots))) = false) as Hf
    by (unfold MAX_EXPECTED_WITHDRAW_TRIE_ROOTS in *; bool_simp; rewrite Hs; lia).
  destruct order as [|o' order]; cbn [evict]; by rewrite Hf.
Qed.

(** What [record_withdraw_trie_root_expectation] does to a well-formed cache: it
    replaces a known hash in place; a new hash is appended, and when the cache was
    full the oldest hash goes. *)
Lemma record_spec v h e :
  cache_ok v →
  record_withdraw_trie_root_expectation v h e
  = let roots := expected_withdraw_trie_roots v in
    let order := expected_withdraw_trie_root_order v in
    if decide (is_Some (roots !! h))
    then {| expected_withdraw_trie_roots := <[h := e]> roots;
            expected_withdraw_trie_root_order := order |}
    else match order with
    | o :: rest =>
        if Z.of_nat (size roots) =? MAX_EXPECTED_WITHDRAW_TRIE_ROOTS
        then {| expected_withdraw_trie_roots := delete o (<[h := e]> roots);
                expected_withdraw_trie_root_order := rest ++ [h] |}
        else {| expected_withdraw_trie_roots := <[h := e]> roots;
                expected_withdraw_trie_root_order := (o :: rest) ++ [h] |}
    | [] => {| expected_withdraw_trie_roots := <[h := e]> roots;
               expected_withdraw_trie_root_order := [h] |}
    end.
Proof.
  intros [Hn Hd Hb]. unfold record_withdraw_trie_root_expectation. cbv zeta.
  set (roots := expected_withdraw_trie_roots v) in *.
  set (order := expected_withdraw_trie_root_order v) in *.
  destruct (decide (is_Some (roots !! h))) as [[e' He']|Hh%eq_None_not_Some].
  { by rewrite He'. }
  rewrite bool_decide_eq_true_2 by done.
  assert (size (<[h := e]> roots) = S (size roots)) as Hs by (by apply map_size_insert_None).
  destruct order as [|o rest] eqn:Ho; cbn [app].
  - assert (roots = ∅) as Hr.
    { apply map_empty. intros k. apply eq_None_not_Some. intros Hk.
      apply Hd in Hk. by apply not_elem_of_nil in Hk. }
    rewrite evict_one; rewrite ?lookup_insert_eq, ?Hs; [|done|lia].
    rewrite Hr, map_size_empty. by vm_compute.
  - assert (is_Some (roots !! o)) as Hor by (apply Hd; left).
    assert (h ≠ o) by (intros ->; rewrite Hh in Hor; by destruct Hor).
    rewrite evict_one; rewrite ?lookup_insert_ne, ?Hs by done.
    + destruct (Z.ltb_spec MAX_EXPECTED_WITHDRAW_TRIE_ROOTS (Z.of_nat (S (size roots)))),
        (Z.eqb_spec (Z.of_nat (size roots)) MAX_EXPECTED_WITHDRAW_TRIE_ROOTS); try done; lia.
    + by apply not_eq_None_Some.
    + lia.
Qed.

Lemma keys_append (roots : gmap B256 WithdrawTrieRootExpectation) order h e :
  roots !! h = None → NoDup order → (∀ k, k ∈ order ↔ is_Some (roots !! k)) →
  NoDup (order ++ [h]) ∧ ∀ k, k ∈ order ++ [h] ↔ is_Some (<[h := e]> roots !! k).
Proof.
  intros Hh Hn Hd.
  assert (h ∉ order) as Hnew by (rewrite Hd, Hh; by intros [? [=]]).
  split.
  - apply NoDup_app. split; [done|]. split; [|apply NoDup_singleton].
    intros k Hk. rewrite list_elem_of_singleton. by intros ->.
  - intros k. rewrite elem_of_app, list_elem_of_singleton, lookup_insert_is_Some, <-Hd.
    destruct (decide (h = k)) as [->|]; intuition congruence.
Qed.

Lemma keys_pop (roots : gmap B256 WithdrawTrieRootExpectation) o order :
  NoDup (o :: order) → (∀ k, k ∈ o :: order ↔ is_Some (roots !! k)) →
  NoDup order ∧ ∀ k, k ∈ order ↔ is_Some (delete o roots !! k).
Proof.
  intros [Ho Hn]%NoDup_cons Hd. split; [done|].
  intros k. rewrite lookup_delete_is_Some, <-Hd, elem_of_cons.
  destruct (decide (o = k)) as [->|]; intuition congruence.
Qed.

Lemma record_ok v h e : cache_ok v → cache_ok (record_withdraw_trie_root_expectation v h e).
Proof.
  intros Hok. rewrite record_spec by done. destruct Hok as [Hn Hd Hb]. cbv zeta.
  destruct (decide _) as [Hs|Hh%eq_None_not_Some].
  { split; simpl; [done| |by rewrite map_size_insert_Some].
    intros k. rewrite Hd, lookup_insert_is_Some.
    destruct (decide (h = k)) as [->|]; intuition congruence. }
  destruct (keys_append _ _ h e Hh Hn Hd) as [Hn' Hd'].
  assert (size (<[h := e]> (expected_withdraw_trie_roots v))
    = S (size (expected_withdraw_trie_roots v))) as Hsz by (by apply map_size_insert_None).
  destruct (expected_withdraw_trie_root_order v) as [|o rest] eqn:Ho; [|case_match eqn:Hfull].
  - assert (size (expected_withdraw_trie_roots v) = 0%nat) as H0.
    { apply map_size_empty_iff, map_empty. intros k. apply eq_None_not_Some. intros Hk.
      apply Hd in Hk. by apply not_elem_of_nil in Hk. }
    split; simpl; [done|done|]. rewrite Hsz, H0. by vm_compute.
  - destruct (keys_pop _ _ _ Hn' Hd') as [Hn'' Hd''].
    split; simpl; [done|done|]. bool_simp.
    rewrite map_size_delete_Some by (apply Hd'; left). rewrite Hsz. lia.
  - split; simpl; [done|done|]. bool_simp. rewrite Hsz. lia.
Qed.

Lemma record_take v h e :
  cache_ok v →
  (take_withdraw_trie_root_expectation (record_withdraw_trie_root_expectation v h e) h).2 = Some e.
Proof.
  intros Hok. rewrite take_result, record_spec by done. cbv zeta.
  destruct (decide _) as [Hs|Hh]; simpl; [apply lookup_insert_eq|].
  destruct (expected_withdraw_trie_root_order v) as [|o rest] eqn:Ho;
    [apply lookup_insert_eq|].
  assert (o ≠ h).
  { intros ->. apply Hh. apply (order_dom v Hok). rewrite Ho. left. }
  case_match; simpl; [rewrite lookup_delete_ne by done|]; apply lookup_insert_eq.
Qed.

(** ** Theorems *)

(** One operation on the shared cache, of whichever block. *)
Inductive cache_step : MorphEngineValidator → MorphEngineValidator → Prop :=
| step_convert v h root : cache_step v (convert_payload_to_block v h root)
| step_take v h : cache_step v (take_withdraw_trie_root_expectation v h).1
| step_clear {A Er} v h (r : result A Er) :
    cache_step v (clear_withdraw_trie_root_expectation_on_error v h r).1
| step_update ha hs v h st :
    cache_step v (validate_withdraw_trie_root_update ha hs v h st).1.

Lemma cache_step_ok v v' : cache_step v v' → cache_ok v → cache_ok v'.
Proof.
  intros [v0 h root|v0 h|A Er v0 h r|ha hs v0 h st] Hok.
  - apply record_ok, Hok.
  - by apply take_ok.
  - destruct r; cbn; [done|by apply take_ok].
  - unfold validate_withdraw_trie_root_update.
    pose proof (take_ok v0 h Hok) as Ht.
    destruct (take_withdraw_trie_root_expectation v0 h) as [v1 o]. by repeat case_match.
Qed.

(** Whatever sequence of operations the import paths run, the cache of
    withdraw-root expectations stays within 4096 entries and its eviction queue
    lists exactly the cached hashes, each once; and an expectation just sent
    with a payload is the one the post-execution check will take. *)
Theorem expectation_cache_bounded (v : MorphEngineValidator) (h : B256) (root : option B256) :
  rtc cache_step validator_new v →
  NoDup (expected_withdraw_trie_root_order v)
  ∧ (∀ k, k ∈ expected_withdraw_trie_root_order v
          ↔ is_Some (expected_withdraw_trie_roots v !! k))
  ∧ Z.of_nat (size (expected_withdraw_trie_roots v)) ≤ 4096
  ∧ (take_withdraw_trie_root_expectation (convert_payload_to_block v h root) h).2
    = Some (match root with
            | Some r => if r =? 0 then SkipValidation else Verify r
            | None => SkipValidation
            end).
Proof.
  intros Hr. assert (cache_ok v) as Hok.
  { pose proof cache_ok_new as H0. revert H0. induction Hr; eauto using cache_step_ok. }
  split; [apply Hok|]. split; [apply Hok|]. split; [apply Hok|].
  unfold convert_payload_to_block. rewrite record_take by done.
  destruct root as [r|]; [|done]. by destruct (r =? 0).
Qed.

(** C35. Importing a payload leaves no expectation behind for its block, on
    success and on every error, and succeeds exactly when the L1 index check and
    reth's validation do and the withdraw root the execution wrote, if it wrote
    one, is the root the consensus layer sent, if it sent one. *)
Theorem validate_payload_outcome (hashed_address hashed_slot : B256)
    (l1 : result unit InsertBlockErrorKind)
    (reth : MorphEngineValidator →
      MorphEngineValidator * result HashedPostStateSorted InsertBlockErrorKind)
    (v : MorphEngineValidator) (h : B256) (out : HashedPostStateSorted) :
  let r := validate_payload hashed_address hashed_slot l1 reth v h in
  expected_withdraw_trie_roots r.1 !! h = None
  ∧ (r.2 = Ok out ↔
     l1 = Ok tt ∧ (reth v).2 = Ok out
     ∧ ∀ expected actual,
         expected_withdraw_trie_roots (reth v).1 !! h = Some (Verify expected) →
         updated_withdraw_trie_root_from_sorted_hashed_state hashed_address hashed_slot out
           = Some actual →
         actual = expected).
Proof.
  cbv zeta. unfold validate_payload.
  destruct l1 as [[]|e]; cbn; [|split; [apply take_gone|naive_solver]].
  destruct (reth v) as [v' [o|e]]; cbn; [|split; [apply take_gone|naive_solver]].
  unfold validate_withdraw_trie_root_update.
  pose proof (take_gone v' h) as Hg. pose proof (take_result v' h) as Hr.
  destruct (take_withdraw_trie_root_expectation v' h) as [v'' [[|expected]|]]; cbn in *;
    rewrite <-Hr; try (split; [done|naive_solver]).
  destruct (updated_withdraw_trie_root_from_sorted_hashed_state _ _ _) as [actual|] eqn:Ha;
    cbn; try (split; [done|naive_solver]).
  destruct (Z.eqb_spec actual expected); cbn; (split; [done|naive_solver]).
Qed.

Section IndexTheorem.
Context {T E F : Type} `{ForkConditionOps F} `{ChainHardforksOps T E F}.
Context {ETH AL SA SG : Type}.

(** C36. From Jade on, with the parent found, the import check accepts exactly
    the blocks whose header names the index after their last leading L1
    message, or the parent's index when they have none; the parent's index
    plays no part in the first case. *)
Theorem next_l1_msg_index_checked (chain_spec : MorphChainSpec T)
    (tree_header : B256 → option SealedHeader)
    (provider_header : B256 → result (option SealedHeader) InsertBlockErrorKind)
    (b : SealedBlock ETH AL SA SG) (msgs : list TxL1Msg.TxL1Msg)
    (l2 : list (MorphTxEnvelope ETH AL SA SG)) (parent : SealedHeader) :
  let h := header (block_header b) in
  is_jade_active_at_timestamp chain_spec (timestamp (inner h)) = true →
  (tree_header (parent_hash (inner h)) = Some parent
   ∨ tree_header (parent_hash (inner h)) = None
     ∧ provider_header (parent_hash (inner h)) = Ok (Some parent)) →
  transactions (body b) = (L1Msg <$> msgs) ++ l2 →
  (∀ t, head l2 = Some t → is_l1_msg t = false) →
  Forall (λ m, TxL1Msg.queue_index m < u64_max) msgs →
  validate_next_l1_msg_index chain_spec tree_header provider_header b = Ok tt ↔
  next_l1_msg_index h
  = from_option (λ m, TxL1Msg.queue_index m + 1) (next_l1_msg_index (header parent)) (last msgs).
Proof.
  cbv zeta. intros Hj Hp Htx Hl Hm. unfold validate_next_l1_msg_index. cbv zeta.
  rewrite Hj, Htx. cbn [negb].
  assert (∀ X (k : option SealedHeader → result X InsertBlockErrorKind),
    result_bind (match tree_header (parent_hash (inner (header (block_header b)))) with
                 | Some parent => Ok (Some parent)
                 | None => provider_header (parent_hash (inner (header (block_header b))))
                 end) k = k (Some parent)) as ->
    by (intros; destruct Hp as [->|[-> ->]]; done).
  cbv beta. rewrite expected_next_index_spec by done. cbn [result_bind].
  rewrite reject_Ok. bool_simp. naive_solver.
Qed.
End IndexTheorem.

(** ** Witnesses *)

Import Concrete Samples.

Lemma expectation_cache_bounded_witness :
  (take_withdraw_trie_root_expectation
     (convert_payload_to_block (convert_payload_to_block validator_new 7 None) 9 (Some 5)) 9).2
  = Some (Verify 5).
Proof.
  simple refine (proj2 (proj2 (proj2 (expectation_cache_bounded
    (convert_payload_to_block validator_new 7 None) 9 (Some 5) _)))).
  apply rtc_once, step_convert.
Defined.

(** The sample block replays the queue indices 5 and 6, which its parent already
    counts as consumed (its next index is 7); the check accepts the block. *)
Lemma next_l1_msg_index_checked_witness :
  validate_next_l1_msg_index mainnet (λ _, Some (sample_header 9 1775627990 7 30000000))
    (λ _, Ok None) sample_block = Ok tt.
Proof.
  simple refine (proj2 (next_l1_msg_index_checked mainnet
    (λ _, Some (sample_header 9 1775627990 7 30000000)) (λ _, Ok None) sample_block
    [msg 5; msg 6] (drop 2 (transactions (body sample_block)))
    (sample_header 9 1775627990 7 30000000) _ _ _ _ _) _).
  - reflexivity.
  - by left.
  - reflexivity.
  - intros t Ht. injection Ht as <-. reflexivity.
  - repeat constructor.
  - reflexivity.
Defined.
