(* ===== verification/L1Fee.v ===== *)
(** * The L1 data fee

    Models [crates/revm/src/l1block.rs]: the oracle parameters a transaction's L1
    data fee is computed from, and the fee itself before and from Curie on.  The
    database is a parameter: [storage] reads a slot of an account. *)

From S2P Require Import Prelude Hardfork Rlp.

Definition ZERO_BYTE_COST : Z := 4.
Definition NON_ZERO_BYTE_COST : Z := 16.
Definition TX_L1_COMMIT_EXTRA_COST : Z := 64.
Definition TX_L1_FEE_PRECISION : Z := 1000000000.
Definition L1_GAS_PRICE_ORACLE_ADDRESS : Address := 0x530000000000000000000000000000000000000F.
Definition GPO_L1_BASE_FEE_SLOT : Z := 1.
Definition GPO_OVERHEAD_SLOT : Z := 2.
Definition GPO_SCALAR_SLOT : Z := 3.
Definition GPO_L1_BLOB_BASE_FEE_SLOT : Z := 6.
Definition GPO_COMMIT_SCALAR_SLOT : Z := 7.
Definition GPO_BLOB_SCALAR_SLOT : Z := 8.
Definition L1_FEE_CAP : Z := u64_max.

Record L1BlockInfo := {
  l1_base_fee : Z;
  l1_fee_overhead : Z;
  l1_base_fee_scalar : Z;
  l1_blob_base_fee : Z;
  l1_commit_scalar : Z;
  l1_blob_scalar : Z;
  calldata_gas : Z;
}.

Section Operations.
Context {Er : Type} (storage : Address → Z → result Z Er).

Definition try_fetch (hardfork : MorphHardfork) : result L1BlockInfo Er :=
  let? l1_base_fee := storage L1_GAS_PRICE_ORACLE_ADDRESS GPO_L1_BASE_FEE_SLOT in
  let? l1_fee_overhead := storage L1_GAS_PRICE_ORACLE_ADDRESS GPO_OVERHEAD_SLOT in
  let? l1_base_fee_scalar := storage L1_GAS_PRICE_ORACLE_ADDRESS GPO_SCALAR_SLOT in
  if negb (is_curie hardfork) then
    Ok {| l1_base_fee := l1_base_fee; l1_fee_overhead := l1_fee_overhead;
          l1_base_fee_scalar := l1_base_fee_scalar; l1_blob_base_fee := 0;
          l1_commit_scalar := 0; l1_blob_scalar := 0; calldata_gas := 0 |}
  else
    let? l1_blob_base_fee := storage L1_GAS_PRICE_ORACLE_ADDRESS GPO_L1_BLOB_BASE_FEE_SLOT in
    let? l1_commit_scalar := storage L1_GAS_PRICE_ORACLE_ADDRESS GPO_COMMIT_SCALAR_SLOT in
    let? l1_blob_scalar := storage L1_GAS_PRICE_ORACLE_ADDRESS GPO_BLOB_SCALAR_SLOT in
    Ok {| l1_base_fee := l1_base_fee; l1_fee_overhead := l1_fee_overhead;
          l1_base_fee_scalar := l1_base_fee_scalar; l1_blob_base_fee := l1_blob_base_fee;
          l1_commit_scalar := l1_commit_scalar; l1_blob_scalar := l1_blob_scalar;
          calldata_gas := saturating_mul u256_max l1_commit_scalar l1_base_fee |}.
End Operations.

Definition byte_cost (byte : Z) : Z := if byte =? 0 then ZERO_BYTE_COST else NON_ZERO_BYTE_COST.

(** The fold of the source adds in 64 bits. *)
Definition data_gas (info : L1BlockInfo) (input : bytes) (hardfork : MorphHardfork) : Z :=
  if negb (is_curie hardfork) then
    saturating_add u256_max
      (saturating_add u256_max
         (foldl (λ acc byte, wrapping_add u64_max acc (byte_cost byte)) 0 input)
         (l1_fee_overhead info))
      TX_L1_COMMIT_EXTRA_COST
  else
    saturating_mul u256_max
      (saturating_mul u256_max (len input) (l1_blob_base_fee info)) (l1_blob_scalar info).

Definition calculate_tx_l1_cost_pre_curie (info : L1BlockInfo) (input : bytes)
    (hardfork : MorphHardfork) : Z :=
  saturating_mul u256_max
    (saturating_mul u256_max (data_gas info input hardfork) (l1_base_fee info))
    (l1_base_fee_scalar info) / TX_L1_FEE_PRECISION.

Definition calculate_tx_l1_cost_curie (info : L1BlockInfo) (input : bytes)
    (hardfork : MorphHardfork) : Z :=
  saturating_add u256_max (calldata_gas info) (data_gas info input hardfork)
  / TX_L1_FEE_PRECISION.

Definition calculate_tx_l1_cost (info : L1BlockInfo) (input : bytes)
    (hardfork : MorphHardfork) : Z :=
  let fee :=
    if negb (is_curie hardfork) then calculate_tx_l1_cost_pre_curie info input hardfork
    else calculate_tx_l1_cost_curie info input hardfork in
  Z.min fee L1_FEE_CAP.

(** ** The fee as a formula *)

(** The fee in exact arithmetic, from the oracle's slots. *)
Definition exact_l1_fee (slot : Z → Z) (input : bytes) (hardfork : MorphHardfork) : Z :=
  if is_curie hardfork
  then (slot GPO_COMMIT_SCALAR_SLOT * slot GPO_L1_BASE_FEE_SLOT
        + len input * slot GPO_L1_BLOB_BASE_FEE_SLOT * slot GPO_BLOB_SCALAR_SLOT) / 10 ^ 9
  else ((sum_by byte_cost input + slot GPO_OVERHEAD_SLOT + 64)
        * slot GPO_L1_BASE_FEE_SLOT * slot GPO_SCALAR_SLOT) / 10 ^ 9.

Section Lemmas.
Lemma byte_cost_range b : 4 ≤ byte_cost b ≤ 16.
Proof. unfold byte_cost, ZERO_BYTE_COST, NON_ZERO_BYTE_COST. case_match; lia. Qed.

Lemma sum_byte_cost_range input : 0 ≤ sum_by byte_cost input ≤ 16 * len input.
Proof.
  unfold len. induction input as [|b input IH]; simpl; [lia|].
  pose proof (byte_cost_range b). lia.
Qed.

Lemma fold_byte_cost input acc :
  0 ≤ acc → acc + 16 * len input ≤ u64_max →
  foldl (λ acc byte, wrapping_add u64_max acc (byte_cost byte)) acc input
  = acc + sum_by byte_cost input.
Proof.
  revert acc. induction input as [|b input IH]; intros acc Ha Hl; [cbn; lia|].
  cbn [foldl]. change (sum_by byte_cost (b :: input)) with (byte_cost b + sum_by byte_cost input).
  assert (len (b :: input) = 1 + len input) as Hlen by (unfold len; simpl; lia).
  pose proof (byte_cost_range b). pose proof (sum_byte_cost_range input).
  rewrite wrapping_add_exact by lia. rewrite IH by lia. lia.
Qed.

(** The ceiling of 256 bits is so far above the cap that clamping to it first
    does not show. *)
Lemma clamp_then_cap x :
  0 ≤ x →
  Z.min (Z.min x u256_max / TX_L1_FEE_PRECISION) L1_FEE_CAP = Z.min (x / 10 ^ 9) u64_max.
Proof.
  intros Hx. unfold L1_FEE_CAP, TX_L1_FEE_PRECISION. change 1000000000 with (10 ^ 9).
  destruct (Z.le_gt_cases x u256_max); [by rewrite (Z.min_l x) by lia|].
  assert (u64_max ≤ u256_max / 10 ^ 9) by (vm_compute; discriminate).
  assert (u256_max / 10 ^ 9 ≤ x / 10 ^ 9) by (apply Z.div_le_mono; lia).
  rewrite (Z.min_r x) by lia. rewrite !Z.min_r by (etrans; done). done.
Qed.

Lemma data_gas_curie info input hf :
  is_curie hf = true → is_u256 (l1_blob_base_fee info) → is_u256 (l1_blob_scalar info) →
  data_gas info input hf
  = Z.min (len input * l1_blob_base_fee info * l1_blob_scalar info) u256_max.
Proof.
  intros Hc Hb Hs. unfold data_gas. rewrite Hc. cbn [negb].
  unfold saturating_mul at 2. assert (0 ≤ len input) by (unfold len; lia).
  unfold in_range in *. rewrite saturating_mul_clamp by (ulia || nia). done.
Qed.

Lemma data_gas_pre_curie info input hf :
  is_curie hf = false → is_u256 (l1_fee_overhead info) → 16 * len input ≤ u64_max →
  data_gas info input hf
  = Z.min (sum_by byte_cost input + l1_fee_overhead info + 64) u256_max.
Proof.
  intros Hc Ho Hl. unfold data_gas, TX_L1_COMMIT_EXTRA_COST. rewrite Hc. cbn [negb].
  pose proof (sum_byte_cost_range input). rewrite fold_byte_cost by lia. ulia.
Qed.

(** Whatever the oracle's slots hold, the fee fits in 64 bits. *)
Lemma l1_cost_range {Er} (storage : Address → Z → result Z Er) hf info input :
  (∀ a k v, storage a k = Ok v → is_u256 v) → try_fetch storage hf = Ok info →
  0 ≤ calculate_tx_l1_cost info input hf ≤ u64_max.
Proof.
  intros Hst Hf. assert (is_u256 (l1_base_fee info) ∧ is_u256 (l1_fee_overhead info)
    ∧ is_u256 (l1_base_fee_scalar info) ∧ is_u256 (l1_blob_base_fee info)
    ∧ is_u256 (l1_blob_scalar info) ∧ is_u256 (calldata_gas info))
    as (H1 & H2 & H3 & H4 & H5 & H6).
  { unfold try_fetch in Hf. do 3 (apply bind_Ok in Hf as (? & ?%Hst & Hf)).
    assert (is_u256 0) by ulia.
    destruct (negb (is_curie hf)); [by injection Hf as <-|].
    do 3 (apply bind_Ok in Hf as (? & ?%Hst & Hf)). injection Hf as <-. cbn.
    split_and!; auto with uints. }
  assert (is_u256 (data_gas info input hf)) as H7.
  { unfold data_gas. destruct (negb _).
    - assert (is_u256 TX_L1_COMMIT_EXTRA_COST) by (by vm_compute).
      apply saturating_add_range; [apply saturating_add_range|]; auto with uints.
      assert (∀ acc, 0 ≤ acc ≤ u64_max → 0 ≤ foldl (λ acc byte, wrapping_add u64_max acc
        (byte_cost byte)) acc input ≤ u64_max) as Hfold.
      { induction input as [|b l IH]; intros acc Hacc; [done|]. cbn. apply IH.
        apply wrapping_add_range. ulia. }
      pose proof uint_max_order. specialize (Hfold 0). unfold in_range. lia.
    - unfold saturating_mul, in_range in *. assert (0 ≤ len input) by (unfold len; lia).
      pose proof uint_max_order. split; [|lia].
      apply Z.min_glb; [|lia]. apply Z.mul_nonneg_nonneg; [|lia].
      apply Z.min_glb; [nonneg|]; lia. }
  assert (0 ≤ if negb (is_curie hf) then calculate_tx_l1_cost_pre_curie info input hf
              else calculate_tx_l1_cost_curie info input hf).
  { unfold calculate_tx_l1_cost_pre_curie, calculate_tx_l1_cost_curie.
    destruct (saturating_mul_range _ _ _ (saturating_mul_range _ _ _ H7 H1) H3).
    destruct (saturating_add_range _ _ _ H6 H7). case_match; by apply Z.div_pos. }
  unfold calculate_tx_l1_cost, L1_FEE_CAP. ulia.
Qed.
End Lemmas.

(** ** Theorems *)

(** C40. The L1 data fee charged from the oracle's storage is the fee in exact
    arithmetic capped at the 64-bit maximum: neither the saturating 256-bit
    products nor the 64-bit byte-cost sum ever changes it, for every content of
    the oracle's slots and every input of less than 2^60 bytes. *)
Theorem l1_fee_exact {Er} (storage : Address → Z → result Z Er) (slot : Z → Z)
    (input : bytes) (hardfork : MorphHardfork) :
  (∀ k, storage L1_GAS_PRICE_ORACLE_ADDRESS k = Ok (slot k) ∧ is_u256 (slot k)) →
  len input < 2 ^ 60 →
  ∃ info, try_fetch storage hardfork = Ok info
          ∧ calculate_tx_l1_cost info input hardfork
            = Z.min (exact_l1_fee slot input hardfork) u64_max.
Proof.
  intros Hst Hlen. assert (16 * len input ≤ u64_max) as Hl.
  { assert (16 * 2 ^ 60 - 1 = u64_max) by done. lia. }
  assert (∀ k, storage L1_GAS_PRICE_ORACLE_ADDRESS k = Ok (slot k)) as Hok by apply Hst.
  assert (∀ k, 0 ≤ slot k) as Hpos by (intros k; apply Hst).
  assert (0 ≤ u256_max) by ulia. assert (0 ≤ len input) by (unfold len; lia).
  pose proof (sum_byte_cost_range input).
  unfold try_fetch. rewrite !Hok. cbn [result_bind].
  destruct (is_curie hardfork) eqn:Hc; cbn [negb]; rewrite ?Hok; cbn [result_bind];
    (eexists; split; [done|]); unfold calculate_tx_l1_cost, exact_l1_fee; rewrite Hc; cbn [negb].
  - unfold calculate_tx_l1_cost_curie. rewrite data_gas_curie by first [done | apply Hst].
    cbn. unfold saturating_mul at 1.
    pose proof (Hpos GPO_COMMIT_SCALAR_SLOT). pose proof (Hpos GPO_L1_BASE_FEE_SLOT).
    pose proof (Hpos GPO_L1_BLOB_BASE_FEE_SLOT). pose proof (Hpos GPO_BLOB_SCALAR_SLOT).
    rewrite saturating_add_clamp by nonneg. apply clamp_then_cap. nonneg.
  - unfold calculate_tx_l1_cost_pre_curie. rewrite data_gas_pre_curie by first [done | apply Hst].
    cbn. pose proof (Hpos GPO_OVERHEAD_SLOT). pose proof (Hpos GPO_SCALAR_SLOT).
    pose proof (Hpos GPO_L1_BASE_FEE_SLOT).
    rewrite !saturating_mul_clamp by nonneg. apply clamp_then_cap. nonneg.
Qed.

(** ** Witnesses *)

(** An oracle whose slots 1 to 9 hold 10^9 times their number. *)
Definition sample_slot (k : Z) : Z := if (0 <=? k) && (k <? 10) then k * 10 ^ 9 else 0.

Lemma l1_fee_exact_witness :
  ∃ info, try_fetch (Er := unit) (λ _ k, Ok (sample_slot k)) Curie = Ok info
          ∧ calculate_tx_l1_cost info [1; 0; 2] Curie = 151 * 10 ^ 9.
Proof.
  simple refine (l1_fee_exact (Er := unit) (λ _ k, Ok (sample_slot k)) sample_slot
    [1; 0; 2] Curie _ _).
  - intros k. split; [done|]. unfold in_range, sample_slot.
    destruct ((0 <=? k) && (k <? 10)) eqn:Hk; bool_simp; ulia.
  - vm_compute. reflexivity.
Defined.
