(* ===== verification/TxEnv.v ===== *)
(** * The transaction environment

    Models [crates/revm/src/tx.rs]: the environment the EVM executes a transaction
    in, how it is built from a recovered transaction, and the envelope simulations
    rebuild from it to size the L1 data fee.  Alloy's Ethereum transactions and
    its authorizations are foreign: their accessors and constructors are
    parameters. *)

From S2P Require Import Prelude Hardfork Rlp MorphTx Envelope.

(** ** Data *)

(** [alloy_consensus::Transaction]: what the code reads of a transaction. *)
Record TxView (AL SA : Type) := {
  v_chain_id : option Z;
  v_nonce : Z;
  v_gas_limit : Z;
  v_effective_gas_price : option Z → Z;
  v_max_priority_fee_per_gas : option Z;
  v_max_fee_per_blob_gas : option Z;
  v_kind : TxKind;
  v_value : Z;
  v_input : bytes;
  v_access_list : option AL;
  v_blob_versioned_hashes : option (list B256);
  v_authorization_list : option (list SA);
}.

(** [impl Transaction for TxL1Msg]. *)
Definition l1_msg_view {AL SA} (t : TxL1Msg.TxL1Msg) : TxView AL SA := {|
  v_chain_id := None; v_nonce := TxL1Msg.nonce t; v_gas_limit := TxL1Msg.gas_limit t;
  v_effective_gas_price := TxL1Msg.effective_gas_price t; v_max_priority_fee_per_gas := None;
  v_max_fee_per_blob_gas := None; v_kind := TxL1Msg.kind t; v_value := TxL1Msg.value t;
  v_input := TxL1Msg.input t; v_access_list := None; v_blob_versioned_hashes := None;
  v_authorization_list := None |}.

(** [impl Transaction for TxMorph]. *)
Definition morph_tx_view {AL SA} (t : TxMorph.TxMorph AL SA) : TxView AL SA := {|
  v_chain_id := Some (TxMorph.chain_id t); v_nonce := TxMorph.nonce t;
  v_gas_limit := TxMorph.gas_limit t;
  v_effective_gas_price := TxMorph.effective_gas_price t;
  v_max_priority_fee_per_gas := Some (TxMorph.max_priority_fee_per_gas t);
  v_max_fee_per_blob_gas := None; v_kind := TxMorph.to t; v_value := TxMorph.value t;
  v_input := TxMorph.input t; v_access_list := Some (TxMorph.access_list t);
  v_blob_versioned_hashes := None;
  v_authorization_list := TxMorph.applied_authorization_list t |}.

(** revm's [TxEnv]; [RA] is [RecoveredAuthorization]. *)
Record TxEnv (AL SA RA : Type) := {
  tx_type : Z;
  caller : Address;
  gas_limit : Z;
  gas_price : Z;
  kind : TxKind;
  value : Z;
  data : bytes;
  nonce : Z;
  chain_id : option Z;
  access_list : AL;
  gas_priority_fee : option Z;
  blob_hashes : list B256;
  max_fee_per_blob_gas : Z;
  authorization_list : list (SA + RA);
}.
Arguments tx_type {AL SA RA}.
Arguments caller {AL SA RA}.
Arguments gas_limit {AL SA RA}.
Arguments gas_price {AL SA RA}.
Arguments kind {AL SA RA}.
Arguments value {AL SA RA}.
Arguments data {AL SA RA}.
Arguments nonce {AL SA RA}.
Arguments chain_id {AL SA RA}.
Arguments access_list {AL SA RA}.
Arguments gas_priority_fee {AL SA RA}.
Arguments blob_hashes {AL SA RA}.
Arguments max_fee_per_blob_gas {AL SA RA}.
Arguments authorization_list {AL SA RA}.

Record MorphTxEnv (AL SA RA : Type) := {
  inner : TxEnv AL SA RA;
  rlp_bytes : option bytes;
  version : option Z;
  fee_token_id : option Z;
  fee_limit : option Z;
  reference : option bytes;
  memo : option bytes;
}.
Arguments inner {AL SA RA}.
Arguments rlp_bytes {AL SA RA}.
Arguments version {AL SA RA}.
Arguments fee_token_id {AL SA RA}.
Arguments fee_limit {AL SA RA}.
Arguments reference {AL SA RA}.
Arguments memo {AL SA RA}.

Section Operations.
Context {ETH AL SA RA SG : Type} `{AlloyRlp AL SA SG}.
Abbreviation envelope := (MorphTxEnvelope.MorphTxEnvelope ETH AL SA SG).
Abbreviation env := (MorphTxEnv AL SA RA).

Definition is_l1_msg (e : env) : bool := tx_type (inner e) =? TxL1Msg.L1_TX_TYPE_ID.
Definition is_morph_tx (e : env) : bool := tx_type (inner e) =? TxMorph.MORPH_TX_TYPE_ID.
Definition uses_token_fee (e : env) : bool :=
  match fee_token_id e with Some id => 0 <? id | None => false end.
Definition has_reference (e : env) : bool := bool_decide (is_Some (reference e)).
Definition max_fee_per_gas (e : env) : Z := gas_price (inner e).
Definition authorization_list_len (e : env) : Z :=
  Z.of_nat (length (authorization_list (inner e))).

(** [MorphTxEnv::new] and the builder methods. *)
Definition env_new (i : TxEnv AL SA RA) : env := {|
  inner := i; rlp_bytes := None; version := None; fee_token_id := None; fee_limit := None;
  reference := None; memo := None |}.
Definition with_rlp_bytes (e : env) (b : bytes) : env := {|
  inner := inner e; rlp_bytes := Some b; version := version e;
  fee_token_id := fee_token_id e; fee_limit := fee_limit e; reference := reference e;
  memo := memo e |}.
Definition with_version (e : env) (v : Z) : env := {|
  inner := inner e; rlp_bytes := rlp_bytes e; version := Some v;
  fee_token_id := fee_token_id e; fee_limit := fee_limit e; reference := reference e;
  memo := memo e |}.
Definition with_fee_token_id (e : env) (v : Z) : env := {|
  inner := inner e; rlp_bytes := rlp_bytes e; version := version e;
  fee_token_id := Some v; fee_limit := fee_limit e; reference := reference e;
  memo := memo e |}.
Definition with_fee_limit (e : env) (v : Z) : env := {|
  inner := inner e; rlp_bytes := rlp_bytes e; version := version e;
  fee_token_id := fee_token_id e; fee_limit := Some v; reference := reference e;
  memo := memo e |}.
Definition with_reference (e : env) (r : bytes) : env := {|
  inner := inner e; rlp_bytes := rlp_bytes e; version := version e;
  fee_token_id := fee_token_id e; fee_limit := fee_limit e; reference := Some r;
  memo := memo e |}.
Definition with_memo (e : env) (m : bytes) : env := {|
  inner := inner e; rlp_bytes := rlp_bytes e; version := version e;
  fee_token_id := fee_token_id e; fee_limit := fee_limit e; reference := reference e;
  memo := Some m |}.

(** Alloy: the accessors of the Ethereum transactions, their encoding, an empty
    access list, [recover_authority] and the two ways authorizations change
    form. *)
Context (eth_view : ETH → TxView AL SA).
Context (eth_encode_2718 : ETH → bytes).
Context (empty_access_list : AL).
Context (recover_authorization : SA → RA).
Context (sign_recovered : RA → SG → SA).

Definition view (e : envelope) : TxView AL SA :=
  match e with
  | MorphTxEnvelope.Legacy t | MorphTxEnvelope.Eip2930 t
  | MorphTxEnvelope.Eip1559 t | MorphTxEnvelope.Eip7702 t => eth_view t
  | MorphTxEnvelope.L1Msg t => l1_msg_view t
  | MorphTxEnvelope.Morph t => morph_tx_view (MorphTxEnvelope.tx t)
  end.

(** The type byte of each variant of the envelope. *)
Definition type_byte (e : envelope) : Z :=
  match MorphTxEnvelope.tx_type e with
  | MorphTxEnvelope.TLegacy => 0
  | MorphTxEnvelope.TEip2930 => 1
  | MorphTxEnvelope.TEip1559 => 2
  | MorphTxEnvelope.TEip7702 => 4
  | MorphTxEnvelope.TL1Msg => TxL1Msg.L1_TX_TYPE_ID
  | MorphTxEnvelope.TMorph => TxMorph.MORPH_TX_TYPE_ID
  end.

(** [MorphTxEnvelope::rlp]: the signed transaction behind its type byte. *)
Definition rlp (e : envelope) : bytes :=
  match e with
  | MorphTxEnvelope.Legacy t | MorphTxEnvelope.Eip2930 t
  | MorphTxEnvelope.Eip1559 t | MorphTxEnvelope.Eip7702 t => eth_encode_2718 t
  | MorphTxEnvelope.L1Msg t => TxL1Msg.encode_2718 t
  | MorphTxEnvelope.Morph t =>
      [TxMorph.MORPH_TX_TYPE_ID]
      ++ TxMorph.rlp_encode_signed (MorphTxEnvelope.tx t) (MorphTxEnvelope.signature t)
  end.

Definition from_tx_with_rlp_bytes (tx : envelope) (signer : Address) (bytes : Rlp.bytes)
  : env :=
  let v := view tx in
  let inner := {|
    tx_type := type_byte tx; caller := signer; gas_limit := v_gas_limit _ _ v;
    gas_price := v_effective_gas_price _ _ v None; kind := v_kind _ _ v;
    value := v_value _ _ v; data := v_input _ _ v; nonce := v_nonce _ _ v;
    chain_id := v_chain_id _ _ v;
    access_list := default empty_access_list (v_access_list _ _ v);
    gas_priority_fee := v_max_priority_fee_per_gas _ _ v;
    blob_hashes := default [] (v_blob_versioned_hashes _ _ v);
    max_fee_per_blob_gas := default 0 (v_max_fee_per_blob_gas _ _ v);
    authorization_list :=
      map (λ auth, inr (recover_authorization auth)) (default [] (v_authorization_list _ _ v))
  |} in
  let e := with_rlp_bytes (env_new inner) bytes in
  match tx with
  | MorphTxEnvelope.Morph signed =>
      let morph := MorphTxEnvelope.tx signed in
      let e := with_version e (TxMorph.version morph) in
      let e := with_fee_token_id e (TxMorph.fee_token_id morph) in
      let e := with_fee_limit e (TxMorph.fee_limit morph) in
      let e := match TxMorph.reference morph with Some r => with_reference e r | None => e end in
      match TxMorph.memo morph with
      | Some m => if negb (len m =? 0) then with_memo e m else e
      | None => e
      end
  | _ => e
  end.

Definition from_recovered_tx (tx : envelope) (signer : Address) : env :=
  from_tx_with_rlp_bytes tx signer (rlp tx).

(** ** Sizing the L1 fee of a simulation *)

Definition signed_authorizations_for_l1_fee (e : env) (placeholder : SG) : list SA :=
  map (λ auth, match auth with
               | inl signed => signed
               | inr recovered => sign_recovered recovered placeholder
               end) (authorization_list (inner e)).

Definition build_morph_tx_for_l1_fee (e : env) (fallback_chain_id : Z) (placeholder : SG)
  : option (TxMorph.TxMorph AL SA) :=
  if negb (is_morph_tx e) then None
  else
    let version :=
      match version e with
      | Some v => v
      | None => if bool_decide (authorization_list (inner e) = [])
                then TxMorph.MORPH_TX_VERSION_1 else TxMorph.MORPH_TX_VERSION_2
      end in
    let authorization_list :=
      if version =? TxMorph.MORPH_TX_VERSION_2
      then signed_authorizations_for_l1_fee e placeholder else [] in
    Some {|
      TxMorph.chain_id := default fallback_chain_id (chain_id (inner e));
      TxMorph.nonce := nonce (inner e);
      TxMorph.gas_limit := gas_limit (inner e);
      TxMorph.max_fee_per_gas := max_fee_per_gas e;
      TxMorph.max_priority_fee_per_gas := default 0 (gas_priority_fee (inner e));
      TxMorph.to := kind (inner e);
      TxMorph.value := value (inner e);
      TxMorph.access_list := access_list (inner e);
      TxMorph.input := data (inner e);
      TxMorph.fee_token_id := default 0 (fee_token_id e);
      TxMorph.fee_limit := default 0 (fee_limit e);
      TxMorph.version := version;
      TxMorph.reference := reference e;
      TxMorph.memo := memo e;
      TxMorph.authorization_list := authorization_list |}.

(** [TxEip7702 {..}.into_signed(signature)] and the same for [TxEip1559], from
    the fields the code fills in. *)
Context (mk_eip7702 : ∀ (chain_id nonce gas_limit max_fee max_priority_fee : Z)
  (to : Address) (value : Z) (access_list : AL) (auths : list SA) (input : bytes), SG → ETH).
Context (mk_eip1559 : ∀ (chain_id nonce gas_limit max_fee max_priority_fee : Z)
  (to : TxKind) (value : Z) (access_list : AL) (input : bytes), SG → ETH).

Definition build_ethereum_envelope_for_l1_fee (e : env) (fallback_chain_id : Z)
    (signature : SG) : envelope :=
  let i := inner e in
  let chain_id := default fallback_chain_id (chain_id i) in
  let max_priority_fee_per_gas := default (gas_price i) (gas_priority_fee i) in
  let dynamic_fee := MorphTxEnvelope.Eip1559 (mk_eip1559 chain_id (nonce i) (gas_limit i)
    (max_fee_per_gas e) max_priority_fee_per_gas (kind i) (value i) (access_list i) (data i)
    signature) in
  if bool_decide (authorization_list i = []) then dynamic_fee
  else match kind i with
  | Call to =>
      MorphTxEnvelope.Eip7702 (mk_eip7702 chain_id (nonce i) (gas_limit i)
        (max_fee_per_gas e) max_priority_fee_per_gas to (value i) (access_list i)
        (signed_authorizations_for_l1_fee e signature) (data i) signature)
  | Create => dynamic_fee
  end.

(** [placeholder] is the signature of all-ones with parity one. *)
Definition encode_for_l1_fee (placeholder : SG) (e : env) (fallback_chain_id : Z) : bytes :=
  match build_morph_tx_for_l1_fee e fallback_chain_id placeholder with
  | Some morph_tx =>
      rlp (MorphTxEnvelope.Morph
        {| MorphTxEnvelope.tx := morph_tx; MorphTxEnvelope.signature := placeholder |})
  | None => rlp (build_ethereum_envelope_for_l1_fee e fallback_chain_id placeholder)
  end.
End Operations.

(** ** Lemmas *)

Section Lemmas.
Context {AL SA SG : Type} `{AlloyRlp AL SA SG} `{!AlloyRlpLaws AL SA SG}.

(** The wire encoding does not see the difference between an empty memo and
    none, nor an authorization list below version 2. *)
Lemma rlp_encode_signed_ext (t t' : TxMorph.TxMorph AL SA) (s : SG) :
  TxMorph.encode_common t' = TxMorph.encode_common t →
  TxMorph.fields_len t' = TxMorph.fields_len t →
  TxMorph.version t' = TxMorph.version t →
  TxMorph.reference t' = TxMorph.reference t →
  TxMorph.norm_memo (TxMorph.memo t') = TxMorph.norm_memo (TxMorph.memo t) →
  (TxMorph.is_v2 t = true → TxMorph.authorization_list t' = TxMorph.authorization_list t) →
  TxMorph.rlp_encode_signed t' s = TxMorph.rlp_encode_signed t s.
Proof.
  intros Hc Hl Hv Hr Hm Ha. unfold TxMorph.rlp_encode_signed, TxMorph.encode_fields.
  rewrite Hc, Hl.
  assert (TxMorph.is_v0 t' = TxMorph.is_v0 t) as -> by (unfold TxMorph.is_v0; by rewrite Hv).
  assert (TxMorph.is_v2 t' = TxMorph.is_v2 t) as Hv2 by (unfold TxMorph.is_v2; by rewrite Hv).
  assert (TxMorph.encode_reference t' = TxMorph.encode_reference t) as ->
    by (unfold TxMorph.encode_reference; by rewrite Hr).
  assert (TxMorph.encode_memo t' = TxMorph.encode_memo t) as ->.
  { unfold TxMorph.encode_memo, TxMorph.norm_memo in *.
    destruct (TxMorph.memo t') as [[|? ?]|], (TxMorph.memo t) as [[|? ?]|]; by simplify_eq. }
  rewrite Hv, Hv2. unfold TxMorph.encoded_authorization_list. rewrite Hv2.
  destruct (TxMorph.is_v2 t); [by rewrite Ha|done].
Qed.

Lemma fields_len_ext (t t' : TxMorph.TxMorph AL SA) m auths :
  t' = {| TxMorph.chain_id := TxMorph.chain_id t; TxMorph.nonce := TxMorph.nonce t;
          TxMorph.gas_limit := TxMorph.gas_limit t;
          TxMorph.max_fee_per_gas := TxMorph.max_fee_per_gas t;
          TxMorph.max_priority_fee_per_gas := TxMorph.max_priority_fee_per_gas t;
          TxMorph.to := TxMorph.to t; TxMorph.value := TxMorph.value t;
          TxMorph.access_list := TxMorph.access_list t; TxMorph.version := TxMorph.version t;
          TxMorph.fee_token_id := TxMorph.fee_token_id t;
          TxMorph.fee_limit := TxMorph.fee_limit t; TxMorph.reference := TxMorph.reference t;
          TxMorph.memo := m; TxMorph.authorization_list := auths;
          TxMorph.input := TxMorph.input t |} →
  TxMorph.norm_memo m = TxMorph.norm_memo (TxMorph.memo t) →
  (TxMorph.is_v2 t = true → auths = TxMorph.authorization_list t) →
  TxMorph.encode_common t' = TxMorph.encode_common t
  ∧ TxMorph.fields_len t' = TxMorph.fields_len t.
Proof.
  intros -> Hm Ha. split; [done|]. unfold TxMorph.fields_len, TxMorph.is_v0, TxMorph.is_v2,
    TxMorph.encoded_authorization_list in *. cbn.
  assert (from_option (length_of Rlp.rlp_bytes) (length_of rlp_usize 0) m
    = from_option (length_of Rlp.rlp_bytes) (length_of rlp_usize 0) (TxMorph.memo t)) as ->.
  { unfold TxMorph.norm_memo in *.
    destruct m as [[|? ?]|], (TxMorph.memo t) as [[|? ?]|]; simplify_eq; cbn; try done;
      by rewrite rlp_usize_zero. }
  unfold TxMorph.is_v2. cbn [TxMorph.version TxMorph.authorization_list].
  destruct (TxMorph.version t =? TxMorph.MORPH_TX_VERSION_2); [by rewrite Ha|done].
Qed.
End Lemmas.

Section MorphEnv.
Context {ETH AL SA RA SG : Type} `{AlloyRlp AL SA SG}.
Context (eth_view : ETH → TxView AL SA).
Context (empty_access_list : AL) (recover_authorization : SA → RA).
Context (sign_recovered : RA → SG → SA).

(** The environment of a Morph transaction, field by field. *)
Definition morph_env (tx : TxMorph.TxMorph AL SA) (signer : Address) (b : bytes)
  : MorphTxEnv AL SA RA :=
  {| inner := {|
         tx_type := TxMorph.MORPH_TX_TYPE_ID; caller := signer;
         gas_limit := TxMorph.gas_limit tx; gas_price := TxMorph.max_fee_per_gas tx;
         kind := TxMorph.to tx; value := TxMorph.value tx; data := TxMorph.input tx;
         nonce := TxMorph.nonce tx; chain_id := Some (TxMorph.chain_id tx);
         access_list := TxMorph.access_list tx;
         gas_priority_fee := Some (TxMorph.max_priority_fee_per_gas tx); blob_hashes := [];
         max_fee_per_blob_gas := 0;
         authorization_list := map (λ a, inr (recover_authorization a))
           (TxMorph.encoded_authorization_list tx) |};
       rlp_bytes := Some b; version := Some (TxMorph.version tx);
       fee_token_id := Some (TxMorph.fee_token_id tx);
       fee_limit := Some (TxMorph.fee_limit tx); reference := TxMorph.reference tx;
       memo := TxMorph.norm_memo (TxMorph.memo tx) |}.

Lemma env_of_morph (tx : TxMorph.TxMorph AL SA) (signature : SG) signer b :
  from_tx_with_rlp_bytes eth_view empty_access_list recover_authorization
    (MorphTxEnvelope.Morph
       {| MorphTxEnvelope.tx := tx; MorphTxEnvelope.signature := signature |}) signer b
  = morph_env tx signer b.
Proof.
  assert (default [] (TxMorph.applied_authorization_list tx)
    = TxMorph.encoded_authorization_list tx) as Ha.
  { unfold TxMorph.applied_authorization_list, TxMorph.encoded_authorization_list,
      TxMorph.has_authorizations.
    destruct (TxMorph.is_v2 tx), (TxMorph.authorization_list tx); done. }
  unfold from_tx_with_rlp_bytes, morph_env. cbn [view MorphTxEnvelope.tx morph_tx_view
    v_authorization_list v_access_list v_blob_versioned_hashes]. rewrite Ha.
  destruct (TxMorph.reference tx), (TxMorph.memo tx) as [[|? ?]|]; done.
Qed.

(** Rebuilding the transaction from it. *)
Lemma build_morph_tx_of_env (tx : TxMorph.TxMorph AL SA) (signature placeholder : SG)
    signer b fallback_chain_id :
  (∀ a, a ∈ TxMorph.authorization_list tx →
     sign_recovered (recover_authorization a) placeholder = a) →
  build_morph_tx_for_l1_fee sign_recovered
    (morph_env tx signer b) fallback_chain_id placeholder
  = Some {|
      TxMorph.chain_id := TxMorph.chain_id tx; TxMorph.nonce := TxMorph.nonce tx;
      TxMorph.gas_limit := TxMorph.gas_limit tx;
      TxMorph.max_fee_per_gas := TxMorph.max_fee_per_gas tx;
      TxMorph.max_priority_fee_per_gas := TxMorph.max_priority_fee_per_gas tx;
      TxMorph.to := TxMorph.to tx; TxMorph.value := TxMorph.value tx;
      TxMorph.access_list := TxMorph.access_list tx; TxMorph.version := TxMorph.version tx;
      TxMorph.fee_token_id := TxMorph.fee_token_id tx;
      TxMorph.fee_limit := TxMorph.fee_limit tx; TxMorph.reference := TxMorph.reference tx;
      TxMorph.memo := TxMorph.norm_memo (TxMorph.memo tx);
      TxMorph.authorization_list := TxMorph.encoded_authorization_list tx;
      TxMorph.input := TxMorph.input tx |}.
Proof.
  intros Hs. unfold build_morph_tx_for_l1_fee, signed_authorizations_for_l1_fee. cbn.
  unfold TxMorph.encoded_authorization_list, TxMorph.is_v2.
  destruct (TxMorph.version tx =? TxMorph.MORPH_TX_VERSION_2); [|done].
  do 2 f_equal. rewrite map_map.
  rewrite (map_ext_in _ id); [apply map_id|].
  intros a Ha. apply Hs. by apply list_elem_of_In.
Qed.
End MorphEnv.

(** ** Theorems *)

Section Theorems.
Context {ETH AL SA RA SG : Type} `{AlloyRlp AL SA SG} `{!AlloyRlpLaws AL SA SG}.
Context (eth_view : ETH → TxView AL SA) (eth_encode_2718 : ETH → bytes).
Context (empty_access_list : AL) (recover_authorization : SA → RA).
Context (sign_recovered : RA → SG → SA).
Context (mk_eip7702 : Z → Z → Z → Z → Z → Address → Z → AL → list SA → bytes → SG → ETH).
Context (mk_eip1559 : Z → Z → Z → Z → Z → TxKind → Z → AL → bytes → SG → ETH).

(** Sizing the L1 fee of a simulated Morph transaction prices the bytes the
    signed transaction would post: an environment built from any Morph
    transaction re-encodes to exactly its wire encoding, once the placeholder
    signature stands for the signatures the environment no longer has. *)
Theorem l1_fee_sizing_faithful (tx : TxMorph.TxMorph AL SA) (signature placeholder : SG)
    (signer : Address) (fallback_chain_id : Z) :
  (∀ a, a ∈ TxMorph.authorization_list tx →
     sign_recovered (recover_authorization a) placeholder = a) →
  encode_for_l1_fee eth_encode_2718 sign_recovered mk_eip7702 mk_eip1559 placeholder
    (from_recovered_tx eth_view eth_encode_2718 empty_access_list recover_authorization
       (MorphTxEnvelope.Morph
          {| MorphTxEnvelope.tx := tx; MorphTxEnvelope.signature := signature |}) signer)
    fallback_chain_id
  = rlp eth_encode_2718 (MorphTxEnvelope.Morph
      {| MorphTxEnvelope.tx := tx; MorphTxEnvelope.signature := placeholder |}).
Proof.
  intros Hs. unfold encode_for_l1_fee, from_recovered_tx.
  rewrite env_of_morph, build_morph_tx_of_env by done.
  cbn [rlp MorphTxEnvelope.tx MorphTxEnvelope.signature]. f_equal.
  match goal with |- TxMorph.rlp_encode_signed ?t _ = _ => set (t' := t) end.
  assert (TxMorph.norm_memo (TxMorph.norm_memo (TxMorph.memo tx))
    = TxMorph.norm_memo (TxMorph.memo tx)) as Hm by (by destruct (TxMorph.memo tx) as [[|? ?]|]).
  destruct (fields_len_ext tx t' _ _ eq_refl Hm) as [Hc Hl].
  { unfold TxMorph.encoded_authorization_list. by intros ->. }
  apply rlp_encode_signed_ext; try done. cbn. unfold TxMorph.encoded_authorization_list.
  by intros ->.
Qed.
End Theorems.

(** ** Witnesses *)

#[local] Existing Instance Standard.ops.

Definition other_signature : Standard.Signature := (false, (1, 2)).

Lemma l1_fee_sizing_faithful_witness :
  encode_for_l1_fee (ETH := unit) (RA := bytes) (λ _, []) (λ r _, r)
    (λ _ _ _ _ _ _ _ _ _ _ _, tt) (λ _ _ _ _ _ _ _ _ _ _, tt) TxMorph.sample_signature
    (from_recovered_tx (ETH := unit) (λ _, morph_tx_view TxMorph.sample_v2) (λ _, []) [] id
       (MorphTxEnvelope.Morph {| MorphTxEnvelope.tx := TxMorph.sample_v2;
          MorphTxEnvelope.signature := other_signature |}) 7) 2818
  = rlp (ETH := unit) (λ _, []) (MorphTxEnvelope.Morph {| MorphTxEnvelope.tx := TxMorph.sample_v2;
      MorphTxEnvelope.signature := TxMorph.sample_signature |}).
Proof.
  simple refine (@l1_fee_sizing_faithful unit _ _ bytes _ Standard.ops Standard.laws
    (λ _, morph_tx_view TxMorph.sample_v2) (λ _, []) [] id (λ r _, r)
    (λ _ _ _ _ _ _ _ _ _ _ _, tt) (λ _ _ _ _ _ _ _ _ _ _, tt)
    TxMorph.sample_v2 other_signature TxMorph.sample_signature 7 2818 _).
  intros a _. reflexivity.
Defined.
