(* ===== verification/TokenFee.v ===== *)
(** * Fees paid in ERC20 tokens

    Models [crates/revm/src/token_fee.rs]: reading a fee token's registry entry
    and a caller's balance from contract storage, and converting an ETH fee to
    token units with the rounding credit the refund hands back.  The database and
    the hash function are parameters, and so is the EVM's [balanceOf] call, which
    [FeeHandler] supplies. *)

From S2P Require Import Prelude Hardfork Rlp.

(** ** Data *)

Definition L2_TOKEN_REGISTRY_ADDRESS : Address := 0x5300000000000000000000000000000000000021.
Definition TOKEN_REGISTRY_SLOT : Z := 151.
Definition PRICE_RATIO_SLOT : Z := 153.

Record TokenFeeInfo := {
  token_address : Address;
  is_active : bool;
  decimals : Z;
  price_ratio : Z;
  scale : Z;
  caller : Address;
  balance : Z;
  balance_slot : option Z;
}.

Record TokenRegistryEntry := {
  e_token_address : Address;
  e_is_active : bool;
  e_decimals : Z;
  e_price_ratio : Z;
  e_scale : Z;
  e_balance_slot : option Z;
}.

(** [crates/revm/src/error.rs]; [IT] is revm's [InvalidTransaction]. *)
Inductive MorphInvalidTransaction (IT : Type) :=
| EthInvalidTransaction (e : IT)
| TokenNotRegistered (token_id : Z)
| TokenIdZeroNotSupported
| TokenNotActive (token_id : Z)
| InvalidTokenConfig (token_id : Z)
| TokenBalanceQueryFailed
| TokenTransferFailed (reason : string)
| InsufficientTokenBalance (required available : Z)
| AuthorizationListNotSupported (version : Z)
| AuthorizationListCreate.
Arguments EthInvalidTransaction {IT} e.
Arguments TokenNotRegistered {IT} token_id.
Arguments TokenIdZeroNotSupported {IT}.
Arguments TokenNotActive {IT} token_id.
Arguments InvalidTokenConfig {IT} token_id.
Arguments TokenBalanceQueryFailed {IT}.
Arguments TokenTransferFailed {IT} reason.
Arguments InsufficientTokenBalance {IT} required available.
Arguments AuthorizationListNotSupported {IT} version.
Arguments AuthorizationListCreate {IT}.

(** revm's [EVMError]: the transaction is invalid, the database failed, or a
    frame reported an error of its own. *)
Inductive EVMError (Er IT : Type) :=
| Transaction (e : MorphInvalidTransaction IT)
| Database (e : Er)
| CustomError (s : string).
Arguments Transaction {Er IT} e.
Arguments Database {Er IT} e.
Arguments CustomError {Er IT} s.

(** ** Registry entries *)

Definition ensure_usable {IT} (e : TokenRegistryEntry) (token_id : Z)
  : result TokenRegistryEntry (MorphInvalidTransaction IT) :=
  reject TokenNotActive token_id when negb (e_is_active e) in
  reject InvalidTokenConfig token_id when (e_price_ratio e =? 0) || (e_scale e =? 0) in
  Ok e.

Definition into_fee_info (e : TokenRegistryEntry) (c : Address) (b : Z) : TokenFeeInfo := {|
  token_address := e_token_address e; is_active := e_is_active e; decimals := e_decimals e;
  price_ratio := e_price_ratio e; scale := e_scale e; caller := c; balance := b;
  balance_slot := e_balance_slot e |}.

(** The 32 big-endian bytes of a 256-bit word. *)
Definition be_bytes32 (z : Z) : bytes := rev (Standard.fixed_le 32 z).

Section Storage.
Context {Er IT : Type} (keccak256 : bytes → Z).
Context (storage : Address → Z → result Z Er).

(** The key is the 32-byte word [key]; for an address it is left-padded, so the
    word is the address itself. *)
Definition compute_mapping_slot (base_slot key : Z) : Z :=
  keccak256 (be_bytes32 key ++ be_bytes32 base_slot).

Definition compute_mapping_slot_for_address (base_slot : Z) (account : Address) : Z :=
  compute_mapping_slot base_slot account.

Definition read_mapping_value (contract : Address) (base_slot key : Z) : result Z Er :=
  storage contract (compute_mapping_slot base_slot key).

Definition read_balance_from_storage (token account : Address) (slot : Z) : result Z Er :=
  read_mapping_value token slot account.

Definition read_registry_entry (token_id : Z) : result (option TokenRegistryEntry) Er :=
  let base := compute_mapping_slot TOKEN_REGISTRY_SLOT token_id in
  let at_ i := storage L2_TOKEN_REGISTRY_ADDRESS (wrapping_add u256_max base i) in
  let? slot_0 := storage L2_TOKEN_REGISTRY_ADDRESS base in
  let token_address := slot_0 mod 2 ^ 160 in
  if token_address =? 0 then Ok None
  else
    let? balance_slot_raw := at_ 1 in
    let balance_slot :=
      if negb (balance_slot_raw =? 0) then Some (saturating_sub balance_slot_raw 1) else None in
    let? slot_2 := at_ 2 in
    let is_active := negb (slot_2 mod 256 =? 0) in
    let decimals := slot_2 / 256 mod 256 in
    let? scale := at_ 3 in
    let? price_ratio := read_mapping_value L2_TOKEN_REGISTRY_ADDRESS PRICE_RATIO_SLOT token_id in
    Ok (Some {| e_token_address := token_address; e_is_active := is_active;
                e_decimals := decimals; e_price_ratio := price_ratio; e_scale := scale;
                e_balance_slot := balance_slot |}).

(** [TokenRegistryEntry::load]. *)
Definition load := read_registry_entry.

Section CallMode.
(** [evm_call_balance_of] on a fresh EVM over the same state. *)
Context (evm_call_balance_of : Address → Address → result Z (EVMError Er IT)).

Definition read_token_balance_with_fallback (token account : Address)
    (balance_slot : option Z) : result Z (EVMError Er IT) :=
  match balance_slot with
  | Some slot => map_err Database (read_balance_from_storage token account slot)
  | None => evm_call_balance_of token account
  end.

Definition entry_load_for_caller (e : TokenRegistryEntry) (c : Address)
  : result TokenFeeInfo (EVMError Er IT) :=
  let? b := read_token_balance_with_fallback (e_token_address e) c (e_balance_slot e) in
  Ok (into_fee_info e c b).

Definition load_for_caller (token_id : Z) (c : Address)
  : result (option TokenFeeInfo) (EVMError Er IT) :=
  let? entry := map_err Database (load token_id) in
  match entry with
  | None => Ok None
  | Some e => let? i := entry_load_for_caller e c in Ok (Some i)
  end.
End CallMode.

Definition entry_load_storage_only (e : TokenRegistryEntry) (c : Address)
  : result TokenFeeInfo Er :=
  let? b :=
    match e_balance_slot e with
    | Some slot => read_balance_from_storage (e_token_address e) c slot
    | None => Ok 0
    end in
  Ok (into_fee_info e c b).

Definition load_storage_only (token_id : Z) (c : Address) : result (option TokenFeeInfo) Er :=
  let? entry := load token_id in
  match entry with
  | None => Ok None
  | Some e => let? i := entry_load_storage_only e c in Ok (Some i)
  end.
End Storage.

(** ** Conversion *)

Definition effective_fee_limit (i : TokenFeeInfo) (fee_limit : Z) : Z :=
  if fee_limit =? 0 then balance i else Z.min (balance i) fee_limit.

Definition eth_to_token_amount_with_credit (i : TokenFeeInfo) (eth_amount : Z) : Z * Z :=
  if (price_ratio i =? 0) || (scale i =? 0) then (u256_max, 0)
  else
    let p := saturating_mul u256_max eth_amount (scale i) in
    let token_amount := p / price_ratio i in
    let remainder := p mod price_ratio i in
    if remainder =? 0 then (token_amount, 0)
    else (saturating_add u256_max token_amount 1, price_ratio i - remainder).

Definition eth_to_token_amount (i : TokenFeeInfo) (eth_amount : Z) : Z :=
  (eth_to_token_amount_with_credit i eth_amount).1.

Definition eth_to_token_amount_floor (i : TokenFeeInfo) (eth_amount rounding_credit : Z) : Z :=
  if (price_ratio i =? 0) || (scale i =? 0) then 0
  else
    saturating_add u256_max (saturating_mul u256_max eth_amount (scale i)) rounding_credit
    / price_ratio i.

(** ** Lemmas *)

(** A token whose registry entry passed [ensure_usable], with 256-bit fields. *)
Definition usable (i : TokenFeeInfo) : Prop :=
  0 < price_ratio i ≤ u256_max ∧ 0 < scale i ≤ u256_max.

Section Conversion.
Context (i : TokenFeeInfo) (Hu : usable i).

Lemma config_ok : (price_ratio i =? 0) || (scale i =? 0) = false.
Proof. destruct Hu. bool_simp. lia. Qed.

(** The ceiling and its credit, in exact arithmetic. *)
Lemma with_credit_spec eth a c :
  0 ≤ eth → eth * scale i ≤ u256_max →
  eth_to_token_amount_with_credit i eth = (a, c) →
  a * price_ratio i = eth * scale i + c ∧ 0 ≤ c < price_ratio i ∧ 0 ≤ a.
Proof.
  intros He Hm. unfold eth_to_token_amount_with_credit. rewrite config_ok. cbv zeta.
  rewrite saturating_mul_exact by done. destruct Hu as [[Hr Hr'] [Hs _]].
  pose proof (Z.div_mod (eth * scale i) (price_ratio i) ltac:(lia)) as Hdm.
  pose proof (Z.mod_pos_bound (eth * scale i) (price_ratio i) Hr) as Hb.
  assert (0 ≤ eth * scale i / price_ratio i) as Hq
    by (apply Z.div_pos; [apply Z.mul_nonneg_nonneg; lia|lia]).
  destruct (Z.eqb_spec (eth * scale i mod price_ratio i) 0) as [H0|H0]; intros [= <- <-]; [lia|].
  assert (eth * scale i / price_ratio i + 1 ≤ u256_max).
  { assert (1 < price_ratio i) as H1.
    { destruct (Z.eq_dec (price_ratio i) 1) as [H1|]; [|lia].
      rewrite H1, Z.mod_1_r in H0. lia. }
    assert (eth * scale i / price_ratio i < eth * scale i); [|lia].
    apply Z.div_lt; [|done].
    destruct (Z.eq_dec (eth * scale i) 0) as [E|]; [|nia].
    rewrite E, Z.mod_0_l in H0 by lia. lia. }
  rewrite saturating_add_exact by lia. lia.
Qed.

(** The ceiling is the least amount whose worth covers the fee. *)
Lemma ceil_unique eth a :
  0 ≤ eth → eth * scale i ≤ u256_max →
  eth * scale i ≤ a * price_ratio i < eth * scale i + price_ratio i →
  eth_to_token_amount i eth = a.
Proof.
  intros He Hm Ha. unfold eth_to_token_amount.
  destruct (eth_to_token_amount_with_credit i eth) as [a' c] eqn:Hc. simpl.
  destruct (with_credit_spec eth a' c He Hm Hc) as (Hac & Hcr & _).
  destruct Hu as [[Hr _] _]. nia.
Qed.

Lemma ceil_spec eth :
  0 ≤ eth → eth * scale i ≤ u256_max →
  eth * scale i ≤ eth_to_token_amount i eth * price_ratio i < eth * scale i + price_ratio i.
Proof.
  intros He Hm. unfold eth_to_token_amount.
  destruct (eth_to_token_amount_with_credit i eth) as [a c] eqn:Hc. simpl.
  destruct (with_credit_spec eth a c He Hm Hc). lia.
Qed.

Lemma floor_spec eth c :
  0 ≤ eth → 0 ≤ c → eth * scale i + c ≤ u256_max →
  let f := eth_to_token_amount_floor i eth c in
  f * price_ratio i ≤ eth * scale i + c < f * price_ratio i + price_ratio i.
Proof.
  intros He Hc Hm. cbv zeta. unfold eth_to_token_amount_floor. rewrite config_ok.
  rewrite saturating_mul_exact, saturating_add_exact by (try rewrite saturating_mul_exact; lia).
  destruct Hu as [[Hr _] _].
  pose proof (Z.div_mod (eth * scale i + c) (price_ratio i) ltac:(lia)).
  pose proof (Z.mod_pos_bound (eth * scale i + c) (price_ratio i) Hr). lia.
Qed.

(** Handing back the floor of the refund plus the credit leaves the ceiling of
    the net fee. *)
Lemma net_charge P R a c :
  0 ≤ R ≤ P → P * scale i + price_ratio i ≤ u256_max →
  eth_to_token_amount_with_credit i P = (a, c) →
  a - eth_to_token_amount_floor i R c = eth_to_token_amount i (P - R).
Proof.
  intros HR HP Hc. destruct Hu as [[Hr _] [Hs _]].
  destruct (with_credit_spec P a c ltac:(lia) ltac:(lia) Hc) as (Hac & Hcr & _).
  assert (R * scale i ≤ P * scale i) by (apply Z.mul_le_mono_nonneg_r; lia).
  pose proof (floor_spec R c ltac:(lia) ltac:(lia) ltac:(lia)) as Hf. cbv zeta in Hf.
  symmetry. apply ceil_unique; [lia| |]; rewrite ?Z.mul_sub_distr_r; lia.
Qed.
End Conversion.

Lemma ensure_usable_Ok {IT} (e e' : TokenRegistryEntry) id :
  ensure_usable (IT := IT) e id = Ok e' ↔
  e' = e ∧ e_is_active e = true ∧ e_price_ratio e ≠ 0 ∧ e_scale e ≠ 0.
Proof.
  unfold ensure_usable. rewrite !reject_Ok. bool_simp. naive_solver.
Qed.

Lemma load_ext {Er} keccak256 (st st' : Address → Z → result Z Er) id :
  (∀ a k, st a k = st' a k) → load keccak256 st id = load keccak256 st' id.
Proof.
  intros Hst. unfold load, read_registry_entry, read_mapping_value. rewrite Hst.
  destruct (st' _ _); [|done]. cbn [result_bind]. case_match; [done|].
  do 4 (rewrite Hst; destruct (st' _ _); [|done]; cbn [result_bind]). done.
Qed.

(** ** Theorems *)

(** The token charge for a fee is the least whole number of token units
    worth at least the fee, and the recorded credit is exactly the excess paid:
    under one unit. *)
Theorem token_charge_is_ceiling (i : TokenFeeInfo) (eth a c : Z) :
  usable i → 0 ≤ eth → eth * scale i ≤ u256_max →
  eth_to_token_amount_with_credit i eth = (a, c) →
  eth * scale i + c = a * price_ratio i
  ∧ 0 ≤ c < price_ratio i
  ∧ ∀ b, eth * scale i ≤ b * price_ratio i ↔ a ≤ b.
Proof.
  intros Hu He Hm Hc. destruct (with_credit_spec i Hu eth a c He Hm Hc) as (Hac & Hcr & _).
  destruct Hu as [[Hr _] _]. split; [done|]. split; [done|]. intros b. nia.
Qed.

(** Prepaying [P] and refunding [R]: from Celadon on (floor plus credit) the
    caller's net charge is exactly the ceiling of the net fee [P - R]; before
    Celadon (both sides rounded up) it never exceeds that and falls short of it
    by at most one unit. *)
Theorem refund_nets_to_ceiling (i : TokenFeeInfo) (P R a c : Z) :
  usable i → 0 ≤ R ≤ P → P * scale i + price_ratio i ≤ u256_max →
  eth_to_token_amount_with_credit i P = (a, c) →
  a - eth_to_token_amount_floor i R c = eth_to_token_amount i (P - R)
  ∧ eth_to_token_amount i (P - R) - 1
    ≤ a - eth_to_token_amount i R ≤ eth_to_token_amount i (P - R).
Proof.
  intros Hu HR HP Hc. split; [by apply net_charge|].
  assert (0 < scale i ∧ 0 < price_ratio i) as [Hs Hr] by (unfold usable in Hu; lia).
  destruct (with_credit_spec i Hu P a c ltac:(lia) ltac:(lia) Hc) as (Hac & Hcr & _).
  assert (R * scale i ≤ P * scale i) by (apply Z.mul_le_mono_nonneg_r; lia).
  assert (0 ≤ R * scale i) by nonneg.
  pose proof (ceil_spec i Hu R ltac:(lia) ltac:(lia)).
  pose proof (ceil_spec i Hu (P - R) ltac:(lia) ltac:(rewrite Z.mul_sub_distr_r; lia)) as Hn.
  rewrite Z.mul_sub_distr_r in Hn. nia.
Qed.

Section RegistryTheorem.
Context {Er : Type} (keccak256 : bytes → Z) (storage : Address → Z → result Z Er).

(** The contract's storage layout of a token: the address and the flags packed
    below arbitrary padding, the balance slot shifted by one so that zero means
    unknown. *)
Definition stores_entry (token_id : Z) (e : TokenRegistryEntry) : Prop :=
  let base := compute_mapping_slot keccak256 TOKEN_REGISTRY_SLOT token_id in
  let at_ i := storage L2_TOKEN_REGISTRY_ADDRESS (wrapping_add u256_max base i) in
  ∃ pad0 pad2,
    storage L2_TOKEN_REGISTRY_ADDRESS base = Ok (pad0 * 2 ^ 160 + e_token_address e)
    ∧ at_ 1 = Ok (from_option (λ s, s + 1) 0 (e_balance_slot e))
    ∧ at_ 2 = Ok (pad2 * 2 ^ 16 + e_decimals e * 2 ^ 8 + (if e_is_active e then 1 else 0))
    ∧ at_ 3 = Ok (e_scale e)
    ∧ storage L2_TOKEN_REGISTRY_ADDRESS
        (compute_mapping_slot keccak256 PRICE_RATIO_SLOT token_id) = Ok (e_price_ratio e).

(** Reading the registry inverts the contract's storage layout: a token
    stored with any padding is read back with the same address, flag,
    decimals, prices and balance slot. *)
Theorem registry_entry_round_trip (token_id : Z) (e : TokenRegistryEntry) :
  0 < e_token_address e < 2 ^ 160 → 0 ≤ e_decimals e < 256 →
  (∀ s, e_balance_slot e = Some s → 0 ≤ s) →
  stores_entry token_id e →
  load keccak256 storage token_id = Ok (Some e).
Proof.
  intros Ha Hd Hs (pad0 & pad2 & H0 & H1 & H2 & H3 & H4).
  unfold load, read_registry_entry, read_mapping_value. rewrite H0. cbn [result_bind].
  rewrite Z.add_comm, Z.mod_add, (Z.mod_small (e_token_address e)) by lia.
  destruct (Z.eqb_spec (e_token_address e) 0); [lia|].
  rewrite H1, H2, H3, H4. cbn [result_bind].
  set (f := if e_is_active e then 1 else 0). assert (0 ≤ f ≤ 1) by (subst f; case_match; lia).
  replace ((pad2 * 2 ^ 16 + e_decimals e * 2 ^ 8 + f) mod 256) with f
    by (apply (Z.mod_unique_pos _ _ (pad2 * 2 ^ 8 + e_decimals e)); lia).
  replace ((pad2 * 2 ^ 16 + e_decimals e * 2 ^ 8 + f) / 256)
    with (pad2 * 2 ^ 8 + e_decimals e)
    by (apply (Z.div_unique_pos _ _ _ f); lia).
  replace ((pad2 * 2 ^ 8 + e_decimals e) mod 256) with (e_decimals e)
    by (apply (Z.mod_unique_pos _ _ pad2); lia).
  assert (negb (f =? 0) = e_is_active e) as -> by (subst f; by destruct (e_is_active e)).
  destruct e as [ta act dec pr sc [s|]]; cbn in *; [|done].
  pose proof (Hs s eq_refl). destruct (Z.eqb_spec (s + 1) 0); [lia|]. cbn.
  do 3 f_equal. unfold saturating_sub. f_equal. lia.
Qed.
End RegistryTheorem.

(** ** Witnesses *)

Module TokenSamples.
(** A six-decimal token worth 0.5 * 10^-9 ETH per base unit. *)
Definition usd : TokenRegistryEntry := {|
  e_token_address := 0xABCD; e_is_active := true; e_decimals := 6; e_price_ratio := 500000007;
  e_scale := 1; e_balance_slot := Some 5 |}.

Definition usd_info : TokenFeeInfo := into_fee_info usd 0x11 1000000.

Lemma usd_usable : usable usd_info.
Proof. unfold usable, usd_info; simpl. ulia. Qed.

(** A hash that keeps the low byte of the key and of the base slot apart from
    each other: enough to separate the slots used here. *)
Definition mix (b : bytes) : Z := 65536 * nth 31 b 0 + 256 * nth 63 b 0 + nth 51 b 0.

Definition registry_storage (a : Address) (k : Z) : result Z unit :=
  if negb (a =? L2_TOKEN_REGISTRY_ADDRESS) then Ok 0
  else if k =? mix (be_bytes32 3 ++ be_bytes32 151) then Ok (7 * 2 ^ 160 + 0xABCD)
  else if k =? mix (be_bytes32 3 ++ be_bytes32 151) + 1 then Ok 6
  else if k =? mix (be_bytes32 3 ++ be_bytes32 151) + 2 then Ok (6 * 2 ^ 8 + 1)
  else if k =? mix (be_bytes32 3 ++ be_bytes32 151) + 3 then Ok 1
  else if k =? mix (be_bytes32 3 ++ be_bytes32 153) then Ok 500000007
  else Ok 0.
End TokenSamples.

Import TokenSamples.

Lemma token_charge_is_ceiling_witness :
  1000000000 * 1 + 14 = 2 * 500000007 - 0 ∧ ∀ b, 1000000000 * 1 ≤ b * 500000007 ↔ 2 ≤ b.
Proof.
  split; [reflexivity|].
  simple refine (proj2 (proj2 (token_charge_is_ceiling usd_info 1000000000 2 14 usd_usable _ _ _))).
  - lia.
  - cbn. ulia.
  - vm_compute. reflexivity.
Defined.

Lemma refund_nets_to_ceiling_witness :
  2 - eth_to_token_amount_floor usd_info 499999990 14 = eth_to_token_amount usd_info 500000010.
Proof.
  simple refine (proj1 (refund_nets_to_ceiling usd_info 1000000000 499999990 2 14 usd_usable
    _ _ _)).
  - lia.
  - cbn. ulia.
  - vm_compute. reflexivity.
Defined.

Lemma registry_entry_round_trip_witness : load mix registry_storage 3 = Ok (Some usd).
Proof.
  simple refine (registry_entry_round_trip mix registry_storage 3 usd _ _ _ _).
  - by vm_compute.
  - by vm_compute.
  - intros s Hs. injection Hs as <-. lia.
  - exists 7, 0. repeat split; vm_compute; reflexivity.
Defined.
