(* ===== verification/Journal.v ===== *)
(** * The journaled state

    The interface of revm's journal that the fee code uses: account and storage
    reads and writes, checkpoints, logs, and the warm/cold marks.  revm is a
    dependency, so the journal is a class; its laws say what each operation does
    to the three things a fee moves: balances, nonces and storage slots.  The
    last section has an executable instance. *)

From S2P Require Import Prelude Hardfork Rlp.

Record AccountInfo (Code : Type) := {
  info_balance : Z;
  info_nonce : Z;
  info_code : Code;
}.
Arguments info_balance {Code}.
Arguments info_nonce {Code}.
Arguments info_code {Code}.

(** [J] is the journal over its database, [St] the state map it returns when it
    is finalized, [CP] its checkpoints. *)
Class JournalOps (J Er Code Log St CP : Type) := {
  (** [db_mut().storage(a, k)]: the committed state, behind the journal *)
  db_storage : J → Address → Z → result Z Er;
  (** [load_account_mut], [load_account_with_code(_mut)]: the account and
      whether it was cold *)
  load_account : Address → sm J Er (AccountInfo Code * bool);
  set_balance : Address → Z → J → J;
  incr_balance : Address → Z → J → J;
  bump_nonce : Address → J → J;
  touch : Address → J → J;
  sload : Address → Z → sm J Er Z;
  sstore : Address → Z → Z → sm J Er unit;
  checkpoint : J → J * CP;
  checkpoint_commit : J → J;
  checkpoint_revert : CP → J → J;
  mark_account_cold : Address → J → J;
  mark_slot_cold : Address → Z → J → J;
  (** the log buffer, and replacing it *)
  journal_logs : J → list Log;
  set_journal_logs : list Log → J → J;
  (** [evm.finalize()] takes the state map out; marking every account and slot
      of it cold; [journal.state.extend] *)
  finalize : J → J * St;
  mark_state_cold : St → St;
  extend_state : St → J → J;
  (** What a transaction sees of the state. *)
  balance_of : J → Address → Z;
  nonce_of : J → Address → Z;
  slot_of : J → Address → Z → Z;
}.

Section View.
Context {J Er Code Log St CP : Type} `{JournalOps J Er Code Log St CP}.

(** Two journals show the same state. *)
Definition same_view (j1 j2 : J) : Prop :=
  (∀ a, balance_of j1 a = balance_of j2 a)
  ∧ (∀ a, nonce_of j1 a = nonce_of j2 a)
  ∧ (∀ a k, slot_of j1 a k = slot_of j2 a k).

#[global] Instance same_view_equiv : Equivalence same_view.
Proof.
  split.
  - intros j. by repeat split.
  - intros j1 j2 (Hb & Hn & Hs). by repeat split.
  - intros j1 j2 j3 (Hb & Hn & Hs) (Hb' & Hn' & Hs'). split; [|split]; intros;
    [rewrite Hb; apply Hb'|rewrite Hn; apply Hn'|rewrite Hs; apply Hs'].
Qed.

(** The observers respect [same_view], so that it can be rewritten with. *)
#[global] Instance balance_of_proper : Proper (same_view ==> eq ==> eq) balance_of.
Proof. intros j1 j2 (Hb & _) a ? <-. apply Hb. Qed.
#[global] Instance nonce_of_proper : Proper (same_view ==> eq ==> eq) nonce_of.
Proof. intros j1 j2 (_ & Hn & _) a ? <-. apply Hn. Qed.
#[global] Instance slot_of_proper : Proper (same_view ==> eq ==> eq ==> eq) slot_of.
Proof. intros j1 j2 (_ & _ & Hs) a ? <- k ? <-. apply Hs. Qed.

(** [j2] shows [j1] with one slot written. *)
Definition slot_written (a : Address) (k v : Z) (j1 j2 : J) : Prop :=
  (∀ b, balance_of j2 b = balance_of j1 b)
  ∧ (∀ b, nonce_of j2 b = nonce_of j1 b)
  ∧ slot_of j2 a k = v
  ∧ (∀ b k', (b, k') ≠ (a, k) → slot_of j2 b k' = slot_of j1 b k').

(** One storage access. *)
Inductive storage_step : J → J → Prop :=
| step_sload a k j : storage_step j (sload a k j).1
| step_sstore a k v j : storage_step j (sstore a k v j).1.
End View.

(** What revm's journal guarantees. *)
Class JournalLaws (J Er Code Log St CP : Type) `{JournalOps J Er Code Log St CP} := {
  db_storage_u256 j a k v : db_storage j a k = Ok v → is_u256 v;
  load_account_view a j : same_view (load_account a j).1 j;
  load_account_db a j b k : db_storage (load_account a j).1 b k = db_storage j b k;
  load_account_info a j j' i c :
    load_account a j = (j', Ok (i, c)) →
    info_balance i = balance_of j a ∧ info_nonce i = nonce_of j a;
  set_balance_balance a x j b :
    balance_of (set_balance a x j) b = if b =? a then x else balance_of j b;
  set_balance_nonce a x j b : nonce_of (set_balance a x j) b = nonce_of j b;
  set_balance_slot a x j b k : slot_of (set_balance a x j) b k = slot_of j b k;
  incr_balance_balance a x j b :
    balance_of j a + x ≤ u256_max →
    balance_of (incr_balance a x j) b = balance_of j b + (if b =? a then x else 0);
  incr_balance_nonce a x j b : nonce_of (incr_balance a x j) b = nonce_of j b;
  incr_balance_slot a x j b k : slot_of (incr_balance a x j) b k = slot_of j b k;
  bump_nonce_balance a j b : balance_of (bump_nonce a j) b = balance_of j b;
  bump_nonce_nonce a j b :
    nonce_of j a < u64_max →
    nonce_of (bump_nonce a j) b = nonce_of j b + (if b =? a then 1 else 0);
  bump_nonce_slot a j b k : slot_of (bump_nonce a j) b k = slot_of j b k;
  touch_view a j : same_view (touch a j) j;
  sload_view a k j : same_view (sload a k j).1 j;
  sload_value a k j j' v : sload a k j = (j', Ok v) → v = slot_of j a k;
  sstore_Ok a k v j j' : sstore a k v j = (j', Ok tt) → slot_written a k v j j';
  checkpoint_view j : same_view (checkpoint j).1 j;
  commit_view j : same_view (checkpoint_commit j) j;
  (** reverting undoes the storage accesses made since the checkpoint *)
  revert_view j j1 j2 cp :
    checkpoint j = (j1, cp) → rtc storage_step j1 j2 → same_view (checkpoint_revert cp j2) j;
  cold_account_view a j : same_view (mark_account_cold a j) j;
  cold_slot_view a k j : same_view (mark_slot_cold a k j) j;
  set_logs_view l j : same_view (set_journal_logs l j) j;
  (** taking the state out and putting it back, marked cold, shows the same *)
  finalize_extend_view j j1 st :
    finalize j = (j1, st) → same_view (extend_state (mark_state_cold st) j1) j;
}.

(** ** An executable instance

    A journal over maps: balances, nonces and slots with their committed values,
    warm sets, and snapshots as checkpoints. *)

Module MapJournal.
Record journal := {
  balances : gmap Address Z;
  nonces : gmap Address Z;
  slots : gmap (Address * Z) Z;
  committed : gmap (Address * Z) Z;
  warm_accounts : gset Address;
  warm_slots : gset (Address * Z);
  touched : gset Address;
  logs : list Z;
}.

Definition with_balances j b := {| balances := b; nonces := nonces j; slots := slots j;
  committed := committed j; warm_accounts := warm_accounts j; warm_slots := warm_slots j;
  touched := touched j; logs := logs j |}.
Definition with_nonces j n := {| balances := balances j; nonces := n; slots := slots j;
  committed := committed j; warm_accounts := warm_accounts j; warm_slots := warm_slots j;
  touched := touched j; logs := logs j |}.
Definition with_slots j s := {| balances := balances j; nonces := nonces j; slots := s;
  committed := committed j; warm_accounts := warm_accounts j; warm_slots := warm_slots j;
  touched := touched j; logs := logs j |}.
Definition with_marks j wa ws t l := {| balances := balances j; nonces := nonces j;
  slots := slots j; committed := committed j; warm_accounts := wa; warm_slots := ws;
  touched := t; logs := l |}.

Definition bal (j : journal) (a : Address) : Z := default 0 (balances j !! a).
Definition non (j : journal) (a : Address) : Z := default 0 (nonces j !! a).
Definition slt (j : journal) (a : Address) (k : Z) : Z := default 0 (slots j !! (a, k)).

#[export] Instance ops : JournalOps journal unit unit Z journal journal := {|
  db_storage j a k := Ok (default 0 (committed j !! (a, k)) mod (u256_max + 1));
  load_account a j :=
    (with_marks j ({[a]} ∪ warm_accounts j) (warm_slots j) (touched j) (logs j),
     Ok ({| info_balance := bal j a; info_nonce := non j a; info_code := tt |},
         negb (bool_decide (a ∈ warm_accounts j))));
  set_balance a x j := with_balances j (<[a := x]> (balances j));
  incr_balance a x j :=
    if bal j a + x <=? u256_max
    then with_balances j (<[a := bal j a + x]> (balances j)) else j;
  bump_nonce a j :=
    if non j a <? u64_max then with_nonces j (<[a := non j a + 1]> (nonces j)) else j;
  touch a j := with_marks j (warm_accounts j) (warm_slots j) ({[a]} ∪ touched j) (logs j);
  sload a k j :=
    (with_marks j (warm_accounts j) ({[(a, k)]} ∪ warm_slots j) (touched j) (logs j),
     Ok (slt j a k));
  sstore a k v j :=
    (with_slots (with_marks j (warm_accounts j) ({[(a, k)]} ∪ warm_slots j) (touched j)
       (logs j)) (<[(a, k) := v]> (slots j)), Ok tt);
  checkpoint j := (j, j);
  checkpoint_commit j := j;
  checkpoint_revert cp j := cp;
  mark_account_cold a j :=
    with_marks j (warm_accounts j ∖ {[a]}) (warm_slots j) (touched j) (logs j);
  mark_slot_cold a k j :=
    with_marks j (warm_accounts j) (warm_slots j ∖ {[(a, k)]}) (touched j) (logs j);
  journal_logs := logs;
  set_journal_logs l j :=
    with_marks j (warm_accounts j) (warm_slots j) (touched j) l;
  finalize j := (j, j);
  mark_state_cold st := with_marks st ∅ ∅ (touched st) [];
  extend_state st j := st;
  balance_of := bal;
  nonce_of := non;
  slot_of := slt;
|}.

Lemma lookup_insert_default (m : gmap Address Z) a b x :
  default 0 (<[a := x]> m !! b) = if b =? a then x else default 0 (m !! b).
Proof.
  destruct (Z.eqb_spec b a) as [->|]; [by rewrite lookup_insert_eq|by rewrite lookup_insert_ne].
Qed.

#[export] Instance laws : JournalLaws journal unit unit Z journal journal.
Proof.
  split; try done.
  - intros j a k v [= <-]. pose proof uint_max_order. unfold in_range.
    pose proof (Z.mod_pos_bound (default 0 (committed j !! (a, k))) (u256_max + 1)). lia.
  - intros a j j' i c [= <- <- <-]. done.
  - intros a x j b. apply lookup_insert_default.
  - intros a x j b Hx. cbn in *. destruct (Z.leb_spec (bal j a + x) u256_max); [|lia].
    unfold bal at 1. cbn. rewrite lookup_insert_default. unfold bal.
    destruct (Z.eqb_spec b a) as [->|]; [done|by rewrite Z.add_0_r].
  - intros a x j b. cbn. by destruct (_ <=? _).
  - intros a x j b k. cbn. by destruct (_ <=? _).
  - intros a j b. cbn. by destruct (_ <? _).
  - intros a j b Hn. cbn in *. destruct (Z.ltb_spec (non j a) u64_max); [|lia].
    unfold non at 1. cbn. rewrite lookup_insert_default. unfold non.
    destruct (Z.eqb_spec b a) as [->|]; [done|by rewrite Z.add_0_r].
  - intros a j b k. cbn. by destruct (_ <? _).
  - by intros a k j j' v [= _ <-].
  - intros a k v j j' [= <-]. split; [done|]. split; [done|]. split.
    + cbn. unfold slt. cbn. by rewrite lookup_insert_eq.
    + intros b k' Hne. cbn. unfold slt. cbn. by rewrite lookup_insert_ne.
  - intros j j1 j2 cp [= <- <-] _. done.
  - by intros j j1 st [= <- <-].
Qed.
End MapJournal.
