(* ===== verification/FeeHandler.v ===== *)
(** * Fee handling around a transaction

    Models [crates/revm/src/handler.rs]: what [MorphEvmHandler] does to the state
    before and after a transaction's own execution.  It charges the L1 data fee
    and the execution fee in ETH or in a fee token, pays the beneficiary, refunds
    the gas that was not used, and applies the version-2 authorization list.
    revm's own routines and its frame execution are parameters; the journal is the
    interface of [Journal]. *)

From S2P Require Import Prelude Hardfork Rlp MorphTx Envelope L1Fee TxEnv TokenFee Journal.

(** ** Data *)

(** [revm::context::result::InvalidTransaction]: the variants the code builds;
    [OtherInvalid] stands for what revm's own checks report. *)
Inductive InvalidTransaction :=
| OverflowPaymentInTransaction
| LackOfFundForMaxFee (fee balance : Z)
| Eip7702NotSupported
| OtherInvalid (s : string).

Record Cfg := {
  spec : MorphHardfork;
  is_fee_charge_disabled : bool;
  is_balance_check_disabled : bool;
  is_eip3607_disabled : bool;
  is_nonce_check_disabled : bool;
  is_priority_fee_check_disabled : bool;
}.

Record BlockEnv := {
  beneficiary : Address;
  basefee : Z;
  blob_gasprice : option Z;
}.

(** [revm::interpreter::Gas]. *)
Class GasOps (G : Type) := {
  remaining : G → Z;
  refunded : G → Z;
  used : G → Z;
  set_refund : Z → G → G;
  record_refund : Z → G → G;
}.

(** The part of a frame's result that the code looks at. *)
Record FrameResult := {
  fr_is_ok : bool;
  fr_output : bytes;
  fr_refunded : Z;
}.

(** [CallInputs] of a fee-token frame. *)
Record FrameInit (Code : Type) := {
  call_caller : Address;
  call_target : Address;
  call_input : bytes;
  call_is_static : bool;
  call_gas_limit : Z;
  call_code : Code;
}.

(** [ContextError]: what a frame leaves on the context. *)
Inductive ContextError (Er : Type) := ErrDb (e : Er) | ErrCustom (s : string).
Arguments ErrDb {Er} e.
Arguments ErrCustom {Er} s.

(** [crates/revm/src/evm.rs]: the EVM as far as the handler changes it. *)
Record MorphEvm (J Er Log : Type) := {
  journal : J;
  ctx_error : option (ContextError Er);
  cached_token_fee_info : option TokenFeeInfo;
  cached_alt_fee_rounding_credit : Z;
  cached_l1_data_fee : Z;
  pre_fee_refund : Z;
  pre_fee_logs : list Log;
  post_fee_logs : list Log;
}.
Arguments journal {J Er Log}.
Arguments ctx_error {J Er Log}.
Arguments cached_token_fee_info {J Er Log}.
Arguments cached_alt_fee_rounding_credit {J Er Log}.
Arguments cached_l1_data_fee {J Er Log}.
Arguments pre_fee_refund {J Er Log}.
Arguments pre_fee_logs {J Er Log}.
Arguments post_fee_logs {J Er Log}.

Definition EVM_CALL_GAS_LIMIT : Z := 200000.

(** [encode_balance_of_calldata] of [token_fee.rs] and [build_transfer_calldata]. *)
Definition padded_address (a : Address) : bytes := replicate 12 0 ++ Standard.address_bytes a.
Definition encode_balance_of_calldata (account : Address) : bytes :=
  [0x70; 0xa0; 0x82; 0x31] ++ padded_address account.
Definition build_transfer_calldata (to : Address) (token_amount : Z) : bytes :=
  [0xa9; 0x05; 0x9c; 0xbb] ++ padded_address to ++ be_bytes32 token_amount.

Section SetFields.
Context {J Er Log : Type}.
Abbreviation evm := (MorphEvm J Er Log).

Definition set_journal (j : J) (e : evm) : evm := {|
  journal := j; ctx_error := ctx_error e; cached_token_fee_info := cached_token_fee_info e;
  cached_alt_fee_rounding_credit := cached_alt_fee_rounding_credit e;
  cached_l1_data_fee := cached_l1_data_fee e; pre_fee_refund := pre_fee_refund e;
  pre_fee_logs := pre_fee_logs e; post_fee_logs := post_fee_logs e |}.
Definition set_error (x : option (ContextError Er)) (e : evm) : evm := {|
  journal := journal e; ctx_error := x; cached_token_fee_info := cached_token_fee_info e;
  cached_alt_fee_rounding_credit := cached_alt_fee_rounding_credit e;
  cached_l1_data_fee := cached_l1_data_fee e; pre_fee_refund := pre_fee_refund e;
  pre_fee_logs := pre_fee_logs e; post_fee_logs := post_fee_logs e |}.
Definition set_caches (i : option TokenFeeInfo) (credit l1 : Z) (e : evm) : evm := {|
  journal := journal e; ctx_error := ctx_error e; cached_token_fee_info := i;
  cached_alt_fee_rounding_credit := credit; cached_l1_data_fee := l1;
  pre_fee_refund := pre_fee_refund e; pre_fee_logs := pre_fee_logs e;
  post_fee_logs := post_fee_logs e |}.
Definition set_pre_fee_refund (r : Z) (e : evm) : evm := {|
  journal := journal e; ctx_error := ctx_error e;
  cached_token_fee_info := cached_token_fee_info e;
  cached_alt_fee_rounding_credit := cached_alt_fee_rounding_credit e;
  cached_l1_data_fee := cached_l1_data_fee e; pre_fee_refund := r;
  pre_fee_logs := pre_fee_logs e; post_fee_logs := post_fee_logs e |}.
Definition set_fee_logs (pre post : list Log) (e : evm) : evm := {|
  journal := journal e; ctx_error := ctx_error e;
  cached_token_fee_info := cached_token_fee_info e;
  cached_alt_fee_rounding_credit := cached_alt_fee_rounding_credit e;
  cached_l1_data_fee := cached_l1_data_fee e; pre_fee_refund := pre_fee_refund e;
  pre_fee_logs := pre; post_fee_logs := post |}.
End SetFields.

(** ** Direct transfers between storage slots *)

Section SlotTransfer.
Context {J Er Code Log St CP : Type} `{JournalOps J Er Code Log St CP}.
Context (keccak256 : bytes → Z).
Abbreviation error := (EVMError Er InvalidTransaction).

(** A journal operation inside a function that fails with an EVM error. *)
Definition db {A} (c : sm J Er A) : sm J error A := sm_map_err Database c.

Definition with_journal_checkpoint {A E} (f : sm J E A) : sm J E A := λ j,
  let '(j, cp) := checkpoint j in
  match f j with
  | (j, Ok val) => (checkpoint_commit j, Ok val)
  | (j, Err err) => (checkpoint_revert cp j, Err err)
  end.

Definition transfer_erc20_with_slot (from to token : Address)
    (token_amount token_balance_slot : Z) : sm J error (Z * Z) :=
  db (load_account token);;
  sm_modify (touch token);;
  with_journal_checkpoint (
    let from_storage_slot := compute_mapping_slot_for_address keccak256 token_balance_slot from in
    from_balance ← db (sload token from_storage_slot);
    new_from_balance ← sm_lift (ok_or (checked_sub from_balance token_amount)
      (Transaction (InsufficientTokenBalance token_amount from_balance)));
    let to_storage_slot := compute_mapping_slot_for_address keccak256 token_balance_slot to in
    if from_storage_slot =? to_storage_slot then mret (from_storage_slot, to_storage_slot)
    else
      to_balance ← db (sload token to_storage_slot);
      new_to_balance ← sm_lift (ok_or (checked_add u256_max to_balance token_amount)
        (Transaction (TokenTransferFailed "recipient token balance overflow"%string)));
      db (sstore token from_storage_slot new_from_balance);;
      db (sstore token to_storage_slot new_to_balance);;
      mret (from_storage_slot, to_storage_slot)).

Definition internal_call_code (address : Address) : sm J Er Code :=
  '(account, was_cold) ← load_account address;
  (if was_cold : bool then sm_modify (mark_account_cold address) else mret tt);;
  mret (info_code account).
End SlotTransfer.

(** ** The handler *)

Section Handler.
Context {J Er Code Log St CP G : Type} `{JournalOps J Er Code Log St CP} `{GasOps G}.
Context {AL SA RA SpecId : Type} `{SpecIdOps SpecId}.
Context (keccak256 : bytes → Z).
Abbreviation evm := (MorphEvm J Er Log).
Abbreviation error := (EVMError Er InvalidTransaction).
Abbreviation M := (sm evm error).
Abbreviation txenv := (MorphTxEnv AL SA RA).

(** *** revm *)

(** [Transaction::effective_gas_price] and [effective_balance_spending]. *)
Context (effective_gas_price : txenv → Z → Z).
Context (effective_balance_spending : txenv → Z → Z → result Z InvalidTransaction).
Context (validate_account_nonce_and_code :
  AccountInfo Code → Z → bool → bool → result unit InvalidTransaction).
Context (validate_env_revm : txenv → result unit error).
Context (validate_priority_fee_tx : Z → Z → option Z → bool → result unit InvalidTransaction).
Context {InitialAndFloorGas : Type}.
Context (validate_initial_tx_gas_with_gas_params :
  txenv → SpecId → result InitialAndFloorGas InvalidTransaction).
Context (new_initial_gas : Z → InitialAndFloorGas).
Context (reimburse_caller_revm : G → sm J Er unit).
Context (refund_revm : G → Z → G).
Context (apply_eip7702_auth_list_revm : M (option Z)).
Context (apply_auth_list : list (SA + RA) → sm J Er Z).
Context (tx_eip7702_auth_refund_regular : Z).
(** Running one frame to its end, and the delegate an EIP-7702 code names. *)
Context (run_exec_loop : FrameInit Code → M FrameResult).
Context (eip7702_address : Code → option Address).

(** *** The environment of the transaction *)
Context (tx : txenv) (block : BlockEnv) (cfg : Cfg).

Definition on_journal {A} (c : sm J Er A) : M A := λ e,
  let '(j, r) := c (journal e) in (set_journal j e, map_err Database r).
Definition with_journal {A} (c : sm J error A) : M A := λ e,
  let '(j, r) := c (journal e) in (set_journal j e, r).
Definition mod_journal (f : J → J) : M unit := sm_modify (λ e, set_journal (f (journal e)) e).

(** [?] on a transaction error. *)
Definition tx_try {A} (r : result A (MorphInvalidTransaction InvalidTransaction)) : M A :=
  sm_lift (map_err Transaction r).
Definition eth_try {A} (r : result A InvalidTransaction) : M A :=
  tx_try (map_err EthInvalidTransaction r).

Definition token_id : Z := default 0 (fee_token_id tx).
Definition gas_price_now : Z := effective_gas_price tx (basefee block).

(** *** Checks *)

Definition validate_morph_tx_authorization_list
  : result unit (MorphInvalidTransaction InvalidTransaction) :=
  let version := default 0 (version tx) in
  let auth_list_len := authorization_list_len tx in
  if version <? TxMorph.MORPH_TX_VERSION_2 then
    reject AuthorizationListNotSupported version when negb (auth_list_len =? 0) in Ok tt
  else if auth_list_len =? 0 then Ok tt
  else
    reject EthInvalidTransaction Eip7702NotSupported
      when negb (is_enabled_in (spec_id_of (spec cfg)) PRAGUE) in
    reject AuthorizationListCreate when TxMorph.is_create (kind (inner tx)) in
    Ok tt.

Definition validate_env : result unit error :=
  if is_l1_msg tx then Ok tt
  else
    do? validate_env_revm tx in
    do? (if is_morph_tx tx && negb (is_fee_charge_disabled cfg)
         then map_err (λ e, Transaction (EthInvalidTransaction e))
                (validate_priority_fee_tx (max_fee_per_gas tx)
                  (default 0 (gas_priority_fee (inner tx))) (Some (basefee block))
                  (is_priority_fee_check_disabled cfg))
         else Ok tt) in
    if is_morph_tx tx then map_err Transaction validate_morph_tx_authorization_list else Ok tt.

Definition validate_initial_tx_gas : result InitialAndFloorGas error :=
  let r := validate_initial_tx_gas_with_gas_params tx (spec_id_of (spec cfg)) in
  if is_l1_msg tx then
    match r with
    | Ok g => Ok g
    | Err _ => Ok (new_initial_gas (gas_limit (inner tx)))
    end
  else map_err (λ e, Transaction (EthInvalidTransaction e)) r.

Definition apply_eip7702_auth_list : M (option Z) :=
  if negb (is_morph_tx tx) then apply_eip7702_auth_list_revm
  else if authorization_list_len tx =? 0 then mret (Some 0)
  else
    refunded_accounts ← on_journal (apply_auth_list (authorization_list (inner tx)));
    mret (Some (saturating_mul u64_max tx_eip7702_auth_refund_regular refunded_accounts)).

(** *** Fees in ETH *)

Definition calculate_caller_fee_with_l1_cost (balance l1_data_fee : Z)
  : result Z InvalidTransaction :=
  if is_fee_charge_disabled cfg then Ok balance
  else
    let value := value (inner tx) in
    do? (if negb (is_balance_check_disabled cfg) then
           let? max_gas_spending :=
             ok_or (checked_mul u128_max (gas_limit (inner tx)) (max_fee_per_gas tx))
               OverflowPaymentInTransaction in
           let? max_spending :=
             ok_or (checked_add u256_max max_gas_spending value
                    ≫= λ v, checked_add u256_max v l1_data_fee)
               OverflowPaymentInTransaction in
           reject LackOfFundForMaxFee max_spending balance when balance <? max_spending in
           Ok tt
         else Ok tt) in
    let? effective_balance_spending :=
      effective_balance_spending tx (basefee block) (default 0 (blob_gasprice block)) in
    let gas_balance_spending := wrapping_sub u256_max effective_balance_spending value in
    let total_fee_deduction := saturating_add u256_max gas_balance_spending l1_data_fee in
    let new_balance := saturating_sub balance total_fee_deduction in
    Ok (if is_balance_check_disabled cfg then Z.max new_balance value else new_balance).

Definition bump_nonce_if_call : M unit :=
  if TxMorph.is_create (kind (inner tx)) then mret tt
  else mod_journal (bump_nonce (TxEnv.caller (inner tx))).

Definition fetch_l1_data_fee : M Z :=
  l1_block_info ← sm_read (λ e,
    map_err Database (try_fetch (db_storage (journal e)) (spec cfg)));
  mret (calculate_tx_l1_cost l1_block_info (default [] (rlp_bytes tx)) (spec cfg)).

Definition validate_and_deduct_eth_fee : M unit :=
  l1_data_fee ← fetch_l1_data_fee;
  sm_modify (λ e, set_caches (cached_token_fee_info e) (cached_alt_fee_rounding_credit e)
                    l1_data_fee e);;
  '(caller, _) ← on_journal (load_account (TxEnv.caller (inner tx)));
  eth_try (validate_account_nonce_and_code caller (nonce (inner tx))
    (is_eip3607_disabled cfg) (is_nonce_check_disabled cfg));;
  new_balance ← eth_try (calculate_caller_fee_with_l1_cost (info_balance caller) l1_data_fee);
  mod_journal (set_balance (TxEnv.caller (inner tx)) new_balance);;
  bump_nonce_if_call.

(** *** Calls to the fee token *)

Definition take_context_error : M unit := λ e,
  match ctx_error e with
  | Some (ErrDb err) => (set_error None e, Err (Database err))
  | Some (ErrCustom s) => (set_error None e, Err (CustomError s))
  | None => (e, Ok tt)
  end.

Definition evm_call (caller target : Address) (calldata : bytes) (is_static : bool)
  : M FrameResult :=
  take_context_error;;
  code ← on_journal (internal_call_code target);
  known_bytecode ← match eip7702_address code with
                   | Some delegate => on_journal (internal_call_code delegate)
                   | None => mret code
                   end;
  result ← run_exec_loop {| call_caller := caller; call_target := target;
    call_input := calldata; call_is_static := is_static;
    call_gas_limit := EVM_CALL_GAS_LIMIT; call_code := known_bytecode |};
  take_context_error;;
  mret result.

Definition evm_call_balance_of (token account : Address) : M Z :=
  result ← evm_call account token (encode_balance_of_calldata account) true;
  if negb (fr_is_ok result) || (len (fr_output result) <? 32)
  then sm_fail (Transaction TokenBalanceQueryFailed)
  else mret (Standard.of_be (take 32 (fr_output result))).

Definition load_token_fee_info (entry : TokenRegistryEntry) (caller : Address)
  : M TokenFeeInfo :=
  balance ← match e_balance_slot entry with
            | Some slot => sm_read (λ e, map_err Database
                (read_balance_from_storage keccak256 (db_storage (journal e))
                   (e_token_address entry) caller slot))
            | None => evm_call_balance_of (e_token_address entry) caller
            end;
  mret (into_fee_info entry caller balance).

(** A failed call is a failed transfer, except that database errors stay what
    they are. *)
Definition as_transfer_failure (e : error) : error :=
  match e with
  | Database _ => e
  | _ => Transaction (TokenTransferFailed "Error"%string)
  end.

Definition transfer_erc20_with_evm (from to token_address : Address) (token_amount : Z)
    (from_balance_before : option Z) : M Z :=
  if token_amount =? 0 then mret 0
  else
    before ← match from_balance_before with
             | Some b => mret b
             | None => evm_call_balance_of token_address from
             end;
    expected_balance ← tx_try (ok_or (checked_sub before token_amount)
      (TokenTransferFailed "sender balance less than token amount"%string));
    frame_result ← sm_map_err as_transfer_failure
      (evm_call from token_address (build_transfer_calldata to token_amount) false);
    if negb (fr_is_ok frame_result) then
      sm_fail (Transaction (TokenTransferFailed "frame"%string))
    else if negb (len (fr_output frame_result) =? 0)
            && ((len (fr_output frame_result) <? 32)
                || negb (nth 31 (fr_output frame_result) 0 =? 1)) then
      sm_fail (Transaction (TokenTransferFailed "alt token transfer returned failure"%string))
    else
      from_balance_after ← evm_call_balance_of token_address from;
      if negb (from_balance_after =? expected_balance) then
        sm_fail (Transaction (TokenTransferFailed "sender balance mismatch"%string))
      else mret (fr_refunded frame_result).

(** *** Fees in tokens *)

Definition validate_and_deduct_token_fee (token_id : Z) : M unit :=
  if token_id =? 0 then sm_fail (Transaction TokenIdZeroNotSupported)
  else
    let caller_addr := TxEnv.caller (inner tx) in
    '(account, _) ← on_journal (load_account caller_addr);
    eth_try (validate_account_nonce_and_code account (nonce (inner tx))
      (is_eip3607_disabled cfg) (is_nonce_check_disabled cfg));;
    let tx_value := value (inner tx) in
    (if negb (is_fee_charge_disabled cfg) && negb (tx_value =? 0) then
       '(account, _) ← on_journal (load_account caller_addr);
       if info_balance account <? tx_value then
         sm_fail (Transaction (EthInvalidTransaction
           (LackOfFundForMaxFee tx_value (info_balance account))))
       else mret tt
     else mret tt);;
    entry ← sm_read (λ e,
      map_err Database (load keccak256 (db_storage (journal e)) token_id));
    entry ← tx_try (ok_or entry (TokenNotRegistered token_id));
    token_registry_entry ← tx_try (ensure_usable entry token_id);
    if is_fee_charge_disabled cfg then
      if negb (TxMorph.is_create (kind (inner tx))) then
        on_journal (load_account caller_addr);; mod_journal (bump_nonce caller_addr)
      else mret tt
    else
      token_fee_info ← load_token_fee_info token_registry_entry caller_addr;
      l1_data_fee ← fetch_l1_data_fee;
      let l2_gas_fee := saturating_mul u256_max (gas_limit (inner tx)) gas_price_now in
      let total_eth_fee := saturating_add u256_max l2_gas_fee l1_data_fee in
      let '(token_amount_required, alt_fee_rounding_credit) :=
        eth_to_token_amount_with_credit token_fee_info total_eth_fee in
      let fee_limit := effective_fee_limit token_fee_info (default 0 (fee_limit tx)) in
      if fee_limit <? token_amount_required then
        sm_fail (Transaction (InsufficientTokenBalance token_amount_required fee_limit))
      else
        (if token_amount_required =? 0 then mret tt
         else match balance_slot token_fee_info with
         | Some balance_slot =>
             '(from_storage_slot, to_storage_slot) ← with_journal
               (transfer_erc20_with_slot keccak256 caller_addr (beneficiary block)
                  (token_address token_fee_info) token_amount_required balance_slot);
             mod_journal (λ j,
               mark_slot_cold (token_address token_fee_info) to_storage_slot
                 (mark_slot_cold (token_address token_fee_info) from_storage_slot
                    (mark_account_cold (token_address token_fee_info) j)))
         | None =>
             pre_fee_refund ← transfer_erc20_with_evm caller_addr (beneficiary block)
               (token_address token_fee_info) token_amount_required
               (Some (balance token_fee_info));
             sm_modify (set_pre_fee_refund pre_fee_refund)
         end);;
        (if bool_decide (balance_slot token_fee_info = None) then
           sm_modify (λ e, set_fee_logs (journal_logs (journal e)) (post_fee_logs e) e);;
           mod_journal (set_journal_logs []);;
           mod_journal (λ j, let '(j, state) := finalize j in
                             extend_state (mark_state_cold state) j)
         else mret tt);;
        (if negb (TxMorph.is_create (kind (inner tx))) then
           on_journal (load_account caller_addr);; mod_journal (bump_nonce caller_addr)
         else mret tt);;
        sm_modify (set_caches (Some token_fee_info) alt_fee_rounding_credit l1_data_fee).

Definition reimburse_caller_token_fee (gas : G) : M unit :=
  let caller := TxEnv.caller (inner tx) in
  let refunded := Z.max (refunded gas) 0 in
  let reimburse_eth := saturating_mul u128_max gas_price_now
    (saturating_add u64_max (remaining gas) refunded) in
  if reimburse_eth =? 0 then mret tt
  else
    info ← sm_get cached_token_fee_info;
    token_fee_info ← tx_try (ok_or info (TokenTransferFailed
      "cached_token_fee_info not set by validate_and_deduct_token_fee"%string));
    credit ← sm_get cached_alt_fee_rounding_credit;
    let token_amount_required :=
      if is_celadon (spec cfg)
      then eth_to_token_amount_floor token_fee_info reimburse_eth credit
      else eth_to_token_amount token_fee_info reimburse_eth in
    if token_amount_required =? 0 then mret tt
    else λ e,
      let '(e, refund_result) :=
        match balance_slot token_fee_info with
        | Some balance_slot =>
            (with_journal (transfer_erc20_with_slot keccak256 (beneficiary block) caller
               (token_address token_fee_info) token_amount_required balance_slot);; mret tt) e
        | None =>
            let log_count_before := length (journal_logs (journal e)) in
            let '(e, result) := transfer_erc20_with_evm (beneficiary block) caller
              (token_address token_fee_info) token_amount_required None e in
            let refund_logs := drop log_count_before (journal_logs (journal e)) in
            let e := set_journal (set_journal_logs
              (take log_count_before (journal_logs (journal e))) (journal e)) e in
            (set_fee_logs (pre_fee_logs e) refund_logs e, let? _ := result in Ok tt)
        end in
      match refund_result with
      | Err (Database err) => (e, Err (Database err))
      | _ => (e, Ok tt)
      end.

(** *** The phases revm calls *)

Definition validate_against_state_and_deduct_caller : M unit :=
  sm_modify (λ e, set_fee_logs [] []
    (set_pre_fee_refund 0 (set_caches None 0 0 e)));;
  if is_l1_msg tx then
    on_journal (load_account (TxEnv.caller (inner tx)));;
    bump_nonce_if_call
  else if is_morph_tx tx then
    if 0 <? token_id then validate_and_deduct_token_fee token_id
    else validate_and_deduct_eth_fee
  else validate_and_deduct_eth_fee.

Definition reimburse_caller (gas : G) : M unit :=
  if is_l1_msg tx then mret tt
  else if is_morph_tx tx then
    if 0 <? token_id then
      info ← sm_get cached_token_fee_info;
      match info with
      | None => mret tt
      | Some _ => reimburse_caller_token_fee gas
      end
    else on_journal (reimburse_caller_revm gas)
  else on_journal (reimburse_caller_revm gas).

Definition refund (e : evm) (gas : G) (eip7702_refund : Z) : G :=
  if is_l1_msg tx then set_refund 0 gas
  else refund_revm (record_refund (pre_fee_refund e) gas) eip7702_refund.

Definition reward_beneficiary (gas : G) : M unit :=
  l1_data_fee ← sm_get cached_l1_data_fee;
  if is_l1_msg tx || (is_morph_tx tx && (0 <? token_id)) then mret tt
  else
    let execution_fee := saturating_mul u256_max gas_price_now (used gas) in
    on_journal (load_account (beneficiary block));;
    mod_journal (incr_balance (beneficiary block)
      (saturating_add u256_max execution_fee l1_data_fee)).
End Handler.

(** ** Lemmas *)

(** Takes apart a run that succeeded. *)
Ltac sm_inv H :=
  let s := fresh "s" in let a := fresh "a" in let H1 := fresh "Hrun" in
  apply sm_bind_Ok in H as (s & a & H1 & H).

Section SlotLemmas.
Context {J Er Code Log St CP : Type} `{JournalLaws J Er Code Log St CP}.
Context (keccak256 : bytes → Z).
Abbreviation error := (EVMError Er InvalidTransaction).

(** A computation that only reads and writes storage. *)
Definition storage_only {E A} (f : sm J E A) : Prop := ∀ j, rtc storage_step j (f j).1.

Lemma storage_only_ret {E A} (a : A) : storage_only (E := E) (mret a).
Proof. intros j. apply rtc_refl. Qed.

Lemma storage_only_lift {E A} (r : result A E) : storage_only (sm_lift r).
Proof. intros j. apply rtc_refl. Qed.

Lemma storage_only_sload a k : storage_only (db (sload a k)).
Proof.
  intros j. unfold db, sm_map_err. pose proof (step_sload a k j) as Hs.
  destruct (sload a k j). by apply rtc_once.
Qed.

Lemma storage_only_sstore a k v : storage_only (db (sstore a k v)).
Proof.
  intros j. unfold db, sm_map_err. pose proof (step_sstore a k v j) as Hs.
  destruct (sstore a k v j). by apply rtc_once.
Qed.

Lemma storage_only_bind {E A B} (c : sm J E A) (k : A → sm J E B) :
  storage_only c → (∀ a, storage_only (k a)) → storage_only (c ≫= k).
Proof.
  intros Hc Hk j. unfold mbind, sm_bind. specialize (Hc j).
  destruct (c j) as [j1 [a|e]]; [|done]. cbn in Hc. by etrans; [|apply Hk].
Qed.

(** A failed run inside a checkpoint shows no change. *)
Lemma checkpoint_Err {E A} (f : sm J E A) j j' e :
  storage_only f → with_journal_checkpoint f j = (j', Err e) → same_view j' j.
Proof.
  intros Hf. unfold with_journal_checkpoint. destruct (checkpoint j) as [j1 cp] eqn:Hc.
  specialize (Hf j1). destruct (f j1) as [j2 [a|e']]; [done|]. intros [= <- _].
  by eapply revert_view.
Qed.

Lemma checkpoint_Ok {E A} (f : sm J E A) j j' a :
  with_journal_checkpoint f j = (j', Ok a) →
  ∃ j1 j2, same_view j1 j ∧ f j1 = (j2, Ok a) ∧ same_view j' j2.
Proof.
  unfold with_journal_checkpoint. pose proof (checkpoint_view j) as Hv.
  destruct (checkpoint j) as [j1 cp]. destruct (f j1) as [j2 [a'|e]] eqn:Hf; [|done].
  intros [= <- <-]. exists j1, j2. split; [done|]. split; [done|apply commit_view].
Qed.

Lemma db_Ok {A} (c : sm J Er A) j j' a : db c j = (j', Ok a) → c j = (j', Ok a).
Proof. unfold db, sm_map_err. destruct (c j) as [? [?|?]]; by intros [= <- <-]. Qed.

Lemma db_Err {A} (c : sm J Er A) j j' e : db c j = (j', Err e) → ∃ x, e = Database x.
Proof. unfold db, sm_map_err. destruct (c j) as [? [?|x]]; intros [= <- <-]. by exists x. Qed.

Lemma checkpoint_Err_run {E A} (f : sm J E A) j j' e :
  with_journal_checkpoint f j = (j', Err e) → ∃ j1 j2, same_view j1 j ∧ f j1 = (j2, Err e).
Proof.
  unfold with_journal_checkpoint. pose proof (checkpoint_view j) as Hv.
  destruct (checkpoint j) as [j1 cp]. destruct (f j1) as [j2 [a'|e']] eqn:Hf; [done|].
  intros [= _ <-]. by exists j1, j2.
Qed.

Lemma db_sload_Ok a k j j' v :
  db (sload a k) j = (j', Ok v) → v = slot_of j a k ∧ same_view j' j.
Proof.
  intros Hr%db_Ok. split; [by eapply sload_value|].
  pose proof (sload_view a k j) as Hv. by rewrite Hr in Hv.
Qed.

Lemma db_sstore_Ok a k v j j' : db (sstore a k v) j = (j', Ok tt) → slot_written a k v j j'.
Proof. intros Hr%db_Ok. by apply sstore_Ok. Qed.

(** Loading and touching the token before a transfer shows no change. *)
Lemma prepared_view {B} token (k : sm J error B) j j' r :
  (db (load_account token);; (sm_modify (touch token);; k)) j = (j', r) →
  (∃ e, r = Err (Database e) ∧ same_view j' j) ∨ ∃ j1, same_view j1 j ∧ k j1 = (j', r).
Proof.
  unfold mbind, sm_bind, db, sm_map_err, sm_modify.
  pose proof (load_account_view token j) as Hv.
  destruct (load_account token j) as [j1 [[i c]|e]]; cbn in *.
  - intros Hk. right. exists (touch token j1). split; [|done]. etrans; [apply touch_view|done].
  - intros [= <- <-]. left. by exists e.
Qed.
End SlotLemmas.

(** The outcome of a transfer of [amount] from slot [fs] to slot [ts] of a token. *)
Definition transferred {J Er Code Log St CP} `{JournalOps J Er Code Log St CP}
    (token : Address) (fs ts amount : Z) (j j' : J) : Prop :=
  (∀ b, balance_of j' b = balance_of j b)
  ∧ slot_of j' token fs = slot_of j token fs - (if fs =? ts then 0 else amount)
  ∧ slot_of j' token ts = slot_of j token ts + (if fs =? ts then 0 else amount)
  ∧ (∀ b k, (b, k) ≠ (token, fs) → (b, k) ≠ (token, ts) → slot_of j' b k = slot_of j b k).

Section TransferLemmas.
Context {J Er Code Log St CP : Type} `{JournalLaws J Er Code Log St CP}.
Context (keccak256 : bytes → Z).
Abbreviation error := (EVMError Er InvalidTransaction).
Abbreviation slot_for := (compute_mapping_slot_for_address keccak256).

#[global] Instance transferred_proper token fs ts amount :
  Proper (same_view ==> same_view ==> iff) (transferred token fs ts amount).
Proof.
  intros j1 j2 (Hb & Hn & Hs) k1 k2 (Hb' & Hn' & Hs'). unfold transferred.
  setoid_rewrite Hb. setoid_rewrite Hs. setoid_rewrite Hb'. setoid_rewrite Hs'. done.
Qed.

(** Two writes make a transfer. *)
Lemma two_writes token fs ts amount j j1 j2 :
  fs ≠ ts →
  slot_written token fs (slot_of j token fs - amount) j j1 →
  slot_written token ts (slot_of j token ts + amount) j1 j2 →
  transferred token fs ts amount j j2.
Proof.
  intros Hne (Hb1 & Hn1 & Hw1 & Ho1) (Hb2 & Hn2 & Hw2 & Ho2). unfold transferred.
  assert ((token, fs) ≠ (token, ts)) by (by intros [= ]).
  destruct (Z.eqb_spec fs ts); [done|]. split_and!.
  - intros b. by rewrite Hb2.
  - by rewrite Ho2.
  - done.
  - intros b k Hf Ht. by rewrite Ho2, Ho1.
Qed.

Lemma transfer_Err from to token amount bs j j' e :
  transfer_erc20_with_slot keccak256 from to token amount bs j = (j', Err e) → same_view j' j.
Proof.
  intros [(? & _ & Hv)|(j1 & Hv & Hc)]%prepared_view; [done|].
  rewrite <-Hv. eapply checkpoint_Err; [|done]. cbv zeta.
  repeat first [apply storage_only_bind; [|intros ?] | apply storage_only_sload
    | apply storage_only_sstore | apply storage_only_lift | apply storage_only_ret
    | case_match].
Qed.

Lemma transfer_Ok from to token amount bs j j' p :
  transfer_erc20_with_slot keccak256 from to token amount bs j = (j', Ok p) →
  let fs := slot_for bs from in
  let ts := slot_for bs to in
  p = (fs, ts) ∧ amount ≤ slot_of j token fs
  ∧ (fs ≠ ts → slot_of j token ts + amount ≤ u256_max)
  ∧ transferred token fs ts amount j j'.
Proof.
  cbv zeta. intros [(? & [=] & _)|(j1 & Hv & Hc)]%prepared_view.
  apply checkpoint_Ok in Hc as (j2 & j3 & Hv2 & Hf & Hv3). cbv zeta in Hf.
  set (fs := slot_for bs from) in *. set (ts := slot_for bs to) in *.
  sm_inv Hf. apply db_sload_Ok in Hrun as [-> Hs1].
  sm_inv Hf. injection Hrun as <- [-> Hle]%ok_or_Ok%checked_sub_Some.
  rewrite Hv2, Hv in Hle. split; [destruct (fs =? ts); [by injection Hf|]|].
  { do 4 sm_inv Hf. by injection Hf. }
  split; [done|]. destruct (Z.eqb_spec fs ts) as [Heq|Hne].
  - injection Hf as <- <-. split; [done|]. rewrite Hv3, Hs1, Hv2, Hv, Heq.
    unfold transferred. rewrite Z.eqb_refl. split_and!; done || lia.
  - sm_inv Hf. apply db_sload_Ok in Hrun as [-> Hs2].
    sm_inv Hf. injection Hrun as <- [-> Hle2]%ok_or_Ok%checked_add_Some.
    sm_inv Hf. destruct a. apply db_sstore_Ok in Hrun.
    sm_inv Hf. destruct a. apply db_sstore_Ok in Hrun0. injection Hf as <- _.
    assert (slot_of j2 token fs = slot_of s0 token fs) as E1 by (by rewrite Hs2, Hs1).
    assert (slot_of s token ts = slot_of s0 token ts) as E2 by (by rewrite Hs2).
    rewrite E1 in Hrun. rewrite E2 in Hrun0.
    rewrite Hs1, Hv2, Hv in Hle2. split; [done|]. rewrite Hv3.
    assert (same_view s0 j) as <- by (by rewrite Hs2, Hs1, Hv2). by eapply two_writes.
Qed.

(** The ways a slot transfer fails. *)
Lemma transfer_Err_cause from to token amount bs j j' e :
  transfer_erc20_with_slot keccak256 from to token amount bs j = (j', Err e) →
  (∃ x, e = Database x) ∨ slot_of j token (slot_for bs from) < amount
  ∨ u256_max < slot_of j token (slot_for bs to) + amount.
Proof.
  intros [(x & [= ->] & _)|(j1 & Hv & Hc)]%prepared_view; [by left; exists x|].
  apply checkpoint_Err_run in Hc as (j2 & j3 & Hv2 & Hf). cbv zeta in Hf.
  apply sm_bind_Err in Hf as [Hf|(j4 & b & [-> Hs1]%db_sload_Ok & Hf)];
    [left; by eapply db_Err|].
  apply sm_bind_Err in Hf as [Hf|(? & nb & [= <- _] & Hf)].
  { right. left. unfold sm_lift, checked_sub in Hf. rewrite <-Hv, <-Hv2.
    destruct (Z.leb_spec amount (slot_of j2 token (slot_for bs from))); [by injection Hf|lia]. }
  destruct (_ =? _); [by injection Hf|].
  apply sm_bind_Err in Hf as [Hf|(j5 & c & [-> Hs2]%db_sload_Ok & Hf)];
    [left; by eapply db_Err|].
  apply sm_bind_Err in Hf as [Hf|(? & nc & [= <- _] & Hf)].
  { right. right. unfold sm_lift, checked_add in Hf. rewrite <-Hv, <-Hv2, <-Hs1.
    destruct (Z.leb_spec (slot_of j4 token (slot_for bs to) + amount) u256_max);
      [by injection Hf|lia]. }
  left. apply sm_bind_Err in Hf as [Hf|(? & ? & _ & Hf)]; [by eapply db_Err|].
  apply sm_bind_Err in Hf as [Hf|(? & ? & _ & Hf)]; [by eapply db_Err|by injection Hf].
Qed.
End TransferLemmas.
