(* ===== verification/FeeSafety.v ===== *)
(** * What the fee handler guarantees

    Theorems about [FeeHandler]: the exact ETH charge and the conservation of ETH
    fees over a transaction, token transfers between storage slots, the exact net
    token charge from Celadon on, refunds that cannot fail a transaction, L1
    messages that pay nothing, and independence from the previous transaction's
    caches. *)

From S2P Require Import Prelude Hardfork Rlp MorphTx Envelope L1Fee TxEnv TokenFee Journal.
From S2P Require Import FeeHandler.

(** ** Shared assumptions *)

(** The transaction's integers are in their widths. *)
Record env_ok {AL SA RA} (tx : MorphTxEnv AL SA RA) : Prop := {
  env_gas_limit : is_u64 (gas_limit (inner tx));
  env_value : is_u256 (value (inner tx));
  env_max_fee : is_u128 (max_fee_per_gas tx);
  env_priority : is_u128 (default 0 (gas_priority_fee (inner tx)));
}.

(** revm's [Transaction] defaults: the effective price is capped by the maximum
    price, and the effective spending is gas at that price plus the value. *)
Record revm_tx_laws {AL SA RA} (price : MorphTxEnv AL SA RA → Z → Z)
    (spending : MorphTxEnv AL SA RA → Z → Z → result Z InvalidTransaction) : Prop := {
  price_capped tx b : env_ok tx → 0 ≤ b → 0 ≤ price tx b ≤ max_fee_per_gas tx;
  spending_exact tx b p s :
    spending tx b p = Ok s →
    s = gas_limit (inner tx) * price tx b + value (inner tx) ∧ s ≤ u256_max;
}.

Section Runs.
Context {J Er Code Log St CP : Type} `{JournalLaws J Er Code Log St CP}.
Abbreviation evm := (MorphEvm J Er Log).
Abbreviation error := (EVMError Er InvalidTransaction).

Lemma on_journal_Ok {A} (c : sm J Er A) (e e' : evm) a :
  on_journal c e = (e', Ok a) →
  ∃ j', c (journal e) = (j', Ok a) ∧ e' = set_journal j' e.
Proof.
  unfold on_journal. destruct (c (journal e)) as [j' [a'|x]]; intros [= <- <-].
  by exists j'.
Qed.

Lemma with_journal_Ok {A} (c : sm J error A) (e e' : evm) a :
  with_journal c e = (e', Ok a) →
  ∃ j', c (journal e) = (j', Ok a) ∧ e' = set_journal j' e.
Proof.
  unfold with_journal. destruct (c (journal e)) as [j' [a'|x]]; intros [= <- <-].
  by exists j'.
Qed.

Lemma load_account_Ok a (e e' : evm) i c :
  on_journal (load_account a) e = (e', Ok (i, c)) →
  ∃ j', e' = set_journal j' e ∧ same_view j' (journal e)
        ∧ info_balance i = balance_of (journal e) a.
Proof.
  intros (j' & Hl & ->)%on_journal_Ok. exists j'. split; [done|].
  pose proof (load_account_view a (journal e)) as Hv. rewrite Hl in Hv.
  split; [done|]. by apply load_account_info in Hl as [? _].
Qed.

Lemma tx_try_Ok {A} (r : result A _) (e e' : evm) a :
  tx_try r e = (e', Ok a) → r = Ok a ∧ e' = e.
Proof. unfold tx_try, sm_lift. destruct r; by intros [= <- <-]. Qed.

Lemma eth_try_Ok {A} (r : result A _) (e e' : evm) a :
  eth_try r e = (e', Ok a) → r = Ok a ∧ e' = e.
Proof. intros [Hr ->]%tx_try_Ok. by apply map_err_Ok in Hr. Qed.

Context {AL SA RA : Type} (tx : MorphTxEnv AL SA RA) (cfg : Cfg).

Lemma fetch_l1_Ok (e e' : evm) l1 :
  fetch_l1_data_fee tx cfg e = (e', Ok l1) → e' = e ∧ 0 ≤ l1 ≤ u64_max.
Proof.
  unfold fetch_l1_data_fee. intros Hf. sm_inv Hf. injection Hrun as <- Hr%map_err_Ok.
  injection Hf as <- <-. split; [done|]. eapply l1_cost_range; [|done].
  intros. by eapply db_storage_u256.
Qed.

(** Bumping the sender's nonce moves no funds. *)
Lemma bump_nonce_if_call_Ok (e e' : evm) :
  bump_nonce_if_call tx e = (e', Ok tt) →
  ∃ j', e' = set_journal j' e
    ∧ (∀ b, balance_of j' b = balance_of (journal e) b)
    ∧ (∀ b k, slot_of j' b k = slot_of (journal e) b k)
    ∧ (nonce_of (journal e) (TxEnv.caller (inner tx)) < u64_max → ∀ b,
       nonce_of j' b = nonce_of (journal e) b
         + (if negb (TxMorph.is_create (kind (inner tx))) && (b =? TxEnv.caller (inner tx))
            then 1 else 0)).
Proof.
  unfold bump_nonce_if_call. destruct (TxMorph.is_create _); cbn [negb andb].
  - intros [= <-]. exists (journal e). split; [by destruct e|]. split_and!; try done.
    intros. lia.
  - intros [= <-]. eexists. split; [done|]. split_and!.
    + apply bump_nonce_balance.
    + apply bump_nonce_slot.
    + intros Hn b. by apply bump_nonce_nonce.
Qed.
End Runs.

(** ** Fees in ETH *)

Section EthFees.
Context {J Er Code Log St CP G : Type} `{JournalLaws J Er Code Log St CP} `{GasOps G}.
Context {AL SA RA : Type}.
Context (price : MorphTxEnv AL SA RA → Z → Z).
Context (spending : MorphTxEnv AL SA RA → Z → Z → result Z InvalidTransaction).
Context (check_account : AccountInfo Code → Z → bool → bool → result unit InvalidTransaction).
Context (tx : MorphTxEnv AL SA RA) (block : BlockEnv) (cfg : Cfg).
Abbreviation evm := (MorphEvm J Er Log).
Abbreviation sender := (TxEnv.caller (inner tx)).

(** What the transaction prepays for its gas. *)
Definition prepaid : Z := gas_limit (inner tx) * price tx (basefee block).

Lemma caller_fee_Ok bal l1 nb :
  revm_tx_laws price spending → env_ok tx → 0 ≤ basefee block → 0 ≤ l1 ≤ u64_max →
  is_fee_charge_disabled cfg = false → is_balance_check_disabled cfg = false →
  calculate_caller_fee_with_l1_cost spending tx block cfg bal l1 = Ok nb →
  nb = bal - (prepaid + l1) ∧ value (inner tx) ≤ nb.
Proof.
  intros [Hp Hs] Hok Hb Hl Hc Hbc. specialize (Hp tx (basefee block) Hok Hb).
  destruct Hok as [Hg Hv Hm _]. unfold calculate_caller_fee_with_l1_cost.
  rewrite Hc, Hbc. cbn [negb]. rewrite bind_unit_Ok, !bind_Ok.
  intros [(mgs & [-> Hmul]%ok_or_Ok%checked_mul_Some & Hms) (s & Hsp & Hnb)].
  apply bind_Ok in Hms as (ms & Hms%ok_or_Ok & [Hle _]%reject_Ok).
  apply bind_Some in Hms as (v & [-> Hv1]%checked_add_Some & [-> Hv2]%checked_add_Some).
  apply Hs in Hsp as [-> Hsb]. bool_simp. injection Hnb as <-. unfold prepaid.
  unfold in_range in *.
  assert (gas_limit (inner tx) * price tx (basefee block)
    ≤ gas_limit (inner tx) * max_fee_per_gas tx) by (apply Z.mul_le_mono_nonneg_l; lia).
  assert (0 ≤ gas_limit (inner tx) * price tx (basefee block)) by nonneg.
  rewrite wrapping_sub_exact by lia. unfold saturating_sub, saturating_add. lia.
Qed.

(** The state after a successful deduction. *)
Lemma deduct_eth_Ok (e e' : evm) :
  revm_tx_laws price spending → env_ok tx → 0 ≤ basefee block →
  is_fee_charge_disabled cfg = false → is_balance_check_disabled cfg = false →
  validate_and_deduct_eth_fee spending check_account tx block cfg e = (e', Ok tt) →
  let l1 := cached_l1_data_fee e' in
  let j := journal e in let j' := journal e' in
  0 ≤ l1 ≤ u64_max
  ∧ balance_of j' sender = balance_of j sender - (prepaid + l1)
  ∧ value (inner tx) ≤ balance_of j' sender
  ∧ (∀ b, b ≠ sender → balance_of j' b = balance_of j b)
  ∧ (∀ b k, slot_of j' b k = slot_of j b k).
Proof.
  intros Hlaws Hok Hbf Hc Hbc Hrun. cbv zeta. unfold validate_and_deduct_eth_fee in Hrun.
  sm_inv Hrun. apply fetch_l1_Ok in Hrun0 as [-> Hl].
  sm_inv Hrun. injection Hrun0 as <- <-.
  sm_inv Hrun. destruct a0 as [i c]. apply load_account_Ok in Hrun0 as (j1 & -> & Hv & Hi).
  sm_inv Hrun. apply eth_try_Ok in Hrun0 as [_ ->].
  sm_inv Hrun. apply eth_try_Ok in Hrun0 as [Hfee ->].
  sm_inv Hrun. injection Hrun0 as <- <-.
  apply bump_nonce_if_call_Ok in Hrun as (j2 & -> & Hb2 & Hs2 & _).
  rewrite Hi in Hfee. apply caller_fee_Ok in Hfee as [-> Hval]; try done. cbn in *.
  split; [done|]. split_and!.
  - by rewrite Hb2, set_balance_balance, Z.eqb_refl.
  - by rewrite Hb2, set_balance_balance, Z.eqb_refl.
  - intros b Hne. rewrite Hb2, set_balance_balance.
    destruct (Z.eqb_spec b sender); [done|]. by rewrite Hv.
  - intros b k. by rewrite Hs2, set_balance_slot, Hv.
Qed.

(** revm's reimbursement: the sender gets the unused gas back at the effective
    price. *)
Definition reimburses (reimburse_revm : G → sm J Er unit) : Prop :=
  ∀ g j j', reimburse_revm g j = (j', Ok tt) →
    let back := price tx (basefee block) * (remaining g + refunded g) in
    balance_of j sender + back ≤ u256_max →
    ∀ b, balance_of j' b = balance_of j b + (if b =? sender then back else 0).

(** The gas meter at the end of a transaction. *)
Definition gas_settled (g : G) : Prop :=
  0 ≤ remaining g ∧ 0 ≤ refunded g ∧ 0 ≤ used g
  ∧ used g + remaining g + refunded g = gas_limit (inner tx).

Lemma reward_Ok g (e e' : evm) :
  is_l1_msg tx = false → (is_morph_tx tx && (0 <? token_id tx)) = false →
  env_ok tx → revm_tx_laws price spending → 0 ≤ basefee block → gas_settled g →
  0 ≤ cached_l1_data_fee e ≤ u64_max →
  let reward := price tx (basefee block) * used g + cached_l1_data_fee e in
  balance_of (journal e) (beneficiary block) + reward ≤ u256_max →
  reward_beneficiary price tx block g e = (e', Ok tt) →
  ∀ b, balance_of (journal e') b
       = balance_of (journal e) b + (if b =? beneficiary block then reward else 0).
Proof.
  cbv zeta. intros Hl Hm Hok [Hp _] Hbf (Hr & Hf & Hu & Hs) Hc Hov Hrun b.
  destruct (Hp tx (basefee block) Hok Hbf) as [Hp0 Hpm]. destruct Hok as [Hg _ Hmf _].
  assert (price tx (basefee block) * used g ≤ u128_max * u64_max) as Hmul
    by (unfold in_range in *; apply Z.mul_le_mono_nonneg; lia).
  assert (0 ≤ price tx (basefee block) * used g) by nonneg.
  assert (u128_max * u64_max + u64_max ≤ u256_max) by (vm_compute; discriminate).
  unfold reward_beneficiary in Hrun. sm_inv Hrun. injection Hrun0 as <- <-.
  rewrite Hl, Hm in Hrun. cbn [orb] in Hrun. sm_inv Hrun. destruct a as [i c].
  apply load_account_Ok in Hrun0 as (j1 & -> & Hv & _). injection Hrun as <-. cbn.
  unfold gas_price_now. rewrite saturating_mul_exact by lia.
  rewrite saturating_add_exact by lia.
  rewrite incr_balance_balance, Hv by (rewrite Hv; lia). done.
Qed.
End EthFees.

(** ** Fees in tokens *)

Section TokenFees.
Context {J Er Code Log St CP G : Type} `{JournalLaws J Er Code Log St CP} `{GasOps G}.
Context {AL SA RA : Type} (keccak256 : bytes → Z).
Context (price : MorphTxEnv AL SA RA → Z → Z).
Context (check_account : AccountInfo Code → Z → bool → bool → result unit InvalidTransaction).
Abbreviation evm := (MorphEvm J Er Log).
Abbreviation error := (EVMError Er InvalidTransaction).
Context (run_exec_loop : FrameInit Code → sm evm error FrameResult).
Context (eip7702_address : Code → option Address).
Context (tx : MorphTxEnv AL SA RA) (block : BlockEnv) (cfg : Cfg).
Abbreviation sender := (TxEnv.caller (inner tx)).
Abbreviation slot_for := (compute_mapping_slot_for_address keccak256).

(** The journal has no storage writes of its own yet: what it shows is what the
    database holds. *)
Definition fresh_storage (j : J) : Prop :=
  ∀ a k v, db_storage j a k = Ok v → v = slot_of j a k.

(** Loading an account changes neither the view nor the database. *)
Definition same_state (e e' : evm) : Prop :=
  same_view (journal e') (journal e)
  ∧ ∀ a k, db_storage (journal e') a k = db_storage (journal e) a k.

Lemma load_account_same a (e e' : evm) x :
  on_journal (load_account a) e = (e', Ok x) → same_state e e'.
Proof.
  intros (j' & Hl & ->)%on_journal_Ok. split; cbn.
  - pose proof (load_account_view a (journal e)) as Hv. by rewrite Hl in Hv.
  - intros b k. pose proof (load_account_db a (journal e) b k) as Hd. by rewrite Hl in Hd.
Qed.

Lemma same_state_trans (e1 e2 e3 : evm) : same_state e1 e2 → same_state e2 e3 → same_state e1 e3.
Proof. intros [Hv Hd] [Hv' Hd']. split; [by etrans|]. intros. by rewrite Hd'. Qed.

(** The last step: bump the nonce of a call. *)
Lemma bump_for_call_Ok (e e' : evm) x :
  (if negb (TxMorph.is_create (kind (inner tx))) then
     on_journal (load_account sender);; mod_journal (bump_nonce sender)
   else mret tt) e = (e', Ok x) →
  ∃ j', e' = set_journal j' e
    ∧ (∀ b, balance_of j' b = balance_of (journal e) b)
    ∧ (∀ b k, slot_of j' b k = slot_of (journal e) b k).
Proof.
  destruct (negb _); [|intros [= <- _]; exists (journal e); by destruct e].
  intros Hrun. sm_inv Hrun. apply on_journal_Ok in Hrun0 as (j1 & Hl & ->).
  pose proof (load_account_view sender (journal e)) as (Hb & _ & Hs). rewrite Hl in Hb, Hs.
  injection Hrun as <- _. eexists. split; [done|]. cbn. split.
  - intros b. by rewrite bump_nonce_balance.
  - intros b k. by rewrite bump_nonce_slot.
Qed.

(** The token transfer of the deduction, in slot mode. *)
Lemma slot_deduction_Ok (e e' : evm) x from to token amount bs :
  ('(from_storage_slot, to_storage_slot) ← with_journal
     (transfer_erc20_with_slot keccak256 from to token amount bs);
   mod_journal (λ j, mark_slot_cold token to_storage_slot
     (mark_slot_cold token from_storage_slot (mark_account_cold token j)))) e = (e', Ok x) →
  ∃ j', e' = set_journal j' e
    ∧ amount ≤ slot_of (journal e) token (slot_for bs from)
    ∧ transferred token (slot_for bs from) (slot_for bs to) amount (journal e) j'.
Proof.
  intros Hrun. sm_inv Hrun. destruct a as [fs ts].
  apply with_journal_Ok in Hrun0 as (j1 & Ht & ->).
  apply transfer_Ok in Ht as ([= -> ->] & Hle & _ & Ht). injection Hrun as <- _.
  eexists. split; [done|]. split; [done|]. cbn.
  by rewrite cold_slot_view, cold_slot_view, cold_account_view.
Qed.

Lemma transferred_zero token fs ts j (j' : J) :
  (∀ b, balance_of j' b = balance_of j b) → (∀ b k, slot_of j' b k = slot_of j b k) →
  transferred token fs ts 0 j j'.
Proof.
  intros Hb Hs. unfold transferred. rewrite !Hs. case_match; split_and!; try done; try lia;
    intros; apply Hs.
Qed.

Lemma transferred_view token fs ts amount (j j1 j' : J) :
  transferred token fs ts amount j j1 →
  (∀ b, balance_of j' b = balance_of j1 b) → (∀ b k, slot_of j' b k = slot_of j1 b k) →
  transferred token fs ts amount j j'.
Proof.
  intros (Hb & Hf & Ht & Ho) Hb' Hs'. unfold transferred. rewrite !Hs'.
  split_and!; try done; intros; [by rewrite Hb'|by rewrite Hs', Ho].
Qed.

(** The checks before the token's metadata is read change nothing. *)
Lemma value_check_same (e e' : evm) x :
  (if negb (is_fee_charge_disabled cfg) && negb (value (inner tx) =? 0) then
     '(account, _) ← on_journal (load_account sender);
     if info_balance account <? value (inner tx) then
       sm_fail (Transaction (EthInvalidTransaction
         (LackOfFundForMaxFee (value (inner tx)) (info_balance account))))
     else mret tt
   else mret tt) e = (e', Ok x) → same_state e e'.
Proof.
  destruct (_ && _); [|by intros [= <- _]].
  intros Hrun. sm_inv Hrun. destruct a as [i c]. apply load_account_same in Hrun0.
  destruct (_ <? _); [done|]. by injection Hrun as <- _.
Qed.

(** What is known after a slot-mode deduction of [amount] for the fee [P]. *)
Definition deducted (entry : TokenRegistryEntry) (bs amount credit : Z) (e e' : evm) : Prop :=
  let fs := slot_for bs sender in
  let info := into_fee_info entry sender (slot_of (journal e) (e_token_address entry) fs) in
  let P := prepaid price tx block + cached_l1_data_fee e' in
  eth_to_token_amount_with_credit info P = (amount, credit)
  ∧ cached_token_fee_info e' = Some info
  ∧ cached_alt_fee_rounding_credit e' = credit
  ∧ 0 ≤ cached_l1_data_fee e' ≤ u64_max
  ∧ (e_is_active entry = true ∧ e_price_ratio entry ≠ 0 ∧ e_scale entry ≠ 0)
  ∧ amount ≤ slot_of (journal e) (e_token_address entry) fs
  ∧ (default 0 (fee_limit tx) ≠ 0 → amount ≤ default 0 (fee_limit tx))
  ∧ transferred (e_token_address entry) fs (slot_for bs (beneficiary block)) amount
      (journal e) (journal e').

Lemma prepaid_fits l1 :
  is_u64 (gas_limit (inner tx)) → is_u128 (price tx (basefee block)) → 0 ≤ l1 ≤ u64_max →
  saturating_add u256_max
    (saturating_mul u256_max (gas_limit (inner tx)) (price tx (basefee block))) l1
  = prepaid price tx block + l1.
Proof.
  unfold in_range, prepaid. intros Hg Hp Hl.
  assert (gas_limit (inner tx) * price tx (basefee block) ≤ u64_max * u128_max)
    by (apply Z.mul_le_mono_nonneg; lia).
  assert (u64_max * u128_max + u64_max ≤ u256_max) by (vm_compute; discriminate).
  rewrite saturating_mul_exact by lia. rewrite saturating_add_exact by lia. done.
Qed.

(** A slot-mode payment; a fee of zero units transfers nothing. *)
Lemma slot_payment_Ok (e e' : evm) x from to token amount bs :
  (if amount =? 0 then mret tt
   else '(from_storage_slot, to_storage_slot) ← with_journal
       (transfer_erc20_with_slot keccak256 from to token amount bs);
     mod_journal (λ j, mark_slot_cold token to_storage_slot
       (mark_slot_cold token from_storage_slot (mark_account_cold token j)))) e = (e', Ok x) →
  transferred token (slot_for bs from) (slot_for bs to) amount (journal e) (journal e').
Proof.
  destruct (Z.eqb_spec amount 0) as [->|].
  - intros [= <- _]. by apply transferred_zero.
  - by intros (j' & -> & _ & Ht)%slot_deduction_Ok.
Qed.

Lemma deduct_token_Ok tid entry bs (e e' : evm) :
  is_fee_charge_disabled cfg = false → fresh_storage (journal e) →
  is_u64 (gas_limit (inner tx)) → is_u128 (price tx (basefee block)) →
  load keccak256 (db_storage (journal e)) tid = Ok (Some entry) →
  e_balance_slot entry = Some bs →
  validate_and_deduct_token_fee keccak256 price check_account run_exec_loop eip7702_address
    tx block cfg tid e = (e', Ok tt) →
  ∃ amount credit, deducted entry bs amount credit e e'.
Proof.
  intros Hc Hfresh Hg Hp Hload Hbs. unfold validate_and_deduct_token_fee.
  destruct (tid =? 0); [done|]. cbv zeta. intros Hrun.
  sm_inv Hrun. destruct a as [i c]. apply load_account_same in Hrun0 as Hs1.
  sm_inv Hrun. apply eth_try_Ok in Hrun1 as [_ ->].
  sm_inv Hrun. apply value_check_same in Hrun1. pose proof (same_state_trans _ _ _ Hs1 Hrun1)
    as [Hv Hd]. clear Hs1 Hrun1 Hrun0.
  sm_inv Hrun. injection Hrun0 as <- Hl%map_err_Ok. rewrite (load_ext _ _ _ _ Hd), Hload in Hl.
  injection Hl as <-. sm_inv Hrun. apply tx_try_Ok in Hrun0 as [[= <-] ->].
  sm_inv Hrun. apply tx_try_Ok in Hrun0 as [(-> & Husable)%ensure_usable_Ok ->].
  rewrite Hc in Hrun. sm_inv Hrun. unfold load_token_fee_info in Hrun0. rewrite Hbs in Hrun0.
  sm_inv Hrun0. injection Hrun1 as <- Hbal%map_err_Ok. injection Hrun0 as <- <-.
  unfold read_balance_from_storage, read_mapping_value in Hbal. rewrite Hd in Hbal.
  apply Hfresh in Hbal as ->.
  sm_inv Hrun. apply fetch_l1_Ok in Hrun0 as [-> Hl1]. unfold gas_price_now in Hrun.
  rewrite prepaid_fits in Hrun by done.
  set (info := into_fee_info _ _ _) in *.
  destruct (eth_to_token_amount_with_credit info _) as [amount credit] eqn:Hamt.
  destruct (Z.ltb_spec (effective_fee_limit info (default 0 (fee_limit tx))) amount)
    as [|Hlim]; [done|].
  sm_inv Hrun. sm_inv Hrun. sm_inv Hrun. injection Hrun as <-.
  change (balance_slot info) with (e_balance_slot entry) in *. rewrite Hbs in *.
  injection Hrun1 as <- <-.
  apply bump_for_call_Ok in Hrun2 as (j2 & -> & Hb2 & Hs2).
  exists amount, credit. unfold deducted. cbv zeta. cbn [cached_l1_data_fee set_caches
    cached_token_fee_info cached_alt_fee_rounding_credit journal set_journal].
  assert (amount ≤ balance info ∧ (default 0 (fee_limit tx) ≠ 0 → amount ≤ default 0 (fee_limit tx)))
    as [Hle1 Hle2].
  { unfold effective_fee_limit in Hlim. destruct (Z.eqb_spec (default 0 (fee_limit tx)) 0); lia. }
  apply (slot_payment_Ok s0) in Hrun0. rewrite Hv in Hrun0.
  do 7 (split; [done|]). by eapply transferred_view.
Qed.

Abbreviation reimburse_token :=
  (reimburse_caller_token_fee keccak256 price run_exec_loop eip7702_address tx block cfg).

(** The ETH worth of the unused gas, and the token units handed back for it. *)
Definition unused_eth (g : G) : Z := price tx (basefee block) * (remaining g + refunded g).

Definition refund_units (info : TokenFeeInfo) (credit : Z) (g : G) : Z :=
  if is_celadon (spec cfg) then eth_to_token_amount_floor info (unused_eth g) credit
  else eth_to_token_amount info (unused_eth g).

Lemma unused_eth_fits g :
  gas_settled tx g → is_u64 (gas_limit (inner tx)) → 0 ≤ price tx (basefee block) →
  prepaid price tx block ≤ u128_max →
  saturating_mul u128_max (gas_price_now price tx block)
    (saturating_add u64_max (remaining g) (Z.max (refunded g) 0)) = unused_eth g
  ∧ 0 ≤ unused_eth g ≤ prepaid price tx block.
Proof.
  unfold gas_settled, in_range, prepaid, unused_eth, gas_price_now.
  intros (Hr & Hf & Hu & Hs) Hg Hp Hm. rewrite Z.max_l by done.
  rewrite saturating_add_exact by lia.
  assert (price tx (basefee block) * (remaining g + refunded g)
    ≤ price tx (basefee block) * gas_limit (inner tx)) by (apply Z.mul_le_mono_nonneg_l; lia).
  assert (0 ≤ price tx (basefee block) * (remaining g + refunded g)) by nonneg.
  rewrite saturating_mul_exact by lia. lia.
Qed.

(** A slot-mode refund that the beneficiary can pay. *)
Lemma reimburse_token_Ok info bs g (e e' : evm) :
  gas_settled tx g → is_u64 (gas_limit (inner tx)) → 0 ≤ price tx (basefee block) →
  prepaid price tx block ≤ u128_max →
  cached_token_fee_info e = Some info → balance_slot info = Some bs →
  let back := refund_units info (cached_alt_fee_rounding_credit e) g in
  (unused_eth g = 0 → back = 0) →
  back ≤ slot_of (journal e) (token_address info) (slot_for bs (beneficiary block)) →
  slot_of (journal e) (token_address info) (slot_for bs sender) + back ≤ u256_max →
  reimburse_token g e = (e', Ok tt) →
  transferred (token_address info) (slot_for bs (beneficiary block)) (slot_for bs sender) back
    (journal e) (journal e').
Proof.
  cbv zeta. intros Hg Hgl Hp Hm Hi Hbs H0' Hle Hov Hrun.
  destruct (unused_eth_fits g Hg Hgl Hp Hm) as [Heq _].
  unfold reimburse_caller_token_fee in Hrun. cbv zeta in Hrun. rewrite Heq in Hrun.
  destruct (Z.eqb_spec (unused_eth g) 0) as [Hz|Hnz].
  { injection Hrun as <-. rewrite (H0' Hz). by apply transferred_zero. }
  sm_inv Hrun. injection Hrun0 as <- <-. sm_inv Hrun. apply tx_try_Ok in Hrun0 as [Hok ->].
  rewrite Hi in Hok. injection Hok as <-. sm_inv Hrun. injection Hrun0 as <- <-.
  fold (refund_units info (cached_alt_fee_rounding_credit e) g) in Hrun.
  set (back := refund_units _ _ _) in *.
  destruct (Z.eqb_spec back 0) as [->|]; [injection Hrun as <-; by apply transferred_zero|].
  rewrite Hbs in Hrun. unfold mbind, sm_bind, with_journal in Hrun.
  destruct (transfer_erc20_with_slot _ _ _ _ _ _ _) as [j' [[x y]|err]] eqn:Ht.
  - injection Hrun as <-. by apply transfer_Ok in Ht as (_ & _ & _ & Ht).
  - apply transfer_Err_cause in Ht as [[d ->]|[Hlt|Hlt]]; [done|lia|lia].
Qed.
End TokenFees.

(** ** Theorems *)

Section Theorems.
Context {J Er Code Log St CP G : Type} `{JournalLaws J Er Code Log St CP} `{GasOps G}.
Context {AL SA RA : Type} (keccak256 : bytes → Z).
Context (price : MorphTxEnv AL SA RA → Z → Z).
Context (spending : MorphTxEnv AL SA RA → Z → Z → result Z InvalidTransaction).
Context (check_account : AccountInfo Code → Z → bool → bool → result unit InvalidTransaction).
Abbreviation evm := (MorphEvm J Er Log).
Abbreviation error := (EVMError Er InvalidTransaction).
Context (reimburse_revm : G → sm J Er unit).
Context (run_exec_loop : FrameInit Code → sm evm error FrameResult).
Context (eip7702_address : Code → option Address).
Context (tx : MorphTxEnv AL SA RA) (block : BlockEnv) (cfg : Cfg).
Abbreviation sender := (TxEnv.caller (inner tx)).
Abbreviation deduct :=
  (validate_against_state_and_deduct_caller keccak256 price spending check_account
     run_exec_loop eip7702_address tx block cfg).
Abbreviation reimburse :=
  (reimburse_caller keccak256 price reimburse_revm run_exec_loop eip7702_address tx block cfg).
Abbreviation reward := (reward_beneficiary price tx block).

(** The per-transaction caches, cleared. *)
Definition reset (e : evm) : evm :=
  set_fee_logs [] [] (set_pre_fee_refund 0 (set_caches None 0 0 e)).

(** The transaction pays its fee in ETH. *)
Definition pays_eth : Prop :=
  is_l1_msg tx = false ∧ (is_morph_tx tx && (0 <? token_id tx)) = false.

Lemma deduct_pays_eth (e : evm) :
  pays_eth →
  deduct e = validate_and_deduct_eth_fee spending check_account tx block cfg (reset e).
Proof.
  intros [Hl Hm]. unfold validate_against_state_and_deduct_caller. rewrite Hl.
  destruct (is_morph_tx tx); [|done]. cbn in Hm. by rewrite Hm.
Qed.

Lemma reimburse_pays_eth gas (e : evm) :
  pays_eth → reimburse gas e = on_journal (reimburse_revm gas) e.
Proof.
  intros [Hl Hm]. unfold reimburse_caller. rewrite Hl.
  destruct (is_morph_tx tx); [|done]. cbn in Hm. by rewrite Hm.
Qed.

(** An ETH-paid transaction that is accepted has its sender charged exactly
    gas limit times effective price plus the L1 data fee, with enough left for
    the value it sends; no other balance and no storage slot changes. *)
Theorem eth_fee_charged_exactly (e e' : evm) :
  revm_tx_laws price spending → env_ok tx → 0 ≤ basefee block →
  is_fee_charge_disabled cfg = false → is_balance_check_disabled cfg = false →
  pays_eth → deduct e = (e', Ok tt) →
  let fee := gas_limit (inner tx) * price tx (basefee block) + cached_l1_data_fee e' in
  balance_of (journal e') sender = balance_of (journal e) sender - fee
  ∧ value (inner tx) ≤ balance_of (journal e') sender
  ∧ (∀ b, b ≠ sender → balance_of (journal e') b = balance_of (journal e) b)
  ∧ (∀ b k, slot_of (journal e') b k = slot_of (journal e) b k).
Proof.
  intros Hlaws Hok Hbf Hc Hbc He Hrun. cbv zeta. rewrite deduct_pays_eth in Hrun by done.
  apply (deduct_eth_Ok price) in Hrun; try done. by destruct Hrun as (_ & Hrun).
Qed.

(** C21. ETH fees are conserved over a transaction: what the sender prepays is
    what it gets back for unused gas plus what the beneficiary receives, and
    the beneficiary receives the effective price times the gas used plus the
    L1 data fee; the settlement touches no other balance. *)
Theorem eth_fee_conserved (e0 e1 e2 e3 e4 : evm) (gas : G) :
  revm_tx_laws price spending → env_ok tx → 0 ≤ basefee block →
  is_fee_charge_disabled cfg = false → is_balance_check_disabled cfg = false →
  pays_eth → reimburses price tx block reimburse_revm → gas_settled tx gas →
  deduct e0 = (e1, Ok tt) →
  cached_l1_data_fee e2 = cached_l1_data_fee e1 →
  reimburse gas e2 = (e3, Ok tt) → reward gas e3 = (e4, Ok tt) →
  balance_of (journal e2) sender + prepaid price tx block ≤ u256_max →
  balance_of (journal e3) (beneficiary block) + prepaid price tx block + u64_max ≤ u256_max →
  let paid := balance_of (journal e0) sender - balance_of (journal e1) sender in
  let back := balance_of (journal e3) sender - balance_of (journal e2) sender in
  let reward := balance_of (journal e4) (beneficiary block)
                - balance_of (journal e3) (beneficiary block) in
  paid = back + reward
  ∧ reward = price tx (basefee block) * used gas + cached_l1_data_fee e1
  ∧ (∀ b, b ≠ sender → balance_of (journal e3) b = balance_of (journal e2) b)
  ∧ (∀ b, b ≠ beneficiary block → balance_of (journal e4) b = balance_of (journal e3) b).
Proof.
  intros Hlaws Hok Hbf Hc Hbc He Hrb Hg Hd Hcache Hre Hrw Hov Hov2. cbv zeta.
  rewrite deduct_pays_eth in Hd by done. rewrite reimburse_pays_eth in Hre by done.
  apply (deduct_eth_Ok price) in Hd as (Hl1 & Hpaid & _); try done. cbn in Hpaid.
  apply on_journal_Ok in Hre as (j3 & Hj3 & ->). destruct He as [Hl Hm].
  destruct (Hg) as (Hr0 & Hf0 & Hu0 & Hsum).
  destruct (price_capped _ _ Hlaws tx (basefee block) Hok Hbf) as [Hp0 _].
  set (p := price tx (basefee block)) in *.
  assert (prepaid price tx block = p * used gas + p * (remaining gas + refunded gas)) as Hpre
    by (unfold prepaid; fold p; rewrite <-Hsum; ring).
  assert (0 ≤ p * used gas ∧ 0 ≤ p * (remaining gas + refunded gas)) by (split; nonneg).
  specialize (Hrb gas _ _ Hj3). fold p in Hrb. cbv zeta in Hrb. specialize (Hrb ltac:(lia)).
  pose proof (reward_Ok price spending tx block gas (set_journal j3 e2) e4 Hl Hm Hok Hlaws Hbf
    Hg) as Hw.
  cbn in Hw, Hov2. rewrite Hcache in Hw. fold p in Hw.
  specialize (Hw Hl1 ltac:(lia) Hrw). cbn in *. split_and!.
  - rewrite Hpaid, (Hrb sender), (Hw (beneficiary block)), !Z.eqb_refl. lia.
  - rewrite (Hw (beneficiary block)), Z.eqb_refl. lia.
  - intros b Hne. rewrite Hrb. destruct (Z.eqb_spec b sender); [done|]. lia.
  - intros b Hne. rewrite Hw. destruct (Z.eqb_spec b (beneficiary block)); [done|]. lia.
Qed.

(** The transaction pays its fee in the registered token [entry], whose balance
    mapping is at slot [bs]; execution starts on committed storage. *)
Record pays_token (entry : TokenRegistryEntry) (bs : Z) (e : evm) : Prop := {
  pt_not_l1 : is_l1_msg tx = false;
  pt_morph : is_morph_tx tx = true;
  pt_id : 0 < token_id tx;
  pt_charged : is_fee_charge_disabled cfg = false;
  pt_fresh : fresh_storage (journal e);
  pt_entry : load keccak256 (db_storage (journal e)) (token_id tx) = Ok (Some entry);
  pt_slot : e_balance_slot entry = Some bs;
}.

Lemma deduct_pays_token entry bs (e e' : evm) :
  revm_tx_laws price spending → env_ok tx → 0 ≤ basefee block → pays_token entry bs e →
  deduct e = (e', Ok tt) →
  ∃ amount credit, deducted keccak256 price tx block entry bs amount credit e e'.
Proof.
  intros Hlaws Hok Hbf [Hl Hm Hid Hc Hf He Hs] Hrun.
  unfold validate_against_state_and_deduct_caller in Hrun. sm_inv Hrun. injection Hrun0 as <- <-.
  rewrite Hl, Hm in Hrun. destruct (Z.ltb_spec 0 (token_id tx)); [|lia].
  destruct (price_capped _ _ Hlaws tx (basefee block) Hok Hbf). destruct Hok as [Hg _ Hmf _].
  eapply deduct_token_Ok in Hrun; try done. unfold in_range in *. lia.
Qed.

Abbreviation slot_for := (compute_mapping_slot_for_address keccak256).

(** A token-paid transaction that is accepted moves from the sender's
    balance slot to the beneficiary's exactly the ceiling of its fee in token
    units, within the sender's balance and its fee limit, and touches no ETH
    balance and no other slot. *)
Theorem token_fee_charged_exactly entry bs (e e' : evm) :
  revm_tx_laws price spending → env_ok tx → 0 ≤ basefee block → pays_token entry bs e →
  deduct e = (e', Ok tt) →
  let fs := slot_for bs sender in
  let ts := slot_for bs (beneficiary block) in
  let token := e_token_address entry in
  let fee := gas_limit (inner tx) * price tx (basefee block) + cached_l1_data_fee e' in
  ∃ info, cached_token_fee_info e' = Some info
    ∧ price_ratio info = e_price_ratio entry ∧ scale info = e_scale entry
    ∧ let amount := eth_to_token_amount info fee in
      amount ≤ slot_of (journal e) token fs
      ∧ (∀ limit, fee_limit tx = Some limit → limit ≠ 0 → amount ≤ limit)
      ∧ transferred token fs ts amount (journal e) (journal e').
Proof.
  intros Hlaws Hok Hbf Hpt Hrun. cbv zeta.
  destruct (deduct_pays_token _ _ _ _ Hlaws Hok Hbf Hpt Hrun)
    as (amount & credit & Hamt & Hi & _ & _ & _ & Hle & Hlim & Ht).
  eexists. split; [exact Hi|]. split; [done|]. split; [done|]. cbv zeta.
  unfold eth_to_token_amount. fold (prepaid price tx block). rewrite Hamt. cbn [fst].
  split; [done|]. split; [|done]. intros limit Hl Hne. rewrite Hl in Hlim. by apply Hlim.
Qed.

(** C20. From Celadon on, over a whole transaction that pays its fee in a token with a
    balance slot, the sender's net payment and the beneficiary's net gain are the same
    number of token units: the ceiling of the net fee (gas used at the effective price
    plus the L1 data fee).  This is for a deduction and a reimbursement that succeed,
    under these conditions:
    - the token is registered with a balance slot ([pays_token]) in which sender and
      beneficiary have different slots;
    - the gas bought fits 128 bits, and converting the fee to token units does not
      saturate at 256 bits;
    - the execution in between keeps the token parameters and the rounding credit that
      the deduction cached, and settles the gas ([gas_settled]);
    - the beneficiary's slot covers the refund, and the sender's can take it in. *)
Theorem celadon_net_token_charge entry bs (e0 e1 e2 e3 : evm) (gas : G) (info : TokenFeeInfo) :
  revm_tx_laws price spending → env_ok tx → 0 ≤ basefee block → pays_token entry bs e0 →
  is_celadon (spec cfg) = true → gas_settled tx gas → prepaid price tx block ≤ u128_max →
  is_u256 (e_price_ratio entry) → is_u256 (e_scale entry) →
  let fs := slot_for bs sender in
  let ts := slot_for bs (beneficiary block) in
  let token := e_token_address entry in
  fs ≠ ts →
  deduct e0 = (e1, Ok tt) →
  cached_token_fee_info e1 = Some info →
  let fee := prepaid price tx block + cached_l1_data_fee e1 in
  fee * scale info + price_ratio info ≤ u256_max →
  cached_token_fee_info e2 = Some info →
  cached_alt_fee_rounding_credit e2 = cached_alt_fee_rounding_credit e1 →
  (let back := refund_units price tx block cfg info (cached_alt_fee_rounding_credit e2) gas in
   back ≤ slot_of (journal e2) token ts ∧ slot_of (journal e2) token fs + back ≤ u256_max) →
  reimburse gas e2 = (e3, Ok tt) →
  let net := eth_to_token_amount info
    (price tx (basefee block) * used gas + cached_l1_data_fee e1) in
  slot_of (journal e0) token fs - slot_of (journal e1) token fs
  - (slot_of (journal e3) token fs - slot_of (journal e2) token fs) = net
  ∧ slot_of (journal e1) token ts - slot_of (journal e0) token ts
    - (slot_of (journal e2) token ts - slot_of (journal e3) token ts) = net.
Proof.
  intros Hlaws Hok Hbf Hpt Hcel Hg Hpm Hr256 Hs256 fs ts token Hne Hd Hi1 fee Hfit Hi2 Hc2
    [Hb1 Hb2] Hre net.
  destruct (deduct_pays_token _ _ _ _ Hlaws Hok Hbf Hpt Hd)
    as (amount & credit & Hamt & Hi & Hcr & Hl1 & (Hact & Hrz & Hsz) & _ & _ & Ht).
  rewrite Hi1 in Hi. injection Hi as ->. set (info := into_fee_info _ _ _) in *.
  assert (usable info) as Hu.
  { unfold usable, info, in_range in *. cbn. lia. }
  destruct (price_capped _ _ Hlaws tx (basefee block) Hok Hbf) as [Hp _].
  destruct (unused_eth_fits price tx block gas Hg (env_gas_limit _ Hok) Hp Hpm) as [_ HR].
  rewrite Hc2, Hcr in *.
  assert (amount - refund_units price tx block cfg info credit gas
    = eth_to_token_amount info (fee - unused_eth price tx block gas)) as Hnet.
  { unfold refund_units. rewrite Hcel. apply net_charge; try done. lia. }
  destruct (with_credit_spec info Hu fee amount credit) as (Hac & Hcr1 & _); try done; try lia.
  { unfold usable in Hu. lia. }
  unfold reimburse_caller in Hre. destruct Hpt as [Hl Hm Hid _ _ _ Hbs].
  rewrite Hl, Hm in Hre. destruct (Z.ltb_spec 0 (token_id tx)); [|lia].
  sm_inv Hre. injection Hrun as <- <-. rewrite Hi2 in Hre.
  apply (reimburse_token_Ok _ _ _ _ _ _ _ info bs) in Hre; try done; try apply Hok.
  - rewrite Hc2 in Hre. destruct Ht as (_ & Hf1 & Ht1 & _).
    destruct Hre as (_ & Hf2 & Ht2 & _). fold fs ts token in Hf1, Ht1.
    change (token_address info) with token in *. fold fs ts in Hf2, Ht2.
    destruct (Z.eqb_spec fs ts); [done|]. destruct (Z.eqb_spec ts fs); [by subst|].
    rewrite Hf1, Ht1, Hf2, Ht2.
    replace net with (amount - refund_units price tx block cfg info credit gas);
      [split; lia|]. rewrite Hnet. unfold net. f_equal. unfold fee, prepaid, unused_eth.
    destruct Hg as (_ & _ & _ & <-). ring.
  - rewrite Hc2. unfold refund_units. rewrite Hcel. intros ->.
    unfold eth_to_token_amount_floor. rewrite (config_ok info Hu).
    unfold saturating_mul, saturating_add. rewrite Z.mul_0_l.
    pose proof uint_max_order. apply Z.div_small. unfold usable in Hu. lia.
  - by rewrite Hc2.
  - by rewrite Hc2.
Qed.

(** A refund never fails a transaction: settling the unused gas reports
    database errors only, whatever the fee token does. *)
Theorem refund_fails_only_on_database (gas : G) (e e' : evm) (err : error) :
  reimburse gas e = (e', Err err) → ∃ d, err = Database d.
Proof.
  assert (∀ c : sm J Er unit, on_journal c e = (e', Err err) → ∃ d, err = Database d) as Hj.
  { intros c. unfold on_journal. destruct (c (journal e)) as [j [?|d]]; intros [= _ <-].
    by exists d. }
  unfold reimburse_caller. destruct (is_l1_msg tx); [done|].
  destruct (is_morph_tx tx); [|apply Hj]. destruct (0 <? token_id tx); [|apply Hj].
  intros [?|(s & info & [= <- <-] & Hrun)]%sm_bind_Err; [done|].
  destruct (cached_token_fee_info e) as [i|] eqn:Hi; [|done].
  unfold reimburse_caller_token_fee in Hrun. cbv zeta in Hrun. destruct (_ =? 0); [done|].
  apply sm_bind_Err in Hrun as [?|(? & ? & [= <- <-] & Hrun)]; [done|]. rewrite Hi in Hrun.
  apply sm_bind_Err in Hrun as [?|(? & ? & [= <- <-] & Hrun)]; [done|].
  apply sm_bind_Err in Hrun as [?|(? & ? & [= <- <-] & Hrun)]; [done|].
  destruct (_ =? 0); [done|].
  destruct (match balance_slot i with Some _ => _ | None => _ end) as [e2 [?|[?|d|?]]];
    try done. injection Hrun as _ <-. by exists d.
Qed.

(** L1 messages pay nothing here: accepting one changes no balance and no
    slot, caches no fee and no log, and its settlement neither refunds nor
    rewards. *)
Theorem l1_message_pays_nothing (e e' e2 : evm) (gas : G) :
  is_l1_msg tx = true → deduct e = (e', Ok tt) →
  (∀ b, balance_of (journal e') b = balance_of (journal e) b)
  ∧ (∀ b k, slot_of (journal e') b k = slot_of (journal e) b k)
  ∧ cached_l1_data_fee e' = 0 ∧ cached_token_fee_info e' = None
  ∧ pre_fee_logs e' = [] ∧ post_fee_logs e' = []
  ∧ reimburse gas e2 = (e2, Ok tt) ∧ reward gas e2 = (e2, Ok tt).
Proof.
  intros Hl Hrun. unfold validate_against_state_and_deduct_caller in Hrun.
  sm_inv Hrun. injection Hrun0 as <- <-. rewrite Hl in Hrun.
  sm_inv Hrun. apply on_journal_Ok in Hrun0 as (j1 & Hj & ->).
  pose proof (load_account_view sender (journal e)) as (Hb & _ & Hs).
  cbn in Hj. rewrite Hj in Hb, Hs.
  apply bump_nonce_if_call_Ok in Hrun as (j2 & -> & Hb2 & Hs2 & _). cbn in *.
  split_and!; try done.
  - intros b. by rewrite Hb2.
  - intros b k. by rewrite Hs2.
  - unfold reimburse_caller. by rewrite Hl.
  - unfold reward_beneficiary. rewrite Hl. done.
Qed.

(** A transaction's admission depends on the journal and the context error
    only: nothing the previous transaction left in the fee caches leaks into
    the verdict, the charge or the caches it leaves. *)
Theorem fee_caches_do_not_leak (e1 e2 : evm) :
  reset e1 = reset e2 → deduct e1 = deduct e2.
Proof.
  intros Hr.
  unfold validate_against_state_and_deduct_caller, mbind, sm_bind, sm_modify. cbn.
  unfold reset in Hr. by rewrite Hr.
Qed.

(** A slot transfer conserves the token: on success the two slots change by
    opposite amounts, within bounds, and nothing else changes; on failure
    nothing changes, and the cause is the database, a balance that is too low
    or a recipient that would overflow. *)
Theorem slot_transfer_conserves (from to token : Address) (amount bs : Z) (j j' : J)
    (r : result (Z * Z) error) :
  transfer_erc20_with_slot keccak256 from to token amount bs j = (j', r) →
  let fs := slot_for bs from in
  let ts := slot_for bs to in
  match r with
  | Ok p => p = (fs, ts) ∧ amount ≤ slot_of j token fs
            ∧ transferred token fs ts amount j j'
            ∧ slot_of j' token fs + slot_of j' token ts
              = slot_of j token fs + slot_of j token ts
  | Err err => same_view j' j
      ∧ ((∃ d, err = Database d) ∨ slot_of j token fs < amount
         ∨ u256_max < slot_of j token ts + amount)
  end.
Proof.
  cbv zeta. intros Ht. destruct r as [p|err].
  - apply transfer_Ok in Ht as (-> & Hle & _ & Ht). split; [done|]. split; [done|].
    split; [done|]. destruct Ht as (_ & -> & -> & _). case_match; lia.
  - split; [by eapply transfer_Err|by eapply transfer_Err_cause].
Qed.

(** A fee paid by calling the token is accepted only when the sender could
    afford it and the token itself, asked afterwards in the state the call
    left, reports the sender poorer by exactly the fee. *)
Theorem call_mode_payment_verified (from to token : Address) (amount before r : Z)
    (e e' : evm) :
  transfer_erc20_with_evm run_exec_loop eip7702_address from to token amount (Some before) e
    = (e', Ok r) →
  amount ≠ 0 →
  amount ≤ before
  ∧ ∃ e1 result, evm_call run_exec_loop eip7702_address from token
         (build_transfer_calldata to amount) false e = (e1, Ok result)
       ∧ fr_is_ok result = true ∧ fr_refunded result = r
       ∧ evm_call_balance_of run_exec_loop eip7702_address token from e1
         = (e', Ok (before - amount)).
Proof.
  intros Hrun Hne. unfold transfer_erc20_with_evm in Hrun.
  destruct (Z.eqb_spec amount 0); [done|].
  sm_inv Hrun. injection Hrun0 as <- <-.
  sm_inv Hrun. apply tx_try_Ok in Hrun0 as [[-> Hle]%ok_or_Ok%checked_sub_Some ->].
  split; [done|]. sm_inv Hrun. unfold sm_map_err in Hrun0.
  destruct (evm_call _ _ _ _ _ _ e) as [e1 [result|]] eqn:Hcall; [|done].
  injection Hrun0 as <- <-. exists e1, result. split; [done|].
  destruct (fr_is_ok result); [|done]. split; [done|]. cbn [negb] in Hrun.
  destruct (_ && _); [done|]. sm_inv Hrun.
  destruct (Z.eqb_spec a (before - amount)) as [->|]; [|done].
  by injection Hrun as <- <-.
Qed.
End Theorems.

(** ** Agreement with the transaction's own validation *)

Section Authorizations.
Context {ETH AL SA RA SG SpecId : Type} `{AlloyRlp AL SA SG} `{SpecIdLaws SpecId}.
Context (eth_view : ETH → TxView AL SA) (eth_encode_2718 : ETH → bytes).
Context (empty_access_list : AL) (recover_authorization : SA → RA).

(** From Viridian on, a Morph transaction that passes its own validation
    also passes the EVM's authorization-list check: the two layers cannot
    disagree on a transaction a block contains. *)
Theorem validated_tx_passes_env_check (tx : TxMorph.TxMorph AL SA) (signature : SG)
    (signer : Address) (cfg : Cfg) :
  TxMorph.validate tx = Ok tt → is_viridian (spec cfg) = true →
  validate_morph_tx_authorization_list (SpecId := SpecId)
    (from_recovered_tx eth_view eth_encode_2718 empty_access_list recover_authorization
       (MorphTxEnvelope.Morph
          {| MorphTxEnvelope.tx := tx; MorphTxEnvelope.signature := signature |}) signer) cfg
  = Ok tt.
Proof.
  intros Hv Hspec. unfold from_recovered_tx. rewrite env_of_morph.
  assert (is_enabled_in (spec_id_of (spec cfg)) PRAGUE = true) as Hprague.
  { destruct (spec cfg); try done; cbn; [apply enabled_refl| | |]; apply osaka_prague. }
  unfold validate_morph_tx_authorization_list, authorization_list_len. cbn -[Z.ltb Z.eqb].
  rewrite length_map, Hprague. cbn [negb].
  unfold TxMorph.encoded_authorization_list, TxMorph.is_v2.
  destruct (Z.ltb_spec (TxMorph.version tx) TxMorph.MORPH_TX_VERSION_2).
  { destruct (Z.eqb_spec (TxMorph.version tx) TxMorph.MORPH_TX_VERSION_2); [lia|done]. }
  case_match eqn:Hlen; [done|]. destruct (TxMorph.to tx) eqn:Hto; [|done].
  unfold TxMorph.validate in Hv. apply reject_Ok in Hv as [_ Hv].
  apply reject_Ok in Hv as [_ Hv]. unfold TxMorph.validate_version in Hv.
  unfold TxMorph.MORPH_TX_VERSION_0, TxMorph.MORPH_TX_VERSION_1, TxMorph.MORPH_TX_VERSION_2 in *.
  destruct (Z.eqb_spec (TxMorph.version tx) 0); [lia|].
  destruct (Z.eqb_spec (TxMorph.version tx) 1); [lia|].
  destruct (Z.eqb_spec (TxMorph.version tx) 2); [|done].
  apply reject_Ok in Hv as [_ Hv]. apply reject_Ok in Hv as [Hv _].
  unfold TxMorph.has_authorizations in Hv. rewrite Hto in Hv.
  destruct (TxMorph.authorization_list tx); done.
Qed.
End Authorizations.

(** ** Witnesses *)

Module FeeSamples.
Import TokenSamples MapJournal.

Record gas := { g_remaining : Z; g_refunded : Z; g_used : Z }.
#[export] Instance gas_ops : GasOps gas := {|
  remaining := g_remaining; refunded := g_refunded; used := g_used;
  set_refund r g := {| g_remaining := g_remaining g; g_refunded := r; g_used := g_used g |};
  record_refund r g := {| g_remaining := g_remaining g; g_refunded := g_refunded g + r;
                          g_used := g_used g |} |}.

Abbreviation txenv := (MorphTxEnv unit unit unit).
Abbreviation evm := (MorphEvm journal unit Z).

(** revm's defaults. *)
Definition price {AL SA RA} (t : MorphTxEnv AL SA RA) (b : Z) : Z :=
  Z.min (gas_price (inner t)) (b + default 0 (gas_priority_fee (inner t))).
Definition spending {AL SA RA} (t : MorphTxEnv AL SA RA) (b _ : Z) : result Z InvalidTransaction :=
  let s := gas_limit (inner t) * price t b + value (inner t) in
  if s <=? u256_max then Ok s else Err OverflowPaymentInTransaction.

Lemma sample_laws {AL SA RA} : revm_tx_laws (AL := AL) (SA := SA) (RA := RA) price spending.
Proof.
  split.
  - intros t b [_ _ Hm Hp] Hb. unfold price, max_fee_per_gas, in_range in *. lia.
  - intros t b p s. unfold spending. cbv zeta.
    destruct (Z.leb_spec (gas_limit (inner t) * price t b + value (inner t)) u256_max);
      by intros [= <-].
Qed.

Definition check_account (_ : AccountInfo unit) (_ : Z) (_ _ : bool)
  : result unit InvalidTransaction := Ok tt.
(** A token that answers every balance query with 40 and returns no data from
    a transfer. *)
Definition run_frame (f : FrameInit unit)
  : sm evm (EVMError unit InvalidTransaction) FrameResult :=
  mret {| fr_is_ok := true;
          fr_output := if call_is_static _ f then be_bytes32 40 else [];
          fr_refunded := 0 |}.
Definition no_delegate (_ : unit) : option Address := None.

Definition sample_env (ty : Z) (token : option Z) : txenv := {|
  inner := {| tx_type := ty; TxEnv.caller := 0x11; gas_limit := 100000; gas_price := 2000000;
              kind := Call 0x33; value := 5; data := []; nonce := 0; chain_id := None;
              access_list := tt; gas_priority_fee := Some 500000; blob_hashes := [];
              max_fee_per_blob_gas := 0; authorization_list := [] |};
  rlp_bytes := Some [1; 0; 2]; version := Some 1; fee_token_id := token; fee_limit := None;
  reference := None; memo := None |}.

Definition eth_tx : txenv := sample_env 2 None.
Definition token_tx : txenv := sample_env 0x7F (Some 3).
Definition l1_tx : txenv := sample_env 0x7E None.

Lemma sample_env_ok ty token : env_ok (sample_env ty token).
Proof. split; cbn; ulia. Qed.

Definition sample_block : BlockEnv := {|
  beneficiary := 0x22; basefee := 1000000; blob_gasprice := None |}.
Definition sample_cfg : Cfg := {|
  spec := Celadon; is_fee_charge_disabled := false; is_balance_check_disabled := false;
  is_eip3607_disabled := false; is_nonce_check_disabled := false;
  is_priority_fee_check_disabled := false |}.

(** The gas oracle, the registry entry of token 3 (at the slots [mix] computes)
    and two token balances. *)
Definition storage : gmap (Address * Z) Z := list_to_map [
  ((L1_GAS_PRICE_ORACLE_ADDRESS, 1), 30); ((L1_GAS_PRICE_ORACLE_ADDRESS, 6), 20);
  ((L1_GAS_PRICE_ORACLE_ADDRESS, 7), 10 ^ 10); ((L1_GAS_PRICE_ORACLE_ADDRESS, 8), 10 ^ 9);
  ((L2_TOKEN_REGISTRY_ADDRESS, 235264), 0xABCD);
  ((L2_TOKEN_REGISTRY_ADDRESS, 235265), 6);
  ((L2_TOKEN_REGISTRY_ADDRESS, 235266), 6 * 2 ^ 8 + 1);
  ((L2_TOKEN_REGISTRY_ADDRESS, 235267), 1);
  ((L2_TOKEN_REGISTRY_ADDRESS, 235776), 500000007);
  ((0xABCD, 1115392), 1000000);
  ((0xABCD, 2229504), 50) ].

Definition sample_journal : journal := {|
  balances := {[0x11 := 10 ^ 18]}; nonces := ∅; slots := storage; committed := storage;
  warm_accounts := ∅; warm_slots := ∅; touched := ∅; logs := [] |}.

Definition start : evm := {|
  FeeHandler.journal := sample_journal; ctx_error := None; cached_token_fee_info := None;
  cached_alt_fee_rounding_credit := 0; cached_l1_data_fee := 0; pre_fee_refund := 0;
  pre_fee_logs := []; post_fee_logs := [] |}.

Lemma storage_in_range : map_Forall (λ _ v, 0 ≤ v < u256_max + 1) storage.
Proof.
  assert (forallb (λ p, (0 <=? p.2) && (p.2 <? u256_max + 1)) (map_to_list storage) = true)
    as Hall by (vm_compute; reflexivity).
  intros i x Hx%elem_of_map_to_list. rewrite forallb_forall in Hall.
  apply list_elem_of_In, Hall in Hx. bool_simp. done.
Qed.

Lemma fresh_of (j : journal) :
  map_Forall (λ _ v, 0 ≤ v < u256_max + 1) (slots j) → committed j = slots j →
  fresh_storage j.
Proof.
  intros Hall Hc a k v. cbn. unfold slt. rewrite Hc. intros [= <-].
  destruct (slots j !! (a, k)) as [x|] eqn:Hx; cbn; [|apply Z.mod_0_l; ulia].
  apply Z.mod_small. apply (map_Forall_lookup_1 _ _ _ _ Hall Hx).
Qed.

Lemma start_fresh : fresh_storage sample_journal.
Proof. apply fresh_of; [exact storage_in_range|reflexivity]. Qed.

Definition reimburse_sample (t : txenv) (g : gas) : sm journal unit unit :=
  sm_modify (incr_balance (TxEnv.caller (inner t))
    (price t (basefee sample_block) * (g_remaining g + g_refunded g))).

Abbreviation deduct t := (validate_against_state_and_deduct_caller mix price spending
  check_account run_frame no_delegate t sample_block sample_cfg).
Abbreviation settle t := (reimburse_caller mix price (reimburse_sample t) run_frame
  no_delegate t sample_block sample_cfg).

Definition sample_gas : gas := {| g_remaining := 30000; g_refunded := 4000; g_used := 66000 |}.

Lemma sample_gas_settled ty token : gas_settled (sample_env ty token) sample_gas.
Proof. by vm_compute. Qed.
End FeeSamples.

Import TokenSamples MapJournal FeeSamples.
#[local] Existing Instance MapJournal.ops.
#[local] Existing Instance MapJournal.laws.

Lemma eth_fee_charged_exactly_witness :
  balance_of (FeeHandler.journal (deduct eth_tx start).1) 0x11
  = 10 ^ 18 - (100000 * 1500000 + 360).
Proof.
  simple refine (proj1 (eth_fee_charged_exactly mix price spending check_account run_frame
    no_delegate eth_tx sample_block sample_cfg start (deduct eth_tx start).1
    sample_laws (sample_env_ok _ _) _ _ _ _ _)).
  - cbn. lia.
  - reflexivity.
  - reflexivity.
  - by split.
  - vm_compute. reflexivity.
Defined.

(** The stages of an ETH-paid and of a token-paid transaction. *)
Definition eth_1 : FeeSamples.evm := (deduct eth_tx start).1.
Definition eth_3 : FeeSamples.evm := (settle eth_tx sample_gas eth_1).1.
Definition eth_4 : FeeSamples.evm := (reward_beneficiary price eth_tx sample_block sample_gas eth_3).1.
Definition token_1 : FeeSamples.evm := (deduct token_tx start).1.
Definition token_3 : FeeSamples.evm := (settle token_tx sample_gas token_1).1.

Lemma sample_reimburses : reimburses price eth_tx sample_block (reimburse_sample eth_tx).
Proof.
  intros g j j' Hr back Hov b. apply (f_equal fst) in Hr.
  change (incr_balance 0x11 back j = j') in Hr. rewrite <-Hr.
  exact (incr_balance_balance (Er := unit) 0x11 back j b Hov).
Qed.

Lemma eth_fee_conserved_witness :
  balance_of (FeeHandler.journal eth_4) 0x22 - balance_of (FeeHandler.journal eth_3) 0x22
  = 1500000 * 66000 + 360.
Proof.
  simple refine (proj1 (proj2 (eth_fee_conserved mix price spending check_account
    (reimburse_sample eth_tx) run_frame no_delegate eth_tx sample_block sample_cfg start eth_1
    eth_1 eth_3 eth_4 sample_gas sample_laws (sample_env_ok _ _) _ _ _ _ sample_reimburses
    (sample_gas_settled _ _) _ _ _ _ _ _))).
  - cbn. lia.
  - reflexivity.
  - reflexivity.
  - by split.
  - vm_compute. reflexivity.
  - reflexivity.
  - vm_compute. reflexivity.
  - vm_compute. reflexivity.
  - vm_compute. discriminate.
  - vm_compute. discriminate.
Defined.

Lemma sample_pays_token : pays_token mix token_tx sample_cfg usd 5 start.
Proof.
  split; [reflexivity..|exact start_fresh|vm_compute; reflexivity|reflexivity].
Qed.

Lemma token_fee_charged_exactly_witness :
  ∃ info, cached_token_fee_info token_1 = Some info
    ∧ eth_to_token_amount info (100000 * 1500000 + 360) ≤ 1000000.
Proof.
  destruct (token_fee_charged_exactly mix price spending check_account run_frame no_delegate
    token_tx sample_block sample_cfg usd 5 start token_1 sample_laws (sample_env_ok _ _)
    ltac:(cbn; lia) sample_pays_token ltac:(vm_compute; reflexivity))
    as (info & Hi & _ & _ & Hle & _).
  exists info. split; [exact Hi|]. exact Hle.
Defined.

Lemma celadon_net_token_charge_witness :
  slot_of (FeeHandler.journal start) 0xABCD 1115392
  - slot_of (FeeHandler.journal token_1) 0xABCD 1115392
  - (slot_of (FeeHandler.journal token_3) 0xABCD 1115392
     - slot_of (FeeHandler.journal token_1) 0xABCD 1115392)
  = eth_to_token_amount usd_info (1500000 * 66000 + 360).
Proof.
  simple refine (proj1 (celadon_net_token_charge mix price spending check_account
    (reimburse_sample token_tx) run_frame no_delegate token_tx sample_block sample_cfg usd 5
    start token_1 token_1 token_3 sample_gas usd_info sample_laws (sample_env_ok _ _) _
    sample_pays_token _ (sample_gas_settled _ _) _ _ _ _ _ _ _ _ _ _ _)).
  - cbn. lia.
  - reflexivity.
  - vm_compute. discriminate.
  - cbn. ulia.
  - cbn. ulia.
  - vm_compute. discriminate.
  - vm_compute. reflexivity.
  - vm_compute. reflexivity.
  - vm_compute. discriminate.
  - vm_compute. reflexivity.
  - reflexivity.
  - vm_compute. split; discriminate.
  - vm_compute. reflexivity.
Defined.

(** A database that fails. *)
Definition failing (_ : gas) : sm journal unit unit := sm_fail tt.

Lemma refund_fails_only_on_database_witness :
  ∃ d, @Database unit InvalidTransaction tt = Database d.
Proof.
  refine (refund_fails_only_on_database mix price failing run_frame no_delegate eth_tx
    sample_block sample_cfg sample_gas start start _ _).
  vm_compute. reflexivity.
Defined.

Lemma l1_message_pays_nothing_witness :
  balance_of (FeeHandler.journal (deduct l1_tx start).1) 0x11 = 10 ^ 18.
Proof.
  simple refine (proj1 (l1_message_pays_nothing mix price spending check_account
    (reimburse_sample l1_tx) run_frame no_delegate l1_tx sample_block sample_cfg start
    (deduct l1_tx start).1 start sample_gas eq_refl _) 0x11).
  vm_compute. reflexivity.
Defined.

Lemma fee_caches_do_not_leak_witness :
  deduct token_tx (set_caches (Some usd_info) 77 88 start) = deduct token_tx start.
Proof.
  exact (fee_caches_do_not_leak mix price spending check_account run_frame no_delegate token_tx
    sample_block sample_cfg (set_caches (Some usd_info) 77 88 start) start eq_refl).
Defined.

Lemma slot_transfer_conserves_witness :
  same_view (transfer_erc20_with_slot mix 0x22 0x11 0xABCD 51 5 sample_journal).1 sample_journal.
Proof.
  simple refine (proj1 (slot_transfer_conserves mix 0x22 0x11 0xABCD 51 5 sample_journal
    (transfer_erc20_with_slot mix 0x22 0x11 0xABCD 51 5 sample_journal).1
    (Err (Transaction (InsufficientTokenBalance 51 50))) _)).
  vm_compute. reflexivity.
Defined.

Lemma call_mode_payment_verified_witness : 10 ≤ 50.
Proof.
  simple refine (proj1 (call_mode_payment_verified run_frame no_delegate 0x11 0x22 0xABCD 10 50 0
    start _ _ _)).
  - exact (transfer_erc20_with_evm run_frame no_delegate 0x11 0x22 0xABCD 10 (Some 50) start).1.
  - vm_compute. reflexivity.
  - lia.
Defined.

Import Concrete.
#[local] Existing Instance Standard.ops.

Lemma validated_tx_passes_env_check_witness :
  validate_morph_tx_authorization_list (SpecId := Z)
    (from_recovered_tx (ETH := unit) (RA := bytes) (λ _, morph_tx_view TxMorph.sample_v2)
       (λ _, []) [] id (MorphTxEnvelope.Morph {| MorphTxEnvelope.tx := TxMorph.sample_v2;
          MorphTxEnvelope.signature := TxMorph.sample_signature |}) 7) sample_cfg = Ok tt.
Proof.
  simple refine (validated_tx_passes_env_check (SpecId := Z) _ _ _ _ TxMorph.sample_v2
    TxMorph.sample_signature 7 sample_cfg _ _); vm_compute; reflexivity.
Defined.
