(* ===== verification/Receipts.v ===== *)
(** * Receipts

    Models [crates/primitives/src/receipt/mod.rs] and [receipt.rs]: the receipt of
    each transaction type with its L1 fee and MorphTx fields, the consensus
    encoding with the logs bloom, the compressed encoding without it, and the
    database encoding.  The codec of alloy's own [Receipt] is foreign: it is the
    class [AlloyReceipt], with an executable instance in [Module ReceiptSamples]. *)

From S2P Require Import Prelude Rlp MorphTx Envelope.

Import MorphTxEnvelope.

(** ** The transaction type byte *)

(** The numbers of [#[envelope(ty = ...)]] in [envelope.rs]. *)
Definition tx_type_byte (t : MorphTxType) : Z :=
  match t with
  | TLegacy => 0 | TEip2930 => 1 | TEip1559 => 2 | TEip7702 => 4
  | TL1Msg => 0x7e | TMorph => 0x7f
  end.

(** [MorphTxType::try_from(u8)]. *)
Definition type_try_from (ty : Z) : option MorphTxType :=
  List.find (λ t, tx_type_byte t =? ty) [TLegacy; TEip2930; TEip1559; TEip7702; TL1Msg; TMorph].

Definition is_legacy (t : MorphTxType) : bool :=
  match t with TLegacy => true | _ => false end.

Definition type_rlp_decode {AL SA SG : Type} `{AlloyRlp AL SA SG} (buf : bytes)
  : result (MorphTxType * bytes) rlp_error :=
  let? '(ty, buf) := decode rlp_u8 buf in
  let? t := ok_or (type_try_from ty) (Custom "unknown tx type"%string) in
  Ok (t, buf).

Lemma type_try_from_byte t : type_try_from (tx_type_byte t) = Some t.
Proof. by destruct t. Qed.

Lemma type_byte_u8 t : is_u8 (tx_type_byte t) ∧ tx_type_byte t < 0x80.
Proof. destruct t; by vm_compute. Qed.

(** The database form of the type: an identifier of two bits, and the type byte
    in the buffer when it does not fit. *)
Definition COMPACT_EXTENDED_IDENTIFIER_FLAG : Z := 3.

Definition type_to_compact (t : MorphTxType) : bytes * Z :=
  match t with
  | TLegacy => ([], 0)
  | TEip2930 => ([], 1)
  | TEip1559 => ([], 2)
  | TEip7702 | TL1Msg | TMorph => ([tx_type_byte t], COMPACT_EXTENDED_IDENTIFIER_FLAG)
  end.

(** [None] is the panic on an identifier that no type has. *)
Definition type_from_compact (buf : bytes) (identifier : Z) : option (MorphTxType * bytes) :=
  if identifier =? 0 then Some (TLegacy, buf)
  else if identifier =? 1 then Some (TEip2930, buf)
  else if identifier =? 2 then Some (TEip1559, buf)
  else if identifier =? COMPACT_EXTENDED_IDENTIFIER_FLAG then
    match buf with
    | [] => None
    | extended_identifier :: buf =>
        if extended_identifier =? tx_type_byte TEip7702 then Some (TEip7702, buf)
        else if extended_identifier =? tx_type_byte TL1Msg then Some (TL1Msg, buf)
        else if extended_identifier =? tx_type_byte TMorph then Some (TMorph, buf)
        else None
    end
  else None.

(** ** Data *)

(** [alloy_consensus::Eip658Value]. *)
Inductive Eip658Value := Eip658 (status : bool) | PostState (root : Z).

Definition coerce_status (v : Eip658Value) : bool :=
  match v with Eip658 b => b | PostState _ => true end.

(** [alloy_consensus::Receipt]. *)
Record Receipt (Log : Type) := {
  status : Eip658Value;
  cumulative_gas_used : Z;
  logs : list Log;
}.
Arguments status {Log}.
Arguments cumulative_gas_used {Log}.
Arguments logs {Log}.

Record MorphTransactionReceipt (Log : Type) := {
  inner : Receipt Log;
  l1_fee : Z;
  version : option Z;
  fee_token_id : option Z;
  fee_rate : option Z;
  token_scale : option Z;
  fee_limit : option Z;
  reference : option bytes;
  memo : option bytes;
}.
Arguments inner {Log}.
Arguments l1_fee {Log}.
Arguments version {Log}.
Arguments fee_token_id {Log}.
Arguments fee_rate {Log}.
Arguments token_scale {Log}.
Arguments fee_limit {Log}.
Arguments reference {Log}.
Arguments memo {Log}.

Inductive MorphReceipt (Log : Type) :=
| RLegacy (r : MorphTransactionReceipt Log)
| REip2930 (r : MorphTransactionReceipt Log)
| REip1559 (r : MorphTransactionReceipt Log)
| REip7702 (r : MorphTransactionReceipt Log)
| RL1Msg (r : Receipt Log)
| RMorph (r : MorphTransactionReceipt Log).
Arguments RLegacy {Log} r.
Arguments REip2930 {Log} r.
Arguments REip1559 {Log} r.
Arguments REip7702 {Log} r.
Arguments RL1Msg {Log} r.
Arguments RMorph {Log} r.

Section Constructors.
Context {Log : Type}.
Implicit Types inner : Receipt Log.

Definition with_l1_fee inner (l1_fee : Z) : MorphTransactionReceipt Log := {|
  inner := inner; l1_fee := l1_fee; version := None; fee_token_id := None; fee_rate := None;
  token_scale := None; fee_limit := None; reference := None; memo := None |}.

Definition receipt_new inner : MorphTransactionReceipt Log := with_l1_fee inner 0.

Definition with_morph_tx_v0 inner (l1_fee fee_token_id fee_rate token_scale fee_limit : Z)
  : MorphTransactionReceipt Log := {|
  inner := inner; l1_fee := l1_fee; version := None; fee_token_id := Some fee_token_id;
  fee_rate := Some fee_rate; token_scale := Some token_scale; fee_limit := Some fee_limit;
  reference := None; memo := None |}.

Definition with_morph_tx_v1 inner (l1_fee version fee_token_id : Z)
    (fee_rate token_scale : option Z) (fee_limit : Z) (reference memo : option bytes)
  : MorphTransactionReceipt Log := {|
  inner := inner; l1_fee := l1_fee; version := Some version;
  fee_token_id := Some fee_token_id; fee_rate := fee_rate; token_scale := token_scale;
  fee_limit := Some fee_limit; reference := reference; memo := memo |}.

(** The variant of a type, around an inner receipt. *)
Definition of_type (t : MorphTxType) (inner : Receipt Log) : MorphReceipt Log :=
  match t with
  | TLegacy => RLegacy (receipt_new inner)
  | TEip2930 => REip2930 (receipt_new inner)
  | TEip1559 => REip1559 (receipt_new inner)
  | TEip7702 => REip7702 (receipt_new inner)
  | TL1Msg => RL1Msg inner
  | TMorph => RMorph (receipt_new inner)
  end.

Definition receipt_type (r : MorphReceipt Log) : MorphTxType :=
  match r with
  | RLegacy _ => TLegacy
  | REip2930 _ => TEip2930
  | REip1559 _ => TEip1559
  | REip7702 _ => TEip7702
  | RL1Msg _ => TL1Msg
  | RMorph _ => TMorph
  end.

Definition as_receipt (r : MorphReceipt Log) : Receipt Log :=
  match r with
  | RLegacy r | REip2930 r | REip1559 r | REip7702 r | RMorph r => inner r
  | RL1Msg r => r
  end.

Definition receipt_l1_fee (r : MorphReceipt Log) : Z :=
  match r with
  | RLegacy r | REip2930 r | REip1559 r | REip7702 r | RMorph r => l1_fee r
  | RL1Msg _ => 0
  end.
End Constructors.

(** ** alloy's receipt codec *)

Class AlloyReceipt (Log : Type) := {
  rlp_status : rlp_codec Eip658Value;
  rlp_logs : rlp_codec (list Log);
  status_ok : Eip658Value → Prop;
  logs_ok : list Log → Prop;
  (** [Receipt::rlp_encoded_fields_length_with_bloom] and its companions; the
      decoder reads the list header too *)
  fields_length_with_bloom : Receipt Log → Z → Z;
  encode_fields_with_bloom : Receipt Log → Z → bytes;
  decode_with_bloom : bytes → result ((Receipt Log * Z) * bytes) rlp_error;
}.

Record receipt_ok {Log} `{AlloyReceipt Log} (r : Receipt Log) : Prop := {
  ok_status : status_ok (status r);
  ok_gas : is_u64 (cumulative_gas_used r);
  ok_logs : logs_ok (logs r);
}.

Definition BLOOM_BOUND : Z := 2 ^ 2048.

Class AlloyReceiptLaws (AL SA SG Log : Type) `{AlloyRlp AL SA SG, AlloyReceipt Log} := {
  rlp_status_ok : codec_ok status_ok rlp_status;
  rlp_logs_ok : codec_ok logs_ok rlp_logs;
  fields_length_exact r bloom : receipt_ok r → 0 ≤ bloom < BLOOM_BOUND →
    fields_length_with_bloom r bloom = len (encode_fields_with_bloom r bloom);
  decode_with_bloom_encode r bloom rest : receipt_ok r → 0 ≤ bloom < BLOOM_BOUND →
    len (encode_fields_with_bloom r bloom) ≤ u64_max →
    decode_with_bloom (header_encode {| hdr_list := true;
        payload_length := len (encode_fields_with_bloom r bloom) |}
      ++ encode_fields_with_bloom r bloom ++ rest) = Ok ((r, bloom), rest);
  (** A string header decodes back when its payload is there, and is not
      mistaken for a list. *)
  header_string_decode n rest : 2 ≤ n ≤ u64_max → n ≤ len rest →
    header_decode (header_encode {| hdr_list := false; payload_length := n |} ++ rest)
    = Ok ({| hdr_list := false; payload_length := n |}, rest);
  (** A byte below 0x80 is its own RLP encoding. *)
  rlp_u8_small b rest : 0 < b < 0x80 → decode rlp_u8 (b :: rest) = Ok (b, rest);
}.

(** ** Encodings *)

Section Codec.
Context {AL SA SG Log : Type} `{AlloyRlp AL SA SG, AlloyReceipt Log}.
Implicit Types r : MorphReceipt Log.

(** *** With the bloom: the consensus encoding *)

Definition rlp_encoded_fields_length r (bloom : Z) : Z :=
  fields_length_with_bloom (as_receipt r) bloom.
Definition rlp_encode_fields r (bloom : Z) : bytes :=
  encode_fields_with_bloom (as_receipt r) bloom.
Definition rlp_header_inner r (bloom : Z) : Header :=
  {| hdr_list := true; payload_length := rlp_encoded_fields_length r bloom |}.

(** [Header::length_with_payload]. *)
Definition length_with_payload (h : Header) : Z := header_length h + payload_length h.

Definition eip2718_encoded_length_with_bloom r (bloom : Z) : Z :=
  (if is_legacy (receipt_type r) then 0 else 1) + length_with_payload (rlp_header_inner r bloom).

Definition eip2718_encode_with_bloom r (bloom : Z) : bytes :=
  (if is_legacy (receipt_type r) then [] else [tx_type_byte (receipt_type r)])
  ++ header_encode (rlp_header_inner r bloom)
  ++ rlp_encode_fields r bloom.

Definition rlp_encoded_length_with_bloom r (bloom : Z) : Z :=
  let length := eip2718_encoded_length_with_bloom r bloom in
  if negb (is_legacy (receipt_type r)) then
    length + header_length {| hdr_list := false;
      payload_length := eip2718_encoded_length_with_bloom r bloom |}
  else length.

Definition rlp_encode_with_bloom r (bloom : Z) : bytes :=
  (if negb (is_legacy (receipt_type r)) then
     header_encode {| hdr_list := false;
       payload_length := eip2718_encoded_length_with_bloom r bloom |}
   else [])
  ++ eip2718_encode_with_bloom r bloom.

Definition rlp_decode_inner (buf : bytes) (tx_type : MorphTxType)
  : result ((MorphReceipt Log * Z) * bytes) rlp_error :=
  let? '((inner, logs_bloom), buf) := decode_with_bloom buf in
  Ok ((of_type tx_type inner, logs_bloom), buf).

Definition rlp_decode_with_bloom (buf : bytes)
  : result ((MorphReceipt Log * Z) * bytes) rlp_error :=
  let? '(header, header_buf) := header_decode buf in
  if hdr_list header then rlp_decode_inner buf TLegacy
  else
    let buf := header_buf in
    let remaining := len buf in
    let? '(tx_type, buf) := type_rlp_decode buf in
    let? '(this, buf) := rlp_decode_inner buf tx_type in
    reject UnexpectedLength when negb (len buf + payload_length header =? remaining) in
    Ok (this, buf).

(** *** Without the bloom: the compressed encoding *)

Definition rlp_encoded_fields_length_without_bloom r : Z :=
  length_of rlp_status (status (as_receipt r))
  + length_of rlp_u64 (cumulative_gas_used (as_receipt r))
  + length_of rlp_logs (logs (as_receipt r)).
Definition rlp_encode_fields_without_bloom r : bytes :=
  encode rlp_status (status (as_receipt r))
  ++ encode rlp_u64 (cumulative_gas_used (as_receipt r))
  ++ encode rlp_logs (logs (as_receipt r)).
Definition rlp_header_inner_without_bloom r : Header :=
  {| hdr_list := true; payload_length := rlp_encoded_fields_length_without_bloom r |}.

Definition rlp_decode_inner_without_bloom (buf : bytes) (tx_type : MorphTxType)
  : result (MorphReceipt Log * bytes) rlp_error :=
  let? '(header, buf) := header_decode buf in
  reject UnexpectedString when negb (hdr_list header) in
  let remaining := len buf in
  let? '(status, buf) := decode rlp_status buf in
  let? '(cumulative_gas_used, buf) := decode rlp_u64 buf in
  let? '(logs, buf) := decode rlp_logs buf in
  reject UnexpectedLength when negb (len buf + payload_length header =? remaining) in
  Ok (of_type tx_type {| status := status; cumulative_gas_used := cumulative_gas_used;
                         logs := logs |}, buf).

Definition receipt_encode_2718_len r : Z :=
  (if is_legacy (receipt_type r) then 0 else 1)
  + length_with_payload (rlp_header_inner_without_bloom r).

Definition receipt_encode_2718 r : bytes :=
  (if is_legacy (receipt_type r) then [] else [tx_type_byte (receipt_type r)])
  ++ header_encode (rlp_header_inner_without_bloom r)
  ++ rlp_encode_fields_without_bloom r.

Definition receipt_typed_decode (ty : Z) (buf : bytes)
  : result (MorphReceipt Log * bytes) TxL1Msg.Eip2718Error :=
  let? tx_type := ok_or (type_try_from ty) (TxL1Msg.UnexpectedType ty) in
  map_err TxL1Msg.RlpError (rlp_decode_inner_without_bloom buf tx_type).

Definition receipt_fallback_decode (buf : bytes)
  : result (MorphReceipt Log * bytes) TxL1Msg.Eip2718Error :=
  map_err TxL1Msg.RlpError (rlp_decode_inner_without_bloom buf TLegacy).
End Codec.

(** *** The receipt root *)

Section Root.
Context {AL SA SG Log : Type} `{AlloyRlp AL SA SG, AlloyReceipt Log}.
(** [alloy_primitives::logs_bloom] and alloy's trie root of the encoded items. *)
Context (logs_bloom : list Log → Z) (ordered_trie_root : list bytes → Z).

(** [TxReceipt::with_bloom_ref]: the receipt with the bloom of its logs. *)
Definition receipt_bloom (r : MorphReceipt Log) : Z := logs_bloom (logs (as_receipt r)).

Definition calculate_receipt_root_no_memo (receipts : list (MorphReceipt Log)) : Z :=
  ordered_trie_root (map (λ r, eip2718_encode_with_bloom r (receipt_bloom r)) receipts).
End Root.

(** *** The database form *)

Record CompactMorphReceipt (Log : Type) := {
  c_success : bool;
  c_cumulative_gas_used : Z;
  c_logs : list Log;
  c_l1_fee : option Z;
  c_version : option Z;
  c_fee_token_id : option Z;
  c_fee_rate : option Z;
  c_token_scale : option Z;
  c_fee_limit : option Z;
  c_reference : option bytes;
  c_memo : option bytes;
  c_tx_type : MorphTxType;
}.
Arguments c_success {Log}.
Arguments c_cumulative_gas_used {Log}.
Arguments c_logs {Log}.
Arguments c_l1_fee {Log}.
Arguments c_version {Log}.
Arguments c_fee_token_id {Log}.
Arguments c_fee_rate {Log}.
Arguments c_token_scale {Log}.
Arguments c_fee_limit {Log}.
Arguments c_reference {Log}.
Arguments c_memo {Log}.
Arguments c_tx_type {Log}.

Section ReceiptCompact.
Context {Log : Type}.

(** [From<&MorphReceipt> for CompactMorphReceipt]. *)
Definition compact_of_receipt (r : MorphReceipt Log) : CompactMorphReceipt Log :=
  let fields :=
    match r with
    | RLegacy r | REip2930 r | REip1559 r | REip7702 r | RMorph r => Some r
    | RL1Msg _ => None
    end in
  {| c_success := coerce_status (status (as_receipt r));
     c_cumulative_gas_used := cumulative_gas_used (as_receipt r);
     c_logs := logs (as_receipt r);
     c_l1_fee := f ← fields; if negb (l1_fee f =? 0) then Some (l1_fee f) else None;
     c_version := fields ≫= version; c_fee_token_id := fields ≫= fee_token_id;
     c_fee_rate := fields ≫= fee_rate; c_token_scale := fields ≫= token_scale;
     c_fee_limit := fields ≫= fee_limit; c_reference := fields ≫= reference;
     c_memo := fields ≫= memo; c_tx_type := receipt_type r |}.

(** [From<CompactMorphReceipt> for MorphReceipt]. *)
Definition receipt_of_compact (c : CompactMorphReceipt Log) : MorphReceipt Log :=
  let inner := {| status := Eip658 (c_success c);
                  cumulative_gas_used := c_cumulative_gas_used c; logs := c_logs c |} in
  let morph_receipt := {|
    inner := inner; l1_fee := default 0 (c_l1_fee c);
    version := (λ v, v mod 2 ^ 8) <$> c_version c;
    fee_token_id := (λ v, v mod 2 ^ 16) <$> c_fee_token_id c;
    fee_rate := c_fee_rate c; token_scale := c_token_scale c; fee_limit := c_fee_limit c;
    reference := c_reference c; memo := c_memo c |} in
  match c_tx_type c with
  | TL1Msg => RL1Msg inner
  | TLegacy => RLegacy morph_receipt
  | TEip2930 => REip2930 morph_receipt
  | TEip1559 => REip1559 morph_receipt
  | TEip7702 => REip7702 morph_receipt
  | TMorph => RMorph morph_receipt
  end.

(** The derived codec of the database form: the bytes written, and the value and
    rest read back from a buffer whose encoding has the given length. *)
Context (derived_to_compact : CompactMorphReceipt Log → bytes).
Context (derived_from_compact : bytes → Z → CompactMorphReceipt Log * bytes).

Definition receipt_to_compact (r : MorphReceipt Log) : bytes :=
  derived_to_compact (compact_of_receipt r).
Definition receipt_from_compact (buf : bytes) (len : Z) : MorphReceipt Log * bytes :=
  let '(receipt, buf) := derived_from_compact buf len in (receipt_of_compact receipt, buf).
End ReceiptCompact.

(** ** Theorems *)

(** The part of a receipt that consensus commits to: its type and its inner
    receipt, without the L1 fee and the MorphTx fields. *)
Definition consensus_part {Log} (r : MorphReceipt Log) : MorphReceipt Log :=
  of_type (receipt_type r) (as_receipt r).

Section WireTheorems.
Context {AL SA SG Log : Type} `{AlloyRlpLaws AL SA SG} `{!AlloyReceipt Log}.
Context `{!AlloyReceiptLaws AL SA SG Log}.
Implicit Types r : MorphReceipt Log.

Definition bloom_ok (bloom : Z) : Prop := 0 ≤ bloom < BLOOM_BOUND.

(** A receipt that can be sent: well-formed, and within RLP's length range. *)
Definition sendable r (bloom : Z) : Prop :=
  receipt_ok (as_receipt r) ∧ bloom_ok bloom
  ∧ len (eip2718_encode_with_bloom r bloom) ≤ u64_max.

Lemma sendable_fields r bloom : sendable r bloom →
  len (rlp_encode_fields r bloom) ≤ u64_max.
Proof using.
  intros (_ & _ & Hl). unfold eip2718_encode_with_bloom in Hl. rewrite !len_app in Hl.
  pose proof (len_nonneg (header_encode (rlp_header_inner r bloom))).
  destruct (is_legacy (receipt_type r)); rewrite ?len_cons, ?len_nil in Hl; lia.
Qed.

Lemma header_inner_exact r bloom : sendable r bloom →
  rlp_header_inner r bloom
  = {| hdr_list := true; payload_length := len (rlp_encode_fields r bloom) |}.
Proof.
  intros (Hr & Hb & _). unfold rlp_header_inner, rlp_encoded_fields_length.
  by rewrite fields_length_exact.
Qed.

Lemma eip2718_length_exact r bloom : sendable r bloom →
  eip2718_encoded_length_with_bloom r bloom = len (eip2718_encode_with_bloom r bloom).
Proof.
  intros Hs. pose proof (sendable_fields r bloom Hs) as Hf.
  pose proof (len_nonneg (rlp_encode_fields r bloom)).
  unfold eip2718_encoded_length_with_bloom, eip2718_encode_with_bloom, length_with_payload.
  rewrite header_inner_exact, header_length_exact, !len_app by (simpl; lia || done).
  cbn [payload_length]. destruct (is_legacy (receipt_type r)); rewrite ?len_nil, ?len_cons, ?len_nil; lia.
Qed.

Lemma decode_receipt_inner r bloom rest : sendable r bloom →
  rlp_decode_inner (header_encode (rlp_header_inner r bloom)
    ++ rlp_encode_fields r bloom ++ rest) (receipt_type r)
  = Ok ((consensus_part r, bloom), rest).
Proof.
  intros Hs. unfold rlp_decode_inner. rewrite header_inner_exact by done.
  unfold rlp_encode_fields.
  rewrite decode_with_bloom_encode; [done|apply Hs|apply Hs|by apply sendable_fields].
Qed.

Lemma type_decode_byte t rest : is_legacy t = false →
  type_rlp_decode (tx_type_byte t :: rest) = Ok (t, rest).
Proof.
  intros Ht. unfold type_rlp_decode. rewrite rlp_u8_small by (by destruct t).
  cbn [result_bind]. by rewrite type_try_from_byte.
Qed.

Lemma typed_encoding_long r bloom : sendable r bloom → is_legacy (receipt_type r) = false →
  2 ≤ len (eip2718_encode_with_bloom r bloom).
Proof.
  intros Hs Ht. unfold eip2718_encode_with_bloom. rewrite Ht.
  rewrite header_inner_exact by done.
  destruct (header_list_byte (len (rlp_encode_fields r bloom))) as (b & hd & -> & _).
  { pose proof (sendable_fields r bloom Hs). pose proof (len_nonneg (rlp_encode_fields r bloom)).
    lia. }
  rewrite !len_app, !len_cons, len_nil.
  pose proof (len_nonneg hd). pose proof (len_nonneg (rlp_encode_fields r bloom)). lia.
Qed.

Lemma wire_decode_encode r (bloom : Z) (rest : bytes) :
  sendable r bloom →
  rlp_decode_with_bloom (rlp_encode_with_bloom r bloom ++ rest)
    = Ok ((consensus_part r, bloom), rest)
  ∧ rlp_encoded_length_with_bloom r bloom = len (rlp_encode_with_bloom r bloom).
Proof.
  intros Hs. pose proof (eip2718_length_exact r bloom Hs) as Hlen.
  pose proof (sendable_fields r bloom Hs). pose proof (len_nonneg (rlp_encode_fields r bloom)).
  pose proof (proj2 (proj2 Hs)). pose proof (len_nonneg rest).
  unfold rlp_encode_with_bloom, rlp_encoded_length_with_bloom. cbv zeta. rewrite Hlen.
  destruct (is_legacy (receipt_type r)) eqn:Ht; cbn [negb].
  - split; [|done]. assert (receipt_type r = TLegacy) as Hty by (by destruct (receipt_type r)).
    unfold eip2718_encode_with_bloom, rlp_decode_with_bloom. rewrite Ht. cbn [app].
    rewrite <-app_assoc. pose proof (decode_receipt_inner r bloom rest Hs) as Hd.
    rewrite Hty in Hd. rewrite header_inner_exact in Hd |- * by done.
    rewrite header_decode_encode by (rewrite ?len_app; lia). cbn [result_bind hdr_list]. exact Hd.
  - pose proof (typed_encoding_long r bloom Hs Ht). split.
    + unfold rlp_decode_with_bloom. rewrite <-app_assoc.
      rewrite header_string_decode by (rewrite ?len_app; lia). cbn [result_bind hdr_list].
      unfold eip2718_encode_with_bloom at 1. rewrite Ht. cbn [app]. rewrite type_decode_byte by done.
      cbn [result_bind]. rewrite <-app_assoc, decode_receipt_inner by done. cbn [result_bind].
      rewrite len_app. cbn [payload_length].
      by destruct (Z.eqb_spec (len rest + len (eip2718_encode_with_bloom r bloom))
        (len (eip2718_encode_with_bloom r bloom) + len rest)); [|lia].
    + rewrite header_length_exact, len_app by (simpl; lia). lia.
Qed.

(** The consensus encoding separates receipts exactly up to their consensus part. *)
Lemma eip2718_encoding_inj r1 r2 b1 b2 : sendable r1 b1 → sendable r2 b2 →
  eip2718_encode_with_bloom r1 b1 = eip2718_encode_with_bloom r2 b2 →
  consensus_part r1 = consensus_part r2 ∧ b1 = b2.
Proof.
  intros H1 H2 Heq. assert (rlp_encode_with_bloom r1 b1 = rlp_encode_with_bloom r2 b2) as Hw.
  { unfold rlp_encode_with_bloom. rewrite !eip2718_length_exact, Heq by done.
    assert (is_legacy (receipt_type r1) = is_legacy (receipt_type r2)) as ->; [|done].
    unfold eip2718_encode_with_bloom in Heq. rewrite !header_inner_exact in Heq by done.
    destruct (header_list_byte (len (rlp_encode_fields r1 b1))) as (x1 & h1 & E1 & X1);
      [by split; [apply len_nonneg|apply sendable_fields]|].
    destruct (header_list_byte (len (rlp_encode_fields r2 b2))) as (x2 & h2 & E2 & X2);
      [by split; [apply len_nonneg|apply sendable_fields]|].
    pose proof (type_byte_u8 (receipt_type r1)). pose proof (type_byte_u8 (receipt_type r2)).
    rewrite E1, E2 in Heq.
    destruct (is_legacy (receipt_type r1)), (is_legacy (receipt_type r2));
      try done; injection Heq as ??; lia. }
  destruct (wire_decode_encode r1 b1 [] H1) as [D1 _].
  destruct (wire_decode_encode r2 b2 [] H2) as [D2 _].
  rewrite Hw, D2 in D1. by injection D1 as <- <-.
Qed.

Lemma consensus_part_inj r1 r2 :
  consensus_part r1 = consensus_part r2 ↔
  receipt_type r1 = receipt_type r2 ∧ as_receipt r1 = as_receipt r2.
Proof using.
  unfold consensus_part. split; [|by intros [-> ->]].
  destruct r1, r2; cbn; intros [= ->]; done.
Qed.

(** Network round trip of receipts: decoding the wire encoding of a receipt
    with its bloom returns its type, its inner receipt and the bloom, and leaves
    the rest of the buffer; the announced length is exact.  The consensus
    encoding, which the receipt root hashes, commits to exactly that part: two
    receipts have the same encoding iff they agree on type, inner receipt and
    bloom, whatever their L1 fee and MorphTx fields are. *)
Theorem receipt_wire_round_trip r (bloom : Z) (rest : bytes) :
  sendable r bloom →
  rlp_decode_with_bloom (rlp_encode_with_bloom r bloom ++ rest)
    = Ok ((consensus_part r, bloom), rest)
  ∧ rlp_encoded_length_with_bloom r bloom = len (rlp_encode_with_bloom r bloom)
  ∧ ∀ r' bloom', sendable r' bloom' →
      eip2718_encode_with_bloom r bloom = eip2718_encode_with_bloom r' bloom'
      ↔ consensus_part r = consensus_part r' ∧ bloom = bloom'.
Proof.
  intros Hs. split_and!; [by apply wire_decode_encode..|].
  intros r' b' Hs'. split; [by apply eip2718_encoding_inj|].
  intros [[Ht Hr]%consensus_part_inj <-].
  unfold eip2718_encode_with_bloom, rlp_header_inner, rlp_encoded_fields_length,
    rlp_encode_fields. by rewrite Ht, Hr.
Qed.

(** The compressed encoding without the bloom round-trips for every type: the
    legacy form through the fallback decoder, the typed forms behind their type
    byte; its announced length is exact and unknown type bytes are refused. *)
Theorem receipt_compressed_round_trip r (rest : bytes) :
  receipt_ok (as_receipt r) → len (rlp_encode_fields_without_bloom r) ≤ u64_max →
  receipt_encode_2718_len r = len (receipt_encode_2718 r)
  ∧ (if is_legacy (receipt_type r)
     then receipt_fallback_decode (receipt_encode_2718 r ++ rest) = Ok (consensus_part r, rest)
     else ∃ body, receipt_encode_2718 r = tx_type_byte (receipt_type r) :: body
            ∧ receipt_typed_decode (tx_type_byte (receipt_type r)) (body ++ rest)
              = Ok (consensus_part r, rest))
  ∧ ∀ ty buf, (∀ t, ty ≠ tx_type_byte t) →
      receipt_typed_decode ty buf = Err (TxL1Msg.UnexpectedType ty).
Proof.
  intros [Hst Hg Hl] Hn. pose proof (len_nonneg (rlp_encode_fields_without_bloom r)).
  assert (rlp_encoded_fields_length_without_bloom r
    = len (rlp_encode_fields_without_bloom r)) as Hlen.
  { unfold rlp_encoded_fields_length_without_bloom, rlp_encode_fields_without_bloom.
    rewrite !len_app, (length_exact _ _ rlp_status_ok), (length_exact _ _ rlp_u64_ok),
      (length_exact _ _ rlp_logs_ok) by done. lia. }
  assert (∀ rest, rlp_decode_inner_without_bloom (header_encode
      (rlp_header_inner_without_bloom r) ++ rlp_encode_fields_without_bloom r ++ rest)
      (receipt_type r) = Ok (consensus_part r, rest)) as Hdec.
  { intros rest'. pose proof (len_nonneg rest').
    unfold rlp_decode_inner_without_bloom, rlp_header_inner_without_bloom.
    rewrite Hlen, header_decode_encode by (rewrite ?len_app; lia).
    cbn [result_bind hdr_list negb payload_length].
    unfold rlp_encode_fields_without_bloom at 1. rewrite <-!app_assoc.
    rewrite (decode_encode _ _ rlp_status_ok) by done. cbn [result_bind].
    rewrite (decode_encode _ _ rlp_u64_ok) by done. cbn [result_bind].
    rewrite (decode_encode _ _ rlp_logs_ok) by done. cbn [result_bind].
    rewrite len_app. destruct (Z.eqb_spec (len rest' + len (rlp_encode_fields_without_bloom r))
      (len (rlp_encode_fields_without_bloom r) + len rest')); [|lia].
    cbn [negb]. unfold consensus_part. by destruct (as_receipt r). }
  split_and!.
  - unfold receipt_encode_2718_len, receipt_encode_2718, length_with_payload.
    rewrite !len_app. unfold rlp_header_inner_without_bloom at 1 2.
    rewrite Hlen, header_length_exact by (simpl; lia).
    unfold rlp_header_inner_without_bloom. rewrite Hlen. cbn [payload_length].
    destruct (is_legacy (receipt_type r)); rewrite ?len_cons, ?len_nil; lia.
  - unfold receipt_encode_2718, receipt_fallback_decode, receipt_typed_decode.
    destruct (is_legacy (receipt_type r)) eqn:Ht.
    + cbn [app]. rewrite <-app_assoc. specialize (Hdec rest).
      assert (receipt_type r = TLegacy) as Hty by (by destruct (receipt_type r)).
      rewrite Hty in Hdec. by rewrite Hdec.
    + eexists. split; [reflexivity|]. rewrite type_try_from_byte. cbn [ok_or result_bind].
      by rewrite <-app_assoc, Hdec.
  - intros ty buf Hty. unfold receipt_typed_decode.
    destruct (type_try_from ty) as [t|] eqn:Ht; [|done].
    apply find_some in Ht as [_ Ht]. bool_simp. by destruct (Hty t).
Qed.
End WireTheorems.

Section CompactTheorems.
Context {Log : Type}.
Context (to_c : CompactMorphReceipt Log → bytes).
Context (from_c : bytes → Z → CompactMorphReceipt Log * bytes).

(** What the Rust types guarantee of the fields that the database form widens. *)
Definition fields_ok (r : MorphReceipt Log) : Prop :=
  match r with
  | RLegacy r | REip2930 r | REip1559 r | REip7702 r | RMorph r =>
      (∀ v, version r = Some v → is_u8 v) ∧ (∀ v, fee_token_id r = Some v → is_u16 v)
  | RL1Msg _ => True
  end.

Lemma narrow_id (w : Z) (o : option Z) : (∀ v, o = Some v → 0 ≤ v < w) →
  (λ v, v mod w) <$> o = o.
Proof. intros Ho. destruct o as [v|]; [|done]. simpl. rewrite Z.mod_small; auto. Qed.

Lemma receipt_of_compact_of (r : MorphReceipt Log) b :
  fields_ok r → status (as_receipt r) = Eip658 b →
  receipt_of_compact (compact_of_receipt r) = r.
Proof using.
  intros Hok Hst.
  assert (∀ f : MorphTransactionReceipt Log,
    (∀ v, version f = Some v → is_u8 v) → (∀ v, fee_token_id f = Some v → is_u16 v) →
    status (inner f) = Eip658 b →
    {| inner := {| status := Eip658 (coerce_status (status (inner f)));
                   cumulative_gas_used := cumulative_gas_used (inner f); logs := logs (inner f) |};
       l1_fee := default 0 (if negb (l1_fee f =? 0) then Some (l1_fee f) else None);
       version := (λ v, v mod 2 ^ 8) <$> version f;
       fee_token_id := (λ v, v mod 2 ^ 16) <$> fee_token_id f; fee_rate := fee_rate f;
       token_scale := token_scale f; fee_limit := fee_limit f; reference := reference f;
       memo := memo f |} = f) as Hf.
  { intros [[st g l] fee ve id ra sc li re me]; cbn -[Z.pow]. intros Hv Hi ->.
    rewrite !narrow_id.
    - destruct (Z.eqb_spec fee 0) as [->|]; done.
    - intros v Hx%Hi. change u16_max with (2 ^ 16 - 1) in Hx. unfold in_range in Hx. lia.
    - intros v Hx%Hv. unfold in_range, u8_max in Hx. lia. }
  destruct r as [f|f|f|f|[st g l]|f]; cbn -[Z.pow] in *;
    unfold receipt_of_compact, compact_of_receipt; cbn -[Z.pow];
    try (destruct Hok; by rewrite Hf). by rewrite Hst.
Qed.

(** Database round trip of receipts: a receipt whose status is a flag (every
    receipt the executor builds) is read back unchanged with its L1 fee and its
    MorphTx fields, whatever the derived codec of the database struct is, as long
    as it round-trips; the transaction type's own database form does. *)
Theorem receipt_compact_round_trip (r : MorphReceipt Log) (rest : bytes) :
  (∀ c buf, from_c (to_c c ++ buf) (len (to_c c)) = (c, buf)) →
  fields_ok r → (∃ b, status (as_receipt r) = Eip658 b) →
  receipt_from_compact from_c (receipt_to_compact to_c r ++ rest) (len (receipt_to_compact to_c r))
    = (r, rest)
  ∧ ∀ t, type_from_compact ((type_to_compact t).1 ++ rest) (type_to_compact t).2 = Some (t, rest).
Proof using.
  intros Hrt Hok [b Hb]. split; [|by intros []].
  unfold receipt_from_compact, receipt_to_compact. rewrite Hrt.
  by erewrite receipt_of_compact_of.
Qed.
End CompactTheorems.

(** ** Executable instances and witnesses *)

Module ReceiptSamples.
(** A log is a byte, the logs an RLP string. *)
Definition status_codec : rlp_codec Eip658Value :=
  Standard.map_codec (λ s, match s with Eip658 b => Standard.be_bytes 1 (if b then 1 else 0)
                                      | PostState _ => [] end)
    (λ b, Some (Eip658 (Standard.of_be b =? 1))) Standard.str_codec.

Definition bloom_codec : rlp_codec Z := Standard.uint 256.

Definition encode_fields (r : Receipt Z) (bloom : Z) : bytes :=
  encode status_codec (status r) ++ encode (Standard.uint 8) (cumulative_gas_used r)
  ++ encode bloom_codec bloom ++ encode Standard.str_codec (logs r).

#[export] Instance sample_receipt : AlloyReceipt Z := {|
  rlp_status := status_codec; rlp_logs := Standard.str_codec;
  status_ok s := ∃ b, s = Eip658 b; logs_ok := is_bytes;
  fields_length_with_bloom r bloom := len (encode_fields r bloom);
  encode_fields_with_bloom := encode_fields;
  decode_with_bloom buf :=
    let? '(header, buf) := Standard.decode_header buf in
    reject UnexpectedString when negb (hdr_list header) in
    let? '(st, buf) := decode status_codec buf in
    let? '(gas, buf) := decode (Standard.uint 8) buf in
    let? '(bloom, buf) := decode bloom_codec buf in
    let? '(l, buf) := decode Standard.str_codec buf in
    Ok (({| status := st; cumulative_gas_used := gas; logs := l |}, bloom), buf);
|}.

Lemma status_codec_ok : codec_ok (λ s, ∃ b, s = Eip658 b) status_codec.
Proof.
  eapply Standard.map_codec_ok; [apply Standard.str_codec_ok| |];
    intros s [b ->]; destruct b; try done; by apply Standard.be_bytes_ok.
Qed.

Lemma u64_codec_ok : codec_ok is_u64 (Standard.uint 8).
Proof. apply Standard.uint_ok; by vm_compute. Qed.

Lemma bloom_codec_ok : codec_ok (in_range (BLOOM_BOUND - 1)) bloom_codec.
Proof. apply Standard.uint_ok; by vm_compute. Qed.

#[export] Instance sample_receipt_laws :
  @AlloyReceiptLaws (list bytes) bytes Standard.Signature Z Standard.ops sample_receipt.
Proof.
  split; cbn [rlp_status rlp_logs status_ok logs_ok fields_length_with_bloom
    encode_fields_with_bloom decode_with_bloom sample_receipt header_encode header_decode
    rlp_u8 Standard.ops].
  - apply status_codec_ok.
  - apply Standard.str_codec_ok.
  - done.
  - intros r bloom rest [Hs Hg Hl] Hb Hn. unfold Standard.header_bytes.
    cbn [hdr_list payload_length]. pose proof (len_nonneg (encode_fields r bloom)).
    pose proof (len_nonneg rest).
    rewrite (Standard.decode_header_hdr true) by (rewrite ?len_app; lia).
    cbn [result_bind hdr_list negb]. unfold encode_fields. rewrite <-!app_assoc.
    rewrite (decode_encode _ _ status_codec_ok) by done. cbn [result_bind].
    rewrite (decode_encode _ _ u64_codec_ok) by done. cbn [result_bind].
    rewrite (decode_encode _ _ bloom_codec_ok) by (unfold in_range; lia).
    cbn [result_bind]. rewrite Standard.decode_str_encode by done. by destruct r.
  - intros n rest Hn Hr. apply (Standard.decode_header_hdr false); lia.
  - intros b rest Hb. cbn. unfold Standard.decode_str. cbn [Standard.decode_header].
    destruct (Z.ltb_spec b 128); [|lia]. cbn. by destruct b.
Qed.

Definition sample : MorphReceipt Z := RMorph {|
  inner := {| status := Eip658 true; cumulative_gas_used := 21000; logs := [7; 200] |};
  l1_fee := 5; version := Some 1; fee_token_id := Some 3; fee_rate := Some 10;
  token_scale := Some 1000; fee_limit := Some 0; reference := None; memo := Some [1] |}.

(** A database codec for receipts of type MorphTx: the fields in a fixed order,
    each option as a list of at most one value. *)
Definition opt (o : option Z) : bytes := match o with Some z => [1; z] | None => [0] end.
Definition opt_bytes (o : option bytes) : bytes :=
  match o with Some b => 1 :: len b :: b | None => [0] end.
Definition to_c (c : CompactMorphReceipt Z) : bytes :=
  [if c_success c then 1 else 0; c_cumulative_gas_used c]
  ++ opt (c_l1_fee c) ++ opt (c_version c) ++ opt (c_fee_token_id c) ++ opt (c_fee_rate c)
  ++ opt (c_token_scale c) ++ opt (c_fee_limit c) ++ opt_bytes (c_reference c)
  ++ opt_bytes (c_memo c) ++ [tx_type_byte (c_tx_type c); len (c_logs c)] ++ c_logs c.

Definition read_opt (b : bytes) : option Z * bytes :=
  match b with
  | 0 :: b => (None, b)
  | _ :: z :: b => (Some z, b)
  | _ => (None, [])
  end.
Definition read_opt_bytes (b : bytes) : option bytes * bytes :=
  match b with
  | 0 :: b => (None, b)
  | _ :: n :: b => (Some (take (Z.to_nat n) b), drop (Z.to_nat n) b)
  | _ => (None, [])
  end.
Definition from_c (b : bytes) (_ : Z) : CompactMorphReceipt Z * bytes :=
  match b with
  | s :: g :: b =>
      let '(fee, b) := read_opt b in let '(v, b) := read_opt b in
      let '(id, b) := read_opt b in let '(rate, b) := read_opt b in
      let '(sc, b) := read_opt b in let '(lim, b) := read_opt b in
      let '(rf, b) := read_opt_bytes b in let '(m, b) := read_opt_bytes b in
      match b with
      | t :: n :: b =>
          ({| c_success := s =? 1; c_cumulative_gas_used := g;
              c_logs := take (Z.to_nat n) b; c_l1_fee := fee; c_version := v;
              c_fee_token_id := id; c_fee_rate := rate; c_token_scale := sc;
              c_fee_limit := lim; c_reference := rf; c_memo := m;
              c_tx_type := default TLegacy (type_try_from t) |}, drop (Z.to_nat n) b)
      | _ => (compact_of_receipt sample, [])
      end
  | _ => (compact_of_receipt sample, [])
  end.

Lemma read_receipt_opt o b : read_opt (opt o ++ b) = (o, b).
Proof. by destruct o. Qed.

Lemma read_opt_bytes_opt o b : read_opt_bytes (opt_bytes o ++ b) = (o, b).
Proof.
  destruct o as [x|]; [|done]. cbn [opt_bytes app read_opt_bytes].
  by destruct (Standard.take_drop_app x b) as [-> ->].
Qed.

Lemma from_to c buf : from_c (to_c c ++ buf) (len (to_c c)) = (c, buf).
Proof.
  destruct c as [s g l fee v id rate sc lim rf m t]. unfold to_c.
  cbn [c_success c_cumulative_gas_used c_logs c_l1_fee c_version c_fee_token_id c_fee_rate
    c_token_scale c_fee_limit c_reference c_memo c_tx_type app]. unfold from_c.
  rewrite <-!app_assoc, !read_receipt_opt, !read_opt_bytes_opt. cbn [app].
  destruct (Standard.take_drop_app l buf) as [-> ->].
  rewrite type_try_from_byte. by destruct s.
Qed.
End ReceiptSamples.

Lemma receipt_wire_round_trip_witness :
  @rlp_decode_with_bloom _ _ _ _ Standard.ops ReceiptSamples.sample_receipt
    (@rlp_encode_with_bloom _ _ _ _ Standard.ops ReceiptSamples.sample_receipt
       ReceiptSamples.sample 77 ++ [9])
  = Ok ((consensus_part ReceiptSamples.sample, 77), [9]).
Proof.
  simple refine (proj1 (@receipt_wire_round_trip _ _ _ _ Standard.ops Standard.laws
    ReceiptSamples.sample_receipt ReceiptSamples.sample_receipt_laws
    ReceiptSamples.sample 77 [9] _)).
  split; [|split].
  - split; [by exists true|split; vm_compute; discriminate|].
    apply TxMorph.bytes_check; reflexivity.
  - split; vm_compute; congruence.
  - vm_compute. discriminate.
Defined.

Lemma receipt_compressed_round_trip_witness :
  @receipt_encode_2718_len _ _ _ _ Standard.ops ReceiptSamples.sample_receipt ReceiptSamples.sample
  = len (@receipt_encode_2718 _ _ _ _ Standard.ops ReceiptSamples.sample_receipt
      ReceiptSamples.sample).
Proof.
  simple refine (proj1 (@receipt_compressed_round_trip _ _ _ _ Standard.ops Standard.laws
    ReceiptSamples.sample_receipt ReceiptSamples.sample_receipt_laws
    ReceiptSamples.sample [9] _ _)).
  - split; [by exists true|split; vm_compute; discriminate|].
    apply TxMorph.bytes_check; reflexivity.
  - vm_compute. discriminate.
Defined.

Lemma receipt_compact_round_trip_witness :
  receipt_from_compact ReceiptSamples.from_c
    (receipt_to_compact ReceiptSamples.to_c ReceiptSamples.sample ++ [9])
    (len (receipt_to_compact ReceiptSamples.to_c ReceiptSamples.sample))
  = (ReceiptSamples.sample, [9]).
Proof.
  simple refine (proj1 (receipt_compact_round_trip ReceiptSamples.to_c ReceiptSamples.from_c
    ReceiptSamples.sample [9] _ _ _)).
  - exact ReceiptSamples.from_to.
  - split; intros v [= <-]; split; vm_compute; discriminate.
  - by exists true.
Defined.
