(* ===== verification/BlockExecutor.v ===== *)
(** * Executing and assembling a block

    Models [crates/evm/src/block/mod.rs] (the block executor: the gas-pool check,
    what a committed transaction adds to the block, the receipt fields of a
    MorphTx), [block/receipt.rs] (the receipt builder), [assemble.rs] (the block
    assembler) and the environments of [config.rs].  Running one transaction is
    revm's: [transact] is a parameter, over the EVM state of [FeeHandler]. *)

From S2P Require Import Prelude Hardfork Rlp MorphTx Envelope Consensus TxEnv TokenFee.
From S2P Require Import Journal FeeHandler Receipts.

Import MorphTxEnvelope.

(** ** Data *)

(** [reth_primitives_traits::Recovered]: a transaction with its signer. *)
Record Recovered (T : Type) := { rec_tx : T; signer : Address }.
Arguments rec_tx {T}.
Arguments signer {T}.

(** [alloy_evm::block::BlockExecutionError]: an invalid transaction (and whether
    its nonce was too low), another validation error, or an internal one; the
    executor's own message keeps its values. *)
Inductive BlockExecutionError :=
| InvalidTx (nonce_too_low : bool) (error : string)
| OtherValidation (error : string)
| GasLimitExceedsAvailable (tx_gas_limit block_available_gas : Z)
| MissingField (s : string)
| InternalError (s : string).

(** [revm::ExecutionResult], as far as the code reads it. *)
Record ExecutionResult (Log : Type) := {
  is_success : bool;
  into_logs : list Log;
  tx_gas_used : Z;
}.
Arguments is_success {Log}.
Arguments into_logs {Log}.
Arguments tx_gas_used {Log}.

Record MorphReceiptTxFields := {
  f_version : Z;
  f_fee_token_id : Z;
  f_fee_rate : option Z;
  f_token_scale : option Z;
  f_fee_limit : Z;
  f_reference : option bytes;
  f_memo : option bytes;
}.

(** ** Receipts *)

Section BuildReceipt.
Context {ETH AL SA SG Log : Type}.

Record MorphReceiptBuilderCtx := {
  ctx_tx : MorphTxEnvelope ETH AL SA SG;
  ctx_result : ExecutionResult Log;
  ctx_cumulative_gas_used : Z;
  ctx_l1_fee : Z;
  ctx_morph_tx_fields : option MorphReceiptTxFields;
  ctx_pre_fee_logs : list Log;
  ctx_post_fee_logs : list Log;
}.

Definition build_receipt (ctx : MorphReceiptBuilderCtx) : MorphReceipt Log :=
  let logs := ctx_pre_fee_logs ctx ++ into_logs (ctx_result ctx) ++ ctx_post_fee_logs ctx in
  let inner := {| status := Eip658 (is_success (ctx_result ctx));
                  cumulative_gas_used := ctx_cumulative_gas_used ctx; logs := logs |} in
  let l1_fee := ctx_l1_fee ctx in
  match tx_type (ctx_tx ctx) with
  | TLegacy => RLegacy (with_l1_fee inner l1_fee)
  | TEip2930 => REip2930 (with_l1_fee inner l1_fee)
  | TEip1559 => REip1559 (with_l1_fee inner l1_fee)
  | TEip7702 => REip7702 (with_l1_fee inner l1_fee)
  | TL1Msg => RL1Msg inner
  | TMorph =>
      match ctx_morph_tx_fields ctx with
      | Some f => RMorph (with_morph_tx_v1 inner l1_fee (f_version f) (f_fee_token_id f)
                   (f_fee_rate f) (f_token_scale f) (f_fee_limit f) (f_reference f) (f_memo f))
      | None => RMorph (with_l1_fee inner l1_fee)
      end
  end.
End BuildReceipt.
Arguments MorphReceiptBuilderCtx : clear implicits.

(** ** The executor *)

Section Executor.
Context {J Er Code Log St CP : Type} `{JournalOps J Er Code Log St CP}.
Context {ETH AL SA RA SG EvmErr : Type}.
Abbreviation envelope := (MorphTxEnvelope ETH AL SA SG).
Abbreviation evm := (MorphEvm J Er Log).
Context (keccak256 : bytes → Z).
(** alloy: the accessors of the Ethereum transactions. *)
Context (eth_view : ETH → TxView AL SA).
(** revm: one transaction, its error as a block error, committing its state
    changes, and loading an account from the database. *)
Context (transact : MorphTxEnv AL SA RA → sm evm EvmErr (ExecutionResult Log * St)).
Context (block_execution_error_evm : EvmErr → BlockExecutionError).
Context (commit : St → J → J).
Context (db_basic : Address → sm J string unit).
Context (err_string : Er → string).
(** The gas limit of the block environment. *)
Context (block_gas_limit : Z).

(** [alloy_consensus::Transaction::gas_limit]. *)
Definition tx_gas_limit (t : envelope) : Z := v_gas_limit _ _ (view eth_view t).

Record MorphBlockExecutor := {
  ex_evm : evm;
  receipts : list (MorphReceipt Log);
  ex_gas_used : Z;
  gas_pool_used : Z;
}.

Definition executor_new (e : evm) : MorphBlockExecutor := {|
  ex_evm := e; receipts := []; ex_gas_used := 0; gas_pool_used := 0 |}.

Definition set_evm (e : evm) (x : MorphBlockExecutor) : MorphBlockExecutor := {|
  ex_evm := e; receipts := receipts x; ex_gas_used := ex_gas_used x;
  gas_pool_used := gas_pool_used x |}.

Record MorphTxResult := {
  r_result : ExecutionResult Log;
  r_state : St;
  r_recovered : Recovered envelope;
  r_l1_fee : Z;
  r_pre_fee_logs : list Log;
  r_post_fee_logs : list Log;
}.

Definition get_morph_tx_fields (e : evm) (tx : envelope) (sender : Address)
  : result (option MorphReceiptTxFields) BlockExecutionError :=
  if negb (is_morph_tx tx) then Ok None
  else
    let? fee_token_id := ok_or (MorphTxEnvelope.fee_token_id tx)
      (MissingField "MorphTx missing fee_token_id"%string) in
    let? fee_limit := ok_or (MorphTxEnvelope.fee_limit tx)
      (MissingField "MorphTx missing fee_limit"%string) in
    let version := default 0 (MorphTxEnvelope.version tx) in
    let reference := MorphTxEnvelope.reference tx in
    let memo := MorphTxEnvelope.memo tx in
    if fee_token_id =? 0 then
      Ok (Some {| f_version := version; f_fee_token_id := 0; f_fee_rate := None;
                  f_token_scale := None; f_fee_limit := fee_limit; f_reference := reference;
                  f_memo := memo |})
    else
      let? token_info :=
        match cached_token_fee_info e with
        | Some info => Ok (Some info)
        | None => map_err (λ err, InternalError (err_string err))
            (load_storage_only keccak256 (db_storage (journal e)) fee_token_id sender)
        end in
      Ok ((λ info, {| f_version := version; f_fee_token_id := fee_token_id;
                      f_fee_rate := Some (price_ratio info); f_token_scale := Some (scale info);
                      f_fee_limit := fee_limit; f_reference := reference; f_memo := memo |})
          <$> token_info).

Definition apply_pre_execution_changes : sm MorphBlockExecutor BlockExecutionError unit := λ x,
  let '(j, r) := db_basic L1Fee.L1_GAS_PRICE_ORACLE_ADDRESS (journal (ex_evm x)) in
  (set_evm (set_journal j (ex_evm x)) x, map_err InternalError r).

(** [std::mem::take] of the two fee-log buffers. *)
Definition take_pre_fee_logs (e : evm) : evm * list Log :=
  (set_fee_logs [] (post_fee_logs e) e, pre_fee_logs e).
Definition take_post_fee_logs (e : evm) : evm * list Log :=
  (set_fee_logs (pre_fee_logs e) [] e, post_fee_logs e).

Definition execute_transaction_without_commit (tx_env : MorphTxEnv AL SA RA)
    (recovered : Recovered envelope) : sm MorphBlockExecutor BlockExecutionError MorphTxResult :=
  λ x,
  let block_available_gas := saturating_sub block_gas_limit (gas_pool_used x) in
  if block_available_gas <? tx_gas_limit (rec_tx recovered) then
    (x, Err (GasLimitExceedsAvailable (tx_gas_limit (rec_tx recovered)) block_available_gas))
  else
    match transact tx_env (ex_evm x) with
    | (e, Err err) => (set_evm e x, Err (block_execution_error_evm err))
    | (e, Ok (result, state)) =>
        let l1_fee := cached_l1_data_fee e in
        let '(e, pre_fee_logs) := take_pre_fee_logs e in
        let '(e, post_fee_logs) := take_post_fee_logs e in
        (set_evm e x, Ok {| r_result := result; r_state := state; r_recovered := recovered;
           r_l1_fee := l1_fee; r_pre_fee_logs := pre_fee_logs;
           r_post_fee_logs := post_fee_logs |})
    end.

(** Returns the executor and the gas reported for the transaction. *)
Definition commit_transaction (output : MorphTxResult) (x : MorphBlockExecutor)
  : MorphBlockExecutor * Z :=
  let gas_used := tx_gas_used (r_result output) in
  let tx := rec_tx (r_recovered output) in
  let total_gas_used := wrapping_add u64_max (ex_gas_used x) gas_used in
  let pool := wrapping_add u64_max (gas_pool_used x)
    (if is_l1_msg tx then tx_gas_limit tx else gas_used) in
  let morph_tx_fields :=
    match get_morph_tx_fields (ex_evm x) tx (signer (r_recovered output)) with
    | Ok fields => fields
    | Err _ => None
    end in
  let ctx := {| ctx_tx := tx; ctx_result := r_result output;
    ctx_cumulative_gas_used := total_gas_used; ctx_l1_fee := r_l1_fee output;
    ctx_morph_tx_fields := morph_tx_fields; ctx_pre_fee_logs := r_pre_fee_logs output;
    ctx_post_fee_logs := r_post_fee_logs output |} in
  let e := set_journal (commit (r_state output) (journal (ex_evm x))) (ex_evm x) in
  ({| ex_evm := e; receipts := receipts x ++ [build_receipt ctx];
      ex_gas_used := total_gas_used; gas_pool_used := pool |}, gas_used).

Record BlockExecutionResult := {
  result_receipts : list (MorphReceipt Log);
  result_gas_used : Z;
  result_blob_gas_used : Z;
}.

Definition executor_finish (x : MorphBlockExecutor) : evm * BlockExecutionResult :=
  (ex_evm x, {| result_receipts := receipts x; result_gas_used := ex_gas_used x;
                result_blob_gas_used := 0 |}).
End Executor.
Arguments MorphBlockExecutor : clear implicits.
Arguments MorphTxResult : clear implicits.
Arguments BlockExecutionResult : clear implicits.

(** ** Environments and assembly *)

(** revm's [CfgEnv] and [BlockEnv], the fields the code sets. *)
Record CfgEnv := {
  cfg_chain_id : Z;
  cfg_spec : MorphHardfork;
  disable_eip7623 : bool;
  tx_gas_limit_cap : option Z;
}.

Record FullBlockEnv := {
  be_number : Z;
  be_beneficiary : Address;
  be_timestamp : Z;
  be_difficulty : Z;
  be_prevrandao : option B256;
  be_gas_limit : Z;
  be_basefee : Z;
  be_excess_blob_gas : Z;
  be_blob_gasprice : Z;
}.

Record EvmEnv := { cfg_env : CfgEnv; block_env : FullBlockEnv }.

(** [MorphNextBlockEnvAttributes], the fields the code reads. *)
Record NextBlockEnvAttributes := {
  na_timestamp : Z;
  na_suggested_fee_recipient : Address;
  na_gas_limit : Z;
  na_extra_data : bytes;
  na_base_fee_per_gas : option Z;
}.

(** [EthBlockExecutionCtx], the fields the assembler reads. *)
Record BlockExecutionCtx := { ctx_parent_hash : B256; ctx_extra_data : bytes }.

Definition MORPH_BASE_FEE : Z := 1000000.

Section Assembly.
Context {T E F : Type} `{ForkConditionOps F} `{ChainHardforksOps T E F}.
Context {ETH AL SA SG Log : Type} `{AlloyRlp AL SA SG, AlloyReceipt Log}.
Abbreviation envelope := (MorphTxEnvelope ETH AL SA SG).
Context (chain_id : Z).
(** reth's [is_london_active_at_block] and alloy's hashes. *)
Context (is_london_active_at_block : Z → bool).
Context (EMPTY_OMMER_ROOT_HASH : B256).
Context (calculate_transaction_root : list envelope → B256).
Context (logs_bloom : list Log → Z) (ordered_trie_root : list bytes → Z).
Implicit Types chain_spec : MorphChainSpec T.

Definition next_block_base_fee : option Z := Some MORPH_BASE_FEE.

Definition evm_env chain_spec (h : Consensus.Header) : EvmEnv :=
  let spec := morph_hardfork_at chain_spec (Consensus.number h) (Consensus.timestamp h) in
  let fee_recipient :=
    default (Consensus.beneficiary h) (fee_vault_address (morph_chain_info (info chain_spec))) in
  {| cfg_env := {| cfg_chain_id := chain_id; cfg_spec := spec; disable_eip7623 := true;
       tx_gas_limit_cap := Some (Consensus.gas_limit h) |};
     block_env := {| be_number := Consensus.number h; be_beneficiary := fee_recipient;
       be_timestamp := Consensus.timestamp h; be_difficulty := Consensus.difficulty h;
       be_prevrandao := Some (Consensus.mix_hash h); be_gas_limit := Consensus.gas_limit h;
       be_basefee := default 0 (Consensus.base_fee_per_gas h);
       be_excess_blob_gas := 0; be_blob_gasprice := 1 |} |}.

Definition next_evm_env chain_spec (parent : Consensus.Header) (a : NextBlockEnvAttributes)
  : EvmEnv :=
  let number := wrapping_add u64_max (Consensus.number parent) 1 in
  let spec := morph_hardfork_at chain_spec number (na_timestamp a) in
  let fee_recipient := default (na_suggested_fee_recipient a)
    (fee_vault_address (morph_chain_info (info chain_spec))) in
  {| cfg_env := {| cfg_chain_id := chain_id; cfg_spec := spec; disable_eip7623 := true;
       tx_gas_limit_cap := Some (na_gas_limit a) |};
     block_env := {| be_number := number; be_beneficiary := fee_recipient;
       be_timestamp := na_timestamp a; be_difficulty := 0; be_prevrandao := Some 0;
       be_gas_limit := na_gas_limit a;
       be_basefee := match na_base_fee_per_gas a with
                     | Some fee => fee
                     | None => default 0 next_block_base_fee
                     end;
       be_excess_blob_gas := 0; be_blob_gasprice := 1 |} |}.

Definition context_for_next_block (parent : SealedHeader) (a : NextBlockEnvAttributes)
  : BlockExecutionCtx :=
  {| ctx_parent_hash := Consensus.hash parent; ctx_extra_data := na_extra_data a |}.

Definition assemble_block (env : EvmEnv) (ctx : BlockExecutionCtx) (parent : SealedHeader)
    (transactions : list envelope) (output : BlockExecutionResult Log) (state_root : B256)
  : MorphHeader * BlockBody ETH AL SA SG :=
  let b := block_env env in
  let inner := {|
    Consensus.parent_hash := ctx_parent_hash ctx;
    Consensus.ommers_hash := EMPTY_OMMER_ROOT_HASH;
    Consensus.beneficiary := 0;
    Consensus.state_root := state_root;
    Consensus.transactions_root := calculate_transaction_root transactions;
    Consensus.receipts_root :=
      calculate_receipt_root_no_memo logs_bloom ordered_trie_root (result_receipts output);
    Consensus.logs_bloom :=
      logs_bloom (concat (map (λ r, logs (as_receipt r)) (result_receipts output)));
    Consensus.difficulty := be_difficulty b;
    Consensus.number := be_number b;
    Consensus.gas_limit := be_gas_limit b;
    Consensus.gas_used := result_gas_used output;
    Consensus.timestamp := be_timestamp b;
    Consensus.mix_hash := 0;
    Consensus.nonce := Some 0;
    Consensus.base_fee_per_gas :=
      if is_london_active_at_block (be_number b) then Some (be_basefee b) else None;
    Consensus.extra_data := ctx_extra_data ctx |} in
  ({| Consensus.next_l1_msg_index := Consensus.next_l1_msg_index (Consensus.header parent);
      Consensus.inner := inner |},
   {| transactions := transactions; ommers := []; withdrawals := None |}).
End Assembly.

(** ** Lemmas *)

(** Running totals. *)
Fixpoint prefix_sums (acc : Z) (l : list Z) : list Z :=
  match l with [] => [] | x :: l => (acc + x) :: prefix_sums (acc + x) l end.

Lemma last_prefix_sums acc l : default acc (last (prefix_sums acc l)) = acc + sum_by id l.
Proof.
  revert acc. induction l as [|x l IH]; intros acc; cbn [prefix_sums sum_by foldr]; [simpl; lia|].
  rewrite last_cons. fold (sum_by id l). specialize (IH (acc + x)). change (id x) with x.
  destruct (last (prefix_sums (acc + x) l)); simpl in *; lia.
Qed.

Section ExecutorLemmas.
Context {J Er Code Log St CP : Type} `{JournalOps J Er Code Log St CP}.
Context {ETH AL SA RA SG EvmErr : Type}.
Abbreviation envelope := (MorphTxEnvelope ETH AL SA SG).
Context (keccak256 : bytes → Z) (eth_view : ETH → TxView AL SA).
Context (transact : MorphTxEnv AL SA RA →
  sm (MorphEvm J Er Log) EvmErr (ExecutionResult Log * St)).
Context (err_evm : EvmErr → BlockExecutionError) (commit : St → J → J).
Context (err_string : Er → string) (block_gas_limit : Z).
Abbreviation X := (MorphBlockExecutor J Er Log).
Abbreviation gas_of := (tx_gas_limit (SG := SG) eth_view).

(** [BlockExecutor::execute_transaction]: execute, then commit. *)
Definition execute_transaction (env : MorphTxEnv AL SA RA) (rec : Recovered envelope)
  : sm X BlockExecutionError Z := λ x,
  match execute_transaction_without_commit eth_view transact err_evm block_gas_limit env rec x with
  | (x, Ok output) =>
      let '(x, g) := commit_transaction keccak256 eth_view commit err_string output x in (x, Ok g)
  | (x, Err e) => (x, Err e)
  end.

(** What one executed transaction did, in terms of revm's run. *)
Lemma execute_transaction_Ok env rec x x' g :
  execute_transaction env rec x = (x', Ok g) ↔
  ∃ e res st, transact env (ex_evm x) = (e, Ok (res, st))
    ∧ gas_of (rec_tx rec) ≤ saturating_sub block_gas_limit (gas_pool_used x)
    ∧ let e0 := set_fee_logs [] [] e in
      g = tx_gas_used res
    ∧ x' = {| ex_evm := set_journal (commit st (journal e)) e0;
              receipts := receipts x ++ [build_receipt {|
                ctx_tx := rec_tx rec; ctx_result := res;
                ctx_cumulative_gas_used := wrapping_add u64_max (ex_gas_used x) g;
                ctx_l1_fee := cached_l1_data_fee e;
                ctx_morph_tx_fields :=
                  match get_morph_tx_fields keccak256 err_string e0 (rec_tx rec) (signer rec) with
                  | Ok fields => fields | Err _ => None end;
                ctx_pre_fee_logs := pre_fee_logs e; ctx_post_fee_logs := post_fee_logs e |}];
              ex_gas_used := wrapping_add u64_max (ex_gas_used x) g;
              gas_pool_used := wrapping_add u64_max (gas_pool_used x)
                (if is_l1_msg (rec_tx rec) then gas_of (rec_tx rec) else g) |}.
Proof using.
  unfold execute_transaction, execute_transaction_without_commit.
  destruct (Z.ltb_spec (saturating_sub block_gas_limit (gas_pool_used x)) (gas_of (rec_tx rec)))
    as [Hlt|Hle].
  { split; [done|]. intros (e & res & st & _ & Hle & _). lia. }
  destruct (transact env (ex_evm x)) as [e [[res st]|err]]; cbn.
  - split.
    + intros [= <- <-]. exists e, res, st. split_and!; done.
    + intros (? & ? & ? & [= <- <- <-] & _ & -> & ->). done.
  - split; [done|]. intros (? & ? & ? & [=] & _).
Qed.

Lemma execute_transaction_Err env rec x x' err :
  execute_transaction env rec x = (x', Err err) →
  receipts x' = receipts x ∧ ex_gas_used x' = ex_gas_used x ∧ gas_pool_used x' = gas_pool_used x.
Proof using.
  unfold execute_transaction, execute_transaction_without_commit.
  destruct (_ <? _); [by intros [= <- _]|].
  destruct (transact env (ex_evm x)) as [e [[res st]|err']]; cbn; [done|by intros [= <- _]].
Qed.

(** A block: transactions that were committed, with the gas they reported, and
    transactions whose execution failed. *)
Inductive block_run : X → list (Recovered envelope * Z) → X → Prop :=
| run_done x : block_run x [] x
| run_committed env rec x x1 g l x2 :
    TxEnv.gas_limit (TxEnv.inner env) = gas_of (rec_tx rec) →
    execute_transaction env rec x = (x1, Ok g) → block_run x1 l x2 →
    block_run x ((rec, g) :: l) x2
| run_failed env rec x x1 err l x2 :
    execute_transaction env rec x = (x1, Err err) → block_run x1 l x2 → block_run x l x2.

(** What a committed transaction takes out of the block's gas pool. *)
Definition pool_charge (p : Recovered envelope * Z) : Z :=
  if is_l1_msg (rec_tx p.1) then gas_of (rec_tx p.1) else p.2.

(** revm reports at most the gas limit of the transaction. *)
Definition gas_within_limit : Prop := ∀ env e e' res st,
  transact env e = (e', Ok (res, st)) →
  0 ≤ tx_gas_used res ≤ TxEnv.gas_limit (TxEnv.inner env).

(** The accounting invariant of the executor. *)
Record executor_ok (x : X) : Prop := {
  used_le_pool : 0 ≤ ex_gas_used x ≤ gas_pool_used x;
  pool_le_limit : gas_pool_used x ≤ block_gas_limit;
}.

Context (Hgas : gas_within_limit) (Hlimit : 0 ≤ block_gas_limit ≤ u64_max).

Lemma executor_new_ok e : executor_ok (executor_new e).
Proof using Hlimit. split; simpl; lia. Qed.

Lemma build_receipt_type (ctx : MorphReceiptBuilderCtx ETH AL SA SG Log) :
  receipt_type (build_receipt ctx) = tx_type (ctx_tx ctx)
  ∧ cumulative_gas_used (as_receipt (build_receipt ctx)) = ctx_cumulative_gas_used ctx.
Proof using. unfold build_receipt. by destruct (tx_type (ctx_tx ctx)), (ctx_morph_tx_fields ctx). Qed.

Lemma execute_step_ok env rec x x' g :
  TxEnv.gas_limit (TxEnv.inner env) = gas_of (rec_tx rec) → executor_ok x →
  execute_transaction env rec x = (x', Ok g) →
  executor_ok x' ∧ ex_gas_used x' = ex_gas_used x + g
  ∧ gas_pool_used x' = gas_pool_used x + pool_charge (rec, g)
  ∧ ∃ r, receipts x' = receipts x ++ [r] ∧ receipt_type r = tx_type (rec_tx rec)
      ∧ cumulative_gas_used (as_receipt r) = ex_gas_used x + g.
Proof using Hgas Hlimit.
  intros Hl [Hu Hp] (e & res & st & Ht & Hav & -> & ->)%execute_transaction_Ok.
  pose proof (Hgas _ _ _ _ _ Ht) as Hg. rewrite Hl in Hg.
  unfold saturating_sub in Hav. unfold pool_charge. cbn [fst snd ex_gas_used gas_pool_used receipts].
  assert (gas_pool_used x + gas_of (rec_tx rec) ≤ block_gas_limit ∨ gas_of (rec_tx rec) = 0) as Hfit
    by lia.
  rewrite !wrapping_add_exact by (destruct (is_l1_msg (rec_tx rec)); lia).
  split_and!; [|done..|].
  - split; simpl; destruct (is_l1_msg (rec_tx rec)); lia.
  - eexists. split; [done|]. apply build_receipt_type.
Qed.

(** Over a block the accounting is exact. *)
Lemma block_run_accounting x l x' :
  block_run x l x' → executor_ok x →
  executor_ok x' ∧ ex_gas_used x' = ex_gas_used x + sum_by snd l
  ∧ gas_pool_used x' = gas_pool_used x + sum_by pool_charge l
  ∧ ∃ rs, receipts x' = receipts x ++ rs
      ∧ map receipt_type rs = map (λ p, tx_type (rec_tx p.1)) l
      ∧ map (λ r, cumulative_gas_used (as_receipt r)) rs
        = prefix_sums (ex_gas_used x) (map snd l).
Proof using Hgas Hlimit.
  induction 1 as [x|env rec x x1 g l x2 Hl Hx Hrun IH|env rec x x1 err l x2 Hx Hrun IH];
    intros Hok.
  - split; [done|]. simpl. split_and!; [lia..|]. exists []. by rewrite app_nil_r.
  - destruct (execute_step_ok _ _ _ _ _ Hl Hok Hx) as (Hok1 & Hu & Hp & r & Hr & Hty & Hc).
    destruct (IH Hok1) as (Hok2 & Hu2 & Hp2 & rs & Hrs & Htys & Hcs).
    split; [done|]. simpl. split_and!; [lia..|]. exists (r :: rs).
    rewrite Hrs, Hr, <-app_assoc. split_and!; [done|simpl; by f_equal|].
    simpl. rewrite Hc, Hcs, Hu. done.
  - apply execute_transaction_Err in Hx as (Hr & Hu & Hp).
    destruct IH as (Hok2 & Hu2 & Hp2 & rs & Hrs & Htys & Hcs).
    { destruct Hok. split; lia. }
    rewrite Hr, Hu, Hp in *. split; [done|]. split_and!; [done..|]. by exists rs.
Qed.

(** C39. Gas accounting of a block: over any run of the executor, failed
    transactions included, the block's gas is the sum of what the committed
    transactions reported, never above the gas pool charge, which counts L1
    messages at their full limit and never exceeds the block gas limit; nothing
    wraps.  There is one receipt per committed transaction, in order, of its type,
    and its cumulative gas is the running total. *)
Theorem block_gas_accounting (e : MorphEvm J Er Log) l x :
  block_run (executor_new e) l x →
  ex_gas_used x = sum_by snd l ∧ gas_pool_used x = sum_by pool_charge l
  ∧ 0 ≤ ex_gas_used x ≤ gas_pool_used x ∧ gas_pool_used x ≤ block_gas_limit
  ∧ map receipt_type (receipts x) = map (λ p, tx_type (rec_tx p.1)) l
  ∧ map (λ r, cumulative_gas_used (as_receipt r)) (receipts x) = prefix_sums 0 (map snd l).
Proof using Hgas Hlimit.
  intros Hrun.
  destruct (block_run_accounting _ _ _ Hrun (executor_new_ok e))
    as ([Hu Hp] & Hg & Hpool & rs & Hrs & Hty & Hc).
  cbn [executor_new ex_gas_used gas_pool_used receipts app] in *.
  rewrite Hrs. split_and!; try done; lia.
Qed.
End ExecutorLemmas.

(** *** The receipt of a transaction *)

Section ReceiptTheorem.
Context {J Er Code Log St CP : Type} `{JournalOps J Er Code Log St CP}.
Context {ETH AL SA RA SG EvmErr : Type}.
Context (keccak256 : bytes → Z) (eth_view : ETH → TxView AL SA).
Context (transact : MorphTxEnv AL SA RA →
  sm (MorphEvm J Er Log) EvmErr (ExecutionResult Log * St)).
Context (err_evm : EvmErr → BlockExecutionError) (commit : St → J → J).
Context (err_string : Er → string) (block_gas_limit : Z).

Lemma build_receipt_inner (ctx : MorphReceiptBuilderCtx ETH AL SA SG Log) :
  as_receipt (build_receipt ctx)
  = {| status := Eip658 (is_success (ctx_result ctx));
       cumulative_gas_used := ctx_cumulative_gas_used ctx;
       logs := ctx_pre_fee_logs ctx ++ into_logs (ctx_result ctx) ++ ctx_post_fee_logs ctx |}
  ∧ receipt_l1_fee (build_receipt ctx)
    = (if is_l1_msg (ctx_tx ctx) then 0 else ctx_l1_fee ctx).
Proof using.
  unfold build_receipt, is_l1_msg. by destruct (tx_type (ctx_tx ctx)), (ctx_morph_tx_fields ctx).
Qed.

(** The MorphTx fields shown, when the fee was paid in ETH or from cached token
    parameters. *)
Lemma morph_fields_shown (e : MorphEvm J Er Log) (t : Signed (TxMorph.TxMorph AL SA) SG) sender :
  let m := MorphTxEnvelope.tx t in
  TxMorph.fee_token_id m = 0 ∨ is_Some (cached_token_fee_info e) →
  ∃ f, get_morph_tx_fields (ETH := ETH) keccak256 err_string e (Morph t) sender = Ok (Some f)
    ∧ f_version f = TxMorph.version m ∧ f_fee_token_id f = TxMorph.fee_token_id m
    ∧ f_fee_limit f = TxMorph.fee_limit m ∧ f_reference f = TxMorph.reference m
    ∧ f_memo f = TxMorph.memo m
    ∧ (if TxMorph.fee_token_id m =? 0 then f_fee_rate f = None ∧ f_token_scale f = None
       else f_fee_rate f = price_ratio <$> cached_token_fee_info e
            ∧ f_token_scale f = scale <$> cached_token_fee_info e).
Proof using.
  intros m Hm. unfold get_morph_tx_fields. cbn. fold m.
  destruct (Z.eqb_spec (TxMorph.fee_token_id m) 0) as [Hz|Hz].
  - eexists. split; [done|]. cbn. by rewrite Hz.
  - destruct Hm as [?|[i Hi]]; [done|]. rewrite Hi. cbn. eexists. by split.
Qed.

(** The receipt of a committed transaction: it records the success flag, the
    fee-deduction logs, the transaction's own logs and the refund logs in that
    order, and the L1 fee the handler charged (none for an L1 message), also when
    the transaction reverted.  A MorphTx receipt shows the transaction's fee
    fields and, for a token fee, the very price and scale the fee was charged
    with.  The fee-log buffers are empty afterwards, so no log is recorded
    twice. *)
Theorem committed_receipt_contents env (rec : Recovered (MorphTxEnvelope ETH AL SA SG)) x x' g :
  execute_transaction keccak256 eth_view transact err_evm commit err_string block_gas_limit
    env rec x = (x', Ok g) →
  ∃ e res st r,
    transact env (ex_evm x) = (e, Ok (res, st))
    ∧ receipts x' = receipts x ++ [r]
    ∧ status (as_receipt r) = Eip658 (is_success res)
    ∧ logs (as_receipt r) = pre_fee_logs e ++ into_logs res ++ post_fee_logs e
    ∧ receipt_l1_fee r = (if is_l1_msg (rec_tx rec) then 0 else cached_l1_data_fee e)
    ∧ (∀ t, rec_tx rec = Morph t →
         TxMorph.fee_token_id (MorphTxEnvelope.tx t) = 0 ∨ is_Some (cached_token_fee_info e) →
         ∃ m, r = RMorph m
           ∧ Receipts.version m = Some (TxMorph.version (MorphTxEnvelope.tx t))
           ∧ Receipts.fee_token_id m = Some (TxMorph.fee_token_id (MorphTxEnvelope.tx t))
           ∧ Receipts.fee_limit m = Some (TxMorph.fee_limit (MorphTxEnvelope.tx t))
           ∧ (if TxMorph.fee_token_id (MorphTxEnvelope.tx t) =? 0
              then fee_rate m = None ∧ token_scale m = None
              else fee_rate m = price_ratio <$> cached_token_fee_info e
                   ∧ token_scale m = scale <$> cached_token_fee_info e))
    ∧ pre_fee_logs (ex_evm x') = [] ∧ post_fee_logs (ex_evm x') = []
    ∧ journal (ex_evm x') = commit st (journal e).
Proof using.
  intros (e & res & st & Ht & _ & -> & ->)%execute_transaction_Ok.
  cbn [receipts ex_evm]. eexists e, res, st, _. split; [done|]. split; [done|].
  match goal with |- context [build_receipt ?c] => set (ctx := c) end.
  destruct (build_receipt_inner ctx) as [-> ->]. split_and!; try done.
  intros t Htx Hf. subst ctx. rewrite Htx. unfold build_receipt. cbn [tx_type ctx_tx].
  destruct (morph_fields_shown (set_fee_logs [] [] e) t (signer rec) Hf)
    as (f & Hget & Hv & Hid & Hl & _ & _ & Hr).
  cbn [ctx_morph_tx_fields]. rewrite Hget. eexists. split; [done|]. cbn.
  rewrite Hv, Hid, Hl. split_and!; done.
Qed.
End ReceiptTheorem.

(** *** The assembled block *)

Section AssemblyTheorems.
Context {J Er Code Log St CP : Type} `{JournalOps J Er Code Log St CP}.
Context {ETH AL SA RA SG EvmErr : Type} `{AlloyRlp AL SA SG, AlloyReceipt Log}.
Context {T E F : Type} `{ForkConditionOps F} `{ChainHardforksOps T E F}.
Abbreviation envelope := (MorphTxEnvelope ETH AL SA SG).
Context (keccak256 : bytes → Z) (eth_view : ETH → TxView AL SA).
Context (transact : MorphTxEnv AL SA RA →
  sm (MorphEvm J Er Log) EvmErr (ExecutionResult Log * St)).
Context (err_evm : EvmErr → BlockExecutionError) (commit : St → J → J).
Context (err_string : Er → string).
Context (chain_id : Z) (is_london_active_at_block : Z → bool) (EMPTY_OMMER_ROOT_HASH : B256).
Context (calculate_transaction_root : list envelope → B256).
Context (logs_bloom : list Log → Z) (ordered_trie_root : list bytes → Z).
Context (calculate_receipt_root : list (MorphReceipt Log) → B256).
Context (gas_spent : list (MorphReceipt Log) → list (Z * Z)).

(** The bloom of a list of logs accrues its parts. *)
Definition bloom_accrues : Prop :=
  logs_bloom [] = 0 ∧ ∀ a b, logs_bloom (a ++ b) = Z.lor (logs_bloom a) (logs_bloom b).

Lemma bloom_of_receipts (rs : list (MorphReceipt Log)) acc : bloom_accrues →
  foldl (λ bloom r, Z.lor bloom (receipt_bloom logs_bloom r)) acc rs
  = Z.lor acc (logs_bloom (concat (map (λ r, logs (as_receipt r)) rs))).
Proof using.
  intros [Hnil Happ]. revert acc. induction rs as [|r rs IH]; intros acc; simpl.
  - by rewrite Hnil, Z.lor_0_r.
  - rewrite IH, Happ. unfold receipt_bloom. by rewrite Z.lor_assoc.
Qed.

(** What the assembler builds from the executor's output passes post-execution
    validation on every other node: gas used, receipt root and logs bloom of the
    header are those of the receipts, and the gas used is within the gas limit. *)
Lemma assembled_block_passes_post_execution chain_spec parent attrs ctx sealed_parent
    (e : MorphEvm J Er Log) (l : list (Recovered envelope * Z)) x root :
  let env := next_evm_env chain_id chain_spec parent attrs in
  let out := (executor_finish x).2 in
  let txs := map (λ p, rec_tx p.1) l in
  let h := Consensus.inner (assemble_block is_london_active_at_block EMPTY_OMMER_ROOT_HASH
    calculate_transaction_root logs_bloom ordered_trie_root env ctx sealed_parent txs out root).1 in
  gas_within_limit transact → 0 ≤ be_gas_limit (block_env env) ≤ u64_max →
  bloom_accrues →
  (∀ rs, calculate_receipt_root rs
         = calculate_receipt_root_no_memo logs_bloom ordered_trie_root rs) →
  block_run keccak256 eth_view transact err_evm commit err_string
    (be_gas_limit (block_env env)) (executor_new e) l x →
  validate_block_post_execution (λ r, cumulative_gas_used (as_receipt r))
    (receipt_bloom logs_bloom) calculate_receipt_root gas_spent h (result_receipts out) None
    = Ok tt
  ∧ Consensus.gas_used h ≤ Consensus.gas_limit h.
Proof using.
  intros env out txs h Hgas Hlim Hbloom Hroot Hrun.
  destruct (block_run_accounting _ _ _ _ _ _ _ Hgas Hlim _ _ _ Hrun
    (executor_new_ok _ Hlim e)) as ([Hu Hp] & Hg & _ & rs & Hrs & _ & Hc).
  cbn [executor_new ex_gas_used gas_pool_used receipts app] in *.
  split; [|unfold h, out; cbn -[env]; lia].
  unfold validate_block_post_execution. cbv zeta.
  assert (default 0 ((λ r, cumulative_gas_used (as_receipt r)) <$> last (result_receipts out))
    = Consensus.gas_used h) as ->.
  { unfold out, h. cbn -[env last]. rewrite Hrs, Hg, <-fmap_last.
    change ((λ r, cumulative_gas_used (as_receipt r)) <$> rs)
      with (map (λ r, cumulative_gas_used (as_receipt r)) rs).
    rewrite Hc, last_prefix_sums. by rewrite <-(sum_by_map snd). }
  rewrite Z.eqb_refl. cbn [negb]. unfold verify_receipts. cbv zeta.
  rewrite Hroot, bloom_of_receipts, Z.lor_0_l by done.
  unfold h, out. cbn -[env]. by rewrite !Z.eqb_refl.
Qed.

(** A node that imports the assembled block executes it in the environment
    the builder executed it in: same hardfork, number, time, limits, base fee and
    fee recipient.  It holds when London is active and the fees go to the fee
    vault or, without one, to the zero address, which is all the header keeps. *)
Theorem replay_environment_agrees (chain_spec : MorphChainSpec T) parent attrs ctx sealed_parent
    (txs : list envelope) (out : BlockExecutionResult Log) root :
  let env := next_evm_env chain_id chain_spec parent attrs in
  let h := Consensus.inner (assemble_block is_london_active_at_block EMPTY_OMMER_ROOT_HASH
    calculate_transaction_root logs_bloom ordered_trie_root env ctx sealed_parent txs out root).1 in
  is_london_active_at_block (be_number (block_env env)) = true →
  (is_fee_vault_enabled chain_spec = true ∨ na_suggested_fee_recipient attrs = 0) →
  evm_env chain_id chain_spec h = env.
Proof using.
  intros env h Hlondon Hfee. unfold evm_env, h. cbn -[env]. rewrite Hlondon.
  unfold env, next_evm_env. cbn.
  destruct (fee_vault_address (morph_chain_info (info chain_spec))) eqn:Hv; cbn; [done|].
  destruct Hfee as [Hf| ->]; [|done].
  unfold is_fee_vault_enabled, config_is_fee_vault_enabled in Hf. bool_simp.
  rewrite Hv in Hf. by destruct Hf.
Qed.
End AssemblyTheorems.

(** ** Witnesses *)

Module ExecSamples.
Abbreviation journal := MapJournal.journal.
Abbreviation evm := (MorphEvm journal unit Z).
Abbreviation envelope := (MorphTxEnvelope unit (list bytes) bytes Standard.Signature).
Abbreviation env := (MorphTxEnv (list bytes) bytes bytes).
#[export] Existing Instance MapJournal.ops.
#[export] Existing Instance Standard.ops.

Definition journal0 : journal := {|
  MapJournal.balances := ∅; MapJournal.nonces := ∅; MapJournal.slots := ∅;
  MapJournal.committed := ∅; MapJournal.warm_accounts := ∅; MapJournal.warm_slots := ∅;
  MapJournal.touched := ∅; MapJournal.logs := [] |}.

Definition evm0 : evm := {|
  FeeHandler.journal := journal0; ctx_error := None; cached_token_fee_info := None;
  cached_alt_fee_rounding_credit := 0; cached_l1_data_fee := 0; pre_fee_refund := 0;
  pre_fee_logs := []; post_fee_logs := [] |}.

(** Every transaction uses 21000 gas and logs 7, between a fee log 10 and a refund
    log 11, at an L1 fee of 5 and with the sample token's parameters cached. *)
Definition transact (t : env) : sm evm unit (ExecutionResult Z * journal) := λ e,
  if 21000 <=? TxEnv.gas_limit (TxEnv.inner t) then
    (set_caches (Some TokenSamples.usd_info) 0 5 (set_fee_logs [10] [11] e),
     Ok ({| is_success := true; into_logs := [7]; tx_gas_used := 21000 |},
         FeeHandler.journal e))
  else (e, Err tt).

Lemma transact_gas : gas_within_limit transact.
Proof.
  intros t e e' res st. unfold transact.
  destruct (Z.leb_spec 21000 (TxEnv.gas_limit (TxEnv.inner t))); [|done].
  intros [= _ <- _]. cbn. lia.
Qed.

Definition eth_view (_ : unit) : TxView (list bytes) bytes := morph_tx_view TxMorph.sample_v1.
Definition keccak (b : bytes) : Z := len b.
Definition err_evm (_ : unit) : BlockExecutionError := InvalidTx false "bad"%string.
Definition commit (st _ : journal) : journal := st.
Definition err_string (_ : unit) : string := "db"%string.
Definition tx_env (r : Recovered envelope) : env :=
  from_recovered_tx eth_view (λ _, []) [] id (rec_tx r) (signer r).

Definition l1_tx : Recovered envelope := {| rec_tx := Consensus.Samples.l1 5; signer := 2 |}.
Definition morph_tx : Recovered envelope := {|
  rec_tx := Morph {| MorphTxEnvelope.tx := TxMorph.sample_v1;
                     MorphTxEnvelope.signature := TxMorph.sample_signature |}; signer := 9 |}.

Definition exec (r : Recovered envelope) (x : MorphBlockExecutor journal unit Z) :=
  execute_transaction keccak eth_view transact err_evm commit err_string 30000000 (tx_env r) r x.
Definition x0 : MorphBlockExecutor journal unit Z := executor_new evm0.
Definition x1 := (exec l1_tx x0).1.
Definition x2 := (exec morph_tx x1).1.
Definition txs : list (Recovered envelope * Z) := [(l1_tx, 21000); (morph_tx, 21000)].

Lemma run : block_run keccak eth_view transact err_evm commit err_string 30000000 x0 txs x2.
Proof.
  eapply (run_committed _ _ _ _ _ _ _ (tx_env l1_tx) l1_tx x0 x1 21000);
    [reflexivity|vm_compute; reflexivity|].
  eapply (run_committed _ _ _ _ _ _ _ (tx_env morph_tx) morph_tx x1 x2 21000);
    [reflexivity|vm_compute; reflexivity|].
  apply run_done.
Qed.
End ExecSamples.

Lemma block_gas_accounting_witness :
  ex_gas_used ExecSamples.x2 = 42000 ∧ gas_pool_used ExecSamples.x2 = 121000.
Proof.
  simple refine (let H := @block_gas_accounting _ _ _ _ _ _ MapJournal.ops _ _ _ _ _ _
    ExecSamples.keccak ExecSamples.eth_view ExecSamples.transact ExecSamples.err_evm
    ExecSamples.commit ExecSamples.err_string 30000000 _ _ ExecSamples.evm0 ExecSamples.txs
    ExecSamples.x2 _ in conj (proj1 H) (proj1 (proj2 H))).
  - exact ExecSamples.transact_gas.
  - split; vm_compute; discriminate.
  - exact ExecSamples.run.
Defined.

Lemma committed_receipt_contents_witness :
  ∃ r, receipts ExecSamples.x2 = receipts ExecSamples.x1 ++ [r]
    ∧ logs (as_receipt r) = [10; 7; 11] ∧ receipt_l1_fee r = 5.
Proof.
  destruct (@committed_receipt_contents _ _ _ _ _ _ MapJournal.ops _ _ _ _ _ _
    ExecSamples.keccak ExecSamples.eth_view
    ExecSamples.transact ExecSamples.err_evm ExecSamples.commit ExecSamples.err_string 30000000
    (ExecSamples.tx_env ExecSamples.morph_tx) ExecSamples.morph_tx ExecSamples.x1 ExecSamples.x2
    21000 eq_refl)
    as (e & res & st & r & Ht & Hr & _ & Hl & Hf & _).
  exists r. split; [exact Hr|]. vm_compute in Ht. injection Ht as <- <- _.
  split; [exact Hl|exact Hf].
Defined.

Definition sample_attrs : NextBlockEnvAttributes := {|
  na_timestamp := 1775628000; na_suggested_fee_recipient := 0; na_gas_limit := 30000000;
  na_extra_data := []; na_base_fee_per_gas := None |}.
Definition sample_parent : SealedHeader := Consensus.Samples.sample_header 9 1775627000 5 30000000.

(** Logs are numbers and a bloom sets the bit of each. *)
Definition sample_bloom (l : list Z) : Z := foldr (λ x b, Z.lor (Z.shiftl 1 (x mod 2048)) b) 0 l.

Lemma sample_bloom_accrues : bloom_accrues sample_bloom.
Proof.
  split; [done|]. intros a b. induction a as [|x a IH]; cbn [app sample_bloom foldr]; [done|].
  unfold sample_bloom in IH. by rewrite IH, Z.lor_assoc.
Qed.

Definition sample_env : EvmEnv :=
  @next_evm_env _ _ _ Concrete.fc_ops Concrete.table_ops 2818 Concrete.mainnet
    (Consensus.inner (Consensus.header sample_parent)) sample_attrs.
Definition sample_ctx : BlockExecutionCtx := {| ctx_parent_hash := 9; ctx_extra_data := [] |}.
Definition sample_out : BlockExecutionResult Z := (executor_finish ExecSamples.x2).2.
Definition sample_root (l : list bytes) : Z := len (concat l).
Definition sample_header : Consensus.Header :=
  Consensus.inner (@assemble_block _ _ _ _ _ Standard.ops ReceiptSamples.sample_receipt
    (λ _, true) 77 (λ _, 88) sample_bloom sample_root sample_env sample_ctx sample_parent
    (map (λ p, rec_tx p.1) ExecSamples.txs) sample_out 66).1.

Lemma replay_environment_agrees_witness :
  @evm_env _ _ _ Concrete.fc_ops Concrete.table_ops 2818 Concrete.mainnet sample_header = sample_env.
Proof.
  simple refine (@replay_environment_agrees _ _ _ _ _ Standard.ops ReceiptSamples.sample_receipt
    _ _ _ Concrete.fc_ops Concrete.table_ops 2818 (λ _, true) 77 (λ _, 88) sample_bloom sample_root
    Concrete.mainnet (Consensus.inner (Consensus.header sample_parent)) sample_attrs sample_ctx
    sample_parent (map (λ p, rec_tx p.1) ExecSamples.txs) sample_out 66 _ _).
  - reflexivity.
  - right. reflexivity.
Defined.
