(* ===== verification/PayloadTypes.v ===== *)
(** * Payload attributes and block data

    Models [crates/payload/types/src/attributes.rs] (the attributes of a payload
    job, their decoding and the payload id), [executable_l2_data.rs],
    [safe_l2_data.rs], [params.rs] and [built.rs] (the data exchanged with the
    consensus layer).  SHA-256, Keccak and the derived envelope decoder are
    parameters. *)

From S2P Require Import Prelude Hardfork Rlp MorphTx Envelope Consensus TxEnv BlockExecutor.

Import MorphTxEnvelope.

(** ** Data *)

(** [alloy_rpc_types_engine::PayloadAttributes]; a withdrawal is seen through its
    RLP encoding. *)
Record PayloadAttributes := {
  pa_timestamp : Z;
  pa_prev_randao : B256;
  pa_suggested_fee_recipient : Address;
  pa_withdrawals : option (list bytes);
  pa_parent_beacon_block_root : option B256;
}.

Record MorphPayloadAttributes := {
  ma_inner : PayloadAttributes;
  ma_transactions : option (list bytes);
  ma_no_tx_pool : bool;
  ma_gas_limit : option Z;
  ma_base_fee_per_gas : option Z;
}.

(** [reth_primitives_traits::WithEncoded]. *)
Record WithEncoded (T : Type) := { encoded_bytes : bytes; value : T }.
Arguments encoded_bytes {T}.
Arguments value {T}.

Record MorphPayloadBuilderAttributes (T : Type) := {
  at_id : bytes;
  at_parent : B256;
  at_timestamp : Z;
  at_suggested_fee_recipient : Address;
  at_prev_randao : B256;
  at_withdrawals : list bytes;
  at_parent_beacon_block_root : option B256;
  at_transactions : list (WithEncoded (Recovered T));
  at_no_tx_pool : bool;
  at_gas_limit : option Z;
  at_base_fee_per_gas : option Z;
}.
Arguments at_id {T}.
Arguments at_parent {T}.
Arguments at_timestamp {T}.
Arguments at_suggested_fee_recipient {T}.
Arguments at_prev_randao {T}.
Arguments at_withdrawals {T}.
Arguments at_parent_beacon_block_root {T}.
Arguments at_transactions {T}.
Arguments at_no_tx_pool {T}.
Arguments at_gas_limit {T}.
Arguments at_base_fee_per_gas {T}.

Record ExecutableL2Data := {
  x_parent_hash : B256;
  x_miner : Address;
  x_number : Z;
  x_gas_limit : Z;
  x_base_fee_per_gas : option Z;
  x_timestamp : Z;
  x_transactions : list bytes;
  x_state_root : B256;
  x_gas_used : Z;
  x_receipts_root : B256;
  x_logs_bloom : bytes;
  x_withdraw_trie_root : B256;
  x_next_l1_message_index : Z;
  x_hash : B256;
}.

Record SafeL2Data := {
  s_number : Z;
  s_gas_limit : Z;
  s_base_fee_per_gas : option Z;
  s_timestamp : Z;
  s_transactions : list bytes;
  s_parent_hash : option B256;
}.

Record AssembleL2BlockParams := {
  ap_number : Z;
  ap_transactions : list bytes;
  ap_timestamp : option Z;
}.

(** [MorphBuiltPayload]; [X] are the execution artifacts kept for persistence. *)
Record MorphBuiltPayload (Block X : Type) := {
  p_id : bytes;
  p_block : Block;
  p_fees : Z;
  p_executable_data : ExecutableL2Data;
  p_executed : option X;
}.
Arguments p_id {Block X}.
Arguments p_block {Block X}.
Arguments p_fees {Block X}.
Arguments p_executable_data {Block X}.
Arguments p_executed {Block X}.

(** ** The payload id *)

Definition MORPH_PAYLOAD_BUILDER_VERSION : Z := 1.

(** Fixed-width big-endian words, and a 256-bit hash as its bytes. *)
Definition be_word (n : nat) (z : Z) : bytes := rev (Standard.fixed_le n z).

Section PayloadId.
Context (sha256 : bytes → bytes) (keccak256 : bytes → B256).
(** [alloy_rlp::encode_list] of the withdrawals. *)
Context (encode_withdrawals : list bytes → bytes).

(** An optional word behind a presence byte. *)
Definition tagged_u64 (o : option Z) : bytes :=
  match o with Some v => 1 :: be_word 8 v | None => [0] end.

(** The bytes [payload_id_morph] feeds to the hasher, in order. *)
Definition payload_id_preimage (parent : B256) (a : MorphPayloadAttributes) : bytes :=
  be_word 32 parent
  ++ be_word 8 (pa_timestamp (ma_inner a))
  ++ be_word 32 (pa_prev_randao (ma_inner a))
  ++ be_word 20 (pa_suggested_fee_recipient (ma_inner a))
  ++ match pa_withdrawals (ma_inner a) with Some w => encode_withdrawals w | None => [] end
  ++ match pa_parent_beacon_block_root (ma_inner a) with
     | Some root => be_word 32 root | None => [] end
  ++ [if ma_no_tx_pool a then 1 else 0]
  ++ [match ma_transactions a with Some _ => 1 | None => 0 end]
  ++ match ma_transactions a with
     | Some txs => be_word 8 (Z.of_nat (length txs))
                   ++ concat (map (λ tx, be_word 32 (keccak256 tx)) txs)
     | None => [] end
  ++ tagged_u64 (ma_gas_limit a)
  ++ tagged_u64 (ma_base_fee_per_gas a).

Definition payload_id_morph (parent : B256) (a : MorphPayloadAttributes) (version : Z) : bytes :=
  take 8 (version :: drop 1 (sha256 (payload_id_preimage parent a))).

Definition morph_payload_id (a : MorphPayloadAttributes) (parent : B256) : bytes :=
  payload_id_morph parent a MORPH_PAYLOAD_BUILDER_VERSION.

(** ** Decoding the attributes *)

Context {ETH AL SA SG : Type}.
Abbreviation envelope := (MorphTxEnvelope ETH AL SA SG).
(** The derived [Decodable2718] of the envelope, and alloy's signature recovery. *)
Context (decode_2718 : bytes → result (envelope * bytes) rlp_error).
Context (recover_signature : envelope → option Address).

(** [SignerRecoverable for MorphTxEnvelope]: L1 messages carry their sender. *)
Definition recover_signer (t : envelope) : option Address :=
  match t with
  | L1Msg m => Some (TxL1Msg.sender m)
  | _ => recover_signature t
  end.

(** One supplied transaction. *)
Definition decode_supplied (data : bytes)
  : result (WithEncoded (Recovered envelope)) rlp_error :=
  let? '(tx, buf) := decode_2718 data in
  reject UnexpectedLength when negb (len buf =? 0) in
  let? signer := ok_or (recover_signer tx) (Custom "failed to recover signer"%string) in
  Ok {| encoded_bytes := data; value := {| rec_tx := tx; signer := signer |} |}.

(** [collect::<Result<Vec<_>, _>>()]: stops at the first error. *)
Fixpoint collect {A B Er} (f : A → result B Er) (l : list A) : result (list B) Er :=
  match l with
  | [] => Ok []
  | a :: l => let? b := f a in let? bs := collect f l in Ok (b :: bs)
  end.

Definition try_new (parent : B256) (a : MorphPayloadAttributes) (version : Z)
  : result (MorphPayloadBuilderAttributes envelope) rlp_error :=
  let id := payload_id_morph parent a version in
  let? transactions := collect decode_supplied (default [] (ma_transactions a)) in
  Ok {| at_id := id; at_parent := parent;
        at_timestamp := pa_timestamp (ma_inner a);
        at_suggested_fee_recipient := pa_suggested_fee_recipient (ma_inner a);
        at_prev_randao := pa_prev_randao (ma_inner a);
        at_withdrawals := default [] (pa_withdrawals (ma_inner a));
        at_parent_beacon_block_root := pa_parent_beacon_block_root (ma_inner a);
        at_transactions := transactions; at_no_tx_pool := ma_no_tx_pool a;
        at_gas_limit := ma_gas_limit a; at_base_fee_per_gas := ma_base_fee_per_gas a |}.

Definition include_tx_pool (a : MorphPayloadBuilderAttributes envelope) : bool :=
  negb (at_no_tx_pool a).

Definition has_l1_messages (a : MorphPayloadBuilderAttributes envelope) : bool :=
  existsb (λ w, is_l1_msg (rec_tx (value w))) (at_transactions a).
End PayloadId.

(** ** Lemmas *)

Lemma length_be_word n z : length (be_word n z) = n.
Proof. unfold be_word. by rewrite length_rev, Standard.length_fixed_le. Qed.

Lemma be_word_inj n x y : 0 ≤ x < 256 ^ Z.of_nat n → 0 ≤ y < 256 ^ Z.of_nat n →
  be_word n x = be_word n y → x = y.
Proof.
  unfold be_word. intros Hx Hy Heq. apply (f_equal (@rev Z)) in Heq.
  rewrite !rev_involutive in Heq. rewrite <-(Standard.of_le_fixed_le n x), Heq by done.
  by apply Standard.of_le_fixed_le.
Qed.

(** Equal buffers that start with words of the same width. *)
Lemma be_word_app_inj n x y a b :
  0 ≤ x < 256 ^ Z.of_nat n → 0 ≤ y < 256 ^ Z.of_nat n →
  be_word n x ++ a = be_word n y ++ b → x = y ∧ a = b.
Proof.
  intros Hx Hy [Hw Hr]%app_inj_1; [|by rewrite !length_be_word].
  split; [by eapply be_word_inj|done].
Qed.

Lemma tagged_u64_app_inj o1 o2 a b :
  (∀ v, o1 = Some v → is_u64 v) → (∀ v, o2 = Some v → is_u64 v) →
  tagged_u64 o1 ++ a = tagged_u64 o2 ++ b → o1 = o2 ∧ a = b.
Proof.
  pose proof Standard.u64_256. intros H1 H2.
  destruct o1 as [v1|], o2 as [v2|]; cbn [tagged_u64 app]; intros Heq; try done;
    apply (f_equal tail) in Heq; cbn [tail] in Heq; [|done].
  specialize (H1 _ eq_refl). specialize (H2 _ eq_refl). unfold in_range in *.
  apply be_word_app_inj in Heq as [-> ->]; [done|lia..].
Qed.

Lemma words_app_inj (l1 l2 : list Z) a b :
  Forall (λ z, 0 ≤ z < 256 ^ Z.of_nat 32) l1 → Forall (λ z, 0 ≤ z < 256 ^ Z.of_nat 32) l2 →
  length l1 = length l2 →
  concat (map (be_word 32) l1) ++ a = concat (map (be_word 32) l2) ++ b → l1 = l2 ∧ a = b.
Proof.
  intros H1. revert l2. induction H1 as [|x l1 Hx H1 IH]; intros [|y l2] H2 Hlen Heq; try done.
  inversion H2; subst. cbn [map concat] in Heq. rewrite <-!app_assoc in Heq.
  apply be_word_app_inj in Heq as [-> Heq]; [|done..].
  destruct (IH l2) as [-> ->]; [done|by injection Hlen|done|done].
Qed.

(** The integers of a request are in their widths. *)
Record request_ok (keccak256 : bytes → B256) (parent : B256) (a : MorphPayloadAttributes)
  : Prop := {
  ok_parent : is_u256 parent;
  ok_timestamp : is_u64 (pa_timestamp (ma_inner a));
  ok_randao : is_u256 (pa_prev_randao (ma_inner a));
  ok_recipient : is_address (pa_suggested_fee_recipient (ma_inner a));
  ok_gas_limit : ∀ v, ma_gas_limit a = Some v → is_u64 v;
  ok_base_fee : ∀ v, ma_base_fee_per_gas a = Some v → is_u64 v;
  ok_txs : ∀ txs, ma_transactions a = Some txs →
    Z.of_nat (length txs) ≤ u64_max ∧ Forall (λ tx, is_u256 (keccak256 tx)) txs;
}.

Lemma supplied_part_inj keccak256 (o1 o2 : option (list bytes)) a b :
  (∀ txs, o1 = Some txs → Z.of_nat (length txs) ≤ u64_max
                          ∧ Forall (λ tx, is_u256 (keccak256 tx)) txs) →
  (∀ txs, o2 = Some txs → Z.of_nat (length txs) ≤ u64_max
                          ∧ Forall (λ tx, is_u256 (keccak256 tx)) txs) →
  let part (o : option (list bytes)) :=
    [match o with Some _ => 1 | None => 0 end]
    ++ match o with
       | Some txs => be_word 8 (Z.of_nat (length txs))
                     ++ concat (map (λ tx, be_word 32 (keccak256 tx)) txs)
       | None => [] end in
  part o1 ++ a = part o2 ++ b → map keccak256 <$> o1 = map keccak256 <$> o2 ∧ a = b.
Proof.
  pose proof Standard.u64_256. assert (u256_max < 256 ^ Z.of_nat 32) as H256 by reflexivity.
  intros H1 H2 part. unfold part.
  destruct o1 as [l1|], o2 as [l2|]; cbn [app]; intros Heq; try done;
    apply (f_equal tail) in Heq; cbn [tail] in Heq; [|done].
  destruct (H1 _ eq_refl) as [Hl1 Hk1]. destruct (H2 _ eq_refl) as [Hl2 Hk2].
  rewrite <-!app_assoc in Heq. apply be_word_app_inj in Heq as [Hlen Heq]; [|lia..].
  rewrite <-!(map_map keccak256 (be_word 32)) in Heq.
  apply words_app_inj in Heq as [Hk ->]; [cbn; by rewrite Hk| | |].
  - apply Forall_map. eapply Forall_impl; [exact Hk1|]. unfold in_range. simpl. lia.
  - apply Forall_map. eapply Forall_impl; [exact Hk2|]. unfold in_range. simpl. lia.
  - rewrite !length_map. lia.
Qed.

Section Theorems.
Context (keccak256 : bytes → B256) (encode_withdrawals : list bytes → bytes).

(** Payload ids separate build requests: of two requests with the same
    withdrawals and beacon root, the bytes hashed into the id are equal exactly
    when parent, time, randao, fee recipient, pool policy, transaction hashes (in
    order) and both overrides are.  In particular an assembly and a deterministic
    import of the same inputs never share them. *)
Theorem payload_id_separates_requests (p1 p2 : B256) (a1 a2 : MorphPayloadAttributes) :
  request_ok keccak256 p1 a1 → request_ok keccak256 p2 a2 →
  pa_withdrawals (ma_inner a1) = pa_withdrawals (ma_inner a2) →
  pa_parent_beacon_block_root (ma_inner a1) = pa_parent_beacon_block_root (ma_inner a2) →
  payload_id_preimage keccak256 encode_withdrawals p1 a1
    = payload_id_preimage keccak256 encode_withdrawals p2 a2
  ↔ p1 = p2
    ∧ pa_timestamp (ma_inner a1) = pa_timestamp (ma_inner a2)
    ∧ pa_prev_randao (ma_inner a1) = pa_prev_randao (ma_inner a2)
    ∧ pa_suggested_fee_recipient (ma_inner a1) = pa_suggested_fee_recipient (ma_inner a2)
    ∧ ma_no_tx_pool a1 = ma_no_tx_pool a2
    ∧ map keccak256 <$> ma_transactions a1 = map keccak256 <$> ma_transactions a2
    ∧ ma_gas_limit a1 = ma_gas_limit a2
    ∧ ma_base_fee_per_gas a1 = ma_base_fee_per_gas a2.
Proof using.
  assert (u256_max < 256 ^ Z.of_nat 32) as H256 by reflexivity.
  pose proof Standard.u64_256 as H64. intros H1 H2 Hw Hr.
  destruct H1 as [Hp1 Ht1 Hn1 Hf1 Hg1 Hb1 Hx1], H2 as [Hp2 Ht2 Hn2 Hf2 Hg2 Hb2 Hx2].
  unfold in_range, is_address in *. change (2 ^ 160) with (256 ^ Z.of_nat 20) in *.
  unfold payload_id_preimage. rewrite Hw, Hr. split.
  - intros Heq. apply be_word_app_inj in Heq as [-> Heq]; [|lia..].
    apply be_word_app_inj in Heq as [-> Heq]; [|lia..].
    apply be_word_app_inj in Heq as [-> Heq]; [|lia..].
    apply be_word_app_inj in Heq as [-> Heq]; [|done..].
    apply app_inv_head in Heq. apply app_inv_head in Heq.
    apply app_inj_1 in Heq as [Hpool Heq]; [|done].
    rewrite !(app_assoc [_]) in Heq.
    apply (supplied_part_inj keccak256) in Heq as [Htx Heq]; [|done..].
    apply tagged_u64_app_inj in Heq as [Hgl Heq]; [|done..].
    rewrite <-(app_nil_r (tagged_u64 (ma_base_fee_per_gas a1))),
      <-(app_nil_r (tagged_u64 (ma_base_fee_per_gas a2))) in Heq.
    apply tagged_u64_app_inj in Heq as [Hbf _]; [|done..].
    split_and!; try done. by destruct (ma_no_tx_pool a1), (ma_no_tx_pool a2).
  - intros (-> & -> & -> & -> & -> & Htx & -> & ->).
    destruct (ma_transactions a1) as [l1|], (ma_transactions a2) as [l2|]; try done.
    injection Htx as Htx. pose proof (f_equal length Htx) as Hl. rewrite !length_map in Hl.
    rewrite Hl. do 4 f_equal. by rewrite <-!(map_map keccak256 (be_word 32)), Htx.
Qed.
End Theorems.

Section Decoding.
Context (sha256 : bytes → bytes) (keccak256 : bytes → B256).
Context (encode_withdrawals : list bytes → bytes).
Context {ETH AL SA SG : Type}.
Abbreviation envelope := (MorphTxEnvelope ETH AL SA SG).
Context (decode_2718 : bytes → result (envelope * bytes) rlp_error).
Context (recover_signature : envelope → option Address).

Lemma collect_Ok {A B Er} (f : A → result B Er) l bs :
  collect f l = Ok bs ↔ Forall2 (λ a b, f a = Ok b) l bs.
Proof using.
  revert bs. induction l as [|a l IH]; intros bs; cbn [collect].
  - split; [by intros [= <-]|]. intros Hf. by inversion Hf.
  - rewrite bind_Ok. split.
    + intros (b & Hb & Hl). apply bind_Ok in Hl as (bs' & Hbs & [= <-]).
      constructor; [done|by apply IH].
    + intros Hf. inversion Hf as [|? b ? bs' Hb Hbs]; subst. exists b. split; [done|].
      apply IH in Hbs. by rewrite Hbs.
Qed.

(** The builder keeps the supplied bytes, in order, and the request's scalars. *)
Lemma try_new_bytes parent a version attrs :
  try_new sha256 keccak256 encode_withdrawals decode_2718 recover_signature parent a version
    = Ok attrs →
  map encoded_bytes (at_transactions attrs) = default [] (ma_transactions a)
  ∧ at_no_tx_pool attrs = ma_no_tx_pool a
  ∧ at_timestamp attrs = pa_timestamp (ma_inner a) ∧ at_gas_limit attrs = ma_gas_limit a.
Proof using.
  unfold try_new. cbv zeta. rewrite bind_Ok. intros (txs & Htxs & [= <-]). cbn.
  split; [|by split_and!]. apply collect_Ok in Htxs.
  induction Htxs as [|data w l ws Hw Hws IH]; [done|]. cbn. rewrite IH. f_equal.
  unfold decode_supplied in Hw. apply bind_Ok in Hw as ([tx buf] & _ & Hw).
  apply reject_Ok in Hw as [_ Hw]. by apply bind_Ok in Hw as (s & _ & [= <-]).
Qed.

(** Every supplied transaction is what its bytes decode to, to the last byte. *)
Lemma try_new_decoded parent a version attrs :
  try_new sha256 keccak256 encode_withdrawals decode_2718 recover_signature parent a version
    = Ok attrs →
  Forall2 (λ data t, decode_2718 data = Ok (t, [])) (default [] (ma_transactions a))
    (map (λ w, rec_tx (value w)) (at_transactions attrs)).
Proof using.
  unfold try_new. cbv zeta. rewrite bind_Ok. intros (txs & Htxs & [= <-]). cbn.
  apply collect_Ok in Htxs. induction Htxs as [|data w l ws Hw Hws IH]; [by constructor|].
  cbn. constructor; [|done].
  unfold decode_supplied in Hw. apply bind_Ok in Hw as ([tx buf] & Hd & Hw).
  apply reject_Ok in Hw as [Hlen Hw]. apply bind_Ok in Hw as (s & _ & [= <-]). cbn.
  destruct buf; [done|]. exfalso. bool_simp. rewrite len_cons in Hlen.
  pose proof (len_nonneg buf). lia.
Qed.
End Decoding.

(** ** Witnesses *)

Definition sample_request (no_pool : bool) : MorphPayloadAttributes := {|
  ma_inner := {| pa_timestamp := 1775628000; pa_prev_randao := 0;
    pa_suggested_fee_recipient := 0; pa_withdrawals := Some [];
    pa_parent_beacon_block_root := None |};
  ma_transactions := Some [[1; 2]; [3]]; ma_no_tx_pool := no_pool; ma_gas_limit := None;
  ma_base_fee_per_gas := Some 1000000 |}.

Lemma sample_request_ok no_pool : request_ok len 9 (sample_request no_pool).
Proof.
  split.
  - split; vm_compute; discriminate.
  - split; vm_compute; discriminate.
  - split; vm_compute; discriminate.
  - split; by vm_compute.
  - intros v [=].
  - intros v [= <-]. split; vm_compute; discriminate.
  - intros txs [= <-]. split; [vm_compute; discriminate|].
    repeat constructor; vm_compute; discriminate.
Qed.

Lemma payload_id_separates_requests_witness :
  payload_id_preimage len (λ _, [0xC0]) 9 (sample_request true)
  ≠ payload_id_preimage len (λ _, [0xC0]) 9 (sample_request false).
Proof.
  intros Heq.
  apply (payload_id_separates_requests len (λ _, [0xC0]) 9 9 (sample_request true)
    (sample_request false) (sample_request_ok true) (sample_request_ok false) eq_refl eq_refl)
    in Heq as (_ & _ & _ & _ & Hpool & _). discriminate Hpool.
Defined.
