(* ===== verification/PayloadBuilder.v ===== *)
(** * The payload builder

    Models [crates/payload/builder/src/builder.rs] (executing the supplied
    transactions and the pool's, the limits, and the payload that results),
    [config.rs] (the gas-limit target and the breaker) and [error.rs].  reth's
    [BlockBuilder] is the class [BlockBuilderOps], with its documented behaviour
    over the executor and the assembler of [BlockExecutor] as laws; the pool's
    iterator is the class [PayloadTransactions].  Time and cancellation are
    functions of the iteration. *)

From S2P Require Import Prelude Hardfork Rlp MorphTx Envelope Consensus EngineValidator TxEnv.
From S2P Require Import Journal FeeHandler Receipts BlockExecutor PayloadTypes.

Import MorphTxEnvelope.

(** ** Configuration *)

Definition MIN_TRANSACTION_DATA_SIZE : Z := 115.
Definition MIN_TRANSACTION_GAS : Z := 21000.

Record MorphBuilderConfig := {
  cf_gas_limit : option Z;
  cf_time_limit : Z;
  cf_max_da_block_size : option Z;
  cf_desired_gas_limit : option Z;
}.

Record PayloadBuildingBreaker := {
  br_time_limit : Z;
  br_gas_limit : Z;
  br_max_da_block_size : option Z;
}.

(** [calculate_block_gas_limit] is alloy's. *)
Definition next_header_gas_limit (calculate_block_gas_limit : Z → Z → Z)
    (c : MorphBuilderConfig) (parent_gas_limit : Z) (attributes_gas_limit : option Z) : Z :=
  match attributes_gas_limit with
  | Some explicit => explicit
  | None =>
      match cf_desired_gas_limit c with
      | Some desired =>
          calculate_block_gas_limit parent_gas_limit (Z.max desired MINIMUM_GAS_LIMIT)
      | None => parent_gas_limit
      end
  end.

Definition breaker (c : MorphBuilderConfig) (block_gas_limit : Z) : PayloadBuildingBreaker := {|
  br_time_limit := cf_time_limit c; br_gas_limit := default block_gas_limit (cf_gas_limit c);
  br_max_da_block_size := cf_max_da_block_size c |}.

(** [elapsed] is the time since the breaker was created. *)
Definition should_break (b : PayloadBuildingBreaker) (elapsed gas_pool_used da_used : Z) : bool :=
  if br_time_limit b <=? elapsed then true
  else if saturating_sub (br_gas_limit b) MIN_TRANSACTION_GAS <? gas_pool_used then true
  else match br_max_da_block_size b with
       | Some max_size => saturating_sub max_size MIN_TRANSACTION_DATA_SIZE <? da_used
       | None => false
       end.

(** ** Execution information *)

Record ExecutionInfo := {
  i_cumulative_gas_used : Z;
  i_gas_pool_used : Z;
  i_cumulative_da_bytes_used : Z;
  i_total_fees : Z;
  i_next_l1_message_index : Z;
  i_transaction_count : Z;
  i_max_da_block_size : option Z;
}.

Definition info_new (next_l1_message_index : Z) (max_da_block_size : option Z) : ExecutionInfo := {|
  i_cumulative_gas_used := 0; i_gas_pool_used := 0; i_cumulative_da_bytes_used := 0;
  i_total_fees := 0; i_next_l1_message_index := next_l1_message_index;
  i_transaction_count := 0; i_max_da_block_size := max_da_block_size |}.

(** [checked_add(...).is_none_or(|total| total > limit)]. *)
Definition sum_over (a b limit : Z) : bool :=
  match checked_add u64_max a b with Some total => limit <? total | None => true end.

Definition is_tx_over_limits (i : ExecutionInfo) (tx_gas_limit tx_size block_gas_limit : Z) : bool :=
  if sum_over (i_gas_pool_used i) tx_gas_limit block_gas_limit then true
  else match i_max_da_block_size i with
       | Some da_limit => sum_over (i_cumulative_da_bytes_used i) tx_size da_limit
       | None => false
       end.

(** ** Errors *)

(** The message of [InvalidSuppliedTransaction]. *)
Inductive SuppliedError :=
| ExecutionRejected (error : string)
| InvalidQueueIndex (expected got : Z).

Inductive MorphPayloadBuilderError :=
| BlobTransactionRejected
| TransactionEcRecoverFailed
| InvalidSuppliedTransaction (error : SuppliedError)
| TransactionDecodeError (e : rlp_error)
| L1MessageAfterRegularTx
| BlockGasLimitExceeded (tx_index tx_gas gas_pool_used block_gas_limit : Z)
| Storage (s : string).

(** [reth_payload_primitives::PayloadBuilderError]. *)
Inductive PayloadBuilderError :=
| BuilderOther (e : MorphPayloadBuilderError)
| EvmExecutionError (e : BlockExecutionError)
| BuilderInternal (e : BlockExecutionError)
| BuilderRlp (e : rlp_error)
| MissingPayload
| BuilderForeign (s : string).

Inductive BuildOutcomeKind (P : Type) :=
| Better (payload : P)
| Aborted (fees : Z)
| Cancelled.
Arguments Better {P} payload.
Arguments Aborted {P} fees.
Arguments Cancelled {P}.

(** ** reth's block builder and the pool *)

(** [BlockBuilderOutcome]: the execution result, the block, and the trie data. *)
Record BlockBuilderOutcome (ETH AL SA SG Log Tr : Type) := {
  o_execution_result : BlockExecutionResult Log;
  o_block : MorphHeader * BlockBody ETH AL SA SG;
  o_trie : Tr;
}.
Arguments o_execution_result {ETH AL SA SG Log Tr}.
Arguments o_block {ETH AL SA SG Log Tr}.
Arguments o_trie {ETH AL SA SG Log Tr}.

Class BlockBuilderOps (B ETH AL SA SG Log SR Tr : Type) := {
  (** [evm().block()] *)
  bb_env : B → EvmEnv;
  bb_set_state_hook : bool → B → B;
  bb_apply_pre_execution_changes : sm B BlockExecutionError unit;
  bb_execute_transaction :
    Recovered (MorphTxEnvelope ETH AL SA SG) → sm B BlockExecutionError Z;
  (** [evm_mut().db_mut().storage(a, k)] *)
  bb_storage : Address → Z → sm B string Z;
  (** with the state root, when it was computed in the background *)
  bb_finish : B → option SR → result (BlockBuilderOutcome ETH AL SA SG Log Tr) string;
}.

Class PayloadTransactions (P T : Type) := {
  pt_next : P → option (Recovered T * P);
  pt_mark_invalid : Address → Z → P → P;
}.

(** ** Building a payload *)

Section Builder.
Context {B ETH AL SA SG Log SR Tr P : Type}.
Context `{BlockBuilderOps B ETH AL SA SG Log SR Tr}.
Context `{PayloadTransactions P (MorphTxEnvelope ETH AL SA SG)} `{AlloyRlp AL SA SG}.
Abbreviation envelope := (MorphTxEnvelope ETH AL SA SG).
Abbreviation attributes := (MorphPayloadBuilderAttributes envelope).
(** alloy: the accessors and encodings of the Ethereum transactions, and the tip
    of a transaction over a base fee. *)
Context (eth_view : ETH → TxView AL SA) (eth_encode_2718 : ETH → bytes).
Context (eth_encode_2718_len : ETH → Z).
Context (effective_tip_per_gas : envelope → Z → option Z).
Abbreviation gas_of := (tx_gas_limit (SG := SG) eth_view).

(** [Typed2718::is_eip4844]. *)
Definition is_eip4844 (t : envelope) : bool := type_byte t =? 3.

Definition block_gas_limit (b : B) : Z := be_gas_limit (block_env (bb_env b)).
Definition basefee (b : B) : Z := be_basefee (block_env (bb_env b)).

(** [U256::from(tip) * U256::from(gas_used)] added to the fees. *)
Definition add_fees (t : envelope) (base_fee gas_used fees : Z) : Z :=
  wrapping_add u256_max fees
    (default 0 (effective_tip_per_gas t base_fee) * gas_used mod (u256_max + 1)).

(** What an executed supplied transaction does to the information; fails on an
    L1 message out of sequence. *)
Definition account_supplied (t : envelope) (base_fee gas_used : Z) (i : ExecutionInfo)
  : result ExecutionInfo PayloadBuilderError :=
  let is_l1 := is_l1_msg t in
  let? '(next, fees) :=
    if is_l1 then
      match queue_index t with
      | Some queue_index =>
          reject BuilderOther (InvalidSuppliedTransaction
              (InvalidQueueIndex (i_next_l1_message_index i) queue_index))
            when negb (queue_index =? i_next_l1_message_index i) in
          Ok (wrapping_add u64_max queue_index 1, i_total_fees i)
      | None => Ok (i_next_l1_message_index i, i_total_fees i)
      end
    else Ok (i_next_l1_message_index i, add_fees t base_fee gas_used (i_total_fees i)) in
  Ok {| i_cumulative_gas_used := wrapping_add u64_max (i_cumulative_gas_used i) gas_used;
        i_gas_pool_used := wrapping_add u64_max (i_gas_pool_used i)
          (if is_l1 then gas_of t else gas_used);
        i_cumulative_da_bytes_used := i_cumulative_da_bytes_used i;
        i_total_fees := fees; i_next_l1_message_index := next;
        i_transaction_count := wrapping_add u64_max (i_transaction_count i) 1;
        i_max_da_block_size := i_max_da_block_size i |}.

(** The loop of [execute_supplied_transactions] over the rest of the list;
    [tx_idx], [saw_l2_transaction] and [executed_txs] are its variables. *)
Fixpoint supplied_loop (no_tx_pool : bool) (block_gas_limit base_fee : Z)
    (txs : list (WithEncoded (Recovered envelope)))
    (tx_idx : Z) (saw_l2_transaction : bool) (executed_txs : list bytes)
    (b : B) (i : ExecutionInfo)
  : B * ExecutionInfo * result (list bytes) PayloadBuilderError :=
  match txs with
  | [] => (b, i, Ok executed_txs)
  | w :: txs =>
      let t := rec_tx (value w) in
      if is_eip4844 t then (b, i, Err (BuilderOther BlobTransactionRejected))
      else if is_l1_msg t && saw_l2_transaction then
        (b, i, Err (BuilderOther L1MessageAfterRegularTx))
      else
        let saw_l2_transaction := if is_l1_msg t then saw_l2_transaction else true in
        let tx_gas := gas_of t in
        if is_tx_over_limits i tx_gas 0 block_gas_limit then
          if no_tx_pool then
            (b, i, Err (BuilderOther (BlockGasLimitExceeded tx_idx tx_gas (i_gas_pool_used i)
                          block_gas_limit)))
          else (b, i, Ok executed_txs)
        else
          match bb_execute_transaction (value w) b with
          | (b, Err (InvalidTx _ error)) | (b, Err (OtherValidation error)) =>
              (b, i, Err (BuilderOther (InvalidSuppliedTransaction (ExecutionRejected error))))
          | (b, Err err) => (b, i, Err (EvmExecutionError err))
          | (b, Ok gas_used) =>
              match account_supplied t base_fee gas_used i with
              | Err e => (b, i, Err e)
              | Ok i =>
                  supplied_loop no_tx_pool block_gas_limit base_fee txs (tx_idx + 1) saw_l2_transaction
                    (executed_txs ++ [encoded_bytes w]) b i
              end
          end
  end.

Definition execute_supplied_transactions (a : attributes) (b : B) (i : ExecutionInfo)
  : B * ExecutionInfo * result (list bytes) PayloadBuilderError :=
  supplied_loop (at_no_tx_pool a) (block_gas_limit b) (basefee b) (at_transactions a)
    0 false [] b i.

(** What an executed pool transaction does to the information. *)
Definition account_pool (t : envelope) (base_fee gas_used tx_size : Z) (i : ExecutionInfo)
  : ExecutionInfo := {|
  i_cumulative_gas_used := wrapping_add u64_max (i_cumulative_gas_used i) gas_used;
  i_gas_pool_used := wrapping_add u64_max (i_gas_pool_used i) gas_used;
  i_cumulative_da_bytes_used := wrapping_add u64_max (i_cumulative_da_bytes_used i) tx_size;
  i_total_fees := add_fees t base_fee gas_used (i_total_fees i);
  i_next_l1_message_index := i_next_l1_message_index i;
  i_transaction_count := wrapping_add u64_max (i_transaction_count i) 1;
  i_max_da_block_size := i_max_da_block_size i |}.

Definition mark_tx_invalid (r : Recovered envelope) (best : P) : P :=
  pt_mark_invalid (signer r) (v_nonce _ _ (view eth_view (rec_tx r))) best.

(** The loop of [execute_pool_transactions], [fuel] iterations at most: [None]
    when they do not suffice.  Iteration [n] sees [cancelled n] and [elapsed n]. *)
Fixpoint pool_loop (cancelled : nat → bool) (elapsed : nat → Z) (brk : PayloadBuildingBreaker)
    (block_gas_limit base_fee : Z) (fuel n : nat) (best_txs : P) (executed_txs : list bytes)
    (b : B) (i : ExecutionInfo)
  : option (B * ExecutionInfo * list bytes * result (option unit) PayloadBuilderError) :=
  match fuel with
  | O => None
  | S fuel =>
      let continue_ := pool_loop cancelled elapsed brk block_gas_limit base_fee fuel (S n) in
      match pt_next best_txs with
      | None => Some (b, i, executed_txs, Ok None)
      | Some (r, best_txs) =>
          if cancelled n then Some (b, i, executed_txs, Ok (Some tt))
          else if should_break brk (elapsed n) (i_gas_pool_used i) (i_cumulative_da_bytes_used i)
          then Some (b, i, executed_txs, Ok (Some tt))
          else
            let t := rec_tx r in
            if is_eip4844 t || is_l1_msg t then
              continue_ (mark_tx_invalid r best_txs) executed_txs b i
            else
              let tx_size := encode_2718_len eth_encode_2718_len t in
              if is_tx_over_limits i (gas_of t) tx_size block_gas_limit then
                continue_ (mark_tx_invalid r best_txs) executed_txs b i
              else
                match bb_execute_transaction r b with
                | (b, Err (InvalidTx nonce_too_low _)) =>
                    continue_ (if nonce_too_low then best_txs else mark_tx_invalid r best_txs)
                      executed_txs b i
                | (b, Err (OtherValidation _)) =>
                    continue_ (mark_tx_invalid r best_txs) executed_txs b i
                | (b, Err err) => Some (b, i, executed_txs, Err (EvmExecutionError err))
                | (b, Ok gas_used) =>
                    continue_ best_txs (executed_txs ++ [rlp eth_encode_2718 t]) b
                      (account_pool t base_fee gas_used tx_size i)
                end
      end
  end.

Definition execute_pool_transactions (cancelled : nat → bool) (elapsed : nat → Z)
    (brk : PayloadBuildingBreaker) (fuel : nat) (best_txs : P) (executed_txs : list bytes)
    (b : B) (i : ExecutionInfo)
  : option (B * ExecutionInfo * list bytes * result (option unit) PayloadBuilderError) :=
  pool_loop cancelled elapsed brk (block_gas_limit b) (basefee b) fuel 0 best_txs executed_txs b i.

(** [L2_MESSAGE_QUEUE_ADDRESS] and the slot of its withdraw trie root. *)
Definition L2_MESSAGE_QUEUE_ADDRESS : Address := 0x5300000000000000000000000000000000000001.
Definition L2_MESSAGE_QUEUE_WITHDRAW_TRIE_ROOT_SLOT : Z := 33.

Definition read_withdraw_trie_root : sm B string B256 :=
  bb_storage L2_MESSAGE_QUEUE_ADDRESS L2_MESSAGE_QUEUE_WITHDRAW_TRIE_ROOT_SLOT.

(** *** The whole build *)

Abbreviation payload := (MorphBuiltPayload (SealedBlock ETH AL SA SG) (BlockExecutionResult Log * Tr)).
Context (calculate_block_gas_limit : Z → Z → Z).
(** [builder_for_next_block] over the parent's state, [is_better_payload] against
    the best payload so far, and the hash of a header. *)
Context (builder_for_next_block : NextBlockEnvAttributes → result B string).
Context (is_better_payload : Z → bool).
Context (hash_slow : Consensus.Header → B256).

(** Seals the block under the header with the final L1 index. *)
Definition seal_block (block : MorphHeader * BlockBody ETH AL SA SG) (next_l1_msg_index : Z)
  : SealedBlock ETH AL SA SG :=
  let h := {| Consensus.next_l1_msg_index := next_l1_msg_index;
              Consensus.inner := Consensus.inner block.1 |} in
  {| block_header := {| Consensus.header := h; hash := hash_slow (Consensus.inner h) |};
     body := block.2 |}.

Definition executable_data_of (sealed : SealedBlock ETH AL SA SG) (executed_txs : list bytes)
    (gas_used : Z) (withdraw_trie_root : B256) (next_l1_message_index : Z) : ExecutableL2Data :=
  let h := Consensus.inner (Consensus.header (block_header sealed)) in
  {| x_parent_hash := Consensus.parent_hash h; x_miner := Consensus.beneficiary h;
     x_number := Consensus.number h; x_gas_limit := Consensus.gas_limit h;
     x_base_fee_per_gas := Consensus.base_fee_per_gas h; x_timestamp := Consensus.timestamp h;
     x_transactions := executed_txs; x_state_root := Consensus.state_root h;
     x_gas_used := gas_used; x_receipts_root := Consensus.receipts_root h;
     x_logs_bloom := be_word 256 (Consensus.logs_bloom h);
     x_withdraw_trie_root := withdraw_trie_root;
     x_next_l1_message_index := next_l1_message_index; x_hash := hash (block_header sealed) |}.

(** What follows the execution of the transactions. *)
Definition finish_payload (a : attributes) (executed_txs : list bytes) (i : ExecutionInfo)
    (state_root_handle : option (result SR string)) (b : B)
  : result (BuildOutcomeKind payload) PayloadBuilderError :=
  if negb (is_better_payload (i_total_fees i)) then Ok (Aborted (i_total_fees i))
  else
    let '(b, withdraw_trie_root) := read_withdraw_trie_root b in
    let? withdraw_trie_root := map_err (λ s, BuilderOther (Storage s)) withdraw_trie_root in
    let? outcome := map_err BuilderForeign
      match state_root_handle with
      | Some handle =>
          let b := bb_set_state_hook false b in
          match handle with
          | Ok root => bb_finish b (Some root)
          | Err _ => bb_finish b None
          end
      | None => bb_finish b None
      end in
    let sealed := seal_block (o_block outcome) (i_next_l1_message_index i) in
    let data := executable_data_of sealed executed_txs
      (result_gas_used (o_execution_result outcome)) withdraw_trie_root
      (i_next_l1_message_index i) in
    Ok (Better {| p_id := at_id a; p_block := sealed; p_fees := i_total_fees i;
                  p_executable_data := data;
                  p_executed := Some (o_execution_result outcome, o_trie outcome) |}).

(** [None] when the pool's transactions do not end within the fuel;
    [cancelled_after] is the last look at the cancellation marker. *)
Definition build_payload_inner (cancelled : nat → bool) (cancelled_after : bool)
    (elapsed : nat → Z) (fuel : nat) (a : attributes) (parent : SealedHeader)
    (c : MorphBuilderConfig) (best : Z → P) (state_root_handle : option (result SR string))
  : option (result (BuildOutcomeKind payload) PayloadBuilderError) :=
  let next_block_attrs := {|
    na_timestamp := at_timestamp a; na_suggested_fee_recipient := at_suggested_fee_recipient a;
    na_gas_limit := next_header_gas_limit calculate_block_gas_limit c
      (Consensus.gas_limit (Consensus.inner (Consensus.header parent))) (at_gas_limit a);
    na_extra_data := []; na_base_fee_per_gas := at_base_fee_per_gas a |} in
  match builder_for_next_block next_block_attrs with
  | Err s => Some (Err (BuilderForeign s))
  | Ok b =>
      let b := match state_root_handle with Some _ => bb_set_state_hook true b | None => b end in
      match bb_apply_pre_execution_changes b with
      | (_, Err err) => Some (Err (BuilderInternal err))
      | (b, Ok _) =>
          let i := info_new (next_l1_msg_index (Consensus.header parent))
            (cf_max_da_block_size c) in
          let base_fee := basefee b in
          let brk := breaker c (block_gas_limit b) in
          match execute_supplied_transactions a b i with
          | (_, _, Err e) => Some (Err e)
          | (b, i, Ok executed_txs) =>
              if include_tx_pool a then
                match execute_pool_transactions cancelled elapsed brk fuel (best base_fee)
                        executed_txs b i with
                | None => None
                | Some (_, _, _, Err e) => Some (Err e)
                | Some (b, i, executed_txs, Ok stopped) =>
                    if bool_decide (is_Some stopped) && cancelled_after then Some (Ok Cancelled)
                    else Some (finish_payload a executed_txs i state_root_handle b)
                end
              else Some (finish_payload a executed_txs i state_root_handle b)
          end
      end
  end.

(** *** The entry points *)

(** What decoding the attributes takes, as in [try_new]; the parent's state. *)
Context (sha256 : bytes → bytes) (keccak256 : bytes → B256).
Context (encode_withdrawals : list bytes → bytes).
Context (decode_2718 : bytes → result (envelope * bytes) rlp_error).
Context (recover_signature : envelope → option Address).
Context (state_by_block_hash : B256 → result unit string).

(** Builds the payload of a request as it arrives. *)
Definition build_payload (cancelled : nat → bool) (cancelled_after : bool) (elapsed : nat → Z)
    (fuel : nat) (request : MorphPayloadAttributes) (parent : SealedHeader)
    (c : MorphBuilderConfig) (best : Z → P) (state_root_handle : option (result SR string))
  : option (result (BuildOutcomeKind payload) PayloadBuilderError) :=
  match try_new sha256 keccak256 encode_withdrawals decode_2718 recover_signature (hash parent)
          request MORPH_PAYLOAD_BUILDER_VERSION with
  | Err e => Some (Err (BuilderRlp e))
  | Ok a =>
      match state_by_block_hash (hash parent) with
      | Err s => Some (Err (BuilderForeign s))
      | Ok _ => build_payload_inner cancelled cancelled_after elapsed fuel a parent c best
                  state_root_handle
      end
  end.
End Builder.

(** [NoopPayloadTransactions]: a pool without transactions. *)
Definition noop_transactions (T : Type) : PayloadTransactions unit T := {|
  pt_next _ := None; pt_mark_invalid _ _ p := p |}.

(** [build_empty_payload]: never cancelled, without a state-root task, over the
    empty pool; [is_better_payload] compares with no previous payload.  One
    iteration suffices for a pool without transactions. *)
Definition build_empty_payload {B ETH AL SA SG Log SR Tr : Type}
    `{BlockBuilderOps B ETH AL SA SG Log SR Tr} `{AlloyRlp AL SA SG}
    eth_view eth_encode_2718 eth_encode_2718_len effective_tip_per_gas calculate_block_gas_limit
    builder_for_next_block is_better_payload hash_slow sha256 keccak256 encode_withdrawals
    decode_2718 recover_signature state_by_block_hash (elapsed : nat → Z)
    (request : MorphPayloadAttributes) (parent : SealedHeader) (c : MorphBuilderConfig)
  : option (result (MorphBuiltPayload (SealedBlock ETH AL SA SG) (BlockExecutionResult Log * Tr))
              PayloadBuilderError) :=
  (λ r, let? outcome := r in
     match outcome with Better p => Ok p | Aborted _ | Cancelled => Err MissingPayload end) <$>
  @build_payload B ETH AL SA SG Log SR Tr unit _ (noop_transactions _) _ eth_view eth_encode_2718
    eth_encode_2718_len effective_tip_per_gas calculate_block_gas_limit builder_for_next_block
    is_better_payload hash_slow sha256 keccak256 encode_withdrawals decode_2718 recover_signature
    state_by_block_hash (λ _, false) false elapsed 1 request parent c (λ _, tt) None.
