(* ===== verification/TxPool.v ===== *)
(** * The transaction pool

    Models [crates/txpool]: the checks a transaction passes before reth's pool admits it
    ([validator.rs], [morph_tx_validation.rs], [error.rs]), the L1 block info they use,
    and the revalidation of pooled Morph transactions at every new head ([maintain.rs]).
    reth's pool and its own validator are parameters, and so are the states the client
    opens; [PoolSafety] has the theorems. *)

From stdpp Require Import sorting.
From S2P Require Import Prelude.
From S2P Require Import Hardfork.
From S2P Require Import Rlp.
From S2P Require Import MorphTx.
From S2P Require Import Envelope.
From S2P Require Import L1Fee.
From S2P Require Import TxEnv.
From S2P Require Import TokenFee.

(** ** Errors *)

Module TxError.
Inductive MorphTxError :=
| InvalidTokenId
| TokenNotFound (token_id : Z)
| TokenNotActive (token_id : Z)
| InvalidPriceRatio (token_id : Z)
| InsufficientTokenBalance (token_id : Z) (token_address : Address) (balance required : Z)
| InsufficientEthForValue (balance value : Z)
| TokenInfoFetchFailed (token_id : Z)
| InvalidFormat (reason : string).

Definition is_bad_transaction (e : MorphTxError) : bool :=
  match e with
  | InvalidTokenId => true
  | InvalidFormat _ => true
  | TokenNotFound _ | TokenNotActive _ => false
  | InvalidPriceRatio _ => false
  | InsufficientTokenBalance _ _ _ _ | InsufficientEthForValue _ _ => false
  | TokenInfoFetchFailed _ => false
  end.

(** reth's [InvalidTransactionError] and [InvalidPoolTransactionError]: the variants the
    code builds; [Inner] stands for what reth's own validator reports. *)
Inductive InvalidTransactionError :=
| Eip4844Disabled
| TxTypeNotSupported
| InsufficientFunds (got expected : Z).

Inductive InvalidPoolTransactionError :=
| Consensus (e : InvalidTransactionError)
| Overdraft (cost balance : Z)
| Other (e : MorphTxError)
| Inner (reason : string).

Definition from_morph_tx_error (err : MorphTxError) : InvalidPoolTransactionError :=
  match err with
  | InsufficientEthForValue balance value => Overdraft value balance
  | InsufficientTokenBalance _ _ balance required => Overdraft required balance
  | _ => Other err
  end.
End TxError.

(** ** Morph transactions *)

Record MorphTxValidationResult := {
  r_uses_token_fee : bool;
  r_token_info : option TokenFeeInfo;
  r_required_token_amount : Z;
  r_amount_to_pay : Z;
}.

Section Validation.
Context {ETH AL SA SG Er IT : Type}.
Abbreviation envelope := (MorphTxEnvelope.MorphTxEnvelope ETH AL SA SG).
Context (keccak256 : bytes → Z).

Record MorphTxValidationInput := {
  consensus_tx : envelope;
  sender : Address;
  eth_balance : Z;
  l1_data_fee : Z;
  hardfork : MorphHardfork;
}.

(** A database: storage, and the EVM's [balanceOf] over it under a hardfork's default
    environment. *)
Record PoolDb := {
  db_slot : Address → Z → result Z Er;
  db_balance_of : MorphHardfork → Address → Address → result Z (EVMError Er IT);
  db_basic : Address → result (option Z) Er;
}.

Definition validate_morph_tx (db : PoolDb) (input : MorphTxValidationInput)
  : result MorphTxValidationResult TxError.MorphTxError :=
  match consensus_tx input with
  | MorphTxEnvelope.Morph signed =>
      let morph_tx := MorphTxEnvelope.tx signed in
      reject TxError.InvalidFormat
          "MorphTx version 1 is not yet active (jade fork not reached)"%string
        when negb (is_jade (hardfork input))
             && (TxMorph.version morph_tx =? TxMorph.MORPH_TX_VERSION_1) in
      reject TxError.InvalidFormat
          "MorphTx version 2 is not yet active (celadon fork not reached)"%string
        when negb (is_celadon (hardfork input))
             && (TxMorph.version morph_tx =? TxMorph.MORPH_TX_VERSION_2) in
      do? map_err TxError.InvalidFormat (TxMorph.validate morph_tx) in
      let tx_value := TxMorph.value morph_tx in
      reject TxError.InsufficientEthForValue (eth_balance input) tx_value
        when eth_balance input <? tx_value in
      let fee_token_id := TxMorph.fee_token_id morph_tx in
      let gas_fee := saturating_mul u256_max (TxMorph.gas_limit morph_tx)
                       (TxMorph.max_fee_per_gas morph_tx) in
      let total_eth_fee := saturating_add u256_max gas_fee (l1_data_fee input) in
      let total_eth_cost := saturating_add u256_max total_eth_fee tx_value in
      if fee_token_id =? 0 then
        reject TxError.InsufficientEthForValue (eth_balance input) total_eth_cost
          when eth_balance input <? total_eth_cost in
        Ok {| r_uses_token_fee := false; r_token_info := None; r_required_token_amount := 0;
              r_amount_to_pay := 0 |}
      else
        let? token_info :=
          map_err (λ _, TxError.TokenInfoFetchFailed fee_token_id)
            (load_for_caller keccak256 (db_slot db) (db_balance_of db (hardfork input))
               fee_token_id (sender input)) in
        let? token_info := ok_or token_info (TxError.TokenNotFound fee_token_id) in
        reject TxError.TokenNotActive fee_token_id when negb (is_active token_info) in
        reject TxError.InvalidPriceRatio fee_token_id when price_ratio token_info =? 0 in
        let total_token_fee := saturating_add u256_max gas_fee (l1_data_fee input) in
        let required_token_amount := eth_to_token_amount token_info total_token_fee in
        let effective_limit := effective_fee_limit token_info (TxMorph.fee_limit morph_tx) in
        reject TxError.InsufficientTokenBalance fee_token_id (token_address token_info)
            effective_limit required_token_amount
          when effective_limit <? required_token_amount in
        Ok {| r_uses_token_fee := true; r_token_info := Some token_info;
              r_required_token_amount := required_token_amount;
              r_amount_to_pay := required_token_amount |}
  | _ => Err TxError.InvalidTokenId
  end.
End Validation.
Arguments MorphTxValidationInput : clear implicits.
Arguments PoolDb : clear implicits.

(** ** Pooled transactions *)

Record MorphPooledTransaction (Envelope : Type) := {
  p_transaction : Envelope;
  p_signer : Address;
  p_hash : B256;
  (** computed by reth when the transaction is wrapped *)
  p_cost : Z;
}.
Arguments p_transaction {Envelope}.
Arguments p_signer {Envelope}.
Arguments p_hash {Envelope}.
Arguments p_cost {Envelope}.

(** reth's [TransactionValidationOutcome]. *)
Inductive TransactionValidationOutcome (Tx : Type) :=
| Valid (balance state_nonce : Z) (bytecode_hash : option B256) (transaction : Tx)
    (propagate : bool) (authorities : option (list Address))
| Invalid (transaction : Tx) (e : TxError.InvalidPoolTransactionError)
| Failed (hash : B256).
Arguments Valid {Tx}.
Arguments Invalid {Tx}.
Arguments Failed {Tx}.

Definition MAX_INITCODE_SIZE : Z := 49152.

(** ** The validator *)

Record MorphL1BlockInfo := {
  bi_l1_block_info : L1BlockInfo;
  bi_base_fee_per_gas : option Z;
  bi_timestamp : Z;
  bi_number : Z;
}.

Definition MorphL1BlockInfo_default : MorphL1BlockInfo := {|
  bi_l1_block_info := {| l1_base_fee := 0; l1_fee_overhead := 0; l1_base_fee_scalar := 0;
    l1_blob_base_fee := 0; l1_commit_scalar := 0; l1_blob_scalar := 0; calldata_gas := 0 |};
  bi_base_fee_per_gas := None; bi_timestamp := 0; bi_number := 0 |}.

(** [MorphL1BlockInfo::update]. *)
Definition block_info_update (info : L1BlockInfo) (timestamp number : Z)
    (base_fee_per_gas : option Z) (_ : MorphL1BlockInfo) : MorphL1BlockInfo := {|
  bi_l1_block_info := info; bi_base_fee_per_gas := base_fee_per_gas;
  bi_timestamp := timestamp; bi_number := number |}.

(** What the validator reads of a header. *)
Record HeadInfo := { hd_number : Z; hd_timestamp : Z; hd_base_fee : option Z }.

Section Validator.
Context {ETH AL SA SG Er IT PE : Type} `{AlloyRlp AL SA SG}.
Context {C F : Type} `{ForkConditionOps F} `{MorphHardforks C F}.
Abbreviation envelope := (MorphTxEnvelope.MorphTxEnvelope ETH AL SA SG).
Abbreviation pooled := (MorphPooledTransaction envelope).
Abbreviation outcome := (TransactionValidationOutcome pooled).
Abbreviation db := (PoolDb Er IT).
Context (keccak256 : bytes → Z) (eth_encode_2718 : ETH → bytes).
Context (chain_spec : C).
(** The client's [state_by_block_number_or_tag]. *)
Context (state_by_block_number : Z → result db PE).
(** reth: the initcode check of a pool transaction, and the inner validator, which
    keeps the state provider it opened for the next transaction of a batch. *)
Context (ensure_max_init_code_size : pooled → Z → result unit TxError.InvalidPoolTransactionError).
Context {Origin State : Type}.
Context (inner_validate_one_with_state : Origin → pooled → option State → outcome * option State).

(** A [MorphTransactionValidator] changes only in its block info. *)
Definition update_l1_block_info (header : HeadInfo) (bi : MorphL1BlockInfo) : MorphL1BlockInfo :=
  let bi := {| bi_l1_block_info := bi_l1_block_info bi; bi_base_fee_per_gas := hd_base_fee header;
               bi_timestamp := hd_timestamp header; bi_number := hd_number header |} in
  match state_by_block_number (hd_number header) with
  | Err _ => bi
  | Ok db =>
      let hardfork := morph_hardfork_at chain_spec (hd_number header) (hd_timestamp header) in
      match try_fetch (db_slot db) hardfork with
      | Ok l1_block_info =>
          {| bi_l1_block_info := l1_block_info; bi_base_fee_per_gas := bi_base_fee_per_gas bi;
             bi_timestamp := bi_timestamp bi; bi_number := bi_number bi |}
      | Err _ => bi
      end
  end.

(** [MorphTransactionValidator::new]: [latest] is the client's latest header. *)
Definition validator_new (latest : option HeadInfo) : MorphL1BlockInfo :=
  match latest with
  | Some header => update_l1_block_info header MorphL1BlockInfo_default
  | None => MorphL1BlockInfo_default
  end.

Definition on_new_head_block (header : HeadInfo) (bi : MorphL1BlockInfo) : MorphL1BlockInfo :=
  update_l1_block_info header bi.

Definition ty (tx : pooled) : Z := type_byte (p_transaction tx).
Definition is_l1_message (tx : pooled) : bool := ty tx =? TxL1Msg.L1_TX_TYPE_ID.
Definition pool_is_morph_tx (tx : pooled) : bool := ty tx =? TxMorph.MORPH_TX_TYPE_ID.
Definition is_eip4844 (tx : pooled) : bool := ty tx =? 3.
Definition is_eip7702 (tx : pooled) : bool := ty tx =? 4.
Definition encoded_2718 (tx : pooled) : bytes := rlp eth_encode_2718 (p_transaction tx).

Definition insufficient_funds_outcome (balance cost : Z) : TxError.InvalidPoolTransactionError :=
  TxError.Consensus (TxError.InsufficientFunds balance cost).

Definition validate_morph_tx_balance (bi : MorphL1BlockInfo) (consensus_tx : envelope)
    (sender : Address) (eth_balance l1_data_fee : Z) (hardfork : MorphHardfork)
  : result MorphTxValidationResult TxError.MorphTxError :=
  let? db := map_err (λ _, TxError.TokenInfoFetchFailed 0) (state_by_block_number (bi_number bi)) in
  validate_morph_tx keccak256 db {| consensus_tx := consensus_tx; sender := sender;
    eth_balance := eth_balance; l1_data_fee := l1_data_fee; hardfork := hardfork |}.

(** The fee checks on a transaction that reth's validator accepts. *)
Definition check_fees (bi : MorphL1BlockInfo) (is_morph_tx : bool) (tx : pooled) (balance : Z)
  : result unit TxError.InvalidPoolTransactionError :=
  let hardfork := morph_hardfork_at chain_spec (bi_number bi) (bi_timestamp bi) in
  let l1_data_fee := calculate_tx_l1_cost (bi_l1_block_info bi) (encoded_2718 tx) hardfork in
  if is_morph_tx then
    do? map_err TxError.from_morph_tx_error
          (validate_morph_tx_balance bi (p_transaction tx) (p_signer tx) balance l1_data_fee hardfork) in
    Ok tt
  else
    let cost := saturating_add u256_max (p_cost tx) l1_data_fee in
    reject insufficient_funds_outcome balance cost when balance <? cost in
    Ok tt.

Definition validate_one_with_state (bi : MorphL1BlockInfo) (origin : Origin) (tx : pooled)
    (state : option State) : outcome * option State :=
  if is_eip4844 tx then (Invalid tx (TxError.Consensus TxError.Eip4844Disabled), state)
  else if is_l1_message tx then (Invalid tx (TxError.Consensus TxError.TxTypeNotSupported), state)
  else if is_eip7702 tx && negb (is_viridian_active_at_timestamp chain_spec (bi_timestamp bi)) then
    (Invalid tx (TxError.Consensus TxError.TxTypeNotSupported), state)
  else if pool_is_morph_tx tx && negb (is_emerald_active_at_timestamp chain_spec (bi_timestamp bi)) then
    (Invalid tx (TxError.Consensus TxError.TxTypeNotSupported), state)
  else
    match ensure_max_init_code_size tx MAX_INITCODE_SIZE with
    | Err err => (Invalid tx err, state)
    | Ok _ =>
        let '(outcome, state) := inner_validate_one_with_state origin tx state in
        match outcome with
        | Valid balance state_nonce bytecode_hash valid_tx propagate authorities =>
            match check_fees bi (pool_is_morph_tx tx) valid_tx balance with
            | Err err => (Invalid valid_tx err, state)
            | Ok _ => (Valid balance state_nonce bytecode_hash valid_tx propagate authorities, state)
            end
        | outcome => (outcome, state)
        end
    end.

Definition validate_one (bi : MorphL1BlockInfo) (origin : Origin) (tx : pooled) : outcome :=
  (validate_one_with_state bi origin tx None).1.

(** The batch threads one state provider. *)
Fixpoint validate_all_from (bi : MorphL1BlockInfo) (state : option State)
    (transactions : list (Origin * pooled)) : list outcome :=
  match transactions with
  | [] => []
  | (origin, tx) :: transactions =>
      let '(o, state) := validate_one_with_state bi origin tx state in
      o :: validate_all_from bi state transactions
  end.

Definition validate_all (bi : MorphL1BlockInfo) (transactions : list (Origin * pooled)) : list outcome :=
  validate_all_from bi None transactions.
End Validator.

(** ** Maintenance *)

Record SenderBudget := {
  b_eth_balance : Z;
  b_token_balances : gmap Z Z;
}.

(** Whether the transaction can be paid, and the budget that is left. *)
Definition consume_eth_budget (budget : SenderBudget) (tx_value gas_limit max_fee_per_gas l1_data_fee : Z)
  : bool * SenderBudget :=
  let gas_fee := saturating_mul u256_max gas_limit max_fee_per_gas in
  let total_eth_cost := saturating_add u256_max (saturating_add u256_max gas_fee l1_data_fee) tx_value in
  if b_eth_balance budget <? total_eth_cost then (false, budget)
  else (true, {| b_eth_balance := saturating_sub (b_eth_balance budget) total_eth_cost;
                 b_token_balances := b_token_balances budget |}).

Definition consume_token_budget (budget : SenderBudget) (tx_value : Z) (token_id fee_limit : option Z)
    (required_token_amount : Z) (state_token_balance : option Z) : bool * SenderBudget :=
  match token_id, fee_limit with
  | Some token_id, Some fee_limit =>
      let token_budget := default (default 0 state_token_balance) (b_token_balances budget !! token_id) in
      let entered := <[token_id := token_budget]> (b_token_balances budget) in
      let effective_limit :=
        if (fee_limit =? 0) || (token_budget <? fee_limit) then token_budget else fee_limit in
      if (effective_limit <? required_token_amount) || (b_eth_balance budget <? tx_value)
      then (false, {| b_eth_balance := b_eth_balance budget; b_token_balances := entered |})
      else (true, {| b_eth_balance := saturating_sub (b_eth_balance budget) tx_value;
                     b_token_balances :=
                       <[token_id := saturating_sub token_budget required_token_amount]> entered |})
  | _, _ => (false, budget)
  end.

Definition exceeds_block_gas_limit (tx_gas_limit block_gas_limit : Z) : bool :=
  block_gas_limit <? tx_gas_limit.

(** A new canonical tip. *)
Record Tip := { t_number : Z; t_timestamp : Z; t_gas_limit : Z; t_hash : B256 }.

Section Maintenance.
Context {ETH AL SA SG Er IT PE : Type} `{AlloyRlp AL SA SG}.
Context {C F : Type} `{ForkConditionOps F} `{MorphHardforks C F}.
Abbreviation envelope := (MorphTxEnvelope.MorphTxEnvelope ETH AL SA SG).
Abbreviation pooled := (MorphPooledTransaction envelope).
Abbreviation db := (PoolDb Er IT).
Context (keccak256 : bytes → Z) (eth_encode_2718 : ETH → bytes).
Context (eth_view : ETH → TxView AL SA) (eth_max_fee_per_gas : ETH → Z).
Context (chain_spec : C).
Context (state_by_block_hash : B256 → result db PE).
(** The order in which a [HashMap] is walked. *)
Context (hash_iter : gmap Address (list pooled) → list (Address * list pooled)).

Definition max_fee_of (e : envelope) : Z :=
  match e with
  | MorphTxEnvelope.Legacy t | MorphTxEnvelope.Eip2930 t
  | MorphTxEnvelope.Eip1559 t | MorphTxEnvelope.Eip7702 t => eth_max_fee_per_gas t
  | MorphTxEnvelope.L1Msg _ => 0
  | MorphTxEnvelope.Morph t => TxMorph.max_fee_per_gas (MorphTxEnvelope.tx t)
  end.
Definition nonce_of_tx (tx : pooled) : Z := v_nonce _ _ (view eth_view (p_transaction tx)).

(** One transaction of a sender under the budget left for it. *)
Definition revalidate (d : db) (info : L1BlockInfo) (hardfork : MorphHardfork) (block_gas_limit : Z)
    (sender : Address) (budget : SenderBudget) (tx : pooled) : bool * SenderBudget :=
  let consensus_tx := p_transaction tx in
  let v := view eth_view consensus_tx in
  if exceeds_block_gas_limit (v_gas_limit _ _ v) block_gas_limit then (false, budget)
  else
    let l1_data_fee := calculate_tx_l1_cost info (rlp eth_encode_2718 consensus_tx) hardfork in
    match validate_morph_tx keccak256 d {| consensus_tx := consensus_tx; sender := sender;
            eth_balance := b_eth_balance budget; l1_data_fee := l1_data_fee; hardfork := hardfork |} with
    | Err _ => (false, budget)
    | Ok validation =>
        if r_uses_token_fee validation then
          consume_token_budget budget (v_value _ _ v) (MorphTxEnvelope.fee_token_id consensus_tx)
            (MorphTxEnvelope.fee_limit consensus_tx) (r_required_token_amount validation)
            (balance <$> r_token_info validation)
        else
          consume_eth_budget budget (v_value _ _ v) (v_gas_limit _ _ v) (max_fee_of consensus_tx) l1_data_fee
    end.

(** The loop over a sender's transactions stops at the first one to remove. *)
Fixpoint revalidate_sender (d : db) (info : L1BlockInfo) (hardfork : MorphHardfork) (block_gas_limit : Z)
    (sender : Address) (budget : SenderBudget) (txs : list pooled) : list B256 :=
  match txs with
  | [] => []
  | tx :: txs =>
      match revalidate d info hardfork block_gas_limit sender budget tx with
      | (false, _) => [p_hash tx]
      | (true, budget) => revalidate_sender d info hardfork block_gas_limit sender budget txs
      end
  end.

Definition push_by_sender (m : gmap Address (list pooled)) (tx : pooled) : gmap Address (list pooled) :=
  <[p_signer tx := default [] (m !! p_signer tx) ++ [tx]]> m.

Definition by_nonce (tx1 tx2 : pooled) : Prop := nonce_of_tx tx1 ≤ nonce_of_tx tx2.
#[global] Instance by_nonce_dec : RelDecision by_nonce.
Proof. intros tx1 tx2. unfold by_nonce. apply _. Defined.

(** The sender's transactions are walked only when its account can be read. *)
Definition revalidate_entry (d : db) (info : L1BlockInfo) (hardfork : MorphHardfork) (block_gas_limit : Z)
    (entry : Address * list pooled) : list B256 :=
  match db_basic d entry.1 with
  | Err _ => []
  | Ok account =>
      revalidate_sender d info hardfork block_gas_limit entry.1
        {| b_eth_balance := default 0 account; b_token_balances := ∅ |}
        (merge_sort by_nonce entry.2)
  end.

(** What a turn of [maintain_morph_pool] removes. *)
Definition to_remove (tip : Tip) (pending queued : list pooled) : list B256 :=
  let hardfork := morph_hardfork_at chain_spec (t_number tip) (t_timestamp tip) in
  let morph_txs := List.filter pool_is_morph_tx (pending ++ queued) in
  match morph_txs with
  | [] => []
  | _ =>
      match state_by_block_hash (t_hash tip) with
      | Err _ => []
      | Ok d =>
          match try_fetch (db_slot d) hardfork with
          | Err _ => []
          | Ok info =>
              let txs_by_sender := foldl push_by_sender ∅ morph_txs in
              concat (map (revalidate_entry d info hardfork (t_gas_limit tip)) (hash_iter txs_by_sender))
          end
      end
  end.

(** The loop, over reth's pool. *)
Context {Pool : Type} (all_transactions : Pool → list pooled * list pooled).
Context (remove_transactions_and_descendants : list B256 → Pool → Pool).

Definition maintain_turn (pool : Pool) (tip : Tip) : Pool :=
  let '(pending, queued) := all_transactions pool in
  match to_remove tip pending queued with
  | [] => pool
  | hashes => remove_transactions_and_descendants hashes pool
  end.

Definition maintain_morph_pool (pool : Pool) (events : list Tip) : Pool := foldl maintain_turn pool events.
End Maintenance.
