(* ===== verification/PoolOffers.v ===== *)
(** * What the pool offers to a builder

    The builder of [PayloadBuilder] draws its transactions from an iterator over the
    pool; the pool of [TxPool] holds the transactions its validator admitted.  This
    file connects the two: [offered] is what an iterator can yield over its life,
    whatever the builder marks invalid meanwhile, [admitted_until] says that the
    pool's validator let a transaction pass at some head, and [admitted_morph_ok]
    is what that guarantees of a MorphTx in every later block. *)

From S2P Require Import Prelude.
From S2P Require Import Hardfork.
From S2P Require Import Rlp.
From S2P Require Import MorphTx.
From S2P Require Import Envelope.
From S2P Require Import TokenFee.
From S2P Require Import PayloadTypes.
From S2P Require Import BlockExecutor.
From S2P Require Import PayloadBuilder.
From S2P Require Import TxPool.

(** ** The life of an iterator *)

Section Iterator.
Context {P E : Type} `{!PayloadTransactions P E}.

(** The iterator can yield the transaction: now, after others, or after some sender
    was marked invalid. *)
Inductive offered : P → Recovered E → Prop :=
| offered_now p r p' : pt_next p = Some (r, p') → offered p r
| offered_later p r p' x : pt_next p = Some (r, p') → offered p' x → offered p x
| offered_marked p a n x : offered (pt_mark_invalid a n p) x → offered p x.

(** A property of everything an iterator can yield holds of what it yields next, and
    remains one of everything it can still yield. *)
Lemma offered_step (Q : Recovered E → Prop) p r p' :
  (∀ x, offered p x → Q x) → pt_next p = Some (r, p') →
  Q r ∧ ∀ x, offered p' x → Q x.
Proof.
  intros HQ Hn. split; [by apply HQ; eapply offered_now|].
  intros x Hx. apply HQ. by eapply offered_later.
Qed.

Lemma offered_mark (Q : Recovered E → Prop) p a n :
  (∀ x, offered p x → Q x) → ∀ x, offered (pt_mark_invalid a n p) x → Q x.
Proof. intros HQ x Hx. by eapply HQ, offered_marked. Qed.
End Iterator.

(** ** Admission *)

Section Admission.
Context {ETH AL SA SG Er IT PE Origin State C F : Type}.
Context `{AlloyRlp AL SA SG} `{ForkConditionOps F} `{!MorphHardforks C F}.
Abbreviation envelope := (MorphTxEnvelope.MorphTxEnvelope ETH AL SA SG).
Abbreviation pooled := (MorphPooledTransaction envelope).
Context (keccak256 : bytes → Z) (eth_encode_2718 : ETH → bytes) (chain_spec : C).
Context (state_by_block_number : Z → result (PoolDb Er IT) PE).
Context (ensure_max_init_code_size : pooled → Z → result unit TxError.InvalidPoolTransactionError).
Context (inner_validate : Origin → pooled → option State →
  TransactionValidationOutcome pooled * option State).
Abbreviation validate := (validate_one_with_state keccak256 eth_encode_2718 chain_spec
  state_by_block_number ensure_max_init_code_size inner_validate).

(** At some head no later than the time, the pool's validator found the transaction
    valid. *)
Definition admitted_until (until : Z) (r : Recovered envelope) : Prop :=
  ∃ bi origin tx st balance nonce code_hash valid_tx propagate authorities st',
    bi_timestamp bi ≤ until ∧ p_transaction tx = rec_tx r
    ∧ validate bi origin tx st
      = (Valid balance nonce code_hash valid_tx propagate authorities, st').

(** reth's validator hands the transaction on that it was given. *)
Definition keeps_transaction : Prop :=
  ∀ origin tx st balance nonce code_hash valid_tx propagate authorities st',
    inner_validate origin tx st
      = (Valid balance nonce code_hash valid_tx propagate authorities, st') →
    valid_tx = tx.

Lemma is_jade_at b t :
  (is_celadon_active_at_timestamp chain_spec t = true →
   is_jade_active_at_timestamp chain_spec t = true) →
  is_jade (morph_hardfork_at chain_spec b t) = is_jade_active_at_timestamp chain_spec t.
Proof.
  unfold morph_hardfork_at. intros Hord.
  destruct (is_celadon_active_at_timestamp chain_spec t); [by rewrite Hord|].
  by repeat case_match.
Qed.

Lemma is_celadon_at b t :
  is_celadon (morph_hardfork_at chain_spec b t) = is_celadon_active_at_timestamp chain_spec t.
Proof. unfold morph_hardfork_at. by repeat case_match. Qed.

(** The format checks of the pool's MorphTx validation. *)
Lemma validate_morph_tx_format (d : PoolDb Er IT)
    (input : MorphTxValidationInput ETH AL SA SG) s res :
  consensus_tx input = MorphTxEnvelope.Morph s → validate_morph_tx keccak256 d input = Ok res →
  (TxMorph.version (MorphTxEnvelope.tx s) = 1 → is_jade (hardfork input) = true)
  ∧ (TxMorph.version (MorphTxEnvelope.tx s) = 2 → is_celadon (hardfork input) = true)
  ∧ TxMorph.validate (MorphTxEnvelope.tx s) = Ok tt.
Proof.
  intros Hs. unfold validate_morph_tx. rewrite Hs.
  unfold TxMorph.MORPH_TX_VERSION_1, TxMorph.MORPH_TX_VERSION_2.
  intros [Hj Hr]%reject_Ok. apply reject_Ok in Hr as [Hc Hr].
  apply bind_unit_Ok in Hr as [Hv%map_err_Ok _].
  split_and!; [intros Hver; rewrite Hver in Hj|intros Hver; rewrite Hver in Hc|done].
  - by destruct (is_jade _).
  - by destruct (is_celadon _).
Qed.

(** A MorphTx that was admitted is well-formed for every block of that time or later:
    Emerald is active, and so is the fork its version needs. *)
Lemma admitted_morph_ok until r s : keeps_transaction → schedule_monotone chain_spec →
  (∀ t, is_celadon_active_at_timestamp chain_spec t = true →
        is_jade_active_at_timestamp chain_spec t = true) →
  admitted_until until r → rec_tx r = MorphTxEnvelope.Morph s →
  is_emerald_active_at_timestamp chain_spec until = true
  ∧ (TxMorph.version (MorphTxEnvelope.tx s) = 1 →
     is_jade_active_at_timestamp chain_spec until = true)
  ∧ (TxMorph.version (MorphTxEnvelope.tx s) = 2 →
     is_celadon_active_at_timestamp chain_spec until = true)
  ∧ TxMorph.validate (MorphTxEnvelope.tx s) = Ok tt.
Proof.
  intros Hkeep [_ Hmono] Hord (bi & origin & tx & st & bal & n & ch & vtx & pg & au & st' & Ht & Htx & Hval) Hs.
  rewrite Hs in Htx. unfold validate_one_with_state in Hval.
  assert (pool_is_morph_tx tx = true) as Hm by (unfold pool_is_morph_tx, ty; by rewrite Htx).
  rewrite Hm in Hval. cbn [andb] in Hval.
  destruct (is_eip4844 tx); [done|]. destruct (is_l1_message tx); [done|].
  destruct (_ && _); [done|].
  destruct (is_emerald_active_at_timestamp chain_spec (bi_timestamp bi)) eqn:He; [|done].
  cbn [negb] in Hval. destruct (ensure_max_init_code_size _ _); [|done].
  destruct (inner_validate origin tx st) as [[b0 n0 h0 tx0 p0 a0| |] st0] eqn:Hin; [|done..].
  apply Hkeep in Hin as ->.
  destruct (check_fees _ _ _ _ _ _ _ _) as [[]|] eqn:Hc; [|done]. clear Hval.
  unfold check_fees in Hc. apply bind_Ok in Hc as (res & Hc%map_err_Ok & _).
  unfold validate_morph_tx_balance in Hc. apply bind_Ok in Hc as (d & _ & Hc).
  apply (validate_morph_tx_format _ _ s) in Hc as (Hj & Hce & Hv); [|done].
  cbn in Hj, Hce. rewrite is_jade_at in Hj by apply Hord. rewrite is_celadon_at in Hce.
  split_and!; [by eapply Hmono| | |done]; intros Hver; eapply Hmono; eauto.
Qed.
End Admission.
