(* ===== verification/BuildSafety.v ===== *)
(** * What the payload builder guarantees

    Theorems about [PayloadBuilder], against reth's [BlockBuilder] as specified by
    the record [block_builder_laws]: a build invariant that ties the builder's own
    accounting to the executor's, the acceptance of every built block by all of
    consensus, the exactness of deterministic builds, the agreement of the two gas
    checks, and termination. *)

From S2P Require Import TokenFee TxPool.
From S2P Require Import Prelude Hardfork Rlp MorphTx Envelope Consensus EngineValidator TxEnv.
From S2P Require Import Journal FeeHandler Receipts BlockExecutor PayloadTypes PayloadBuilder.
From S2P Require Import PoolOffers.

Import MorphTxEnvelope.

(** ** What reth's builder guarantees *)

Section Laws.
Context {J Er Code Log St CP : Type} `{JournalOps J Er Code Log St CP}.
Context {B ETH AL SA RA SG EvmErr SR Tr : Type}.
Context `{AlloyRlp AL SA SG} `{!AlloyReceipt Log} `{!BlockBuilderOps B ETH AL SA SG Log SR Tr}.
Context {T E F : Type} `{ForkConditionOps F} `{ChainHardforksOps T E F}.
Abbreviation envelope := (MorphTxEnvelope ETH AL SA SG).
Abbreviation X := (MorphBlockExecutor J Er Log).
Context (keccak256 : bytes → Z) (eth_view : ETH → TxView AL SA) (eth_encode_2718 : ETH → bytes).
Context (empty_access_list : AL) (recover_authorization : SA → RA).
Context (transact : MorphTxEnv AL SA RA →
  sm (MorphEvm J Er Log) EvmErr (ExecutionResult Log * St)).
Context (err_evm : EvmErr → BlockExecutionError) (commit : St → J → J).
Context (db_basic : Address → sm J string unit) (err_string : Er → string).
Context (chain_id : Z) (is_london_active_at_block : Z → bool) (EMPTY_OMMER_ROOT_HASH : B256).
Context (calculate_transaction_root : list envelope → B256).
Context (logs_bloom : list Log → Z) (ordered_trie_root : list bytes → Z).
Context (chain_spec : MorphChainSpec T) (parent : SealedHeader).
Context (builder_for_next_block : NextBlockEnvAttributes → result B string).
(** The builder's executor, its context, and the transactions it has collected. *)
Context (bb_executor : B → X) (bb_ctx : B → BlockExecutionCtx).
Context (bb_txs : B → list (Recovered envelope)).

(** The environment a recovered transaction is executed in. *)
Definition env_of (r : Recovered envelope) : MorphTxEnv AL SA RA :=
  from_recovered_tx eth_view eth_encode_2718 empty_access_list recover_authorization
    (rec_tx r) (signer r).

Abbreviation exec limit := (execute_transaction (SG := SG) keccak256 eth_view transact err_evm commit
  err_string limit).

(** Nothing that the block depends on changed but the state of the EVM. *)
Definition only_evm_changed (b b' : B) : Prop :=
  bb_env b' = bb_env b ∧ bb_ctx b' = bb_ctx b ∧ bb_txs b' = bb_txs b
  ∧ ∃ e, bb_executor b' = set_evm e (bb_executor b).

Record block_builder_laws : Prop := {
  (** A fresh builder has a fresh executor in the next block's environment. *)
  law_new attrs b : builder_for_next_block attrs = Ok b →
    bb_env b = next_evm_env chain_id chain_spec (Consensus.inner (Consensus.header parent)) attrs
    ∧ bb_ctx b = context_for_next_block parent attrs
    ∧ bb_txs b = [] ∧ ∃ e, bb_executor b = executor_new e;
  law_hook on b : only_evm_changed b (bb_set_state_hook on b);
  law_storage a k b : only_evm_changed b (bb_storage a k b).1;
  law_pre b b' : bb_apply_pre_execution_changes b = (b', Ok tt) →
    bb_env b' = bb_env b ∧ bb_ctx b' = bb_ctx b ∧ bb_txs b' = bb_txs b
    ∧ apply_pre_execution_changes db_basic (bb_executor b) = (bb_executor b', Ok tt);
  (** A transaction is executed by the executor and collected when it succeeds. *)
  law_execute r b b' res : bb_execute_transaction r b = (b', res) →
    bb_env b' = bb_env b ∧ bb_ctx b' = bb_ctx b
    ∧ exec (block_gas_limit b) (env_of r) r (bb_executor b) = (bb_executor b', res)
    ∧ bb_txs b' = bb_txs b ++ (if is_ok res then [r] else []);
  (** Finishing assembles the block of the collected transactions. *)
  law_finish b sr out : bb_finish b sr = Ok out →
    o_execution_result out = (executor_finish (bb_executor b)).2
    ∧ ∃ root, o_block out = assemble_block is_london_active_at_block EMPTY_OMMER_ROOT_HASH
        calculate_transaction_root logs_bloom ordered_trie_root (bb_env b) (bb_ctx b) parent
        (map rec_tx (bb_txs b)) (o_execution_result out) root;
}.

Context (Hlaws : block_builder_laws) (Hgas : gas_within_limit transact).

(** ** The build invariant *)

Abbreviation run limit := (block_run (SG := SG) keccak256 eth_view transact err_evm commit err_string limit).
Abbreviation gas_of := (tx_gas_limit (SG := SG) eth_view).

Lemma run_snoc limit x l y env r z g :
  run limit x l y → TxEnv.gas_limit (TxEnv.inner env) = gas_of (rec_tx r) →
  exec limit env r y = (z, Ok g) → run limit x (l ++ [(r, g)]) z.
Proof using.
  induction 1 as [|env' rec x x1 g' l x2 Hl Hx Hrun IH|env' rec x x1 err l x2 Hx Hrun IH];
    intros He Hz.
  - eapply run_committed; [done..|apply run_done].
  - cbn. eapply run_committed; eauto.
  - eapply run_failed; eauto.
Qed.

Lemma run_snoc_failed limit x l y env r z err :
  run limit x l y → exec limit env r y = (z, Err err) → run limit x l z.
Proof using.
  induction 1 as [|env' rec x x1 g' l x2 Hl Hx Hrun IH|env' rec x x1 e l x2 Hx Hrun IH];
    intros Hz.
  - eapply run_failed; [done|apply run_done].
  - eapply run_committed; eauto.
  - eapply run_failed; eauto.
Qed.

Lemma env_of_gas r : TxEnv.gas_limit (TxEnv.inner (env_of r)) = gas_of (rec_tx r).
Proof using.
  unfold env_of, from_recovered_tx, from_tx_with_rlp_bytes. destruct (rec_tx r); try done.
  by repeat case_match.
Qed.

(** The builder's own accounting mirrors the executor's. *)
Record mirrors (limit : Z) (b : B) (i : ExecutionInfo) : Prop := {
  mi_limit : block_gas_limit b = limit;
  mi_run : ∃ e l, run limit (executor_new e) l (bb_executor b) ∧ map fst l = bb_txs b;
  mi_gas : i_cumulative_gas_used i = ex_gas_used (bb_executor b);
  mi_pool : i_gas_pool_used i = gas_pool_used (bb_executor b);
}.

Lemma mirrors_ok limit b i : 0 ≤ limit ≤ u64_max → mirrors limit b i →
  executor_ok limit (bb_executor b).
Proof using Hgas.
  intros Hlim [_ (e & l & Hrun & _) _ _].
  by eapply block_run_accounting, executor_new_ok.
Qed.

(** One execution, committed or not, keeps the two accounts in step. *)
Lemma mirrors_execute limit b i r b' res : 0 ≤ limit ≤ u64_max → mirrors limit b i →
  bb_execute_transaction r b = (b', res) →
  match res with
  | Err _ => mirrors limit b' i
  | Ok g =>
      ∀ i', i_cumulative_gas_used i' = wrapping_add u64_max (i_cumulative_gas_used i) g →
        i_gas_pool_used i' = wrapping_add u64_max (i_gas_pool_used i)
          (if is_l1_msg (rec_tx r) then gas_of (rec_tx r) else g) →
        mirrors limit b' i'
  end.
Proof using Hlaws Hgas.
  intros Hlim Hm Hx. pose proof (mirrors_ok _ _ _ Hlim Hm) as Hok.
  destruct Hm as [Hbl (e & l & Hrun & Htxs) Hg Hp].
  apply (law_execute Hlaws) in Hx as (Henv & _ & Hx & Hb). rewrite Hbl in Hx.
  assert (block_gas_limit b' = limit) as Hbl' by (unfold block_gas_limit in *; by rewrite Henv).
  destruct res as [g|err]; cbn [is_ok] in Hb.
  - destruct (execute_step_ok _ _ _ _ _ _ _ Hgas Hlim _ _ _ _ _ (env_of_gas r) Hok Hx)
      as ([Hu' Hp'] & Hsg & Hsp & _).
    intros i' Hgi Hpi. unfold pool_charge in Hsp. cbn [fst snd] in Hsp. split.
    + done.
    + exists e, (l ++ [(r, g)]). split; [eapply run_snoc; [done|apply env_of_gas|done]|].
      by rewrite map_app, Htxs, Hb.
    + rewrite Hgi, Hg, wrapping_add_exact by lia. done.
    + rewrite Hpi, Hp, wrapping_add_exact by (destruct Hok; lia). done.
  - destruct (execute_transaction_Err _ _ _ _ _ _ _ _ _ _ _ _ Hx) as (_ & Hsg & Hsp).
    split; [done| |by rewrite Hsg|by rewrite Hsp].
    exists e, l. split; [by eapply run_snoc_failed|]. by rewrite Htxs, Hb, app_nil_r.
Qed.

(** What the builder has collected: the encodings match the transactions, and the
    L1 messages lead, with the queue indices that follow the parent's. *)
Record contents (next0 : Z) (b : B) (i : ExecutionInfo) (executed : list bytes) : Prop := {
  co_bytes : executed = map (λ r, rlp eth_encode_2718 (rec_tx r)) (bb_txs b);
  co_l1 : ∃ msgs l2, map rec_tx (bb_txs b) = (L1Msg <$> msgs) ++ l2
    ∧ Forall (λ t, is_l1_msg t = false) l2
    ∧ TxL1Msg.queue_index <$> msgs = seqZ next0 (Z.of_nat (length msgs))
    ∧ i_next_l1_message_index i = next0 + Z.of_nat (length msgs);
  co_bound : i_next_l1_message_index i ≤ u64_max;
}.

Lemma contents_same next0 b i executed b' i' :
  contents next0 b i executed → bb_txs b' = bb_txs b →
  i_next_l1_message_index i' = i_next_l1_message_index i → contents next0 b' i' executed.
Proof using. intros [Hb Hl Hu] Htx Hn. split; rewrite ?Htx, ?Hn; done. Qed.

Lemma contents_add_l2 next0 b i executed b' i' r :
  contents next0 b i executed → bb_txs b' = bb_txs b ++ [r] → is_l1_msg (rec_tx r) = false →
  i_next_l1_message_index i' = i_next_l1_message_index i →
  contents next0 b' i' (executed ++ [rlp eth_encode_2718 (rec_tx r)]).
Proof using.
  intros [-> (msgs & l2 & Ht & Hl2 & Hq & Hn) Hu] Htx Hr Hi. split; [| |by rewrite Hi].
  - by rewrite Htx, map_app.
  - exists msgs, (l2 ++ [rec_tx r]). rewrite Htx, map_app, Ht, <-app_assoc, Hi.
    split_and!; try done. apply Forall_app. by split; [|repeat constructor].
Qed.

Lemma contents_add_l1 next0 b i executed b' i' r m :
  contents next0 b i executed → bb_txs b' = bb_txs b ++ [r] → rec_tx r = L1Msg m →
  Forall (λ r, is_l1_msg (rec_tx r) = true) (bb_txs b) →
  TxL1Msg.queue_index m = i_next_l1_message_index i →
  i_next_l1_message_index i' = i_next_l1_message_index i + 1 →
  i_next_l1_message_index i + 1 ≤ u64_max →
  contents next0 b' i' (executed ++ [rlp eth_encode_2718 (rec_tx r)]).
Proof using.
  intros [-> (msgs & l2 & Ht & Hl2 & Hq & Hn) Hu] Htx Hr Hall Hm Hi Hb. split; [| |by rewrite Hi].
  { by rewrite Htx, map_app. }
  assert (l2 = []) as ->.
  { destruct l2 as [|t l2]; [done|]. exfalso.
    assert (t ∈ map rec_tx (bb_txs b)) as Hin
      by (rewrite Ht; apply elem_of_app; right; left).
    apply list_elem_of_fmap in Hin as (r' & -> & Hin).
    rewrite Forall_forall in Hall. apply Forall_cons_1 in Hl2 as [Hl2 _].
    by rewrite (Hall r' Hin) in Hl2. }
  exists (msgs ++ [m]), []. rewrite app_nil_r in *.
  rewrite Htx, map_app, Ht, fmap_app, fmap_app, length_app, Hi, Hn. cbn [length map fmap list_fmap].
  split_and!; [by rewrite Hr|done| |lia].
  rewrite Nat2Z.inj_add, seqZ_app, <-Hq by lia. do 2 f_equal. rewrite Hm, Hn. done.
Qed.
(** ** The loops keep the invariant *)

Context {P : Type} `{!PayloadTransactions P envelope}.
Context (eth_encode_2718_len : ETH → Z) (effective_tip_per_gas : envelope → Z → option Z).
Abbreviation supplied := (supplied_loop eth_view effective_tip_per_gas).
Abbreviation pool := (pool_loop eth_view eth_encode_2718 eth_encode_2718_len effective_tip_per_gas).

(** The information after an executed supplied transaction. *)
Lemma account_supplied_Ok t fee g i i' :
  account_supplied eth_view effective_tip_per_gas t fee g i = Ok i' →
  i_cumulative_gas_used i' = wrapping_add u64_max (i_cumulative_gas_used i) g
  ∧ i_gas_pool_used i' = wrapping_add u64_max (i_gas_pool_used i)
      (if is_l1_msg t then gas_of t else g)
  ∧ i_cumulative_da_bytes_used i' = i_cumulative_da_bytes_used i
  ∧ i_max_da_block_size i' = i_max_da_block_size i
  ∧ match t with
    | L1Msg m => TxL1Msg.queue_index m = i_next_l1_message_index i
        ∧ i_next_l1_message_index i' = wrapping_add u64_max (i_next_l1_message_index i) 1
    | _ => i_next_l1_message_index i' = i_next_l1_message_index i
    end.
Proof using.
  unfold account_supplied. cbv zeta. rewrite bind_Ok. intros ([next fees] & Hn & [= <-]).
  cbn. split_and!; try done.
  destruct t as [| | | |m|]; cbn in Hn |- *; try by injection Hn as <- <-.
  apply reject_Ok in Hn as [Hq [= <- <-]]. bool_simp. by rewrite Hq.
Qed.

(** A supplied transaction that was executed and accounted for. *)
Lemma supplied_step limit fee next0 saw executed b i w b1 g i1 :
  0 ≤ limit ≤ u64_max → encoded_bytes w = rlp eth_encode_2718 (rec_tx (value w)) →
  0 ≤ i_next_l1_message_index i → i_next_l1_message_index i + 1 ≤ u64_max →
  mirrors limit b i → contents next0 b i executed →
  (saw = false → Forall (λ r, is_l1_msg (rec_tx r) = true) (bb_txs b)) →
  is_l1_msg (rec_tx (value w)) && saw = false →
  bb_execute_transaction (value w) b = (b1, Ok g) →
  account_supplied eth_view effective_tip_per_gas (rec_tx (value w)) fee g i = Ok i1 →
  mirrors limit b1 i1 ∧ contents next0 b1 i1 (executed ++ [encoded_bytes w])
  ∧ bb_txs b1 = bb_txs b ++ [value w]
  ∧ i_next_l1_message_index i ≤ i_next_l1_message_index i1 ≤ i_next_l1_message_index i + 1.
Proof using Hlaws Hgas.
  intros Hlim Hw Hn0 Hn1 Hm Hc Hsaw Hl1 Hx Ha.
  pose proof (mirrors_execute _ _ _ _ _ _ Hlim Hm Hx) as Hm'.
  apply (law_execute Hlaws) in Hx as (_ & _ & _ & Htx). cbn [is_ok] in Htx.
  apply account_supplied_Ok in Ha as (Hg & Hp & _ & _ & Hn). rewrite Hw.
  split; [by apply Hm'|]. split; [|split; [done|]].
  - destruct (is_l1_msg (rec_tx (value w))) eqn:Ht.
    + apply is_l1_msg_L1Msg in Ht as [m Ht]. rewrite Ht in Hn. destruct Hn as [Hq Hn].
      rewrite wrapping_add_exact in Hn by lia. cbn [andb] in Hl1.
      eapply contents_add_l1; eauto.
    + eapply contents_add_l2; eauto. by destruct (rec_tx (value w)) as [| | | |m|]; [..|discriminate Ht|].
  - destruct (rec_tx (value w)) as [| | | |m|]; try (rewrite Hn; lia).
    destruct Hn as [_ Hn]. rewrite Hn, wrapping_add_exact by lia. lia.
Qed.

Lemma supplied_loop_inv limit fee next0 no_pool txs idx saw executed b i b' i' executed' :
  0 ≤ limit ≤ u64_max →
  Forall (λ w, encoded_bytes w = rlp eth_encode_2718 (rec_tx (value w))) txs →
  0 ≤ i_next_l1_message_index i →
  i_next_l1_message_index i + Z.of_nat (length txs) ≤ u64_max →
  mirrors limit b i → contents next0 b i executed →
  (saw = false → Forall (λ r, is_l1_msg (rec_tx r) = true) (bb_txs b)) →
  supplied no_pool limit fee txs idx saw executed b i = (b', i', Ok executed') →
  mirrors limit b' i' ∧ contents next0 b' i' executed'
  ∧ bb_env b' = bb_env b ∧ bb_ctx b' = bb_ctx b
  ∧ i_cumulative_da_bytes_used i' = i_cumulative_da_bytes_used i
  ∧ i_max_da_block_size i' = i_max_da_block_size i
  ∧ ∃ incl rest, txs = incl ++ rest ∧ bb_txs b' = bb_txs b ++ map value incl
      ∧ (no_pool = true → rest = []).
Proof using Hlaws Hgas.
  intros Hlim Hw. revert idx saw executed b i.
  induction Hw as [|w txs Hw Hws IH]; intros idx saw executed b i Hn0 Hn Hm Hc Hsaw Hrun.
  { cbn in Hrun. injection Hrun as <- <- <-. split_and!; try done.
    exists [], []. cbn. by rewrite app_nil_r. }
  cbn [supplied_loop] in Hrun. cbv zeta in Hrun.
  destruct (is_eip4844 _); [done|].
  destruct (is_l1_msg (rec_tx (value w)) && saw) eqn:Hl1; [done|].
  destruct (is_tx_over_limits _ _ _ _).
  { destruct no_pool; [done|]. injection Hrun as <- <- <-. split_and!; try done.
    exists [], (w :: txs). cbn. by rewrite app_nil_r. }
  destruct (bb_execute_transaction (value w) b) as [b1 [g|[]]] eqn:Hx; try done.
  destruct (account_supplied _ _ _ _ _ _) as [i1|] eqn:Ha; [|done].
  cbn [length] in Hn.
  destruct (supplied_step _ _ _ _ _ _ _ _ _ _ _ Hlim Hw Hn0 ltac:(lia) Hm Hc Hsaw Hl1 Hx Ha)
    as (Hm1 & Hc1 & Htx & Hnx).
  pose proof (account_supplied_Ok _ _ _ _ _ Ha) as (_ & _ & Hda & Hmax & _).
  apply (law_execute Hlaws) in Hx as (Henv & Hctx & _ & _).
  apply IH in Hrun as (Hm' & Hc' & He' & Hx' & Hd' & Hmx' & incl & rest & -> & Hb' & Hrest);
    [|lia|lia|done|done|].
  - split_and!; try done; try congruence. exists (w :: incl), rest.
    split; [done|]. by rewrite Hb', Htx, <-app_assoc.
  - rewrite Htx. intros Hs. apply Forall_app. destruct (is_l1_msg (rec_tx (value w))) eqn:Hty.
    + split; [by apply Hsaw|by repeat constructor].
    + done.
Qed.
(** The L2 payload of a list of transactions, as consensus counts it. *)
Definition l2_size (txs : list envelope) : Z :=
  sum_by (encode_2718_len eth_encode_2718_len) (List.filter (λ t, negb (is_l1_msg t)) txs).

Lemma l2_size_app l1 l2 : l2_size (l1 ++ l2) = l2_size l1 + l2_size l2.
Proof using. unfold l2_size. by rewrite List.filter_app, sum_by_app. Qed.

(** The data limit holds and the count is exact. *)
Definition da_counted (d : Z) (b : B) (i : ExecutionInfo) : Prop :=
  i_max_da_block_size i = Some d ∧ 0 ≤ i_cumulative_da_bytes_used i ≤ d
  ∧ i_cumulative_da_bytes_used i = l2_size (map rec_tx (bb_txs b)).

(** A pool transaction that was executed and accounted for. *)
Lemma pool_step limit fee next0 d executed b i r b1 g :
  0 ≤ limit ≤ u64_max → (∀ t, 0 ≤ encode_2718_len eth_encode_2718_len t) →
  mirrors limit b i → contents next0 b i executed → is_l1_msg (rec_tx r) = false →
  is_tx_over_limits i (gas_of (rec_tx r)) (encode_2718_len eth_encode_2718_len (rec_tx r)) limit
    = false →
  bb_execute_transaction r b = (b1, Ok g) →
  let i1 := account_pool effective_tip_per_gas (rec_tx r) fee g
    (encode_2718_len eth_encode_2718_len (rec_tx r)) i in
  mirrors limit b1 i1 ∧ contents next0 b1 i1 (executed ++ [rlp eth_encode_2718 (rec_tx r)])
  ∧ (da_counted d b i → da_counted d b1 i1).
Proof using Hlaws Hgas.
  intros Hlim Hlen Hm Hc Hl1 Hover Hx i1.
  pose proof (mirrors_execute _ _ _ _ _ _ Hlim Hm Hx) as Hm'. rewrite Hl1 in Hm'.
  apply (law_execute Hlaws) in Hx as (_ & _ & _ & Htx). cbn [is_ok] in Htx.
  split; [by apply Hm'|]. split; [by eapply contents_add_l2|].
  intros (Hmax & Hda & Hsum). unfold is_tx_over_limits in Hover.
  destruct (sum_over (i_gas_pool_used i) _ _); [done|]. rewrite Hmax in Hover.
  unfold sum_over in Hover. pose proof (Hlen (rec_tx r)) as Hr.
  destruct (checked_add _ _ _) as [total|] eqn:Ht; [|done].
  apply checked_add_Some in Ht as [-> Ht]. bool_simp.
  unfold da_counted, i1. cbn. rewrite wrapping_add_exact by lia.
  split; [done|]. split; [lia|]. rewrite Htx, map_app, l2_size_app, <-Hsum.
  unfold l2_size. cbn. rewrite Hl1. cbn. lia.
Qed.

Lemma pool_loop_inv cancelled elapsed brk limit fee next0 d fuel n best executed b i
    b' i' executed' stopped :
  0 ≤ limit ≤ u64_max → (∀ t, 0 ≤ encode_2718_len eth_encode_2718_len t) →
  mirrors limit b i → contents next0 b i executed →
  pool cancelled elapsed brk limit fee fuel n best executed b i
    = Some (b', i', executed', Ok stopped) →
  mirrors limit b' i' ∧ contents next0 b' i' executed'
  ∧ bb_env b' = bb_env b ∧ bb_ctx b' = bb_ctx b
  ∧ (da_counted d b i → da_counted d b' i').
Proof using Hlaws Hgas.
  intros Hlim Hlen. revert n best executed b i.
  induction fuel as [|fuel IH]; intros n best executed b i Hm Hc; cbn [pool_loop]; [done|].
  destruct (pt_next best) as [[r best1]|]; [|by intros [= <- <- <- _]].
  destruct (cancelled n); [by intros [= <- <- <- _]|].
  destruct (should_break _ _ _ _); [by intros [= <- <- <- _]|].
  destruct (is_eip4844 (rec_tx r) || is_l1_msg (rec_tx r)) eqn:Hty; [by apply IH|].
  apply orb_false_iff in Hty as [_ Hl1].
  destruct (is_tx_over_limits _ _ _ _) eqn:Hover; [by apply IH|].
  destruct (bb_execute_transaction r b) as [b1 res] eqn:Hx.
  pose proof (law_execute Hlaws _ _ _ _ Hx) as (Henv & Hctx & _ & Htx).
  rewrite <-Henv, <-Hctx. destruct res as [g|err].
  - destruct (pool_step limit fee next0 d _ _ _ _ _ _ Hlim Hlen Hm Hc Hl1 Hover Hx)
      as (Hm1 & Hc1 & Hd1).
    intros Hrun. apply IH in Hrun as (? & ? & ? & ? & Hd); [|done|done].
    split_and!; try done. intros Hd0. by apply Hd, Hd1.
  - pose proof (mirrors_execute _ _ _ _ _ _ Hlim Hm Hx) as Hm1. cbn in Hm1, Htx.
    rewrite app_nil_r in Htx.
    assert (contents next0 b1 i executed) as Hc1 by (by eapply contents_same).
    assert (da_counted d b i → da_counted d b1 i) as Hd1
      by (unfold da_counted; by rewrite Htx).
    destruct err; cbn; try done; intros Hrun;
      apply IH in Hrun as (? & ? & ? & ? & Hd); try done;
      split_and!; try done; intros Hd0; by apply Hd, Hd1.
Qed.

(** Whatever the loop adds to the block was offered by the iterator. *)
Lemma pool_loop_offered (Q : Recovered envelope → Prop) cancelled elapsed brk limit fee fuel n best
    executed b i b' i' executed' stopped :
  (∀ x, offered best x → Q x) → Forall Q (bb_txs b) →
  pool cancelled elapsed brk limit fee fuel n best executed b i
    = Some (b', i', executed', Ok stopped) →
  Forall Q (bb_txs b').
Proof using Hlaws.
  revert n best executed b i.
  induction fuel as [|fuel IH]; intros n best executed b i HQ Hb; cbn [pool_loop]; [done|].
  destruct (pt_next best) as [[r best1]|] eqn:Hn; [|by intros [= <- _ _ _]].
  destruct (offered_step Q _ _ _ HQ Hn) as [Hr HQ1].
  pose proof (λ a n, offered_mark Q best1 a n HQ1) as HQm. unfold mark_tx_invalid.
  destruct (cancelled n); [by intros [= <- _ _ _]|].
  destruct (should_break _ _ _ _); [by intros [= <- _ _ _]|].
  destruct (_ || _); [intros Hrun; eapply IH; [|exact Hb|exact Hrun]; apply HQm|].
  destruct (is_tx_over_limits _ _ _ _); [intros Hrun; eapply IH; [|exact Hb|exact Hrun]; apply HQm|].
  destruct (bb_execute_transaction r b) as [b1 res] eqn:Hx.
  apply (law_execute Hlaws) in Hx as (_ & _ & _ & Htx).
  assert (Forall Q (bb_txs b1)) as Hb1
    by (rewrite Htx; apply Forall_app; split; [done|]; destruct (is_ok res); by repeat constructor).
  destruct res as [g|[low ?| | | |]]; try done; intros Hrun;
    (eapply IH; [|exact Hb1|exact Hrun]); [done| |apply HQm].
  destruct low; [done|apply HQm].
Qed.
(** ** The payload *)

Context (calculate_block_gas_limit : Z → Z → Z) (is_better_payload : Z → bool).
Context (hash_slow : Consensus.Header → B256).
Abbreviation build := (build_payload_inner eth_view eth_encode_2718 eth_encode_2718_len
  effective_tip_per_gas calculate_block_gas_limit builder_for_next_block is_better_payload
  hash_slow).
Abbreviation attributes := (MorphPayloadBuilderAttributes envelope).

Definition header_gas_limit (c : MorphBuilderConfig) (a : attributes) : Z :=
  next_header_gas_limit calculate_block_gas_limit c
    (Consensus.gas_limit (Consensus.inner (Consensus.header parent))) (at_gas_limit a).

Definition next_attrs (c : MorphBuilderConfig) (a : attributes) : NextBlockEnvAttributes := {|
  na_timestamp := at_timestamp a; na_suggested_fee_recipient := at_suggested_fee_recipient a;
  na_gas_limit := header_gas_limit c a; na_extra_data := [];
  na_base_fee_per_gas := at_base_fee_per_gas a |}.

(** The block assembled from what a builder collected. *)
Definition assembled (c : MorphBuilderConfig) (a : attributes) (b : B) (root : B256) :=
  assemble_block is_london_active_at_block EMPTY_OMMER_ROOT_HASH calculate_transaction_root
    logs_bloom ordered_trie_root
    (next_evm_env chain_id chain_spec (Consensus.inner (Consensus.header parent)) (next_attrs c a))
    (context_for_next_block parent (next_attrs c a)) parent (map rec_tx (bb_txs b))
    (executor_finish (bb_executor b)).2 root.

(** A payload made of what a builder collected. *)
Definition made_from (c : MorphBuilderConfig) (a : attributes) (executed : list bytes)
    (i : ExecutionInfo) (b : B)
    (p : MorphBuiltPayload (SealedBlock ETH AL SA SG) (BlockExecutionResult Log * Tr)) : Prop :=
  ∃ root withdraw_root,
    p_block p = seal_block hash_slow (assembled c a b root) (i_next_l1_message_index i)
    ∧ p_executable_data p = executable_data_of (p_block p) executed
        (ex_gas_used (bb_executor b)) withdraw_root (i_next_l1_message_index i)
    ∧ result_receipts (executor_finish (bb_executor b)).2
      = from_option (λ x, result_receipts x.1) [] (p_executed p).

(** What the header and the body of every assembled block look like. *)
Record l2_shape (blk : SealedBlock ETH AL SA SG) : Prop := {
  sh_hash : hash (block_header blk)
    = hash_slow (Consensus.inner (Consensus.header (block_header blk)));
  sh_inner : let h := Consensus.inner (Consensus.header (block_header blk)) in
    Consensus.ommers_hash h = EMPTY_OMMER_ROOT_HASH ∧ Consensus.beneficiary h = 0
    ∧ Consensus.transactions_root h = calculate_transaction_root (transactions (body blk))
    ∧ Consensus.difficulty h = 0 ∧ Consensus.mix_hash h = 0 ∧ Consensus.nonce h = Some 0
    ∧ Consensus.extra_data h = [];
  sh_body : ommers (body blk) = [] ∧ withdrawals (body blk) = None;
}.

Lemma made_from_shape c a executed i b p : made_from c a executed i b p →
  let h := Consensus.inner (Consensus.header (block_header (p_block p))) in
  l2_shape (p_block p)
  ∧ (∃ withdraw_root, p_executable_data p = executable_data_of (p_block p) executed
      (Consensus.gas_used h) withdraw_root
      (next_l1_msg_index (Consensus.header (block_header (p_block p)))))
  ∧ transactions (body (p_block p)) = map rec_tx (bb_txs b)
  ∧ Consensus.parent_hash h = hash parent ∧ Consensus.timestamp h = at_timestamp a
  ∧ Consensus.gas_limit h = header_gas_limit c a.
Proof using.
  intros (root & wr & Hb & Hx & _). rewrite Hx, Hb. cbv zeta.
  split; [split; done|]. split; [by exists wr|]. done.
Qed.

Lemma finish_made_from c a executed i handle b p :
  bb_env b = next_evm_env chain_id chain_spec (Consensus.inner (Consensus.header parent))
    (next_attrs c a) →
  bb_ctx b = context_for_next_block parent (next_attrs c a) →
  finish_payload is_better_payload hash_slow a executed i handle b = Ok (Better p) →
  made_from c a executed i b p.
Proof using Hlaws.
  intros Henv Hctx. unfold finish_payload, read_withdraw_trie_root.
  destruct (negb _); [done|].
  pose proof (law_storage Hlaws L2_MESSAGE_QUEUE_ADDRESS
    L2_MESSAGE_QUEUE_WITHDRAW_TRIE_ROOT_SLOT b) as Hs.
  destruct (bb_storage _ _ b) as [b1 wr]. cbn [fst] in Hs.
  rewrite bind_Ok. intros (w & _ & Hp). apply bind_Ok in Hp as (out & Hout & [= <-]).
  apply map_err_Ok in Hout.
  assert (∃ b2 sr, bb_finish b2 sr = Ok out ∧ bb_env b2 = bb_env b ∧ bb_ctx b2 = bb_ctx b
    ∧ bb_txs b2 = bb_txs b ∧ ∃ e, bb_executor b2 = set_evm e (bb_executor b))
    as (b2 & sr & Hf & He & Hx & Htx & e & Hex).
  { destruct Hs as (? & ? & ? & e1 & He1).
    destruct (law_hook Hlaws false b1) as (? & ? & ? & e2 & He2).
    assert (∃ e, bb_executor (bb_set_state_hook false b1) = set_evm e (bb_executor b)) as Hhook
      by (exists e2; by rewrite He2, He1).
    assert (∃ e, bb_executor b1 = set_evm e (bb_executor b)) as Hb1 by eauto.
    destruct handle as [[sr|?]|]; eexists _, _; (split; [exact Hout|]);
      split_and!; try congruence; done. }
  apply (law_finish Hlaws) in Hf as [Hr [root Hb]].
  rewrite He, Hx, Htx, Henv, Hctx in Hb. rewrite Hr, Hex in Hb. rewrite Hex in Hr.
  exists root, w. cbn. rewrite Hr, Hb. done.
Qed.

Lemma finish_not_cancelled a executed i handle b :
  finish_payload is_better_payload hash_slow a executed i handle b ≠ Ok Cancelled.
Proof using.
  unfold finish_payload. destruct (negb _); [done|].
  destruct (read_withdraw_trie_root b) as [b1 [w|]]; cbn [map_err result_bind]; [|done].
  by destruct (map_err _ _).
Qed.

Lemma mirrors_start limit b next0 d :
  next0 ≤ u64_max → block_gas_limit b = limit → bb_txs b = [] → (∃ e, bb_executor b = executor_new e) →
  mirrors limit b (info_new next0 d) ∧ contents next0 b (info_new next0 d) [].
Proof using.
  intros Hu Hl Htx [e He]. split.
  - split; rewrite ?He, ?Htx; try done. exists e, []. by split; [apply run_done|].
  - split; rewrite ?Htx; [done| |done]. exists [], []. split_and!; try done. cbn. lia.
Qed.

(** The attributes hold the wire bytes of their transactions, and their L1
    messages cannot take the index past its width. *)
Definition attributes_ok (a : attributes) : Prop :=
  Forall (λ w, encoded_bytes w = rlp eth_encode_2718 (rec_tx (value w))) (at_transactions a)
  ∧ 0 ≤ next_l1_msg_index (Consensus.header parent)
  ∧ next_l1_msg_index (Consensus.header parent) + Z.of_nat (length (at_transactions a)) ≤ u64_max.

Lemma l2_size_l1 ws : Forall (λ w, is_l1_msg (rec_tx (value w)) = true) ws →
  l2_size (map rec_tx (map value ws)) = 0.
Proof using.
  unfold l2_size. induction 1 as [|w ws Hw Hws IH]; [done|]. cbn. by rewrite Hw.
Qed.
(** The builder when the first transaction is executed. *)
Lemma build_start a c (handle : option (result SR string)) b0 b2 :
  next_l1_msg_index (Consensus.header parent) ≤ u64_max →
  builder_for_next_block (next_attrs c a) = Ok b0 →
  bb_apply_pre_execution_changes
    match handle with Some _ => bb_set_state_hook true b0 | None => b0 end = (b2, Ok tt) →
  bb_env b2 = next_evm_env chain_id chain_spec (Consensus.inner (Consensus.header parent))
    (next_attrs c a)
  ∧ bb_ctx b2 = context_for_next_block parent (next_attrs c a) ∧ bb_txs b2 = []
  ∧ let i := info_new (next_l1_msg_index (Consensus.header parent)) (cf_max_da_block_size c) in
    mirrors (header_gas_limit c a) b2 i
    ∧ contents (next_l1_msg_index (Consensus.header parent)) b2 i [].
Proof using Hlaws.
  intros Hn (Henv0 & Hctx0 & Htx0 & e0 & He0)%(law_new Hlaws).
  set (b1 := match handle with Some _ => bb_set_state_hook true b0 | None => b0 end).
  assert (bb_env b1 = bb_env b0 ∧ bb_ctx b1 = bb_ctx b0 ∧ bb_txs b1 = []
    ∧ ∃ e, bb_executor b1 = executor_new e) as (Henv1 & Hctx1 & Htx1 & e1 & He1).
  { unfold b1. destruct handle; [|by eauto].
    destruct (law_hook Hlaws true b0) as (? & ? & ? & e & He).
    split_and!; try congruence. exists e. by rewrite He, He0. }
  intros (Henv2 & Hctx2 & Htx2 & Hpre)%(law_pre Hlaws).
  split_and!; try congruence. apply mirrors_start; try congruence.
  - unfold block_gas_limit. by rewrite Henv2, Henv1, Henv0.
  - unfold apply_pre_execution_changes in Hpre. rewrite He1 in Hpre.
    destruct (db_basic _ _) as [j r]. injection Hpre as <- _. by eexists.
Qed.

(** Every payload comes from a builder that satisfies the invariant. *)
Lemma build_better cancelled cancelled_after elapsed fuel a c best handle p :
  0 ≤ header_gas_limit c a ≤ u64_max → attributes_ok a →
  (∀ t, 0 ≤ encode_2718_len eth_encode_2718_len t) →
  build cancelled cancelled_after elapsed fuel a parent c best handle = Some (Ok (Better p)) →
  ∃ b i executed,
    mirrors (header_gas_limit c a) b i
    ∧ contents (next_l1_msg_index (Consensus.header parent)) b i executed
    ∧ made_from c a executed i b p
    ∧ (at_no_tx_pool a = true → bb_txs b = map value (at_transactions a))
    ∧ (∀ d, cf_max_da_block_size c = Some d → 0 ≤ d →
         Forall (λ w, is_l1_msg (rec_tx (value w)) = true) (at_transactions a) →
         da_counted d b i)
    ∧ ∀ Q : Recovered envelope → Prop,
        Forall (λ w, Q (value w)) (at_transactions a) → (∀ f x, offered (best f) x → Q x) →
        Forall Q (bb_txs b).
Proof using Hlaws Hgas.
  intros Hlim (Hw & Hn0 & Hn) Hlen. unfold build_payload_inner. cbv zeta.
  fold (header_gas_limit c a). fold (next_attrs c a).
  destruct (builder_for_next_block (next_attrs c a)) as [b0|] eqn:Hb0; [|done].
  destruct (bb_apply_pre_execution_changes _) as [b2 [[]|]] eqn:Hpre; [|done].
  destruct (build_start _ _ _ _ _ ltac:(lia) Hb0 Hpre) as (Henv2 & Hctx2 & Htx2 & Hm2 & Hc2).
  unfold execute_supplied_transactions. rewrite (mi_limit _ _ _ Hm2).
  destruct (supplied_loop _ _ _ _ _ _ _ _ _ _ _) as [[b3 i3] [ex3|]] eqn:Hsup; [|done].
  eapply supplied_loop_inv in Hsup; [|exact Hlim|exact Hw|exact Hn0|exact Hn|exact Hm2|exact Hc2
    |rewrite Htx2; by constructor].
  destruct Hsup
    as (Hm3 & Hc3 & Henv3 & Hctx3 & Hda3 & Hmx3 & incl & rest & Hsplit & Htx3 & Hrest).
  rewrite Htx2 in Htx3. cbn [app] in Htx3.
  assert (∀ d, cf_max_da_block_size c = Some d → 0 ≤ d →
    Forall (λ w, is_l1_msg (rec_tx (value w)) = true) (at_transactions a) →
    da_counted d b3 i3) as Hd3.
  { intros d Hd Hd0 Hall. unfold da_counted. rewrite Hda3, Hmx3, Htx3. cbn.
    rewrite Hsplit in Hall. apply Forall_app in Hall as [Hall _].
    rewrite l2_size_l1 by done. split_and!; done || lia. }
  assert (∀ Q : Recovered envelope → Prop,
    Forall (λ w, Q (value w)) (at_transactions a) → Forall Q (bb_txs b3)) as HQ3.
  { intros Q. rewrite Hsplit, Htx3, Forall_app, Forall_map. by intros [? _]. }
  unfold include_tx_pool. destruct (at_no_tx_pool a) eqn:Hnp; cbn [negb].
  - intros [= Hp]. exists b3, i3, ex3. split_and!; try done.
    + eapply finish_made_from; [..|exact Hp]; congruence.
    + intros _. rewrite Hrest, app_nil_r in Hsplit by done. by rewrite Hsplit.
    + intros Q Hs _. by apply HQ3.
  - unfold execute_pool_transactions. rewrite (mi_limit _ _ _ Hm3).
    destruct (pool_loop _ _ _ _ _ _ _ _ _ _ _ _ _ _ _) as [[[[b4 i4] ex4] [st|]]|] eqn:Hpool;
      [|done..].
    destruct (_ && cancelled_after); [done|]. intros [= Hp]. exists b4, i4, ex4.
    assert (∀ d, mirrors (header_gas_limit c a) b4 i4
      ∧ contents (next_l1_msg_index (Consensus.header parent)) b4 i4 ex4
      ∧ bb_env b4 = bb_env b3 ∧ bb_ctx b4 = bb_ctx b3
      ∧ (da_counted d b3 i3 → da_counted d b4 i4)) as Hinv.
    { intros d. by eapply pool_loop_inv. }
    destruct (Hinv 0) as (Hm4 & Hc4 & Henv4 & Hctx4 & _). split_and!; try done.
    + eapply finish_made_from; [..|exact Hp]; congruence.
    + intros d Hd Hd0 Hall. apply (Hinv d). by apply Hd3.
    + intros Q Hs Hq. by eapply pool_loop_offered; [apply Hq|apply HQ3|exact Hpool].
Qed.
(** ** Acceptance of the built block *)

Lemma contents_well_placed next0 b i executed jade : contents next0 b i executed →
  l1_messages_well_placed (map rec_tx (bb_txs b)) (i_next_l1_message_index i) jade.
Proof using.
  intros [_ (msgs & l2 & Ht & Hl2 & Hq & Hn) Hu]. exists msgs, l2. split_and!; try done.
  right. exists next0. rewrite <-Hn. split_and!; try done. by destruct jade.
Qed.

Lemma contents_expected_index next0 b i executed next : contents next0 b i executed →
  expected_next_index (map rec_tx (bb_txs b)) next0 next = Ok (i_next_l1_message_index i).
Proof using.
  intros [_ (msgs & l2 & Ht & Hl2 & Hq & Hn) Hu]. rewrite Ht, expected_next_index_spec.
  - f_equal. rewrite Hn. destruct msgs as [|m msgs] using rev_ind; cbn; [lia|].
    rewrite last_snoc. cbn. clear IHmsgs. rewrite fmap_app, length_app in Hq. cbn [length] in Hq.
    rewrite Nat2Z.inj_add, seqZ_app in Hq by lia. apply app_inj_2 in Hq as [_ Hq]; [|done].
    injection Hq as Hq. rewrite Hq, length_app. cbn. lia.
  - apply Forall_forall. intros m Hm. apply (list_elem_of_fmap_2 TxL1Msg.queue_index) in Hm.
    rewrite Hq in Hm. apply elem_of_seqZ in Hm. lia.
  - intros t Hh. destruct l2 as [|t' l2]; [done|]. injection Hh as <-.
    by apply Forall_cons_1 in Hl2 as [Hl2 _].
Qed.

Section GasLimit.
Context (c : MorphBuilderConfig) (a : attributes).
Abbreviation pg := (Consensus.gas_limit (Consensus.inner (Consensus.header parent))).
Abbreviation delta := (saturating_sub (pg / GAS_LIMIT_BOUND_DIVISOR) 1).
(** alloy's elasticity rule. *)
Context (Hcalc : ∀ d, calculate_block_gas_limit pg d = Z.max (pg - delta) (Z.min d (pg + delta))).
Context (Hmin : MINIMUM_GAS_LIMIT ≤ pg) (Ha : at_gas_limit a = None).

Lemma header_gas_limit_min :
  Z.abs (header_gas_limit c a - pg) < pg / GAS_LIMIT_BOUND_DIVISOR
  ∧ MINIMUM_GAS_LIMIT ≤ header_gas_limit c a.
Proof using Hcalc Hmin Ha.
  unfold MINIMUM_GAS_LIMIT in *.
  assert (4 ≤ pg / GAS_LIMIT_BOUND_DIVISOR) as Hd
    by (apply Z.div_le_lower_bound; unfold GAS_LIMIT_BOUND_DIVISOR; lia).
  assert (delta = pg / GAS_LIMIT_BOUND_DIVISOR - 1) as Hdelta
    by (unfold saturating_sub; lia).
  unfold header_gas_limit, next_header_gas_limit. rewrite Ha. unfold MINIMUM_GAS_LIMIT.
  destruct (cf_desired_gas_limit c) as [d|]; [rewrite Hcalc|]; split; lia.
Qed.

(** The gas limit a node without override gives the next block is one that its
    own header validation accepts. *)
Lemma header_gas_limit_accepted (h : Consensus.Header) :
  Consensus.gas_limit h = header_gas_limit c a →
  validate_against_parent_gas_limit h (Consensus.inner (Consensus.header parent)) = Ok tt.
Proof using Hcalc Hmin Ha.
  intros Hh. apply parent_gas_limit_Ok; [unfold MINIMUM_GAS_LIMIT in Hmin; lia|].
  rewrite Hh. apply header_gas_limit_min.
Qed.
End GasLimit.

(** What a sequencer guarantees of a job: no override of the gas limit, only L1
    messages supplied, a data limit within the protocol's, a later time than the
    parent's that has come, a base fee within the protocol's. *)
Record sequencer_job (c : MorphBuilderConfig) (a : attributes) (now : Z) : Prop := {
  sj_no_override : at_gas_limit a = None;
  sj_l1 : Forall (λ w, is_l1_msg (rec_tx (value w)) = true) (at_transactions a);
  sj_da : ∃ d, cf_max_da_block_size c = Some d ∧ 0 ≤ d ≤ MORPH_MAX_TX_PAYLOAD_BYTES_PER_BLOCK;
  sj_time : Consensus.timestamp (Consensus.inner (Consensus.header parent)) < at_timestamp a ≤ now;
  sj_fee : default MORPH_BASE_FEE (at_base_fee_per_gas a) ≤ MORPH_MAXIMUM_BASE_FEE;
  sj_limit : header_gas_limit c a ≤ MAX_GAS_LIMIT;
  sj_parent_gas :
    MINIMUM_GAS_LIMIT ≤ Consensus.gas_limit (Consensus.inner (Consensus.header parent));
  sj_number : 0 ≤ Consensus.number (Consensus.inner (Consensus.header parent)) < u64_max;
  sj_london : is_london_active_at_block
    (Consensus.number (Consensus.inner (Consensus.header parent)) + 1) = true;
}.

Context (validate_against_parent_hash_number :
  MorphHeader → SealedHeader → result unit ConsensusError).
Context (calculate_receipt_root : list (MorphReceipt Log) → B256).
Context (gas_spent : list (MorphReceipt Log) → list (Z * Z)).

(** Documented behaviour of alloy and reth: the elasticity rule of
    [calculate_block_gas_limit], the accrual of blooms, the receipt trie's items,
    and what the parent hash and number check accepts. *)
Record foreign_facts : Prop := {
  ff_gas_limit d :
    let pg := Consensus.gas_limit (Consensus.inner (Consensus.header parent)) in
    let delta := saturating_sub (pg / GAS_LIMIT_BOUND_DIVISOR) 1 in
    calculate_block_gas_limit pg d = Z.max (pg - delta) (Z.min d (pg + delta));
  ff_bloom : bloom_accrues logs_bloom;
  ff_root rs : calculate_receipt_root rs
    = calculate_receipt_root_no_memo logs_bloom ordered_trie_root rs;
  ff_parent h :
    Consensus.parent_hash (Consensus.inner h) = hash parent →
    Consensus.number (Consensus.inner h)
      = Consensus.number (Consensus.inner (Consensus.header parent)) + 1 →
    validate_against_parent_hash_number h parent = Ok tt;
  ff_len t : 0 ≤ encode_2718_len eth_encode_2718_len t;
}.

(** The header of a payload, field by field. *)
Lemma made_from_header c a executed i b p :
  made_from c a executed i b p → 0 ≤ Consensus.number (Consensus.inner (Consensus.header parent)) < u64_max →
  let blk := p_block p in let sh := block_header blk in
  let h := Consensus.inner (Consensus.header sh) in
  transactions (body blk) = map rec_tx (bb_txs b) ∧ ommers (body blk) = []
  ∧ withdrawals (body blk) = None
  ∧ next_l1_msg_index (Consensus.header sh) = i_next_l1_message_index i
  ∧ Consensus.parent_hash h = hash parent ∧ Consensus.beneficiary h = 0
  ∧ Consensus.ommers_hash h = EMPTY_OMMER_ROOT_HASH
  ∧ Consensus.transactions_root h = calculate_transaction_root (map rec_tx (bb_txs b))
  ∧ Consensus.extra_data h = [] ∧ Consensus.nonce h = Some 0 ∧ Consensus.difficulty h = 0
  ∧ Consensus.number h = Consensus.number (Consensus.inner (Consensus.header parent)) + 1
  ∧ Consensus.gas_limit h = header_gas_limit c a
  ∧ Consensus.gas_used h = ex_gas_used (bb_executor b)
  ∧ Consensus.timestamp h = at_timestamp a
  ∧ Consensus.base_fee_per_gas h
    = (if is_london_active_at_block
          (Consensus.number (Consensus.inner (Consensus.header parent)) + 1)
       then Some (default MORPH_BASE_FEE (at_base_fee_per_gas a)) else None).
Proof using.
  intros (root & wr & Hb & _ & _) Hn. cbv zeta. rewrite Hb.
  unfold seal_block, assembled, assemble_block, next_evm_env.
  cbn [fst snd block_header body transactions ommers withdrawals Consensus.header Consensus.inner
    Consensus.next_l1_msg_index Consensus.parent_hash Consensus.beneficiary Consensus.ommers_hash
    Consensus.transactions_root Consensus.extra_data Consensus.nonce Consensus.difficulty
    Consensus.number Consensus.gas_limit Consensus.gas_used Consensus.timestamp
    Consensus.base_fee_per_gas block_env be_number be_gas_limit be_timestamp be_difficulty
    be_basefee context_for_next_block ctx_parent_hash ctx_extra_data next_attrs na_extra_data
    na_gas_limit na_timestamp na_base_fee_per_gas executor_finish result_gas_used].
  rewrite wrapping_add_exact by lia. by split_and!.
Qed.
Lemma built_payload_size i b d :
  da_counted d b i → d ≤ MORPH_MAX_TX_PAYLOAD_BYTES_PER_BLOCK →
  (∀ t, 0 ≤ encode_2718_len eth_encode_2718_len t) →
  validate_l2_tx_payload_size eth_encode_2718_len (map rec_tx (bb_txs b)) = Ok tt.
Proof using.
  intros (_ & Hd & Hs) Hmax Hlen. unfold validate_l2_tx_payload_size. cbv zeta.
  rewrite reject_Ok. split; [|done]. rewrite l2_payload_sum by (intros; apply Hlen).
  fold (l2_size (map rec_tx (bb_txs b))). rewrite <-Hs. bool_simp. lia.
Qed.

Lemma built_post_execution c a executed i b p :
  mirrors (header_gas_limit c a) b i → made_from c a executed i b p → foreign_facts →
  0 ≤ header_gas_limit c a ≤ u64_max →
  let h := Consensus.inner (Consensus.header (block_header (p_block p))) in
  validate_block_post_execution (λ r, cumulative_gas_used (as_receipt r))
    (receipt_bloom logs_bloom) calculate_receipt_root gas_spent h
    (from_option (λ x, result_receipts x.1) [] (p_executed p)) None = Ok tt
  ∧ Consensus.gas_used h ≤ Consensus.gas_limit h.
Proof using Hgas.
  intros Hm Hmade Hff Hlim h. destruct Hm as [_ (e & l & Hrun & Htx) _ _].
  destruct Hmade as (root & wr & Hb & _ & Hr). unfold h. rewrite Hb, <-Hr.
  destruct Hff as [_ Hbloom Hroot _ _].
  unfold assembled. rewrite <-Htx, map_map.
  exact (assembled_block_passes_post_execution keccak256 eth_view transact err_evm commit
    err_string chain_id is_london_active_at_block EMPTY_OMMER_ROOT_HASH
    calculate_transaction_root logs_bloom ordered_trie_root calculate_receipt_root gas_spent
    chain_spec _ (next_attrs c a) _ parent e l (bb_executor b) root Hgas Hlim Hbloom Hroot Hrun).
Qed.

(** The pool's validator, over its own view of the chain, and reth's pool. *)
Context {DbEr IT PE Origin State : Type}.
Context (state_by_block_number : Z → result (PoolDb DbEr IT) PE).
Context (ensure_max_init_code_size :
  MorphPooledTransaction envelope → Z → result unit TxError.InvalidPoolTransactionError).
Context (inner_validate : Origin → MorphPooledTransaction envelope → option State →
  TransactionValidationOutcome (MorphPooledTransaction envelope) * option State).

(** The pool offers only what its validator admitted at some head that is not later
    than the block; the fork schedule is one that a chain runs: no fork ends, and
    Celadon does not come before Jade. *)
Record pool_facts (best : Z → P) (a : attributes) : Prop := {
  pf_keeps : keeps_transaction inner_validate;
  pf_monotone : schedule_monotone chain_spec;
  pf_celadon t : is_celadon_active_at_timestamp chain_spec t = true →
    is_jade_active_at_timestamp chain_spec t = true;
  pf_admitted fee r : offered (best fee) r →
    admitted_until keccak256 eth_encode_2718 chain_spec state_by_block_number
      ensure_max_init_code_size inner_validate (at_timestamp a) r;
}.

(** The MorphTx of a block are well-formed when its transactions are supplied L1
    messages and admitted ones. *)
Lemma collected_morph_ok best a (l : list (Recovered envelope)) :
  pool_facts best a →
  Forall (λ w, is_l1_msg (rec_tx (value w)) = true) (at_transactions a) →
  (∀ Q : Recovered envelope → Prop, Forall (λ w, Q (value w)) (at_transactions a) →
     (∀ f x, offered (best f) x → Q x) → Forall Q l) →
  validate_morph_txs (map rec_tx l)
    (is_emerald_active_at_timestamp chain_spec (at_timestamp a))
    (is_jade_active_at_timestamp chain_spec (at_timestamp a))
    (is_celadon_active_at_timestamp chain_spec (at_timestamp a)) = Ok tt.
Proof using.
  intros Hp Hl1 Hl. apply validate_morph_txs_Ok. intros s Hs.
  apply list_elem_of_fmap in Hs as (r & Hr & Hin).
  assert (Forall (λ r, is_l1_msg (rec_tx r) = true ∨ ∃ f, offered (best f) r) l) as Hall
    by (apply Hl; [eapply Forall_impl; [exact Hl1|by left]|eauto]).
  rewrite Forall_forall in Hall. destruct (Hall r Hin) as [Hx|[f Hf]].
  - by rewrite <-Hr in Hx.
  - by eapply admitted_morph_ok; [apply Hp..|eapply (pf_admitted _ _ Hp), Hf|].
Qed.

(** C2. A sequencer never builds a block that its validators reject.  For a job within
    the sequencer's bounds ([sequencer_job]) and a pool that offers transactions its
    own validator admitted under the forks of some head no later than the block
    ([pool_facts]), every payload the builder returns passes header validation,
    validation against the parent, pre-execution validation, post-execution
    validation on the receipts of the build, and the engine tree's check of the next
    L1 message index. *)
Theorem built_block_accepted cancelled cancelled_after elapsed fuel a c best handle p now
    tree_header provider_header :
  attributes_ok a → sequencer_job c a now → pool_facts best a → foreign_facts →
  tree_header (hash parent) = Some parent →
  build cancelled cancelled_after elapsed fuel a parent c best handle = Some (Ok (Better p)) →
  validate_header EMPTY_OMMER_ROOT_HASH chain_spec now (block_header (p_block p)) = Ok tt
  ∧ validate_header_against_parent validate_against_parent_hash_number chain_spec
      (block_header (p_block p)) parent = Ok tt
  ∧ validate_block_pre_execution EMPTY_OMMER_ROOT_HASH eth_encode_2718_len
      calculate_transaction_root chain_spec (p_block p) = Ok tt
  ∧ validate_block_post_execution (λ r, cumulative_gas_used (as_receipt r))
      (receipt_bloom logs_bloom) calculate_receipt_root gas_spent
      (Consensus.inner (Consensus.header (block_header (p_block p))))
      (from_option (λ x, result_receipts x.1) [] (p_executed p)) None = Ok tt
  ∧ validate_next_l1_msg_index chain_spec tree_header provider_header (p_block p) = Ok tt.
Proof using Hlaws Hgas.
  intros Ha [Hno Hl1 (d & Hd & Hd0) Ht Hfee Hmaxg Hpg Hnum Hlon] Hp Hff Htree Hbuild.
  assert (0 ≤ header_gas_limit c a ≤ u64_max) as Hlim.
  { destruct (header_gas_limit_min c a (ff_gas_limit Hff) Hpg Hno) as [_ Hge].
    assert (MAX_GAS_LIMIT ≤ u64_max) by (vm_compute; discriminate).
    unfold MINIMUM_GAS_LIMIT in Hge. lia. }
  destruct (build_better _ _ _ _ _ _ _ _ _ Hlim Ha (ff_len Hff) Hbuild)
    as (b & i & ex & Hm & Hc & Hmade & _ & Hda & Hcol).
  pose proof (collected_morph_ok _ _ _ Hp Hl1 Hcol) as Hmorph. clear Hcol.
  destruct (built_post_execution _ _ _ _ _ _ Hm Hmade Hff Hlim) as [Hpost Hused].
  specialize (Hda d Hd ltac:(lia) Hl1).
  pose proof (contents_well_placed _ _ _ _ (is_jade_active_at_timestamp chain_spec
    (at_timestamp a)) Hc) as Hplace.
  pose proof (co_l1 _ _ _ _ Hc) as (msgs & l2 & _ & _ & _ & Hnext).
  destruct (made_from_header _ _ _ _ _ _ Hmade Hnum) as (Htxs & Hom & Hwd & Hni & Hph & Hben & Hoh
    & Htr & Hex & Hnon & Hdif & Hnb & Hgl & Hgu & Hts & Hbf). rewrite Hlon in Hbf.
  split; [|split; [|split; [|split; [exact Hpost|]]]].
  - apply validate_header_Ok. cbv zeta. rewrite Hben, Hts. split_and!; try done; try lia.
    eexists. by split.
  - unfold validate_header_against_parent. cbv zeta.
    rewrite (ff_parent Hff) by done. cbn [result_bind].
    unfold validate_against_parent_timestamp. rewrite Hts.
    destruct (Z.ltb_spec (at_timestamp a) (Consensus.timestamp (Consensus.inner (Consensus.header parent)))); [lia|].
    destruct (Z.eqb_spec (at_timestamp a) (Consensus.timestamp (Consensus.inner (Consensus.header parent)))); [lia|].
    cbn [andb orb result_bind].
    rewrite (header_gas_limit_accepted c a (ff_gas_limit Hff) Hpg Hno _ Hgl). cbn [result_bind].
    rewrite Hni, Hnext. rewrite reject_Ok. bool_simp. split; [lia|done].
  - unfold validate_block_pre_execution. cbv zeta.
    rewrite Hom, Hoh, Hwd, Htxs, Htr, Hts, !Z.eqb_refl. cbn [length Nat.ltb Nat.leb negb].
    rewrite bool_decide_eq_false_2 by (by intros [? [=]]).
    rewrite (built_payload_size i b d) by (try apply (ff_len Hff); try done; lia).
    cbn [result_bind]. rewrite Hmorph. cbn [result_bind].
    rewrite (proj2 (validate_l1_messages_spec _ _ _)); [done|]. by rewrite Hni.
  - unfold validate_next_l1_msg_index. cbv zeta. rewrite Hts, Hph, Htree, Htxs, Hni.
    destruct (negb _); [done|]. cbn [result_bind].
    rewrite (contents_expected_index _ _ _ _ _ Hc). cbn [result_bind].
    by rewrite Z.eqb_refl.
Qed.
(** *** Deterministic builds *)

(** The supplied loop collects a prefix of the list, under its original bytes. *)
Lemma supplied_loop_trace no_pool limit fee txs idx saw executed b i b' i' executed' :
  supplied no_pool limit fee txs idx saw executed b i = (b', i', Ok executed') →
  bb_env b' = bb_env b ∧ bb_ctx b' = bb_ctx b
  ∧ ∃ incl rest, txs = incl ++ rest ∧ bb_txs b' = bb_txs b ++ map value incl
      ∧ executed' = executed ++ map encoded_bytes incl ∧ (no_pool = true → rest = []).
Proof using Hlaws.
  revert idx saw executed b i. induction txs as [|w txs IH]; intros idx saw executed b i Hrun.
  { injection Hrun as <- <- <-. split_and!; try done. exists [], []. by rewrite !app_nil_r. }
  cbn [supplied_loop] in Hrun. cbv zeta in Hrun.
  destruct (is_eip4844 _); [done|]. destruct (_ && saw); [done|].
  destruct (is_tx_over_limits _ _ _ _).
  { destruct no_pool; [done|]. injection Hrun as <- <- <-. split_and!; try done.
    exists [], (w :: txs). by rewrite !app_nil_r. }
  destruct (bb_execute_transaction (value w) b) as [b1 [g|[]]] eqn:Hx; try done.
  destruct (account_supplied _ _ _ _ _ _) as [i1|]; [|done].
  apply (law_execute Hlaws) in Hx as (Henv & Hctx & _ & Htx). cbn [is_ok] in Htx.
  apply IH in Hrun as (He & Hc & incl & rest & -> & Hb & -> & Hrest).
  split_and!; try congruence. exists (w :: incl), rest. cbn [map app].
  rewrite Hb, Htx, <-!app_assoc. by split_and!.
Qed.

(** Without the pool, the block is the whole supplied list. *)
Lemma deterministic_inner cancelled cancelled_after elapsed fuel a c best handle :
  at_no_tx_pool a = true →
  ∃ r, build cancelled cancelled_after elapsed fuel a parent c best handle = Some r
    ∧ r ≠ Ok Cancelled
    ∧ ∀ p, r = Ok (Better p) →
        ∃ i b, made_from c a (map encoded_bytes (at_transactions a)) i b p
          ∧ map rec_tx (bb_txs b) = map (λ w, rec_tx (value w)) (at_transactions a).
Proof using Hlaws.
  intros Hnp. unfold build_payload_inner, include_tx_pool. rewrite Hnp. cbv zeta. cbn [negb].
  fold (header_gas_limit c a). fold (next_attrs c a).
  destruct (builder_for_next_block _) as [b0|] eqn:Hb0; [|by eexists].
  destruct (bb_apply_pre_execution_changes _) as [b2 [[]|]] eqn:Hpre; [|by eexists].
  destruct (execute_supplied_transactions _ _ _ _ _) as [[b3 i3] [ex|]] eqn:Hsup; [|by eexists].
  eexists. split; [done|]. split; [apply finish_not_cancelled|]. intros p Hp.
  apply (law_new Hlaws) in Hb0 as (Henv0 & Hctx0 & Htx0 & _).
  apply (law_pre Hlaws) in Hpre as (Henv2 & Hctx2 & Htx2 & _).
  assert (bb_env b2 = bb_env b0 ∧ bb_ctx b2 = bb_ctx b0 ∧ bb_txs b2 = []) as (Henv & Hctx & Htx).
  { destruct handle; [destruct (law_hook Hlaws true b0) as (? & ? & ? & _)|];
      split_and!; congruence. }
  unfold execute_supplied_transactions in Hsup. rewrite Hnp in Hsup.
  apply supplied_loop_trace in Hsup as (Henv3 & Hctx3 & incl & rest & Hs & Htx3 & -> & Hrest).
  rewrite Hrest, app_nil_r in Hs by done. rewrite Htx in Htx3. rewrite Hs. clear Hs.
  exists i3, b3. rewrite Htx3. cbn [app]. rewrite map_map. split; [|done].
  eapply finish_made_from; [..|exact Hp]; congruence.
Qed.

Context (sha256 : bytes → bytes) (encode_withdrawals : list bytes → bytes).
Context (decode_2718 : bytes → result (envelope * bytes) rlp_error).
Context (recover_signature : envelope → option Address).
Context (state_by_block_hash : B256 → result unit string).
Abbreviation build_request := (build_payload eth_view eth_encode_2718 eth_encode_2718_len
  effective_tip_per_gas calculate_block_gas_limit builder_for_next_block is_better_payload
  hash_slow sha256 keccak256 encode_withdrawals decode_2718 recover_signature
  state_by_block_hash).

(** The payload of a deterministic request comes from a builder that executed the
    whole list. *)
Lemma deterministic_request cancelled cancelled_after elapsed fuel request c best handle :
  ma_no_tx_pool request = true →
  ∃ r, build_request cancelled cancelled_after elapsed fuel request parent c best handle = Some r
    ∧ r ≠ Ok Cancelled
    ∧ ∀ p, r = Ok (Better p) →
        ∃ a i b, made_from c a (default [] (ma_transactions request)) i b p
          ∧ at_timestamp a = pa_timestamp (ma_inner request)
          ∧ at_gas_limit a = ma_gas_limit request
          ∧ Forall2 (λ data t, decode_2718 data = Ok (t, []))
              (default [] (ma_transactions request)) (map rec_tx (bb_txs b)).
Proof using Hlaws.
  intros Hnp. unfold build_payload.
  destruct (try_new _ _ _ _ _ _ _ _) as [a|] eqn:Ha; [|by eexists].
  destruct (state_by_block_hash _); [|by eexists].
  pose proof (try_new_bytes _ _ _ _ _ _ _ _ _ Ha) as (Hbytes & Hpool & Htime & Hlimit).
  apply try_new_decoded in Ha. rewrite Hnp in Hpool.
  destruct (deterministic_inner cancelled cancelled_after elapsed fuel a c best handle Hpool)
    as (r & Hr & Hnc & Hp).
  exists r. split; [done|]. split; [done|]. intros p ->.
  destruct (Hp p eq_refl) as (i & b & Hm & Htx). rewrite Hbytes in Hm.
  exists a, i, b. by rewrite Htx.
Qed.

(** C24. A deterministic build reproduces exactly the requested list or fails: its
    outcome does not depend on the pool, the clock, the cancellation marker or the
    fuel, it always has one and is never cancelled, and the payload returned carries
    the requested encodings, unchanged and in order, with a block of exactly the
    transactions they decode to. *)
Theorem deterministic_build_exact cancelled cancelled_after elapsed fuel request c best handle :
  ma_no_tx_pool request = true →
  (∀ cancelled' cancelled_after' elapsed' fuel' best',
     build_request cancelled' cancelled_after' elapsed' fuel' request parent c best' handle
     = build_request cancelled cancelled_after elapsed fuel request parent c best handle)
  ∧ ∃ r, build_request cancelled cancelled_after elapsed fuel request parent c best handle = Some r
      ∧ match r with
        | Ok Cancelled => False
        | Ok (Better p) =>
            x_transactions (p_executable_data p) = default [] (ma_transactions request)
            ∧ Forall2 (λ data t, decode_2718 data = Ok (t, []))
                (default [] (ma_transactions request)) (transactions (body (p_block p)))
        | _ => True
        end.
Proof using Hlaws.
  intros Hnp. split.
  { intros. unfold build_payload. destruct (try_new _ _ _ _ _ _ _ _) as [a|] eqn:Ha; [|done].
    destruct (state_by_block_hash _); [|done].
    pose proof (try_new_bytes _ _ _ _ _ _ _ _ _ Ha) as (_ & Hpool & _).
    unfold build_payload_inner, include_tx_pool. by rewrite Hpool, Hnp. }
  destruct (deterministic_request cancelled cancelled_after elapsed fuel request c best handle Hnp)
    as (r & Hr & Hnc & Hp).
  exists r. split; [done|]. destruct r as [[p|f|]|]; try done.
  destruct (Hp p eq_refl) as (a & i & b & Hm & _ & _ & Hd).
  apply made_from_shape in Hm as (_ & [wr ->] & -> & _). by split.
Qed.

(** *** The executor's gas check never fails in a build *)

Definition gas_refusal (e : BlockExecutionError) : bool :=
  match e with GasLimitExceedsAvailable _ _ => true | _ => false end.

(** A transaction that passed the builder's own limit passes the executor's. *)
Lemma execute_within_limit limit b i r b' err size :
  0 ≤ limit ≤ u64_max → (∀ x, gas_refusal (err_evm x) = false) → mirrors limit b i →
  is_tx_over_limits i (gas_of (rec_tx r)) size limit = false →
  bb_execute_transaction r b = (b', Err err) → gas_refusal err = false.
Proof using Hlaws Hgas.
  intros Hlim Herr Hm Hover Hx. pose proof (mirrors_ok _ _ _ Hlim Hm) as [Hu Hp].
  apply (law_execute Hlaws) in Hx as (_ & _ & Hx & _). rewrite (mi_limit _ _ _ Hm) in Hx.
  unfold is_tx_over_limits, sum_over in Hover.
  destruct (checked_add u64_max (i_gas_pool_used i) (gas_of (rec_tx r))) as [t|] eqn:Ht; [|done].
  apply checked_add_Some in Ht as [-> Ht].
  destruct (Z.ltb_spec limit (i_gas_pool_used i + gas_of (rec_tx r))); [done|].
  rewrite (mi_pool _ _ _ Hm) in *.
  unfold execute_transaction, execute_transaction_without_commit, saturating_sub in Hx.
  destruct (Z.ltb_spec (Z.max (limit - gas_pool_used (bb_executor b)) 0) (gas_of (rec_tx r)));
    [lia|].
  destruct (transact _ _) as [e [[res st]|x]]; cbn in Hx; [done|].
  by injection Hx as _ <-.
Qed.

Definition no_refusal {A} (r : result A PayloadBuilderError) : Prop :=
  ∀ e, r = Err (EvmExecutionError e) → gas_refusal e = false.

Lemma supplied_no_refusal limit fee no_pool txs idx saw executed b i :
  0 ≤ limit ≤ u64_max → (∀ x, gas_refusal (err_evm x) = false) → mirrors limit b i →
  no_refusal (supplied no_pool limit fee txs idx saw executed b i).2.
Proof using Hlaws Hgas.
  intros Hlim Herr. revert idx saw executed b i.
  induction txs as [|w txs IH]; intros idx saw executed b i Hm; cbn [supplied_loop]; [by intros e|].
  destruct (is_eip4844 _); [by intros e|]. destruct (_ && saw); [by intros e|].
  destruct (is_tx_over_limits _ _ _ _) eqn:Hover; [destruct no_pool; by intros e|].
  destruct (bb_execute_transaction (value w) b) as [b1 res] eqn:Hx.
  destruct res as [g|err].
  - destruct (account_supplied _ _ _ _ _ _) as [i1|e] eqn:Ha.
    + apply IH. pose proof (account_supplied_Ok _ _ _ _ _ Ha) as (Hg & Hp & _).
      by apply (mirrors_execute _ _ _ _ _ _ Hlim Hm Hx).
    + intros e' [= ->]. unfold account_supplied in Ha. cbv zeta in Ha.
      apply bind_Err in Ha as [Ha|(x & _ & Hk)]; [|by destruct x].
      by repeat case_match.
  - pose proof (execute_within_limit _ _ _ _ _ _ _ Hlim Herr Hm Hover Hx) as Hr.
    destruct err; try by intros e. by intros e [= <-].
    by intros e [= <-].
Qed.

Lemma pool_no_refusal cancelled elapsed brk limit fee fuel n best executed b i res :
  0 ≤ limit ≤ u64_max → (∀ x, gas_refusal (err_evm x) = false) → mirrors limit b i →
  pool cancelled elapsed brk limit fee fuel n best executed b i = Some res → no_refusal res.2.
Proof using Hlaws Hgas.
  intros Hlim Herr. revert n best executed b i.
  induction fuel as [|fuel IH]; intros n best executed b i Hm; cbn [pool_loop]; [done|].
  destruct (pt_next best) as [[r best1]|]; [|by intros [= <-] e].
  destruct (cancelled n); [by intros [= <-] e|].
  destruct (should_break _ _ _ _); [by intros [= <-] e|].
  destruct (is_eip4844 (rec_tx r) || is_l1_msg (rec_tx r)) eqn:Hty; [by apply IH|].
  apply orb_false_iff in Hty as [_ Hl1].
  destruct (is_tx_over_limits _ _ _ _) eqn:Hover; [by apply IH|].
  destruct (bb_execute_transaction r b) as [b1 [g|err]] eqn:Hx.
  - apply IH. apply (mirrors_execute _ _ _ _ _ _ Hlim Hm Hx); [done|]. by rewrite Hl1.
  - pose proof (execute_within_limit _ _ _ _ _ _ _ Hlim Herr Hm Hover Hx) as Hr.
    pose proof (mirrors_execute _ _ _ _ _ _ Hlim Hm Hx) as Hm1. cbn in Hm1.
    destruct err; try by apply IH.
    all: intros [= <-] e [= <-]; done.
Qed.
(** The two gas accounts agree: in no build, of any attributes and any pool,
    does the executor refuse a transaction for block gas that the builder's own
    limit let through, which would abort the build as fatal. *)
Theorem build_never_overdraws_gas cancelled cancelled_after elapsed fuel a c best handle r :
  0 ≤ header_gas_limit c a ≤ u64_max → attributes_ok a →
  (∀ t, 0 ≤ encode_2718_len eth_encode_2718_len t) →
  (∀ x, gas_refusal (err_evm x) = false) →
  build cancelled cancelled_after elapsed fuel a parent c best handle = Some r →
  no_refusal r.
Proof using Hlaws Hgas.
  intros Hlim (Hw & Hn0 & Hn) Hlen Herr. unfold build_payload_inner. cbv zeta.
  fold (header_gas_limit c a). fold (next_attrs c a).
  destruct (builder_for_next_block (next_attrs c a)) as [b0|] eqn:Hb0; [|by intros [= <-] e'].
  destruct (bb_apply_pre_execution_changes _) as [b2 [[]|]] eqn:Hpre; [|by intros [= <-] e'].
  destruct (build_start _ _ _ _ _ ltac:(lia) Hb0 Hpre) as (_ & _ & Htx2 & Hm2 & Hc2).
  unfold execute_supplied_transactions. rewrite (mi_limit _ _ _ Hm2).
  pose proof (supplied_no_refusal _ (basefee b2) (at_no_tx_pool a) (at_transactions a) 0 false []
    _ _ Hlim Herr Hm2) as Hsup.
  destruct (supplied_loop _ _ _ _ _ _ _ _ _ _ _) as [[b3 i3] [ex3|e3]] eqn:Hs;
    [|intros [= <-] e' [= ->]; by apply Hsup].
  assert (∀ ex i b, no_refusal (finish_payload is_better_payload hash_slow a ex i handle b)) as Hfin.
  { intros ex i b e. unfold finish_payload. destruct (negb _); [done|].
    destruct (read_withdraw_trie_root b) as [b1 [w|]]; cbn [map_err result_bind]; [|done].
    by destruct (match handle with Some _ => _ | None => _ end). }
  destruct (include_tx_pool a); [|intros [= <-]; apply Hfin].
  eapply supplied_loop_inv in Hs as (Hm3 & _);
    [|exact Hlim|exact Hw|exact Hn0|exact Hn|exact Hm2|exact Hc2|rewrite Htx2; by constructor].
  unfold execute_pool_transactions. rewrite (mi_limit _ _ _ Hm3).
  destruct (pool_loop _ _ _ _ _ _ _ _ _ _ _ _ _ _ _) as [[[[b4 i4] ex4] st]|] eqn:Hp; [|done].
  apply pool_no_refusal in Hp; [|done..].
  destruct st as [st|e4]; [destruct (_ && cancelled_after)|]; intros [= <-];
    [by intros e'|apply Hfin|intros e' [= ->]; by apply Hp].
Qed.

(** A loop that is past its time limit by iteration [stop] returns within the fuel. *)
Lemma pool_loop_returns cancelled elapsed brk limit fee stop fuel n best executed b i :
  (n ≤ stop)%nat → (stop < n + fuel)%nat → br_time_limit brk ≤ elapsed stop →
  is_Some (pool cancelled elapsed brk limit fee fuel n best executed b i).
Proof using.
  intros Hn Hf Ht. revert n best executed b i Hn Hf.
  induction fuel as [|fuel IH]; intros n best executed b i Hn Hf; [lia|]. cbn [pool_loop].
  destruct (pt_next best) as [[r best1]|]; [|by eexists].
  destruct (cancelled n); [by eexists|].
  destruct (decide (n = stop)) as [->|Hne].
  { unfold should_break. destruct (Z.leb_spec (br_time_limit brk) (elapsed stop)); [by eexists|lia]. }
  destruct (should_break _ _ _ _); [by eexists|].
  assert (∀ best executed b i,
    is_Some (pool cancelled elapsed brk limit fee fuel (S n) best executed b i)) as Hgo
    by (intros; apply IH; lia).
  destruct (_ || _); [done|]. destruct (is_tx_over_limits _ _ _ _); [done|].
  destruct (bb_execute_transaction r b) as [b1 [g|[]]]; try done; by eexists.
Qed.

(** Building always returns: once the clock has passed the time limit at some
    iteration, that many iterations suffice, even over a pool that never runs
    out of transactions. *)
Theorem build_returns cancelled cancelled_after elapsed fuel a c best handle stop :
  cf_time_limit c ≤ elapsed stop → (stop < fuel)%nat →
  is_Some (build_payload_inner eth_view eth_encode_2718 eth_encode_2718_len effective_tip_per_gas
    calculate_block_gas_limit builder_for_next_block is_better_payload hash_slow cancelled
    cancelled_after elapsed fuel a parent c best handle).
Proof using.
  intros Ht Hf. unfold build_payload_inner. cbv zeta.
  destruct (builder_for_next_block _) as [b0|]; [|by eexists].
  destruct (bb_apply_pre_execution_changes _) as [b1 [[]|]]; [|by eexists].
  destruct (execute_supplied_transactions _ _ _ _ _) as [[b2 i2] [ex|]]; [|by eexists].
  destruct (include_tx_pool a); [|by eexists].
  destruct (pool_loop_returns cancelled elapsed (breaker c (block_gas_limit b1))
    (block_gas_limit b2) (basefee b2) stop fuel 0 (best (basefee b1)) ex b2 i2)
    as [[[[b4 i4] ex4] [st|]] Hp]; [lia|lia|done| |].
  - unfold execute_pool_transactions. rewrite Hp. case_match; by eexists.
  - unfold execute_pool_transactions. rewrite Hp. by eexists.
Qed.

(** The empty payload needs no clock: its pool ends at once. *)
Lemma build_empty_returns elapsed request c :
  is_Some (build_empty_payload eth_view eth_encode_2718 eth_encode_2718_len effective_tip_per_gas
    calculate_block_gas_limit builder_for_next_block is_better_payload hash_slow sha256 keccak256
    encode_withdrawals decode_2718 recover_signature state_by_block_hash elapsed request parent c).
Proof using.
  unfold build_empty_payload. apply fmap_is_Some. unfold build_payload.
  destruct (try_new _ _ _ _ _ _ _ _) as [a|]; [|by eexists].
  destruct (state_by_block_hash _); [|by eexists].
  unfold build_payload_inner. cbv zeta.
  destruct (builder_for_next_block _) as [b0|]; [|by eexists].
  destruct (bb_apply_pre_execution_changes _) as [b1 [[]|]]; [|by eexists].
  destruct (execute_supplied_transactions _ _ _ _ _) as [[b2 i2] [ex|]]; [|by eexists].
  destruct (include_tx_pool a); by eexists.
Qed.
End Laws.

(** ** An executable builder, and witnesses *)

Module BuildSamples.
Import ExecSamples.
#[export] Existing Instance ReceiptSamples.sample_receipt.
#[export] Existing Instance Concrete.fc_ops.
#[export] Existing Instance Concrete.table_ops.
#[local] Existing Instance Concrete.fc_laws.
#[local] Existing Instance Concrete.table_laws.

Record sample_builder := {
  sb_executor : MorphBlockExecutor journal unit Z;
  sb_txs : list (Recovered envelope);
  sb_env : EvmEnv;
  sb_ctx : BlockExecutionCtx;
}.

Definition load_oracle (_ : Address) : sm journal string unit := mret tt.
Definition sample_env_of : Recovered envelope → MorphTxEnv (list bytes) bytes bytes :=
  env_of eth_view (λ _, []) [] id.
Definition with_executor x (b : sample_builder) : sample_builder := {|
  sb_executor := x; sb_txs := sb_txs b; sb_env := sb_env b; sb_ctx := sb_ctx b |}.

#[export] Instance builder_ops :
  BlockBuilderOps sample_builder unit (list bytes) bytes Standard.Signature Z unit unit := {|
  bb_env := sb_env;
  bb_set_state_hook _ b := b;
  bb_apply_pre_execution_changes b :=
    let '(x, r) := apply_pre_execution_changes load_oracle (sb_executor b) in
    (with_executor x b, r);
  bb_execute_transaction r b :=
    let '(x, res) := execute_transaction keccak eth_view transact err_evm commit err_string
      (be_gas_limit (block_env (sb_env b))) (sample_env_of r) r (sb_executor b) in
    ({| sb_executor := x; sb_txs := sb_txs b ++ (if is_ok res then [r] else []);
        sb_env := sb_env b; sb_ctx := sb_ctx b |}, res);
  bb_storage _ _ b := (b, Ok 5);
  bb_finish b _ :=
    let out := (executor_finish (sb_executor b)).2 in
    Ok {| o_execution_result := out;
          o_block := assemble_block (λ _, true) 77 (λ _, 88) sample_bloom sample_root (sb_env b)
            (sb_ctx b) sample_parent (map rec_tx (sb_txs b)) out 66;
          o_trie := tt |};
|}.

Definition new_builder (attrs : NextBlockEnvAttributes) : result sample_builder string :=
  Ok {| sb_executor := executor_new evm0; sb_txs := [];
        sb_env := next_evm_env 2818 Concrete.mainnet
          (Consensus.inner (Consensus.header sample_parent)) attrs;
        sb_ctx := context_for_next_block sample_parent attrs |}.

Lemma same_builder (b : sample_builder) : only_evm_changed sb_executor sb_ctx sb_txs b b.
Proof. split_and!; try done. exists (ex_evm (sb_executor b)). by destruct (sb_executor b). Qed.

Lemma builder_laws :
  block_builder_laws keccak eth_view (λ _, []) [] id transact err_evm commit load_oracle
    err_string 2818 (λ _, true) 77 (λ _, 88) sample_bloom sample_root Concrete.mainnet
    sample_parent new_builder sb_executor sb_ctx sb_txs.
Proof.
  split.
  - intros attrs b [= <-]. split_and!; try done. by exists evm0.
  - intros on b. apply same_builder.
  - intros a k b. apply same_builder.
  - intros b b'. cbn -[apply_pre_execution_changes].
    destruct (apply_pre_execution_changes load_oracle (sb_executor b)) as [x r] eqn:Hx.
    intros [= <- ->]. done.
  - intros r b b' res. cbn -[execute_transaction].
    destruct (execute_transaction _ _ _ _ _ _ _ _ _ _) as [x res'] eqn:Hx.
    intros [= <- <-]. done.
  - intros b sr out [= <-]. split; [done|]. by exists 66.
Qed.

Definition sample_len : unit → Z := λ _, 100.

(** Lengths are lengths of buffers. *)
Lemma length_of_nonneg (t : envelope) : 0 ≤ encode_2718_len sample_len t.
Proof.
  assert (∀ a b, 0 ≤ a → 0 ≤ b → 0 ≤ a + b) as Hadd by lia.
  assert (0 ≤ 1) as H1 by lia. assert (0 ≤ 100) as H100 by lia. assert (0 ≤ 0) as H0 by lia.
  destruct t as [[]|[]|[]|[]|m|s]; try exact H100; cbn [encode_2718_len].
  - unfold TxL1Msg.encode_2718_len, TxL1Msg.fields_len.
    cbn [default_rlp_encoded_length Standard.ops].
    repeat first [apply Hadd | apply len_nonneg | exact H1].
  - unfold TxMorph.rlp_encoded_length_with_signature, TxMorph.fields_len.
    cbn [default_rlp_header_signed Standard.ops payload_length header_length].
    destruct (TxMorph.is_v0 _), (TxMorph.is_v2 _), (TxMorph.reference _), (TxMorph.memo _);
      cbn [negb from_option]; repeat first [apply Hadd | apply len_nonneg | exact H1 | exact H0].
Qed.

#[export] Instance list_pool : PayloadTransactions (list (Recovered envelope)) envelope := {|
  pt_next l := match l with [] => None | r :: l => Some (r, l) end;
  pt_mark_invalid a _ l := List.filter (λ r, negb (signer r =? a)) l;
|}.

Definition supplied_tx (q : Z) : WithEncoded (Recovered envelope) := {|
  encoded_bytes := rlp (λ _, []) (Consensus.Samples.l1 q);
  value := {| rec_tx := Consensus.Samples.l1 q; signer := 2 |} |}.

Definition sample_job (no_pool : bool) : MorphPayloadBuilderAttributes envelope := {|
  at_id := [1]; at_parent := 9; at_timestamp := 1775628000; at_suggested_fee_recipient := 0;
  at_prev_randao := 0; at_withdrawals := []; at_parent_beacon_block_root := None;
  at_transactions := [supplied_tx 5; supplied_tx 6]; at_no_tx_pool := no_pool;
  at_gas_limit := None; at_base_fee_per_gas := None |}.

Definition sample_config : MorphBuilderConfig := {|
  cf_gas_limit := None; cf_time_limit := 1000; cf_max_da_block_size := Some 737280;
  cf_desired_gas_limit := Some 40000000 |}.

Definition calc (p d : Z) : Z :=
  let delta := saturating_sub (p / GAS_LIMIT_BOUND_DIVISOR) 1 in
  Z.max (p - delta) (Z.min d (p + delta)).

(** Two pool transactions; the clock advances by 400 per iteration. *)
Definition sample_pool (_ : Z) : list (Recovered envelope) := [morph_tx; morph_tx].
Definition clock (n : nat) : Z := 400 * Z.of_nat n.
Definition tip (_ : envelope) (_ : Z) : option Z := Some 2.
Definition head_hash (h : Consensus.Header) : B256 := 1000 + Consensus.number h.

Definition build_sample (no_pool : bool) :=
  build_payload_inner (P := list (Recovered envelope)) eth_view (λ _, []) sample_len tip calc
    new_builder (λ _, true) head_hash (λ _, false) false clock 5 (sample_job no_pool)
    sample_parent sample_config sample_pool None.

Definition built (no_pool : bool) : MorphBuiltPayload
    (SealedBlock unit (list bytes) bytes Standard.Signature) (BlockExecutionResult Z * unit) :=
  match build_sample no_pool with
  | Some (Ok (Better p)) => p
  | _ => {| p_id := []; p_block := Consensus.Samples.sample_block; p_fees := 0;
            p_executable_data := executable_data_of Consensus.Samples.sample_block [] 0 0 0;
            p_executed := None |}
  end.

(** A decoder that knows the encodings of the two sample messages. *)
Definition decode_sample (data : bytes) : result (envelope * bytes) rlp_error :=
  if bool_decide (data = encoded_bytes (supplied_tx 5)) then Ok (Consensus.Samples.l1 5, [])
  else if bool_decide (data = encoded_bytes (supplied_tx 6)) then Ok (Consensus.Samples.l1 6, [])
  else Err UnexpectedLength.

Definition derivation_request (data : list bytes) : MorphPayloadAttributes := {|
  ma_inner := {| pa_timestamp := 1775628000; pa_prev_randao := 0;
    pa_suggested_fee_recipient := 0; pa_withdrawals := Some [];
    pa_parent_beacon_block_root := None |};
  ma_transactions := Some data; ma_no_tx_pool := true; ma_gas_limit := None;
  ma_base_fee_per_gas := None |}.

Definition request_sample (request : MorphPayloadAttributes) :=
  build_payload (P := list (Recovered envelope)) eth_view (λ _, []) sample_len tip calc
    new_builder (λ _, true) head_hash id keccak (@concat Z) decode_sample (λ _, Some 9) (λ _, Ok tt)
    (λ _, false) false clock 0 request sample_parent sample_config sample_pool None.

Definition built_request (data : list bytes) : MorphBuiltPayload
    (SealedBlock unit (list bytes) bytes Standard.Signature) (BlockExecutionResult Z * unit) :=
  match request_sample (derivation_request data) with
  | Some (Ok (Better p)) => p
  | _ => built true
  end.

Lemma attributes_ok_sample no_pool : attributes_ok (λ _, []) sample_parent (sample_job no_pool).
Proof.
  split; [|split; vm_compute; discriminate]. repeat constructor.
Qed.

Lemma limit_ok no_pool :
  0 ≤ header_gas_limit sample_parent calc sample_config (sample_job no_pool) ≤ u64_max.
Proof. split; vm_compute; discriminate. Qed.

Lemma sample_sequencer_job :
  sequencer_job (λ _, true) sample_parent calc sample_config (sample_job false) 1775628000.
Proof.
  split; try reflexivity; try (vm_compute; discriminate).
  - repeat constructor.
  - exists 737280. split; [reflexivity|split; vm_compute; discriminate].
  - split; [reflexivity|vm_compute; discriminate].
  - split; [vm_compute; discriminate|reflexivity].
Qed.

(** The pool's view of the chain: token 3 of the registry is the sample token, and
    every account holds plenty of it and of ETH. *)
Definition admission_db : PoolDb unit unit := {|
  db_slot a k :=
    Ok (if negb (a =? L2_TOKEN_REGISTRY_ADDRESS) then 10 ^ 30
        else if k =? 64 then 7 * 2 ^ 160 + 0xABCD
        else if k =? 65 then 6 else if k =? 66 then 6 * 2 ^ 8 + 1 else if k =? 67 then 1 else 0);
  db_balance_of _ _ _ := Ok 40;
  TxPool.db_basic _ := Ok (Some (10 ^ 30)) |}.
Definition admission_inner (_ : unit) (tx : MorphPooledTransaction envelope) (st : option unit)
  : TransactionValidationOutcome (MorphPooledTransaction envelope) * option unit :=
  (Valid (10 ^ 30) 7 None tx true None, st).
Definition admission_init_code (_ : MorphPooledTransaction envelope) (_ : Z)
  : result unit TxError.InvalidPoolTransactionError := Ok tt.
Definition admission_state (_ : Z) : result (PoolDb unit unit) unit := Ok admission_db.

Lemma list_pool_offers (l : list (Recovered envelope)) r : offered l r → r ∈ l.
Proof.
  induction 1 as [p r p' Hn|p r p' x Hn _ IH|p a n x _ IH].
  - destruct p; [done|]. injection Hn as -> ->. by left.
  - destruct p; [done|]. injection Hn as -> ->. by right.
  - apply list_elem_of_In, filter_In in IH as [IH _]. by apply list_elem_of_In.
Qed.

(** Both transactions of the sample pool were admitted, at a head of the block's time. *)
Lemma sample_pool_facts : pool_facts keccak (λ _, []) Concrete.mainnet admission_state
  admission_init_code admission_inner sample_pool (sample_job false).
Proof.
  split.
  - intros o tx st b n h v p au st' Hin. unfold admission_inner in Hin. by simplify_eq.
  - by apply spec_from_genesis_monotone.
  - intros t. unfold is_celadon_active_at_timestamp, is_jade_active_at_timestamp.
    change ((1793772000 <=? t) = true → (1775628000 <=? t) = true). bool_simp. lia.
  - intros fee r Hr%list_pool_offers. assert (r = morph_tx) as -> by set_solver.
    exists {| bi_l1_block_info := bi_l1_block_info MorphL1BlockInfo_default;
              bi_base_fee_per_gas := None; bi_timestamp := 1775628000; bi_number := 9 |}, tt,
      {| p_transaction := rec_tx morph_tx; p_signer := 9; p_hash := 1; p_cost := 0 |}, None.
    do 7 eexists. split; [done|]. split; [done|]. vm_compute. reflexivity.
Qed.

(** A pool that offers the same transaction for ever. *)
Definition endless_pool : PayloadTransactions (Recovered envelope) envelope := {|
  pt_next r := Some (r, r); pt_mark_invalid _ _ r := r |}.

(** The parent hash and number check as reth documents it. *)
Definition check_parent (h : MorphHeader) (parent : SealedHeader) : result unit ConsensusError :=
  if (Consensus.parent_hash (Consensus.inner h) =? hash parent)
     && (Consensus.number (Consensus.inner h)
           =? Consensus.number (Consensus.inner (Consensus.header parent)) + 1)
  then Ok tt else Err (Foreign "parent"%string).

Lemma sample_foreign_facts : foreign_facts sample_bloom sample_root sample_parent sample_len calc
  check_parent (calculate_receipt_root_no_memo sample_bloom sample_root).
Proof.
  split; [reflexivity|exact sample_bloom_accrues|reflexivity| |exact length_of_nonneg].
  intros h Hh Hn. unfold check_parent. by rewrite Hh, Hn, !Z.eqb_refl.
Qed.
End BuildSamples.

Import BuildSamples.
#[local] Existing Instance Standard.ops.

(** The block of two L1 messages and two MorphTx is accepted everywhere. *)
Lemma built_block_accepted_witness :
  let blk := p_block (built false) in
  length (transactions (body blk)) = 4%nat
  ∧ validate_header 77 Concrete.mainnet 1775628000 (block_header blk) = Ok tt
  ∧ validate_block_pre_execution 77 sample_len (λ _, 88) Concrete.mainnet blk = Ok tt
  ∧ validate_next_l1_msg_index Concrete.mainnet (λ _, Some sample_parent) (λ _, Ok None) blk = Ok tt.
Proof.
  simple refine (let H := @built_block_accepted _ _ _ _ _ _ MapJournal.ops _ _ _ _ _ _ _ _ _
    Standard.ops ReceiptSamples.sample_receipt builder_ops _ _ _ Concrete.fc_ops Concrete.table_ops
    ExecSamples.keccak ExecSamples.eth_view (λ _, []) [] id ExecSamples.transact
    ExecSamples.err_evm ExecSamples.commit load_oracle ExecSamples.err_string 2818 (λ _, true) 77
    (λ _, 88) sample_bloom sample_root Concrete.mainnet sample_parent new_builder sb_executor
    sb_ctx sb_txs builder_laws ExecSamples.transact_gas _ list_pool sample_len tip calc
    (λ _, true) head_hash check_parent (calculate_receipt_root_no_memo sample_bloom sample_root)
    (λ _, []) _ _ _ _ _ admission_state admission_init_code admission_inner (λ _, false) false
    clock 5 (sample_job false) sample_config sample_pool None
    (built false) 1775628000 (λ _, Some sample_parent) (λ _, Ok None) _ _ _ _ _ _
    in conj _ (conj (proj1 H) (conj (proj1 (proj2 (proj2 H))) (proj2 (proj2 (proj2 (proj2 H))))))).
  - apply attributes_ok_sample.
  - exact sample_sequencer_job.
  - exact sample_pool_facts.
  - exact sample_foreign_facts.
  - reflexivity.
  - vm_compute. reflexivity.
  - vm_compute. reflexivity.
Defined.

Lemma deterministic_build_exact_witness :
  let data := map encoded_bytes (at_transactions (sample_job true)) in
  request_sample (derivation_request data) = Some (Ok (Better (built_request data)))
  ∧ x_transactions (p_executable_data (built_request data)) = data.
Proof.
  intros data.
  assert (request_sample (derivation_request data) = Some (Ok (Better (built_request data)))) as Hb
    by (vm_compute; reflexivity).
  split; [exact Hb|].
  simple refine (let H := @deterministic_build_exact _ _ _ _ _ _ MapJournal.ops _ _ _ _ _ _ _ _ _
    Standard.ops ReceiptSamples.sample_receipt builder_ops _ _ _ Concrete.fc_ops Concrete.table_ops
    ExecSamples.keccak ExecSamples.eth_view (λ _, []) [] id ExecSamples.transact
    ExecSamples.err_evm ExecSamples.commit load_oracle ExecSamples.err_string 2818 (λ _, true) 77
    (λ _, 88) sample_bloom sample_root Concrete.mainnet sample_parent new_builder sb_executor
    sb_ctx sb_txs builder_laws _ list_pool sample_len tip calc (λ _, true) head_hash id (@concat Z)
    decode_sample (λ _, Some 9) (λ _, Ok tt) (λ _, false) false clock 0 (derivation_request data)
    sample_config sample_pool None _ in _).
  - reflexivity.
  - destruct (proj2 H) as (r & Hr & Hm). unfold request_sample in Hb. rewrite Hb in Hr.
    injection Hr as <-. exact (proj1 Hm).
Defined.

Lemma build_never_overdraws_gas_witness : no_refusal (Ok (Better (built false))).
Proof.
  simple refine (@build_never_overdraws_gas _ _ _ _ _ _ MapJournal.ops _ _ _ _ _ _ _ _ _
    Standard.ops ReceiptSamples.sample_receipt builder_ops _ _ _ Concrete.fc_ops Concrete.table_ops
    ExecSamples.keccak ExecSamples.eth_view (λ _, []) [] id ExecSamples.transact
    ExecSamples.err_evm ExecSamples.commit load_oracle ExecSamples.err_string 2818 (λ _, true) 77
    (λ _, 88) sample_bloom sample_root Concrete.mainnet sample_parent new_builder sb_executor
    sb_ctx sb_txs builder_laws ExecSamples.transact_gas _ list_pool sample_len tip calc
    (λ _, true) head_hash (λ _, false) false clock 5 (sample_job false) sample_config sample_pool
    None _ _ _ _ _ _).
  - apply limit_ok.
  - apply attributes_ok_sample.
  - exact length_of_nonneg.
  - intros []. reflexivity.
  - vm_compute. reflexivity.
Defined.

(** The endless pool is cut off at the fourth iteration, when the clock says 1200. *)
Lemma build_returns_witness :
  is_Some (@build_payload_inner _ _ _ _ _ _ _ _ (Recovered ExecSamples.envelope) builder_ops endless_pool
    Standard.ops ExecSamples.eth_view (λ _, []) sample_len tip calc new_builder (λ _, true)
    head_hash (λ _, false) false clock 4 (sample_job false) sample_parent sample_config
    (λ _, ExecSamples.morph_tx) None).
Proof.
  simple refine (@build_returns _ _ _ _ _ _ _ _ Standard.ops builder_ops ExecSamples.eth_view
    (λ _, []) sample_parent new_builder _ endless_pool sample_len tip calc (λ _, true) head_hash
    (λ _, false) false clock 4 (sample_job false) sample_config (λ _, ExecSamples.morph_tx) None
    3 _ _).
  - vm_compute. discriminate.
  - lia.
Defined.
