(* ===== verification/EngineApi.v ===== *)
(** * The L2 engine API

    Models [crates/engine-api/src/builder.rs] (the endpoints the sequencer and the
    derivation call: assembling, validating and importing blocks, moving the block
    tags) and [error.rs].  reth's provider, engine tree and payload service are one
    world [W] under the class [EngineOps]: every call may change it, so what other
    tasks do while a call is awaited is part of the call.  An endpoint is a stateful
    computation over the world and the tracker of the finalized tag. *)

From S2P Require Import Prelude Hardfork Rlp MorphTx Envelope Consensus EngineValidator TxEnv.
From S2P Require Import Journal FeeHandler Receipts BlockExecutor PayloadTypes PayloadBuilder.
From S2P Require Import BuildSafety.

Import MorphTxEnvelope.

(** ** Data *)

Inductive InvalidTransactionMessage :=
| DecodeError (e : rlp_error)
| TrailingBytes.

(** The values that the messages format are left out. *)
Inductive MorphEngineApiError :=
| DiscontinuousBlockNumber (expected actual : Z)
| WrongParentHash (expected actual : B256)
| InvalidTransaction (index : Z) (message : InvalidTransactionMessage)
| BlockBuildError (s : string)
| ValidationFailed (s : string)
| ExecutionFailed (s : string)
| Database (s : string)
| Internal (s : string).

(** The code of [into_rpc_error]. *)
Definition rpc_error_code (e : MorphEngineApiError) : Z :=
  match e with
  | DiscontinuousBlockNumber _ _ | WrongParentHash _ _ => -32001
  | InvalidTransaction _ _ => -32002
  | BlockBuildError _ => -32003
  | ValidationFailed _ => -32004
  | ExecutionFailed _ => -32005
  | Database _ => -32010
  | Internal _ => -32099
  end.

Inductive PayloadStatusEnum :=
| Valid
| Accepted
| Syncing
| Invalid (validation_error : string).

Record ForkchoiceState := {
  head_block_hash : B256;
  safe_block_hash : B256;
  finalized_block_hash : B256;
}.

Record MorphExecutionData (ETH AL SA SG : Type) := {
  d_block : SealedBlock ETH AL SA SG;
  expected_withdraw_trie_root : option B256;
}.
Arguments d_block {ETH AL SA SG}.
Arguments expected_withdraw_trie_root {ETH AL SA SG}.

Record CanonicalHead := { ch_number : Z; ch_hash : B256; ch_timestamp : Z }.

Inductive TxPoolPolicy := Include | Exclude.

Definition no_tx_pool (p : TxPoolPolicy) : bool :=
  match p with Include => false | Exclude => true end.

Record AssembleL2BlockV2Params := {
  av_parent_hash : B256;
  av_transactions : list bytes;
  av_timestamp : option Z;
}.

(** ** reth: provider, engine tree and payload service *)

Class EngineOps (W ETH AL SA SG X : Type) := {
  latest_header : W → result (option SealedHeader) string;
  sealed_header_by_hash : B256 → W → result (option SealedHeader) string;
  set_safe : SealedHeader → W → W;
  set_finalized : SealedHeader → W → W;
  on_forkchoice_update_received : ForkchoiceState → W → W;
  new_payload : MorphExecutionData ETH AL SA SG → sm W string PayloadStatusEnum;
  fork_choice_updated : ForkchoiceState → sm W string PayloadStatusEnum;
  (** [None] when the service is gone *)
  send_new_payload : MorphPayloadAttributes → B256 → W → W * option (result unit string);
  resolve_kind : bytes → W →
    W * option (result (MorphBuiltPayload (SealedBlock ETH AL SA SG) X) string);
}.

(** [RealMorphL2EngineApi]: the world, and the [BlockTagTracker]. *)
Record Api (W : Type) := { world : W; finalized_hash : option B256 }.
Arguments world {W}.
Arguments finalized_hash {W}.

Section EngineApi.
Context {W ETH AL SA SG X T : Type} `{EngineOps W ETH AL SA SG X}.
Abbreviation envelope := (MorphTxEnvelope ETH AL SA SG).
Abbreviation api := (Api W).
Abbreviation call := (sm api MorphEngineApiError).
(** alloy: hashes, the transaction root and the decoder of the envelope. *)
Context (sha256 : bytes → bytes) (keccak256 : bytes → B256).
Context (encode_withdrawals : list bytes → bytes).
Context (hash_slow : Consensus.Header → B256) (EMPTY_OMMER_ROOT_HASH : B256).
Context (calculate_transaction_root : list envelope → B256).
Context (decode_2718 : bytes → result (envelope * bytes) rlp_error).
Context (chain_spec : MorphChainSpec T).

(** Reads of the world, and calls that may change it. *)
Definition read_world {A} (f : W → result A MorphEngineApiError) : call A := λ s, (s, f (world s)).
Definition on_world {A} (c : sm W MorphEngineApiError A) : call A := λ s,
  let '(w, r) := c (world s) in ({| world := w; finalized_hash := finalized_hash s |}, r).

(** *** The tag tracker *)

Definition record_finalized_hash (h : option B256) (s : api) : api :=
  match h with
  | Some h => {| world := world s; finalized_hash := Some h |}
  | None => s
  end.

(** *** Lookups *)

Definition current_head : call CanonicalHead := read_world (λ w,
  let? o := map_err Database (latest_header w) in
  let? h := ok_or o (Internal "canonical head header not found"%string) in
  Ok {| ch_number := number (Consensus.inner (Consensus.header h)); ch_hash := hash h;
        ch_timestamp := timestamp (Consensus.inner (Consensus.header h)) |}).

Definition resolve_block_tag (h : B256) : call SealedHeader := read_world (λ w,
  let? o := map_err Internal (sealed_header_by_hash h w) in
  ok_or o (Internal "block not found"%string)).

(** The lookup of a pinned parent, in [build_l2_payload] and in the V2 endpoints. *)
Definition parent_by_hash (h : B256) : call SealedHeader := read_world (λ w,
  let? o := map_err Database (sealed_header_by_hash h w) in
  ok_or o (Internal "parent block not found"%string)).

(** *** Executable data to block *)

(** [u64::try_from] under an option. *)
Definition try_u64 (fee : option Z) (e : MorphEngineApiError)
  : result (option Z) MorphEngineApiError :=
  match fee with
  | Some f => if f <=? u64_max then Ok (Some f) else Err e
  | None => Ok None
  end.

(** [Bloom::from_slice], of 256 bytes. *)
Definition bloom_from_slice (b : bytes) : Z := Standard.of_le (rev b).

Fixpoint decode_transactions (index : Z) (l : list bytes)
  : result (list envelope) MorphEngineApiError :=
  match l with
  | [] => Ok []
  | tx_bytes :: l =>
      let? '(tx, buf) :=
        map_err (λ e, InvalidTransaction index (DecodeError e)) (decode_2718 tx_bytes) in
      reject InvalidTransaction index TrailingBytes when negb (len buf =? 0) in
      let? txs := decode_transactions (index + 1) l in
      Ok (tx :: txs)
  end.

Definition header_and_body_from_executable_data (data : ExecutableL2Data)
  : result (MorphHeader * BlockBody ETH AL SA SG) MorphEngineApiError :=
  let? base_fee_per_gas := try_u64 (x_base_fee_per_gas data)
    (ValidationFailed "base_fee_per_gas exceeds u64"%string) in
  reject ValidationFailed "logs_bloom must be 256 bytes"%string
    when negb (len (x_logs_bloom data) =? 256) in
  let? txs := decode_transactions 0 (x_transactions data) in
  let logs_bloom := bloom_from_slice (x_logs_bloom data) in
  let beneficiary := if is_fee_vault_enabled chain_spec then 0 else x_miner data in
  Ok ({| Consensus.next_l1_msg_index := x_next_l1_message_index data;
         Consensus.inner := {|
           Consensus.parent_hash := x_parent_hash data;
           Consensus.ommers_hash := EMPTY_OMMER_ROOT_HASH;
           Consensus.beneficiary := beneficiary;
           Consensus.state_root := x_state_root data;
           Consensus.transactions_root := calculate_transaction_root txs;
           Consensus.receipts_root := x_receipts_root data;
           Consensus.logs_bloom := logs_bloom;
           Consensus.difficulty := 0;
           Consensus.number := x_number data;
           Consensus.gas_limit := x_gas_limit data;
           Consensus.gas_used := x_gas_used data;
           Consensus.timestamp := x_timestamp data;
           Consensus.mix_hash := 0;
           Consensus.nonce := Some 0;
           Consensus.base_fee_per_gas := base_fee_per_gas;
           Consensus.extra_data := [] |} |},
      {| transactions := txs; ommers := []; withdrawals := None |}).

Definition execution_payload_from_executable_data (data : ExecutableL2Data)
  : result (MorphExecutionData ETH AL SA SG * MorphHeader) MorphEngineApiError :=
  let? '(h, b) := header_and_body_from_executable_data data in
  let computed_hash := hash_slow (Consensus.inner h) in
  reject ValidationFailed "block hash mismatch"%string when negb (computed_hash =? x_hash data) in
  let sealed_block :=
    {| block_header := {| Consensus.header := h; Consensus.hash := computed_hash |}; body := b |} in
  Ok ({| d_block := sealed_block;
         expected_withdraw_trie_root := Some (x_withdraw_trie_root data) |}, h).

(** *** Import *)

Definition payload_status_is_validated (s : PayloadStatusEnum) : bool :=
  match s with Valid => true | _ => false end.

Definition ensure_payload_status_valid (s : PayloadStatusEnum)
  : result unit MorphEngineApiError :=
  match s with
  | Valid => Ok tt
  | Accepted => Err (ExecutionFailed "returned ACCEPTED before payload was validated"%string)
  | Syncing => Err (ExecutionFailed "returned SYNCING for payload"%string)
  | Invalid validation_error => Err (ValidationFailed validation_error)
  end.

Definition import_l2_block_via_engine (data : ExecutableL2Data) (safe : B256)
  : call MorphHeader :=
  '(payload, h) ← sm_lift (execution_payload_from_executable_data data);
  payload_status ← on_world (sm_map_err ExecutionFailed (new_payload payload));
  _ ← sm_lift (ensure_payload_status_valid payload_status);
  l1_finalized_hash ← sm_get finalized_hash;
  let forkchoice := {| head_block_hash := x_hash data; safe_block_hash := safe;
    finalized_block_hash := default 0 l1_finalized_hash |} in
  _ ← on_world (sm_modify (on_forkchoice_update_received forkchoice));
  fcu_status ← on_world (sm_map_err ExecutionFailed (fork_choice_updated forkchoice));
  _ ← sm_lift (ensure_payload_status_valid fcu_status);
  mret h.

(** *** Building *)

(** The attributes of a job; [now] is the clock. *)
Definition build_request (now parent_timestamp : Z) (params : AssembleL2BlockParams)
    (gas_limit_override base_fee_override : option Z) (policy : TxPoolPolicy)
  : MorphPayloadAttributes := {|
  ma_inner := {|
    pa_timestamp := match ap_timestamp params with
      | Some t => t
      | None => Z.max (wrapping_add u64_max parent_timestamp 1) now
      end;
    pa_prev_randao := 0; pa_suggested_fee_recipient := 0; pa_withdrawals := Some [];
    pa_parent_beacon_block_root := None |};
  ma_transactions := Some (ap_transactions params); ma_no_tx_pool := no_tx_pool policy;
  ma_gas_limit := gas_limit_override; ma_base_fee_per_gas := base_fee_override |}.

Definition build_l2_payload (now : Z) (params : AssembleL2BlockParams)
    (gas_limit_override base_fee_override : option Z) (parent_override : option B256)
    (policy : TxPoolPolicy) : call (MorphBuiltPayload (SealedBlock ETH AL SA SG) X) :=
  '(parent_number, parent_hash, parent_timestamp) ←
    match parent_override with
    | Some parent_hash =>
        parent ← parent_by_hash parent_hash;
        let h := Consensus.inner (Consensus.header parent) in
        mret (number h, parent_hash, timestamp h)
    | None =>
        head ← current_head;
        mret (ch_number head, ch_hash head, ch_timestamp head)
    end;
  let expected := wrapping_add u64_max parent_number 1 in
  if negb (ap_number params =? expected) then
    sm_fail (DiscontinuousBlockNumber expected (ap_number params))
  else
    base_fee_override ← sm_lift (try_u64 base_fee_override
      (BlockBuildError "base fee override exceeds u64"%string));
    let rpc_attributes := build_request now parent_timestamp params gas_limit_override
      base_fee_override policy in
    let payload_id := morph_payload_id sha256 keccak256 encode_withdrawals rpc_attributes
      parent_hash in
    _ ← on_world (λ w,
      let '(w, r) := send_new_payload rpc_attributes parent_hash w in
      (w, match r with
          | None => Err (BlockBuildError "failed to send build request"%string)
          | Some r => map_err BlockBuildError r
          end));
    on_world (λ w,
      let '(w, r) := resolve_kind payload_id w in
      (w, match r with
          | None => Err (Internal "no payload response"%string)
          | Some r => map_err BlockBuildError r
          end)).

(** *** The endpoints *)

Definition assemble_l2_block (now : Z) (params : AssembleL2BlockParams) : call ExecutableL2Data :=
  built ← build_l2_payload now params None None None Include;
  mret (p_executable_data built).

Definition assemble_l2_block_v2 (now : Z) (params : AssembleL2BlockV2Params)
  : call ExecutableL2Data :=
  parent ← parent_by_hash (av_parent_hash params);
  let assemble_params := {|
    ap_number := wrapping_add u64_max (number (Consensus.inner (Consensus.header parent))) 1;
    ap_transactions := av_transactions params; ap_timestamp := av_timestamp params |} in
  built ← build_l2_payload now assemble_params None None (Some (av_parent_hash params)) Include;
  mret (p_executable_data built).

(** The answer is [GenericResponse { success }]. *)
Definition validate_l2_block (data : ExecutableL2Data) : call bool :=
  head ← current_head;
  let expected := wrapping_add u64_max (ch_number head) 1 in
  if negb (x_number data =? expected) then
    sm_fail (DiscontinuousBlockNumber expected (x_number data))
  else if negb (x_parent_hash data =? ch_hash head) then
    sm_fail (WrongParentHash (ch_hash head) (x_parent_hash data))
  else
    match execution_payload_from_executable_data data with
    | Err _ => mret false
    | Ok (payload, _) =>
        on_world (λ w,
          let '(w, r) := new_payload payload w in
          (w, match r with
              | Err _ => Ok false
              | Ok status => Ok (payload_status_is_validated status)
              end))
    end.

Definition new_l2_block (data : ExecutableL2Data) : call unit :=
  head ← current_head;
  let expected := wrapping_add u64_max (ch_number head) 1 in
  if negb (x_number data =? expected) then
    if x_number data <? expected then mret tt
    else sm_fail (DiscontinuousBlockNumber expected (x_number data))
  else if negb (x_parent_hash data =? ch_hash head) then
    sm_fail (WrongParentHash (ch_hash head) (x_parent_hash data))
  else
    _ ← import_l2_block_via_engine data 0;
    mret tt.

Definition new_l2_block_v2 (data : ExecutableL2Data) : call MorphHeader :=
  parent ← parent_by_hash (x_parent_hash data);
  let expected := wrapping_add u64_max (number (Consensus.inner (Consensus.header parent))) 1 in
  if negb (x_number data =? expected) then
    sm_fail (DiscontinuousBlockNumber expected (x_number data))
  else import_l2_block_via_engine data 0.

Definition new_safe_l2_block (now : Z) (data : SafeL2Data) : call MorphHeader :=
  let assemble_params := {| ap_number := s_number data; ap_transactions := s_transactions data;
    ap_timestamp := Some (s_timestamp data) |} in
  built ← build_l2_payload now assemble_params (Some (s_gas_limit data))
    (s_base_fee_per_gas data) (s_parent_hash data) Exclude;
  let executable_data := p_executable_data built in
  import_l2_block_via_engine executable_data (x_hash executable_data).

(** *** Tags *)

Definition over (a b : option Z) : bool :=
  match a, b with Some a, Some b => b <? a | _, _ => false end.

Definition validate_resolved_block_tags (safe_number finalized_number : option Z)
    (canonical_head_number : Z) : result unit MorphEngineApiError :=
  reject ValidationFailed "safe block number exceeds canonical head number"%string
    when over safe_number (Some canonical_head_number) in
  reject ValidationFailed "finalized block number exceeds canonical head number"%string
    when over finalized_number (Some canonical_head_number) in
  reject ValidationFailed "finalized block number exceeds safe block number"%string
    when over finalized_number safe_number in
  Ok tt.

Definition resolve_nonzero (h : B256) : call (option SealedHeader) :=
  if negb (h =? 0) then sealed ← resolve_block_tag h; mret (Some sealed) else mret None.

Definition set_tag (set : SealedHeader → W → W) (o : option SealedHeader) : call unit :=
  match o with Some sealed => on_world (sm_modify (set sealed)) | None => mret tt end.

(** What follows the resolution and the checks of the two tags. *)
Definition write_tags (safe finalized : option SealedHeader) (finalized_block_hash : B256)
  : call unit :=
  _ ← set_tag set_safe safe;
  _ ← set_tag set_finalized finalized;
  sm_modify (record_finalized_hash
    (if negb (finalized_block_hash =? 0) then Some finalized_block_hash else None)).

Definition set_block_tags (safe_block_hash finalized_block_hash : B256) : call unit :=
  safe ← resolve_nonzero safe_block_hash;
  finalized ← resolve_nonzero finalized_block_hash;
  if bool_decide (safe = None) && bool_decide (finalized = None) then mret tt
  else
    canonical_head ← current_head;
    let number_of h := number (Consensus.inner (Consensus.header h)) in
    _ ← sm_lift (validate_resolved_block_tags (number_of <$> safe) (number_of <$> finalized)
      (ch_number canonical_head));
    write_tags safe finalized finalized_block_hash.
End EngineApi.

(** ** From executable data back to the block *)

Section FromData.
Context {W ETH AL SA SG X T : Type} `{EngineOps W ETH AL SA SG X}.
Abbreviation envelope := (MorphTxEnvelope ETH AL SA SG).
Context (hash_slow : Consensus.Header → B256) (EMPTY_OMMER_ROOT_HASH : B256).
Context (calculate_transaction_root : list envelope → B256).
Context (decode_2718 : bytes → result (envelope * bytes) rlp_error).
Context (chain_spec : MorphChainSpec T).
Abbreviation to_payload := (execution_payload_from_executable_data hash_slow
  EMPTY_OMMER_ROOT_HASH calculate_transaction_root decode_2718 chain_spec).
Abbreviation decodes := (λ data t, decode_2718 data = Ok (t, [])).

Lemma decode_transactions_Ok index l txs : Forall2 decodes l txs →
  decode_transactions decode_2718 index l = Ok txs.
Proof using.
  intros Hl. revert index. induction Hl as [|d t l txs Hd Hl IH]; intros index; [done|].
  cbn [decode_transactions]. rewrite Hd. cbn. by rewrite IH.
Qed.

Lemma decode_transactions_inv index l txs :
  decode_transactions decode_2718 index l = Ok txs → Forall2 decodes l txs.
Proof using.
  revert index txs. induction l as [|d l IH]; intros index txs; cbn [decode_transactions].
  { intros [= <-]. by constructor. }
  rewrite bind_Ok. intros ([t buf] & Hd & Ht). apply map_err_Ok in Hd.
  apply reject_Ok in Ht as [Hlen Ht]. apply bind_Ok in Ht as (ts & Hts & [= <-]).
  constructor; [|by eapply IH]. apply negb_false_iff, Z.eqb_eq in Hlen.
  destruct buf; [done|]. rewrite len_cons in Hlen. pose proof (len_nonneg buf). lia.
Qed.

(** The fields of a header are in their widths. *)
Definition header_widths (h : Consensus.Header) : Prop :=
  0 ≤ Consensus.logs_bloom h < BLOOM_BOUND
  ∧ ∀ f, Consensus.base_fee_per_gas h = Some f → f ≤ u64_max.

Lemma bloom_round_trip b : 0 ≤ b < BLOOM_BOUND → bloom_from_slice (be_word 256 b) = b.
Proof using.
  intros Hb. unfold bloom_from_slice, be_word. rewrite rev_involutive.
  apply Standard.of_le_fixed_le. exact Hb.
Qed.

Lemma len_be_word n z : len (be_word n z) = Z.of_nat n.
Proof using. unfold len. by rewrite length_be_word. Qed.

(** A block of the L2 shape survives the trip through its executable data. *)
Lemma executable_data_imports blk executed withdraw_root :
  let h := Consensus.inner (Consensus.header (block_header blk)) in
  l2_shape EMPTY_OMMER_ROOT_HASH calculate_transaction_root hash_slow blk →
  Forall2 decodes executed (transactions (body blk)) → header_widths h →
  to_payload (executable_data_of blk executed (Consensus.gas_used h) withdraw_root
    (next_l1_msg_index (Consensus.header (block_header blk))))
  = Ok ({| d_block := blk; expected_withdraw_trie_root := Some withdraw_root |},
        Consensus.header (block_header blk)).
Proof using.
  destruct blk as [[[next [ph oh ben sr tr rr lb dif nb gl gu ts mix non bf ex]] hh] [txs om wd]].
  cbv zeta. intros [Hh (Hoh & Hben & Htr & Hdif & Hmix & Hnon & Hex) [Hom Hwd]] Hd [Hb Hf].
  cbn in Hh, Hoh, Hben, Htr, Hdif, Hmix, Hnon, Hex, Hom, Hwd, Hd, Hb, Hf.
  unfold execution_payload_from_executable_data, header_and_body_from_executable_data,
    executable_data_of. cbn -[be_word Z.of_nat len bloom_from_slice].
  rewrite (decode_transactions_Ok _ _ _ Hd), len_be_word, bloom_round_trip by exact Hb.
  assert (try_u64 bf (ValidationFailed "base_fee_per_gas exceeds u64"%string) = Ok bf) as ->.
  { destruct bf as [f|]; [|done]. specialize (Hf f eq_refl). cbn.
    by destruct (Z.leb_spec f u64_max); [|lia]. }
  subst. change (Z.of_nat 256 =? 256) with true. cbn.
  by destruct (is_fee_vault_enabled chain_spec); cbn; rewrite Z.eqb_refl.
Qed.

(** A payload is what the data says, and its hash is the announced one. *)
Lemma to_payload_inv data payload h : to_payload data = Ok (payload, h) →
  hash (block_header (d_block payload)) = x_hash data ∧ hash_slow (Consensus.inner h) = x_hash data
  ∧ (∃ txs, Forall2 decodes (x_transactions data) txs
      ∧ Consensus.transactions_root (Consensus.inner h) = calculate_transaction_root txs)
  ∧ Consensus.parent_hash (Consensus.inner h) = x_parent_hash data
  ∧ Consensus.timestamp (Consensus.inner h) = x_timestamp data
  ∧ Consensus.gas_limit (Consensus.inner h) = x_gas_limit data.
Proof using.
  unfold execution_payload_from_executable_data. rewrite bind_Ok.
  intros ([h' b] & Hh & Hp). apply reject_Ok in Hp as [Heq [= <- <-]].
  apply negb_false_iff, Z.eqb_eq in Heq. split; [done|]. split; [done|].
  unfold header_and_body_from_executable_data in Hh. apply bind_Ok in Hh as (bf & _ & Hh).
  apply reject_Ok in Hh as [_ Hh]. apply bind_Ok in Hh as (txs & Htx & [= <- <-]).
  split; [|done]. exists txs. split; [by eapply decode_transactions_inv|done].
Qed.
End FromData.

(** ** The fork choice only names validated blocks *)

Section Endpoints.
Context {W ETH AL SA SG X T : Type} `{EngineOps W ETH AL SA SG X}.
Abbreviation envelope := (MorphTxEnvelope ETH AL SA SG).
Context (sha256 : bytes → bytes) (keccak256 : bytes → B256).
Context (encode_withdrawals : list bytes → bytes).
Context (hash_slow : Consensus.Header → B256) (EMPTY_OMMER_ROOT_HASH : B256).
Context (calculate_transaction_root : list envelope → B256).
Context (decode_2718 : bytes → result (envelope * bytes) rlp_error).
Context (chain_spec : MorphChainSpec T).
Abbreviation import := (import_l2_block_via_engine hash_slow EMPTY_OMMER_ROOT_HASH
  calculate_transaction_root decode_2718 chain_spec).

(** A request to the API, and the state it leaves. *)
Inductive api_request :=
| AssembleL2Block (now : Z) (params : AssembleL2BlockParams)
| AssembleL2BlockV2 (now : Z) (params : AssembleL2BlockV2Params)
| ValidateL2Block (data : ExecutableL2Data)
| NewL2Block (data : ExecutableL2Data)
| NewL2BlockV2 (data : ExecutableL2Data)
| NewSafeL2Block (now : Z) (data : SafeL2Data)
| SetBlockTags (safe finalized : B256).

Abbreviation with_env f := (f hash_slow EMPTY_OMMER_ROOT_HASH calculate_transaction_root
  decode_2718 chain_spec).

Definition serve (q : api_request) (s : Api W) : Api W :=
  match q with
  | AssembleL2Block now p => (assemble_l2_block sha256 keccak256 encode_withdrawals now p s).1
  | AssembleL2BlockV2 now p =>
      (assemble_l2_block_v2 sha256 keccak256 encode_withdrawals now p s).1
  | ValidateL2Block d => (with_env validate_l2_block d s).1
  | NewL2Block d => (with_env new_l2_block d s).1
  | NewL2BlockV2 d => (with_env new_l2_block_v2 d s).1
  | NewSafeL2Block now d =>
      (with_env (new_safe_l2_block sha256 keccak256 encode_withdrawals) now d s).1
  | SetBlockTags safe finalized => (set_block_tags safe finalized s).1
  end.

(** The engine's canonical head, and the blocks it has validated. *)
Context (canonical : W → B256) (validated : W → B256 → Prop).

(** Validated blocks stay so, and a validated head is only replaced by another. *)
Definition respects (w w' : W) : Prop :=
  (validated w (canonical w) → validated w' (canonical w'))
  ∧ ∀ h, validated w h → validated w' h.

(** The engine API contract of reth: [VALID] means validated, and the head moves
    to the head of a fork choice or not at all. *)
Record engine_laws : Prop := {
  el_payload p w w' r : new_payload p w = (w', r) →
    respects w w' ∧ (r = Ok Valid → validated w' (hash (block_header (d_block p))));
  el_forkchoice fc w w' r : fork_choice_updated fc w = (w', r) →
    (∀ h, validated w h → validated w' h)
    ∧ (canonical w' = head_block_hash fc ∨ respects w w');
  el_received fc w : respects w (on_forkchoice_update_received fc w);
  el_safe h w : respects w (set_safe h w);
  el_finalized h w : respects w (set_finalized h w);
  el_send a h w : respects w (send_new_payload a h w).1;
  el_resolve id w : respects w (resolve_kind id w).1;
}.

Context (Hlaws : engine_laws).

#[local] Instance respects_preorder : PreOrder respects.
Proof using.
  split; [by intros w; split|].
  intros w1 w2 w3 [Ha Hb] [Hc Hd]. split; auto.
Qed.

(** A computation that respects the head whatever it returns. *)
Definition respectful {A} (c : sm (Api W) MorphEngineApiError A) : Prop :=
  ∀ s, respects (world s) (world (c s).1).

Lemma respectful_bind {A B} (c : sm (Api W) MorphEngineApiError A)
    (k : A → sm (Api W) MorphEngineApiError B) :
  respectful c → (∀ a, respectful (k a)) → respectful (c ≫= k).
Proof using.
  intros Hc Hk s. specialize (Hc s). unfold mbind, sm_bind.
  destruct (c s) as [s1 [a|e]]; [|done]. etrans; [exact Hc|apply Hk].
Qed.

Lemma respectful_world {A} (c : sm W MorphEngineApiError A) :
  (∀ w, respects w (c w).1) → respectful (on_world c).
Proof using.
  intros Hc s. specialize (Hc (world s)). unfold on_world.
  by destruct (c (world s)) as [w r].
Qed.

Lemma respectful_here {A} (c : sm (Api W) MorphEngineApiError A) :
  (∀ s, (c s).1 = s) → respectful c.
Proof using. intros Hc s. by rewrite Hc. Qed.

Lemma respectful_send a h g :
  respectful (on_world (λ w, let '(w, r) := send_new_payload a h w in (w, g r : result unit _))).
Proof using Hlaws.
  apply respectful_world. intros w. pose proof (el_send Hlaws a h w).
  by destruct (send_new_payload a h w).
Qed.

Lemma respectful_resolve {A} id (g : _ → result A _) :
  respectful (on_world (λ w, let '(w, r) := resolve_kind id w in (w, g r))).
Proof using Hlaws.
  apply respectful_world. intros w. pose proof (el_resolve Hlaws id w).
  by destruct (resolve_kind id w).
Qed.

Lemma respectful_new_payload {A} p (g : _ → result A _) :
  respectful (on_world (λ w, let '(w, r) := new_payload p w in (w, g r))).
Proof using Hlaws.
  apply respectful_world. intros w. destruct (new_payload p w) as [w' r] eqn:Hp.
  by apply (el_payload Hlaws) in Hp as [Hp _].
Qed.

(** Importing moves the head to a block that [newPayload] has validated. *)
Lemma respectful_import data safe : respectful (import data safe).
Proof using Hlaws.
  intros s. unfold import_l2_block_via_engine, mbind, sm_bind, sm_lift, sm_get, on_world,
    sm_map_err, sm_modify.
  destruct (execution_payload_from_executable_data _ _ _ _ _ data) as [[payload h]|] eqn:Hx;
    [|done].
  apply to_payload_inv in Hx as [Hhash _].
  destruct (new_payload payload (world s)) as [w1 r1] eqn:Hn.
  apply (el_payload Hlaws) in Hn as [Hr1 Hv1].
  destruct r1 as [st1|]; [|exact Hr1]. cbn.
  destruct st1; [|exact Hr1..]. specialize (Hv1 eq_refl). rewrite Hhash in Hv1. cbn.
  set (fc := {| head_block_hash := x_hash data |}).
  pose proof (el_received Hlaws fc w1) as Hr2.
  assert (respects (world s) (fork_choice_updated fc (on_forkchoice_update_received fc w1)).1)
    as Hfc.
  { destruct (fork_choice_updated fc _) as [w3 r3] eqn:Hf.
    apply (el_forkchoice Hlaws) in Hf as [Hmono [Hhead|Hr]].
    - destruct Hr1 as [_ Hm1], Hr2 as [_ Hm2]. split; [|by auto].
      intros _. cbn. rewrite Hhead. by apply Hmono, Hm2.
    - etrans; [exact Hr1|]. by etrans. }
  destruct (fork_choice_updated fc _) as [w3 [st3|]]; [|exact Hfc]. by destruct st3.
Qed.

Create HintDb engine.
#[local] Hint Resolve respectful_bind respectful_send respectful_resolve respectful_new_payload
  respectful_import : engine.
#[local] Hint Extern 5 (respectful _) => (apply respectful_here; intros; reflexivity) : engine.
#[local] Hint Extern 2 (respectful (if _ then _ else _)) => case_match : engine.
#[local] Hint Extern 2 (respectful (match _ with _ => _ end)) => case_match : engine.

Lemma respectful_build now p g f o pol :
  respectful (build_l2_payload sha256 keccak256 encode_withdrawals now p g f o pol).
Proof using Hlaws.
  unfold build_l2_payload. apply respectful_bind.
  - destruct o; eauto with engine.
  - intros [[n h] t]. eauto 8 with engine.
Qed.
#[local] Hint Resolve respectful_build : engine.

Lemma respectful_write_tags safe finalized fh : respectful (write_tags safe finalized fh).
Proof using Hlaws.
  unfold write_tags, set_tag. apply respectful_bind; [|intros _; apply respectful_bind].
  - destruct safe; [|by auto with engine]. apply respectful_world. intros. apply (el_safe Hlaws).
  - destruct finalized; [|by auto with engine]. apply respectful_world. intros.
    apply (el_finalized Hlaws).
  - intros _ s. unfold sm_modify, record_finalized_hash. cbn. by case_match.
Qed.
#[local] Hint Resolve respectful_write_tags : engine.

Lemma respectful_resolve_nonzero h : respectful (resolve_nonzero h).
Proof using. unfold resolve_nonzero. eauto with engine. Qed.
#[local] Hint Resolve respectful_resolve_nonzero : engine.

Lemma serve_respects q s : respects (world s) (world (serve q s)).
Proof using Hlaws.
  destruct q; cbn [serve]; [| | | | | |];
    match goal with |- respects _ (world (fst (?c s))) => revert s; change (respectful c) end.
  - unfold assemble_l2_block. eauto with engine.
  - unfold assemble_l2_block_v2. eauto with engine.
  - unfold validate_l2_block. eauto 8 with engine.
  - unfold new_l2_block. eauto 8 with engine.
  - unfold new_l2_block_v2. eauto with engine.
  - unfold new_safe_l2_block. eauto with engine.
  - unfold set_block_tags. eauto 8 with engine.
Qed.

(** *** The tracker of the finalized tag *)

Definition keeps_tag {A} (c : sm (Api W) MorphEngineApiError A) : Prop :=
  ∀ s, finalized_hash (c s).1 = finalized_hash s.

Lemma keeps_tag_bind {A B} (c : sm (Api W) MorphEngineApiError A)
    (k : A → sm (Api W) MorphEngineApiError B) :
  keeps_tag c → (∀ a, keeps_tag (k a)) → keeps_tag (c ≫= k).
Proof using.
  intros Hc Hk s. specialize (Hc s). unfold mbind, sm_bind.
  destruct (c s) as [s1 [a|e]]; [|done]. by rewrite Hk.
Qed.

Lemma keeps_tag_world {A} (c : sm W MorphEngineApiError A) : keeps_tag (on_world c).
Proof using. intros s. unfold on_world. by destruct (c (world s)). Qed.

#[local] Hint Resolve keeps_tag_bind keeps_tag_world : engine.
#[local] Hint Extern 5 (keeps_tag _) => (intros ?; reflexivity) : engine.
#[local] Hint Extern 2 (keeps_tag (if _ then _ else _)) => case_match : engine.
#[local] Hint Extern 2 (keeps_tag (match _ with _ => _ end)) => case_match : engine.

Lemma keeps_tag_import data safe : keeps_tag (import data safe).
Proof using. unfold import_l2_block_via_engine. eauto 12 with engine. Qed.

Lemma keeps_tag_build now p g f o pol :
  keeps_tag (build_l2_payload sha256 keccak256 encode_withdrawals now p g f o pol).
Proof using.
  unfold build_l2_payload. apply keeps_tag_bind.
  - destruct o; eauto with engine.
  - intros [[n h] t]. eauto 8 with engine.
Qed.

Lemma keeps_tag_resolve h : keeps_tag (resolve_nonzero h).
Proof using. unfold resolve_nonzero. eauto with engine. Qed.

Lemma keeps_tag_set set o : keeps_tag (set_tag set o).
Proof using. unfold set_tag. eauto with engine. Qed.
#[local] Hint Resolve keeps_tag_import keeps_tag_build keeps_tag_resolve keeps_tag_set : engine.

Ltac endpoint_keeps :=
  match goal with
  | s : Api _ |- finalized_hash (fst (?c ?s')) = _ => revert s; change (keeps_tag c)
  end.

(** Only [set_block_tags] writes the tracker, and only a hash it was given. *)
Lemma serve_tag q s :
  finalized_hash (serve q s) = finalized_hash s
  ∨ ∃ safe finalized, q = SetBlockTags safe finalized ∧ finalized ≠ 0
      ∧ finalized_hash (serve q s) = Some finalized.
Proof using.
  destruct q as [now p|now p|d|d|d|now d|safe fin]; cbn [serve].
  1-6: left; endpoint_keeps.
  - unfold assemble_l2_block. eauto with engine.
  - unfold assemble_l2_block_v2. eauto with engine.
  - unfold validate_l2_block. eauto 8 with engine.
  - unfold new_l2_block. eauto 8 with engine.
  - unfold new_l2_block_v2. eauto with engine.
  - unfold new_safe_l2_block. eauto with engine.
  - assert (∀ so fo s1, finalized_hash (write_tags so fo fin s1).1 = finalized_hash s1
      ∨ fin ≠ 0 ∧ finalized_hash (write_tags so fo fin s1).1 = Some fin) as Hw.
    { intros so fo s1. unfold write_tags. unfold mbind, sm_bind.
      pose proof (keeps_tag_set set_safe so s1) as H1.
      destruct (set_tag set_safe so s1) as [s2 [[]|]]; [|by left].
      pose proof (keeps_tag_set set_finalized fo s2) as H2.
      destruct (set_tag set_finalized fo s2) as [s3 [[]|]]; cbn [fst] in H1, H2 |- *;
        [|left; congruence].
      unfold sm_modify, record_finalized_hash. cbn.
      destruct (Z.eqb_spec fin 0); cbn; [left; congruence|by right]. }
    unfold set_block_tags, mbind, sm_bind.
    pose proof (keeps_tag_resolve safe s) as H1.
    destruct (resolve_nonzero safe s) as [s1 [so|]]; [|by left].
    pose proof (keeps_tag_resolve fin s1) as H2.
    destruct (resolve_nonzero fin s1) as [s2 [fo|]]; cbn [fst] in H1, H2; [|left; cbn; congruence].
    destruct (_ && _); [left; cbn; congruence|].
    unfold current_head, read_world, sm_lift.
    destruct (result_bind _ _); [|left; cbn; congruence].
    destruct (validate_resolved_block_tags _ _ _); [|left; cbn; congruence].
    destruct (Hw so fo s2) as [->|[? ->]]; [left; congruence|right; eauto].
Qed.

(** C4. The node's head is always a validated block: whatever requests arrive, in
    any order, and whatever their outcomes, a head that the engine has validated
    is only ever replaced by a block that [newPayload] reported valid; and the
    finalized hash that fork choices carry is unset until, and then is, one that a
    caller of [set_block_tags] supplied. *)
Theorem head_always_validated (qs : list api_request) (s : Api W) :
  validated (world s) (canonical (world s)) →
  let s' := foldl (λ s q, serve q s) s qs in
  validated (world s') (canonical (world s'))
  ∧ (finalized_hash s' = finalized_hash s
     ∨ ∃ safe finalized, SetBlockTags safe finalized ∈ qs ∧ finalized ≠ 0
         ∧ finalized_hash s' = Some finalized).
Proof using Hlaws.
  cbv zeta. revert s. induction qs as [|q qs IH]; intros s Hv; [by auto|]. cbn [foldl].
  destruct (IH (serve q s)) as [Hv' Htag].
  { destruct (serve_respects q s) as [Hr _]. by apply Hr. }
  split; [done|]. destruct Htag as [->|(safe & fin & Hin & Hfin)].
  - destruct (serve_tag q s) as [->|(safe & fin & -> & Hn & ->)]; [by left|].
    right. exists safe, fin. split_and!; try done. left.
  - right. exists safe, fin. split; [by right|done].
Qed.
End Endpoints.

(** ** Block tags *)

Section Tags.
Context {W ETH AL SA SG X : Type} `{EngineOps W ETH AL SA SG X}.
(** The numbers of the blocks under the two tags. *)
Context (tag_safe tag_finalized : W → option Z).
Abbreviation number_of h := (number (Consensus.inner (Consensus.header h))).

(** What [CanonChainTracker] documents: each setter writes its own tag. *)
Record tag_laws : Prop := {
  tl_safe h w : tag_safe (set_safe h w) = Some (number_of h)
    ∧ tag_finalized (set_safe h w) = tag_finalized w;
  tl_finalized h w : tag_finalized (set_finalized h w) = Some (number_of h)
    ∧ tag_safe (set_finalized h w) = tag_safe w;
}.

(** The finalized block is not above the safe one. *)
Definition tags_ordered (w : W) : Prop := over (tag_finalized w) (tag_safe w) = false.

Definition set_if (set : SealedHeader → W → W) (o : option SealedHeader) (w : W) : W :=
  match o with Some h => set h w | None => w end.

Lemma resolve_nonzero_run h s :
  (∃ o, resolve_nonzero h s = (s, Ok o)
    ∧ if h =? 0 then o = None else ∃ hd, o = Some hd ∧ sealed_header_by_hash h (world s) = Ok o)
  ∨ ∃ e, resolve_nonzero h s = (s, Err e).
Proof using.
  unfold resolve_nonzero. destruct (h =? 0); [left; by exists None|]. cbn [negb].
  unfold resolve_block_tag, read_world, mbind, sm_bind.
  destruct (sealed_header_by_hash h (world s)) as [[hd|]|e]; cbn;
    [left; eauto|right; eauto..].
Qed.

(** A successful or failed run of [set_block_tags], step by step. *)
Lemma set_block_tags_run safe fin s s' r : set_block_tags safe fin s = (s', r) →
  match r with
  | Err _ => s' = s
  | Ok _ => ∃ so fo,
      (if safe =? 0 then so = None
       else ∃ h, so = Some h ∧ sealed_header_by_hash safe (world s) = Ok so)
      ∧ (if fin =? 0 then fo = None
         else ∃ h, fo = Some h ∧ sealed_header_by_hash fin (world s) = Ok fo)
      ∧ world s' = set_if set_finalized fo (set_if set_safe so (world s))
      ∧ finalized_hash s' = (if fin =? 0 then finalized_hash s else Some fin)
      ∧ over ((λ h, number_of h) <$> fo) ((λ h, number_of h) <$> so) = false
      ∧ ∀ t, so = Some t ∨ fo = Some t →
          ∃ head, latest_header (world s) = Ok (Some head) ∧ number_of t ≤ number_of head
  end.
Proof using.
  unfold set_block_tags, mbind, sm_bind.
  destruct (resolve_nonzero_run safe s) as [(so & -> & Hso)|[e ->]]; [|by intros [= <- <-]].
  destruct (resolve_nonzero_run fin s) as [(fo & -> & Hfo)|[e ->]]; [|by intros [= <- <-]].
  destruct so as [sh|] eqn:Eso, fo as [fh|] eqn:Efo;
    rewrite ?(bool_decide_eq_false_2 (Some _ = None)), ?(bool_decide_eq_true_2 (None = None)) by done;
    cbn [andb].
  4: { intros [= <- <-]. exists None, None. destruct (fin =? 0);
       [|by destruct Hfo as (? & [=] & _)]. split_and!; try done. by intros t [[=]|[=]]. }
  all: unfold current_head, read_world, sm_lift;
    destruct (latest_header (world s)) as [[head|]|]; cbn [map_err result_bind ok_or];
    [|by intros [= <- <-]..]; cbn [ch_number];
    destruct (validate_resolved_block_tags _ _ _) eqn:Hv; [|by intros [= <- <-]];
    unfold validate_resolved_block_tags in Hv; cbn [fmap option_fmap option_map over] in Hv;
    repeat apply reject_Ok in Hv as [? Hv];
    intros [= <- <-]; eexists _, _; split; [exact Hso|]; split; [exact Hfo|];
    cbn; destruct (fin =? 0); try (by destruct Hfo as (? & [=] & _)); try done;
    (split; [done|]); (split; [done|]); (split; [done|]); bool_simp;
    intros t [[= <-]|[= <-]]; by exists head.
Qed.

(** The header a hash resolves to; the zero hash asks for nothing. *)
Definition resolves (w : W) (h : B256) (o : option SealedHeader) : Prop :=
  if h =? 0 then o = None else ∃ hd, o = Some hd ∧ sealed_header_by_hash h w = Ok o.

(** Writing the safe tag keeps the order exactly when the new safe block is not below
    the finalized one, and dually. *)
Lemma set_safe_ordered h w : tag_laws →
  tags_ordered (set_safe h w) ↔ over (tag_finalized w) (Some (number_of h)) = false.
Proof using. intros Hl. unfold tags_ordered. by destruct (tl_safe Hl h w) as [-> ->]. Qed.

Lemma set_finalized_ordered g w : tag_laws →
  tags_ordered (set_finalized g w) ↔ over (Some (number_of g)) (tag_safe w) = false.
Proof using. intros Hl. unfold tags_ordered. by destruct (tl_finalized Hl g w) as [-> ->]. Qed.

(** C37. Updating the block tags is all or nothing, and exact about their order.  A
    failed call changes neither a tag nor the tracker.  A successful one has resolved
    every hash it was given to a known block that is not above the head, writes the
    safe tag and then the finalized one, and records the finalized hash.  If it
    supplies both tags, the finalized block is not above the safe one afterwards,
    whatever the tags were before.  If it supplies one, nothing compares it with the
    other: the order holds afterwards exactly when the new tag does not cross the old
    one, and [lone_safe_tag_breaks_order] is a call that loses it.  A reader between
    the two writes sees the order exactly when the new safe block is not below the old
    finalized one. *)
Theorem block_tags_ordered safe fin s s' r :
  tag_laws → set_block_tags safe fin s = (s', r) →
  match r with
  | Err _ => s' = s
  | Ok _ => ∃ so fo, let between := set_if set_safe so (world s) in
      resolves (world s) safe so ∧ resolves (world s) fin fo
      ∧ world s' = set_if set_finalized fo between
      ∧ finalized_hash s' = (if fin =? 0 then finalized_hash s else Some fin)
      ∧ (∀ t, so = Some t ∨ fo = Some t →
           ∃ head, latest_header (world s) = Ok (Some head) ∧ number_of t ≤ number_of head)
      ∧ match so, fo with
        | Some _, Some _ => tags_ordered (world s')
        | Some h, None => tags_ordered (world s')
            ↔ over (tag_finalized (world s)) (Some (number_of h)) = false
        | None, Some g => tags_ordered (world s')
            ↔ over (Some (number_of g)) (tag_safe (world s)) = false
        | None, None => world s' = world s
        end
      ∧ match so with
        | Some h => tags_ordered between
            ↔ over (tag_finalized (world s)) (Some (number_of h)) = false
        | None => between = world s
        end
  end.
Proof using.
  intros Hl Hrun. pose proof (set_block_tags_run _ _ _ _ _ Hrun) as Hr.
  destruct r as [[]|]; [|done]. destruct Hr as (so & fo & Hso & Hfo & Hw & Hfin & Hlt & Hhead).
  exists so, fo. cbv zeta. do 5 (split; [done|]). rewrite Hw.
  split; [|destruct so; [by apply set_safe_ordered|done]].
  destruct so as [h|], fo as [g|]; cbn.
  - rewrite set_finalized_ordered by done. by destruct (tl_safe Hl h (world s)) as [-> _].
  - by apply set_safe_ordered.
  - by apply set_finalized_ordered.
  - done.
Qed.
End Tags.

(** ** Builder and importer agree *)

Section Composition.
Context {J Er Code Log St CP : Type} `{JournalOps J Er Code Log St CP}.
Context {B ETH AL SA RA SG EvmErr SR Tr : Type}.
Context `{AlloyRlp AL SA SG} `{!AlloyReceipt Log} `{!BlockBuilderOps B ETH AL SA SG Log SR Tr}.
Context {T E F : Type} `{ForkConditionOps F} `{ChainHardforksOps T E F}.
Context {P : Type} `{!PayloadTransactions P (MorphTxEnvelope ETH AL SA SG)}.
Context {W : Type} `{!EngineOps W ETH AL SA SG (BlockExecutionResult Log * Tr)}.
Abbreviation envelope := (MorphTxEnvelope ETH AL SA SG).
Context (keccak256 : bytes → Z) (eth_view : ETH → TxView AL SA) (eth_encode_2718 : ETH → bytes).
Context (empty_access_list : AL) (recover_authorization : SA → RA).
Context (transact : MorphTxEnv AL SA RA →
  sm (MorphEvm J Er Log) EvmErr (ExecutionResult Log * St)).
Context (err_evm : EvmErr → BlockExecutionError) (commit : St → J → J).
Context (db_basic : Address → sm J string unit) (err_string : Er → string).
Context (chain_id : Z) (is_london_active_at_block : Z → bool) (EMPTY_OMMER_ROOT_HASH : B256).
Context (calculate_transaction_root : list envelope → B256).
Context (logs_bloom : list Log → Z) (ordered_trie_root : list bytes → Z).
Context (chain_spec : MorphChainSpec T).
Context (builder_for_next_block : SealedHeader → NextBlockEnvAttributes → result B string).
Context (bb_executor : B → MorphBlockExecutor J Er Log) (bb_ctx : B → BlockExecutionCtx).
Context (bb_txs : B → list (Recovered envelope)).
Context (eth_encode_2718_len : ETH → Z) (effective_tip_per_gas : envelope → Z → option Z).
Context (calculate_block_gas_limit : Z → Z → Z).
Context (hash_slow : Consensus.Header → B256).
Context (sha256 : bytes → bytes) (encode_withdrawals : list bytes → bytes).
Context (decode_2718 : bytes → result (envelope * bytes) rlp_error).
Context (recover_signature : envelope → option Address).
Context (state_by_block_hash : B256 → result unit string).

Definition laws_at (parent : SealedHeader) : Prop :=
  block_builder_laws keccak256 eth_view eth_encode_2718 empty_access_list recover_authorization
    transact err_evm commit db_basic err_string chain_id is_london_active_at_block
    EMPTY_OMMER_ROOT_HASH calculate_transaction_root logs_bloom ordered_trie_root chain_spec parent
    (builder_for_next_block parent) bb_executor bb_ctx bb_txs.

Abbreviation to_payload := (execution_payload_from_executable_data hash_slow
  EMPTY_OMMER_ROOT_HASH calculate_transaction_root decode_2718 chain_spec).

(** C3. A node imports exactly what the sequencer built: for every payload of the
    builder, the executable data that the sequencer sends out reconstructs the
    header, the body and the hash of the block it was made from, with the withdraw
    root it read as the expectation, whether the fee vault is enabled or not. *)
Theorem built_payload_imports parent is_better cancelled cancelled_after elapsed fuel a c best
    handle p :
  laws_at parent → gas_within_limit transact → attributes_ok eth_encode_2718 parent a →
  0 ≤ header_gas_limit parent calculate_block_gas_limit c a ≤ u64_max →
  (∀ t, 0 ≤ encode_2718_len eth_encode_2718_len t) →
  build_payload_inner eth_view eth_encode_2718 eth_encode_2718_len effective_tip_per_gas
    calculate_block_gas_limit (builder_for_next_block parent) is_better hash_slow cancelled
    cancelled_after elapsed fuel a parent c best handle = Some (Ok (Better p)) →
  Forall (λ t, decode_2718 (rlp eth_encode_2718 t) = Ok (t, []))
    (transactions (body (p_block p))) →
  header_widths (Consensus.inner (Consensus.header (block_header (p_block p)))) →
  to_payload (p_executable_data p)
  = Ok ({| d_block := p_block p;
           expected_withdraw_trie_root := Some (x_withdraw_trie_root (p_executable_data p)) |},
        Consensus.header (block_header (p_block p))).
Proof using.
  intros Hlaws Hgas Ha Hlim Hlen Hb Hdec Hw.
  eapply build_better in Hb as (b & i & ex & _ & [Hbytes _ _] & Hm & _);
    [|first [exact Hlaws|done]..].
  apply made_from_shape in Hm as (Hshape & [wr Hx] & Htx & _). rewrite Hx.
  apply executable_data_imports; [done| |done].
  rewrite Htx in *. rewrite Hbytes, <-(map_map rec_tx).
  by apply Forall2_fmap_l, Forall_Forall2_diag.
Qed.

(** reth's payload service: what it resolves for a job is what the builder built
    for that job. *)
Definition payload_service : Prop := ∀ request parent_hash w w1 w2 p,
  send_new_payload request parent_hash w = (w1, Some (Ok tt)) →
  resolve_kind (morph_payload_id sha256 keccak256 encode_withdrawals request parent_hash) w1
    = (w2, Some (Ok p)) →
  ∃ parent is_better cancelled cancelled_after elapsed fuel c (best : Z → P) handle,
    hash parent = parent_hash ∧ laws_at parent
    ∧ build_payload eth_view eth_encode_2718 eth_encode_2718_len effective_tip_per_gas
        calculate_block_gas_limit (builder_for_next_block parent) is_better hash_slow sha256
        keccak256 encode_withdrawals decode_2718 recover_signature state_by_block_hash cancelled
        cancelled_after elapsed fuel request parent c best handle = Some (Ok (Better p)).

Abbreviation new_safe := (new_safe_l2_block sha256 keccak256 encode_withdrawals hash_slow
  EMPTY_OMMER_ROOT_HASH calculate_transaction_root decode_2718 chain_spec).

(** What a successful import did. *)
Lemma import_run data safe (s s' : Api W) h :
  import_l2_block_via_engine hash_slow EMPTY_OMMER_ROOT_HASH calculate_transaction_root
    decode_2718 chain_spec data safe s = (s', Ok h) →
  ∃ payload w1 w2, to_payload data = Ok (payload, h)
    ∧ new_payload payload (world s) = (w1, Ok Valid)
    ∧ let fc := {| head_block_hash := x_hash data; safe_block_hash := safe;
                   finalized_block_hash := default 0 (finalized_hash s) |} in
      fork_choice_updated fc w2 = (world s', Ok Valid).
Proof using.
  unfold import_l2_block_via_engine. intros Hrun.
  apply sm_bind_Ok in Hrun as (s1 & [payload h1] & [= <- Hp] & Hrun).
  apply sm_bind_Ok in Hrun as (s2 & st & Hn & Hrun).
  unfold on_world, sm_map_err in Hn.
  destruct (new_payload payload (world s)) as [w1 [st1|]] eqn:Hnp; [|done].
  injection Hn as <- <-.
  apply sm_bind_Ok in Hrun as (s3 & [] & [= <- Hst] & Hrun). destruct st1; try done.
  apply sm_bind_Ok in Hrun as (s4 & fin & [= <- <-] & Hrun). cbv zeta in Hrun.
  apply sm_bind_Ok in Hrun as (s5 & [] & [= <-] & Hrun).
  apply sm_bind_Ok in Hrun as (s6 & st & Hf & Hrun). cbn [world finalized_hash] in Hf.
  unfold on_world, sm_map_err in Hf. cbn [world finalized_hash] in Hf.
  destruct (fork_choice_updated _ _) as [w3 [st3|]] eqn:Hfc; [|done]. injection Hf as <- <-.
  apply sm_bind_Ok in Hrun as (s7 & [] & [= <- Hst3] & [= <- <-]). destruct st3; try done.
  cbn [world]. eauto 10.
Qed.

(** What a successful build requested and got. *)
Lemma build_run now params g f o pol (s s' : Api W) p :
  build_l2_payload sha256 keccak256 encode_withdrawals now params g f o pol s = (s', Ok p) →
  ∃ parent_hash parent_time base_fee w1,
    (∀ h, o = Some h → parent_hash = h) ∧ finalized_hash s' = finalized_hash s
    ∧ let request := build_request now parent_time params g base_fee pol in
      send_new_payload request parent_hash (world s) = (w1, Some (Ok tt))
      ∧ resolve_kind (morph_payload_id sha256 keccak256 encode_withdrawals request parent_hash) w1
        = (world s', Some (Ok p)).
Proof using.
  unfold build_l2_payload. intros Hrun.
  apply sm_bind_Ok in Hrun as (s1 & [[n ph] t] & Hpar & Hrun).
  assert (s1 = s ∧ ∀ h, o = Some h → ph = h) as [-> Hph].
  { destruct o as [h|].
    - apply sm_bind_Ok in Hpar as (s2 & hd & [= <- _] & [= <- _ <- _]).
      split; [done|]. by intros h' [= ->].
    - by apply sm_bind_Ok in Hpar as (s2 & hd & [= <- _] & [= <- _ _ _]). }
  cbv zeta in Hrun. destruct (negb _); [done|].
  apply sm_bind_Ok in Hrun as (s2 & fee & [= <- _] & Hrun).
  apply sm_bind_Ok in Hrun as (s3 & [] & Hsend & Hres). unfold on_world in Hsend, Hres.
  destruct (send_new_payload _ _ _) as [w1 [[[]|]|]] eqn:Hs; try done. injection Hsend as <-.
  cbn [world finalized_hash] in Hres.
  destruct (resolve_kind _ _) as [w2 [[p'|]|]] eqn:Hr; try done. injection Hres as <- <-.
  exists ph, t, fee, w1. split_and!; done.
Qed.

(** C25. Derivation reproduces the committed block: when importing a block from L1
    data succeeds, the header it answers commits to exactly the transactions that
    the data's bytes decode to, with the data's timestamp and gas limit, on the
    pinned parent; and the engine has accepted a fork choice that makes this block
    head and safe and carries the tracked finalized hash. *)
Theorem safe_import_reproduces_data now data (s s' : Api W) h :
  payload_service → new_safe now data s = (s', Ok h) →
  (∃ txs, Forall2 (λ d t, decode_2718 d = Ok (t, [])) (s_transactions data) txs
     ∧ Consensus.transactions_root (Consensus.inner h) = calculate_transaction_root txs)
  ∧ Consensus.timestamp (Consensus.inner h) = s_timestamp data
  ∧ Consensus.gas_limit (Consensus.inner h) = s_gas_limit data
  ∧ (∀ ph, s_parent_hash data = Some ph → Consensus.parent_hash (Consensus.inner h) = ph)
  ∧ ∃ w, fork_choice_updated {| head_block_hash := hash_slow (Consensus.inner h);
            safe_block_hash := hash_slow (Consensus.inner h);
            finalized_block_hash := default 0 (finalized_hash s) |} w = (world s', Ok Valid).
Proof using.
  intros Hserv Hrun. unfold new_safe_l2_block in Hrun. cbv zeta in Hrun.
  apply sm_bind_Ok in Hrun as (s1 & p & Hbuild & Himp).
  apply build_run in Hbuild as (ph & pt & fee & w1 & Hph & Hfin & Hsend & Hres).
  destruct (Hserv _ _ _ _ _ _ Hsend Hres)
    as (parent & better & canc & after & el & fuel & c & best & handle & Hpar & Hlaws & Hb).
  match type of Hsend with send_new_payload ?q _ _ = _ => set (request := q) in * end.
  destruct (deterministic_request _ _ _ _ _ _ _ _ _ _ _ _ _ _ _ _ _ _ _ _ _ _ Hlaws
    eth_encode_2718_len effective_tip_per_gas calculate_block_gas_limit better hash_slow sha256
    encode_withdrawals decode_2718 recover_signature state_by_block_hash canc after el fuel
    request c best handle eq_refl) as (r & Hr & _ & Hp).
  rewrite Hb in Hr. injection Hr as <-.
  destruct (Hp p eq_refl) as (a & i & b & Hm & Ht & Hg & Hd).
  apply made_from_shape in Hm as (_ & [wr Hx] & Htx & Hph' & Ht' & Hg').
  apply import_run in Himp as (payload & w2 & w3 & Hpay & _ & Hfc).
  rewrite Hx in Hpay, Hfc.
  apply to_payload_inv in Hpay as (_ & Hhash & Htxs & Hp1 & Hp2 & Hp3).
  cbn in Htxs, Hp1, Hp2, Hp3, Hhash, Hfc. split; [exact Htxs|].
  rewrite Hp1, Hp2, Hp3, Ht', Hg', Ht, Hph', Hpar, Hhash. split; [done|].
  split; [unfold header_gas_limit, next_header_gas_limit; by rewrite Hg|].
  split; [by intros q Hq%Hph|]. rewrite Hfin in Hfc. by exists w3.
Qed.
End Composition.

(** ** An executable engine, and witnesses *)

Module EngineSamples.
Import ExecSamples BuildSamples.

Abbreviation built_payload := (MorphBuiltPayload
  (SealedBlock unit (list bytes) bytes Standard.Signature) (BlockExecutionResult Z * unit)).

(** Known headers, validated hashes, the head, the two tags, the pending payload. *)
Record sample_world := {
  w_headers : list SealedHeader;
  w_valid : list B256;
  w_head : SealedHeader;
  w_safe : option Z;
  w_finalized : option Z;
  w_pending : option built_payload;
}.

Definition find_header (h : B256) (w : sample_world) : option SealedHeader :=
  List.find (λ x, hash x =? h) (w_headers w).
Definition number_of (h : SealedHeader) : Z := number (Consensus.inner (Consensus.header h)).

(** The engine validates every payload, and follows fork choices to known blocks. *)
#[export] Instance engine_ops :
  EngineOps sample_world unit (list bytes) bytes Standard.Signature (BlockExecutionResult Z * unit) := {|
  latest_header w := Ok (Some (w_head w));
  sealed_header_by_hash h w := Ok (find_header h w);
  set_safe h w := {| w_headers := w_headers w; w_valid := w_valid w; w_head := w_head w;
    w_safe := Some (number_of h); w_finalized := w_finalized w; w_pending := w_pending w |};
  set_finalized h w := {| w_headers := w_headers w; w_valid := w_valid w; w_head := w_head w;
    w_safe := w_safe w; w_finalized := Some (number_of h); w_pending := w_pending w |};
  on_forkchoice_update_received _ w := w;
  new_payload p w :=
    let h := block_header (d_block p) in
    ({| w_headers := h :: w_headers w; w_valid := hash h :: w_valid w; w_head := w_head w;
        w_safe := w_safe w; w_finalized := w_finalized w; w_pending := w_pending w |}, Ok Valid);
  fork_choice_updated fc w :=
    match find_header (head_block_hash fc) w with
    | Some h => ({| w_headers := w_headers w; w_valid := w_valid w; w_head := h;
        w_safe := w_safe w; w_finalized := w_finalized w; w_pending := w_pending w |}, Ok Valid)
    | None => (w, Ok Syncing)
    end;
  send_new_payload request parent_hash w :=
    if parent_hash =? 9 then
      ({| w_headers := w_headers w; w_valid := w_valid w; w_head := w_head w;
          w_safe := w_safe w; w_finalized := w_finalized w;
          w_pending := match request_sample request with
                       | Some (Ok (Better p)) => Some p
                       | _ => None
                       end |}, Some (Ok tt))
    else (w, None);
  resolve_kind _ w := (w, Ok <$> w_pending w);
|}.

Definition start : Api sample_world := {|
  world := {| w_headers := [sample_parent; Consensus.Samples.sample_header 5 1775620000 5 30000000];
    w_valid := [9; 5]; w_head := sample_parent; w_safe := Some 5; w_finalized := Some 5;
    w_pending := None |};
  finalized_hash := None |}.

Definition canonical (w : sample_world) : B256 := hash (w_head w).
Definition validated (w : sample_world) (h : B256) : Prop := h ∈ w_valid w.

Lemma find_header_hash h w hd : find_header h w = Some hd → hash hd = h.
Proof. intros Hf. apply find_some in Hf as [_ Hf]. by apply Z.eqb_eq in Hf. Qed.

Lemma sample_engine_laws : engine_laws canonical validated.
Proof.
  assert (∀ w w' : sample_world, w_head w' = w_head w → w_valid w' = w_valid w →
    respects canonical validated w w') as Hsame.
  { intros w w' Hh Hv. unfold respects, canonical, validated. by rewrite Hh, Hv. }
  split.
  - intros p w w' r [= <- <-]. unfold respects, canonical, validated. cbn.
    split; [split; [by right|by right]|]. intros _. left.
  - intros fc w w' r. cbn. destruct (find_header _ w) as [h|] eqn:Hf; intros [= <- <-].
    + split; [done|]. left. by apply find_header_hash in Hf.
    + split; [done|]. right. by apply Hsame.
  - intros fc w. by apply Hsame.
  - intros h w. by apply Hsame.
  - intros h w. by apply Hsame.
  - intros a h w. cbn. destruct (h =? 9); by apply Hsame.
  - intros id w. by apply Hsame.
Qed.

Lemma sample_tag_laws : tag_laws w_safe w_finalized.
Proof. by split. Qed.

Definition derived : SafeL2Data := {|
  s_number := 10; s_gas_limit := 30000000; s_base_fee_per_gas := None;
  s_timestamp := 1775628000;
  s_transactions := map encoded_bytes (at_transactions (sample_job true));
  s_parent_hash := None |}.

Definition laws_of_sample := laws_at keccak eth_view (λ _, []) [] id transact err_evm commit
  load_oracle err_string 2818 (λ _, true) 77 (λ _, 88) sample_bloom sample_root Concrete.mainnet
  (λ _, new_builder) sb_executor sb_ctx sb_txs.

Lemma sample_service :
  payload_service (P := list (Recovered envelope)) keccak eth_view (λ _, []) [] id transact
    err_evm commit load_oracle err_string 2818 (λ _, true) 77 (λ _, 88) sample_bloom sample_root
    Concrete.mainnet (λ _, new_builder) sb_executor sb_ctx sb_txs sample_len tip calc head_hash id
    (@concat Z) decode_sample (λ _, Some 9) (λ _, Ok tt).
Proof.
  intros request ph w w1 w2 p Hs Hr. cbn in Hs, Hr. destruct (Z.eqb_spec ph 9) as [->|]; [|done].
  injection Hs as <-. cbn in Hr. injection Hr as _ Hp.
  destruct (request_sample request) as [[[q|f|]|]|] eqn:Hq; try done. injection Hp as <-.
  exists sample_parent, (λ _, true), (λ _, false), false, clock, 0%nat, sample_config, sample_pool,
    None. split; [done|]. split; [exact builder_laws|exact Hq].
Qed.
End EngineSamples.

Import BuildSamples EngineSamples.
#[local] Existing Instance Standard.ops.

(** A decoder that also knows the sample MorphTx. *)
Definition decode_known (data : bytes) : result (ExecSamples.envelope * bytes) rlp_error :=
  let t := rec_tx ExecSamples.morph_tx in
  if bool_decide (data = rlp (λ _, []) t) then Ok (t, []) else decode_sample data.

Lemma built_payload_imports_witness :
  is_ok (execution_payload_from_executable_data head_hash 77 (λ _, 88) decode_known Concrete.mainnet
    (p_executable_data (built false))) = true.
Proof.
  simple refine (let H := @built_payload_imports _ _ _ _ _ _ MapJournal.ops _ _ _ _ _ _ _ _ _
    Standard.ops ReceiptSamples.sample_receipt builder_ops _ _ _ Concrete.fc_ops Concrete.table_ops
    _ list_pool ExecSamples.keccak ExecSamples.eth_view (λ _, []) [] id
    ExecSamples.transact ExecSamples.err_evm ExecSamples.commit load_oracle ExecSamples.err_string
    2818 (λ _, true) 77 (λ _, 88) sample_bloom sample_root Concrete.mainnet (λ _, new_builder)
    sb_executor sb_ctx sb_txs sample_len tip calc head_hash decode_known sample_parent (λ _, true)
    (λ _, false) false clock 5 (sample_job false) sample_config sample_pool None (built false)
    _ _ _ _ _ _ _ _ in _).
  - exact builder_laws.
  - exact ExecSamples.transact_gas.
  - apply attributes_ok_sample.
  - apply limit_ok.
  - exact length_of_nonneg.
  - vm_compute. reflexivity.
  - assert (transactions (body (p_block (built false)))
      = [Consensus.Samples.l1 5; Consensus.Samples.l1 6; rec_tx ExecSamples.morph_tx;
         rec_tx ExecSamples.morph_tx]) as -> by (vm_compute; reflexivity).
    repeat (apply List.Forall_cons; [vm_compute; reflexivity|]). apply List.Forall_nil.
  - assert (Consensus.base_fee_per_gas (Consensus.inner (Consensus.header
      (block_header (p_block (built false))))) = Some MORPH_BASE_FEE) as Hfee
      by (vm_compute; reflexivity).
    split; [split; [vm_compute; discriminate|vm_compute; reflexivity]|].
    intros f Hf. rewrite Hfee in Hf. injection Hf as <-. vm_compute. discriminate.
  - rewrite H. reflexivity.
Defined.

(** A derived block, tags on it, and a block that does not extend the head. *)
Definition sample_requests : list api_request := [
  NewSafeL2Block 1775629000 derived; SetBlockTags 1010 9;
  NewL2Block (p_executable_data (built false))].

Definition serve_sample :=
  serve id ExecSamples.keccak (@concat Z) head_hash 77 (λ _, 88) decode_sample Concrete.mainnet.

Lemma head_always_validated_witness :
  let s' := foldl (λ s q, serve_sample q s) start sample_requests in
  validated (world s') (canonical (world s')) ∧ canonical (world s') = 1010
  ∧ finalized_hash s' = Some 9.
Proof.
  intros s'. split; [|split; vm_compute; reflexivity].
  simple refine (proj1 (@head_always_validated _ _ _ _ _ _ _ engine_ops id ExecSamples.keccak
    (@concat Z) head_hash 77 (λ _, 88) decode_sample Concrete.mainnet canonical validated
    sample_engine_laws sample_requests start _)).
  left.
Defined.

Lemma block_tags_ordered_witness :
  let s' := (set_block_tags 9 5 start).1 in
  tags_ordered w_safe w_finalized (world s') ∧ w_safe (world s') = Some 9
  ∧ w_finalized (world s') = Some 5.
Proof.
  intros s'. split; [|split; reflexivity].
  simple refine (let H := @block_tags_ordered _ _ _ _ _ _ engine_ops w_safe w_finalized 9 5 start
    s' (Ok tt) _ _ in _).
  - exact sample_tag_laws.
  - reflexivity.
  - destruct H as (so & fo & (h & -> & _) & (g & -> & _) & _ & _ & _ & H & _). exact H.
Defined.

(** A lone tag can lose the order: a call that supplies only a safe hash below the
    finalized block succeeds. *)
Lemma lone_safe_tag_breaks_order :
  ∃ s : Api sample_world, tags_ordered w_safe w_finalized (world s)
    ∧ (set_block_tags 5 0 s).2 = Ok tt
    ∧ ¬ tags_ordered w_safe w_finalized (world (set_block_tags 5 0 s).1).
Proof. exists (set_block_tags 9 9 start).1. split; [done|]. split; [done|]. by vm_compute. Qed.

Lemma safe_import_reproduces_data_witness :
  let h := Consensus.header (w_head (world (new_safe_l2_block id ExecSamples.keccak (@concat Z)
    head_hash 77 (λ _, 88) decode_sample Concrete.mainnet 1775629000 derived start).1)) in
  Consensus.number (Consensus.inner h) = 10
  ∧ Consensus.timestamp (Consensus.inner h) = s_timestamp derived
  ∧ Consensus.gas_limit (Consensus.inner h) = s_gas_limit derived.
Proof.
  intros h. split; [vm_compute; reflexivity|].
  simple refine (let H := @safe_import_reproduces_data _ _ _ _ _ _ MapJournal.ops _ _ _ _ _ _ _ _
    _ Standard.ops ReceiptSamples.sample_receipt builder_ops _ _ _ Concrete.fc_ops
    Concrete.table_ops _ list_pool _ engine_ops ExecSamples.keccak ExecSamples.eth_view (λ _, []) []
    id ExecSamples.transact ExecSamples.err_evm ExecSamples.commit load_oracle
    ExecSamples.err_string 2818 (λ _, true) 77 (λ _, 88) sample_bloom sample_root Concrete.mainnet
    (λ _, new_builder) sb_executor sb_ctx sb_txs sample_len tip calc head_hash id (@concat Z)
    decode_sample (λ _, Some 9) (λ _, Ok tt) 1775629000 derived start _ h _ _
    in conj (proj1 (proj2 H)) (proj1 (proj2 (proj2 H)))).
  - exact (new_safe_l2_block id ExecSamples.keccak (@concat Z) head_hash 77 (λ _, 88) decode_sample
      Concrete.mainnet 1775629000 derived start).1.
  - exact sample_service.
  - vm_compute. reflexivity.
Defined.
