(* ===== verification/Versioned.v ===== *)
(** * Versioned tables of the proofs store

    Models [crates/proofs/src/db/cursor.rs] (the cursor that reads a table as of a
    block), the composite keys of [db/models] and the table-level writers of
    [db/store.rs]: appending a block's versions, deleting versions, pruning old ones,
    and wiping a storage.  libmdbx's dup-sorted tables are the class [DupDb]; what
    its documentation says of each operation is [DupDbLaws], in terms of the sorted
    keys of a table and the versions of each key, and Module [ListDb] is an
    executable instance.  A loop takes fuel and is [None] when it runs out. *)

From S2P Require Import Prelude.
From stdpp Require Import sorting.
#[local] Open Scope Z_scope.

(** ** Keys *)

Class KeyOrd (K : Type) := {
  #[global] key_eq_dec :: EqDecision K;
  key_lt : relation K;
  #[global] key_lt_dec :: RelDecision key_lt;
  (** [Default::default()], the least key in range *)
  key_default : K;
  key_ok : K → Prop;
}.

Class KeyOrdLaws (K : Type) `{KeyOrd K} := {
  #[global] key_lt_strict :: StrictOrder key_lt;
  key_lt_total k1 k2 : key_lt k1 k2 ∨ k1 = k2 ∨ key_lt k2 k1;
  key_default_least k : key_ok k → ¬ key_lt k key_default;
}.

(** Hashes are non-negative numbers. *)
#[global] Instance Z_key : KeyOrd Z := {|
  key_lt := Z.lt; key_default := 0; key_ok z := 0 ≤ z |}.
#[global] Instance Z_key_laws : KeyOrdLaws Z.
Proof. split; [apply _|cbn; lia|cbn; lia]. Qed.

(** [StorageTrieKey] and [HashedStorageKey]: ordered by address, then by the rest. *)
#[global] Program Instance pair_key {K1 K2} `{KeyOrd K1, KeyOrd K2} : KeyOrd (K1 * K2) := {|
  key_lt p q := key_lt p.1 q.1 ∨ p.1 = q.1 ∧ key_lt p.2 q.2;
  key_default := (key_default, key_default); key_ok p := key_ok p.1 ∧ key_ok p.2 |}.
Next Obligation. intros. intros p q. apply _. Defined.
#[global] Instance pair_key_laws {K1 K2} `{KeyOrdLaws K1, KeyOrdLaws K2} : KeyOrdLaws (K1 * K2).
Proof.
  split.
  - split.
    + intros [a b] [Hl|[_ Hl]]; by apply (irreflexivity key_lt _ Hl).
    + intros [a1 b1] [a2 b2] [a3 b3] [H12|[E12 H12]] [H23|[E23 H23]]; cbn in *;
        subst; [..|right; split; [done|]].
      * left. by etrans.
      * by left.
      * by left.
      * by etrans.
  - intros [a1 b1] [a2 b2]. cbn.
    destruct (key_lt_total a1 a2) as [?|[->|?]]; [by auto| |by auto].
    destruct (key_lt_total b1 b2) as [?|[->|?]]; auto.
  - intros [a b] [Ha Hb] [Hl|[_ Hl]];
      [by apply (key_default_least a)|by apply (key_default_least b)].
Qed.

(** [StoredNibbles]: a path, in lexicographic order. *)
Fixpoint path_lt (p q : list Z) : Prop :=
  match p, q with
  | [], [] => False
  | [], _ :: _ => True
  | _ :: _, [] => False
  | a :: p, b :: q => a < b ∨ a = b ∧ path_lt p q
  end.

#[global] Instance path_lt_dec : RelDecision path_lt.
Proof. intros p. induction p; intros [|b q]; cbn; apply _. Defined.
#[global] Instance path_key : KeyOrd (list Z) := {|
  key_lt := path_lt; key_default := []; key_ok _ := True |}.
#[global] Instance path_key_laws : KeyOrdLaws (list Z).
Proof.
  split.
  - split.
    + intros p. induction p as [|a p IH]; [by intros []|]. intros [?|[_ ?]]; [lia|by apply IH].
    + intros p. induction p as [|a p IH]; intros [|b q] [|c r]; cbn; try done.
      intros [?|[-> ?]] [?|[-> ?]]; [left; lia..|]. right. split; [done|]. by eapply IH.
  - intros p. induction p as [|a p IH]; intros [|b q]; cbn; auto.
    destruct (Z.lt_total a b) as [?|[->|?]]; auto.
    destruct (IH q) as [?|[->|?]]; auto.
  - intros [|a p] _; [by intros []|by intros []].
Qed.

(** ** Versions *)

(** [VersionedValue]; [None] is a tombstone ([MaybeDeleted]). *)
Record VersionedValue (V : Type) := { block_number : Z; vvalue : option V }.
Arguments block_number {V}.
Arguments vvalue {V}.

(** A table's rows, sorted by key and then by block. *)
Section Rows.
Context {K V : Type} `{KeyOrd K}.
Implicit Types (rs : list (K * VersionedValue V)) (k : K) (b : Z).

Definition row_key (r : K * VersionedValue V) : K * Z := (r.1, block_number r.2).
Definition sorted_rows rs : Prop := StronglySorted key_lt (map row_key rs).

(** The rows of a key, and the first or last row that satisfies a test. *)
Definition of_key k (p : Z → bool) (r : K * VersionedValue V) : bool :=
  bool_decide (r.1 = k) && p (block_number r.2).
Definition first_row (p : K * VersionedValue V → bool) rs := head (List.filter p rs).
Definition last_row (p : K * VersionedValue V → bool) rs := last (List.filter p rs).

(** The version of a key as of a block, and its value. *)
Definition version_at rs b k : option (VersionedValue V) :=
  snd <$> last_row (of_key k (λ n, n <=? b)) rs.
Definition view rs b k : option V := version_at rs b k ≫= vvalue.

(** The distinct keys, in order. *)
Fixpoint distinct (l : list K) : list K :=
  match l with
  | k1 :: (k2 :: _) as l' => if bool_decide (k1 = k2) then distinct l' else k1 :: distinct l'
  | l => l
  end.
Definition keys_of rs : list K := distinct (map fst rs).

(** The entries a reader of block [b] sees, in order. *)
Definition live_entries rs b : list (K * V) := omap (λ k, (k,.) <$> view rs b k) (keys_of rs).
End Rows.

(** ** libmdbx *)

(** Tables [Tb K V] and cursors [C K V]; an operation returns the moved cursor. *)
Class DupDb (Tb C : Type → Type → Type) (E : Type) := {
  open_cursor {K V} `{KeyOrd K} : Tb K V → result (C K V) E;
  table_of {K V} : C K V → Tb K V;
  c_current {K V} `{KeyOrd K} : C K V → result (option (K * VersionedValue V)) E;
  c_seek {K V} `{KeyOrd K} : K → C K V → result (C K V * option (K * VersionedValue V)) E;
  c_seek_exact {K V} `{KeyOrd K} : K → C K V → result (C K V * option (K * VersionedValue V)) E;
  c_seek_by_key_subkey {K V} `{KeyOrd K} :
    K → Z → C K V → result (C K V * option (VersionedValue V)) E;
  c_prev_dup {K V} `{KeyOrd K} : C K V → result (C K V * option (K * VersionedValue V)) E;
  c_last_dup {K V} `{KeyOrd K} : C K V → result (C K V * option (VersionedValue V)) E;
  c_next_dup_val {K V} `{KeyOrd K} : C K V → result (C K V * option (VersionedValue V)) E;
  c_next_no_dup {K V} `{KeyOrd K} : C K V → result (C K V * option (K * VersionedValue V)) E;
  c_append_dup {K V} `{KeyOrd K} : K → VersionedValue V → C K V → result (C K V) E;
  c_upsert {K V} `{KeyOrd K} : K → VersionedValue V → C K V → result (C K V) E;
  c_delete_current {K V} `{KeyOrd K} : C K V → result (C K V) E;
  c_last {K V} `{KeyOrd K} : Tb K V → result (option (K * VersionedValue V)) E;
}.

(** What holds of a successful outcome. *)
Definition outcome {A E} (r : result A E) (P : A → Prop) : Prop :=
  match r with Ok a => P a | Err _ => True end.

(** Rows, with distinct versions, and keys and blocks in range. *)
Definition wf_rows {K V} `{KeyOrd K} (rs : list (K * VersionedValue V)) : Prop :=
  sorted_rows rs ∧ Forall (λ r, key_ok r.1 ∧ 0 ≤ block_number r.2) rs.

(** What libmdbx documents of a table with one version per key and block: [rows] is
    its content, [position] the row a cursor is at.  A search that finds nothing
    leaves the cursor anywhere, but the searches within a key do not move it; a
    deletion leaves it where the row was. *)
Class DupDbLaws (Tb C : Type → Type → Type) (E : Type) `{DupDb Tb C E} := {
  rows {K V} : Tb K V → list (K * VersionedValue V);
  position {K V} : C K V → option (K * Z);
  law_open {K V} `{KeyOrdLaws K} (t : Tb K V) :
    outcome (open_cursor t) (λ c, table_of c = t ∧ position c = None);
  law_current {K V} `{KeyOrdLaws K} (c : C K V) : wf_rows (rows (table_of c)) →
    outcome (c_current c) (λ o,
      o = position c ≫= λ p, first_row (λ r, bool_decide (row_key r = p)) (rows (table_of c)));
  law_seek {K V} `{KeyOrdLaws K} k (c : C K V) : wf_rows (rows (table_of c)) →
    outcome (c_seek k c) (λ '(c', o),
      table_of c' = table_of c
      ∧ o = first_row (λ r, negb (bool_decide (key_lt r.1 k))) (rows (table_of c))
      ∧ match o with Some r => position c' = Some (row_key r) | None => True end);
  law_seek_exact {K V} `{KeyOrdLaws K} k (c : C K V) : wf_rows (rows (table_of c)) →
    outcome (c_seek_exact k c) (λ '(c', o),
      table_of c' = table_of c
      ∧ o = first_row (of_key k (λ _, true)) (rows (table_of c))
      ∧ match o with Some r => position c' = Some (row_key r) | None => True end);
  law_seek_by_key_subkey {K V} `{KeyOrdLaws K} k b (c : C K V) : wf_rows (rows (table_of c)) →
    outcome (c_seek_by_key_subkey k b c) (λ '(c', o),
      table_of c' = table_of c
      ∧ o = snd <$> first_row (of_key k (λ n, b <=? n)) (rows (table_of c))
      ∧ match o with Some v => position c' = Some (k, block_number v) | None => True end);
  law_prev_dup {K V} `{KeyOrdLaws K} k b (c : C K V) :
    wf_rows (rows (table_of c)) → position c = Some (k, b) →
    outcome (c_prev_dup c) (λ '(c', o),
      table_of c' = table_of c
      ∧ o = last_row (of_key k (λ n, n <? b)) (rows (table_of c))
      ∧ position c' = from_option (λ r, Some (row_key r)) (Some (k, b)) o);
  law_last_dup {K V} `{KeyOrdLaws K} k b (c : C K V) :
    wf_rows (rows (table_of c)) → position c = Some (k, b) →
    outcome (c_last_dup c) (λ '(c', o),
      table_of c' = table_of c
      ∧ o = snd <$> last_row (of_key k (λ _, true)) (rows (table_of c))
      ∧ position c' = from_option (λ v, Some (k, block_number v)) (Some (k, b)) o);
  law_next_dup_val {K V} `{KeyOrdLaws K} k b (c : C K V) :
    wf_rows (rows (table_of c)) → position c = Some (k, b) →
    outcome (c_next_dup_val c) (λ '(c', o),
      table_of c' = table_of c
      ∧ o = snd <$> first_row (of_key k (λ n, b <? n)) (rows (table_of c))
      ∧ position c' = from_option (λ v, Some (k, block_number v)) (Some (k, b)) o);
  law_next_no_dup {K V} `{KeyOrdLaws K} k b (c : C K V) :
    wf_rows (rows (table_of c)) → position c = Some (k, b) →
    outcome (c_next_no_dup c) (λ '(c', o),
      table_of c' = table_of c
      ∧ o = first_row (λ r, bool_decide (key_lt k r.1)) (rows (table_of c))
      ∧ match o with Some r => position c' = Some (row_key r) | None => True end);
  (** A version newer than the key's others is added. *)
  law_append_dup {K V} `{KeyOrdLaws K} k v (c : C K V) :
    wf_rows (rows (table_of c)) → key_ok k → 0 ≤ block_number v →
    (∀ v', (k, v') ∈ rows (table_of c) → block_number v' < block_number v) →
    outcome (c_append_dup k v c) (λ c',
      wf_rows (rows (table_of c'))
      ∧ ∀ r, r ∈ rows (table_of c') ↔ r = (k, v) ∨ r ∈ rows (table_of c));
  law_upsert {K V} `{KeyOrdLaws K} k v (c : C K V) :
    wf_rows (rows (table_of c)) → key_ok k → 0 ≤ block_number v →
    (∀ v', (k, v') ∈ rows (table_of c) → block_number v' ≠ block_number v) →
    outcome (c_upsert k v c) (λ c',
      wf_rows (rows (table_of c'))
      ∧ ∀ r, r ∈ rows (table_of c') ↔ r = (k, v) ∨ r ∈ rows (table_of c));
  law_delete_current {K V} `{KeyOrdLaws K} p (c : C K V) :
    wf_rows (rows (table_of c)) → position c = Some p →
    p ∈ map row_key (rows (table_of c)) →
    outcome (c_delete_current c) (λ c',
      wf_rows (rows (table_of c')) ∧ position c' = Some p
      ∧ ∀ r, r ∈ rows (table_of c') ↔ r ∈ rows (table_of c) ∧ row_key r ≠ p);
  law_last {K V} `{KeyOrdLaws K} (t : Tb K V) : wf_rows (rows t) →
    outcome (c_last t) (λ o, o = last (rows t));
}.

(** A loop's outcome: [None] when the fuel does not suffice. *)
Definition fbind {A B E} (c : option (result A E)) (k : A → option (result B E))
  : option (result B E) :=
  match c with
  | Some (Ok a) => k a
  | Some (Err e) => Some (Err e)
  | None => None
  end.
Notation "'let!' x ':=' c 'in' k" := (fbind c (λ x, k))
  (at level 10, x binder, c at level 100, k at level 200) : result_scope.

(** ** The cursor as of a block *)

Section Cursor.
Context {Tb C : Type → Type → Type} {E : Type} `{DupDb Tb C E}.

Section OneTable.
Context {K V : Type} `{KeyOrd K}.
Abbreviation cur := (C K V).
Context (max_block_number : Z).

Definition is_positioned (c : cur) : result bool E :=
  let? o := c_current c in Ok (bool_decide (is_Some o)).

Definition latest_version_for_key (key : K) (c : cur)
  : result (cur * option (K * VersionedValue V)) E :=
  let? '(c, seek_res) := c_seek_by_key_subkey key max_block_number c in
  match seek_res with
  | Some vv =>
      if max_block_number <? block_number vv then c_prev_dup c
      else Ok (c, Some (key, vv))
  | None =>
      let? '(c, o) := c_seek_exact key c in
      match o with
      | None => Ok (c, None)
      | Some _ =>
          let? '(c, o) := c_last_dup c in
          Ok (c, (key,.) <$> o)
      end
  end.

Definition cursor_seek_exact (key : K) (c : cur) : result (cur * option (K * V)) E :=
  let? '(c, o) := latest_version_for_key key c in
  Ok (c, match o with
         | Some (latest_key, latest_value) => (latest_key,.) <$> vvalue latest_value
         | None => None
         end).

Fixpoint next_live_from (fuel : nat) (first_key : K) (c : cur)
  : option (result (cur * option (K * V)) E) :=
  match fuel with
  | O => None
  | S fuel =>
      let! '(c, o) := Some (cursor_seek_exact first_key c) in
      match o with
      | Some kv => Some (Ok (c, Some kv))
      | None =>
          let! '(c, o) := Some (c_next_no_dup c) in
          match o with
          | None => Some (Ok (c, None))
          | Some (next_key, _) => next_live_from fuel next_key c
          end
      end
  end.

Definition cursor_seek (fuel : nat) (start_key : K) (c : cur)
  : option (result (cur * option (K * V)) E) :=
  let! '(c, o) := Some (c_seek start_key c) in
  match o with
  | Some (first_key, _) => next_live_from fuel first_key c
  | None => Some (Ok (c, None))
  end.

Definition cursor_next (fuel : nat) (c : cur) : option (result (cur * option (K * V)) E) :=
  let! o := Some (c_current c) in
  match o with
  | None => cursor_seek fuel key_default c
  | Some _ =>
      let! '(c, o) := Some (c_next_no_dup c) in
      match o with
      | None => Some (Ok (c, None))
      | Some (next_key, _) => next_live_from fuel next_key c
      end
  end.
End OneTable.

(** [MdbxTrieCursor] over the storage tries and [MdbxStorageCursor], bound to an
    address: what belongs to another address ends the iteration. *)
Section Bound.
Context {K2 V : Type} `{KeyOrd K2}.
Abbreviation cur := (C (Z * K2) V).
Context (max_block_number : Z) (hashed_address : Z).

Definition bound_to (o : option (Z * K2 * V)) : option (K2 * V) :=
  match o with
  | Some (a, k, v) => if a =? hashed_address then Some (k, v) else None
  | None => None
  end.

Definition bound_seek_exact (k : K2) (c : cur) : result (cur * option (K2 * V)) E :=
  let? '(c, o) := cursor_seek_exact max_block_number (hashed_address, k) c in
  Ok (c, bound_to o).

Definition trie_seek (fuel : nat) (k : K2) (c : cur) : option (result (cur * option (K2 * V)) E) :=
  let! '(c, o) := cursor_seek max_block_number fuel (hashed_address, k) c in
  Some (Ok (c, bound_to o)).

Definition trie_next (fuel : nat) (c : cur) : option (result (cur * option (K2 * V)) E) :=
  let! p := Some (is_positioned c) in
  if negb p then trie_seek fuel key_default c
  else
    let! '(c, o) := cursor_next max_block_number fuel c in
    Some (Ok (c, bound_to o)).
End Bound.

Section Storage.
Abbreviation cur := (C (Z * Z) Z).
Context (max_block_number : Z) (hashed_address : Z).

(** The loop of [next]: zero values are deleted slots and are skipped. *)
Fixpoint storage_next_loop (fuel : nat) (c : cur) : option (result (cur * option (Z * Z)) E) :=
  match fuel with
  | O => None
  | S fuel' =>
      let! '(c, o) := cursor_next max_block_number fuel c in
      match bound_to hashed_address o with
      | Some (k, v) =>
          if v =? 0 then storage_next_loop fuel' c else Some (Ok (c, Some (k, v)))
      | None => Some (Ok (c, None))
      end
  end.

(** [seek], which calls [next] on a zero value; [next] calls [seek] when the cursor
    is not positioned. *)
Fixpoint storage_seek (fuel : nat) (key : Z) (c : cur)
  : option (result (cur * option (Z * Z)) E) :=
  match fuel with
  | O => None
  | S fuel' =>
      let! '(c, o) := cursor_seek max_block_number fuel (hashed_address, key) c in
      match bound_to hashed_address o with
      | Some (k, v) =>
          if v =? 0 then
            let! p := Some (is_positioned c) in
            if negb p then storage_seek fuel' 0 c else storage_next_loop fuel c
          else Some (Ok (c, Some (k, v)))
      | None => Some (Ok (c, None))
      end
  end.

Definition storage_next (fuel : nat) (c : cur) : option (result (cur * option (Z * Z)) E) :=
  let! p := Some (is_positioned c) in
  if negb p then storage_seek fuel 0 c else storage_next_loop fuel c.

Definition is_storage_empty (fuel : nat) (c : cur) : option (result (cur * bool) E) :=
  let! '(c, o) := storage_seek fuel 0 c in
  Some (Ok (c, bool_decide (o = None))).
End Storage.

(** [while let Some(entry) = next()?]: the entries up to the end of the iteration. *)
Fixpoint drain {Cur A} (next : Cur → option (result (Cur * option A) E)) (fuel : nat) (c : Cur)
  : option (result (list A) E) :=
  match fuel with
  | O => None
  | S fuel =>
      let! '(c, o) := next c in
      match o with
      | Some x => let! xs := drain next fuel c in Some (Ok (x :: xs))
      | None => Some (Ok [])
      end
  end.
End Cursor.

(** ** Rows *)

Section SortedFilter.
Context {A : Type} (R : relation A).

Lemma filter_sorted (p : A → bool) l : StronglySorted R l → StronglySorted R (List.filter p l).
Proof.
  induction 1 as [|x l _ IH Hx]; cbn; [constructor|].
  destruct (p x); [|done]. constructor; [done|].
  rewrite Forall_forall in Hx |- *. intros y Hy. apply Hx.
  rewrite list_elem_of_In, filter_In, <- list_elem_of_In in Hy. by destruct Hy.
Qed.

Lemma head_sorted l x : StronglySorted R l → head l = Some x →
  x ∈ l ∧ ∀ y, y ∈ l → y = x ∨ R x y.
Proof.
  destruct 1 as [|z l _ Hz]; intros [= <-]. split; [left|].
  rewrite Forall_forall in Hz. intros y [->|Hy]%elem_of_cons; auto.
Qed.

Lemma last_sorted l x : StronglySorted R l → last l = Some x →
  x ∈ l ∧ ∀ y, y ∈ l → y = x ∨ R y x.
Proof.
  intros Hs Hl. split; [by apply last_Some_elem_of|].
  revert x Hl. induction Hs as [|z l Hs IH Hz]; intros x Hl; [done|].
  destruct l as [|w l].
  - injection Hl as ->. intros y [->|[]%elem_of_nil]%elem_of_cons. by left.
  - rewrite last_cons_cons in Hl. intros y [->|Hy]%elem_of_cons; [|by apply IH].
    right. rewrite Forall_forall in Hz. apply Hz. by apply last_Some_elem_of.
Qed.
End SortedFilter.

Section RowLemmas.
Context {K V : Type} `{KeyOrdLaws K}.
Implicit Types (rs : list (K * VersionedValue V)) (p : K * VersionedValue V → bool).

Lemma sorted_rows_alt rs :
  sorted_rows rs ↔ StronglySorted (λ r1 r2, key_lt (row_key r1) (row_key r2)) rs.
Proof.
  unfold sorted_rows. induction rs as [|r rs IH]; cbn; [by split; constructor|]. split.
  - intros [Hs Hf]%StronglySorted_inv. constructor; [by apply IH|]. by apply Forall_map in Hf.
  - intros [Hs Hf]%StronglySorted_inv. constructor; [by apply IH|]. by apply Forall_map.
Qed.

Lemma elem_of_filter_rows p rs r : r ∈ List.filter p rs ↔ r ∈ rs ∧ p r = true.
Proof. by rewrite !list_elem_of_In, filter_In. Qed.

Lemma first_row_Some p rs r : sorted_rows rs → first_row p rs = Some r →
  r ∈ rs ∧ p r = true ∧ ∀ r', r' ∈ rs → p r' = true → r' = r ∨ key_lt (row_key r) (row_key r').
Proof.
  rewrite sorted_rows_alt. intros Hs Hf.
  destruct (head_sorted _ _ _ (filter_sorted _ p rs Hs) Hf) as [[Hr Hp]%elem_of_filter_rows Hl].
  split; [done|split; [done|]]. intros r' Hr' Hp'. by apply Hl, elem_of_filter_rows.
Qed.

Lemma last_row_Some p rs r : sorted_rows rs → last_row p rs = Some r →
  r ∈ rs ∧ p r = true ∧ ∀ r', r' ∈ rs → p r' = true → r' = r ∨ key_lt (row_key r') (row_key r).
Proof.
  rewrite sorted_rows_alt. intros Hs Hf.
  destruct (last_sorted _ _ _ (filter_sorted _ p rs Hs) Hf) as [[Hr Hp]%elem_of_filter_rows Hl].
  split; [done|split; [done|]]. intros r' Hr' Hp'. by apply Hl, elem_of_filter_rows.
Qed.

Lemma first_row_None p rs : first_row p rs = None → ∀ r, r ∈ rs → p r = false.
Proof.
  intros Hn r Hr. destruct (p r) eqn:Hp; [|done]. exfalso.
  assert (Hin : r ∈ List.filter p rs) by by apply elem_of_filter_rows.
  unfold first_row in Hn. destruct (List.filter p rs); [by apply elem_of_nil in Hin|done].
Qed.

Lemma last_row_None p rs : last_row p rs = None → ∀ r, r ∈ rs → p r = false.
Proof.
  intros Hn r Hr. destruct (p r) eqn:Hp; [|done]. exfalso.
  assert (Hin : r ∈ List.filter p rs) by by apply elem_of_filter_rows.
  apply last_None in Hn. rewrite Hn in Hin. by apply elem_of_nil in Hin.
Qed.

Lemma last_row_ext p q rs : (∀ r, r ∈ rs → p r = q r) → last_row p rs = last_row q rs.
Proof.
  intros He. unfold last_row. f_equal. apply filter_ext_in. intros r Hr.
  apply He. by apply list_elem_of_In.
Qed.

Lemma of_key_true k (p : Z → bool) (r : K * VersionedValue V) :
  of_key k p r = true ↔ r.1 = k ∧ p (block_number r.2) = true.
Proof. unfold of_key. by rewrite andb_true_iff, bool_decide_eq_true. Qed.

Lemma row_key_lt k (v1 v2 : VersionedValue V) :
  key_lt (row_key (k, v1)) (row_key (k, v2)) ↔ block_number v1 < block_number v2.
Proof.
  cbn. split; [|by auto]. intros [Hl|[_ Hl]]; [|done].
  by destruct (irreflexivity key_lt _ Hl).
Qed.

Lemma sorted_rows_functional rs r1 r2 : sorted_rows rs →
  r1 ∈ rs → r2 ∈ rs → row_key r1 = row_key r2 → r1 = r2.
Proof.
  rewrite sorted_rows_alt.
  induction 1 as [|r rs Hs IH Hr]; [by intros []%elem_of_nil|].
  rewrite Forall_forall in Hr.
  intros [->|H1]%elem_of_cons [->|H2]%elem_of_cons He; [done| | |by apply IH].
  - specialize (Hr _ H2). rewrite He in Hr. by destruct (irreflexivity key_lt _ Hr).
  - specialize (Hr _ H1). rewrite He in Hr. by destruct (irreflexivity key_lt _ Hr).
Qed.

(** The version as of a block is the newest one up to it. *)
Lemma version_at_Some rs b k v : sorted_rows rs →
  version_at rs b k = Some v ↔
  (k, v) ∈ rs ∧ block_number v ≤ b
  ∧ ∀ v', (k, v') ∈ rs → block_number v' ≤ b → block_number v' ≤ block_number v.
Proof.
  intros Hs. unfold version_at.
  destruct (last_row _ rs) as [[k1 v1]|] eqn:Hl; cbn.
  - apply last_row_Some in Hl as (Hr & [Hk Hb]%of_key_true & Hm); [|done]. cbn in Hk, Hb. subst k1.
    assert (Hmax : ∀ v', (k, v') ∈ rs → block_number v' ≤ b → block_number v' ≤ block_number v1).
    { intros v' Hv' Hb'.
      assert (Ho : of_key k (λ n, n <=? b) (k, v') = true) by (apply of_key_true; cbn; split; [done|lia]).
      destruct (Hm _ Hv' Ho) as [[= ->]|Hlt%row_key_lt]; lia. }
    split; [intros [= <-]; split_and!; [done|lia|done]|].
    intros (Hv & Hvb & Hvm). f_equal.
    assert (block_number v = block_number v1) by (apply Z.le_antisymm; [by apply Hmax|apply Hvm; [done|lia]]).
    assert ((k, v1) = (k, v)) as [= ->]; [|done].
    apply (sorted_rows_functional rs); [done..|]. unfold row_key; cbn. by f_equal.
  - split; [done|]. intros (Hv & Hb & _).
    pose proof (last_row_None _ _ Hl _ Hv) as Hf.
    assert (of_key k (λ n, n <=? b) (k, v) = true) by (apply of_key_true; cbn; split; [done|lia]).
    congruence.
Qed.

Lemma version_at_None rs b k : sorted_rows rs →
  version_at rs b k = None ↔ ∀ v, (k, v) ∈ rs → b < block_number v.
Proof.
  intros Hs. unfold version_at. destruct (last_row _ rs) as [[k1 v1]|] eqn:Hl; cbn.
  - split; [done|]. intros Hn.
    apply last_row_Some in Hl as (Hr & [Hk Hb]%of_key_true & _); [|done]. cbn in Hk, Hb. subst.
    specialize (Hn _ Hr). lia.
  - split; [|done]. intros _ v Hv. pose proof (last_row_None _ _ Hl _ Hv) as Hf.
    destruct (Z.lt_ge_cases b (block_number v)); [done|].
    assert (of_key k (λ n, n <=? b) (k, v) = true) by (apply of_key_true; cbn; split; [done|lia]).
    congruence.
Qed.

(** Only the key's versions up to the block count. *)
Lemma version_at_ext rs1 rs2 b k : sorted_rows rs1 → sorted_rows rs2 →
  (∀ v, block_number v ≤ b → (k, v) ∈ rs1 ↔ (k, v) ∈ rs2) →
  version_at rs1 b k = version_at rs2 b k.
Proof.
  intros H1 H2 He. destruct (version_at rs2 b k) as [v|] eqn:Hv.
  - rewrite version_at_Some in Hv |- * by done. destruct Hv as (Hv & Hb & Hm).
    split_and!; [by apply He|done|]. intros v' Hv' Hb'. apply Hm; [by apply He|done].
  - rewrite version_at_None in Hv |- * by done. intros v Hr.
    destruct (Z.lt_ge_cases b (block_number v)); [done|]. apply Hv. by apply He.
Qed.

(** What the searches within a key find. *)
Lemma first_row_of_key k (p : Z → bool) rs r :
  first_row (of_key k p) rs = Some r → r ∈ rs ∧ r.1 = k.
Proof.
  intros Hf%head_Some_elem_of. apply elem_of_filter_rows in Hf as [Hr [Hk _]%of_key_true]. done.
Qed.

Lemma last_row_of_key k (p : Z → bool) rs r :
  last_row (of_key k p) rs = Some r → r ∈ rs ∧ r.1 = k.
Proof.
  intros Hf%last_Some_elem_of. apply elem_of_filter_rows in Hf as [Hr [Hk _]%of_key_true]. done.
Qed.

Lemma first_row_absent k rs v : first_row (of_key k (λ _, true)) rs = None → (k, v) ∉ rs.
Proof.
  intros Hf Hr. pose proof (first_row_None _ _ Hf _ Hr) as Hn. unfold of_key in Hn. cbn in Hn.
  by rewrite bool_decide_true in Hn.
Qed.

Lemma absent_version k rs n : sorted_rows rs →
  first_row (of_key k (λ _, true)) rs = None → version_at rs n k = None.
Proof.
  intros Hs Hf. apply version_at_None; [done|]. intros v Hr. by destruct (first_row_absent k rs v).
Qed.

Lemma step_back k rs n r : sorted_rows rs →
  first_row (of_key k (λ m, n <=? m)) rs = Some r → n < block_number r.2 →
  last_row (of_key k (λ m, m <? block_number r.2)) rs = last_row (of_key k (λ m, m <=? n)) rs.
Proof.
  intros Hs (Hr & [Hk Hb]%of_key_true & Hmin)%first_row_Some Hlt; [|done]. destruct r as [k1 v1].
  cbn in *. subst k1. apply last_row_ext. intros [k' v'] Hr'. unfold of_key. cbn.
  case_bool_decide; [subst k'|done]. cbn.
  destruct (Z.ltb_spec (block_number v') (block_number v1)), (Z.leb_spec (block_number v') n);
    try done; [|lia].
  assert (Ho : of_key k (λ m, n <=? m) (k, v') = true) by (apply of_key_true; cbn; split; [done|lia]).
  destruct (Hmin _ Hr' Ho) as [[= ->]|Hl%row_key_lt]; lia.
Qed.

Lemma at_block k rs n r : sorted_rows rs →
  first_row (of_key k (λ m, n <=? m)) rs = Some r → block_number r.2 ≤ n →
  version_at rs n r.1 = Some r.2.
Proof.
  intros Hs (Hr & [Hk Hb]%of_key_true & _)%first_row_Some Hle; [|done].
  apply version_at_Some; [done|]. split_and!; [by destruct r|lia|]. cbn in Hb. lia.
Qed.

Lemma all_older k rs n :
  first_row (of_key k (λ m, n <=? m)) rs = None →
  last_row (of_key k (λ _, true)) rs = last_row (of_key k (λ m, m <=? n)) rs.
Proof.
  intros Hf. apply last_row_ext. intros [k' v'] Hr'. unfold of_key. cbn.
  case_bool_decide; [subst k'|done].
  pose proof (first_row_None _ _ Hf _ Hr') as Hn. unfold of_key in Hn. cbn in Hn.
  rewrite bool_decide_true in Hn by done. cbn in Hn |- *. lia.
Qed.
End RowLemmas.

Section KeyLemmas.
Context {K V : Type} `{KeyOrdLaws K}.
Implicit Types (rs : list (K * VersionedValue V)) (l : list K) (k : K).

Lemma elem_of_distinct l k : k ∈ distinct l ↔ k ∈ l.
Proof.
  induction l as [|k1 [|k2 l] IH]; [done..|]. cbn [distinct].
  case_bool_decide as He; rewrite ?elem_of_cons, IH; [subst; rewrite !elem_of_cons; tauto|].
  by rewrite !elem_of_cons.
Qed.

Lemma elem_of_keys rs k : k ∈ keys_of rs ↔ ∃ v, (k, v) ∈ rs.
Proof.
  unfold keys_of. rewrite elem_of_distinct. rewrite list_elem_of_fmap. split.
  - intros ([k' v] & -> & Hr). by exists v.
  - intros [v Hr]. by exists (k, v).
Qed.

Lemma keys_sorted rs : sorted_rows rs → StronglySorted key_lt (keys_of rs).
Proof.
  rewrite sorted_rows_alt. unfold keys_of.
  induction 1 as [|r rs0 Hs IH Hr]; [constructor|].
  destruct rs0 as [|r2 rs]; [repeat constructor|].
  cbn [map distinct] in *. case_bool_decide as He; [done|]. constructor; [done|].
  rewrite Forall_forall in Hr. rewrite Forall_forall. intros k Hk.
  change (k ∈ distinct (map fst (r2 :: rs))) in Hk. rewrite elem_of_distinct in Hk.
  apply list_elem_of_fmap in Hk as ([k' v'] & -> & Hk').
  destruct (Hr _ Hk') as [Hl|[Heq _]]; [done|]. cbn in Heq |- *. subst.
  apply elem_of_cons in Hk' as [Hk'|Hk'].
  { subst r2. cbn in He. by destruct He. }
  exfalso. pose proof (Hr r2 (list_elem_of_here _ _)) as H1.
  apply StronglySorted_inv in Hs as [_ H2]. rewrite Forall_forall in H2. specialize (H2 _ Hk').
  destruct H1 as [H1|[H1 _]]; [|by destruct He]. destruct H2 as [H2|[H2 _]]; cbn in H1, H2.
  - destruct (irreflexivity key_lt r.1). by etrans.
  - destruct He. by rewrite H2.
Qed.

Lemma view_key n rs k v : sorted_rows rs →
  view rs n k = Some v → k ∈ keys_of rs.
Proof.
  intros Hs Hv. unfold view in Hv. destruct (version_at rs n k) as [x|] eqn:Hx; [|done].
  apply version_at_Some in Hx as [Hx _]; [|done]. apply elem_of_keys. by exists x.
Qed.

Lemma head_filter_distinct (p : K → bool) l :
  head (List.filter p (distinct l)) = head (List.filter p l).
Proof.
  induction l as [|k1 [|k2 l] IH]; [done..|]. cbn [distinct].
  case_bool_decide as He; [|cbn [List.filter] in *; by destruct (p k1)].
  subst. etrans; [exact IH|]. cbn. by destruct (p k2).
Qed.

Lemma first_row_key (p : K → bool) rs :
  fst <$> first_row (λ r, p r.1) rs = head (List.filter p (keys_of rs)).
Proof.
  unfold keys_of, first_row. rewrite head_filter_distinct.
  induction rs as [|r rs IH]; cbn; [done|]. by destruct (p r.1).
Qed.

Definition from k l := List.filter (λ k', negb (bool_decide (key_lt k' k))) l.
Definition after k l := List.filter (λ k', bool_decide (key_lt k k')) l.

Lemma filter_all_in (p : K → bool) l : (∀ k, k ∈ l → p k = true) → List.filter p l = l.
Proof.
  induction l as [|x l IH]; cbn; [done|]. intros Hp.
  rewrite (Hp x) by left. f_equal. apply IH. intros k Hk. apply Hp. by right.
Qed.

Lemma from_member k l : StronglySorted key_lt l → k ∈ l → from k l = k :: after k l.
Proof.
  unfold from, after. induction 1 as [|x l Hs IH Hx]; [by intros []%elem_of_nil|].
  rewrite Forall_forall in Hx. intros [->|Hk]%elem_of_cons; cbn.
  - rewrite !bool_decide_false by apply (irreflexivity key_lt). cbn. f_equal.
    assert (List.filter (λ k', bool_decide (key_lt x k')) l = l) as ->.
    { apply filter_all_in. intros y Hy. apply bool_decide_eq_true. by apply Hx. }
    apply filter_all_in. intros y Hy. rewrite negb_true_iff. apply bool_decide_eq_false.
    intros Hl. destruct (irreflexivity key_lt x). etrans; [by apply Hx|done].
  - rewrite (bool_decide_true (key_lt x k)) by by apply Hx.
    rewrite (bool_decide_false (key_lt k x)); [cbn; by apply IH|].
    intros Hl. destruct (irreflexivity key_lt x). etrans; [by apply Hx|done].
Qed.

(** A search for a key upwards leaves the keys from the one it finds. *)
Lemma filter_up_from (p : K → bool) l k :
  (∀ a b, p a = true → key_lt a b → p b = true) → StronglySorted key_lt l →
  head (List.filter p l) = Some k → k ∈ l ∧ List.filter p l = from k l.
Proof.
  intros Hup. unfold from. induction 1 as [|x l Hs IH Hx]; [done|]. cbn.
  rewrite Forall_forall in Hx. destruct (p x) eqn:Hp; cbn.
  - intros [= ->]. split; [left|]. rewrite bool_decide_false by apply (irreflexivity key_lt). cbn.
    f_equal. rewrite !filter_all_in; [done|..].
    + intros y Hy. rewrite negb_true_iff. apply bool_decide_eq_false.
      intros Hl. destruct (irreflexivity key_lt k). etrans; [by apply Hx|done].
    + intros y Hy. eapply Hup; [done|by apply Hx].
  - intros Hh. destruct (IH Hh) as [Hk He]. split; [by right|].
    rewrite bool_decide_true by by apply Hx. done.
Qed.

Lemma after_up k a b : bool_decide (key_lt k a) = true → key_lt a b → bool_decide (key_lt k b) = true.
Proof. rewrite !bool_decide_eq_true. intros. by etrans. Qed.

Lemma from_up k a b :
  negb (bool_decide (key_lt a k)) = true → key_lt a b → negb (bool_decide (key_lt b k)) = true.
Proof. rewrite !negb_true_iff, !bool_decide_eq_false. intros Ha Hab Hb. apply Ha. by etrans. Qed.
End KeyLemmas.

(** ** What the cursor reads *)

Section OutcomeLemmas.
Context {A B E : Type}.

Lemma outcome_bind (r : result A E) (k : A → result B E) (Q : A → Prop) (P : B → Prop) :
  outcome r Q → (∀ a, Q a → outcome (k a) P) → outcome (result_bind r k) P.
Proof. destruct r; cbn; auto. Qed.

Lemma outcome_mono (r : result A E) (Q P : A → Prop) :
  outcome r Q → (∀ a, Q a → P a) → outcome r P.
Proof. destruct r; cbn; auto. Qed.

(** The fuel suffices, and [P] holds of a successful outcome. *)
Definition returns (m : option (result A E)) (P : A → Prop) : Prop :=
  ∃ r, m = Some r ∧ outcome r P.

Lemma returns_Some (r : result A E) (P : A → Prop) : outcome r P → returns (Some r) P.
Proof. by exists r. Qed.

Lemma returns_Ok (a : A) (P : A → Prop) : P a → returns (Some (Ok a)) P.
Proof. by exists (Ok a). Qed.

Lemma returns_mono (m : option (result A E)) (Q P : A → Prop) :
  returns m Q → (∀ a, Q a → P a) → returns m P.
Proof. intros (r & -> & Hr) HP. exists r. split; [done|]. by eapply outcome_mono. Qed.
End OutcomeLemmas.

Lemma returns_bind {A B E} (m : option (result A E)) (k : A → option (result B E))
    (Q : A → Prop) (P : B → Prop) :
  returns m Q → (∀ a, Q a → returns (k a) P) → returns (fbind m k) P.
Proof.
  intros (r & -> & Hr) Hk. destruct r as [a|e]; cbn in *; [by apply Hk|]. by exists (Err e).
Qed.

Create HintDb proofs_db.
#[export] Hint Resolve returns_Some returns_Ok : proofs_db.

Section CursorLemmas.
Context {Tb C : Type → Type → Type} {E : Type} `{DupDbLaws Tb C E}.

Section OneTable.
Context {K V : Type} `{KeyOrdLaws K} (n : Z).
Implicit Types (c : C K V) (rs : list (K * VersionedValue V)).
Abbreviation rs_of c := (rows (table_of c)).

(** The cursor is at a row of [k]. *)
Definition on_key c k : Prop :=
  ∃ b, position c = Some (k, b) ∧ (k, b) ∈ map row_key (rs_of c).

Lemma on_key_row c c' r : rs_of c' = rs_of c → r ∈ rs_of c → position c' = Some (row_key r) →
  on_key c' r.1.
Proof.
  intros Hc Hr Hp. exists (block_number r.2). split; [done|]. rewrite Hc.
  change (r.1, block_number r.2) with (row_key r). apply list_elem_of_fmap. by exists r.
Qed.

Lemma on_key_member c k : on_key c k → k ∈ keys_of (rs_of c).
Proof.
  intros (b & _ & Hb). apply list_elem_of_fmap in Hb as ([k' v] & [= -> _] & Hr).
  apply elem_of_keys. by exists v.
Qed.

Lemma on_key_current c k : wf_rows (rs_of c) → on_key c k →
  outcome (c_current c) (λ o, is_Some o).
Proof.
  intros Hwf (b & Hp & Hb). eapply outcome_mono; [by apply law_current|].
  intros o ->. rewrite Hp. cbn.
  destruct (first_row _ _) eqn:Hf; [done|].
  apply list_elem_of_fmap in Hb as (r & Hr & Hin).
  pose proof (first_row_None _ _ Hf _ Hin) as Hn. cbn in Hn.
  rewrite bool_decide_eq_false in Hn. by destruct Hn.
Qed.

Lemma latest_version_spec k c : wf_rows (rs_of c) →
  outcome (latest_version_for_key n k c) (λ '(c', o),
    table_of c' = table_of c ∧ o = (k,.) <$> version_at (rs_of c) n k
    ∧ (k ∈ keys_of (rs_of c) → on_key c' k)).
Proof.
  intros Hwf. pose proof Hwf as [Hs _]. unfold latest_version_for_key.
  eapply outcome_bind; [by apply law_seek_by_key_subkey|]. intros [c1 o1] (Ht1 & -> & Hp1).
  destruct (first_row _ _) as [r1|] eqn:Hf; cbn in *.
  - destruct (first_row_of_key _ _ _ _ Hf) as [Hr1 <-].
    destruct (Z.ltb_spec n (block_number r1.2)) as [Hlt|Hge].
    + eapply outcome_mono; [apply law_prev_dup; rewrite ?Ht1; done|].
      intros [c2 o2] (Ht2 & -> & Hp2). rewrite Ht1, (step_back _ _ _ _ Hs Hf Hlt) in *.
      unfold version_at. destruct (last_row _ _) as [r2|] eqn:Hl; cbn in *.
      * destruct (last_row_of_key _ _ _ _ Hl) as [Hr2 <-].
        split_and!; [done|by destruct r2|]. intros _. by apply (on_key_row c); [rewrite Ht2|..].
      * split_and!; [done|done|]. intros _. by apply (on_key_row c); [rewrite Ht2|..].
    + rewrite (at_block _ _ _ _ Hs Hf Hge). split_and!; [done|done|].
      intros _. by apply (on_key_row c); [rewrite Ht1|..].
  - eapply outcome_bind; [apply law_seek_exact; by rewrite Ht1|].
    intros [c2 o2] (Ht2 & -> & Hp2). rewrite Ht1 in *.
    destruct (first_row (of_key k (λ _, true)) _) as [r2|] eqn:Hf2; cbn in *.
    + destruct (first_row_of_key _ _ _ _ Hf2) as [Hr2 <-].
      eapply outcome_bind; [apply law_last_dup; rewrite ?Ht2; done|].
      intros [c3 o3] (Ht3 & -> & Hp3). rewrite Ht2, (all_older _ _ _ Hf) in *.
      split_and!; [done|done|]. intros _.
      destruct (last_row _ _) as [r3|] eqn:Hl; cbn in *.
      * destruct (last_row_of_key _ _ _ _ Hl) as [Hr3 Hk3]. rewrite <- Hk3 in Hp3 |- *.
        by apply (on_key_row c); [rewrite Ht3|..].
      * by apply (on_key_row c); [rewrite Ht3|..].
    + rewrite (absent_version _ _ _ Hs Hf2). split_and!; [done|done|].
      intros [v Hr]%elem_of_keys. by destruct (first_row_absent _ _ _ Hf2 Hr).
Qed.

Lemma seek_exact_spec k c : wf_rows (rs_of c) →
  outcome (cursor_seek_exact n k c) (λ '(c', o),
    table_of c' = table_of c ∧ o = (k,.) <$> view (rs_of c) n k
    ∧ (k ∈ keys_of (rs_of c) → on_key c' k)).
Proof.
  intros Hwf. unfold cursor_seek_exact.
  eapply outcome_bind; [by apply latest_version_spec|]. intros [c' o] (Ht & -> & Hk). cbn.
  split_and!; [done| |done]. unfold view. by destruct (version_at _ _ _).
Qed.

(** The live entries among some keys, and what a step of the scan over them leaves:
    the entry found, with the cursor on its key and the rest to come. *)
Definition live_among rs ks : list (K * V) := omap (λ k, (k,.) <$> view rs n k) ks.

Definition scanned rs c' (o : option (K * V)) (entries : list (K * V)) : Prop :=
  rs_of c' = rs ∧
  match o with
  | Some (k, v) => on_key c' k ∧ entries = (k, v) :: live_among rs (after k (keys_of rs))
  | None => entries = []
  end.

(** The searches for a next key, before the walk from it. *)
Lemma found_key_spec (op : result (C K V * option (K * VersionedValue V)) E) (p : K → bool)
    (walk : K → C K V → option (result (C K V * option (K * V)) E)) rs :
  sorted_rows rs → (∀ a b, p a = true → key_lt a b → p b = true) →
  outcome op (λ '(c', o), rs_of c' = rs ∧ o = first_row (λ r, p r.1) rs) →
  (∀ k' c', rs_of c' = rs → k' ∈ keys_of rs → List.filter p (keys_of rs) = from k' (keys_of rs) →
    returns (walk k' c') (λ '(c', o), scanned rs c' o (live_among rs (from k' (keys_of rs))))) →
  returns (let! '(c, o) := Some op in
           match o with
           | None => Some (Ok (c, None))
           | Some (next_key, _) => walk next_key c
           end)
    (λ '(c', o), scanned rs c' o (live_among rs (List.filter p (keys_of rs)))).
Proof.
  intros Hs Hup Hop Hwalk. eapply returns_bind; [by apply returns_Some|].
  intros [c' o] [Ht ->]. pose proof (first_row_key p rs) as Hfk.
  destruct (first_row _ _) as [[k2 v2]|] eqn:Hf; cbn in Hfk.
  - apply eq_sym, filter_up_from in Hfk as [Hk2 He]; [|done|by apply keys_sorted].
    rewrite He. by apply Hwalk.
  - apply returns_Ok. split; [done|]. by destruct (List.filter p (keys_of rs)).
Qed.

Lemma next_live_spec fuel k c : wf_rows (rs_of c) → k ∈ keys_of (rs_of c) →
  (length (from k (keys_of (rs_of c))) ≤ fuel)%nat →
  returns (next_live_from n fuel k c) (λ '(c', o),
    scanned (rs_of c) c' o (live_among (rs_of c) (from k (keys_of (rs_of c))))).
Proof.
  revert k c. induction fuel as [|fuel IH]; intros k c Hwf Hk;
    (rewrite from_member; [|by apply keys_sorted, Hwf|done]); cbn [length]; [lia|].
  intros Hfuel. cbn [next_live_from].
  eapply returns_bind; [by apply returns_Some, seek_exact_spec|].
  intros [c1 o1] (Ht1 & -> & Hk1). specialize (Hk1 Hk). unfold live_among at 1. cbn [omap list_omap].
  destruct (view (rs_of c) n k) as [v|] eqn:Hv.
  { apply returns_Ok. unfold scanned. by rewrite Ht1. }
  destruct Hk1 as (b & Hp & _).
  apply (found_key_spec _ (λ k', bool_decide (key_lt k k')));
    [apply Hwf|apply after_up| |].
  - eapply outcome_mono; [apply (law_next_no_dup k b); rewrite ?Ht1; done|].
    intros [c2 o2] (Ht2 & -> & _). by rewrite Ht2, Ht1.
  - intros k2 c2 Hc2 Hk2 He. rewrite <- Hc2 in *. apply IH; [done..|].
    unfold after in Hfuel. rewrite He in Hfuel. lia.
Qed.

Lemma cursor_seek_spec fuel k c : wf_rows (rs_of c) →
  (length (keys_of (rs_of c)) ≤ fuel)%nat →
  returns (cursor_seek n fuel k c) (λ '(c', o),
    scanned (rs_of c) c' o (live_among (rs_of c) (from k (keys_of (rs_of c))))).
Proof.
  intros Hwf Hfuel. unfold cursor_seek. eapply returns_mono.
  - eapply (found_key_spec _ (λ k', negb (bool_decide (key_lt k' k))) (next_live_from n fuel));
      [apply Hwf|apply from_up| |].
    + eapply outcome_mono; [by apply law_seek|]. intros [c2 o2] (Ht2 & -> & _). by rewrite Ht2.
    + intros k2 c2 Hc2 Hk2 _. rewrite <- Hc2 in *. apply next_live_spec; [done..|].
      etrans; [apply filter_length_le|done].
  - done.
Qed.

(** Where a scan stands: at the start, or on a key. *)
Definition remaining c : list K :=
  match position c with
  | None => keys_of (rs_of c)
  | Some (k, _) => after k (keys_of (rs_of c))
  end.
Definition placed c : Prop := position c = None ∨ ∃ k, on_key c k.

Lemma placed_current c : wf_rows (rs_of c) → placed c →
  outcome (c_current c) (λ o, is_Some o ↔ position c ≠ None).
Proof.
  intros Hwf [Hp|[k Hk]].
  - eapply outcome_mono; [by apply law_current|]. intros o ->. rewrite Hp. cbn.
    split; [by intros []|done].
  - eapply outcome_mono; [by eapply on_key_current|]. intros o Ho. destruct Hk as (b & -> & _). done.
Qed.

Lemma from_default c : wf_rows (rs_of c) → from key_default (keys_of (rs_of c)) = keys_of (rs_of c).
Proof.
  intros [Hs Hok]. apply filter_all_in. intros k [v Hv]%elem_of_keys.
  rewrite negb_true_iff. apply bool_decide_eq_false. apply key_default_least.
  rewrite Forall_forall in Hok. by apply (Hok (k, v)).
Qed.

Lemma cursor_next_spec fuel c : wf_rows (rs_of c) → placed c →
  (length (keys_of (rs_of c)) ≤ fuel)%nat →
  returns (cursor_next n fuel c) (λ '(c', o),
    scanned (rs_of c) c' o (live_among (rs_of c) (remaining c))).
Proof.
  intros Hwf Hpl Hfuel. unfold cursor_next, remaining.
  eapply returns_bind; [by apply returns_Some, placed_current|]. intros o Ho.
  destruct (position c) as [[k b]|] eqn:Hp.
  - destruct o as [p|]; [|by destruct Ho as [_ []]].
    apply (found_key_spec _ (λ k', bool_decide (key_lt k k'))); [apply Hwf|apply after_up| |].
    + eapply outcome_mono; [by apply (law_next_no_dup k b)|].
      intros [c2 o2] (Ht2 & -> & _). by rewrite Ht2.
    + intros k2 c2 Hc2 Hk2 _. rewrite <- Hc2 in *. apply next_live_spec; [done..|].
      etrans; [apply filter_length_le|done].
  - destruct o as [p|]; [by destruct Ho as [[] _]|].
    rewrite <- (from_default c Hwf). by apply cursor_seek_spec.
Qed.
End OneTable.

(** *** Cursors bound to an address *)

Section Bound.
Context {K2 V : Type} `{KeyOrdLaws K2} (n a : Z).
Implicit Types (c : C (Z * K2) V) (rs : list (Z * K2 * VersionedValue V)).
Abbreviation rs_of c := (rows (table_of c)).

Definition bound_entries (l : list (Z * K2 * V)) : list (K2 * V) := omap (λ e, bound_to a (Some e)) l.

(** A step of a bound scan. *)
Definition bound_scanned rs c' (o : option (K2 * V)) (entries : list (K2 * V)) : Prop :=
  rs_of c' = rs ∧
  match o with
  | Some (k, v) =>
      on_key c' (a, k)
      ∧ entries = (k, v) :: bound_entries (live_among n rs (after (a, k) (keys_of rs)))
  | None => entries = []
  end.

Lemma live_among_key rs ks (e : Z * K2 * V) : e ∈ live_among n rs ks → e.1 ∈ ks.
Proof.
  unfold live_among. rewrite list_elem_of_omap. intros (k & Hk & He).
  destruct (view rs n k); cbn in He; by simplify_eq.
Qed.

Lemma bound_entries_nil (l : list (Z * K2 * V)) : (∀ e, e ∈ l → e.1.1 ≠ a) → bound_entries l = [].
Proof.
  unfold bound_entries. induction l as [|[[a' k] v] l IH]; [done|]. intros Hl. cbn.
  destruct (Z.eqb_spec a' a) as [->|]; [by destruct (Hl (a, k, v)); [left|]|].
  apply IH. intros e He. apply Hl. by right.
Qed.

(** The first entry of another address ends the address's entries. *)
Lemma bound_scan rs c' o ks : (∀ k, k ∈ ks → a ≤ k.1) →
  scanned n rs c' o (live_among n rs ks) →
  bound_scanned rs c' (bound_to a o) (bound_entries (live_among n rs ks)).
Proof.
  intros Hks [Hrs Ho]. split; [done|]. destruct o as [[[a' k] v]|]; cbn; [|by rewrite Ho].
  destruct Ho as [Hk He]. destruct (Z.eqb_spec a' a) as [->|Hne].
  - split; [done|]. rewrite He at 1. cbn. by rewrite Z.eqb_refl.
  - apply bound_entries_nil. rewrite He. intros e Hin.
    assert (Ha : a ≤ a').
    { apply (Hks (a', k)). apply (live_among_key rs ks (a', k, v)). rewrite He. left. }
    apply elem_of_cons in Hin as [->|Hin%live_among_key]; [cbn; lia|].
    unfold after in Hin. rewrite list_elem_of_In, filter_In, bool_decide_eq_true in Hin.
    destruct Hin as [_ [Hl|[Hl _]]]; cbn in Hl; lia.
Qed.

Lemma bound_from_default rs ks : (∀ k, k ∈ ks → key_ok k) →
  bound_entries (live_among n rs (from (a, key_default) ks)) = bound_entries (live_among n rs ks).
Proof.
  unfold live_among, from. induction ks as [|[a' k] ks IH]; [done|]. intros Hok.
  assert (Hk : key_ok k) by (apply (Hok (a', k)); left).
  assert (IH' := IH (λ k' Hk', Hok k' (list_elem_of_further _ _ _ Hk'))). clear IH.
  cbn [List.filter omap list_omap]. case_bool_decide as Hl; cbn [negb].
  - rewrite IH'. destruct (view rs n (a', k)); cbn; [|done].
    destruct Hl as [Hl|[_ Hl]]; cbn in Hl; [|by destruct (key_default_least k Hk)].
    by destruct (Z.eqb_spec a' a); [lia|].
  - cbn [omap list_omap]. destruct (view rs n (a', k)) as [v|]; cbn; [|done].
    unfold bound_entries in *. cbn. destruct (a' =? a); [by f_equal|done].
Qed.

(** Where a bound scan stands. *)
Definition bound_placed c : Prop := position c = None ∨ ∃ k, on_key c (a, k).
Definition bound_remaining c : list (K2 * V) := bound_entries (live_among n (rs_of c) (remaining c)).

Lemma keys_key_ok rs : wf_rows rs → ∀ k, k ∈ keys_of rs → key_ok k.
Proof.
  intros [_ Hok] k [v Hv]%elem_of_keys. rewrite Forall_forall in Hok. by apply (Hok (k, v)).
Qed.

Lemma from_address rs k : ∀ k', k' ∈ from (a, k) (keys_of rs) → a ≤ k'.1.
Proof.
  intros k' Hk'. unfold from in Hk'.
  rewrite list_elem_of_In, filter_In, negb_true_iff, bool_decide_eq_false in Hk'.
  destruct Hk' as [_ Hn], (Z.le_gt_cases a k'.1); [done|]. destruct Hn. left. cbn. lia.
Qed.

Lemma after_address rs k : ∀ k', k' ∈ after (a, k) (keys_of rs) → a ≤ k'.1.
Proof.
  intros k' Hk'. unfold after in Hk'. rewrite list_elem_of_In, filter_In, bool_decide_eq_true in Hk'.
  destruct Hk' as [_ [Hl|[Hl _]]]; cbn in Hl; lia.
Qed.

Lemma bound_seek_spec fuel k c : wf_rows (rs_of c) →
  (length (keys_of (rs_of c)) ≤ fuel)%nat →
  returns (trie_seek n a fuel k c) (λ '(c', o),
    bound_scanned (rs_of c) c' o
      (bound_entries (live_among n (rs_of c) (from (a, k) (keys_of (rs_of c)))))).
Proof.
  intros Hwf Hfuel. unfold trie_seek. eapply returns_bind; [by apply cursor_seek_spec|].
  intros [c' o] Hsc. apply returns_Ok, bound_scan; [apply from_address|done].
Qed.

Lemma is_positioned_spec c : wf_rows (rs_of c) → bound_placed c →
  outcome (is_positioned c) (λ p, p = bool_decide (position c ≠ None)).
Proof.
  intros Hwf Hpl. unfold is_positioned. eapply outcome_bind.
  - apply placed_current; [done|]. destruct Hpl as [?|[k ?]]; [by left|right; by exists (a, k)].
  - intros o Ho. cbn. by apply bool_decide_ext.
Qed.

(** The inner [next] of a bound cursor on a row of its address. *)
Lemma bound_next_spec fuel c : wf_rows (rs_of c) → (∃ k, on_key c (a, k)) →
  (length (keys_of (rs_of c)) ≤ fuel)%nat →
  returns (cursor_next n fuel c) (λ '(c', o),
    bound_scanned (rs_of c) c' (bound_to a o) (bound_remaining c)).
Proof.
  intros Hwf [k Hk] Hfuel. eapply returns_mono.
  - apply cursor_next_spec; [done|right; by exists (a, k)|done].
  - intros [c' o] Hsc. apply bound_scan; [|done].
    destruct Hk as (b & Hp & _). unfold remaining. rewrite Hp. apply after_address.
Qed.

Lemma trie_next_spec fuel c : wf_rows (rs_of c) → bound_placed c →
  (length (keys_of (rs_of c)) ≤ fuel)%nat →
  returns (trie_next n a fuel c) (λ '(c', o), bound_scanned (rs_of c) c' o (bound_remaining c)).
Proof.
  intros Hwf Hpl Hfuel. unfold trie_next.
  eapply returns_bind; [by apply returns_Some, is_positioned_spec|]. intros p ->.
  case_bool_decide as Hp; cbn [negb].
  - destruct Hpl as [?|Hk]; [done|]. eapply returns_bind; [by apply bound_next_spec|].
    intros [c' o] Hsc. by apply returns_Ok.
  - unfold bound_remaining, remaining. rewrite Hp.
    rewrite <- bound_from_default by by apply keys_key_ok. by apply bound_seek_spec.
Qed.
End Bound.

(** *** The storage cursor *)

Section Storage.
Context (n a : Z).
Implicit Types (c : C (Z * Z) Z) (rs : list (Z * Z * VersionedValue Z)).
Abbreviation rs_of c := (rows (table_of c)).

Definition nonzero (l : list (Z * Z)) : list (Z * Z) := List.filter (λ e, negb (e.2 =? 0)) l.

Definition storage_scanned rs c' (o : option (Z * Z)) (entries : list (Z * Z)) : Prop :=
  rs_of c' = rs ∧
  match o with
  | Some (k, v) =>
      on_key c' (a, k)
      ∧ entries = (k, v) :: nonzero (bound_entries a (live_among n rs (after (a, k) (keys_of rs))))
  | None => entries = []
  end.

Lemma remaining_on_key {K V} `{KeyOrd K} (c : C K V) k :
  on_key c k → remaining c = after k (keys_of (rs_of c)).
Proof. intros (b & Hp & _). unfold remaining. by rewrite Hp. Qed.

Lemma after_shrinks {K V} `{KeyOrdLaws K} (rs : list (K * VersionedValue V)) k k' :
  sorted_rows rs → k' ∈ after k (keys_of rs) →
  (length (after k' (keys_of rs)) < length (after k (keys_of rs)))%nat.
Proof.
  intros Hs%keys_sorted Hk'. unfold after in *. revert Hk'. generalize (keys_of rs).
  intros l. rewrite list_elem_of_In, filter_In, bool_decide_eq_true. intros [Hin Hlt].
  rewrite <- list_elem_of_In in Hin. induction l as [|x l IH]; [by apply elem_of_nil in Hin|].
  cbn. assert (Hmono : (length (List.filter (λ k2, bool_decide (key_lt k' k2)) l)
                       ≤ length (List.filter (λ k2, bool_decide (key_lt k k2)) l))%nat).
  { clear IH Hin. induction l as [|y l IH]; cbn; [done|].
    destruct (bool_decide_reflect (key_lt k' y)).
    - rewrite bool_decide_true by by etrans. cbn. lia.
    - case_bool_decide; cbn; lia. }
  apply elem_of_cons in Hin as [<-|Hin].
  - rewrite bool_decide_false by apply (irreflexivity key_lt). rewrite bool_decide_true by done.
    cbn. lia.
  - specialize (IH Hin). destruct (bool_decide_reflect (key_lt k' x)).
    + rewrite bool_decide_true by by etrans. cbn. lia.
    + case_bool_decide; cbn; lia.
Qed.

Lemma bound_found_after c k v rest : on_key c (a, k) → ∀ ks,
  bound_entries a (live_among n (rs_of c) ks) = (k, v) :: rest → (a, k) ∈ ks.
Proof.
  intros Hk ks He. assert (Hin : (k, v) ∈ bound_entries a (live_among n (rs_of c) ks)).
  { rewrite He. left. }
  unfold bound_entries in Hin. apply list_elem_of_omap in Hin as ([[a' k'] v'] & Hin & Hb).
  cbn in Hb. destruct (Z.eqb_spec a' a); simplify_eq. by apply live_among_key in Hin.
Qed.

Lemma storage_next_loop_spec fuel c : wf_rows (rs_of c) → (∃ k, on_key c (a, k)) →
  (length (keys_of (rs_of c)) + length (remaining c) < fuel)%nat →
  returns (storage_next_loop n a fuel c) (λ '(c', o),
    storage_scanned (rs_of c) c' o (nonzero (bound_remaining n a c))).
Proof.
  revert c. induction fuel as [|fuel IH]; intros c Hwf Hk Hfuel; [lia|].
  cbn [storage_next_loop]. eapply returns_bind; [apply bound_next_spec; [done..|lia]|].
  intros [c' o] [Hrs Ho]. destruct (bound_to a o) as [[k v]|].
  2:{ apply returns_Ok. split; [done|]. by rewrite Ho. }
  destruct Ho as [Hk' He]. rewrite He. unfold nonzero at 1. cbn [List.filter snd].
  destruct (Z.eqb_spec v 0) as [->|Hv]; cbn [negb]; [|by apply returns_Ok].
  destruct Hk as [k0 Hk]. unfold bound_remaining in He.
  assert (Hin : (a, k) ∈ remaining c).
  { rewrite <- Hrs in He. by eapply bound_found_after. }
  rewrite (remaining_on_key _ _ Hk) in *.
  pose proof (after_shrinks _ _ _ (proj1 Hwf) Hin) as Hlen. rewrite <- Hrs in *.
  eapply returns_mono; [apply IH; [done|by exists k|]|].
  - rewrite (remaining_on_key _ _ Hk'). lia.
  - intros [c2 o2]. unfold bound_remaining. by rewrite (remaining_on_key _ _ Hk').
Qed.

Lemma storage_seek_spec fuel k c : wf_rows (rs_of c) →
  (2 * length (keys_of (rs_of c)) < fuel)%nat →
  returns (storage_seek n a fuel k c) (λ '(c', o),
    storage_scanned (rs_of c) c' o
      (nonzero (bound_entries a (live_among n (rs_of c) (from (a, k) (keys_of (rs_of c))))))).
Proof.
  intros Hwf Hfuel. destruct fuel as [|fuel]; [lia|]. cbn [storage_seek].
  eapply returns_bind; [apply cursor_seek_spec; [done|lia]|].
  intros [c' o] Hsc. eapply bound_scan in Hsc as [Hrs Ho]; [|apply from_address].
  destruct (bound_to a o) as [[k' v]|].
  2:{ apply returns_Ok. split; [done|]. by rewrite Ho. }
  destruct Ho as [Hk' He]. rewrite He. unfold nonzero at 1. cbn [List.filter snd].
  destruct (Z.eqb_spec v 0) as [->|Hv]; cbn [negb]; [|by apply returns_Ok].
  rewrite <- Hrs in *.
  eapply returns_bind; [by apply returns_Some, (is_positioned_spec a); [|right; exists k']|].
  intros p ->. rewrite bool_decide_true by (destruct Hk' as (? & -> & _); done). cbn [negb].
  eapply returns_mono; [apply storage_next_loop_spec; [done|by exists k'|]|].
  - unfold remaining. destruct Hk' as (? & -> & _). unfold after.
    pose proof (filter_length_le (λ k2, bool_decide (key_lt (a, k') k2)) (keys_of (rs_of c'))). lia.
  - intros [c2 o2]. unfold bound_remaining. by rewrite (remaining_on_key _ _ Hk').
Qed.

Lemma storage_next_spec fuel c : wf_rows (rs_of c) → bound_placed a c →
  (2 * length (keys_of (rs_of c)) < fuel)%nat →
  returns (storage_next n a fuel c) (λ '(c', o),
    storage_scanned (rs_of c) c' o (nonzero (bound_remaining n a c))).
Proof.
  intros Hwf Hpl Hfuel. unfold storage_next.
  eapply returns_bind; [by apply returns_Some, (is_positioned_spec a)|]. intros p ->.
  case_bool_decide as Hp; cbn [negb].
  - destruct Hpl as [?|Hk]; [done|]. apply storage_next_loop_spec; [done..|].
    destruct Hk as [k Hk]. rewrite (remaining_on_key _ _ Hk). unfold after.
    pose proof (filter_length_le (λ k2, bool_decide (key_lt (a, k) k2)) (keys_of (rs_of c))). lia.
  - unfold bound_remaining, remaining. rewrite Hp.
    rewrite <- bound_from_default by by apply keys_key_ok. by apply (storage_seek_spec fuel 0).
Qed.
End Storage.
End CursorLemmas.

(** *** Whole iterations *)

Section Drain.
Context {Tb C : Type → Type → Type} {E : Type} `{DupDbLaws Tb C E}.

Lemma drain_spec {Cur A} (next : Cur → option (result (Cur * option A) E)) (I : Cur → list A → Prop) :
  (∀ c l, I c l → returns (next c) (λ '(c', o),
    match o with Some x => ∃ l', l = x :: l' ∧ I c' l' | None => l = [] end)) →
  ∀ fuel c l, I c l → (length l < fuel)%nat → returns (drain next fuel c) (λ es, es = l).
Proof.
  intros Hnext. induction fuel as [|fuel IH]; intros c l HI Hfuel; [lia|]. cbn [drain].
  eapply returns_bind; [by apply Hnext|]. intros [c' [x|]].
  - intros (l' & -> & HI'). cbn in Hfuel.
    eapply returns_bind; [apply (IH c' l' HI'); lia|]. intros es ->. by apply returns_Ok.
  - intros ->. by apply returns_Ok.
Qed.

Lemma live_among_length {K V} `{KeyOrd K} n (rs : list (K * VersionedValue V)) ks :
  (length (live_among n rs ks) ≤ length ks)%nat.
Proof. unfold live_among. induction ks as [|k ks IH]; cbn; [done|]. destruct (view rs n k); cbn; lia. Qed.

Lemma live_entries_spec {K V} `{KeyOrdLaws K} (rs : list (K * VersionedValue V)) n :
  sorted_rows rs →
  StronglySorted key_lt (map fst (live_entries rs n))
  ∧ ∀ k v, (k, v) ∈ live_entries rs n ↔ view rs n k = Some v.
Proof.
  intros Hs. split.
  - unfold live_entries. pose proof (keys_sorted _ Hs) as Hk. revert Hk. generalize (keys_of rs).
    induction 1 as [|k l Hl IH Hk]; [constructor|]. cbn. destruct (view rs n k); [|done]. cbn.
    constructor; [done|]. rewrite Forall_forall in Hk. rewrite Forall_forall. intros k' Hk'.
    apply list_elem_of_fmap in Hk' as ([k2 v2] & -> & Hin).
    apply list_elem_of_omap in Hin as (k3 & Hk3 & He). apply Hk.
    destruct (view rs n k3); cbn in He; by simplify_eq.
  - intros k v. unfold live_entries. rewrite list_elem_of_omap. split.
    + intros (k' & _ & He). destruct (view rs n k') eqn:Hv; cbn in He; by simplify_eq.
    + intros Hv. exists k. rewrite Hv. split; [|done]. apply elem_of_keys.
      unfold view in Hv. destruct (version_at rs n k) as [vv|] eqn:Hvv; [|done].
      apply version_at_Some in Hvv as [Hr _]; [|done]. by exists vv.
Qed.

Context (n : Z) (fuel : nat).

Lemma drain_cursor_spec {K V} `{KeyOrdLaws K} (c : C K V) :
  wf_rows (rows (table_of c)) → position c = None →
  (length (keys_of (rows (table_of c))) < fuel)%nat →
  returns (drain (cursor_next n fuel) fuel c) (λ es, es = live_entries (rows (table_of c)) n).
Proof.
  intros Hwf Hp Hfuel. set (rs := rows (table_of c)) in *.
  apply (drain_spec _ (λ c' l, rows (table_of c') = rs ∧ placed c' ∧ l = live_among n rs (remaining c'))).
  - intros c' l (Hrs & Hpl & ->).
    eapply returns_mono; [apply cursor_next_spec; rewrite ?Hrs; [done..|lia]|].
    intros [c2 [[k v]|]] [Hrs2 Ho]; rewrite Hrs in *; [|done]. destruct Ho as [Hk He].
    eexists. split; [exact He|]. split_and!; [done|right; by exists k|].
    by rewrite (remaining_on_key _ _ Hk), Hrs2.
  - split_and!; [done|by left|]. unfold remaining. by rewrite Hp.
  - eapply Nat.le_lt_trans; [apply live_among_length|done].
Qed.

Lemma bound_entries_length {K2 V} a (l : list (Z * K2 * V)) : (length (bound_entries a l) ≤ length l)%nat.
Proof.
  unfold bound_entries. induction l as [|[[a' k] v] l IH]; cbn in *; [done|].
  destruct (a' =? a); cbn; lia.
Qed.

Lemma drain_trie_spec {K2 V} `{KeyOrdLaws K2} a (c : C (Z * K2) V) :
  wf_rows (rows (table_of c)) → position c = None →
  (length (keys_of (rows (table_of c))) < fuel)%nat →
  returns (drain (trie_next n a fuel) fuel c)
    (λ es, es = bound_entries a (live_entries (rows (table_of c)) n)).
Proof.
  intros Hwf Hp Hfuel. set (rs := rows (table_of c)) in *.
  apply (drain_spec _ (λ c' l, rows (table_of c') = rs ∧ bound_placed a c'
                               ∧ l = bound_entries a (live_among n rs (remaining c')))).
  - intros c' l (Hrs & Hpl & ->).
    eapply returns_mono; [apply trie_next_spec; rewrite ?Hrs; [done..|lia]|].
    unfold bound_remaining. intros [c2 [[k v]|]] [Hrs2 Ho]; rewrite Hrs in *; [|done].
    destruct Ho as [Hk He]. eexists. split; [exact He|]. split_and!; [done|right; by exists k|].
    by rewrite (remaining_on_key _ _ Hk), Hrs2.
  - split_and!; [done|by left|]. unfold remaining. by rewrite Hp.
  - eapply Nat.le_lt_trans; [apply bound_entries_length|].
    eapply Nat.le_lt_trans; [apply live_among_length|done].
Qed.

Lemma drain_storage_spec a (c : C (Z * Z) Z) :
  wf_rows (rows (table_of c)) → position c = None →
  (2 * length (keys_of (rows (table_of c))) < fuel)%nat →
  returns (drain (storage_next n a fuel) fuel c)
    (λ es, es = nonzero (bound_entries a (live_entries (rows (table_of c)) n))).
Proof.
  intros Hwf Hp Hfuel. set (rs := rows (table_of c)) in *.
  apply (drain_spec _ (λ c' l, rows (table_of c') = rs ∧ bound_placed a c'
                               ∧ l = nonzero (bound_entries a (live_among n rs (remaining c'))))).
  - intros c' l (Hrs & Hpl & ->).
    eapply returns_mono; [apply storage_next_spec; rewrite ?Hrs; [done..|lia]|].
    unfold bound_remaining. intros [c2 [[k v]|]] [Hrs2 Ho]; rewrite Hrs in *; [|done].
    destruct Ho as [Hk He]. eexists. split; [exact He|]. split_and!; [done|right; by exists k|].
    by rewrite (remaining_on_key _ _ Hk), Hrs2.
  - split_and!; [done|by left|]. unfold remaining. by rewrite Hp.
  - eapply Nat.le_lt_trans; [apply filter_length_le|].
    eapply Nat.le_lt_trans; [apply bound_entries_length|].
    eapply Nat.le_lt_trans; [apply live_among_length|lia].
Qed.
End Drain.

(** ** Tables as sorted lists *)

Module ListDb.
Record cursor (K V : Type) := { tbl : list (K * VersionedValue V); at_row : option (K * Z) }.
Arguments tbl {K V}.
Arguments at_row {K V}.
Definition table (K V : Type) : Type := list (K * VersionedValue V).

Section Operations.
Context {K V : Type} `{KeyOrd K}.
Implicit Types (c : cursor K V).

(** Moves to a row, when there is one. *)
Definition moved c (o : option (K * VersionedValue V)) : cursor K V :=
  match o with Some r => {| tbl := tbl c; at_row := Some (row_key r) |} | None => c end.
Definition find c p := let o := first_row p (tbl c) in (moved c o, o).
Definition find_last c p := let o := last_row p (tbl c) in (moved c o, o).
Definition cur_key c (p : K → Z → cursor K V * option (K * VersionedValue V)) :=
  match at_row c with Some (k, b) => p k b | None => (c, None) end.

Fixpoint ins_row (r : K * VersionedValue V) (l : table K V) : table K V :=
  match l with
  | [] => [r]
  | x :: l' => if bool_decide (key_lt (row_key r) (row_key x)) then r :: l else x :: ins_row r l'
  end.
Definition put (k : K) v c : cursor K V :=
  {| tbl := ins_row (k, v) (tbl c); at_row := Some (row_key (k, v)) |}.
Definition remove c : cursor K V :=
  {| tbl := List.filter (λ r, negb (bool_decide (Some (row_key r) = at_row c))) (tbl c);
     at_row := at_row c |}.
End Operations.

Definition values {K V} (x : cursor K V * option (K * VersionedValue V)) :=
  (x.1, snd <$> x.2).

#[global] Instance db E : DupDb table cursor E := {
  open_cursor K V _ t := Ok {| tbl := t; at_row := None |};
  table_of K V c := tbl c;
  c_current K V _ c :=
    Ok (at_row c ≫= λ p, first_row (λ r, bool_decide (row_key r = p)) (tbl c));
  c_seek K V _ k c := Ok (find c (λ r, negb (bool_decide (key_lt r.1 k))));
  c_seek_exact K V _ k c := Ok (find c (of_key k (λ _, true)));
  c_seek_by_key_subkey K V _ k b c := Ok (values (find c (of_key k (λ n, b <=? n))));
  c_prev_dup K V _ c := Ok (cur_key c (λ k b, find_last c (of_key k (λ n, n <? b))));
  c_last_dup K V _ c := Ok (values (cur_key c (λ k b, find_last c (of_key k (λ _, true)))));
  c_next_dup_val K V _ c := Ok (values (cur_key c (λ k b, find c (of_key k (λ n, b <? n)))));
  c_next_no_dup K V _ c := Ok (cur_key c (λ k b, find c (λ r, bool_decide (key_lt k r.1))));
  c_append_dup K V _ k v c := Ok (put k v c);
  c_upsert K V _ k v c := Ok (put k v c);
  c_delete_current K V _ c := Ok (remove c);
  c_last K V _ t := Ok (last t);
}.

Section Laws.
Context {K V : Type} `{KeyOrdLaws K}.

Lemma elem_of_ins_row (r x : K * VersionedValue V) l : x ∈ ins_row r l ↔ x = r ∨ x ∈ l.
Proof.
  induction l as [|y l IH]; cbn; [by rewrite elem_of_cons|].
  case_bool_decide; rewrite !elem_of_cons; [done|]. rewrite IH. tauto.
Qed.

Lemma ins_row_wf r (l : table K V) : wf_rows l → key_ok r.1 → 0 ≤ block_number r.2 →
  (∀ x, x ∈ l → row_key x ≠ row_key r) → wf_rows (ins_row r l).
Proof.
  intros [Hs Hok] Hk Hb Hne. split.
  2:{ rewrite Forall_forall in Hok |- *. by intros x [->|?]%elem_of_ins_row; [|apply Hok]. }
  rewrite sorted_rows_alt in Hs |- *. clear Hok.
  induction Hs as [|x l Hs IH Hx]; cbn [ins_row]; [repeat constructor|]. rewrite Forall_forall in Hx.
  case_bool_decide as Hl.
  - constructor; [constructor; [done|by rewrite Forall_forall]|]. rewrite Forall_forall.
    intros y [->|Hy]%elem_of_cons; [done|].
    etrans; [done|by apply Hx].
  - constructor; [apply IH; intros y Hy; apply Hne; by right|]. rewrite Forall_forall.
    intros y [->|Hy]%elem_of_ins_row; [|by apply Hx].
    destruct (key_lt_total (row_key x) (row_key r)) as [?|[He|?]]; [done| |done].
    by destruct (Hne x (list_elem_of_here _ _)).
Qed.

Lemma put_spec k v (c : cursor K V) : wf_rows (tbl c) → key_ok k → 0 ≤ block_number v →
  (∀ v', (k, v') ∈ tbl c → block_number v' ≠ block_number v) →
  wf_rows (tbl (put k v c)) ∧ ∀ r, r ∈ tbl (put k v c) ↔ r = (k, v) ∨ r ∈ tbl c.
Proof.
  intros Hwf Hk Hb Hv. split; [|intros r; exact (elem_of_ins_row (k, v) r (tbl c))]. apply ins_row_wf; [done..|].
  intros [k' v'] Hr [= -> He]. by apply (Hv v').
Qed.

Lemma remove_spec (c : cursor K V) p : wf_rows (tbl c) → at_row c = Some p →
  wf_rows (tbl (remove c)) ∧ ∀ r, r ∈ tbl (remove c) ↔ r ∈ tbl c ∧ row_key r ≠ p.
Proof.
  intros [Hs Hok] Hp.
  assert (He : ∀ r, r ∈ tbl (remove c) ↔ r ∈ tbl c ∧ row_key r ≠ p).
  { intros r. unfold remove. cbn [tbl]. rewrite elem_of_filter_rows, Hp, negb_true_iff.
    rewrite bool_decide_eq_false. split; intros [? Hn]; (split; [done|]); intros He; apply Hn.
    - by rewrite He.
    - by injection He. }
  split; [|done]. split.
  - rewrite sorted_rows_alt in Hs |- *. by apply filter_sorted.
  - rewrite Forall_forall in Hok |- *. intros r [Hr _]%He. by apply Hok.
Qed.

Lemma values_found k (c : cursor K V) (p : Z → bool) :
  let '(c', o) := values (find c (of_key k p)) in
  tbl c' = tbl c ∧ o = snd <$> first_row (of_key k p) (tbl c)
  ∧ at_row c' = from_option (λ v, Some (k, block_number v)) (at_row c) o.
Proof.
  cbn. destruct (first_row _ _) as [r|] eqn:Hf; [|done]. cbn.
  split_and!; [done..|]. by destruct (first_row_of_key _ _ _ _ Hf) as [_ <-].
Qed.

Lemma values_found_last k (c : cursor K V) (p : Z → bool) :
  let '(c', o) := values (find_last c (of_key k p)) in
  tbl c' = tbl c ∧ o = snd <$> last_row (of_key k p) (tbl c)
  ∧ at_row c' = from_option (λ v, Some (k, block_number v)) (at_row c) o.
Proof.
  cbn. destruct (last_row _ _) as [r|] eqn:Hf; [|done]. cbn.
  split_and!; [done..|]. by destruct (last_row_of_key _ _ _ _ Hf) as [_ <-].
Qed.
End Laws.

#[global] Instance db_laws E : DupDbLaws table cursor E.
Proof.
  refine {| rows K V t := t; position K V c := at_row c |}; cbn.
  - done.
  - done.
  - intros. by destruct (first_row _ _).
  - intros. by destruct (first_row _ _).
  - intros K V ? ? k b c Hwf. destruct (values_found k c (λ n, b <=? n)) as (Ht & Ho & Hp).
    cbn in *. revert Hp. by destruct (first_row _ _).
  - intros K V ? ? k b c Hwf Hp. unfold cur_key. rewrite Hp.
    cbn. split_and!; [by destruct (last_row _ _)|done|]. by destruct (last_row _ _).
  - intros K V ? ? k b c Hwf Hp. unfold cur_key. rewrite Hp.
    pose proof (values_found_last k c (λ _, true)) as Hv. cbn in *. rewrite Hp in Hv. done.
  - intros K V ? ? k b c Hwf Hp. unfold cur_key. rewrite Hp.
    pose proof (values_found k c (λ n, b <? n)) as Hv. cbn in *. rewrite Hp in Hv. done.
  - intros K V ? ? k b c Hwf Hp. unfold cur_key. rewrite Hp. cbn. by destruct (first_row _ _).
  - intros K V ? ? k v c Hwf Hk Hb Hv. apply put_spec; [done..|]. intros v' Hr. specialize (Hv _ Hr). lia.
  - intros K V ? ? k v c Hwf Hk Hb Hv. by apply put_spec.
  - intros K V ? ? p c Hwf Hp _. destruct (remove_spec c p Hwf Hp). done.
  - done.
Defined.
End ListDb.

(** ** The readers see the state of their block *)

Section Readers.
Context {K2 V : Type} `{KeyOrdLaws K2} (a : Z).

Lemma elem_of_bound (l : list (Z * K2 * V)) k v : (k, v) ∈ bound_entries a l ↔ (a, k, v) ∈ l.
Proof.
  unfold bound_entries. rewrite list_elem_of_omap. split.
  - intros ([[a' k'] v'] & Hin & He). cbn in He. destruct (Z.eqb_spec a' a); by simplify_eq.
  - intros Hin. exists (a, k, v). cbn. by rewrite Z.eqb_refl.
Qed.

Lemma bound_sorted (l : list (Z * K2 * V)) :
  StronglySorted key_lt (map fst l) → StronglySorted key_lt (map fst (bound_entries a l)).
Proof.
  unfold bound_entries. induction l as [|[[a' k] v] l IH]; [constructor|]. cbn [map omap list_omap].
  intros [Hs Hl]%StronglySorted_inv. cbn. destruct (Z.eqb_spec a' a) as [->|]; [|by apply IH].
  cbn. constructor; [by apply IH|]. rewrite Forall_forall in Hl. rewrite Forall_forall.
  intros k' Hk'. apply list_elem_of_fmap in Hk' as ([k2 v2] & -> & Hin).
  change ((k2, v2) ∈ bound_entries a l) in Hin. rewrite elem_of_bound in Hin.
  destruct (Hl (a, k2)) as [Hlt|[_ Hlt]]; [|cbn in Hlt; lia|done].
  apply list_elem_of_fmap. by exists (a, k2, v2).
Qed.
End Readers.

Lemma nonzero_sorted l :
  StronglySorted key_lt (map fst l) → StronglySorted key_lt (map fst (nonzero l)).
Proof.
  unfold nonzero. induction l as [|[k v] l IH]; [done|]. cbn [map List.filter].
  intros [Hs Hl]%StronglySorted_inv. destruct (negb _); [|by apply IH]. cbn.
  constructor; [by apply IH|]. rewrite Forall_forall in Hl |- *. intros k' Hk'. apply Hl.
  apply list_elem_of_fmap in Hk' as (e & -> & Hin). apply list_elem_of_fmap. exists e.
  split; [done|]. rewrite list_elem_of_In, filter_In, <- list_elem_of_In in Hin. by destruct Hin.
Qed.

Lemma elem_of_nonzero l k v : (k, v) ∈ nonzero l ↔ (k, v) ∈ l ∧ v ≠ 0.
Proof.
  unfold nonzero. rewrite !list_elem_of_In, filter_In, negb_true_iff. cbn. by rewrite Z.eqb_neq.
Qed.

(** Whole iterations of fresh cursors. *)
Section FreshCursors.
Context {Tb C : Type → Type → Type} {E : Type} `{DupDbLaws Tb C E} (n : Z) (fuel : nat).

Lemma read_all {K V} `{KeyOrdLaws K} (t : Tb K V) : wf_rows (rows t) →
  (length (keys_of (rows t)) < fuel)%nat →
  returns (let! c := Some (open_cursor t) in drain (cursor_next n fuel) fuel c) (λ es,
    StronglySorted key_lt (map fst es) ∧ ∀ k v, (k, v) ∈ es ↔ view (rows t) n k = Some v).
Proof.
  intros Ht Hf. eapply returns_bind; [apply returns_Some, law_open|]. intros c [Hc Hp].
  eapply returns_mono; [apply drain_cursor_spec; by rewrite ?Hc|]. intros es ->.
  rewrite Hc. apply live_entries_spec, Ht.
Qed.

Lemma read_trie {K V} `{KeyOrdLaws K} a (t : Tb (Z * K)%type V) : wf_rows (rows t) →
  (length (keys_of (rows t)) < fuel)%nat →
  returns (let! c := Some (open_cursor t) in drain (trie_next n a fuel) fuel c) (λ es,
    StronglySorted key_lt (map fst es) ∧ ∀ k v, (k, v) ∈ es ↔ view (rows t) n (a, k) = Some v).
Proof.
  intros Ht Hf. eapply returns_bind; [apply returns_Some, law_open|]. intros c [Hc Hp].
  eapply returns_mono; [apply drain_trie_spec; by rewrite ?Hc|]. intros es ->.
  rewrite Hc. destruct (live_entries_spec (rows t) n (proj1 Ht)) as [Hsort Hin].
  split; [by apply bound_sorted|]. intros k v. by rewrite elem_of_bound.
Qed.

Lemma read_storage a (t : Tb (Z * Z)%type Z) : wf_rows (rows t) →
  (2 * length (keys_of (rows t)) < fuel)%nat →
  returns (let! c := Some (open_cursor t) in drain (storage_next n a fuel) fuel c) (λ es,
    StronglySorted key_lt (map fst es)
    ∧ ∀ k v, (k, v) ∈ es ↔ view (rows t) n (a, k) = Some v ∧ v ≠ 0).
Proof.
  intros Ht Hf. eapply returns_bind; [apply returns_Some, law_open|]. intros c [Hc Hp].
  eapply returns_mono; [apply drain_storage_spec; by rewrite ?Hc|]. intros es ->.
  rewrite Hc. destruct (live_entries_spec (rows t) n (proj1 Ht)) as [Hsort Hin].
  split; [by apply nonzero_sorted, bound_sorted|]. intros k v.
  by rewrite elem_of_nonzero, elem_of_bound, Hin.
Qed.
End FreshCursors.
