(* ===== verification/HistoryWrites.v ===== *)
(** * Writers of the versioned tables

    Models the table-level writers of [crates/proofs/src/db/store.rs]
    ([persist_history_batch], [delete_dup_sorted], [prune_history_preceding],
    [wipe_and_overlay], [flatten_and_sort]) over the tables of [Versioned], and what
    each does to the rows and to the views that readers get. *)

From S2P Require Import Prelude.
From S2P Require Import Versioned.
From stdpp Require Import sorting.
#[local] Open Scope Z_scope.

(** ** The writers *)

Section Writers.
Context {Tb C : Type → Type → Type} {E : Type} `{DupDb Tb C E}.

Section OneTable.
Context {K V : Type} `{KeyOrd K}.

(** [IntoKV::into_kv]. *)
Definition into_kv (block_number : Z) (item : K * option V) : K * VersionedValue V :=
  (item.1, {| block_number := block_number; vvalue := item.2 |}).

Fixpoint append_all (pairs : list (K * VersionedValue V)) (cur : C K V) : result (C K V) E :=
  match pairs with
  | [] => Ok cur
  | (k, vv) :: pairs => let? cur := c_append_dup k vv cur in append_all pairs cur
  end.

Fixpoint delete_base (pairs : list (K * VersionedValue V)) (del_cur : C K V) : result (C K V) E :=
  match pairs with
  | [] => Ok del_cur
  | (k, _) :: pairs =>
      let? '(del_cur, o) := c_seek_by_key_subkey k 0 del_cur in
      let? del_cur :=
        match o with
        | Some vv => if block_number vv =? 0 then c_delete_current del_cur else Ok del_cur
        | None => Ok del_cur
        end in
      delete_base pairs del_cur
  end.

Fixpoint upsert_live (pairs : list (K * VersionedValue V)) (write_cur : C K V) : result (C K V) E :=
  match pairs with
  | [] => Ok write_cur
  | (k, vv) :: pairs =>
      let? write_cur :=
        if bool_decide (is_Some (vvalue vv)) then c_upsert k vv write_cur else Ok write_cur in
      upsert_live pairs write_cur
  end.

Definition persist_history_batch (block_number : Z) (items : list (K * option V))
    (append_mode : bool) (t : Tb K V) : result (Tb K V * list K) E :=
  let? cur := open_cursor t in
  let pairs := map (into_kv block_number) items in
  let keys := map fst pairs in
  if append_mode then
    let? cur := append_all pairs cur in
    Ok (table_of cur, keys)
  else
    let? del_cur := open_cursor (table_of cur) in
    let? del_cur := delete_base pairs del_cur in
    let? write_cur := open_cursor (table_of del_cur) in
    let? write_cur := upsert_live pairs write_cur in
    Ok (table_of write_cur, keys).

Fixpoint delete_items (items : list (K * Z)) (cur : C K V) : result (C K V) E :=
  match items with
  | [] => Ok cur
  | (key, subkey) :: items =>
      let? '(cur, o) := c_seek_by_key_subkey key subkey cur in
      let? cur :=
        match o with
        | Some vv => if block_number vv =? subkey then c_delete_current cur else Ok cur
        | None => Ok cur
        end in
      delete_items items cur
  end.

Definition delete_dup_sorted (items : list (K * Z)) (t : Tb K V) : result (Tb K V) E :=
  let? cur := open_cursor t in
  let? cur := delete_items items cur in
  Ok (table_of cur).

(** The inner loop of [prune_history_preceding], at [entry] of one key. *)
Fixpoint prune_key (fuel : nat) (survivor_block : Z) (entry : VersionedValue V)
    (deleted_count : Z) (cur : C K V) : option (result (C K V * Z) E) :=
  match fuel with
  | O => None
  | S fuel =>
      if survivor_block <=? block_number entry then
        if (block_number entry =? survivor_block) && bool_decide (vvalue entry = None) then
          let! cur := Some (c_delete_current cur) in
          Some (Ok (cur, deleted_count + 1))
        else Some (Ok (cur, deleted_count))
      else
        let! cur := Some (c_delete_current cur) in
        let! '(cur, o) := Some (c_next_dup_val cur) in
        match o with
        | Some next_entry => prune_key fuel survivor_block next_entry (deleted_count + 1) cur
        | None => Some (Ok (cur, deleted_count + 1))
        end
  end.

Fixpoint prune_keys (fuel : nat) (cutoff_items : list (K * Z)) (deleted_count : Z) (cur : C K V)
  : option (result (C K V * Z) E) :=
  match cutoff_items with
  | [] => Some (Ok (cur, deleted_count))
  | (key, survivor_block) :: items =>
      let! '(cur, o) := Some (c_seek_by_key_subkey key 0 cur) in
      match o with
      | None => prune_keys fuel items deleted_count cur
      | Some entry =>
          let! '(cur, deleted_count) := prune_key fuel survivor_block entry deleted_count cur in
          prune_keys fuel items deleted_count cur
      end
  end.

Definition prune_history_preceding (fuel : nat) (cutoff_items : list (K * Z)) (t : Tb K V)
  : option (result (Tb K V * Z) E) :=
  match cutoff_items with
  | [] => Some (Ok (t, 0))
  | _ =>
      let! cur := Some (open_cursor t) in
      let! '(cur, deleted_count) := prune_keys fuel cutoff_items 0 cur in
      Some (Ok (table_of cur, deleted_count))
  end.
End OneTable.

(** [BTreeMap::insert] on the sorted entries of the map. *)
Fixpoint btree_insert {K A} `{KeyOrd K} (k : K) (a : A) (m : list (K * A)) : list (K * A) :=
  match m with
  | [] => [(k, a)]
  | (k', a') :: m' =>
      if bool_decide (key_lt k k') then (k, a) :: m
      else if bool_decide (k = k') then (k, a) :: m'
      else (k', a') :: btree_insert k a m'
  end.

Definition wipe_and_overlay {Cur K VV V} `{KeyOrd K} (fuel : nat) (block_number hashed_address : Z)
    (next : Cur → option (result (Cur * option (K * VV)) E)) (ro : Cur)
    (new_entries : list (K * option V)) (t : Tb (Z * K) V)
  : option (result (Tb (Z * K) V * list (Z * K)) E) :=
  let! wiped := drain next fuel ro in
  let merged := foldl (λ m '(k, _vv), btree_insert k None m) [] wiped in
  let merged := foldl (λ m '(k, v), btree_insert k v m) merged new_entries in
  let! cur := Some (open_cursor t) in
  let pairs := map (λ '(k, value), into_kv block_number ((hashed_address, k), value)) merged in
  let! cur := Some (append_all pairs cur) in
  Some (Ok (table_of cur, map fst pairs)).
End Writers.

(** [HashMap::entry(k).or_insert(block)] for the keys of a change set; the order of the
    entries is the map's own. *)
Fixpoint or_insert_all {K} `{EqDecision K} (keys : list K) (b : Z) (m : list (K * Z)) : list (K * Z) :=
  match keys with
  | [] => m
  | k :: keys =>
      or_insert_all keys b (if bool_decide (k ∈ map fst m) then m else m ++ [(k, b)])
  end.

(** Sorting by key. *)
Definition key_le {K A} `{KeyOrd K} : relation (K * A) := λ p q, ¬ key_lt q.1 p.1.
#[global] Instance key_le_dec {K A} `{KeyOrd K} : RelDecision (key_le (K := K) (A := A)).
Proof. intros p q. unfold key_le. apply _. Defined.
Definition flatten_and_sort {K} `{KeyOrd K} (m : list (K * Z)) : list (K * Z) := merge_sort key_le m.

(** ** What they do to the rows *)

Section RowSets.
Context {K V : Type} `{KeyOrdLaws K}.
Implicit Types (rs : list (K * VersionedValue V)).

Lemma wf_NoDup rs : wf_rows rs → NoDup rs.
Proof.
  intros [Hs _]. rewrite sorted_rows_alt in Hs. induction Hs as [|r rs Hs IH Hr]; constructor; [|done].
  intros Hin. rewrite Forall_forall in Hr. by destruct (irreflexivity key_lt _ (Hr _ Hin)).
Qed.

Lemma wf_row rs k v : wf_rows rs → (k, v) ∈ rs → key_ok k ∧ 0 ≤ block_number v.
Proof. intros [_ Hok] Hr. rewrite Forall_forall in Hok. by apply (Hok _ Hr). Qed.

Lemma same_version rs k v1 v2 : wf_rows rs → (k, v1) ∈ rs → (k, v2) ∈ rs →
  block_number v1 = block_number v2 → v1 = v2.
Proof.
  intros [Hs _] H1 H2 Hb. assert ((k, v1) = (k, v2)) as [= ->]; [|done].
  apply (sorted_rows_functional rs); [done..|]. unfold row_key. cbn. by f_equal.
Qed.

(** One row fewer. *)
Lemma removed_length rs rs' r : wf_rows rs → wf_rows rs' → r ∈ rs →
  (∀ x, x ∈ rs' ↔ x ∈ rs ∧ row_key x ≠ row_key r) → length rs = S (length rs').
Proof.
  intros Hwf Hwf' Hr He. change (S (length rs')) with (length (r :: rs')).
  apply Permutation_length, NoDup_Permutation; [by apply wf_NoDup| |].
  - constructor; [|by apply wf_NoDup]. intros [_ Hn]%He. done.
  - intros x. rewrite elem_of_cons, He. split.
    + intros Hx. destruct (decide (row_key x = row_key r)) as [Hk|]; [left|by right].
      by apply (sorted_rows_functional rs); [apply Hwf|..].
    + by intros [->|[? _]].
Qed.

(** [rs'] adds the versions [items] of block [b] to [rs]. *)
Definition added (b : Z) (items : list (K * option V)) rs rs' : Prop :=
  ∀ r, r ∈ rs' ↔ r ∈ rs ∨ r ∈ map (into_kv b) items.

Lemma elem_of_into_kv b (items : list (K * option V)) k (v : VersionedValue V) :
  (k, v) ∈ map (into_kv b) items ↔ block_number v = b ∧ (k, vvalue v) ∈ items.
Proof.
  rewrite list_elem_of_fmap. unfold into_kv. split.
  - by intros ([k' o] & [= -> ->] & Hin).
  - intros [<- Hin]. exists (k, vvalue v). split; [|done]. by destruct v.
Qed.
End RowSets.

Section WriterLemmas.
Context {Tb C : Type → Type → Type} {E : Type} `{DupDbLaws Tb C E}.
Context {K V : Type} `{KeyOrdLaws K}.
Implicit Types (c : C K V) (t : Tb K V) (rs : list (K * VersionedValue V)).
Abbreviation rs_of c := (rows (table_of c)).

Lemma append_all_spec b items c : wf_rows (rs_of c) → 0 ≤ b →
  NoDup (map fst items) → (∀ k, k ∈ map fst items → key_ok k) →
  (∀ k v, k ∈ map fst items → (k, v) ∈ rs_of c → block_number v < b) →
  outcome (append_all (map (into_kv b) items) c) (λ c',
    wf_rows (rs_of c') ∧ added b items (rs_of c) (rs_of c')).
Proof.
  intros Hwf Hb. revert c Hwf. induction items as [|[k o] items IH]; intros c Hwf Hnd Hok Hold; cbn.
  { split; [done|]. intros r. cbn. rewrite elem_of_nil. tauto. }
  apply NoDup_cons in Hnd as [Hk Hnd].
  eapply outcome_bind.
  { apply law_append_dup; [done|apply Hok; left|done|]. intros v' Hv'. apply (Hold k); [left|done]. }
  intros c1 [Hwf1 He1]. eapply outcome_mono; [apply IH; [done..| |]|].
  - intros k' Hk'. apply Hok. by right.
  - intros k' v' Hk' [[= -> _]|Hv']%He1; [done|]. apply (Hold k'); [by right|done].
  - intros c2 [Hwf2 He2]. split; [done|]. intros r. rewrite (He2 r), He1. cbn. rewrite elem_of_cons.
    unfold into_kv at 3. cbn. tauto.
Qed.

(** Appending a block's versions. *)
Lemma persist_append_spec b items t : wf_rows (rows t) → 0 ≤ b →
  NoDup (map fst items) → (∀ k, k ∈ map fst items → key_ok k) →
  (∀ k v, k ∈ map fst items → (k, v) ∈ rows t → block_number v < b) →
  outcome (persist_history_batch b items true t) (λ '(t', keys),
    wf_rows (rows t') ∧ added b items (rows t) (rows t') ∧ keys = map fst items).
Proof.
  intros Hwf Hb Hnd Hok Hold. unfold persist_history_batch.
  eapply outcome_bind; [apply law_open|]. intros c [Hc _].
  eapply outcome_bind; [apply append_all_spec; rewrite ?Hc; done|].
  intros c' [Hwf' He]. cbn. rewrite Hc in He. split_and!; [done..|]. by rewrite map_map.
Qed.

(** Deleting the row a cursor stands on. *)
Lemma delete_at_spec c k v : wf_rows (rs_of c) → (k, v) ∈ rs_of c →
  position c = Some (k, block_number v) →
  outcome (c_delete_current c) (λ c',
    wf_rows (rs_of c') ∧ position c' = Some (k, block_number v)
    ∧ (∀ r, r ∈ rs_of c' ↔ r ∈ rs_of c ∧ row_key r ≠ (k, block_number v))
    ∧ length (rs_of c) = S (length (rs_of c'))).
Proof.
  intros Hwf Hr Hp. eapply outcome_mono.
  - eapply law_delete_current; [done..|]. apply list_elem_of_fmap. by exists (k, v).
  - intros c' (Hwf' & Hp' & He). split_and!; [done..|].
    apply (removed_length _ _ (k, v)); [done..|]. exact He.
Qed.

(** A search for a version of a key finds one or shows there is none. *)
Lemma seek_version_spec k b c : wf_rows (rs_of c) →
  outcome (c_seek_by_key_subkey k b c) (λ '(c', o),
    table_of c' = table_of c ∧
    match o with
    | Some v => (k, v) ∈ rs_of c ∧ b ≤ block_number v ∧ position c' = Some (k, block_number v)
        ∧ ∀ v', (k, v') ∈ rs_of c → b ≤ block_number v' → block_number v ≤ block_number v'
    | None => ∀ v', (k, v') ∈ rs_of c → block_number v' < b
    end).
Proof.
  intros Hwf. eapply outcome_mono; [by apply law_seek_by_key_subkey|].
  intros [c' o] (Ht & -> & Hp). split; [done|].
  destruct (first_row _ _) as [[k' v]|] eqn:Hf; cbn in *.
  - apply first_row_Some in Hf as (Hr & [Hk Hb]%of_key_true & Hmin); [|apply Hwf]. cbn in *. subst k'.
    split_and!; [done|lia|done|]. intros v' Hr' Hb'.
    assert (Ho : of_key k (λ m, b <=? m) (k, v') = true) by (apply of_key_true; cbn; split; [done|lia]).
    destruct (Hmin _ Hr' Ho) as [[= ->]|Hl%row_key_lt]; lia.
  - intros v' Hr'. destruct (Z.lt_ge_cases (block_number v') b); [done|].
    pose proof (first_row_None _ _ Hf _ Hr') as Hn.
    assert (Ho : of_key k (λ m, b <=? m) (k, v') = true) by (apply of_key_true; cbn; split; [done|lia]).
    congruence.
Qed.

Lemma delete_items_spec items c : wf_rows (rs_of c) →
  outcome (delete_items items c) (λ c',
    wf_rows (rs_of c') ∧ ∀ r, r ∈ rs_of c' ↔ r ∈ rs_of c ∧ row_key r ∉ items).
Proof.
  revert c. induction items as [|[k b] items IH]; intros c Hwf; cbn [delete_items].
  { split; [done|]. intros r. rewrite elem_of_nil. tauto. }
  eapply outcome_bind; [by apply seek_version_spec|]. intros [c1 o] [Ht Ho].
  apply (outcome_bind _ _ (λ c2, wf_rows (rs_of c2)
    ∧ ∀ r, r ∈ rs_of c2 ↔ r ∈ rs_of c ∧ row_key r ≠ (k, b))).
  - rewrite <- Ht in *. destruct o as [v|].
    + destruct Ho as (Hr & Hb & Hp & Hmin). destruct (Z.eqb_spec (block_number v) b) as [<-|Hne].
      * eapply outcome_mono; [by apply delete_at_spec|]. intros c2 (? & _ & ? & _). done.
      * split; [done|]. intros [k' v']. split; [|by intros [? _]]. intros Hr'.
        split; [done|]. intros [= -> Hb']. specialize (Hmin _ Hr'). lia.
    + split; [done|]. intros [k' v']. split; [|by intros [? _]]. intros Hr'.
      split; [done|]. intros [= -> Hb']. specialize (Ho _ Hr'). lia.
  - intros c2 [Hwf2 He2]. eapply outcome_mono; [by apply IH|]. intros c3 [Hwf3 He3].
    split; [done|]. intros r. rewrite He3, He2, elem_of_cons. tauto.
Qed.

Lemma delete_dup_sorted_spec items t : wf_rows (rows t) →
  outcome (delete_dup_sorted items t) (λ t',
    wf_rows (rows t') ∧ ∀ r, r ∈ rows t' ↔ r ∈ rows t ∧ row_key r ∉ items).
Proof.
  intros Hwf. unfold delete_dup_sorted. eapply outcome_bind; [apply law_open|]. intros c [Hc _].
  eapply outcome_bind; [apply delete_items_spec; by rewrite Hc|]. rewrite Hc. by intros c'.
Qed.

(** What pruning removes of a key below its survivor. *)
Definition pruned (s : Z) (v : VersionedValue V) : Prop :=
  block_number v < s ∨ block_number v = s ∧ vvalue v = None.

(** A cursor moved within a key to its next version. *)
Lemma next_version_spec k b c : wf_rows (rs_of c) → position c = Some (k, b) →
  outcome (c_next_dup_val c) (λ '(c', o),
    table_of c' = table_of c ∧
    match o with
    | Some v => (k, v) ∈ rs_of c ∧ position c' = Some (k, block_number v)
        ∧ ∀ v', (k, v') ∈ rs_of c → b < block_number v' → block_number v ≤ block_number v'
    | None => ∀ v', (k, v') ∈ rs_of c → block_number v' ≤ b
    end).
Proof.
  intros Hwf Hp. eapply outcome_mono; [by apply law_next_dup_val|].
  intros [c' o] (Ht & -> & Hp'). split; [done|].
  destruct (first_row _ _) as [[k' v]|] eqn:Hf; cbn in *.
  - apply first_row_Some in Hf as (Hr & [Hk Hb]%of_key_true & Hmin); [|apply Hwf]. cbn in *. subst k'.
    split_and!; [done..|]. intros v' Hr' Hb'.
    assert (Ho : of_key k (λ m, b <? m) (k, v') = true) by (apply of_key_true; cbn; split; [done|lia]).
    destruct (Hmin _ Hr' Ho) as [[= ->]|Hl%row_key_lt]; lia.
  - intros v' Hr'. destruct (Z.le_gt_cases (block_number v') b); [done|].
    pose proof (first_row_None _ _ Hf _ Hr') as Hn.
    assert (Ho : of_key k (λ m, b <? m) (k, v') = true) by (apply of_key_true; cbn; split; [done|lia]).
    congruence.
Qed.

(** [rs'] is [rs] pruned at key [k], survivor [s]. *)
Definition key_pruned k s rs rs' : Prop := ∀ r, r ∈ rs' ↔ r ∈ rs ∧ ¬ (r.1 = k ∧ pruned s r.2).

Section PruneKey.
Context (k : K) (s : Z) (e : VersionedValue V) (rs : list (K * VersionedValue V)).
Hypothesis Hwf : wf_rows rs.
Hypothesis He : (k, e) ∈ rs.
Hypothesis Hmin : ∀ v, (k, v) ∈ rs → block_number e ≤ block_number v.

(** At the survivor or past it, only its tombstone goes. *)
Lemma pruned_at_survivor v : s ≤ block_number e → (k, v) ∈ rs → pruned s v →
  v = e ∧ block_number e = s ∧ vvalue e = None.
Proof.
  intros Hs Hv Hp. pose proof (Hmin _ Hv). destruct Hp as [?|[Hb Hn]]; [lia|].
  assert (v = e) as -> by (apply (same_version rs k); [done..|lia]). done.
Qed.

Lemma key_pruned_none : s ≤ block_number e → ¬ (block_number e = s ∧ vvalue e = None) →
  key_pruned k s rs rs.
Proof.
  intros Hs Hn [k' v]. cbn. split; [|by intros []]. intros Hr. split; [done|].
  intros [-> Hp]. apply Hn. by destruct (pruned_at_survivor v Hs Hr Hp) as [_ ?].
Qed.

Lemma key_pruned_last rs' : block_number e = s → vvalue e = None →
  (∀ r, r ∈ rs' ↔ r ∈ rs ∧ row_key r ≠ (k, block_number e)) → key_pruned k s rs rs'.
Proof.
  intros Hb Hn Hin [k' v]. rewrite Hin. cbn. split; intros [Hr Hne]; (split; [done|]).
  - intros [-> Hp]. destruct (pruned_at_survivor v) as [-> _]; [lia|done..].
  - intros [= -> Hbv]. apply Hne. split; [done|].
    assert (v = e) as -> by (by apply (same_version rs k)). by right.
Qed.

(** Below the survivor the version goes. *)
Lemma key_pruned_step rs1 rs' : block_number e < s →
  (∀ r, r ∈ rs1 ↔ r ∈ rs ∧ row_key r ≠ (k, block_number e)) →
  key_pruned k s rs1 rs' → key_pruned k s rs rs'.
Proof.
  intros Hs Hin Hp [k' v]. rewrite (Hp (k', v)), Hin. cbn. split; [tauto|].
  intros [Hr Hn]. split_and!; [done| |done]. intros [= -> Hb]. apply Hn. split; [done|]. left. lia.
Qed.

Lemma newer_left rs1 v : (∀ r, r ∈ rs1 ↔ r ∈ rs ∧ row_key r ≠ (k, block_number e)) →
  (k, v) ∈ rs1 → block_number e < block_number v.
Proof.
  intros Hin [Hv Hne]%Hin. pose proof (Hmin _ Hv).
  destruct (Z.eq_dec (block_number v) (block_number e)) as [Heq|]; [|lia].
  destruct Hne. unfold row_key. cbn. by f_equal.
Qed.
End PruneKey.

Lemma prune_key_spec fuel s k e d c : wf_rows (rs_of c) → (k, e) ∈ rs_of c →
  position c = Some (k, block_number e) →
  (∀ v, (k, v) ∈ rs_of c → block_number e ≤ block_number v) →
  (length (rs_of c) < fuel)%nat →
  returns (prune_key fuel s e d c) (λ '(c', d'),
    wf_rows (rs_of c') ∧ key_pruned k s (rs_of c) (rs_of c')
    ∧ Z.of_nat (length (rs_of c)) + d = Z.of_nat (length (rs_of c')) + d').
Proof.
  revert e d c. induction fuel as [|fuel IH]; intros e d c Hwf Hr Hp Hmin Hfuel; [lia|].
  cbn [prune_key]. destruct (Z.leb_spec s (block_number e)) as [Hs|Hs].
  - destruct (_ && _) eqn:Hlast; bool_simp.
    + destruct Hlast as [Hb Hv]. eapply returns_bind; [by apply returns_Some, delete_at_spec|].
      intros c' (Hwf' & _ & Hin & Hlen). apply returns_Ok. split_and!; [done| |lia].
      by apply (key_pruned_last k s e).
    + apply returns_Ok. split_and!; [done| |lia]. apply (key_pruned_none k s e); [done..|].
      intros [Hb Hv]. destruct Hlast; done.
  - eapply returns_bind; [by apply returns_Some, delete_at_spec|].
    intros c1 (Hwf1 & Hp1 & Hin1 & Hlen1).
    eapply returns_bind; [by apply returns_Some, next_version_spec|]. intros [c2 o] [Ht2 Ho].
    rewrite <- Ht2 in *. destruct o as [e'|].
    + destruct Ho as (Hr' & Hp2 & Hmin'). eapply returns_mono; [apply IH; [done..| |lia]|].
      * intros v Hv. apply Hmin'; [done|]. by apply (newer_left k e (rs_of c) Hmin (rs_of c2)).
      * intros [c3 d3] (Hwf3 & Hin3 & Hlen3). split_and!; [done| |lia].
        by apply (key_pruned_step k s e _ (rs_of c2)).
    + apply returns_Ok. split_and!; [done| |lia].
      apply (key_pruned_step k s e _ (rs_of c2)); [done..|]. intros [k' v']. cbn.
      split; [|by intros []]. intros Hr'. split; [done|]. intros [-> _].
      pose proof (newer_left k e (rs_of c) Hmin (rs_of c2) v' Hin1 Hr'). specialize (Ho _ Hr'). lia.
Qed.

(** [rs'] is [rs] without what the survivors supersede. *)
Definition all_pruned (items : list (K * Z)) rs rs' : Prop :=
  ∀ r, r ∈ rs' ↔ r ∈ rs ∧ ∀ s, (r.1, s) ∈ items → ¬ pruned s r.2.

Lemma prune_keys_spec fuel items d c : wf_rows (rs_of c) → (length (rs_of c) < fuel)%nat →
  returns (prune_keys fuel items d c) (λ '(c', d'),
    wf_rows (rs_of c') ∧ all_pruned items (rs_of c) (rs_of c')
    ∧ Z.of_nat (length (rs_of c)) + d = Z.of_nat (length (rs_of c')) + d').
Proof.
  revert d c. induction items as [|[k s] items IH]; intros d c Hwf Hfuel; cbn [prune_keys].
  { apply returns_Ok. split_and!; [done| |done]. intros r. split; [|by intros []].
    intros Hr. split; [done|]. by intros s []%elem_of_nil. }
  eapply returns_bind; [by apply returns_Some, seek_version_spec|]. intros [c1 o] [Ht Ho].
  rewrite <- Ht in *. destruct o as [e|].
  - destruct Ho as (Hr & _ & Hp & Hmin). eapply returns_bind.
    { apply prune_key_spec; [done..| |done]. intros v Hv. apply Hmin; [done|].
      by destruct (wf_row _ _ _ Hwf Hv). }
    intros [c2 d2] (Hwf2 & Hin2 & Hlen2). eapply returns_mono; [apply IH; [done|]|].
    { eapply Nat.le_lt_trans; [|done]. apply submseteq_length, NoDup_submseteq;
        [by apply wf_NoDup|]. by intros r [? _]%Hin2. }
    intros [c3 d3] (Hwf3 & Hin3 & Hlen3). split_and!; [done| |lia].
    intros r. rewrite (Hin3 r), (Hin2 r). split.
    + intros [[Hr' Hn] Hall]. split; [done|]. intros s' [[= Hk ->]|Hs]%elem_of_cons; [|by apply Hall].
      intros Hpr. by apply Hn.
    + intros [Hr' Hall]. split_and!; [done| |].
      * intros [Hk Hpr]. apply (Hall s); [rewrite Hk; left|done].
      * intros s' Hs. apply Hall. by right.
  - eapply returns_mono; [by apply IH|]. intros [c3 d3] (Hwf3 & Hin3 & Hlen3). split_and!; [done| |done].
    intros r. rewrite (Hin3 r). split; intros [Hr' Hall]; (split; [done|]); intros s' Hs.
    + apply elem_of_cons in Hs as [[= Hk ->]|Hs]; [|by apply Hall]. destruct r as [k' v]. cbn in Hk. subst k'.
      specialize (Ho v Hr'). pose proof (wf_row _ _ _ Hwf Hr'). lia.
    + apply Hall. by right.
Qed.

Lemma prune_history_spec fuel items t : wf_rows (rows t) → (length (rows t) < fuel)%nat →
  returns (prune_history_preceding fuel items t) (λ '(t', d),
    wf_rows (rows t') ∧ all_pruned items (rows t) (rows t')
    ∧ Z.of_nat (length (rows t)) = Z.of_nat (length (rows t')) + d).
Proof.
  intros Hwf Hfuel. unfold prune_history_preceding. destruct items as [|i items].
  { apply returns_Ok. split_and!; [done| |lia]. intros r. split; [|by intros []].
    intros Hr. split; [done|]. by intros s []%elem_of_nil. }
  eapply returns_bind; [apply returns_Some, law_open|]. intros c [Hc _].
  eapply returns_bind; [apply (prune_keys_spec fuel (i :: items)); by rewrite Hc|].
  rewrite Hc. intros [c' d'] (Hwf' & Hin & Hlen). apply returns_Ok. split_and!; [done..|lia].
Qed.
End WriterLemmas.

(** ** The merged map of a wipe *)

Section BTree.
Context {K A : Type} `{KeyOrdLaws K}.
Implicit Types (m : list (K * A)).

Definition btree m : Prop := StronglySorted key_lt (map fst m).

Lemma elem_of_btree_insert k a m k' a' : btree m →
  (k', a') ∈ btree_insert k a m ↔ (k', a') = (k, a) ∨ k' ≠ k ∧ (k', a') ∈ m.
Proof.
  unfold btree. induction m as [|[k1 a1] m IH]; cbn [btree_insert map]; intros Hm.
  { rewrite elem_of_cons. split; [intros [?|[]%elem_of_nil]; by left|].
    intros [?|[_ []%elem_of_nil]]. by left. }
  apply StronglySorted_inv in Hm as [Hm H1]. rewrite Forall_forall in H1.
  assert (Hlater : ∀ x y, (x, y) ∈ m → key_lt k1 x).
  { intros x y Hxy. apply H1, list_elem_of_fmap. by exists (x, y). }
  case_bool_decide as Hlt; [|case_bool_decide as Heq]; rewrite !elem_of_cons.
  - split; [|tauto]. intros [?|[[= -> ->]|Hin]]; [by left| |]; right.
    + split; [|by left]. intros ->. by destruct (irreflexivity key_lt _ Hlt).
    + split; [|by right]. intros ->. destruct (irreflexivity key_lt k). etrans; [done|by eapply Hlater].
  - subst k1. split; [intros [?|Hin]; [by left|]; right; split; [|by right]|].
    + intros ->. destruct (irreflexivity key_lt k). by eapply Hlater.
    + intros [?|[Hne [[= -> ->]|Hin]]]; [by left|done|by right].
  - rewrite IH by done. split; [intros [[= -> ->]|[?|[? ?]]]|intros [?|[? [?|?]]]]; auto.
Qed.

Lemma btree_insert_sorted k a m : btree m → btree (btree_insert k a m).
Proof.
  unfold btree. induction m as [|[k1 a1] m IH]; cbn [btree_insert map]; intros Hm.
  { repeat constructor. }
  pose proof Hm as [Hm' H1]%StronglySorted_inv. rewrite Forall_forall in H1.
  case_bool_decide as Hlt; [|case_bool_decide as Heq].
  - cbn [map fst]. constructor; [done|]. rewrite Forall_forall. intros x [->|Hx]%elem_of_cons; [done|].
    etrans; [done|by apply H1].
  - subst. done.
  - cbn [map fst]. constructor; [by apply IH|]. rewrite Forall_forall. intros x Hx.
    apply list_elem_of_fmap in Hx as ([k2 a2] & -> & Hin).
    apply elem_of_btree_insert in Hin as [[= -> ->]|[_ Hin]]; [| |done].
    + destruct (key_lt_total k1 k) as [?|[?|?]]; [done|by subst|done].
    + apply H1, list_elem_of_fmap. by exists (k2, a2).
Qed.

(** Inserting entries with distinct keys, the later map winning. *)
Lemma btree_insert_all l m : btree m → NoDup (map fst l) →
  btree (foldl (λ m '(k, a), btree_insert k a m) m l)
  ∧ ∀ k a, (k, a) ∈ foldl (λ m '(k, a), btree_insert k a m) m l
           ↔ (k, a) ∈ l ∨ (k ∉ map fst l) ∧ (k, a) ∈ m.
Proof.
  revert m. induction l as [|[k1 a1] l IH]; intros m Hm Hnd; cbn.
  { split; [done|]. intros k a. rewrite !elem_of_nil. tauto. }
  apply NoDup_cons in Hnd as [Hk Hnd].
  destruct (IH (btree_insert k1 a1 m)) as [Hs Hin]; [by apply btree_insert_sorted|done|].
  split; [done|]. intros k a. rewrite Hin, elem_of_btree_insert, !elem_of_cons by done. split.
  - intros [?|[Hn [[= -> ->]|[Hne ?]]]]; [by left; right|by left; left|right].
    split; [|done]. intros [?|?]; done.
  - intros [[[= -> ->]|?]|[Hn ?]]; [right|by left|right]; [by auto|].
    split; [by intros ?; apply Hn; right|]. right. split; [|done]. intros ->. apply Hn. by left.
Qed.

Lemma btree_NoDup m : btree m → NoDup (map fst m).
Proof.
  unfold btree. generalize (map fst m). induction 1 as [|k l Hs IH Hk]; constructor; [|done].
  intros Hin. rewrite Forall_forall in Hk. by destruct (irreflexivity key_lt _ (Hk _ Hin)).
Qed.
(** Two maps with the same entries are the same list. *)
Lemma btree_unique (l1 l2 : list (K * A)) : btree l1 → btree l2 → (∀ k v, (k, v) ∈ l1 ↔ (k, v) ∈ l2) → l1 = l2.
Proof.
  unfold btree. revert l2. induction l1 as [|[k1 v1] l1 IH]; intros [|[k2 v2] l2] H1 H2 Hin; [done|..].
  - assert ((k2, v2) ∈ []) as []%elem_of_nil. apply Hin. by left.
  - assert ((k1, v1) ∈ []) as []%elem_of_nil. apply Hin. by left.
  - cbn in H1, H2. apply StronglySorted_inv in H1 as [H1 F1], H2 as [H2 F2].
    rewrite Forall_forall in F1, F2.
    assert (Hl1 : ∀ k v, (k, v) ∈ l1 → key_lt k1 k) by (intros k v Hk; apply F1, list_elem_of_fmap; by exists (k, v)).
    assert (Hl2 : ∀ k v, (k, v) ∈ l2 → key_lt k2 k) by (intros k v Hk; apply F2, list_elem_of_fmap; by exists (k, v)).
    assert ((k1, v1) = (k2, v2)) as [= <- <-].
    { pose proof (proj1 (Hin k1 v1) (list_elem_of_here _ _)) as [?|Hk]%elem_of_cons; [done|].
      pose proof (proj2 (Hin k2 v2) (list_elem_of_here _ _)) as [?|Hk']%elem_of_cons; [done|].
      destruct (irreflexivity key_lt k1). etrans; [by eapply Hl1|by eapply Hl2]. }
    f_equal. apply IH; [done..|]. intros k v. split; intros Hk.
    + pose proof (proj1 (Hin k v) (list_elem_of_further _ _ _ Hk)) as [[= -> ->]|?]%elem_of_cons; [|done].
      by destruct (irreflexivity key_lt k1 (Hl1 _ _ Hk)).
    + pose proof (proj2 (Hin k v) (list_elem_of_further _ _ _ Hk)) as [[= -> ->]|?]%elem_of_cons; [|done].
      by destruct (irreflexivity key_lt k1 (Hl2 _ _ Hk)).
Qed.
End BTree.

Section Wipe.
Context {Tb C : Type → Type → Type} {E : Type} `{DupDbLaws Tb C E}.
Context {Cur K VV V : Type} `{KeyOrdLaws K}.

(** A wipe tombstones what was there, except what is written anew. *)
Definition wiped_over (old : list K) (new_entries merged : list (K * option V)) : Prop :=
  ∀ k o, (k, o) ∈ merged ↔ (k, o) ∈ new_entries ∨ (k ∉ map fst new_entries) ∧ o = None ∧ k ∈ old.

Lemma tombstones_foldl (wiped : list (K * VV)) (m : list (K * option V)) :
  foldl (λ m '(k, _vv), btree_insert k None m) m wiped
  = foldl (λ m '(k, o), btree_insert k o m) m (map (λ e, (e.1, None)) wiped).
Proof. revert m. induction wiped as [|[k v] l IH]; intros m; cbn; [done|]. apply IH. Qed.

Lemma merged_spec (wiped : list (K * VV)) (new_entries : list (K * option V)) :
  NoDup (map fst wiped) → NoDup (map fst new_entries) →
  let merged := foldl (λ m '(k, v), btree_insert k v m)
    (foldl (λ m '(k, _vv), btree_insert k None m) [] wiped) new_entries in
  NoDup (map fst merged) ∧ wiped_over (map fst wiped) new_entries merged.
Proof.
  intros Hw Hn. cbn zeta. rewrite tombstones_foldl.
  set (old := map (λ e : K * VV, (e.1, None)) wiped).
  assert (Hold : map fst old = map fst wiped) by (unfold old; by rewrite map_map).
  destruct (btree_insert_all old (A := option V) []) as [Hs1 Hin1]; [constructor|by rewrite Hold|].
  destruct (btree_insert_all new_entries _ Hs1 Hn) as [Hs2 Hin2].
  split; [by apply btree_NoDup|]. intros k o. rewrite Hin2, Hin1, elem_of_nil, Hold.
  assert (Ho : (k, o) ∈ old ↔ o = None ∧ k ∈ map fst wiped).
  { unfold old. rewrite !list_elem_of_fmap. split.
    - intros ([k' v] & [= -> ->] & Hin). split; [done|]. by exists (k', v).
    - intros [-> ([k' v] & -> & Hin)]. by exists (k', v). }
  rewrite Ho. tauto.
Qed.

(** A bound address's entries as entries of the table. *)
Definition at_address (a : Z) (items : list (K * option V)) : list (Z * K * option V) :=
  map (λ '(k, o), ((a, k), o)) items.

Lemma at_address_keys a items : map fst (at_address a items) = map (pair a) (map fst items).
Proof. unfold at_address. rewrite !map_map. apply map_ext. by intros []. Qed.

Lemma elem_of_at_address a items a' k o :
  (a', k, o) ∈ at_address a items ↔ a' = a ∧ (k, o) ∈ items.
Proof.
  unfold at_address. rewrite list_elem_of_fmap. split.
  - by intros ([k' o'] & [= -> -> ->] & Hin).
  - intros [-> Hin]. by exists (k, o).
Qed.

Lemma NoDup_at_address a items : NoDup (map fst items) → NoDup (map fst (at_address a items)).
Proof. intros Hn. rewrite at_address_keys. apply NoDup_fmap_2; [|done]. by intros ? ? [= ->]. Qed.

Lemma elem_of_at_address_keys a items k : k ∈ map fst (at_address a items) ↔ k.1 = a ∧ k.2 ∈ map fst items.
Proof.
  rewrite at_address_keys, list_elem_of_fmap. split.
  - by intros (k' & -> & ?).
  - intros [<- ?]. exists k.2. by destruct k.
Qed.

Lemma wipe_and_overlay_spec fuel b a (next : Cur → option (result (Cur * option (K * VV)) E)) ro
    (wiped : list (K * VV)) new_entries (t : Tb (Z * K)%type V) :
  wf_rows (rows t) → 0 ≤ b → 0 ≤ a →
  returns (drain next fuel ro) (λ es, es = wiped) → NoDup (map fst wiped) →
  NoDup (map fst new_entries) →
  (∀ k, k ∈ map fst wiped → key_ok k) → (∀ k, k ∈ map fst new_entries → key_ok k) →
  (∀ k v, (a, k, v) ∈ rows t → block_number v < b) →
  returns (wipe_and_overlay fuel b a next ro new_entries t) (λ '(t', keys),
    ∃ merged, wf_rows (rows t') ∧ added b (at_address a merged) (rows t) (rows t')
      ∧ keys = map fst (at_address a merged) ∧ NoDup (map fst merged)
      ∧ (∀ k, k ∈ map fst merged → key_ok k)
      ∧ wiped_over (map fst wiped) new_entries merged).
Proof.
  intros Hwf Hb Ha Hdrain Hw Hn Hokw Hokn Hold. unfold wipe_and_overlay.
  eapply returns_bind; [exact Hdrain|]. intros es ->.
  destruct (merged_spec wiped new_entries Hw Hn) as [Hnd Hmerged]. cbn zeta.
  set (merged := foldl _ _ new_entries) in *.
  assert (Hok : ∀ k, k ∈ map fst merged → key_ok k).
  { intros k Hk. apply list_elem_of_fmap in Hk as ([k' o] & -> & [Hin|(_ & _ & Hin)]%Hmerged).
    - apply Hokn, list_elem_of_fmap. by exists (k', o).
    - by apply Hokw. }
  assert (Hpairs : map (λ '(k, value), into_kv b ((a, k), value)) merged
                   = map (into_kv b) (at_address a merged)).
  { unfold at_address. rewrite map_map. apply map_ext. by intros []. }
  rewrite Hpairs. eapply returns_bind; [apply returns_Some, law_open|]. intros c [Hc _].
  eapply returns_bind.
  - apply returns_Some, append_all_spec; rewrite ?Hc; [done..|by apply NoDup_at_address| |].
    + intros [a' k]. rewrite elem_of_at_address_keys. cbn. intros [-> Hk]. by split; [|apply Hok].
    + intros [a' k] v. rewrite elem_of_at_address_keys. cbn. intros [-> Hk]. apply Hold.
  - intros c' [Hwf' Hin]. apply returns_Ok. exists merged. rewrite Hc in Hin.
    split_and!; [done|done| |done..]. by rewrite map_map.
Qed.
End Wipe.

(** ** What they do to the views *)

(** The entry of a key in an association list. *)
Section Items.
Context {K A : Type} `{EqDecision K}.
Implicit Types (items : list (K * A)).

Definition item_of items (k : K) : option A :=
  head (omap (λ i, if bool_decide (i.1 = k) then Some i.2 else None) items).

Lemma item_of_Some items k o : NoDup (map fst items) → item_of items k = Some o ↔ (k, o) ∈ items.
Proof.
  unfold item_of. induction items as [|[k' o'] items IH]; cbn.
  { intros _. by rewrite elem_of_nil. }
  intros [Hk Hnd]%NoDup_cons. rewrite elem_of_cons. case_bool_decide as He; cbn.
  - subst. split; [intros [= ->]; by left|]. intros [[= ->]|Hin]; [done|].
    destruct Hk. apply list_elem_of_fmap. by exists (k, o).
  - rewrite IH by done. split; [by right|]. by intros [[= -> ->]|?].
Qed.

Lemma item_of_None items k : item_of items k = None ↔ k ∉ map fst items.
Proof.
  unfold item_of. induction items as [|[k' o'] items IH]; cbn.
  { split; [intros _ []%elem_of_nil|done]. }
  rewrite elem_of_cons. case_bool_decide as He; cbn; [split; [done|]|].
  - intros Hn. destruct Hn. by left.
  - rewrite IH. split; [|tauto]. intros Hn [->|?]; [by apply He|done].
Qed.

Lemma item_of_cons k' a items k :
  item_of ((k', a) :: items) k = if bool_decide (k' = k) then Some a else item_of items k.
Proof. unfold item_of. cbn. by case_bool_decide. Qed.

Lemma item_of_app items1 items2 k :
  item_of (items1 ++ items2) k = match item_of items1 k with Some o => Some o | None => item_of items2 k end.
Proof.
  unfold item_of. induction items1 as [|[k' o'] items1 IH]; cbn; [done|].
  by case_bool_decide.
Qed.
End Items.

Section Views.
Context {K V : Type} `{KeyOrdLaws K}.
Implicit Types (rs : list (K * VersionedValue V)) (items : list (K * option V)).

(** Versions of block [b] are the newest from [b] on, and invisible before. *)
Lemma view_added b items rs rs' n k : wf_rows rs → wf_rows rs' →
  NoDup (map fst items) → (∀ v, k ∈ map fst items → (k, v) ∈ rs → block_number v < b) →
  added b items rs rs' →
  view rs' n k = if n <? b then view rs n k else default (view rs n k) (item_of items k).
Proof.
  intros [Hs _] [Hs' _] Hnd Hold Hadd. unfold view.
  assert (Hsame : n < b ∨ k ∉ map fst items → version_at rs' n k = version_at rs n k).
  { intros Hor. apply version_at_ext; [done..|]. intros v Hv. rewrite (Hadd (k, v)), elem_of_into_kv.
    split; [|by left]. intros [?|[Hb Hin]]; [done|]. destruct Hor as [?|Hn]; [lia|].
    destruct Hn. apply list_elem_of_fmap. by exists (k, vvalue v). }
  destruct (Z.ltb_spec n b) as [Hlt|Hge]; [by rewrite Hsame by by left|].
  destruct (item_of items k) as [o|] eqn:Hi; cbn.
  - assert (version_at rs' n k = Some {| block_number := b; vvalue := o |}) as ->; [|done].
    apply item_of_Some in Hi; [|done].
    assert (Hk : k ∈ map fst items) by (apply list_elem_of_fmap; by exists (k, o)).
    apply version_at_Some; [done|]. cbn. split_and!; [|lia|].
    + rewrite (Hadd (k, _)), elem_of_into_kv. by right.
    + intros v [Hin|[Hb _]%elem_of_into_kv]%Hadd _; [|lia]. specialize (Hold v Hk Hin). lia.
  - by rewrite Hsame by (right; by apply item_of_None).
Qed.

(** Deleting every version from [b] on leaves each later view what it was at [b - 1]. *)
Lemma view_unwound b rs rs' n k : wf_rows rs → wf_rows rs' →
  (∀ r, r ∈ rs' ↔ r ∈ rs ∧ block_number r.2 < b) →
  view rs' n k = view rs (Z.min n (b - 1)) k.
Proof.
  intros [Hs _] [Hs' _] Hin. unfold view. f_equal.
  destruct (version_at rs (Z.min n (b - 1)) k) as [v|] eqn:Hv.
  - apply version_at_Some in Hv as (Hr & Hb & Hmax); [|done]. apply version_at_Some; [done|].
    split_and!; [apply Hin; cbn; split; [done|lia]|lia|].
    intros v' [Hr' Hb']%Hin Hn. apply Hmax; [done|]. cbn in Hb'. lia.
  - rewrite version_at_None in Hv |- * by done. intros v [Hr Hb]%Hin. specialize (Hv _ Hr).
    cbn in Hb. lia.
Qed.

(** Pruning below survivors up to [target] keeps the views from [target] on. *)
Lemma view_pruned target (survivors : list (K * Z)) rs rs' n k : wf_rows rs → wf_rows rs' → target ≤ n →
  (∀ k' s, (k', s) ∈ survivors → s ≤ target ∧ ∃ v, (k', v) ∈ rs ∧ block_number v = s) →
  all_pruned survivors rs rs' → view rs' n k = view rs n k.
Proof.
  intros Hwf Hwf' Hn Hitems Hin. unfold view. pose proof Hwf as [Hs _]. pose proof Hwf' as [Hs' _].
  destruct (version_at rs n k) as [v|] eqn:Hv; cbn.
  - apply version_at_Some in Hv as (Hr & Hb & Hmax); [|done].
    assert (Hkept : (k, v) ∈ rs' → version_at rs' n k = Some v).
    { intros Hr'. apply version_at_Some; [done|]. split_and!; [done..|].
      intros v' [? _]%Hin. by apply Hmax. }
    destruct (vvalue v) as [x|] eqn:Hval.
    { rewrite Hkept; [done|]. apply Hin. split; [done|]. cbn.
      intros s Hks Hpr. destruct (Hitems _ _ Hks) as (Hst & v' & Hr' & Hbs).
      specialize (Hmax v' Hr'). destruct Hpr as [?|[_ ?]]; [lia|congruence]. }
    destruct (version_at rs' n k) as [v'|] eqn:Hv'; cbn; [|done].
    destruct (vvalue v') as [x|] eqn:Hval'; [exfalso|done].
    apply version_at_Some in Hv' as (Hr' & Hb' & _); [|done].
    pose proof (proj1 (Hin _) Hr') as [Hr'' Hsurv]. cbn in Hsurv. specialize (Hmax v' Hr'' Hb').
    assert (Hne : block_number v' ≠ block_number v).
    { intros Heq. assert (v' = v) as -> by (by apply (same_version rs k)). congruence. }
    assert (Some v' = Some v) as [= ->]; [|done]. apply Hkept, Hin. split; [done|]. cbn.
    intros s Hks Hpr. apply (Hsurv s Hks). left. destruct Hpr as [?|[? _]]; lia.
  - assert (version_at rs' n k = None) as ->; [|done]. rewrite version_at_None in Hv |- * by done.
    intros v' [? _]%Hin. by apply Hv.
Qed.
End Views.
