(* ===== verification/ProofsStore.v ===== *)
(** * The historical proofs store

    Models [crates/proofs/src/db/store.rs]: the write transactions of
    [MdbxProofsStorage] over the four history tables, the change sets and the proof
    window (appending a block, pruning, unwinding, replacing); and
    [crates/proofs/src/prune/pruner.rs].
    The dup-sorted tables are those of [Versioned]; the plain tables are the class
    [PlainDb].  Loops over rows take fuel; every theorem gives the fuel that suffices. *)

From S2P Require Import Prelude.
From S2P Require Import Versioned.
From S2P Require Import HistoryWrites.
From stdpp Require Import sorting.
#[local] Open Scope Z_scope.

(** ** Plain tables *)

(** A walk collects the rows it visits; [walk_range lo None] is the range [lo..]. *)
Class PlainDb (Pt : Type → Type → Type) (E : Type) := {
  p_seek_exact {K V} `{EqDecision K} : K → Pt K V → result (option V) E;
  p_upsert {K V} `{EqDecision K} : K → V → Pt K V → result (Pt K V) E;
  p_insert {K V} `{EqDecision K} : K → V → Pt K V → result (Pt K V) E;
  p_append {V} : Z → V → Pt Z V → result (Pt Z V) E;
  p_walk_back {V} : Z → Pt Z V → result (list (Z * V)) E;
  p_walk_range {V} : Z → option Z → Pt Z V → result (list (Z * V)) E;
  p_delete {K V} `{EqDecision K} : K → Pt K V → result (Pt K V) E;
  p_entries {K V} : Pt K V → result Z E;
}.

(** What libmdbx and reth's walkers document.  A backward walk is only specified from
    a key that is present. *)
Class PlainDbLaws (Pt : Type → Type → Type) (E : Type) `{PlainDb Pt E} := {
  content {K V} `{EqDecision K} : Pt K V → K → option V;
  law_p_seek_exact {K V} `{EqDecision K} k (t : Pt K V) :
    outcome (p_seek_exact k t) (λ o, o = content t k);
  law_p_upsert {K V} `{EqDecision K} k v (t : Pt K V) :
    outcome (p_upsert k v t) (λ t', ∀ k', content t' k' = if bool_decide (k' = k) then Some v else content t k');
  law_p_insert {K V} `{EqDecision K} k v (t : Pt K V) :
    outcome (p_insert k v t) (λ t', content t k = None
      ∧ ∀ k', content t' k' = if bool_decide (k' = k) then Some v else content t k');
  law_p_append {V} k v (t : Pt Z V) :
    outcome (p_append k v t) (λ t', (∀ k', content t k' ≠ None → k' < k)
      ∧ ∀ k', content t' k' = if bool_decide (k' = k) then Some v else content t k');
  law_p_walk_back {V} k (t : Pt Z V) : content t k ≠ None →
    outcome (p_walk_back k t) (λ l, StronglySorted Z.gt (map fst l)
      ∧ ∀ k' v, (k', v) ∈ l ↔ content t k' = Some v ∧ k' ≤ k);
  law_p_walk_range {V} lo hi (t : Pt Z V) :
    outcome (p_walk_range lo hi t) (λ l, StronglySorted Z.lt (map fst l)
      ∧ ∀ k v, (k, v) ∈ l ↔ content t k = Some v ∧ lo ≤ k ∧ match hi with Some h => k ≤ h | None => True end);
  law_p_delete {K V} `{EqDecision K} k (t : Pt K V) :
    outcome (p_delete k t) (λ t', ∀ k', content t' k' = if bool_decide (k' = k) then None else content t k');
}.

(** ** Data *)

Abbreviation B256 := Z (only parsing).
Abbreviation path := (list Z) (only parsing).

Record NumHash := { number : Z; nhash : B256 }.
#[global] Instance NumHash_eq_dec : EqDecision NumHash.
Proof. solve_decision. Defined.
Record BlockWithParent := { parent : B256; block : NumHash }.

Inductive ProofWindowKey := EarliestBlock | LatestBlock | InitialStateKey.
#[global] Instance ProofWindowKey_eq_dec : EqDecision ProofWindowKey.
Proof. solve_decision. Defined.

(** [ChangeSet] *)
Record ChangeSet := {
  account_trie_keys : list path;
  storage_trie_keys : list (B256 * path);
  hashed_account_keys : list B256;
  hashed_storage_keys : list (B256 * B256);
}.

Record WriteCounts := {
  account_trie_updates_written_total : Z;
  storage_trie_updates_written_total : Z;
  hashed_accounts_written_total : Z;
  hashed_storages_written_total : Z;
}.
Definition WriteCounts_default : WriteCounts := Build_WriteCounts 0 0 0 0.

(** [StorageTrieUpdatesSorted], [HashedStorageSorted] and [BlockStateDiff]. *)
Record StorageTrieUpdates (Node : Type) := {
  is_deleted : bool; storage_nodes : list (path * option Node) }.
Arguments is_deleted {Node}.
Arguments storage_nodes {Node}.
Record HashedStorage := { wiped : bool; storage_slots : list (B256 * Z) }.
Record BlockStateDiff (Node Account : Type) := {
  account_nodes : list (path * option Node);
  storage_tries : list (B256 * StorageTrieUpdates Node);
  accounts : list (B256 * option Account);
  storages : list (B256 * HashedStorage);
}.
Arguments account_nodes {Node Account}.
Arguments storage_tries {Node Account}.
Arguments accounts {Node Account}.
Arguments storages {Node Account}.

(** [MorphProofsStorageError]; execution and provider errors carry a message. *)
Inductive MorphProofsStorageError (E : Type) :=
| ChainIdentityMismatch (field : string)
| SchemaMismatch (expected actual : Z)
| CorruptMetadata (field : string)
| IncompleteIdentityMetadata
| ProofDataWithoutIdentityMetadata
| NoBlocksFound
| UnknownParent
| OutOfOrder (block_number : Z) (parent_block_hash latest_block_hash : B256)
| MissingParentBlock (block_number parent_block_number latest_block_number : Z)
| StateRootMismatch (block_number : Z) (current_state_hash expected_state_hash : B256)
| NoChangeSetForBlock (block_number : Z)
| MissingAccountTrieHistory (p : path) (block_number : Z)
| MissingStorageTrieHistory (a : B256) (p : path) (block_number : Z)
| MissingHashedAccountHistory (a : B256) (block_number : Z)
| MissingHashedStorageHistory (a k : B256) (block_number : Z)
| UnwindBeyondEarliest (unwind_block_number earliest_block_number : Z)
| PruneBeyondLatest (target_block_number latest_block_number : Z)
| DatabaseError (e : E)
| TryLockError
| ExecutionError (message : string)
| ProviderError (message : string)
| InitializeStorageInconsistentState
| BatchSessionClosed.
Arguments ChainIdentityMismatch {E}.
Arguments SchemaMismatch {E}.
Arguments CorruptMetadata {E}.
Arguments IncompleteIdentityMetadata {E}.
Arguments ProofDataWithoutIdentityMetadata {E}.
Arguments NoBlocksFound {E}.
Arguments UnknownParent {E}.
Arguments MissingParentBlock {E}.
Arguments StateRootMismatch {E}.
Arguments TryLockError {E}.
Arguments ExecutionError {E}.
Arguments ProviderError {E}.
Arguments BatchSessionClosed {E}.
Arguments OutOfOrder {E}.
Arguments NoChangeSetForBlock {E}.
Arguments MissingAccountTrieHistory {E}.
Arguments MissingStorageTrieHistory {E}.
Arguments MissingHashedAccountHistory {E}.
Arguments MissingHashedStorageHistory {E}.
Arguments UnwindBeyondEarliest {E}.
Arguments PruneBeyondLatest {E}.
Arguments InitializeStorageInconsistentState {E}.
Arguments DatabaseError {E}.

(** A transaction's tables. *)
Record Db (Tb Pt : Type → Type → Type) (Node Account : Type) := {
  AccountTrieHistory : Tb path Node;
  StorageTrieHistory : Tb (B256 * path)%type Node;
  HashedAccountHistory : Tb B256 Account;
  HashedStorageHistory : Tb (B256 * B256)%type Z;
  ProofWindow : Pt ProofWindowKey NumHash;
  BlockChangeSet : Pt Z ChangeSet;
}.
Arguments AccountTrieHistory {Tb Pt Node Account}.
Arguments StorageTrieHistory {Tb Pt Node Account}.
Arguments HashedAccountHistory {Tb Pt Node Account}.
Arguments HashedStorageHistory {Tb Pt Node Account}.
Arguments ProofWindow {Tb Pt Node Account}.
Arguments BlockChangeSet {Tb Pt Node Account}.

(** Opening and committing a transaction can fail. *)
Class TxOps (D E : Type) := { tx_mut : D → result unit E; tx_commit : D → result unit E }.

(** [PrunePlan] *)
Record PrunePlan := {
  earliest_block : Z;
  acc_survivors : list (path * Z);
  storage_survivors : list (B256 * path * Z);
  hashed_acc_survivors : list (B256 * Z);
  hashed_storage_survivors : list (B256 * B256 * Z);
}.

(** [HistoryDeleteBatch] *)
Record HistoryDeleteBatch := {
  d_account_trie : list (path * Z);
  d_storage_trie : list (B256 * path * Z);
  d_hashed_account : list (B256 * Z);
  d_hashed_storage : list (B256 * B256 * Z);
}.

(** [PrunerOutput], without the elapsed time. *)
Record PrunerOutput := { start_block : Z; end_block : Z; write_counts : WriteCounts }.
Definition PrunerOutput_default : PrunerOutput := Build_PrunerOutput 0 0 WriteCounts_default.

Definition counts_add (c1 c2 : WriteCounts) : WriteCounts := {|
  account_trie_updates_written_total := account_trie_updates_written_total c1 + account_trie_updates_written_total c2;
  storage_trie_updates_written_total := storage_trie_updates_written_total c1 + storage_trie_updates_written_total c2;
  hashed_accounts_written_total := hashed_accounts_written_total c1 + hashed_accounts_written_total c2;
  hashed_storages_written_total := hashed_storages_written_total c1 + hashed_storages_written_total c2 |}.

Definition extend_ref (o other : PrunerOutput) : PrunerOutput := {|
  start_block := if start_block other <? start_block o then start_block other else start_block o;
  end_block := if end_block o <? end_block other then end_block other else end_block o;
  write_counts := counts_add (write_counts o) (write_counts other) |}.

Inductive PrunerError (E P : Type) :=
| Storage (e : MorphProofsStorageError E)
| Provider (p : P)
| BlockNotFound (n : Z).
Arguments Storage {E P}.
Arguments Provider {E P}.
Arguments BlockNotFound {E P}.

(** ** Transactions *)

Section Store.
Context {Tb C Pt : Type → Type → Type} {E Node Account : Type}.
Context `{DupDb Tb C E, PlainDb Pt E}.
Abbreviation db := (Db Tb Pt Node Account).
Abbreviation err := (MorphProofsStorageError E).
Context `{TxOps db E}.
Abbreviation diff := (BlockStateDiff Node Account).

Definition with_account_trie (d : db) t : db := {|
  AccountTrieHistory := t; StorageTrieHistory := StorageTrieHistory d;
  HashedAccountHistory := HashedAccountHistory d; HashedStorageHistory := HashedStorageHistory d;
  ProofWindow := ProofWindow d; BlockChangeSet := BlockChangeSet d |}.
Definition with_storage_trie (d : db) t : db := {|
  AccountTrieHistory := AccountTrieHistory d; StorageTrieHistory := t;
  HashedAccountHistory := HashedAccountHistory d; HashedStorageHistory := HashedStorageHistory d;
  ProofWindow := ProofWindow d; BlockChangeSet := BlockChangeSet d |}.
Definition with_hashed_accounts (d : db) t : db := {|
  AccountTrieHistory := AccountTrieHistory d; StorageTrieHistory := StorageTrieHistory d;
  HashedAccountHistory := t; HashedStorageHistory := HashedStorageHistory d;
  ProofWindow := ProofWindow d; BlockChangeSet := BlockChangeSet d |}.
Definition with_hashed_storages (d : db) t : db := {|
  AccountTrieHistory := AccountTrieHistory d; StorageTrieHistory := StorageTrieHistory d;
  HashedAccountHistory := HashedAccountHistory d; HashedStorageHistory := t;
  ProofWindow := ProofWindow d; BlockChangeSet := BlockChangeSet d |}.
Definition with_window (d : db) w : db := {|
  AccountTrieHistory := AccountTrieHistory d; StorageTrieHistory := StorageTrieHistory d;
  HashedAccountHistory := HashedAccountHistory d; HashedStorageHistory := HashedStorageHistory d;
  ProofWindow := w; BlockChangeSet := BlockChangeSet d |}.
Definition with_change_sets (d : db) cs : db := {|
  AccountTrieHistory := AccountTrieHistory d; StorageTrieHistory := StorageTrieHistory d;
  HashedAccountHistory := HashedAccountHistory d; HashedStorageHistory := HashedStorageHistory d;
  ProofWindow := ProofWindow d; BlockChangeSet := cs |}.

(** [?] on a database error. *)
Definition lift {A} (r : result A E) : result A err := map_err DatabaseError r.
Definition lift_loop {A} (m : option (result A E)) : option (result A err) := lift <$> m.

(** [commit_update]: the store is [d] unless the update and the commit succeed. *)
Definition commit_update {A} (update : db → option (result (db * A) err)) (d : db)
  : option (db * result A err) :=
  match tx_mut d with
  | Err e => Some (d, Err (DatabaseError e))
  | Ok _ =>
      match update d with
      | None => None
      | Some (Err e) => Some (d, Err e)
      | Some (Ok (d', a)) =>
          match tx_commit d' with
          | Err e => Some (d, Err (DatabaseError e))
          | Ok _ => Some (d', Ok a)
          end
      end
  end.

(** *** The proof window *)

Definition inner_get_block_number_hash (d : db) (key : ProofWindowKey) : result (option NumHash) err :=
  lift (p_seek_exact key (ProofWindow d)).

Definition inner_get_latest_block_number_hash (d : db) : result (option NumHash) err :=
  let? blk := inner_get_block_number_hash d LatestBlock in
  match blk with
  | Some _ => Ok blk
  | None => inner_get_block_number_hash d EarliestBlock
  end.

Definition inner_get_earliest_block_number_hash (d : db) : result (option NumHash) err :=
  inner_get_block_number_hash d EarliestBlock.

(** [ProofWindowValue], the earliest and the latest block. *)
Definition inner_get_proof_window (d : db) : result (option (NumHash * NumHash)) err :=
  let? e := lift (p_seek_exact EarliestBlock (ProofWindow d)) in
  match e with
  | None => Ok None
  | Some earliest =>
      let? l := lift (p_seek_exact LatestBlock (ProofWindow d)) in
      Ok (Some (earliest, default earliest l))
  end.

Definition inner_set_earliest_block_number (block_number : Z) (hash : B256) (d : db) : result db err :=
  let? w := lift (p_upsert EarliestBlock (Build_NumHash block_number hash) (ProofWindow d)) in
  Ok (with_window d w).

Definition inner_set_latest_block_number (block_number : Z) (hash : B256) (d : db) : result db err :=
  let? w := lift (p_upsert LatestBlock (Build_NumHash block_number hash) (ProofWindow d)) in
  Ok (with_window d w).

(** *** Appending a block *)

Fixpoint store_storage_tries (fuel : nat) (block_number : Z) (append_mode : bool)
    (tries : list (B256 * StorageTrieUpdates Node)) (t : Tb (B256 * path)%type Node)
  : option (result (Tb (B256 * path)%type Node * list (B256 * path)) E) :=
  match tries with
  | [] => Some (Ok (t, []))
  | (hashed_address, nodes) :: tries =>
      let! '(t, keys) :=
        if is_deleted nodes && append_mode then
          let! ro := Some (open_cursor t) in
          wipe_and_overlay fuel block_number hashed_address
            (trie_next (wrapping_sub u64_max block_number 1) hashed_address fuel) ro
            (storage_nodes nodes) t
        else
          Some (persist_history_batch block_number
            (map (λ '(p, node), ((hashed_address, p), node)) (storage_nodes nodes)) append_mode t) in
      let! '(t, rest) := store_storage_tries fuel block_number append_mode tries t in
      Some (Ok (t, keys ++ rest))
  end.

Fixpoint store_storages (fuel : nat) (block_number : Z) (append_mode : bool)
    (l : list (B256 * HashedStorage)) (t : Tb (B256 * B256)%type Z)
  : option (result (Tb (B256 * B256)%type Z * list (B256 * B256)) E) :=
  match l with
  | [] => Some (Ok (t, []))
  | (hashed_address, storage) :: l =>
      let! '(t, keys) :=
        if append_mode && wiped storage then
          let! ro := Some (open_cursor t) in
          wipe_and_overlay fuel block_number hashed_address
            (storage_next (wrapping_sub u64_max block_number 1) hashed_address fuel) ro
            (map (λ '(slot, val), (slot, Some val)) (storage_slots storage)) t
        else
          Some (persist_history_batch block_number
            (map (λ '(key, val), ((hashed_address, key), Some val)) (storage_slots storage))
            append_mode t) in
      let! '(t, rest) := store_storages fuel block_number append_mode l t in
      Some (Ok (t, keys ++ rest))
  end.

Definition store_trie_updates_for_block (fuel : nat) (block_number : Z) (bd : diff)
    (append_mode : bool) (d : db) : option (result (db * ChangeSet) err) :=
  let! '(t, acc_keys) :=
    Some (lift (persist_history_batch block_number (account_nodes bd) append_mode (AccountTrieHistory d))) in
  let d := with_account_trie d t in
  let! '(t, ha_keys) :=
    Some (lift (persist_history_batch block_number (accounts bd) append_mode (HashedAccountHistory d))) in
  let d := with_hashed_accounts d t in
  let! '(t, st_keys) :=
    lift_loop (store_storage_tries fuel block_number append_mode (storage_tries bd) (StorageTrieHistory d)) in
  let d := with_storage_trie d t in
  let! '(t, hs_keys) :=
    lift_loop (store_storages fuel block_number append_mode (storages bd) (HashedStorageHistory d)) in
  let d := with_hashed_storages d t in
  Some (Ok (d, {| account_trie_keys := acc_keys; storage_trie_keys := st_keys;
                  hashed_account_keys := ha_keys; hashed_storage_keys := hs_keys |})).

Definition counts_of (cs : ChangeSet) : WriteCounts := {|
  account_trie_updates_written_total := Z.of_nat (length (account_trie_keys cs));
  storage_trie_updates_written_total := Z.of_nat (length (storage_trie_keys cs));
  hashed_accounts_written_total := Z.of_nat (length (hashed_account_keys cs));
  hashed_storages_written_total := Z.of_nat (length (hashed_storage_keys cs)) |}.

Definition store_trie_updates_append_only (fuel : nat) (block_ref : BlockWithParent) (bd : diff) (d : db)
  : option (result (db * WriteCounts) err) :=
  let block_number := number (block block_ref) in
  let! latest := Some (inner_get_latest_block_number_hash d) in
  let latest_block_hash := default 0 (nhash <$> latest) in
  if negb (latest_block_hash =? parent block_ref) then
    Some (Err (OutOfOrder block_number (parent block_ref) latest_block_hash))
  else
    let! '(d, change_set) := store_trie_updates_for_block fuel block_number bd true d in
    let! cs := Some (lift (p_append block_number change_set (BlockChangeSet d))) in
    let d := with_change_sets d cs in
    let! d := Some (inner_set_latest_block_number block_number (nhash (block block_ref)) d) in
    Some (Ok (d, counts_of change_set)).

Definition store_trie_updates (fuel : nat) (block_ref : BlockWithParent) (bd : diff)
  : db → option (db * result WriteCounts err) :=
  commit_update (store_trie_updates_append_only fuel block_ref bd).

(** *** Pruning *)

(** The walk over the change sets, newest first, down to [earliest]. *)
Fixpoint collect_candidates (earliest : Z) (walk : list (Z * ChangeSet)) (p : PrunePlan) : PrunePlan :=
  match walk with
  | [] => p
  | (block_number, cs) :: walk =>
      if block_number <=? earliest then p
      else collect_candidates earliest walk {|
        earliest_block := earliest_block p;
        acc_survivors := or_insert_all (account_trie_keys cs) block_number (acc_survivors p);
        storage_survivors := or_insert_all (storage_trie_keys cs) block_number (storage_survivors p);
        hashed_acc_survivors := or_insert_all (hashed_account_keys cs) block_number (hashed_acc_survivors p);
        hashed_storage_survivors :=
          or_insert_all (hashed_storage_keys cs) block_number (hashed_storage_survivors p) |}
  end.

Definition calculate_prune_plan (target_block : Z) (d : db) : result (option PrunePlan) err :=
  let? w := inner_get_proof_window d in
  match w with
  | None => Ok None
  | Some (earliest, latest) =>
      if number latest <? target_block then Err (PruneBeyondLatest target_block (number latest))
      else if target_block <=? number earliest then Ok None
      else
        let? walk := lift (p_walk_back target_block (BlockChangeSet d)) in
        let p := collect_candidates (number earliest) walk
          {| earliest_block := number earliest; acc_survivors := []; storage_survivors := [];
             hashed_acc_survivors := []; hashed_storage_survivors := [] |} in
        Ok (Some {|
          earliest_block := earliest_block p;
          acc_survivors := flatten_and_sort (acc_survivors p);
          storage_survivors := flatten_and_sort (storage_survivors p);
          hashed_acc_survivors := flatten_and_sort (hashed_acc_survivors p);
          hashed_storage_survivors := flatten_and_sort (hashed_storage_survivors p) |})
  end.

(** Deleting the change sets a walk visits. *)
Fixpoint delete_walked (walk : list (Z * ChangeSet)) (t : Pt Z ChangeSet) : result (Pt Z ChangeSet) E :=
  match walk with
  | [] => Ok t
  | (b, _) :: walk => let? t := p_delete b t in delete_walked walk t
  end.

Definition prune_update (fuel : nat) (r : BlockWithParent) (d : db) : option (result (db * WriteCounts) err) :=
  let target_block := number (block r) in
  let! plan := Some (calculate_prune_plan target_block d) in
  match plan with
  | None => Some (Ok (d, WriteCounts_default))
  | Some plan =>
      let! '(t, acc_deleted) :=
        lift_loop (prune_history_preceding fuel (acc_survivors plan) (AccountTrieHistory d)) in
      let d := with_account_trie d t in
      let! '(t, st_deleted) :=
        lift_loop (prune_history_preceding fuel (storage_survivors plan) (StorageTrieHistory d)) in
      let d := with_storage_trie d t in
      let! '(t, ha_deleted) :=
        lift_loop (prune_history_preceding fuel (hashed_acc_survivors plan) (HashedAccountHistory d)) in
      let d := with_hashed_accounts d t in
      let! '(t, hs_deleted) :=
        lift_loop (prune_history_preceding fuel (hashed_storage_survivors plan) (HashedStorageHistory d)) in
      let d := with_hashed_storages d t in
      let! walk := Some (lift (p_walk_range (earliest_block plan + 1) (Some target_block) (BlockChangeSet d))) in
      let! cs := Some (lift (delete_walked walk (BlockChangeSet d))) in
      let d := with_change_sets d cs in
      let! d := Some (inner_set_earliest_block_number target_block (nhash (block r)) d) in
      Some (Ok (d, {| account_trie_updates_written_total := acc_deleted;
                      storage_trie_updates_written_total := st_deleted;
                      hashed_accounts_written_total := ha_deleted;
                      hashed_storages_written_total := hs_deleted |}))
  end.

Definition prune_earliest_state (fuel : nat) (new_earliest_block_ref : BlockWithParent)
  : db → option (db * result WriteCounts err) :=
  commit_update (prune_update fuel new_earliest_block_ref).

(** *** Unwinding *)

(** Sorting by key, then by block. *)
Definition sort_history {K} `{KeyOrd K} (l : list (K * Z)) : list (K * Z) :=
  merge_sort (λ p q, ¬ key_lt (q.1, q.2) (p.1, p.2)) l.

Definition keyed {K} (keys : ChangeSet → list K) (walk : list (Z * ChangeSet)) : list (K * Z) :=
  concat (map (λ '(b, cs), map (λ k, (k, b)) (keys cs)) walk).

Definition collect_history_ranged (from_block : Z) (d : db) : result HistoryDeleteBatch err :=
  let? walk := lift (p_walk_range from_block None (BlockChangeSet d)) in
  Ok {| d_account_trie := sort_history (keyed account_trie_keys walk);
        d_storage_trie := sort_history (keyed storage_trie_keys walk);
        d_hashed_account := sort_history (keyed hashed_account_keys walk);
        d_hashed_storage := sort_history (keyed hashed_storage_keys walk) |}.

Definition delete_history_ranged (from_block : Z) (history : HistoryDeleteBatch) (d : db) : result db err :=
  let? walk := lift (p_walk_range from_block None (BlockChangeSet d)) in
  let? cs := lift (delete_walked walk (BlockChangeSet d)) in
  let d := with_change_sets d cs in
  let? t := lift (delete_dup_sorted (d_account_trie history) (AccountTrieHistory d)) in
  let d := with_account_trie d t in
  let? t := lift (delete_dup_sorted (d_storage_trie history) (StorageTrieHistory d)) in
  let d := with_storage_trie d t in
  let? t := lift (delete_dup_sorted (d_hashed_account history) (HashedAccountHistory d)) in
  let d := with_hashed_accounts d t in
  let? t := lift (delete_dup_sorted (d_hashed_storage history) (HashedStorageHistory d)) in
  Ok (with_hashed_storages d t).

Definition unwind_update (to : BlockWithParent) (d : db) : option (result (db * unit) err) :=
  let! w := Some (inner_get_proof_window d) in
  match w with
  | None => Some (Ok (d, tt))
  | Some (earliest, latest) =>
      if number latest <? number (block to) then Some (Ok (d, tt))
      else if number (block to) <=? number earliest then
        Some (Err (UnwindBeyondEarliest (number (block to)) (number earliest)))
      else
        let! history := Some (collect_history_ranged (number (block to)) d) in
        let! d := Some (delete_history_ranged (number (block to)) history d) in
        let! d := Some (inner_set_latest_block_number (saturating_sub (number (block to)) 1) (parent to) d) in
        Some (Ok (d, tt))
  end.

Definition unwind_history (to : BlockWithParent) : db → option (db * result unit err) :=
  commit_update (unwind_update to).

Fixpoint append_blocks (fuel : nat) (blocks : list (BlockWithParent * diff)) (d : db)
  : option (result (db * unit) err) :=
  match blocks with
  | [] => Some (Ok (d, tt))
  | (b, bd) :: blocks =>
      let! '(d, _) := store_trie_updates_append_only fuel b bd d in
      append_blocks fuel blocks d
  end.

Definition by_number (p q : BlockWithParent * diff) : Prop := number (block p.1) ≤ number (block q.1).
#[global] Instance by_number_dec : RelDecision by_number.
Proof. intros p q. unfold by_number. apply _. Defined.

Definition replace_update (fuel : nat) (latest_common_block : NumHash)
    (blocks_to_add : list (BlockWithParent * diff)) (d : db) : option (result (db * unit) err) :=
  let! history := Some (collect_history_ranged (number latest_common_block + 1) d) in
  let! d := Some (delete_history_ranged (number latest_common_block + 1) history d) in
  let! d := Some (inner_set_latest_block_number (number latest_common_block) (nhash latest_common_block) d) in
  append_blocks fuel (merge_sort by_number blocks_to_add) d.

Definition replace_updates (fuel : nat) (latest_common_block : NumHash)
    (blocks_to_add : list (BlockWithParent * diff)) : db → option (db * result unit err) :=
  commit_update (replace_update fuel latest_common_block blocks_to_add).

Definition set_earliest_block_number_hash (block_number : Z) (hash : B256)
  : db → option (db * result unit err) :=
  commit_update (λ d,
    let! d := Some (inner_set_earliest_block_number block_number hash d) in Some (Ok (d, tt))).

(** *** The pruner *)

Section Pruner.
Context {P : Type} (block_hash : Z → result (option B256) P).
Context (retention_blocks prune_batch_size : Z).

Definition target_earliest_block (latest_block : Z) : Z := saturating_sub latest_block retention_blocks.

Definition prune_batch (fuel : nat) (start_blk end_blk : Z) (d : db)
  : option (db * result PrunerOutput (PrunerError E P)) :=
  if end_blk =? 0 then Some (d, Ok (Build_PrunerOutput start_blk end_blk WriteCounts_default))
  else
    match block_hash end_blk with
    | Err e => Some (d, Err (Provider e))
    | Ok None => Some (d, Err (BlockNotFound end_blk))
    | Ok (Some new_earliest_block_hash) =>
        match prune_earliest_state fuel
                (Build_BlockWithParent 0 (Build_NumHash end_blk new_earliest_block_hash)) d with
        | None => None
        | Some (d, Err e) => Some (d, Err (Storage e))
        | Some (d, Ok counts) => Some (d, Ok (Build_PrunerOutput start_blk end_blk counts))
        end
    end.

Fixpoint prune_loop (batches fuel : nat) (target current : Z) (out : PrunerOutput) (d : db)
  : option (db * result PrunerOutput (PrunerError E P)) :=
  match batches with
  | O => None
  | S batches =>
      if current <? target then
        let batch_end_block := Z.min (saturating_add u64_max current prune_batch_size) target in
        match prune_batch fuel current batch_end_block d with
        | None => None
        | Some (d, Err e) => Some (d, Err e)
        | Some (d, Ok batch_output) =>
            prune_loop batches fuel target batch_end_block (extend_ref out batch_output) d
        end
      else Some (d, Ok out)
  end.

Definition run_inner (batches fuel : nat) (d : db) : option (db * result PrunerOutput (PrunerError E P)) :=
  match inner_get_earliest_block_number_hash d with
  | Err e => Some (d, Err (Storage e))
  | Ok earliest =>
      match inner_get_latest_block_number_hash d with
      | Err e => Some (d, Err (Storage e))
      | Ok latest =>
          match earliest, latest with
          | Some earliest, Some latest =>
              let target := target_earliest_block (number latest) in
              if target <=? number earliest then Some (d, Ok PrunerOutput_default)
              else prune_loop batches fuel target (number earliest)
                     (Build_PrunerOutput (number earliest) target WriteCounts_default) d
          | _, _ => Some (d, Ok PrunerOutput_default)
          end
      end
  end.
End Pruner.
End Store.
