(* ===== verification/StoreRefinement.v ===== *)
(** * The proofs store refines a window of states

    The contract of [ProofsStore]: a window of consecutive blocks, each with a state
    (trie nodes, accounts and storage slots).  [indexed] is the invariant of a history
    table and its column of the change sets; [store_inv] is that of the store.  The
    theorems show that appending, pruning, unwinding and replacing blocks implement the
    corresponding operations on the window, or leave the store as it was. *)

From stdpp Require Import sorting.
From S2P Require Import Prelude.
From S2P Require Import Versioned.
From S2P Require Import HistoryWrites.
From S2P Require Import ProofsStore.
#[local] Open Scope Z_scope.

(** ** One table and its change sets *)

Section Indexed.
Context {K V : Type} `{KeyOrdLaws K}.
Implicit Types (rs : list (K * VersionedValue V)) (ka : Z → list K).

(** The versions are up to [l], and those after [e] are the ones the change sets list. *)
Record indexed (e l : Z) ka rs : Prop := {
  ix_wf : wf_rows rs;
  ix_latest : ∀ k v, (k, v) ∈ rs → block_number v ≤ l;
  ix_keys : ∀ b k, e < b ≤ l → k ∈ ka b ↔ ∃ v, (k, v) ∈ rs ∧ block_number v = b;
}.

Lemma indexed_append e l ka ka' items rs rs' : indexed e l ka rs → wf_rows rs' → e ≤ l →
  added (l + 1) items rs rs' →
  (∀ b, b ≤ l → ka' b = ka b) → ka' (l + 1) = map fst items → indexed e (l + 1) ka' rs'.
Proof.
  intros [Hwf Hl Hk] Hwf' Hel Hadd Hold Hnew. split; [done|..].
  - intros k v [Hin|[Hb _]%elem_of_into_kv]%Hadd; [|lia]. specialize (Hl _ _ Hin). lia.
  - intros b k Hb. destruct (Z.eq_dec b (l + 1)) as [->|Hne].
    + rewrite Hnew, list_elem_of_fmap. split.
      * intros ([k' o] & -> & Hin). exists {| block_number := l + 1; vvalue := o |}. split; [|done].
        apply Hadd. right. by apply elem_of_into_kv.
      * intros (v & [Hin|[_ Hin]%elem_of_into_kv]%Hadd & Hv); [specialize (Hl _ _ Hin); lia|].
        by exists (k, vvalue v).
    + rewrite Hold, Hk by lia. split.
      * intros (v & Hin & Hv). exists v. split; [|done]. apply Hadd. by left.
      * intros (v & [Hin|[Hv' _]%elem_of_into_kv]%Hadd & Hv); [by exists v|lia].
Qed.

(** The survivors of a prune: each key's newest change up to [target]. *)
Definition survivors_of (e target : Z) ka (survivors : list (K * Z)) : Prop :=
  ∀ k s, (k, s) ∈ survivors ↔ e < s ≤ target ∧ k ∈ ka s ∧ ∀ b, s < b ≤ target → k ∉ ka b.

Lemma survivors_rows e l target ka survivors rs : indexed e l ka rs → target ≤ l →
  survivors_of e target ka survivors →
  ∀ k s, (k, s) ∈ survivors → s ≤ target ∧ ∃ v, (k, v) ∈ rs ∧ block_number v = s.
Proof. intros [_ _ Hk] Ht Hs k s (Hr & Hin & _)%Hs. split; [lia|]. apply Hk; [lia|done]. Qed.

Lemma indexed_prune e l target ka ka' survivors rs rs' : indexed e l ka rs → wf_rows rs' →
  e < target ≤ l → survivors_of e target ka survivors → all_pruned survivors rs rs' →
  (∀ b, target < b ≤ l → ka' b = ka b) → indexed target l ka' rs'.
Proof.
  intros [Hwf Hl Hk] Hwf' Ht Hs Hin Hka. split; [done|..].
  - intros k v [Hr _]%Hin. by apply (Hl k).
  - intros b k Hb. rewrite Hka, Hk by lia. split; intros (v & Hr & Hv); exists v; (split; [|done]).
    + apply Hin. split; [done|]. cbn. intros s (Hr' & _)%Hs. intros [?|[? _]]; lia.
    + by apply Hin in Hr as [? _].
Qed.

Lemma indexed_ext e l ka ka' rs : (∀ b, e < b ≤ l → ka' b = ka b) → indexed e l ka rs → indexed e l ka' rs.
Proof. intros He [Hwf Hl Hk]. split; [done..|]. intros b k Hb. by rewrite He, Hk. Qed.

(** What an unwind to [to] deletes: every version from [to] on. *)
Lemma unwound_rows e l to ka (items : list (K * Z)) rs rs' : indexed e l ka rs → e < to →
  (∀ k b, (k, b) ∈ items ↔ to ≤ b ≤ l ∧ k ∈ ka b) →
  (∀ r, r ∈ rs' ↔ r ∈ rs ∧ row_key r ∉ items) →
  ∀ r, r ∈ rs' ↔ r ∈ rs ∧ block_number r.2 < to.
Proof.
  intros [Hwf Hl Hk] Hto Hitems Hin [k v]. rewrite Hin. cbn. unfold row_key. cbn. rewrite Hitems.
  split; intros [Hr Hn]; (split; [done|]).
  - destruct (Z.lt_ge_cases (block_number v) to) as [|Hge]; [done|]. destruct Hn.
    specialize (Hl _ _ Hr). split; [lia|]. apply Hk; [lia|]. by exists v.
  - intros [Hb _]. lia.
Qed.

Lemma indexed_unwind e l to ka ka' rs rs' : indexed e l ka rs → wf_rows rs' →
  e < to ≤ l + 1 → (∀ r, r ∈ rs' ↔ r ∈ rs ∧ block_number r.2 < to) →
  (∀ b, b < to → ka' b = ka b) → indexed e (to - 1) ka' rs'.
Proof.
  intros [Hwf Hl Hk] Hwf' Hto Hin Hka. split; [done|..].
  - intros k v [_ Hv]%Hin. cbn in Hv. lia.
  - intros b k Hb. rewrite Hka, Hk by lia. split; intros (v & Hr & Hv); exists v; (split; [|done]).
    + apply Hin. cbn. split; [done|lia].
    + by apply Hin in Hr as [? _].
Qed.
End Indexed.

Lemma keys_NoDup {K V} `{KeyOrdLaws K} (rs : list (K * VersionedValue V)) :
  wf_rows rs → NoDup (keys_of rs).
Proof.
  intros [Hs%keys_sorted _]. revert Hs. generalize (keys_of rs).
  induction 1 as [|k l Hl IH Hk]; constructor; [|done]. intros Hin.
  rewrite Forall_forall in Hk. by destruct (irreflexivity key_lt _ (Hk _ Hin)).
Qed.

(** The keys a batch can add to a table. *)
Lemma keys_added {K V} `{KeyOrdLaws K} b (items : list (K * option V)) (new : list K) rs rs' :
  wf_rows rs' → added b items rs rs' →
  (∀ k, k ∈ map fst items → k ∈ keys_of rs ∨ k ∈ new) →
  (length (keys_of rs') ≤ length (keys_of rs) + length new)%nat.
Proof.
  intros Hwf Hadd Hnew. rewrite <- length_app. apply submseteq_length, NoDup_submseteq.
  - by apply keys_NoDup.
  - intros k (v & [Hin|[_ Hin]%elem_of_into_kv]%Hadd)%elem_of_keys; apply elem_of_app.
    + left. apply elem_of_keys. by exists v.
    + apply Hnew, list_elem_of_fmap. by exists (k, vvalue v).
Qed.

(** ** The change sets of a plan *)

Section Plans.
Context {K : Type} `{KeyOrdLaws K}.

Lemma elem_of_or_insert_all keys b (m : list (K * Z)) k s :
  (k, s) ∈ or_insert_all keys b m ↔
  (k, s) ∈ m ∨ s = b ∧ k ∈ keys ∧ (k ∉ map fst m).
Proof.
  revert m. induction keys as [|k1 keys IH]; intros m; cbn.
  { rewrite elem_of_nil. tauto. }
  rewrite IH, elem_of_cons. case_bool_decide as Hk1.
  - split; [tauto|]. intros [?|(-> & [->|?] & ?)]; [by left|done|by right].
  - rewrite elem_of_app, list_elem_of_singleton, map_app, elem_of_app. cbn. rewrite list_elem_of_singleton. split.
    + intros [[?|[= -> ->]]|(-> & ? & Hn)]; [by left|right; by auto|right]. split_and!; [done|by right|tauto].
    + intros [?|(-> & Hk & Hn)]; [by left; left|].
      destruct (decide (k = k1)) as [->|Hne]; [by left; right|].
      destruct Hk as [?|Hk]; [done|]. right. split_and!; [done..|]. intros [?|?]; done.
Qed.

(** The columns of a change set. *)
Fixpoint candidates (keys : ChangeSet → list K) (earliest : Z) (walk : list (Z * ChangeSet))
    (m : list (K * Z)) : list (K * Z) :=
  match walk with
  | [] => m
  | (b, cs) :: walk => if b <=? earliest then m else candidates keys earliest walk (or_insert_all (keys cs) b m)
  end.

Lemma candidates_spec keys e walk m : StronglySorted Z.gt (map fst walk) →
  (∀ k s b, (k, s) ∈ m → b ∈ map fst walk → b < s) →
  ∀ k s, (k, s) ∈ candidates keys e walk m ↔
    (k, s) ∈ m ∨ e < s ∧ (k ∉ map fst m) ∧ (∃ cs, (s, cs) ∈ walk ∧ k ∈ keys cs)
      ∧ ∀ b cs, (b, cs) ∈ walk → s < b → k ∉ keys cs.
Proof.
  revert m. induction walk as [|[b cs] walk IH]; intros m Hs Hm k s; cbn [candidates].
  { split; [by left|]. intros [?|(_ & _ & (? & []%elem_of_nil & _) & _)]; done. }
  cbn [map fst] in Hs, Hm. apply StronglySorted_inv in Hs as [Hs Hb]. rewrite Forall_forall in Hb.
  assert (Hlow : ∀ b' cs', (b', cs') ∈ walk → b' < b).
  { intros b' cs' Hin. assert (b > b') by (apply Hb, list_elem_of_fmap; by exists (b', cs')). lia. }
  destruct (Z.leb_spec b e) as [Hbe|Hbe].
  { split; [by left|]. intros [?|(He & _ & (cs' & [[= <- <-]|Hin]%elem_of_cons & _) & _)]; [done|lia|].
    specialize (Hlow _ _ Hin). lia. }
  rewrite IH; [|done|].
  2:{ intros k' s' b' [Hin|(-> & _)]%elem_of_or_insert_all Hb'; [eapply Hm; [done|by right]|].
      specialize (Hb _ Hb'). lia. }
  assert (Hkeys : ∀ k, k ∈ map fst (or_insert_all (keys cs) b m) ↔ k ∈ map fst m ∨ k ∈ keys cs).
  { intros k'. rewrite !list_elem_of_fmap. split.
    - intros ([k2 s2] & -> & [Hin|(_ & Hin & _)]%elem_of_or_insert_all); [left; by exists (k2, s2)|by right].
    - intros [([k2 s2] & -> & Hin)|Hin].
      + exists (k2, s2). split; [done|]. apply elem_of_or_insert_all. by left.
      + destruct (decide (k' ∈ map fst m)) as [Hm'|Hm'].
        * apply list_elem_of_fmap in Hm' as ([k2 s2] & -> & Hin2). exists (k2, s2).
          split; [done|]. apply elem_of_or_insert_all. by left.
        * exists (k', b). split; [done|]. apply elem_of_or_insert_all. by right. }
  rewrite elem_of_or_insert_all, Hkeys. split.
  - intros [[?|(-> & Hk & Hn)]|(He & Hn & (cs' & Hin & Hk) & Hmax)]; [by left|right|right].
    + split_and!; [done..| |].
      * exists cs. split; [left|done].
      * intros b' cs' [[= -> ->]|Hin]%elem_of_cons; [lia|]. specialize (Hlow _ _ Hin). lia.
    + split_and!; [done|tauto| |].
      * exists cs'. split; [by right|done].
      * intros b' cs2 [[= -> ->]|Hin2]%elem_of_cons Hlt; [tauto|by eapply Hmax].
  - intros [?|(He & Hn & (cs' & [[= -> ->]|Hin]%elem_of_cons & Hk) & Hmax)]; [by left; left| |].
    + left. right. by split_and!.
    + right. split_and!; [done| | |].
      * intros [?|Hk']; [done|]. eapply Hmax; [left|by eapply Hlow|done].
      * by exists cs'.
      * intros b' cs2 Hin2. apply Hmax. by right.
Qed.

Lemma elem_of_flatten_and_sort (m : list (K * Z)) p : p ∈ flatten_and_sort m ↔ p ∈ m.
Proof. unfold flatten_and_sort. by rewrite merge_sort_Permutation. Qed.

Lemma elem_of_sort_history (m : list (K * Z)) p : p ∈ sort_history m ↔ p ∈ m.
Proof. unfold sort_history. by rewrite merge_sort_Permutation. Qed.

Lemma elem_of_keyed (keys : ChangeSet → list K) walk k b :
  (k, b) ∈ keyed keys walk ↔ ∃ cs, (b, cs) ∈ walk ∧ k ∈ keys cs.
Proof.
  unfold keyed. rewrite list_elem_of_In, in_concat. split.
  - intros (l & Hl & Hk). rewrite <- list_elem_of_In in Hl. rewrite <- list_elem_of_In in Hk.
    apply list_elem_of_fmap in Hl as ([b' cs] & -> & Hin).
    apply list_elem_of_fmap in Hk as (k' & [= -> ->] & Hk). by exists cs.
  - intros (cs & Hin & Hk). exists (map (λ k, (k, b)) (keys cs)). split; apply list_elem_of_In, list_elem_of_fmap; [by exists (b, cs)|by exists k].
Qed.
End Plans.

(** ** States and diffs *)

(** The state of a block; a slot that is zero is absent. *)
Record State (Node Account : Type) := {
  v_account_nodes : path → option Node;
  v_storage_nodes : B256 * path → option Node;
  v_accounts : B256 → option Account;
  v_slots : B256 * B256 → option Z;
}.
Arguments v_account_nodes {Node Account}.
Arguments v_storage_nodes {Node Account}.
Arguments v_accounts {Node Account}.
Arguments v_slots {Node Account}.

(** States are compared entry by entry. *)
#[global] Instance State_equiv Node Account : Equiv (State Node Account) := λ s1 s2,
  (∀ k, v_account_nodes s1 k = v_account_nodes s2 k)
  ∧ (∀ k, v_storage_nodes s1 k = v_storage_nodes s2 k)
  ∧ (∀ k, v_accounts s1 k = v_accounts s2 k)
  ∧ ∀ k, v_slots s1 k = v_slots s2 k.

#[global] Instance State_equivalence Node Account : Equivalence (≡@{State Node Account}).
Proof.
  split.
  - intros s. by split_and!.
  - intros s1 s2 (H1 & H2 & H3 & H4). by split_and!.
  - intros s1 s2 s3 (H1 & H2 & H3 & H4) (G1 & G2 & G3 & G4).
    split_and!; intros k; congruence.
Qed.

Definition nz (o : option Z) : option Z := o ≫= λ v, if v =? 0 then None else Some v.

(** An account's updated nodes, over its old ones. *)
Definition node_after {Node} (tries : list (B256 * StorageTrieUpdates Node))
    (old : B256 * path → option Node) (k : B256 * path) : option Node :=
  match item_of tries k.1 with
  | None => old k
  | Some u => default (if is_deleted u then None else old k) (item_of (storage_nodes u) k.2)
  end.

Definition slot_after (l : list (B256 * HashedStorage)) (old : B256 * B256 → option Z)
    (k : B256 * B256) : option Z :=
  match item_of l k.1 with
  | None => old k
  | Some u =>
      match item_of (storage_slots u) k.2 with
      | Some v => nz (Some v)
      | None => if wiped u then None else old k
      end
  end.

Definition apply_diff {Node Account} (bd : BlockStateDiff Node Account) (s : State Node Account)
  : State Node Account := {|
  v_account_nodes k := default (v_account_nodes s k) (item_of (account_nodes bd) k);
  v_storage_nodes := node_after (storage_tries bd) (v_storage_nodes s);
  v_accounts k := default (v_accounts s k) (item_of (accounts bd) k);
  v_slots := slot_after (storages bd) (v_slots s) |}.

#[global] Instance apply_diff_proper Node Account (bd : BlockStateDiff Node Account) :
  Proper ((≡) ==> (≡)) (apply_diff bd).
Proof.
  intros s1 s2 (H1 & H2 & H3 & H4). split_and!; intros k; cbn.
  - by rewrite H1.
  - unfold node_after. by rewrite H2.
  - by rewrite H3.
  - unfold slot_after. by rewrite H4.
Qed.

(** Sorted updates: every key once, hashes in range. *)
Definition hashes_ok {A} (l : list (B256 * A)) : Prop := NoDup (map fst l) ∧ Forall (λ a, 0 ≤ a) (map fst l).
Record diff_wf {Node Account} (bd : BlockStateDiff Node Account) : Prop := {
  dw_account_nodes : NoDup (map fst (account_nodes bd));
  dw_storage_tries : hashes_ok (storage_tries bd);
  dw_storage_nodes : ∀ a u, (a, u) ∈ storage_tries bd → NoDup (map fst (storage_nodes u));
  dw_accounts : hashes_ok (accounts bd);
  dw_storages : hashes_ok (storages bd);
  dw_slots : ∀ a u, (a, u) ∈ storages bd → hashes_ok (storage_slots u);
}.

(** The number of entries of a diff's storage updates. *)
Definition trie_entries {Node} (tries : list (B256 * StorageTrieUpdates Node)) : nat :=
  foldr (λ x n, (length (storage_nodes x.2) + n)%nat) 0%nat tries.
Definition slot_entries (l : list (B256 * HashedStorage)) : nat :=
  foldr (λ x n, (length (storage_slots x.2) + n)%nat) 0%nat l.

(** ** Storage updates of a block *)

Section StorageUpdates.
Context {K V : Type} `{KeyOrdLaws K}.
Implicit Types (rs : list (Z * K * VersionedValue V)) (new : list (K * option V)).

(** A batch of entries of some addresses, and what it does to the view before it. *)
Record address_batch (addresses : list Z) (items : list (Z * K * option V)) : Prop := {
  ab_NoDup : NoDup (map fst items);
  ab_key_ok : ∀ k, k ∈ map fst items → key_ok k;
  ab_address : ∀ k, k ∈ map fst items → k.1 ∈ addresses;
}.

Lemma address_batch_app a addresses items1 items2 : (a ∉ addresses) →
  address_batch [a] items1 → address_batch addresses items2 →
  address_batch (a :: addresses) (items1 ++ items2).
Proof.
  intros Ha [N1 O1 A1] [N2 O2 A2]. split.
  - rewrite map_app. apply NoDup_app. split_and!; [done| |done]. intros k H1k H2k.
    apply A1, list_elem_of_singleton in H1k. apply A2 in H2k. by rewrite H1k in H2k.
  - intros k. rewrite map_app, elem_of_app. intros [?|?]; auto.
  - intros k. rewrite map_app, elem_of_app, elem_of_cons.
    intros [Hk|Hk]; [left; by apply A1, list_elem_of_singleton in Hk|right; by apply A2].
Qed.

Lemma address_batch_one a items : 0 ≤ a → NoDup (map fst items) →
  (∀ k, k ∈ map fst items → key_ok k) → address_batch [a] (at_address a items).
Proof.
  intros Ha Hn Hok. split; [by apply NoDup_at_address|..].
  - intros [a' k]. rewrite elem_of_at_address_keys. cbn. intros [-> Hk]. by split; [|apply Hok].
  - intros [a' k]. rewrite elem_of_at_address_keys. cbn. intros [-> _]. by apply list_elem_of_singleton.
Qed.

Lemma item_of_at_address a (items : list (K * option V)) a' k :
  item_of (at_address a items) (a', k) = if a' =? a then item_of items k else None.
Proof.
  unfold item_of, at_address. induction items as [|[k' o] items IH]; cbn; [by destruct (a' =? a)|].
  destruct (Z.eqb_spec a' a) as [->|Hne].
  - destruct (decide (k' = k)) as [->|Hne].
    + by rewrite !bool_decide_true.
    + by rewrite !bool_decide_false by congruence.
  - by rewrite bool_decide_false by congruence.
Qed.

Lemma added_app b items1 items2 rs rs1 rs2 :
  added b items1 rs rs1 → added b items2 rs1 rs2 → added b (items1 ++ items2) rs rs2.
Proof. intros H1 H2 r. rewrite (H2 r), (H1 r), map_app, elem_of_app. tauto. Qed.

(** What a wipe leaves of a key of its address: the new entry, or nothing. *)
Lemma wiped_item (live : list K) new merged k : NoDup (map fst merged) → NoDup (map fst new) →
  wiped_over live new merged →
  item_of merged k = match item_of new k with
                     | Some o => Some o
                     | None => if bool_decide (k ∈ live) then Some None else None
                     end.
Proof.
  intros Hm Hn Hw. destruct (item_of new k) as [o|] eqn:Hk.
  - apply item_of_Some; [done|]. apply Hw. left. by apply item_of_Some.
  - apply item_of_None in Hk. case_bool_decide as Hl.
    + apply item_of_Some; [done|]. apply Hw. by right.
    + apply item_of_None. intros ([k' o] & -> & [Hin|(_ & _ & Hin)]%Hw)%list_elem_of_fmap; [|done].
      destruct Hk. apply list_elem_of_fmap. by exists (k', o).
Qed.

(** The keys of a wipe are old ones or new entries. *)
Lemma wiped_keys live new merged k : wiped_over live new merged →
  k ∈ map fst merged → k ∈ live ∨ k ∈ map fst new.
Proof.
  intros Hw ([k' o] & -> & [Hin|(_ & _ & Hin)]%Hw)%list_elem_of_fmap; [right|by left].
  apply list_elem_of_fmap. by exists (k', o).
Qed.
End StorageUpdates.

(** *** Address by address *)

Section Batches.
Context {K V : Type} `{KeyOrdLaws K} (f : option V → option V) (b : Z).
Implicit Types (rs : list (Z * K * VersionedValue V)) (old : Z * K → option V).

Definition fresh (addresses : list Z) rs : Prop :=
  ∀ a k v, a ∈ addresses → (a, k, v) ∈ rs → block_number v < b.

(** The rows gained one batch, which turns each old value, as [f] reads it, into
    [after]'s. *)
Definition batch_spec (addresses : list Z) (n : nat) (after : (Z * K → option V) → Z * K → option V)
    rs rs' (keys : list (Z * K)) : Prop :=
  ∃ items, wf_rows rs' ∧ added b items rs rs' ∧ keys = map fst items
    ∧ address_batch addresses items
    ∧ (length (keys_of rs') ≤ length (keys_of rs) + n)%nat
    ∧ ∀ k, f (default (view rs (b - 1) k) (item_of items k)) = after (λ k, f (view rs (b - 1) k)) k.

Lemma address_batch_none addresses (items : list (Z * K * option V)) k :
  address_batch addresses items → (k.1 ∉ addresses) → item_of items k = None.
Proof. intros [_ _ Ha] Hk. apply item_of_None. intros Hin. by apply Hk, Ha. Qed.

Lemma batch_compose a addresses n1 n2 after1 after2 rs rs1 rs2 keys1 keys2 :
  wf_rows rs → (a ∉ addresses) → fresh (a :: addresses) rs →
  batch_spec [a] n1 after1 rs rs1 keys1 → batch_spec addresses n2 after2 rs1 rs2 keys2 →
  (∀ old old' k, old k = old' k → after2 old k = after2 old' k) →
  batch_spec (a :: addresses) (n1 + n2)
    (λ old k, if k.1 =? a then after1 old k else after2 old k) rs rs2 (keys1 ++ keys2).
Proof.
  intros Hwf Ha Hfresh (i1 & Hwf1 & Hadd1 & -> & Hb1 & Hn1 & Hv1)
    (i2 & Hwf2 & Hadd2 & -> & Hb2 & Hn2 & Hv2) Hext.
  exists (i1 ++ i2). split_and!.
  - done.
  - by eapply added_app.
  - by rewrite map_app.
  - by apply address_batch_app.
  - lia.
  - assert (Hsame : ∀ k, view rs1 (b - 1) k = view rs (b - 1) k).
    { intros k. erewrite (view_added b i1 rs rs1); [|done|done|apply Hb1| |done].
      - by destruct (Z.ltb_spec (b - 1) b); [|lia].
      - intros v Hk. destruct k as [a' k]. apply (ab_address _ _ Hb1), list_elem_of_singleton in Hk.
        cbn in Hk. subst a'. apply Hfresh. left. }
    intros k. rewrite item_of_app. destruct (Z.eqb_spec k.1 a) as [Hk|Hk].
    + rewrite <- Hv1. destruct (item_of i1 k) eqn:Hi; [done|].
      by rewrite (address_batch_none _ _ _ Hb2) by by rewrite Hk.
    + rewrite (address_batch_none _ _ _ Hb1) by by rewrite list_elem_of_singleton.
      rewrite <- Hsame, Hv2. apply Hext. by rewrite Hsame.
Qed.

Lemma batch_nil rs : wf_rows rs → batch_spec [] 0 (λ old k, old k) rs rs [].
Proof.
  intros Hwf. exists []. split_and!; [done| |done| |lia|done].
  - intros r. cbn. rewrite elem_of_nil. tauto.
  - split; [apply NoDup_nil_2|by intros ? []%elem_of_nil..].
Qed.

Lemma fresh_rest a addresses n after rs rs1 keys : (a ∉ addresses) →
  fresh (a :: addresses) rs → batch_spec [a] n after rs rs1 keys → fresh addresses rs1.
Proof.
  intros Ha Hfresh (i & _ & Hadd & _ & Hbi & _) a' k v Ha' Hr.
  apply Hadd in Hr as [Hr|[_ Hr]%elem_of_into_kv]; [apply (Hfresh a' k); [by right|done]|].
  assert (Hk : (a', k) ∈ map fst i) by (apply list_elem_of_fmap; by exists (a', k, vvalue v)).
  apply (ab_address _ _ Hbi), list_elem_of_singleton in Hk. cbn in Hk. by subst.
Qed.

Lemma batch_ext addresses n after after' rs rs' keys :
  (∀ old k, after old k = after' old k) →
  batch_spec addresses n after rs rs' keys → batch_spec addresses n after' rs rs' keys.
Proof.
  intros He (items & Hwf & Hadd & Hk & Hb & Hn & Hv). exists items. split_and!; [done..|].
  intros k. by rewrite Hv, He.
Qed.

(** A plain batch of one address. *)
Lemma batch_persist a (new : list (K * option V)) after rs rs' : wf_rows rs' → 0 ≤ a →
  NoDup (map fst new) → (∀ k, k ∈ map fst new → key_ok k) → added b (at_address a new) rs rs' →
  (∀ old k, after (λ k, f (old k)) k
    = f (if k.1 =? a then default (old k) (item_of new k.2) else old k)) →
  batch_spec [a] (length new) after rs rs' (map fst (at_address a new)).
Proof.
  intros Hwf' Ha Hn Hok Hadd Hafter. exists (at_address a new).
  split_and!; [done|done|done|by apply address_batch_one| |].
  - rewrite <- (length_map (λ i : K * option V, (a, i.1)) new).
    eapply keys_added; [done|done|]. intros k. rewrite elem_of_at_address_keys. intros [<- Hk].
    right. apply list_elem_of_fmap in Hk as (i & Hk & Hin). apply list_elem_of_fmap. exists i.
    split; [|done]. rewrite <- Hk. by destruct k.
  - intros [a' k]. rewrite Hafter, item_of_at_address. cbn. by destruct (a' =? a).
Qed.

(** A wipe of one address, given the keys that were live. *)
Lemma batch_wipe a (live : list K) (new merged : list (K * option V)) after rs rs' :
  wf_rows rs' → 0 ≤ a → NoDup (map fst new) → NoDup (map fst merged) →
  (∀ k, k ∈ map fst merged → key_ok k) → wiped_over live new merged →
  added b (at_address a merged) rs rs' →
  (∀ k, k ∈ live → (a, k) ∈ keys_of rs) → (∀ k, (k ∉ live) → f (view rs (b - 1) (a, k)) = f None) →
  (∀ old k, after (λ k, f (old k)) k
    = f (if k.1 =? a then default None (item_of new k.2) else old k)) →
  batch_spec [a] (length new) after rs rs' (map fst (at_address a merged)).
Proof.
  intros Hwf' Ha Hn Hm Hok Hw Hadd Hlive Hdead Hafter. exists (at_address a merged).
  split_and!; [done|done|done|by apply address_batch_one| |].
  - rewrite <- (length_map (λ i : K * option V, (a, i.1)) new).
    eapply keys_added; [done|done|]. intros k. rewrite elem_of_at_address_keys. intros [<- Hk].
    destruct (wiped_keys _ _ _ _ Hw Hk) as [Hl|Hk']; [left; specialize (Hlive _ Hl); by destruct k|right].
    apply list_elem_of_fmap in Hk' as (i & Hk' & Hin). apply list_elem_of_fmap. exists i.
    split; [|done]. rewrite <- Hk'. by destruct k.
  - intros [a' k]. rewrite Hafter, item_of_at_address. cbn. destruct (Z.eqb_spec a' a) as [->|]; [|done].
    rewrite (wiped_item live new merged) by done. destruct (item_of new k); [done|]. cbn.
    case_bool_decide; [done|]. cbn. by apply Hdead.
Qed.
End Batches.

Section BlockWrites.
Context {Tb C : Type → Type → Type} {E Node : Type} `{DupDbLaws Tb C E}.
Context (fuel : nat) (b : Z).
Hypothesis Hb : 0 < b ≤ u64_max.

Lemma lookback : wrapping_sub u64_max b 1 = b - 1.
Proof. apply wrapping_sub_exact. lia. Qed.

(** The live entries of an address, as its cursor lists them. *)
Lemma NoDup_live {K V} `{KeyOrdLaws K} (es : list (K * V)) :
  StronglySorted key_lt (map fst es) → NoDup (map fst es).
Proof. apply btree_NoDup. Qed.

Lemma live_key {K V} `{KeyOrdLaws K} (rs : list (K * VersionedValue V)) n k v :
  wf_rows rs → view rs n k = Some v → k ∈ keys_of rs ∧ key_ok k.
Proof.
  intros Hwf Hv. unfold view in Hv. destruct (version_at rs n k) as [vv|] eqn:Hvv; [|done].
  apply version_at_Some in Hvv as [Hr _]; [|apply Hwf]. split.
  - apply elem_of_keys. by exists vv.
  - by destruct (wf_row _ _ _ Hwf Hr).
Qed.

Lemma node_after_cons a (u : StorageTrieUpdates Node) tries old k :
  node_after ((a, u) :: tries) old k
  = if k.1 =? a then node_after [(a, u)] old k else node_after tries old k.
Proof.
  unfold node_after. rewrite !item_of_cons.
  destruct (Z.eqb_spec k.1 a) as [->|Hne]; [by rewrite !bool_decide_true|].
  by rewrite bool_decide_false.
Qed.

Lemma node_after_one a (u : StorageTrieUpdates Node) old k :
  node_after [(a, u)] old k
  = if k.1 =? a then default (if is_deleted u then None else old k) (item_of (storage_nodes u) k.2)
    else old k.
Proof.
  unfold node_after. rewrite item_of_cons.
  destruct (Z.eqb_spec k.1 a) as [->|Hne]; [by rewrite bool_decide_true|].
  by rewrite bool_decide_false.
Qed.

(** One account's storage trie. *)
Lemma store_trie_wipe_spec a (u : StorageTrieUpdates Node) (t : Tb (B256 * path)%type Node) ro :
  wf_rows (rows t) → 0 ≤ a → NoDup (map fst (storage_nodes u)) → fresh b [a] (rows t) →
  (length (keys_of (rows t)) < fuel)%nat → is_deleted u = true →
  table_of ro = t → position ro = None →
  returns (wipe_and_overlay fuel b a (trie_next (b - 1) a fuel) ro (storage_nodes u) t) (λ '(t1, keys),
    wf_rows (rows t1)
    ∧ batch_spec id b [a] (length (storage_nodes u)) (node_after [(a, u)]) (rows t) (rows t1) keys).
Proof.
  intros Hwf Ha Hnu Hfresh Hfuel Hd Hro Hp.
  destruct (live_entries_spec (rows t) (b - 1) (proj1 Hwf)) as [Hsort Hlive].
  set (es := bound_entries a (live_entries (rows t) (b - 1))).
  assert (Hin : ∀ k v, (k, v) ∈ es ↔ view (rows t) (b - 1) (a, k) = Some v).
  { intros k v. unfold es. by rewrite elem_of_bound, Hlive. }
  eapply returns_mono.
  - eapply (wipe_and_overlay_spec fuel b a _ ro es); [done|lia|done| | |done|done|done|].
    + unfold es. rewrite <- Hro in *. apply drain_trie_spec; [apply _|done..].
    + by apply NoDup_live, bound_sorted.
    + intros k v. apply Hfresh. left.
  - intros [t1 keys] (merged & Hwf1 & Hadd & -> & Hm & Hokm & Hw). split; [done|].
    eapply batch_wipe; [done..| | |].
    + intros k ([k' v] & -> & Hk%Hin)%list_elem_of_fmap. by apply (live_key _ _ _ _ Hwf) in Hk as [? _].
    + intros k Hk. cbn. destruct (view _ _ _) as [v|] eqn:Hv; [|done]. destruct Hk.
      apply list_elem_of_fmap. exists (k, v). split; [done|]. by apply Hin.
    + intros old k. rewrite node_after_one, Hd. done.
Qed.

Lemma store_trie_persist_spec a (u : StorageTrieUpdates Node) (t : Tb (B256 * path)%type Node) :
  wf_rows (rows t) → 0 ≤ a → NoDup (map fst (storage_nodes u)) → fresh b [a] (rows t) →
  is_deleted u = false →
  outcome (persist_history_batch b (at_address a (storage_nodes u)) true t) (λ '(t1, keys),
    wf_rows (rows t1)
    ∧ batch_spec id b [a] (length (storage_nodes u)) (node_after [(a, u)]) (rows t) (rows t1) keys).
Proof.
  intros Hwf Ha Hnu Hfresh Hd. eapply outcome_mono.
  - apply persist_append_spec; [done|lia|by apply NoDup_at_address| |].
    + intros k [<- _]%elem_of_at_address_keys. by destruct k.
    + intros [a' k] v [Hk _]%elem_of_at_address_keys. cbn in Hk. subst a'. apply Hfresh. left.
  - intros [t1 keys] (Hwf1 & Hadd & ->). split; [done|]. apply batch_persist; [done..|].
    intros old k. rewrite node_after_one, Hd. done.
Qed.

Lemma store_storage_tries_spec (tries : list (B256 * StorageTrieUpdates Node)) (t : Tb (B256 * path)%type Node) :
  wf_rows (rows t) → hashes_ok tries →
  (∀ a u, (a, u) ∈ tries → NoDup (map fst (storage_nodes u))) →
  fresh b (map fst tries) (rows t) →
  (length (keys_of (rows t)) + trie_entries tries < fuel)%nat →
  returns (store_storage_tries fuel b true tries t) (λ '(t', keys),
    batch_spec id b (map fst tries) (trie_entries tries) (node_after tries) (rows t) (rows t') keys).
Proof.
  revert t. induction tries as [|[a u] tries IH]; intros t Hwf [Hnd Hok] Hnodes Hfresh Hfuel.
  { apply returns_Ok. by apply (batch_nil id b). }
  cbn [map fst] in Hnd, Hok, Hfresh |- *. apply NoDup_cons in Hnd as [Ha Hnd].
  apply Forall_cons in Hok as [Ha0 Hok]. cbn [trie_entries foldr snd] in Hfuel.
  fold (trie_entries tries) in Hfuel.
  assert (Hnu : NoDup (map fst (storage_nodes u))) by (apply (Hnodes a); left).
  assert (Hfa : fresh b [a] (rows t)).
  { intros a' k v ->%list_elem_of_singleton. apply Hfresh. left. }
  cbn [store_storage_tries]. apply (returns_bind _ _ (λ '(t1, keys), wf_rows (rows t1)
    ∧ batch_spec id b [a] (length (storage_nodes u)) (node_after [(a, u)]) (rows t) (rows t1) keys)).
  - rewrite andb_true_r, lookback. destruct (is_deleted u) eqn:Hd.
    + eapply returns_bind; [apply returns_Some, law_open|]. intros ro [Hro Hp].
      apply store_trie_wipe_spec; [done..|lia|done|done|done].
    + by apply returns_Some, store_trie_persist_spec.
  - intros [t1 keys1] [Hwf1 Hb1]. eapply returns_bind; [apply IH; [done|done| | |]|].
    + intros a' u' Hin. apply (Hnodes a'). by right.
    + by eapply fresh_rest.
    + destruct Hb1 as (i & _ & _ & _ & _ & Hlen & _). lia.
    + intros [t2 keys2] Hb2. apply returns_Ok.
      eapply batch_ext; [intros old k; symmetry; apply node_after_cons|].
      eapply batch_compose; [done..|]. intros old old' k Hold. unfold node_after. by rewrite Hold.
Qed.

(** The slots of an account as entries of a batch. *)
Definition slot_items (u : HashedStorage) : list (Z * option Z) :=
  map (λ '(slot, val), (slot, Some val)) (storage_slots u).

Lemma slot_items_keys u : map fst (slot_items u) = map fst (storage_slots u).
Proof. unfold slot_items. rewrite map_map. apply map_ext. by intros []. Qed.

Lemma item_of_slots u k : item_of (slot_items u) k = Some <$> item_of (storage_slots u) k.
Proof.
  unfold slot_items. induction (storage_slots u) as [|[k' v] l IH]; [done|].
  cbn [map]. rewrite !item_of_cons. by case_bool_decide.
Qed.

Lemma slot_after_cons a u l old k :
  slot_after ((a, u) :: l) old k
  = if k.1 =? a then slot_after [(a, u)] old k else slot_after l old k.
Proof.
  unfold slot_after. rewrite !item_of_cons.
  destruct (Z.eqb_spec k.1 a) as [->|Hne]; [by rewrite !bool_decide_true|].
  by rewrite bool_decide_false.
Qed.

Lemma slot_after_one a u (old : Z * Z → option Z) k :
  slot_after [(a, u)] (λ k, nz (old k)) k
  = nz (if k.1 =? a then default (if wiped u then None else old k) (item_of (slot_items u) k.2) else old k).
Proof.
  unfold slot_after. rewrite item_of_cons, item_of_slots.
  destruct (Z.eqb_spec k.1 a) as [->|Hne]; [rewrite bool_decide_true by done|by rewrite bool_decide_false].
  destruct (item_of _ _); cbn; [done|]. by destruct (wiped u).
Qed.

Lemma store_slots_wipe_spec a u (t : Tb (Z * Z)%type Z) ro :
  wf_rows (rows t) → 0 ≤ a → hashes_ok (storage_slots u) → fresh b [a] (rows t) →
  (2 * length (keys_of (rows t)) < fuel)%nat → wiped u = true →
  table_of ro = t → position ro = None →
  returns (wipe_and_overlay fuel b a (storage_next (b - 1) a fuel) ro (slot_items u) t) (λ '(t1, keys),
    wf_rows (rows t1)
    ∧ batch_spec nz b [a] (length (slot_items u)) (slot_after [(a, u)]) (rows t) (rows t1) keys).
Proof.
  intros Hwf Ha [Hnu Hoku] Hfresh Hfuel Hd Hro Hp. rewrite Forall_forall in Hoku.
  destruct (live_entries_spec (rows t) (b - 1) (proj1 Hwf)) as [Hsort Hlive].
  set (es := nonzero (bound_entries a (live_entries (rows t) (b - 1)))).
  assert (Hin : ∀ k v, (k, v) ∈ es ↔ view (rows t) (b - 1) (a, k) = Some v ∧ v ≠ 0).
  { intros k v. unfold es. by rewrite elem_of_nonzero, elem_of_bound, Hlive. }
  eapply returns_mono.
  - eapply (wipe_and_overlay_spec fuel b a _ ro es); [done|lia|done| | |by rewrite slot_items_keys| | |].
    + unfold es. rewrite <- Hro in *. by apply drain_storage_spec.
    + by apply NoDup_live, nonzero_sorted, bound_sorted.
    + intros k ([k' v] & -> & [Hk _]%Hin)%list_elem_of_fmap.
      apply (live_key _ _ _ _ Hwf) in Hk as [_ Hk]. by destruct Hk.
    + intros k. rewrite slot_items_keys. apply Hoku.
    + intros k v. apply Hfresh. left.
  - intros [t1 keys] (merged & Hwf1 & Hadd & -> & Hm & Hokm & Hw). split; [done|].
    eapply batch_wipe; [done|done|by rewrite slot_items_keys|done..| | |].
    + intros k ([k' v] & -> & [Hk _]%Hin)%list_elem_of_fmap. by apply (live_key _ _ _ _ Hwf) in Hk as [? _].
    + intros k Hk. destruct (view _ _ _) as [v|] eqn:Hv; [|done]. cbn.
      destruct (Z.eqb_spec v 0) as [|Hv0]; [done|]. destruct Hk.
      apply list_elem_of_fmap. exists (k, v). split; [done|]. by apply Hin.
    + intros old k. rewrite slot_after_one, Hd. done.
Qed.

Lemma store_slots_persist_spec a u (t : Tb (Z * Z)%type Z) :
  wf_rows (rows t) → 0 ≤ a → hashes_ok (storage_slots u) → fresh b [a] (rows t) →
  wiped u = false →
  outcome (persist_history_batch b (at_address a (slot_items u)) true t) (λ '(t1, keys),
    wf_rows (rows t1)
    ∧ batch_spec nz b [a] (length (slot_items u)) (slot_after [(a, u)]) (rows t) (rows t1) keys).
Proof.
  intros Hwf Ha [Hnu Hoku] Hfresh Hd. rewrite Forall_forall in Hoku. rewrite <- slot_items_keys in Hnu, Hoku.
  eapply outcome_mono.
  - apply persist_append_spec; [done|lia|by apply NoDup_at_address| |].
    + intros k [<- Hk]%elem_of_at_address_keys. split; [done|]. by apply Hoku.
    + intros [a' k] v [Hk _]%elem_of_at_address_keys. cbn in Hk. subst a'. apply Hfresh. left.
  - intros [t1 keys] (Hwf1 & Hadd & ->). split; [done|]. apply batch_persist; [done..|].
    intros old k. rewrite slot_after_one, Hd. done.
Qed.

Lemma store_storages_spec (l : list (B256 * HashedStorage)) (t : Tb (Z * Z)%type Z) :
  wf_rows (rows t) → hashes_ok l →
  (∀ a u, (a, u) ∈ l → hashes_ok (storage_slots u)) →
  fresh b (map fst l) (rows t) →
  (2 * (length (keys_of (rows t)) + slot_entries l) < fuel)%nat →
  returns (store_storages fuel b true l t) (λ '(t', keys),
    batch_spec nz b (map fst l) (slot_entries l) (slot_after l) (rows t) (rows t') keys).
Proof.
  revert t. induction l as [|[a u] l IH]; intros t Hwf [Hnd Hok] Hslots Hfresh Hfuel.
  { apply returns_Ok. by apply (batch_nil nz b). }
  cbn [map fst] in Hnd, Hok, Hfresh |- *. apply NoDup_cons in Hnd as [Ha Hnd].
  apply Forall_cons in Hok as [Ha0 Hok]. cbn [slot_entries foldr snd] in Hfuel.
  fold (slot_entries l) in Hfuel.
  assert (Hnu : hashes_ok (storage_slots u)) by (apply (Hslots a); left).
  assert (Hlen : length (slot_items u) = length (storage_slots u)) by apply length_map.
  assert (Hfa : fresh b [a] (rows t)).
  { intros a' k v ->%list_elem_of_singleton. apply Hfresh. left. }
  cbn [store_storages]. apply (returns_bind _ _ (λ '(t1, keys), wf_rows (rows t1)
    ∧ batch_spec nz b [a] (length (slot_items u)) (slot_after [(a, u)]) (rows t) (rows t1) keys)).
  - cbn [andb]. rewrite lookback. destruct (wiped u) eqn:Hd.
    + eapply returns_bind; [apply returns_Some, law_open|]. intros ro [Hro Hp].
      apply store_slots_wipe_spec; [done..|lia|done|done|done].
    + assert (map (λ '(key, val), ((a, key), Some val)) (storage_slots u) = at_address a (slot_items u)) as ->.
      { unfold at_address, slot_items. rewrite map_map. apply map_ext. by intros []. }
      by apply returns_Some, store_slots_persist_spec.
  - intros [t1 keys1] [Hwf1 Hb1]. eapply returns_bind; [apply IH; [done|done| | |]|].
    + intros a' u' Hin. apply (Hslots a'). by right.
    + by eapply fresh_rest.
    + destruct Hb1 as (i & _ & _ & _ & _ & Hn & _). lia.
    + intros [t2 keys2] Hb2. apply returns_Ok.
      eapply batch_ext; [intros old k; symmetry; apply slot_after_cons|].
      cbn [slot_entries foldr snd]. fold (slot_entries l). rewrite <- Hlen.
      eapply batch_compose; [done..|]. intros old old' k Hold. unfold slot_after. by rewrite Hold.
Qed.
End BlockWrites.

(** ** The store *)

(** The outcome of a transaction's step: the fuel suffices, and it succeeds with [P]
    or the database fails. *)
Section Succeeds.
Context {A B E : Type}.
Abbreviation err := (MorphProofsStorageError E).

Definition succeeds (m : option (result A err)) (P : A → Prop) : Prop :=
  ∃ r, m = Some r ∧ match r with Ok a => P a | Err e => ∃ x, e = DatabaseError x end.

Lemma succeeds_Ok (a : A) (P : A → Prop) : P a → succeeds (Some (Ok a)) P.
Proof. by exists (Ok a). Qed.

Lemma succeeds_mono m (P Q : A → Prop) : succeeds m P → (∀ a, P a → Q a) → succeeds m Q.
Proof. intros ([a|e] & -> & Hr) HPQ; [exists (Ok a)|exists (Err e)]; auto. Qed.

Lemma succeeds_lift (r : result A E) (P : A → Prop) : outcome r P → succeeds (Some (lift r)) P.
Proof. destruct r as [a|e]; intros Hr; [by exists (Ok a)|exists (Err (DatabaseError e))]. split; [done|by exists e]. Qed.

Lemma succeeds_lift_loop (m : option (result A E)) (P : A → Prop) :
  returns m P → succeeds (lift_loop m) P.
Proof. intros (r & -> & Hr). by apply succeeds_lift. Qed.
End Succeeds.

Lemma succeeds_bind {A B E} (m : option (result A (MorphProofsStorageError E)))
    (k : A → option (result B (MorphProofsStorageError E))) (Q : A → Prop) (P : B → Prop) :
  succeeds m Q → (∀ a, Q a → succeeds (k a) P) → succeeds (fbind m k) P.
Proof. intros ([a|e] & -> & Hr) Hk; cbn; [by apply Hk|]. by exists (Err e). Qed.

Lemma succeeds_rbind {A B E} (r : result A (MorphProofsStorageError E))
    (k : A → result B (MorphProofsStorageError E)) (Q : A → Prop) (P : B → Prop) :
  succeeds (Some r) Q → (∀ a, Q a → succeeds (Some (k a)) P) → succeeds (Some (result_bind r k)) P.
Proof. intros ([a|e] & [= ->] & Hr) Hk; cbn; [by apply Hk|]. by exists (Err e). Qed.

#[export] Hint Resolve succeeds_Ok succeeds_lift succeeds_lift_loop : proofs_db.

(** A table before and after a block's writes. *)
Section TableStep.
Context {K V : Type} `{KeyOrdLaws K} (f : option V → option V).
Implicit Types (rs : list (K * VersionedValue V)).

Definition table_step (b : Z) (n : nat) (after : (K → option V) → K → option V)
    rs rs' (keys : list K) : Prop :=
  ∃ items, wf_rows rs' ∧ added b items rs rs' ∧ keys = map fst items ∧ NoDup (map fst items)
    ∧ (length (keys_of rs') ≤ length (keys_of rs) + n)%nat
    ∧ ∀ k, f (default (view rs (b - 1) k) (item_of items k)) = after (λ k, f (view rs (b - 1) k)) k.

Lemma view_latest l rs n k : wf_rows rs → (∀ k v, (k, v) ∈ rs → block_number v ≤ l) → l ≤ n →
  view rs n k = view rs l k.
Proof.
  intros [Hs _] Hl Hn. unfold view. f_equal. destruct (version_at rs l k) as [v|] eqn:Hv.
  - apply version_at_Some in Hv as (Hr & Hb & Hmax); [|done]. apply version_at_Some; [done|].
    split_and!; [done|lia|]. intros v' Hr' _. apply Hmax; [done|]. by apply (Hl k).
  - rewrite version_at_None in Hv |- * by done. intros v Hr. specialize (Hv _ Hr). specialize (Hl _ _ Hr). lia.
Qed.

Lemma table_step_indexed e l n after ka ka' rs rs' keys : indexed e l ka rs → e ≤ l →
  table_step (l + 1) n after rs rs' keys →
  (∀ b, b ≤ l → ka' b = ka b) → ka' (l + 1) = keys → indexed e (l + 1) ka' rs'.
Proof.
  intros Hix Hel (items & Hwf & Hadd & -> & _) Hold Hnew. by eapply indexed_append.
Qed.

Lemma table_step_view e l n after ka rs rs' keys m k : indexed e l ka rs →
  table_step (l + 1) n after rs rs' keys →
  f (view rs' m k) = if m <=? l then f (view rs m k) else after (λ k, f (view rs l k)) k.
Proof.
  intros [Hwf Hl _] (items & Hwf' & Hadd & _ & Hnd & _ & Hv).
  rewrite (view_added (l + 1) items rs rs') by
    (try done; intros v _ Hin; specialize (Hl _ _ Hin); lia).
  replace (l + 1 - 1) with l in Hv by lia.
  destruct (Z.ltb_spec m (l + 1)), (Z.leb_spec m l); try lia; [done|].
  rewrite <- Hv. by rewrite (view_latest l rs m) by (done || lia).
Qed.

End TableStep.

Lemma plain_table_step {K V} `{KeyOrdLaws K} b (items : list (K * option V)) rs rs' :
  wf_rows rs' → added b items rs rs' → NoDup (map fst items) →
  table_step id b (length items) (λ old k, default (old k) (item_of items k)) rs rs' (map fst items).
Proof.
  intros Hwf Hadd Hnd. exists items. split_and!; try done.
  rewrite <- (length_map fst items). eapply keys_added; [done|done|]. by right.
Qed.

Lemma batch_table_step {K V} `{KeyOrdLaws K} (f : option V → option V) b addresses n after
    (rs rs' : list (Z * K * VersionedValue V)) keys :
  batch_spec f b addresses n after rs rs' keys → table_step f b n after rs rs' keys.
Proof.
  intros (items & Hwf & Hadd & Hk & Hb & Hn & Hv). exists items. split_and!; try done. apply Hb.
Qed.

Section Refinement.
Context {Tb C Pt : Type → Type → Type} {E Node Account : Type}.
Context `{DupDbLaws Tb C E, PlainDbLaws Pt E}.
Abbreviation db := (Db Tb Pt Node Account).
Abbreviation diff := (BlockStateDiff Node Account).
Implicit Types (d : db).

(** The state a reader of block [n] gets. *)
Definition state_at d (n : Z) : State Node Account := {|
  v_account_nodes k := view (rows (AccountTrieHistory d)) n k;
  v_storage_nodes k := view (rows (StorageTrieHistory d)) n k;
  v_accounts k := view (rows (HashedAccountHistory d)) n k;
  v_slots k := nz (view (rows (HashedStorageHistory d)) n k) |}.

(** A column of the change sets. *)
Definition col {K} (keys : ChangeSet → list K) d (b : Z) : list K :=
  default [] (keys <$> content (BlockChangeSet d) b).

Record tables_indexed d (e l : Z) : Prop := {
  ti_account_trie : indexed e l (col account_trie_keys d) (rows (AccountTrieHistory d));
  ti_storage_trie : indexed e l (col storage_trie_keys d) (rows (StorageTrieHistory d));
  ti_accounts : indexed e l (col hashed_account_keys d) (rows (HashedAccountHistory d));
  ti_storages : indexed e l (col hashed_storage_keys d) (rows (HashedStorageHistory d));
}.

(** The store holds the window from [e] to [l]. *)
Record store_inv d (e l : NumHash) : Prop := {
  si_earliest : content (ProofWindow d) EarliestBlock = Some e;
  si_latest : default e (content (ProofWindow d) LatestBlock) = l;
  si_window : 0 ≤ number e ≤ number l;
  si_change_sets : ∀ b, content (BlockChangeSet d) b ≠ None ↔ number e < b ≤ number l;
  si_tables : tables_indexed d (number e) (number l);
}.

(** Fuel for a block's writes. *)
Definition append_fuel d (bd : diff) (fuel : nat) : Prop :=
  (length (keys_of (rows (StorageTrieHistory d))) + trie_entries (storage_tries bd) < fuel)%nat
  ∧ (2 * (length (keys_of (rows (HashedStorageHistory d))) + slot_entries (storages bd)) < fuel)%nat.

(** What a block's writes do to the four tables. *)
Record block_written (b : Z) (bd : diff) d d' (cs : ChangeSet) : Prop := {
  bw_account_trie : table_step id b (length (account_nodes bd))
    (λ old k, default (old k) (item_of (account_nodes bd) k))
    (rows (AccountTrieHistory d)) (rows (AccountTrieHistory d')) (account_trie_keys cs);
  bw_storage_trie : table_step id b (trie_entries (storage_tries bd)) (node_after (storage_tries bd))
    (rows (StorageTrieHistory d)) (rows (StorageTrieHistory d')) (storage_trie_keys cs);
  bw_accounts : table_step id b (length (accounts bd))
    (λ old k, default (old k) (item_of (accounts bd) k))
    (rows (HashedAccountHistory d)) (rows (HashedAccountHistory d')) (hashed_account_keys cs);
  bw_storages : table_step nz b (slot_entries (storages bd)) (slot_after (storages bd))
    (rows (HashedStorageHistory d)) (rows (HashedStorageHistory d')) (hashed_storage_keys cs);
  bw_window : ProofWindow d' = ProofWindow d;
  bw_change_sets : BlockChangeSet d' = BlockChangeSet d;
}.

Lemma indexed_old {K V} `{KeyOrd K} e l ka (rs : list (K * VersionedValue V)) k v :
  indexed e l ka rs → (k, v) ∈ rs → block_number v < l + 1.
Proof. intros [_ Hl _] Hin. specialize (Hl _ _ Hin). lia. Qed.

Lemma store_block_spec fuel bd d e l : tables_indexed d e l → 0 ≤ l → l + 1 ≤ u64_max →
  diff_wf bd → append_fuel d bd fuel →
  succeeds (store_trie_updates_for_block fuel (l + 1) bd true d)
    (λ '(d', cs), block_written (l + 1) bd d d' cs).
Proof.
  intros [I1 I2 I3 I4] Hl Hmax Hbd [Hf1 Hf2]. unfold store_trie_updates_for_block.
  eapply succeeds_bind.
  { apply succeeds_lift, persist_append_spec; [apply I1|lia|apply Hbd|done|].
    intros k v _. by eapply indexed_old. }
  intros [t1 keys1] (Hwf1 & Hadd1 & ->).
  eapply succeeds_bind.
  { apply succeeds_lift, persist_append_spec; [apply I3|lia|apply Hbd|..].
    - pose proof (proj2 (dw_accounts _ Hbd)) as Hok. by rewrite Forall_forall in Hok.
    - intros k v _. by eapply indexed_old. }
  intros [t3 keys3] (Hwf3 & Hadd3 & ->).
  eapply succeeds_bind.
  { apply succeeds_lift_loop, store_storage_tries_spec; [lia|apply I2|apply Hbd|apply Hbd| |done].
    intros a k v _. by eapply indexed_old. }
  intros [t2 keys2] Hb2%batch_table_step.
  eapply succeeds_bind.
  { apply succeeds_lift_loop, store_storages_spec; [lia|apply I4|apply Hbd|apply Hbd| |done].
    intros a k v _. by eapply indexed_old. }
  intros [t4 keys4] Hb4%batch_table_step.
  apply succeeds_Ok. split; [|exact Hb2| |exact Hb4|done|done].
  - exact (plain_table_step _ (account_nodes bd) _ _ Hwf1 Hadd1 (dw_account_nodes _ Hbd)).
  - exact (plain_table_step _ (accounts bd) _ _ Hwf3 Hadd3 (proj1 (dw_accounts _ Hbd))).
Qed.

(** *** Appending *)

Lemma get_latest_spec d e l : store_inv d e l →
  succeeds (Some (inner_get_latest_block_number_hash d)) (λ o, o = Some l).
Proof.
  intros [He Hl _ _ _]. unfold inner_get_latest_block_number_hash, inner_get_block_number_hash.
  eapply succeeds_rbind; [apply succeeds_lift, law_p_seek_exact|]. intros o ->.
  destruct (content _ LatestBlock) as [l'|]; cbn in Hl; subst; [by apply succeeds_Ok|].
  eapply succeeds_mono; [apply succeeds_lift, law_p_seek_exact|]. by intros o ->.
Qed.

Lemma get_window_spec d e l : store_inv d e l →
  succeeds (Some (inner_get_proof_window d)) (λ o, o = Some (e, l)).
Proof.
  intros [He Hl _ _ _]. unfold inner_get_proof_window.
  eapply succeeds_rbind; [apply succeeds_lift, law_p_seek_exact|]. intros o ->. rewrite He.
  eapply succeeds_rbind; [apply succeeds_lift, law_p_seek_exact|]. intros o ->.
  apply succeeds_Ok. by rewrite Hl.
Qed.

(** Only the window changes, and only at [key]. *)
Definition window_set (key : ProofWindowKey) (b : NumHash) d d' : Prop :=
  (∀ k, content (ProofWindow d') k = if bool_decide (k = key) then Some b else content (ProofWindow d) k)
  ∧ AccountTrieHistory d' = AccountTrieHistory d ∧ StorageTrieHistory d' = StorageTrieHistory d
  ∧ HashedAccountHistory d' = HashedAccountHistory d ∧ HashedStorageHistory d' = HashedStorageHistory d
  ∧ BlockChangeSet d' = BlockChangeSet d.

Lemma set_latest_spec n h d :
  succeeds (Some (inner_set_latest_block_number n h d)) (window_set LatestBlock (Build_NumHash n h) d).
Proof.
  eapply succeeds_rbind; [apply succeeds_lift, law_p_upsert|]. intros w Hw.
  apply succeeds_Ok. by split_and!.
Qed.

Lemma set_earliest_spec n h d :
  succeeds (Some (inner_set_earliest_block_number n h d)) (window_set EarliestBlock (Build_NumHash n h) d).
Proof.
  eapply succeeds_rbind; [apply succeeds_lift, law_p_upsert|]. intros w Hw.
  apply succeeds_Ok. by split_and!.
Qed.

(** The states after a block was appended to a window ending at [l]. *)
Definition appended (bd : diff) (l : Z) d d' : Prop :=
  ∀ n, state_at d' n ≡ if n <=? l then state_at d n else apply_diff bd (state_at d l).

Lemma written_states bd d d' cs e l : tables_indexed d e l →
  block_written (l + 1) bd d d' cs → appended bd l d d'.
Proof.
  intros [I1 I2 I3 I4] [B1 B2 B3 B4 _ _] n.
  pose proof (λ k, table_step_view id e l _ _ _ _ _ _ n k I1 B1) as V1.
  pose proof (λ k, table_step_view id e l _ _ _ _ _ _ n k I2 B2) as V2.
  pose proof (λ k, table_step_view id e l _ _ _ _ _ _ n k I3 B3) as V3.
  pose proof (λ k, table_step_view nz e l _ _ _ _ _ _ n k I4 B4) as V4.
  unfold id in V1, V2, V3. destruct (n <=? l); split_and!; cbn; done.
Qed.

Lemma written_indexed bd d d' cs e l : tables_indexed d e l → e ≤ l →
  block_written (l + 1) bd d d' cs → ∀ d'',
  AccountTrieHistory d'' = AccountTrieHistory d' → StorageTrieHistory d'' = StorageTrieHistory d' →
  HashedAccountHistory d'' = HashedAccountHistory d' → HashedStorageHistory d'' = HashedStorageHistory d' →
  (∀ b, content (BlockChangeSet d'') b
        = if bool_decide (b = l + 1) then Some cs else content (BlockChangeSet d) b) →
  tables_indexed d'' e (l + 1).
Proof.
  intros [I1 I2 I3 I4] Hel [B1 B2 B3 B4 _ _] d'' E1 E2 E3 E4 Hcs.
  assert (Hold : ∀ K (keys : ChangeSet → list K) b, b ≤ l → col keys d'' b = col keys d b).
  { intros K keys b Hb. unfold col. by rewrite Hcs, bool_decide_false by lia. }
  assert (Hnew : ∀ K (keys : ChangeSet → list K), col keys d'' (l + 1) = keys cs).
  { intros K keys. unfold col. by rewrite Hcs, bool_decide_true. }
  split; rewrite ?E1, ?E2, ?E3, ?E4;
    (eapply table_step_indexed; [done|done|done|intros b Hb; by apply Hold|by apply Hnew]).
Qed.

Lemma append_only_spec fuel r bd d e l : store_inv d e l →
  number (block r) = number l + 1 → number (block r) ≤ u64_max → parent r = nhash l →
  diff_wf bd → append_fuel d bd fuel →
  succeeds (store_trie_updates_append_only fuel r bd d) (λ '(d', counts),
    store_inv d' e (block r) ∧ appended bd (number l) d d'
    ∧ (length (keys_of (rows (StorageTrieHistory d')))
       ≤ length (keys_of (rows (StorageTrieHistory d))) + trie_entries (storage_tries bd))%nat
    ∧ (length (keys_of (rows (HashedStorageHistory d')))
       ≤ length (keys_of (rows (HashedStorageHistory d))) + slot_entries (storages bd))%nat).
Proof.
  intros Hinv Hnum Hmax Hpar Hbd Hfuel. unfold store_trie_updates_append_only.
  eapply succeeds_bind; [by eapply get_latest_spec|]. intros o ->. cbn [fmap option_fmap option_map default].
  rewrite Hpar, Z.eqb_refl. cbn [negb]. pose proof Hinv as [He Hl Hw Hcs Ht]. rewrite Hnum in *.
  eapply succeeds_bind; [by eapply store_block_spec; [|lia|..]|].
  intros [d1 cs] Hbw. pose proof (bw_change_sets _ _ _ _ _ Hbw) as Hcs1.
  eapply succeeds_bind; [apply succeeds_lift, law_p_append|]. intros t (_ & Hcst).
  eapply succeeds_bind; [apply set_latest_spec|]. intros d' (Hwin & E1 & E2 & E3 & E4 & E5).
  apply succeeds_Ok. cbn in E1, E2, E3, E4, E5. split_and!.
  - split.
    + by rewrite Hwin, bool_decide_false; [cbn; rewrite (bw_window _ _ _ _ _ Hbw)|].
    + rewrite Hwin, bool_decide_true by done. cbn. rewrite <- Hnum. by destruct (block r).
    + lia.
    + intros b. rewrite E5, Hcst. case_bool_decide as Hb; [subst; rewrite Hnum; split; [lia|done]|].
      rewrite Hcs1, Hcs. lia.
    + rewrite Hnum. eapply written_indexed; [done|lia|done|done..|]. intros b.
      by rewrite E5, Hcst, Hcs1.
  - intros n. rewrite <- (written_states _ _ _ _ _ _ Ht Hbw n). unfold state_at.
    by rewrite E1, E2, E3, E4.
  - rewrite E2. by destruct (bw_storage_trie _ _ _ _ _ Hbw) as (? & _ & _ & _ & _ & ? & _).
  - rewrite E4. by destruct (bw_storages _ _ _ _ _ Hbw) as (? & _ & _ & _ & _ & ? & _).
Qed.

Lemma append_only_rejects fuel r bd d e l : store_inv d e l → parent r ≠ nhash l →
  ∃ x, store_trie_updates_append_only fuel r bd d = Some (Err x)
    ∧ (x = OutOfOrder (number (block r)) (parent r) (nhash l) ∨ ∃ y, x = DatabaseError y).
Proof.
  intros Hinv Hpar. unfold store_trie_updates_append_only.
  destruct (get_latest_spec d e l Hinv) as (res & Hres & Hr). injection Hres as <-.
  revert Hr. destruct (inner_get_latest_block_number_hash d) as [o|x]; cbn;
    [intros ->|by exists x; auto]. cbn.
  destruct (Z.eqb_spec (nhash l) (parent r)); [congruence|]. cbn. eexists. by split; [|left].
Qed.

(** *** Pruning *)

Lemma collect_candidates_cols e walk p :
  let p' := collect_candidates e walk p in
  earliest_block p' = earliest_block p
  ∧ acc_survivors p' = candidates account_trie_keys e walk (acc_survivors p)
  ∧ storage_survivors p' = candidates storage_trie_keys e walk (storage_survivors p)
  ∧ hashed_acc_survivors p' = candidates hashed_account_keys e walk (hashed_acc_survivors p)
  ∧ hashed_storage_survivors p' = candidates hashed_storage_keys e walk (hashed_storage_survivors p).
Proof.
  revert p. induction walk as [|[b cs] walk IH]; intros p; cbn; [done|].
  destruct (b <=? e); [done|].
  match goal with |- context [collect_candidates e walk ?p'] => exact (IH p') end.
Qed.

Lemma plan_survivors {K} `{KeyOrdLaws K} (keys : ChangeSet → list K) d e target walk :
  StronglySorted Z.gt (map fst walk) →
  (∀ b cs, (b, cs) ∈ walk ↔ content (BlockChangeSet d) b = Some cs ∧ b ≤ target) →
  survivors_of e target (col keys d) (flatten_and_sort (candidates keys e walk [])).
Proof.
  intros Hs Hwalk k s. rewrite elem_of_flatten_and_sort, candidates_spec; [|done|by intros ? ? ? []%elem_of_nil].
  rewrite elem_of_nil. unfold col. split.
  - intros [[]|(He & _ & (cs & [Hc Hst]%Hwalk & Hk) & Hmax)]. rewrite Hc. split_and!; [done..|].
    intros b Hb Hin. destruct (content _ b) as [cs'|] eqn:Hc'; [|by apply elem_of_nil in Hin].
    apply (Hmax b cs'); [apply Hwalk; split; [done|lia]|lia|done].
  - intros ([He Hst] & Hk & Hmax). right. destruct (content _ s) as [cs|] eqn:Hc; [|by apply elem_of_nil in Hk].
    split_and!; [done|by intros []%elem_of_nil| |].
    + exists cs. split; [|done]. by apply Hwalk.
    + intros b cs' [Hc' Hb]%Hwalk Hlt Hin. apply (Hmax b); [lia|]. by rewrite Hc'.
Qed.

(** The plan for a target inside the window. *)
Record good_plan d (e target : Z) (plan : PrunePlan) : Prop := {
  gp_earliest : earliest_block plan = e;
  gp_acc : survivors_of e target (col account_trie_keys d) (acc_survivors plan);
  gp_storage : survivors_of e target (col storage_trie_keys d) (storage_survivors plan);
  gp_hashed_acc : survivors_of e target (col hashed_account_keys d) (hashed_acc_survivors plan);
  gp_hashed_storage : survivors_of e target (col hashed_storage_keys d) (hashed_storage_survivors plan);
}.

Lemma prune_plan_spec target d e l : store_inv d e l → number e < target ≤ number l →
  succeeds (Some (calculate_prune_plan target d)) (λ o,
    ∃ plan, o = Some plan ∧ good_plan d (number e) target plan).
Proof.
  intros Hinv Ht. unfold calculate_prune_plan.
  eapply succeeds_rbind; [by eapply get_window_spec|]. intros o ->.
  destruct (Z.ltb_spec (number l) target); [lia|]. destruct (Z.leb_spec target (number e)); [lia|].
  eapply succeeds_rbind.
  { apply succeeds_lift, law_p_walk_back. apply (si_change_sets _ _ _ Hinv). lia. }
  intros walk [Hs Hwalk]. apply succeeds_Ok. eexists. split; [done|].
  edestruct (collect_candidates_cols (number e) walk) as (C0 & C1 & C2 & C3 & C4).
  split; cbn; [exact C0|rewrite C1|rewrite C2|rewrite C3|rewrite C4]; by apply plan_survivors.
Qed.

Lemma delete_walked_spec walk (t : Pt Z ChangeSet) :
  outcome (delete_walked walk t) (λ t', ∀ b,
    content t' b = if bool_decide (b ∈ map fst walk) then None else content t b).
Proof.
  revert t. induction walk as [|[b cs] walk IH]; intros t; cbn [delete_walked].
  { intros b. by rewrite bool_decide_false by apply not_elem_of_nil. }
  eapply outcome_bind; [apply law_p_delete|]. intros t1 Ht1. eapply outcome_mono; [apply IH|].
  intros t2 Ht2 b'. rewrite Ht2, Ht1. cbn [map fst].
  destruct (decide (b' ∈ map fst walk)) as [Hin|Hin]; [by rewrite !bool_decide_true by (done || by right)|].
  rewrite (bool_decide_false _ Hin). case_bool_decide as Hb.
  - subst. by rewrite bool_decide_true by left.
  - rewrite bool_decide_false; [done|]. intros [?|?]%elem_of_cons; done.
Qed.

(** Fuel for a prune. *)
Definition prune_fuel d (fuel : nat) : Prop :=
  (length (rows (AccountTrieHistory d)) < fuel)%nat ∧ (length (rows (StorageTrieHistory d)) < fuel)%nat
  ∧ (length (rows (HashedAccountHistory d)) < fuel)%nat ∧ (length (rows (HashedStorageHistory d)) < fuel)%nat.

(** A key changed in the pruned range keeps at most one version up to the target, and
    not a tombstone. *)
Definition compacted {K V} (e target : Z) (ka : Z → list K) (rs : list (K * VersionedValue V)) : Prop :=
  ∀ k v, (k, v) ∈ rs → block_number v ≤ target → (∃ b, e < b ≤ target ∧ k ∈ ka b) →
    vvalue v ≠ None ∧ ∀ v', (k, v') ∈ rs → block_number v' ≤ target → v' = v.

Lemma newest_change {K} `{KeyOrd K} (ka : Z → list K) e target k :
  (∃ b, e < b ≤ target ∧ k ∈ ka b) →
  ∃ s, e < s ≤ target ∧ k ∈ ka s ∧ ∀ b, s < b ≤ target → k ∉ ka b.
Proof.
  intros (b & Hb & Hk). remember (Z.to_nat (target - b)) as n eqn:Hn. revert b Hb Hk Hn.
  induction n as [n IH] using lt_wf_ind. intros b Hb Hk Hn.
  destruct (decide (Exists (λ b', k ∈ ka b') (seqZ (b + 1) (target - b)))) as [Hex|Hno].
  - apply Exists_exists in Hex as (b' & Hin%elem_of_seqZ & Hk').
    apply (IH (Z.to_nat (target - b'))) with b'; [lia|lia|done|done].
  - exists b. split_and!; [lia|lia|done|]. intros b' Hb' Hk'. apply Hno, Exists_exists. exists b'.
    split; [|done]. apply elem_of_seqZ. lia.
Qed.

Lemma pruned_compacted {K V} `{KeyOrdLaws K} e l target ka survivors (rs rs' : list (K * VersionedValue V)) :
  indexed e l ka rs → target ≤ l → survivors_of e target ka survivors → all_pruned survivors rs rs' →
  compacted e target ka rs'.
Proof.
  intros Hix Ht Hs Hp k v Hr Hb Hch. pose proof Hix as [Hwf _ Hkeys].
  destruct (newest_change ka e target k Hch) as (s & Hse & Hks & Hmax).
  assert (Hsurv : (k, s) ∈ survivors) by by apply Hs.
  assert (Hat : ∀ v, (k, v) ∈ rs' → block_number v ≤ target → block_number v = s ∧ vvalue v ≠ None).
  { intros v' [Hr' Hn]%Hp Hb'. specialize (Hn s Hsurv). cbn in Hn.
    assert (¬ s < block_number v').
    { intros Hlt. apply (Hmax (block_number v')); [lia|]. apply Hkeys; [lia|]. by exists v'. }
    assert (¬ block_number v' < s) by (intros ?; apply Hn; by left).
    split; [lia|]. intros Hnone. apply Hn. right. split; [lia|done]. }
  split; [by apply Hat|]. intros v' Hr' Hb'.
  apply (same_version rs k); [done|by apply Hp in Hr' as [? _]|by apply Hp in Hr as [? _]|].
  destruct (Hat v Hr Hb), (Hat v' Hr' Hb'). lia.
Qed.

(** What pruning a table does. *)
Definition table_pruned {K V} `{KeyOrd K} (e l target : Z) (ka : Z → list K)
    (rs rs' : list (K * VersionedValue V)) (deleted : Z) : Prop :=
  indexed target l ka rs'
  ∧ (∀ n k, target ≤ n → view rs' n k = view rs n k)
  ∧ compacted e target ka rs'
  ∧ (length rs' ≤ length rs)%nat
  ∧ Z.of_nat (length rs) = Z.of_nat (length rs') + deleted.

Lemma prune_table_spec {K V} `{KeyOrdLaws K} fuel e l target ka survivors (t : Tb K V) :
  indexed e l ka (rows t) → e < target ≤ l → survivors_of e target ka survivors →
  (length (rows t) < fuel)%nat →
  succeeds (lift_loop (prune_history_preceding fuel survivors t)) (λ '(t', deleted),
    table_pruned e l target ka (rows t) (rows t') deleted).
Proof.
  intros Hix Ht Hs Hfuel. eapply succeeds_mono.
  - apply succeeds_lift_loop, prune_history_spec; [apply Hix|done].
  - intros [t' deleted] (Hwf' & Hp & Hlen). split_and!; [|..|done].
    + by eapply indexed_prune.
    + intros n k Hn. eapply view_pruned; [apply Hix|done|done| |done].
      by apply (survivors_rows e l target ka); [|lia|].
    + eapply pruned_compacted; [done|lia|done|done].
    + apply submseteq_length, NoDup_submseteq; [by apply wf_NoDup|]. by intros r [? _]%Hp.
Qed.

(** The store after a prune to [target]. *)
Record store_pruned (e target : Z) d d' (counts : WriteCounts) : Prop := {
  sp_states : ∀ n, target ≤ n → state_at d' n ≡ state_at d n;
  sp_account_trie : compacted e target (col account_trie_keys d) (rows (AccountTrieHistory d'));
  sp_storage_trie : compacted e target (col storage_trie_keys d) (rows (StorageTrieHistory d'));
  sp_accounts : compacted e target (col hashed_account_keys d) (rows (HashedAccountHistory d'));
  sp_storages : compacted e target (col hashed_storage_keys d) (rows (HashedStorageHistory d'));
  sp_fuel : ∀ fuel, prune_fuel d fuel → prune_fuel d' fuel;
  sp_counts :
    Z.of_nat (length (rows (AccountTrieHistory d)))
      = Z.of_nat (length (rows (AccountTrieHistory d'))) + account_trie_updates_written_total counts
    ∧ Z.of_nat (length (rows (StorageTrieHistory d)))
      = Z.of_nat (length (rows (StorageTrieHistory d'))) + storage_trie_updates_written_total counts
    ∧ Z.of_nat (length (rows (HashedAccountHistory d)))
      = Z.of_nat (length (rows (HashedAccountHistory d'))) + hashed_accounts_written_total counts
    ∧ Z.of_nat (length (rows (HashedStorageHistory d)))
      = Z.of_nat (length (rows (HashedStorageHistory d'))) + hashed_storages_written_total counts;
}.

Definition in_walk (lo : Z) (hi : option Z) (b : Z) : bool :=
  (lo <=? b) && match hi with Some h => b <=? h | None => true end.

Lemma walked_range (t : Pt Z ChangeSet) lo hi (walk : list (Z * ChangeSet)) b :
  (∀ k v, (k, v) ∈ walk ↔ content t k = Some v ∧ lo ≤ k ∧ match hi with Some h => k ≤ h | None => True end) →
  (if bool_decide (b ∈ map fst walk) then None else content t b)
  = if in_walk lo hi b then None else content t b.
Proof.
  intros Hwalk. unfold in_walk. case_bool_decide as Hin.
  - apply list_elem_of_fmap in Hin as ([b' cs] & -> & [_ [Hlo Hhi]]%Hwalk). cbn.
    rewrite (proj2 (Z.leb_le _ _)) by done. destruct hi; [|done]. by rewrite (proj2 (Z.leb_le _ _)).
  - destruct (Z.leb_spec lo b); [|done]. cbn.
    destruct (match hi with Some h => b <=? h | None => true end) eqn:Hhi; [|done].
    destruct (content t b) as [cs|] eqn:Hc; [|done].
    destruct Hin. apply list_elem_of_fmap. exists (b, cs). split; [done|]. apply Hwalk.
    split_and!; [done..|]. destruct hi; [lia|done].
Qed.

Lemma prune_update_spec fuel r d e l : store_inv d e l →
  number e < number (block r) ≤ number l → prune_fuel d fuel →
  succeeds (prune_update fuel r d) (λ '(d', counts),
    store_inv d' (block r) l ∧ store_pruned (number e) (number (block r)) d d' counts).
Proof.
  intros Hinv Ht (F1 & F2 & F3 & F4). unfold prune_update. set (target := number (block r)) in *.
  eapply succeeds_bind; [by eapply prune_plan_spec|]. intros o (plan & -> & [P0 P1 P2 P3 P4]).
  pose proof Hinv as [He Hl Hw Hcs [I1 I2 I3 I4]].
  eapply succeeds_bind; [by apply (prune_table_spec fuel (number e) (number l) target (col account_trie_keys d) _ _ I1)|].
  intros [t1 c1] (X1 & V1 & K1 & S1 & L1).
  eapply succeeds_bind; [by apply (prune_table_spec fuel (number e) (number l) target (col storage_trie_keys d) _ _ I2)|].
  intros [t2 c2] (X2 & V2 & K2 & S2 & L2).
  eapply succeeds_bind; [by apply (prune_table_spec fuel (number e) (number l) target (col hashed_account_keys d) _ _ I3)|].
  intros [t3 c3] (X3 & V3 & K3 & S3 & L3).
  eapply succeeds_bind; [by apply (prune_table_spec fuel (number e) (number l) target (col hashed_storage_keys d) _ _ I4)|].
  intros [t4 c4] (X4 & V4 & K4 & S4 & L4).
  eapply succeeds_bind; [apply succeeds_lift, law_p_walk_range|]. intros walk [_ Hwalk].
  eapply succeeds_bind; [apply succeeds_lift, delete_walked_spec|]. intros cs Hdel.
  eapply succeeds_bind; [apply set_earliest_spec|]. intros d' (Hwin & E1 & E2 & E3 & E4 & E5).
  apply succeeds_Ok. cbn in Hwin, E1, E2, E3, E4, E5, Hwalk, Hdel. rewrite P0 in Hwalk.
  assert (Hcs' : ∀ b, content (BlockChangeSet d') b
    = if in_walk (number e + 1) (Some target) b then None else content (BlockChangeSet d) b).
  { intros b. rewrite E5. cbn. rewrite Hdel. by apply walked_range. }
  assert (Hcol : ∀ K (keys : ChangeSet → list K) b, target < b ≤ number l → col keys d' b = col keys d b).
  { intros K keys b Hb. unfold col. rewrite Hcs'. unfold in_walk.
    by rewrite (proj2 (Z.leb_gt b target)), andb_false_r by lia. }
  split; [split|split].
  - rewrite Hwin, bool_decide_true by done. subst target. by destruct (block r).
  - rewrite Hwin, bool_decide_false by done. by destruct (content _ LatestBlock); [|cbn in Hl; subst l; lia].
  - subst target. lia.
  - intros b. rewrite Hcs'. destruct (in_walk _ _ b) eqn:Hb; unfold in_walk in Hb; [|rewrite Hcs]; bool_simp;
      [split; [done|lia]|]. lia.
  - split; rewrite ?E1, ?E2, ?E3, ?E4.
    + eapply indexed_ext; [|exact X1]. intros b Hb. by apply Hcol.
    + eapply indexed_ext; [|exact X2]. intros b Hb. by apply Hcol.
    + eapply indexed_ext; [|exact X3]. intros b Hb. by apply Hcol.
    + eapply indexed_ext; [|exact X4]. intros b Hb. by apply Hcol.
  - intros n Hn. split_and!; intros k; cbn; rewrite ?E1, ?E2, ?E3, ?E4; [by apply V1|by apply V2|by apply V3|].
    f_equal. by apply V4.
  - by rewrite E1.
  - by rewrite E2.
  - by rewrite E3.
  - by rewrite E4.
  - intros fuel' (G1 & G2 & G3 & G4). unfold prune_fuel. rewrite E1, E2, E3, E4. cbn. split_and!; lia.
  - by rewrite E1, E2, E3, E4.
Qed.

(** *** Unwinding *)

(** Every version from [to] on is listed for deletion. *)
Record deletes_from (to : Z) d (h : HistoryDeleteBatch) : Prop := {
  df_account_trie : ∀ k b, (k, b) ∈ d_account_trie h ↔ to ≤ b ∧ k ∈ col account_trie_keys d b;
  df_storage_trie : ∀ k b, (k, b) ∈ d_storage_trie h ↔ to ≤ b ∧ k ∈ col storage_trie_keys d b;
  df_accounts : ∀ k b, (k, b) ∈ d_hashed_account h ↔ to ≤ b ∧ k ∈ col hashed_account_keys d b;
  df_storages : ∀ k b, (k, b) ∈ d_hashed_storage h ↔ to ≤ b ∧ k ∈ col hashed_storage_keys d b;
}.

Lemma keyed_from {K} `{KeyOrdLaws K} (keys : ChangeSet → list K) to d walk k b :
  (∀ b cs, (b, cs) ∈ walk ↔ content (BlockChangeSet d) b = Some cs ∧ to ≤ b ∧ True) →
  (k, b) ∈ sort_history (keyed keys walk) ↔ to ≤ b ∧ k ∈ col keys d b.
Proof.
  intros Hwalk. rewrite elem_of_sort_history, elem_of_keyed. unfold col. split.
  - intros (cs & (Hc & Hb & _)%Hwalk & Hk). by rewrite Hc.
  - intros [Hb Hk]. destruct (content _ b) as [cs|] eqn:Hc; [|by apply elem_of_nil in Hk].
    exists cs. split; [|done]. by apply Hwalk.
Qed.

Lemma collect_history_spec to d :
  succeeds (Some (collect_history_ranged to d)) (deletes_from to d).
Proof.
  eapply succeeds_rbind; [apply succeeds_lift, law_p_walk_range|]. intros walk [_ Hwalk].
  apply succeeds_Ok. split; intros k b; by apply keyed_from.
Qed.

(** A table cut at [to]. *)
Definition cut {K V} `{KeyOrd K} (to : Z) (rs rs' : list (K * VersionedValue V)) : Prop :=
  wf_rows rs' ∧ ∀ r, r ∈ rs' ↔ r ∈ rs ∧ block_number r.2 < to.

Record store_cut (to : Z) d d' : Prop := {
  sc_account_trie : cut to (rows (AccountTrieHistory d)) (rows (AccountTrieHistory d'));
  sc_storage_trie : cut to (rows (StorageTrieHistory d)) (rows (StorageTrieHistory d'));
  sc_accounts : cut to (rows (HashedAccountHistory d)) (rows (HashedAccountHistory d'));
  sc_storages : cut to (rows (HashedStorageHistory d)) (rows (HashedStorageHistory d'));
  sc_window : ProofWindow d' = ProofWindow d;
  sc_change_sets : ∀ b, content (BlockChangeSet d') b
    = if to <=? b then None else content (BlockChangeSet d) b;
}.

Lemma delete_table_spec {K V} `{KeyOrdLaws K} (keys : ChangeSet → list K) e l to d items (t : Tb K V) :
  indexed e l (col keys d) (rows t) → e < to →
  (∀ b, content (BlockChangeSet d) b ≠ None → b ≤ l) →
  (∀ k b, (k, b) ∈ items ↔ to ≤ b ∧ k ∈ col keys d b) →
  outcome (delete_dup_sorted items t) (λ t', cut to (rows t) (rows t')).
Proof.
  intros Hix Hto Hcs Hitems. eapply outcome_mono; [apply delete_dup_sorted_spec, Hix|].
  intros t' [Hwf' Hin]. split; [done|]. eapply unwound_rows; [done|done| |done].
  intros k b. rewrite Hitems. split; [|tauto]. intros [Hb Hk]. split_and!; [done| |done].
  apply Hcs. unfold col in Hk. destruct (content _ b); [done|by apply elem_of_nil in Hk].
Qed.

Lemma delete_history_spec to h d e l : tables_indexed d e l → e < to →
  (∀ b, content (BlockChangeSet d) b ≠ None → b ≤ l) → deletes_from to d h →
  succeeds (Some (delete_history_ranged to h d)) (store_cut to d).
Proof.
  intros [I1 I2 I3 I4] Hto Hcs [D1 D2 D3 D4]. unfold delete_history_ranged.
  eapply succeeds_rbind; [apply succeeds_lift, law_p_walk_range|]. intros walk [_ Hwalk].
  eapply succeeds_rbind; [apply succeeds_lift, delete_walked_spec|]. intros cs Hdel.
  eapply succeeds_rbind; [by apply succeeds_lift, (delete_table_spec _ _ _ to d _ _ I1 Hto Hcs D1)|]. intros t1 T1.
  eapply succeeds_rbind; [by apply succeeds_lift, (delete_table_spec _ _ _ to d _ _ I2 Hto Hcs D2)|]. intros t2 T2.
  eapply succeeds_rbind; [by apply succeeds_lift, (delete_table_spec _ _ _ to d _ _ I3 Hto Hcs D3)|]. intros t3 T3.
  eapply succeeds_rbind; [by apply succeeds_lift, (delete_table_spec _ _ _ to d _ _ I4 Hto Hcs D4)|]. intros t4 T4.
  apply succeeds_Ok. split; cbn; [done..|]. intros b. rewrite Hdel, (walked_range _ to None walk b Hwalk).
  unfold in_walk. by rewrite andb_true_r.
Qed.

(** The store after the versions from [to] on are gone and the window's end is set. *)
Lemma cut_inv to d d1 d' e l h : store_inv d e l → number e < to ≤ number l + 1 →
  store_cut to d d1 → window_set LatestBlock (Build_NumHash (to - 1) h) d1 d' →
  store_inv d' e (Build_NumHash (to - 1) h) ∧ ∀ n, n < to → state_at d' n ≡ state_at d n.
Proof.
  intros [He Hl Hw Hcs [I1 I2 I3 I4]] Hto [C1 C2 C3 C4 Cw Ccs] (Hwin & E1 & E2 & E3 & E4 & E5).
  assert (Hcol : ∀ K (keys : ChangeSet → list K) b, b < to → col keys d' b = col keys d b).
  { intros K keys b Hb. unfold col. rewrite E5, Ccs. by rewrite (proj2 (Z.leb_gt to b)). }
  split; [split; cbn|].
  - by rewrite Hwin, bool_decide_false, Cw.
  - by rewrite Hwin, bool_decide_true.
  - lia.
  - intros b. rewrite E5, Ccs. destruct (Z.leb_spec to b); [split; [done|lia]|]. rewrite Hcs. lia.
  - split; rewrite ?E1, ?E2, ?E3, ?E4.
    + eapply (indexed_unwind _ _ to); [exact I1|apply C1|done|apply C1|]. intros b Hb. by apply Hcol.
    + eapply (indexed_unwind _ _ to); [exact I2|apply C2|done|apply C2|]. intros b Hb. by apply Hcol.
    + eapply (indexed_unwind _ _ to); [exact I3|apply C3|done|apply C3|]. intros b Hb. by apply Hcol.
    + eapply (indexed_unwind _ _ to); [exact I4|apply C4|done|apply C4|]. intros b Hb. by apply Hcol.
  - intros n Hn. assert (Hm : Z.min n (to - 1) = n) by lia.
    split_and!; intros k; cbn; rewrite ?E1, ?E2, ?E3, ?E4.
    + rewrite (view_unwound to _ _ n k (ix_wf _ _ _ _ I1) (proj1 C1) (proj2 C1)). by rewrite Hm.
    + rewrite (view_unwound to _ _ n k (ix_wf _ _ _ _ I2) (proj1 C2) (proj2 C2)). by rewrite Hm.
    + rewrite (view_unwound to _ _ n k (ix_wf _ _ _ _ I3) (proj1 C3) (proj2 C3)). by rewrite Hm.
    + rewrite (view_unwound to _ _ n k (ix_wf _ _ _ _ I4) (proj1 C4) (proj2 C4)). by rewrite Hm.
Qed.

Lemma cut_keys {K V} `{KeyOrdLaws K} to (rs rs' : list (K * VersionedValue V)) :
  cut to rs rs' → (length (keys_of rs') ≤ length (keys_of rs))%nat.
Proof.
  intros [Hwf Hin]. apply submseteq_length, NoDup_submseteq.
  - by apply keys_NoDup.
  - intros k [v [Hr _]%Hin]%elem_of_keys. apply elem_of_keys. by exists v.
Qed.

(** ** The window of states *)

Record Window := {
  w_earliest : NumHash;
  w_latest : NumHash;
  w_state : Z → State Node Account;
}.

Abbreviation err := (MorphProofsStorageError E).

Definition w_append (r : BlockWithParent) (bd : diff) (w : Window) : result Window err :=
  if negb (nhash (w_latest w) =? parent r) then
    Err (OutOfOrder (number (block r)) (parent r) (nhash (w_latest w)))
  else Ok {| w_earliest := w_earliest w; w_latest := block r;
             w_state n := if n <=? number (w_latest w) then w_state w n
                          else apply_diff bd (w_state w (number (w_latest w))) |}.

Definition w_prune (r : BlockWithParent) (w : Window) : result Window err :=
  if number (w_latest w) <? number (block r) then
    Err (PruneBeyondLatest (number (block r)) (number (w_latest w)))
  else if number (block r) <=? number (w_earliest w) then Ok w
  else Ok {| w_earliest := block r; w_latest := w_latest w; w_state := w_state w |}.

Definition w_unwind (to : BlockWithParent) (w : Window) : result Window err :=
  if number (w_latest w) <? number (block to) then Ok w
  else if number (block to) <=? number (w_earliest w) then
    Err (UnwindBeyondEarliest (number (block to)) (number (w_earliest w)))
  else Ok {| w_earliest := w_earliest w;
             w_latest := Build_NumHash (number (block to) - 1) (parent to);
             w_state := w_state w |}.

Fixpoint w_append_all (blocks : list (BlockWithParent * diff)) (w : Window) : result Window err :=
  match blocks with
  | [] => Ok w
  | (r, bd) :: blocks => let? w := w_append r bd w in w_append_all blocks w
  end.

Definition w_replace (common : NumHash) (blocks : list (BlockWithParent * diff)) (w : Window) : result Window err :=
  w_append_all blocks {| w_earliest := w_earliest w; w_latest := common; w_state := w_state w |}.

(** The store holds the window. *)
Definition represents d (w : Window) : Prop :=
  store_inv d (w_earliest w) (w_latest w)
  ∧ ∀ n, number (w_earliest w) ≤ n ≤ number (w_latest w) → state_at d n ≡ w_state w n.

(** Fuel for writing some blocks. *)
Definition blocks_fuel d (blocks : list (BlockWithParent * diff)) (fuel : nat) : Prop :=
  (length (keys_of (rows (StorageTrieHistory d)))
   + sum_list (map (λ b, trie_entries (storage_tries b.2)) blocks) < fuel)%nat
  ∧ (2 * (length (keys_of (rows (HashedStorageHistory d)))
          + sum_list (map (λ b, slot_entries (storages b.2)) blocks)) < fuel)%nat.

(** Blocks that follow block [n], one by one. *)
Fixpoint follow (n : Z) (blocks : list (BlockWithParent * diff)) : Prop :=
  match blocks with
  | [] => True
  | (r, bd) :: blocks =>
      number (block r) = n + 1 ∧ n + 1 ≤ u64_max ∧ diff_wf bd ∧ follow (n + 1) blocks
  end.

(** A transaction implements a step of the window: it succeeds as the window's does,
    fails as the window's does, or the database fails. *)
Definition implements {A} (m : option (result (db * A) err)) (step : result Window err) : Prop :=
  ∃ r, m = Some r ∧
    match r with
    | Ok (d', _) => ∃ w', step = Ok w' ∧ represents d' w'
    | Err x => step = Err x ∨ ∃ y, x = DatabaseError y
    end.

Lemma succeeds_implements {A} (m : option (result (db * A) err)) (w' : Window) :
  succeeds m (λ p, represents p.1 w') → implements m (Ok w').
Proof.
  intros (r & -> & Hr). exists r. split; [done|]. destruct r as [[d' a]|x]; [by exists w'|by right].
Qed.

Lemma represents_appended r bd d d' w :
  represents d w → number (block r) = number (w_latest w) + 1 →
  store_inv d' (w_earliest w) (block r) → appended bd (number (w_latest w)) d d' →
  represents d' {| w_earliest := w_earliest w; w_latest := block r;
    w_state n := if n <=? number (w_latest w) then w_state w n
                 else apply_diff bd (w_state w (number (w_latest w))) |}.
Proof.
  intros [Hinv Hst] Hnum Hinv' Happ. split; [done|]. cbn. intros n Hn. rewrite (Happ n).
  pose proof (si_window _ _ _ Hinv). destruct (Z.leb_spec n (number (w_latest w))).
  - apply Hst. lia.
  - f_equiv. apply Hst. lia.
Qed.

Lemma append_blocks_implements fuel blocks d w : represents d w →
  follow (number (w_latest w)) blocks → blocks_fuel d blocks fuel →
  implements (append_blocks fuel blocks d) (w_append_all blocks w).
Proof.
  revert d w. induction blocks as [|[r bd] blocks IH]; intros d w Hrep Hfol Hfuel;
    cbn [append_blocks w_append_all].
  { exists (Ok (d, tt)). split; [done|]. by exists w. }
  destruct Hfol as (Hnum & Hmax & Hbd & Hfol). destruct Hfuel as [F1 F2]. cbn in F1, F2.
  unfold w_append. destruct (Z.eqb_spec (nhash (w_latest w)) (parent r)) as [Hp|Hp];
    cbn [negb result_bind].
  - destruct (append_only_spec fuel r bd d (w_earliest w) (w_latest w)) as ([[d1 c]|x] & -> & Hr);
      [apply Hrep|done|lia|done|done|split; lia| |]; cbn [fbind].
    + destruct Hr as (Hinv1 & Happ & L1 & L2). apply IH; [by eapply represents_appended|cbn; by rewrite Hnum|].
      split; lia.
    + eexists. split; [done|]. by right.
  - destruct (append_only_rejects fuel r bd d (w_earliest w) (w_latest w)) as (x & -> & Hx);
      [apply Hrep|congruence|]. eexists. split; [done|]. cbn.
    destruct Hx as [->|?]; [left|right; done]. done.
Qed.

Lemma append_implements fuel r bd d w : represents d w →
  (parent r = nhash (w_latest w) → number (block r) = number (w_latest w) + 1) →
  number (block r) ≤ u64_max → diff_wf bd → append_fuel d bd fuel →
  implements (store_trie_updates_append_only fuel r bd d) (w_append r bd w).
Proof.
  intros Hrep Hnum Hmax Hbd Hfuel. unfold w_append.
  destruct (Z.eqb_spec (nhash (w_latest w)) (parent r)) as [Hp|Hp]; cbn [negb].
  - apply succeeds_implements. eapply succeeds_mono.
    + apply (append_only_spec fuel r bd d (w_earliest w) (w_latest w)); [apply Hrep|by apply Hnum|done..].
    + intros [d1 c] (Hinv1 & Happ & _). cbn. by eapply represents_appended; [|apply Hnum|..].
  - destruct (append_only_rejects fuel r bd d (w_earliest w) (w_latest w)) as (x & -> & Hx);
      [apply Hrep|congruence|]. eexists. split; [done|]. destruct Hx as [->|?]; [by left|by right].
Qed.

Lemma prune_implements fuel r d w : represents d w → prune_fuel d fuel →
  implements (prune_update fuel r d) (w_prune r w).
Proof.
  intros [Hinv Hst] Hfuel. unfold w_prune. pose proof (si_window _ _ _ Hinv).
  destruct (Z.ltb_spec (number (w_latest w)) (number (block r))) as [Hlt|Hge];
    [|destruct (Z.leb_spec (number (block r)) (number (w_earliest w)))].
  - unfold prune_update, calculate_prune_plan.
    destruct (get_window_spec d _ _ Hinv) as ([o|x] & [= ->] & Hr); cbn;
      [subst o|by exists (Err x); eauto].
    rewrite (proj2 (Z.ltb_lt _ _) Hlt). cbn. eexists. split; [done|]. by left.
  - apply succeeds_implements. unfold prune_update, calculate_prune_plan.
    destruct (get_window_spec d _ _ Hinv) as ([o|x] & [= ->] & Hr); cbn;
      [subst o|by exists (Err x); eauto].
    rewrite (proj2 (Z.ltb_ge _ _) Hge), (proj2 (Z.leb_le _ _)) by done. by apply succeeds_Ok.
  - apply succeeds_implements. eapply succeeds_mono; [by eapply prune_update_spec|].
    intros [d' c] [Hinv' Hpr]. split; [done|]. cbn. intros n Hn.
    rewrite (sp_states _ _ _ _ _ Hpr) by lia. apply Hst. lia.
Qed.

(** Cutting the history and setting the window's end, for an unwind or a reorg. *)
Lemma cut_spec d e l (common : NumHash) : store_inv d e l → number e ≤ number common ≤ number l →
  succeeds (let! history := Some (collect_history_ranged (number common + 1) d) in
            let! d := Some (delete_history_ranged (number common + 1) history d) in
            Some (inner_set_latest_block_number (number common) (nhash common) d))
    (λ d', store_inv d' e common ∧ (∀ n, n ≤ number common → state_at d' n ≡ state_at d n)
      ∧ (length (keys_of (rows (StorageTrieHistory d'))) ≤ length (keys_of (rows (StorageTrieHistory d))))%nat
      ∧ (length (keys_of (rows (HashedStorageHistory d'))) ≤ length (keys_of (rows (HashedStorageHistory d))))%nat).
Proof.
  intros Hinv Hc. pose proof Hinv as [He Hl Hw Hcs Ht].
  eapply succeeds_bind; [apply collect_history_spec|]. intros h Hh.
  eapply succeeds_bind; [eapply delete_history_spec; [exact Ht|lia| |done]|].
  { intros b Hb%Hcs. lia. }
  intros d1 Hcut. eapply succeeds_mono; [apply set_latest_spec|]. intros d' Hset.
  destruct (cut_inv (number common + 1) d d1 d' e l (nhash common) Hinv) as [Hinv' Hst]; [lia|done| |].
  { by replace (number common + 1 - 1) with (number common) by lia. }
  replace (number common + 1 - 1) with (number common) in Hinv' by lia.
  split_and!.
  - by destruct common.
  - intros n Hn. apply Hst. lia.
  - destruct Hset as (_ & _ & -> & _). apply (cut_keys _ _ _ (sc_storage_trie _ _ _ Hcut)).
  - destruct Hset as (_ & _ & _ & _ & -> & _). apply (cut_keys _ _ _ (sc_storages _ _ _ Hcut)).
Qed.

Lemma unwind_implements to d w : represents d w →
  implements (unwind_update to d) (w_unwind to w).
Proof.
  intros [Hinv Hst]. unfold w_unwind, unwind_update. pose proof (si_window _ _ _ Hinv).
  destruct (get_window_spec d _ _ Hinv) as ([o|x] & -> & Hr); cbn [fbind];
    [subst o|by exists (Err x); eauto].
  destruct (Z.ltb_spec (number (w_latest w)) (number (block to))) as [Hlt|Hge];
    [|destruct (Z.leb_spec (number (block to)) (number (w_earliest w)))].
  - exists (Ok (d, tt)). split; [done|]. by exists w.
  - eexists. split; [done|]. by left.
  - apply succeeds_implements.
    destruct (cut_spec d _ _ (Build_NumHash (number (block to) - 1) (parent to)) Hinv) as (r & Hr & Hres);
      [cbn; lia|]. cbn in Hr.
    replace (number (block to) - 1 + 1) with (number (block to)) in Hr by lia.
    unfold saturating_sub. rewrite Z.max_l by lia.
    destruct (collect_history_ranged _ d) as [h|y]; cbn in Hr |- *; [|injection Hr as <-; by exists (Err y)].
    destruct (delete_history_ranged _ h d) as [d1|y]; cbn in Hr |- *; [|injection Hr as <-; by exists (Err y)].
    injection Hr as Hr. rewrite Hr. destruct r as [d'|y]; cbn; [|by exists (Err y)].
    apply succeeds_Ok. destruct Hres as (Hinv' & Hst' & _). split; [done|]. cbn in *. intros n Hn.
    rewrite Hst' by lia. apply Hst. lia.
Qed.

Lemma replace_implements fuel common blocks d w : represents d w →
  number (w_earliest w) ≤ number common ≤ number (w_latest w) →
  follow (number common) (merge_sort by_number blocks) →
  blocks_fuel d (merge_sort by_number blocks) fuel →
  implements (replace_update fuel common blocks d) (w_replace common (merge_sort by_number blocks) w).
Proof.
  intros [Hinv Hst] Hc Hfol [F1 F2]. unfold replace_update.
  destruct (cut_spec d _ _ common Hinv Hc) as (r & Hr & Hres).
  destruct (collect_history_ranged _ d) as [h|y]; cbn [fbind] in Hr |- *;
    [|injection Hr as <-; exists (Err y); by eauto].
  destruct (delete_history_ranged _ h d) as [d1|y]; cbn [fbind] in Hr |- *;
    [|injection Hr as <-; exists (Err y); by eauto].
  injection Hr as Hr. rewrite Hr. destruct r as [d'|y]; cbn [fbind]; [|exists (Err y); by eauto].
  destruct Hres as (Hinv' & Hst' & L1 & L2).
  apply append_blocks_implements; [|done|split; lia].
  split; [done|]. cbn. intros n Hn. rewrite Hst' by lia. apply Hst. lia.
Qed.

(** ** Durable operations *)

Context `{TxOps db E}.

(** The store after a durable operation: the window's step was taken, or nothing changed. *)
Definition commits {A} d (m : option (db * result A err)) (step : result Window err) : Prop :=
  ∃ d' r, m = Some (d', r) ∧
    match r with
    | Ok _ => ∃ w', step = Ok w' ∧ represents d' w'
    | Err x => d' = d ∧ (step = Err x ∨ ∃ y, x = DatabaseError y)
    end.

Lemma commit_update_commits {A} (update : db → option (result (db * A) err)) d step :
  implements (update d) step → commits d (commit_update update d) step.
Proof.
  intros (r & Hu & Hr). unfold commit_update, commits.
  destruct (tx_mut d) as [[]|y]; [|exists d, (Err (DatabaseError y)); by eauto 10]. rewrite Hu.
  destruct r as [[d' a]|x]; [|by exists d, (Err x)].
  destruct (tx_commit d') as [[]|y]; [by exists d', (Ok a)|exists d, (Err (DatabaseError y)); by eauto 10].
Qed.

(** The operations of the store. *)
Inductive Op :=
| Append (r : BlockWithParent) (bd : diff)
| Prune (r : BlockWithParent)
| Unwind (to : BlockWithParent)
| Replace (common : NumHash) (blocks : list (BlockWithParent * diff)).

Definition no_counts {A} (m : option (db * result A err)) : option (db * result unit err) :=
  match m with
  | Some (d, Ok _) => Some (d, Ok tt)
  | Some (d, Err x) => Some (d, Err x)
  | None => None
  end.

Definition exec (fuel : nat) (op : Op) (d : db) : option (db * result unit err) :=
  match op with
  | Append r bd => no_counts (store_trie_updates fuel r bd d)
  | Prune r => no_counts (prune_earliest_state fuel r d)
  | Unwind to => unwind_history to d
  | Replace common blocks => replace_updates fuel common blocks d
  end.

Definition w_step (op : Op) (w : Window) : result Window err :=
  match op with
  | Append r bd => w_append r bd w
  | Prune r => w_prune r w
  | Unwind to => w_unwind to w
  | Replace common blocks => w_replace common (merge_sort by_number blocks) w
  end.

(** What the callers ensure: a child has its parent's number plus one, and a reorg
    keeps to the window. *)
Definition op_ok (w : Window) (op : Op) : Prop :=
  match op with
  | Append r bd =>
      (parent r = nhash (w_latest w) → number (block r) = number (w_latest w) + 1)
      ∧ number (block r) ≤ u64_max ∧ diff_wf bd
  | Prune _ | Unwind _ => True
  | Replace common blocks =>
      number (w_earliest w) ≤ number common ≤ number (w_latest w)
      ∧ follow (number common) (merge_sort by_number blocks)
  end.

Definition op_fuel d (op : Op) (fuel : nat) : Prop :=
  match op with
  | Append _ bd => append_fuel d bd fuel
  | Prune _ => prune_fuel d fuel
  | Unwind _ => True
  | Replace _ blocks => blocks_fuel d (merge_sort by_number blocks) fuel
  end.

Lemma no_counts_commits {A} d (m : option (db * result A err)) step :
  commits d m step → commits d (no_counts m) step.
Proof. intros (d' & r & -> & Hr). destruct r as [a|x]; [by exists d', (Ok tt)|by exists d', (Err x)]. Qed.

Lemma exec_commits fuel op d w : represents d w → op_ok w op → op_fuel d op fuel →
  commits d (exec fuel op d) (w_step op w).
Proof.
  intros Hrep Hok Hfuel. destruct op as [r bd|r|to|common blocks]; cbn in *.
  - destruct Hok as (Hn & Hm & Hbd). by apply no_counts_commits, commit_update_commits, append_implements.
  - by apply no_counts_commits, commit_update_commits, prune_implements.
  - by apply commit_update_commits, unwind_implements.
  - destruct Hok as [Hc Hf]. by apply commit_update_commits, replace_implements.
Qed.
(** Enough fuel for a database reader. *)
Definition read_fuel d (fuel : nat) : Prop :=
  (length (keys_of (rows (AccountTrieHistory d))) < fuel)%nat
  ∧ (length (keys_of (rows (StorageTrieHistory d))) < fuel)%nat
  ∧ (length (keys_of (rows (HashedAccountHistory d))) < fuel)%nat
  ∧ (2 * length (keys_of (rows (HashedStorageHistory d))) < fuel)%nat.
End Refinement.

Lemma nz_view (o : option Z) v : o = Some v ∧ v ≠ 0 ↔ nz o = Some v.
Proof. destruct o as [v'|]; cbn; [|naive_solver]. destruct (Z.eqb_spec v' 0); naive_solver. Qed.
