(* ===== verification/StoreSafety.v ===== *)
(** * Guarantees of the proofs store

    The theorems about the store that its users rely on: its operations refine the
    window of states of [StoreRefinement], readers get the state of their block, an
    unwind undoes an append, a prune keeps what is still served and drops the rest, and
    the pruner reaches its target.  Module [ListStore] is an executable store over
    sorted lists on which the theorems are instantiated. *)

From stdpp Require Import sorting.
From S2P Require Import Prelude.
From S2P Require Import Versioned.
From S2P Require Import HistoryWrites.
From S2P Require Import ProofsStore.
From S2P Require Import StoreRefinement.
#[local] Open Scope Z_scope.

Section Guarantees.
Context {Tb C Pt : Type → Type → Type} {E Node Account : Type}.
Context `{DupDbLaws Tb C E, PlainDbLaws Pt E}.
Abbreviation db := (Db Tb Pt Node Account).
Abbreviation err := (MorphProofsStorageError E).
Context `{TxOps db E}.
Implicit Types (d : db) (w : Window (Node := Node) (Account := Account)).

(** C5. The proofs store refines a window of states.  From a store that holds a window,
    appending a block, pruning, unwinding and replacing blocks after a reorg terminate;
    each takes the step of the window and commits, or fails with the error of the
    window's step, or fails in the database, and on every failure the store is
    unchanged.  The callers ensure that a block linked by hash to the latest one has
    the next number, and that a reorg's common block is inside the window. *)
Theorem proofs_store_refines fuel op d w :
  represents d w → op_ok w op → op_fuel d op fuel →
  commits d (exec fuel op d) (w_step op w).
Proof. apply exec_commits. Qed.

(** C6. Readers of a block inside the window, through the cursors of the four tables,
    terminate and get exactly the window's state of that block, in increasing key
    order: the account trie, an account's storage trie, the accounts, and an account's
    non-zero slots.  Blocks appended later are invisible to them. *)
Theorem readers_see_window fuel d w n a :
  represents d w → number (w_earliest w) ≤ n ≤ number (w_latest w) →
  (length (keys_of (rows (AccountTrieHistory d))) < fuel)%nat →
  (length (keys_of (rows (StorageTrieHistory d))) < fuel)%nat →
  (length (keys_of (rows (HashedAccountHistory d))) < fuel)%nat →
  (2 * length (keys_of (rows (HashedStorageHistory d))) < fuel)%nat →
  returns (let! c := Some (open_cursor (AccountTrieHistory d)) in drain (cursor_next n fuel) fuel c)
    (λ es, StronglySorted key_lt (map fst es)
           ∧ ∀ k v, (k, v) ∈ es ↔ v_account_nodes (w_state w n) k = Some v)
  ∧ returns (let! c := Some (open_cursor (StorageTrieHistory d)) in drain (trie_next n a fuel) fuel c)
    (λ es, StronglySorted key_lt (map fst es)
           ∧ ∀ k v, (k, v) ∈ es ↔ v_storage_nodes (w_state w n) (a, k) = Some v)
  ∧ returns (let! c := Some (open_cursor (HashedAccountHistory d)) in drain (cursor_next n fuel) fuel c)
    (λ es, StronglySorted key_lt (map fst es)
           ∧ ∀ k v, (k, v) ∈ es ↔ v_accounts (w_state w n) k = Some v)
  ∧ returns (let! c := Some (open_cursor (HashedStorageHistory d)) in drain (storage_next n a fuel) fuel c)
    (λ es, StronglySorted key_lt (map fst es)
           ∧ ∀ k v, (k, v) ∈ es ↔ v_slots (w_state w n) (a, k) = Some v).
Proof.
  intros [Hinv Hst] Hn F1 F2 F3 F4. destruct (Hst n Hn) as (S1 & S2 & S3 & S4).
  destruct (si_tables _ _ _ Hinv) as [I1 I2 I3 I4]. split_and!.
  - eapply returns_mono; [exact (read_all n fuel _ (ix_wf _ _ _ _ I1) F1)|]. intros es [Hs Hin]. split; [done|].
    intros k v. by rewrite Hin, <- S1.
  - eapply returns_mono; [exact (read_trie n fuel a _ (ix_wf _ _ _ _ I2) F2)|]. intros es [Hs Hin]. split; [done|].
    intros k v. by rewrite Hin, <- S2.
  - eapply returns_mono; [exact (read_all n fuel _ (ix_wf _ _ _ _ I3) F3)|]. intros es [Hs Hin]. split; [done|].
    intros k v. by rewrite Hin, <- S3.
  - eapply returns_mono; [exact (read_storage n fuel a _ (ix_wf _ _ _ _ I4) F4)|]. intros es [Hs Hin]. split; [done|].
    intros k v. rewrite Hin, <- S4. cbn. destruct (view _ _ _) as [v'|]; cbn; [|naive_solver].
    destruct (Z.eqb_spec v' 0); naive_solver.
Qed.

Lemma commits_Ok {A} d d' a (m : option (db * result A err)) step :
  commits d m step → m = Some (d', Ok a) → ∃ w', step = Ok w' ∧ represents d' w'.
Proof. intros (d1 & r & -> & Hr). intros [= -> ->]. done. Qed.

(** An unwind undoes an append: after a block was appended, unwinding to it
    terminates, and unless the database fails leaves a store that holds the window it
    held before, with the same earliest and latest block and the same state of every
    block. *)
Theorem append_unwind_round_trip fuel r bd d w d1 counts :
  represents d w → number (block r) = number (w_latest w) + 1 → number (block r) ≤ u64_max →
  diff_wf bd → append_fuel d bd fuel →
  store_trie_updates fuel r bd d = Some (d1, Ok counts) →
  ∃ d2 res, unwind_history r d1 = Some (d2, res) ∧
    match res with
    | Ok _ => represents d2 w
    | Err x => d2 = d1 ∧ ∃ y, x = DatabaseError y
    end.
Proof.
  intros Hrep Hnum Hmax Hbd Hfuel Hst.
  assert (Happ : commits d (store_trie_updates fuel r bd d) (w_append r bd w))
    by by apply commit_update_commits, append_implements.
  destruct (commits_Ok _ _ _ _ _ Happ Hst) as (w1 & Hw1 & Hrep1).
  unfold w_append in Hw1. destruct (Z.eqb_spec (nhash (w_latest w)) (parent r)) as [Hp|]; [|done].
  cbn in Hw1. injection Hw1 as <-.
  pose proof (si_window _ _ _ (proj1 Hrep)) as Hw.
  destruct (commit_update_commits _ _ _ (unwind_implements r _ _ Hrep1)) as (d2 & res & Hun & Hres).
  exists d2, res. split; [exact Hun|]. unfold w_unwind in Hres. cbn in Hres.
  rewrite (proj2 (Z.ltb_ge _ _)), (proj2 (Z.leb_gt _ _)) in Hres by lia.
  destruct res as [[]|x]; [|destruct Hres as [-> [?|?]]; done].
  destruct Hres as (w2 & [= <-] & [Hinv2 Hst2]). cbn in Hinv2, Hst2.
  rewrite Hnum in Hinv2, Hst2. rewrite <- Hp in Hinv2.
  replace (number (w_latest w) + 1 - 1) with (number (w_latest w)) in * by lia.
  split; [by destruct (w_latest w)|]. intros n Hn. rewrite Hst2 by done.
  by destruct (Z.leb_spec n (number (w_latest w))); [|lia].
Qed.

Lemma prune_durable fuel r d w :
  represents d w → number (w_earliest w) < number (block r) ≤ number (w_latest w) → prune_fuel d fuel →
  ∃ d' res, prune_earliest_state fuel r d = Some (d', res) ∧
    match res with
    | Ok counts => store_inv d' (block r) (w_latest w)
        ∧ store_pruned (number (w_earliest w)) (number (block r)) d d' counts
    | Err x => d' = d ∧ ∃ y, x = DatabaseError y
    end.
Proof.
  intros [Hinv _] Ht Hfuel. unfold prune_earliest_state, commit_update.
  destruct (tx_mut d) as [[]|y]; [|by exists d, (Err (DatabaseError y)); eauto 10].
  destruct (prune_update_spec fuel r d _ _ Hinv Ht Hfuel) as ([[d' counts]|x] & -> & Hr);
    [|by exists d, (Err x)].
  destruct (tx_commit d') as [[]|y]; [by exists d', (Ok counts)|by exists d, (Err (DatabaseError y)); eauto 10].
Qed.

(** A prune to a block inside the window keeps the state of every block from the
    target on, drops every older version of the keys changed up to it and every
    tombstone it makes redundant, moves the window's start to the target, and counts
    exactly the rows it deletes; when the database fails nothing changes. *)
Theorem prune_keeps_and_compacts fuel r d w :
  represents d w → number (w_earliest w) < number (block r) ≤ number (w_latest w) → prune_fuel d fuel →
  ∃ d' res, prune_earliest_state fuel r d = Some (d', res) ∧
    match res with
    | Ok counts => store_inv d' (block r) (w_latest w)
        ∧ store_pruned (number (w_earliest w)) (number (block r)) d d' counts
    | Err x => d' = d ∧ ∃ y, x = DatabaseError y
    end.
Proof. apply prune_durable. Qed.

(** ** The pruner *)

Section Pruner.
Context {P : Type} (block_hash : Z → result (option B256) P) (retention_blocks prune_batch_size : Z).
Hypothesis Hbatch : 0 < prune_batch_size.

(** A window that only lost its oldest blocks. *)
Definition shortened w w' : Prop :=
  w_latest w' = w_latest w ∧ (∀ n, w_state w' n = w_state w n)
  ∧ number (w_earliest w) ≤ number (w_earliest w').

(** How far a run got, and how it ended. *)
Definition pruned_to (target : Z) w (out : option (db * result PrunerOutput (PrunerError E P))) : Prop :=
  ∃ d' res w', out = Some (d', res) ∧ represents d' w' ∧ shortened w w'
    ∧ number (w_earliest w') ≤ Z.max (number (w_earliest w)) target
    ∧ match res with
      | Ok _ => target ≤ number (w_earliest w')
      | Err x => ∃ y, x = Storage (DatabaseError y)
      end.

Lemma represents_pruned fuel r d w d' counts : represents d w → prune_fuel d fuel →
  number (w_earliest w) < number (block r) ≤ number (w_latest w) →
  store_inv d' (block r) (w_latest w) →
  store_pruned (number (w_earliest w)) (number (block r)) d d' counts →
  represents d' {| w_earliest := block r; w_latest := w_latest w; w_state := w_state w |}
  ∧ prune_fuel d' fuel.
Proof.
  intros [_ Hst] Hfuel Hr Hinv Hpr. split; [|by apply (sp_fuel _ _ _ _ _ Hpr)].
  split; [done|]. cbn. intros n Hn. rewrite (sp_states _ _ _ _ _ Hpr) by lia. apply Hst. lia.
Qed.

Lemma prune_loop_spec batches fuel target out d w : represents d w → prune_fuel d fuel →
  target ≤ number (w_latest w) ≤ u64_max →
  (∀ b, number (w_earliest w) < b ≤ target → ∃ h, block_hash b = Ok (Some h)) →
  Z.max 0 (target - number (w_earliest w)) < Z.of_nat batches →
  pruned_to target w
    (prune_loop block_hash prune_batch_size batches fuel target (number (w_earliest w)) out d).
Proof.
  revert out d w. induction batches as [|batches IH]; intros out d w Hrep Hfuel Ht Hhash Hb;
    cbn [prune_loop]; pose proof (si_window _ _ _ (proj1 Hrep)) as Hw.
  - lia.
  - destruct (Z.ltb_spec (number (w_earliest w)) target) as [Hlt|Hge].
    2:{ exists d, (Ok out), w. split_and!; [done..|split_and!; done|lia|done]. }
    set (be := Z.min (saturating_add u64_max (number (w_earliest w)) prune_batch_size) target).
    assert (Hbe : number (w_earliest w) < be ≤ target) by (subst be; unfold saturating_add; lia).
    destruct (Hhash be Hbe) as [h Hh]. unfold prune_batch.
    destruct (Z.eqb_spec be 0) as [|_]; [lia|]. rewrite Hh.
    set (r := Build_BlockWithParent 0 (Build_NumHash be h)).
    destruct (prune_durable fuel r d w Hrep) as (d' & res & -> & Hres); [cbn; lia|done|].
    destruct res as [counts|x].
    + destruct Hres as [Hinv' Hpr].
      destruct (represents_pruned fuel r d w d' counts) as [Hrep' Hfuel']; [done|done|cbn; lia|done..|].
      edestruct IH as (d2 & res & w2 & Hrun & Hrep2 & (S1 & S2 & S3) & Hle & Hres);
        [exact Hrep'|exact Hfuel'|cbn; lia|cbn; intros b Hb'; apply Hhash; lia|cbn; lia|].
      cbn in Hrun, S1, S2, S3, Hle. exists d2, res, w2. split_and!; [exact Hrun|done|split_and!; [done..|lia]|lia|done].
    + destruct Hres as [-> [y ->]]. exists d, (Err (Storage (DatabaseError y))), w.
      split_and!; [done|done|split_and!; done|lia|by exists y].
Qed.

(** C34. The pruner reaches its target.  With a positive batch size, and canonical hashes
    known for the blocks it prunes, a run terminates within one batch per block at
    most; unless the database fails the window then starts at
    [max(earliest, latest - retention)] and still ends at the same block with the same
    states.  When the database fails midway, the batches done so far stay, and the
    store holds a window between the two. *)
Theorem pruner_reaches_target batches fuel d w :
  represents d w → prune_fuel d fuel → number (w_latest w) ≤ u64_max → 0 ≤ retention_blocks →
  (∀ b, number (w_earliest w) < b ≤ number (w_latest w) → ∃ h, block_hash b = Ok (Some h)) →
  number (w_latest w) - number (w_earliest w) < Z.of_nat batches →
  ∃ d' res w',
    run_inner block_hash retention_blocks prune_batch_size batches fuel d = Some (d', res)
    ∧ represents d' w' ∧ shortened w w'
    ∧ match res with
      | Ok _ => number (w_earliest w')
                = Z.max (number (w_earliest w)) (number (w_latest w) - retention_blocks)
      | Err x => (∃ y, x = Storage (DatabaseError y))
          ∧ number (w_earliest w') ≤ Z.max (number (w_earliest w)) (number (w_latest w) - retention_blocks)
      end.
Proof.
  intros Hrep Hfuel Hmax Hret Hhash Hb. pose proof (si_window _ _ _ (proj1 Hrep)) as Hw.
  unfold run_inner, inner_get_earliest_block_number_hash, inner_get_block_number_hash.
  pose proof (law_p_seek_exact EarliestBlock (ProofWindow d)) as He.
  assert (Hself : shortened w w) by by split_and!.
  destruct (p_seek_exact EarliestBlock _) as [o|x]; cbn in He |- *.
  2:{ exists d, (Err (Storage (DatabaseError x))), w. split_and!; [done..|by exists x|lia]. }
  rewrite (si_earliest _ _ _ (proj1 Hrep)) in He. subst o.
  destruct (get_latest_spec d _ _ (proj1 Hrep)) as ([o|x] & [= ->] & Hl); cbn.
  2:{ destruct Hl as [y ->]. exists d, (Err (Storage (DatabaseError y))), w. split_and!; [done..|by exists y|lia]. }
  subst o. unfold target_earliest_block, saturating_sub.
  set (target := Z.max (number (w_latest w) - retention_blocks) 0).
  destruct (Z.leb_spec target (number (w_earliest w))).
  { exists d, (Ok PrunerOutput_default), w. split_and!; [done..|lia]. }
  destruct (prune_loop_spec batches fuel target
      (Build_PrunerOutput (number (w_earliest w)) target WriteCounts_default) d w)
    as (d' & res & w' & Hrun & Hrep' & Hsh & Hle & Hres);
    [done|done|lia|intros b Hb'; apply Hhash; lia|lia|].
  exists d', res, w'. split_and!; [exact Hrun|done|done|]. destruct res; [lia|]. split; [done|lia].
Qed.
End Pruner.
End Guarantees.

(** ** An executable store *)

Module ListStore.
Definition plain (K V : Type) : Type := list (K * V).

Section Plain.
Context {K V : Type} `{EqDecision K}.
Definition remove (k : K) (t : plain K V) : plain K V :=
  List.filter (λ r, negb (bool_decide (r.1 = k))) t.
Definition put (k : K) (v : V) (t : plain K V) : plain K V := (k, v) :: remove k t.
Definition walk (ks : list K) (t : plain K V) : list (K * V) := omap (λ k, (k,.) <$> item_of t k) ks.

Lemma item_of_remove k t k' :
  item_of (remove k t) k' = if bool_decide (k' = k) then None else item_of t k'.
Proof.
  induction t as [|[k1 v1] t IH]; [by case_bool_decide|]. unfold remove. cbn [List.filter fst].
  fold (remove k t). destruct (decide (k1 = k)) as [->|Hne].
  - rewrite bool_decide_true by done. cbn [negb]. rewrite IH, item_of_cons.
    destruct (decide (k' = k)) as [->|]; [by rewrite !bool_decide_true|].
    by rewrite !bool_decide_false by congruence.
  - rewrite bool_decide_false by done. cbn [negb]. rewrite !item_of_cons, IH.
    destruct (decide (k1 = k')) as [->|]; [|by rewrite !(bool_decide_false (k1 = k'))].
    by rewrite (bool_decide_true (k' = k')), bool_decide_false.
Qed.

Lemma item_of_put k v t k' : item_of (put k v t) k' = if bool_decide (k' = k) then Some v else item_of t k'.
Proof.
  unfold put. rewrite item_of_cons, item_of_remove.
  destruct (decide (k' = k)) as [->|]; [by rewrite !bool_decide_true|].
  by rewrite !bool_decide_false by congruence.
Qed.

Lemma elem_of_walk ks t k v : (k, v) ∈ walk ks t ↔ k ∈ ks ∧ item_of t k = Some v.
Proof.
  unfold walk. rewrite list_elem_of_omap. split.
  - intros (k' & Hk & He). destruct (item_of t k') eqn:Hi; cbn in He; by simplify_eq.
  - intros [Hk Hi]. exists k. by rewrite Hi.
Qed.

Lemma item_of_member (t : plain K V) k v : item_of t k = Some v → k ∈ map fst t.
Proof. intros Hi. apply dec_stable. rewrite <- item_of_None. by rewrite Hi. Qed.

Lemma walk_sorted (R : relation K) ks t : StronglySorted R ks → StronglySorted R (map fst (walk ks t)).
Proof.
  unfold walk. induction 1 as [|k ks Hs IH Hk]; [constructor|]. cbn.
  destruct (item_of t k); cbn; [|done]. constructor; [done|]. rewrite Forall_forall in Hk |- *.
  intros k' ([k2 v2] & -> & [Hin _]%elem_of_walk)%list_elem_of_fmap. by apply Hk.
Qed.
End Plain.

(** The keys of a table that satisfy a test, in increasing order. *)
Definition sorted_keys {V} (p : Z → bool) (t : plain Z V) : list Z :=
  merge_sort Z.le (List.filter p (remove_dups (map fst t))).

Lemma elem_of_sorted_keys {V} p (t : plain Z V) k : k ∈ sorted_keys p t ↔ k ∈ map fst t ∧ p k = true.
Proof.
  unfold sorted_keys. rewrite merge_sort_Permutation, list_elem_of_In, filter_In, <- list_elem_of_In.
  by rewrite elem_of_remove_dups.
Qed.

Lemma sorted_keys_sorted {V} p (t : plain Z V) : StronglySorted Z.lt (sorted_keys p t).
Proof.
  assert (Hnd : NoDup (sorted_keys p t)).
  { unfold sorted_keys. rewrite merge_sort_Permutation. pose proof (NoDup_remove_dups (map fst t)) as Hn.
    revert Hn. generalize (remove_dups (map fst t)). induction 1 as [|k l Hk Hl IH]; cbn; [apply NoDup_nil_2|].
    destruct (p k); [|done]. constructor; [|done].
    rewrite list_elem_of_In, filter_In, <- list_elem_of_In. tauto. }
  assert (Hs : StronglySorted Z.le (sorted_keys p t)) by apply (StronglySorted_merge_sort Z.le).
  revert Hnd Hs. generalize (sorted_keys p t). induction 2 as [|k l Hs IH Hk]; [constructor|].
  apply NoDup_cons in Hnd as [Hkl Hnd]. constructor; [by apply IH|]. rewrite Forall_forall in Hk |- *.
  intros k' Hk'. specialize (Hk _ Hk'). assert (k ≠ k') by by intros ->. lia.
Qed.

#[global] Instance plain_db : PlainDb plain string := {
  p_seek_exact K V _ k t := Ok (item_of t k);
  p_upsert K V _ k v t := Ok (put k v t);
  p_insert K V _ k v t := if bool_decide (item_of t k = None) then Ok (put k v t) else Err "key exists";
  p_append V k v t := if forallb (λ r, r.1 <? k) t then Ok (put k v t) else Err "key mismatch";
  p_walk_back V k t := Ok (walk (rev (sorted_keys (λ b, b <=? k) t)) t);
  p_walk_range V lo hi t := Ok (walk (sorted_keys (in_walk lo hi) t) t);
  p_delete K V _ k t := Ok (remove k t);
  p_entries K V t := Ok (Z.of_nat (length t));
}.

Lemma StronglySorted_rev l : StronglySorted Z.lt l → StronglySorted Z.gt (rev l).
Proof.
  induction 1 as [|k l Hs IH Hk]; cbn; [constructor|]. rewrite Forall_forall in Hk.
  assert (Hall : ∀ x, x ∈ rev l → x > k).
  { intros x Hx. rewrite list_elem_of_In, <- in_rev, <- list_elem_of_In in Hx. specialize (Hk _ Hx). lia. }
  revert IH Hall. generalize (rev l). induction 1 as [|x l' Hs' IH' Hx]; intros Hall; cbn; [repeat constructor|].
  constructor; [apply IH'; intros y Hy; apply Hall; by right|]. rewrite Forall_forall in Hx |- *.
  intros y [Hy| ->%list_elem_of_singleton]%elem_of_app; [by apply Hx|]. apply Hall. left.
Qed.

#[global] Instance plain_laws : PlainDbLaws plain string.
Proof.
  refine {| content K V _ t k := item_of t k |}.
  - done.
  - intros K V ? k v t k'. apply item_of_put.
  - intros K V ? k v t. cbn. case_bool_decide as Hk; [|done]. split; [done|]. apply item_of_put.
  - intros V k v t. cbn. destruct (forallb _ t) eqn:Hf; [|done]. split; [|apply item_of_put].
    intros k' Hk'. destruct (item_of t k') as [v'|] eqn:Hi; [|done].
    apply item_of_member, list_elem_of_fmap in Hi as (r & -> & Hr). rewrite forallb_forall in Hf.
    apply list_elem_of_In in Hr. specialize (Hf _ Hr). lia.
  - intros V k t Hk. cbn. split; [apply walk_sorted, StronglySorted_rev, sorted_keys_sorted|].
    intros k' v. rewrite elem_of_walk, list_elem_of_In, <- in_rev, <- list_elem_of_In, elem_of_sorted_keys.
    rewrite Z.leb_le. split; [tauto|]. intros [Hi Hle]. split_and!; [by eapply item_of_member|done..].
  - intros V lo hi t. cbn. split; [apply walk_sorted, sorted_keys_sorted|].
    intros k v. rewrite elem_of_walk, elem_of_sorted_keys. unfold in_walk. rewrite andb_true_iff, Z.leb_le.
    split.
    + intros [(_ & Hlo & Hhi) Hi]. split_and!; [done..|]. destruct hi; [lia|done].
    + intros (Hi & Hlo & Hhi). split_and!; [by eapply item_of_member|done| |done]. destruct hi; [lia|done].
  - intros K V ? k t k'. apply item_of_remove.
Defined.

(** Transactions on it never fail. *)
#[global] Instance tx_ops D : TxOps D string := {| tx_mut _ := Ok tt; tx_commit _ := Ok tt |}.

Abbreviation store := (Db ListDb.table plain Z Z).
Abbreviation sample_diff := (BlockStateDiff Z Z).
Definition v0 {V} (v : V) : VersionedValue V := {| block_number := 0; vvalue := Some v |}.

(** The state of block 0: two accounts, the second with two slots and a trie node. *)
Definition genesis : store := {|
  AccountTrieHistory := [([1], v0 100)];
  StorageTrieHistory := [((2, [7]), v0 200)];
  HashedAccountHistory := [(1, v0 11); (2, v0 12)];
  HashedStorageHistory := [((2, 5), v0 50); ((2, 6), v0 60)];
  ProofWindow := [(EarliestBlock, Build_NumHash 0 1000)];
  BlockChangeSet := [] |}.

(** Block 1 destroys account 2, recreates it with one slot and changes account 1. *)
Definition block1 : BlockWithParent := Build_BlockWithParent 1000 (Build_NumHash 1 1001).
Definition diff1 : sample_diff := {|
  account_nodes := [([1], None); ([3], Some 103)];
  storage_tries := [(2, {| is_deleted := true; storage_nodes := [([8], Some 208)] |})];
  accounts := [(1, Some 21); (2, Some 22)];
  storages := [(2, {| wiped := true; storage_slots := [(6, 66)] |})] |}.

(** Block 2 deletes account 1. *)
Definition block2 : BlockWithParent := Build_BlockWithParent 1001 (Build_NumHash 2 1002).
Definition diff2 : sample_diff := {|
  account_nodes := []; storage_tries := [];
  accounts := [(1, None)]; storages := [(2, {| wiped := false; storage_slots := [(6, 0)] |})] |}.

Definition genesis_window : Window (Node := Z) (Account := Z) := {|
  w_earliest := Build_NumHash 0 1000; w_latest := Build_NumHash 0 1000;
  w_state := state_at (E := string) genesis |}.

Lemma genesis_indexed {K V} `{KeyOrdLaws K} (rs : list (K * VersionedValue V)) ka :
  wf_rows rs → (∀ k v, (k, v) ∈ rs → block_number v = 0) → indexed 0 0 ka rs.
Proof.
  intros Hwf H0'. split; [done|..].
  - intros k v Hr. by rewrite (H0' _ _ Hr).
  - intros b k Hb. lia.
Qed.

Lemma genesis_represented : represents (E := string) genesis genesis_window.
Proof.
  split; [|by intros n _; cbn]. split; cbn; [done..| | |]; [lia|intros b; split; [done|lia]|].
  split; apply genesis_indexed;
    try (split; [repeat constructor; cbn; lia|repeat constructor; cbn; lia]);
    intros k v Hr; repeat (apply elem_of_cons in Hr as [[= -> ->]|Hr]; [done|]); by apply elem_of_nil in Hr.
Qed.

Ltac by_decide := apply (bool_decide_unpack _); vm_compute; exact I.

Lemma diff1_wf : diff_wf diff1.
Proof.
  split; cbn; [by_decide|split; by_decide| |split; by_decide|split; by_decide|].
  - intros a u [[= -> ->]|[]%elem_of_nil]%elem_of_cons. by_decide.
  - intros a u [[= -> ->]|[]%elem_of_nil]%elem_of_cons. split; by_decide.
Qed.

(** The store after block 1. *)
Definition store1 : store := Eval vm_compute in
  match store_trie_updates 50 block1 diff1 genesis with Some (d, _) => d | None => genesis end.
Definition window1 : Window (Node := Z) (Account := Z) :=
  match w_append (E := string) block1 diff1 genesis_window with Ok w => w | Err _ => genesis_window end.

Lemma block1_ok : op_ok genesis_window (Append block1 diff1).
Proof. split_and!; [done|vm_compute; done|apply diff1_wf]. Qed.
Lemma block1_fuel : op_fuel (E := string) genesis (Append block1 diff1) 50.
Proof. split; vm_compute; lia. Qed.

Lemma store1_represented : represents (E := string) store1 window1.
Proof.
  destruct (exec_commits 50 (Append block1 diff1) genesis genesis_window genesis_represented
    block1_ok block1_fuel) as (d' & r & Hrun & Hr).
  assert (Hex : exec (E := string) 50 (Append block1 diff1) genesis = Some (store1, Ok tt))
    by (vm_compute; reflexivity).
  rewrite Hex in Hrun. injection Hrun as <- <-. destruct Hr as (w' & Hw & Hrep).
  unfold window1. change (w_step (E := string) (Append block1 diff1) genesis_window)
    with (w_append (E := string) block1 diff1 genesis_window) in Hw. by rewrite Hw.
Qed.
End ListStore.

Import ListStore.

Lemma proofs_store_refines_witness :
  exec (E := string) 50 (Append block1 diff1) genesis = Some (store1, Ok tt)
  ∧ commits (E := string) genesis (exec 50 (Append block1 diff1) genesis)
      (w_step (Append block1 diff1) genesis_window).
Proof.
  split; [vm_compute; reflexivity|].
  simple refine (proofs_store_refines 50 (Append block1 diff1) genesis genesis_window _ _ _);
    [exact genesis_represented|exact block1_ok|exact block1_fuel].
Defined.

Lemma readers_see_window_witness :
  drain (E := string) (storage_next 0 2 50) 50 (ListDb.Build_cursor _ _ (HashedStorageHistory store1) None)
    = Some (Ok [(5, 50); (6, 60)])
  ∧ drain (E := string) (storage_next 1 2 50) 50 (ListDb.Build_cursor _ _ (HashedStorageHistory store1) None)
    = Some (Ok [(6, 66)])
  ∧ returns (E := string)
      (let! c := Some (open_cursor (AccountTrieHistory store1)) in drain (cursor_next 1 50) 50 c)
      (λ es, StronglySorted key_lt (map fst es)
             ∧ ∀ k v, (k, v) ∈ es ↔ v_account_nodes (w_state window1 1) k = Some v).
Proof.
  split; [vm_compute; reflexivity|]. split; [vm_compute; reflexivity|].
  simple refine (proj1 (readers_see_window 50 store1 window1 1 2 _ _ _ _ _ _));
    [exact store1_represented|vm_compute; split; discriminate|vm_compute; lia..].
Defined.

Lemma append_unwind_round_trip_witness :
  ∃ d2 res, unwind_history (E := string) block1 store1 = Some (d2, res) ∧
    match res with
    | Ok _ => represents (E := string) d2 genesis_window
    | Err x => d2 = store1 ∧ ∃ y, x = DatabaseError y
    end.
Proof.
  simple refine (append_unwind_round_trip 50 block1 diff1 genesis genesis_window store1
    (Build_WriteCounts 2 2 2 2) _ _ _ _ _ _);
    [exact genesis_represented|reflexivity|vm_compute; discriminate|exact diff1_wf
    |exact block1_fuel|vm_compute; reflexivity].
Defined.

Lemma prune_keeps_and_compacts_witness :
  ∃ d' res, prune_earliest_state (E := string) 50 block1 store1 = Some (d', res) ∧
    match res with
    | Ok counts => store_inv (E := string) d' (block block1) (w_latest window1)
        ∧ store_pruned (E := string) (number (w_earliest window1)) (number (block block1)) store1 d' counts
    | Err x => d' = store1 ∧ ∃ y, x = DatabaseError y
    end.
Proof.
  simple refine (prune_keeps_and_compacts 50 block1 store1 window1 _ _ _);
    [exact store1_represented|vm_compute; split; [reflexivity|discriminate]|vm_compute; lia].
Defined.

Lemma pruner_reaches_target_witness :
  ∃ d' res w',
    run_inner (E := string) (P := unit) (λ n, Ok (Some (1000 + n))) 0 1 10 50 store1 = Some (d', res)
    ∧ represents (E := string) d' w' ∧ shortened window1 w'
    ∧ match res with
      | Ok _ => number (w_earliest w') = Z.max (number (w_earliest window1)) (number (w_latest window1) - 0)
      | Err x => (∃ y, x = Storage (DatabaseError y))
          ∧ number (w_earliest w') ≤ Z.max (number (w_earliest window1)) (number (w_latest window1) - 0)
      end.
Proof.
  simple refine (pruner_reaches_target (P := unit) (λ n, Ok (Some (1000 + n))) 0 1 _ 10 50 store1 window1
    _ _ _ _ _ _);
    [lia|exact store1_represented|vm_compute; lia|vm_compute; discriminate|lia
    |intros b _; by exists (1000 + b)|vm_compute; reflexivity].
Defined.
