(* ===== verification/Initialize.v ===== *)
(** * Loading the initial state

    Models the initial-state half of [crates/proofs/src/db/store.rs] (the anchor, the
    bulk writers at block 0 and the commit of the initial state) and the initialization
    job of [crates/proofs/src/initialize.rs], which copies the node's hashed state and
    tries into the proofs store in durable batches and can be interrupted and resumed.
    Reth's source tables are parameters: a search and an iterator per table. *)

From stdpp Require Import sorting.
From S2P Require Import Prelude.
From S2P Require Import Versioned.
From S2P Require Import HistoryWrites.
From S2P Require Import ProofsStore.
From S2P Require Import StoreRefinement.
From S2P Require Import StoreSafety.
#[local] Open Scope Z_scope.

(** ** The initial-state operations of the store *)

Inductive InitialStateStatus := NotStarted | InProgress | Completed.

Record InitialStateAnchor := {
  anchor_block : option NumHash;
  status : InitialStateStatus;
  latest_account_trie_key : option path;
  latest_storage_trie_key : option (B256 * path);
  latest_hashed_account_key : option B256;
  latest_hashed_storage_key : option (B256 * B256);
}.
Definition InitialStateAnchor_default : InitialStateAnchor :=
  Build_InitialStateAnchor None NotStarted None None None None.

(** A table of the node's database: the first key from a key on, and the rows after a
    key (or all of them), which end early when the database fails. *)
Record SourceTable (K V E : Type) := {
  s_seek : K → result (option K) E;
  s_iter : option K → list (result (K * V) E);
}.
Arguments s_seek {K V E}.
Arguments s_iter {K V E}.

Section InitialState.
Context {Tb C Pt : Type → Type → Type} {E Node Account : Type}.
Context `{DupDb Tb C E, PlainDb Pt E}.
Abbreviation db := (Db Tb Pt Node Account).
Abbreviation err := (MorphProofsStorageError E).
Context `{TxOps db E}.

Definition get_initial_state_anchor (d : db) : result (option NumHash) err :=
  lift (p_seek_exact InitialStateKey (ProofWindow d)).

Definition get_latest_key {K V} `{KeyOrd K} (t : Tb K V) : result (option K) err :=
  let? o := lift (c_last t) in Ok (fst <$> o).

Definition initial_state_anchor (d : db) : result InitialStateAnchor err :=
  let? anchor := get_initial_state_anchor d in
  match anchor with
  | None => Ok InitialStateAnchor_default
  | Some blk =>
      let? earliest := inner_get_earliest_block_number_hash d in
      let? k1 := get_latest_key (AccountTrieHistory d) in
      let? k2 := get_latest_key (StorageTrieHistory d) in
      let? k3 := get_latest_key (HashedAccountHistory d) in
      let? k4 := get_latest_key (HashedStorageHistory d) in
      Ok {| anchor_block := Some blk;
            status := if bool_decide (is_Some earliest) then Completed else InProgress;
            latest_account_trie_key := k1; latest_storage_trie_key := k2;
            latest_hashed_account_key := k3; latest_hashed_storage_key := k4 |}
  end.

Definition set_initial_state_anchor (anchor : NumHash) : db → option (db * result unit err) :=
  commit_update (λ d,
    let! w := Some (lift (p_insert InitialStateKey anchor (ProofWindow d))) in
    Some (Ok (with_window d w, tt))).

(** [sort_by_key] *)
Definition sort_by_key {K A} `{KeyOrd K} (l : list (K * A)) : list (K * A) := merge_sort key_le l.

Definition store_account_branches (nodes : list (path * option Node)) (d : db)
  : option (db * result unit err) :=
  match nodes with
  | [] => Some (d, Ok tt)
  | _ =>
      commit_update (λ d,
        let! '(t, _) := Some (lift (persist_history_batch 0 (sort_by_key nodes) true (AccountTrieHistory d))) in
        Some (Ok (with_account_trie d t, tt))) d
  end.

Definition store_hashed_accounts (accs : list (B256 * option Account)) (d : db)
  : option (db * result unit err) :=
  match accs with
  | [] => Some (d, Ok tt)
  | _ =>
      commit_update (λ d,
        let! '(t, _) := Some (lift (persist_history_batch 0 (sort_by_key accs) true (HashedAccountHistory d))) in
        Some (Ok (with_hashed_accounts d t, tt))) d
  end.

(** The loops of the bulk writers, one account after the other. *)
Fixpoint store_all {K V} `{KeyOrd K} (entries : list (B256 * list (K * option V))) (t : Tb (B256 * K)%type V)
  : result (Tb (B256 * K)%type V) E :=
  match entries with
  | [] => Ok t
  | (address, nodes) :: entries =>
      let? '(t, _) := persist_history_batch 0
        (map (λ '(k, v), ((address, k), v)) (sort_by_key nodes)) true t in
      store_all entries t
  end.

Definition store_storage_branches_bulk (entries : list (B256 * list (path * option Node)))
  : db → option (db * result unit err) :=
  commit_update (λ d,
    let! t := Some (lift (store_all (sort_by_key entries) (StorageTrieHistory d))) in
    Some (Ok (with_storage_trie d t, tt))).

Definition store_hashed_storages_bulk (entries : list (B256 * list (B256 * Z)))
  : db → option (db * result unit err) :=
  commit_update (λ d,
    let! t := Some (lift (store_all
      (map (λ '(a, l), (a, map (λ '(k, v), (k, Some v)) l)) (sort_by_key entries))
      (HashedStorageHistory d))) in
    Some (Ok (with_hashed_storages d t, tt))).

Definition commit_initial_state (d : db) : option (db * result NumHash err) :=
  match get_initial_state_anchor d with
  | Err e => Some (d, Err e)
  | Ok None => Some (d, Err NoBlocksFound)
  | Ok (Some anchor) =>
      match set_earliest_block_number_hash (number anchor) (nhash anchor) d with
      | None => None
      | Some (d, Err e) => Some (d, Err e)
      | Some (d, Ok _) => Some (d, Ok anchor)
      end
  end.

(** ** The initialization job *)

(** [initialize]: the source's entries are stored in batches of [storage_threshold]. *)
Fixpoint initialize {K V} (storage_threshold : nat)
    (store_entries : list (K * V) → db → option (db * result unit err))
    (source : list (result (K * V) E)) (batch : list (K * V)) (d : db) : option (db * result unit err) :=
  match source with
  | [] => match batch with [] => Some (d, Ok tt) | _ => store_entries batch d end
  | Err e :: _ => Some (d, Err (DatabaseError e))
  | Ok entry :: source =>
      let batch := batch ++ [entry] in
      if (storage_threshold <=? length batch)%nat then
        match store_entries batch d with
        | Some (d, Ok _) => initialize storage_threshold store_entries source [] d
        | other => other
        end
      else initialize storage_threshold store_entries source batch d
  end.

(** Resuming after [start_key], which must be in the source, then loading the rest. *)
Definition initialize_from {K V} `{KeyOrd K} (storage_threshold : nat) (src : SourceTable K V E)
    (store_entries : list (K * V) → db → option (db * result unit err)) (start_key : option K) (d : db)
  : option (db * result unit err) :=
  match start_key with
  | Some latest =>
      match s_seek src latest with
      | Err e => Some (d, Err (DatabaseError e))
      | Ok o =>
          if bool_decide (o = Some latest) then
            initialize storage_threshold store_entries (s_iter src start_key) [] d
          else Some (d, Err InitializeStorageInconsistentState)
      end
  | None => initialize storage_threshold store_entries (s_iter src None) [] d
  end.

(** Grouping sorted entries by address. *)
Fixpoint group_by_address {X} (entries : list (B256 * X)) (current_address : option B256)
    (current : list X) (grouped : list (B256 * list X)) : list (B256 * list X) :=
  match entries with
  | [] => match current_address with Some a => grouped ++ [(a, current)] | None => grouped end
  | (address, x) :: entries =>
      if bool_decide (current_address = Some address) then
        group_by_address entries current_address (current ++ [x]) grouped
      else
        match current_address with
        | Some a => group_by_address entries (Some address) [x] (grouped ++ [(a, current)])
        | None => group_by_address entries (Some address) (current ++ [x]) grouped
        end
  end.

(** [InitTable::store_entries] of the four tables. *)
Definition entries_accounts (l : list (B256 * Account)) : db → option (db * result unit err) :=
  store_hashed_accounts (map (λ '(a, x), (a, Some x)) l).
Definition entries_storages (l : list (B256 * B256 * Z)) : db → option (db * result unit err) :=
  store_hashed_storages_bulk (group_by_address (map (λ '(a, k, v), (a, (k, v))) l) None [] []).
Definition entries_accounts_trie (l : list (path * Node)) : db → option (db * result unit err) :=
  store_account_branches (map (λ '(p, x), (p, Some x)) l).
Definition entries_storages_trie (l : list (B256 * path * Node)) : db → option (db * result unit err) :=
  store_storage_branches_bulk (group_by_address (map (λ '(a, p, x), (a, (p, Some x))) l) None [] []).

(** [a?; b] on durable operations. *)
Definition and_then {A B} (m : option (db * result A err)) (k : db → option (db * result B err))
  : option (db * result B err) :=
  match m with
  | None => None
  | Some (d, Err e) => Some (d, Err e)
  | Some (d, Ok _) => k d
  end.

Section Job.
Context (storage_threshold : nat).
Context (src_accounts : SourceTable B256 Account E) (src_storages : SourceTable (B256 * B256)%type Z E).
Context (src_accounts_trie : SourceTable path Node E) (src_storages_trie : SourceTable (B256 * path)%type Node E).

Definition initialize_trie (anchor : InitialStateAnchor) (d : db) : option (db * result unit err) :=
  and_then (initialize_from storage_threshold src_accounts entries_accounts (latest_hashed_account_key anchor) d) (λ d,
  and_then (initialize_from storage_threshold src_storages entries_storages (latest_hashed_storage_key anchor) d) (λ d,
  and_then (initialize_from storage_threshold src_storages_trie entries_storages_trie (latest_storage_trie_key anchor) d)
    (initialize_from storage_threshold src_accounts_trie entries_accounts_trie (latest_account_trie_key anchor)))).

Definition validate_anchor_block (anchor : InitialStateAnchor) (best_number : Z) (best_hash : B256)
  : result unit err :=
  match anchor_block anchor with
  | None => Err InitializeStorageInconsistentState
  | Some blk =>
      if negb (number blk =? best_number) || negb (nhash blk =? best_hash) then
        Err InitializeStorageInconsistentState
      else Ok tt
  end.

Definition run (best_number : Z) (best_hash : B256) (d : db) : option (db * result unit err) :=
  match initial_state_anchor d with
  | Err e => Some (d, Err e)
  | Ok anchor =>
      let continue d :=
        and_then (initialize_trie anchor d) (λ d, and_then (commit_initial_state d) (λ d, Some (d, Ok tt))) in
      match status anchor with
      | Completed => Some (d, Ok tt)
      | NotStarted =>
          and_then (set_initial_state_anchor (Build_NumHash best_number best_hash) d) continue
      | InProgress =>
          match validate_anchor_block anchor best_number best_hash with
          | Err e => Some (d, Err e)
          | Ok _ => continue d
          end
      end
  end.
End Job.
End InitialState.

(** ** What a source table holds *)

(** Sorted rows; the iterator yields the rows after its start, up to a failure. *)
Record source_ok {K V E} `{KeyOrd K} (st : SourceTable K V E) (src : list (K * V)) : Prop := {
  so_sorted : StronglySorted key_lt (map fst src);
  so_keys : ∀ k, k ∈ map fst src → key_ok k;
  so_seek : ∀ k, outcome (s_seek st k) (λ o, o = head (from k (map fst src)));
  so_iter : ∀ pre rest, src = pre ++ rest →
    s_iter st (fst <$> last pre) = map Ok rest
    ∨ ∃ p q e, rest = p ++ q ∧ s_iter st (fst <$> last pre) = map Ok p ++ [Err e];
}.

Section Loading.
Context {K V : Type} `{KeyOrdLaws K}.
Implicit Types (pre src : list (K * V)) (rs : list (K * VersionedValue V)).

(** A table that holds the rows [pre], all of block 0. *)
Definition base (x : K * V) : K * VersionedValue V := (x.1, {| block_number := 0; vvalue := Some x.2 |}).
Definition loaded pre rs : Prop := wf_rows rs ∧ ∀ r, r ∈ rs ↔ r ∈ map base pre.

Lemma sorted_same {A} (R : relation A) `{!StrictOrder R} (l1 l2 : list A) :
  StronglySorted R l1 → StronglySorted R l2 → (∀ x, x ∈ l1 ↔ x ∈ l2) → l1 = l2.
Proof.
  intros H1. revert l2. induction H1 as [|x l1 H1 IH Hx]; intros l2 H2 He.
  - destruct l2 as [|y l2]; [done|]. exfalso. apply (not_elem_of_nil y). apply He. left.
  - destruct H2 as [|y l2 H2 Hy]; [exfalso; apply (not_elem_of_nil x); apply He; left|].
    rewrite Forall_forall in Hx, Hy.
    assert (x = y) as ->.
    { assert (Hx' : x ∈ y :: l2) by (apply He; left). assert (Hy' : y ∈ x :: l1) by (apply He; left).
      apply elem_of_cons in Hx' as [?|Hx']; [done|]. apply elem_of_cons in Hy' as [?|Hy']; [done|].
      destruct (irreflexivity R x). etrans; [by apply Hx|by apply Hy]. }
    f_equal. apply IH; [done|]. intros z. split; intros Hz.
    + assert (Hz' : z ∈ y :: l2) by (apply He; by right). apply elem_of_cons in Hz' as [->|?]; [|done].
      by destruct (irreflexivity R y (Hx _ Hz)).
    + assert (Hz' : z ∈ y :: l1) by (apply He; by right). apply elem_of_cons in Hz' as [->|?]; [|done].
      by destruct (irreflexivity R y (Hy _ Hz)).
Qed.

Lemma base_sorted pre : StronglySorted key_lt (map fst pre) → sorted_rows (map base pre).
Proof.
  unfold sorted_rows. rewrite map_map. induction pre as [|x pre IH]; [constructor|]. cbn.
  intros [Hs Hx]%StronglySorted_inv. constructor; [by apply IH|]. rewrite Forall_forall in Hx.
  rewrite Forall_forall. intros p (y & -> & Hy)%list_elem_of_fmap. left. cbn. apply Hx.
  apply list_elem_of_fmap. by exists y.
Qed.

Lemma loaded_rows pre rs : StronglySorted key_lt (map fst pre) → loaded pre rs → rs = map base pre.
Proof.
  intros Hs [[Hrs _] Hin]. rewrite sorted_rows_alt in Hrs. pose proof (base_sorted pre Hs) as Hb.
  rewrite sorted_rows_alt in Hb. revert Hrs Hb Hin. apply sorted_same. split.
  - intros r. apply (irreflexivity key_lt).
  - intros r1 r2 r3. apply (transitivity (R := key_lt)).
Qed.

Lemma loaded_last pre rs : StronglySorted key_lt (map fst pre) → loaded pre rs →
  fst <$> last rs = fst <$> last pre.
Proof.
  intros Hs Hl. rewrite (loaded_rows pre rs Hs Hl).
  change (map base pre) with (base <$> pre). rewrite fmap_last. by destruct (last pre).
Qed.

(** Adding a batch of rows whose keys are new. *)
Lemma loaded_added pre batch (items : list (K * option V)) rs rs' : loaded pre rs → wf_rows rs' →
  added 0 items rs rs' → (∀ k o, (k, o) ∈ items ↔ (k, o) ∈ map (λ x, (x.1, Some x.2)) batch) →
  loaded (pre ++ batch) rs'.
Proof.
  intros [Hwf Hin] Hwf' Hadd Hitems. split; [done|]. intros [k v]. rewrite (Hadd (k, v)), Hin, map_app, elem_of_app.
  rewrite elem_of_into_kv, Hitems, !list_elem_of_fmap. split; (intros [?|Hx]; [by left|right]).
  - destruct Hx as [Hb ([k' x] & [= -> Hv] & Hx)]. exists (k', x). split; [|done].
    unfold base. cbn. f_equal. destruct v. cbn in *. by subst.
  - destruct Hx as ([k' x] & [= -> ->] & Hx). cbn. split; [done|]. by exists (k', x).
Qed.

Lemma sorted_app_new pre batch k : StronglySorted key_lt (map fst (pre ++ batch)) →
  k ∈ map fst batch → k ∉ map fst pre.
Proof.
  rewrite map_app. intros Hs Hk Hp. apply (irreflexivity key_lt k).
  by apply (StronglySorted_app_1_elem_of _ _ _ k k Hs).
Qed.

Lemma loaded_new pre batch rs k v : loaded pre rs → StronglySorted key_lt (map fst (pre ++ batch)) →
  k ∈ map fst batch → (k, v) ∉ rs.
Proof.
  intros [_ Hin] Hs Hk Hr. apply Hin, list_elem_of_fmap in Hr as ([k' x] & [= -> ->] & Hx).
  apply (sorted_app_new pre batch k' Hs Hk). apply list_elem_of_fmap. by exists (k', x).
Qed.

(** What readers then see, at any block. *)
Lemma loaded_view pre rs n k : StronglySorted key_lt (map fst pre) → loaded pre rs → 0 ≤ n →
  view rs n k = item_of pre k.
Proof.
  intros Hs [Hwf Hin] Hn. unfold view. pose proof (btree_NoDup pre Hs) as Hnd.
  assert (Hrow : ∀ v, (k, v) ∈ rs ↔ ∃ x, (k, x) ∈ pre ∧ v = {| block_number := 0; vvalue := Some x |}).
  { intros v. rewrite Hin, list_elem_of_fmap. split.
    - intros ([k' x] & [= -> ->] & Hx). by exists x.
    - intros (x & Hx & ->). by exists (k, x). }
  destruct (item_of pre k) as [x|] eqn:Hi.
  - apply item_of_Some in Hi; [|done].
    assert (version_at rs n k = Some {| block_number := 0; vvalue := Some x |}) as ->; [|done].
    apply version_at_Some; [apply Hwf|]. cbn. split_and!; [apply Hrow; by exists x|done|].
    by intros v (y & _ & ->)%Hrow _.
  - assert (version_at rs n k = None) as ->; [|done]. apply version_at_None; [apply Hwf|].
    intros v (x & Hx & ->)%Hrow. exfalso. apply item_of_None in Hi. apply Hi, list_elem_of_fmap. by exists (k, x).
Qed.
End Loading.

(** ** The batches *)

Section Job.
Context {Tb C Pt : Type → Type → Type} {E Node Account : Type}.
Context `{DupDbLaws Tb C E, PlainDbLaws Pt E}.
Abbreviation db := (Db Tb Pt Node Account).
Abbreviation err := (MorphProofsStorageError E).
Context `{TxOps db E}.

(** A durable operation that fails only in the database, and then changes nothing. *)
Definition durable {A} (d : db) (m : option (db * result A err)) (P : db → Prop) : Prop :=
  ∃ d' r, m = Some (d', r) ∧ match r with Ok _ => P d' | Err x => d' = d ∧ ∃ y, x = DatabaseError y end.

Lemma commit_durable {A} (update : db → option (result (db * A) err)) d (P : db → Prop) :
  succeeds (update d) (λ p, P p.1) → durable d (commit_update update d) P.
Proof.
  intros (r & Hu & Hr). unfold commit_update, durable.
  destruct (tx_mut d) as [[]|y]; [|exists d, (Err (DatabaseError y)); by eauto 10]. rewrite Hu.
  destruct r as [[d' a]|x]; [|by exists d, (Err x)].
  destruct (tx_commit d') as [[]|y]; [by exists d', (Ok a)|exists d, (Err (DatabaseError y)); by eauto 10].
Qed.

Section OneTable.
Context {K V : Type} (threshold : nat) (store_entries : list (K * V) → db → option (db * result unit err)).
Context (I : list (K * V) → db → Prop) (src : list (K * V)).
Hypothesis Hthreshold : (0 < threshold)%nat.
Hypothesis Hstore : ∀ pre batch d, I pre d → (pre ++ batch) `prefix_of` src → batch ≠ [] →
  durable d (store_entries batch d) (I (pre ++ batch)).

(** A run of one table ends with all rows, or in a failure with some of them. *)
Definition table_run (m : option (db * result unit err)) : Prop :=
  ∃ d' r pre', m = Some (d', r) ∧ pre' `prefix_of` src ∧ I pre' d' ∧
    match r with Ok _ => pre' = src | Err x => ∃ y, x = DatabaseError y end.

Lemma initialize_spec source batch pre rest d : I pre d → src = pre ++ batch ++ rest →
  (length batch < threshold)%nat →
  (source = map Ok rest ∨ ∃ p q e, rest = p ++ q ∧ source = map Ok p ++ [Err e]) →
  table_run (initialize threshold store_entries source batch d).
Proof.
  revert batch pre rest d. induction source as [|[x|e] source IH]; intros batch pre rest d HI Hsrc Hlen Hsource;
    cbn [initialize].
  - destruct Hsource as [Hs|(p & q & e & _ & Hs)]; [|by destruct p].
    destruct rest; [|done]. rewrite app_nil_r in Hsrc. destruct batch as [|b batch].
    { rewrite app_nil_r in Hsrc. exists d, (Ok tt), pre. by rewrite Hsrc. }
    destruct (Hstore pre (b :: batch) d) as (d' & [[]|e] & Hrun & Hr); [done|by rewrite Hsrc|done|..].
    + exists d', (Ok tt), (pre ++ b :: batch). by rewrite Hsrc.
    + destruct Hr as [-> Hy]. exists d, (Err e), pre. split_and!; [done|rewrite Hsrc; by apply prefix_app_r|done|done].
  - assert (∃ rest', rest = x :: rest' ∧ (source = map Ok rest'
              ∨ ∃ p q e, rest' = p ++ q ∧ source = map Ok p ++ [Err e])) as (rest' & -> & Hsource').
    { destruct Hsource as [Hs|(p & q & e & -> & Hs)].
      - destruct rest as [|y rest]; [done|]. injection Hs as -> ->. exists rest. by split; [|left].
      - destruct p as [|y p]; [done|]. cbn in Hs. injection Hs as -> ->. exists (p ++ q). split; [done|].
        right. by exists p, q, e. }
    assert (Hsrc' : src = pre ++ (batch ++ [x]) ++ rest') by (rewrite Hsrc, <- app_assoc; done).
    destruct (threshold <=? length (batch ++ [x]))%nat eqn:Hth.
    + destruct (Hstore pre (batch ++ [x]) d) as (d' & [[]|e] & Hrun & Hr);
        [done|exists rest'; by rewrite Hsrc', !app_assoc|by destruct batch|rewrite Hrun..].
      * apply (IH [] (pre ++ batch ++ [x]) rest'); [done|cbn; by rewrite Hsrc', !app_assoc|done|done].
      * destruct Hr as [-> Hy]. exists d, (Err e), pre.
        split_and!; [done|rewrite Hsrc; by apply prefix_app_r|done|done].
    + apply Nat.leb_gt in Hth. by apply (IH (batch ++ [x]) pre rest').
  - destruct Hsource as [Hs|(p & q & e' & -> & Hs)]; [by destruct rest|].
    exists d, (Err (DatabaseError e)), pre. split_and!; [done|rewrite Hsrc; by apply prefix_app_r|done|by exists e].
Qed.

Lemma initialize_from_spec `{KeyOrdLaws K} (st : SourceTable K V E) pre d :
  source_ok st src → I pre d → pre `prefix_of` src →
  table_run (initialize_from threshold st store_entries (fst <$> last pre) d).
Proof.
  intros [Hs _ Hseek Hiter] HI [rest Hsrc]. unfold initialize_from.
  assert (Hgo : table_run (initialize threshold store_entries (s_iter st (fst <$> last pre)) [] d)).
  { eapply (initialize_spec _ [] pre rest); [done|done|done|]. by apply Hiter. }
  destruct (last pre) as [[k v]|] eqn:Hl; cbn in Hgo |- *; [|done].
  specialize (Hseek k). assert (Hin : k ∈ map fst src).
  { apply list_elem_of_fmap. exists (k, v). split; [done|]. rewrite Hsrc. apply elem_of_app. left.
    by apply last_Some_elem_of. }
  destruct (s_seek st k) as [o|e]; cbn in Hseek.
  - rewrite Hseek, from_member by done. cbn. rewrite bool_decide_true by done. exact Hgo.
  - exists d, (Err (DatabaseError e)), pre. split_and!; [done|by exists rest|done|by exists e].
Qed.
End OneTable.

(** *** One batch *)

(** The entries of a batch, as versions of block 0. *)
Definition live_items {K V} (batch : list (K * V)) : list (K * option V) := map (λ x, (x.1, Some x.2)) batch.

Lemma live_items_keys {K V} (batch : list (K * V)) : map fst (live_items batch) = map fst batch.
Proof. unfold live_items. by rewrite map_map. Qed.

Section Batch.
Context {K V : Type} `{KeyOrdLaws K}.
Implicit Types (t : Tb K V) (pre batch : list (K * V)).

Lemma persist_loaded pre batch items t : loaded pre (rows t) →
  StronglySorted key_lt (map fst (pre ++ batch)) → (∀ k, k ∈ map fst batch → key_ok k) →
  items ≡ₚ live_items batch →
  outcome (persist_history_batch 0 items true t) (λ '(t', _), loaded (pre ++ batch) (rows t')).
Proof.
  intros Hl Hs Hok Hperm.
  assert (Hkeys : map fst items ≡ₚ map fst batch) by (rewrite <- (live_items_keys batch); by apply Permutation_map).
  eapply outcome_mono.
  - apply persist_append_spec; [apply Hl|done| | |].
    + rewrite Hkeys. apply (btree_NoDup batch). rewrite map_app in Hs. by apply StronglySorted_app in Hs as (_ & _ & ?).
    + intros k. rewrite Hkeys. apply Hok.
    + intros k v Hk Hr. rewrite Hkeys in Hk. by destruct (loaded_new pre batch (rows t) k v Hl Hs Hk).
  - intros [t' keys] (Hwf' & Hadd & _). eapply loaded_added; [done|done|done|].
    intros k o. by rewrite Hperm.
Qed.
End Batch.

(** The entries of some accounts as entries of the table. *)
Definition flat {K A} (entries : list (Z * list (K * A))) : list (Z * K * A) :=
  entries ≫= λ e, map (λ x, ((e.1, x.1), x.2)) e.2.

Lemma elem_of_flat {K A} (entries : list (Z * list (K * A))) a k x :
  (a, k, x) ∈ flat entries ↔ ∃ l, (a, l) ∈ entries ∧ (k, x) ∈ l.
Proof.
  unfold flat. rewrite list_elem_of_bind. split.
  - intros ([a' l] & Hin & Hl). apply list_elem_of_fmap in Hin as ([k' x'] & [= -> -> ->] & Hin). by exists l.
  - intros (l & Hl & Hin). exists (a, l). split; [|done]. apply list_elem_of_fmap. by exists (k, x).
Qed.

Lemma store_all_spec {K V} `{KeyOrdLaws K} entries (t : Tb (Z * K)%type V) :
  wf_rows (rows t) → NoDup (map fst (flat entries)) → (∀ k, k ∈ map fst (flat entries) → key_ok k) →
  (∀ k v, k ∈ map fst (flat entries) → (k, v) ∉ rows t) →
  outcome (store_all entries t) (λ t', wf_rows (rows t') ∧ added 0 (flat entries) (rows t) (rows t')).
Proof.
  revert t. induction entries as [|[a l] entries IH]; intros t Hwf Hnd Hok Hnew; cbn [store_all].
  { split; [done|]. intros r. cbn. rewrite elem_of_nil. tauto. }
  assert (Hflat : flat ((a, l) :: entries) = at_address a l ++ flat entries).
  { unfold flat, at_address. rewrite bind_cons. cbn. f_equal. apply map_ext. by intros []. }
  assert (Hperm : at_address a (sort_by_key l) ≡ₚ at_address a l).
  { unfold at_address. apply Permutation_map, merge_sort_Permutation. }
  assert (Hpk : map fst (at_address a (sort_by_key l)) ≡ₚ map fst (at_address a l)) by by apply Permutation_map.
  rewrite Hflat, map_app in Hnd, Hok, Hnew. apply NoDup_app in Hnd as (Hn1 & Hdisj & Hn2).
  eapply outcome_bind.
  { apply persist_append_spec; [done|done| | |].
    - change (map (λ '(k, v), (a, k, v)) (sort_by_key l)) with (at_address a (sort_by_key l)). by rewrite Hpk.
    - intros k Hk. apply Hok, elem_of_app. left. by rewrite <- Hpk.
    - intros k v Hk Hr. destruct (Hnew k v); [|done]. apply elem_of_app. left. by rewrite <- Hpk. }
  intros [t1 keys] (Hwf1 & Hadd1 & _).
  change (map (λ '(k, v), (a, k, v)) (sort_by_key l)) with (at_address a (sort_by_key l)) in Hadd1.
  eapply outcome_mono; [apply IH; [done|done|..]|].
  - intros k Hk. apply Hok, elem_of_app. by right.
  - intros k v Hk [Hr|[_ Hr]%elem_of_into_kv]%Hadd1; [apply (Hnew k v); [apply elem_of_app; by right|done]|].
    apply (Hdisj k); [|done]. apply list_elem_of_fmap. exists (k, vvalue v). split; [done|]. by rewrite <- Hperm.
  - intros t2 [Hwf2 Hadd2]. split; [done|]. intros r. rewrite (Hadd2 r), (Hadd1 r), Hflat, map_app, elem_of_app.
    rewrite Hperm. tauto.
Qed.

Lemma store_all_loaded {K V} `{KeyOrdLaws K} (pre batch : list (Z * K * V)) entries (t : Tb (Z * K)%type V) :
  loaded pre (rows t) → StronglySorted key_lt (map fst (pre ++ batch)) →
  (∀ k, k ∈ map fst batch → key_ok k) → flat entries ≡ₚ live_items batch →
  outcome (store_all entries t) (λ t', loaded (pre ++ batch) (rows t')).
Proof.
  intros Hl Hs Hok Hperm.
  assert (Hkeys : map fst (flat entries) ≡ₚ map fst batch) by (rewrite <- (live_items_keys batch); by apply Permutation_map).
  eapply outcome_mono.
  - apply store_all_spec; [apply Hl|rewrite Hkeys|intros k; rewrite Hkeys; apply Hok|].
    + apply (btree_NoDup batch). rewrite map_app in Hs. by apply StronglySorted_app in Hs as (_ & _ & ?).
    + intros k v. rewrite Hkeys. by apply (loaded_new pre batch).
  - intros t' [Hwf' Hadd]. eapply loaded_added; [done|done|done|]. intros k o. by rewrite Hperm.
Qed.

(** Grouping loses nothing. *)
Lemma group_by_address_flat {K A} (entries : list (Z * (K * A))) cur c g : (cur = None → c = []) →
  flat (group_by_address entries cur c g)
  = flat g ++ match cur with Some a => map (λ x, ((a, x.1), x.2)) c | None => [] end
    ++ map (λ e, ((e.1, e.2.1), e.2.2)) entries.
Proof.
  revert cur c g. induction entries as [|[a x] entries IH]; intros cur c g Hc; cbn [group_by_address].
  - rewrite app_nil_r. destruct cur as [a|]; [|by rewrite app_nil_r].
    unfold flat. rewrite bind_app. f_equal. unfold mbind. cbn. by rewrite app_nil_r.
  - case_bool_decide as He.
    + subst cur. rewrite IH by done. rewrite map_app, <- app_assoc. done.
    + destruct cur as [b|].
      * rewrite IH by done. unfold flat. rewrite bind_app, <- !app_assoc. f_equal.
        unfold mbind at 1. cbn. by rewrite app_nil_r.
      * rewrite (Hc eq_refl). rewrite IH by done. done.
Qed.

(** *** The whole job *)

Section Run.
Context (storage_threshold : nat).
Context (src_accounts : SourceTable Z Account E) (src_storages : SourceTable (Z * Z)%type Z E).
Context (src_accounts_trie : SourceTable (list Z) Node E) (src_storages_trie : SourceTable (Z * list Z)%type Node E).
Context (sa : list (Z * Account)) (ss : list (Z * Z * Z)) (sn : list (list Z * Node)) (st : list (Z * list Z * Node)).
Hypothesis Hthreshold : (0 < storage_threshold)%nat.
Hypothesis Ha : source_ok src_accounts sa.
Hypothesis Hs : source_ok src_storages ss.
Hypothesis Hn : source_ok src_accounts_trie sn.
Hypothesis Ht : source_ok src_storages_trie st.

(** The node's state. *)
Definition source_state : State Node Account := {|
  v_account_nodes := item_of sn;
  v_storage_nodes := item_of st;
  v_accounts := item_of sa;
  v_slots k := nz (item_of ss k) |}.

(** The windows of a store that is being loaded hold no block. *)
Definition no_blocks (d : db) : Prop :=
  content (ProofWindow d) EarliestBlock = None ∧ content (ProofWindow d) LatestBlock = None
  ∧ ∀ b, content (BlockChangeSet d) b = None.

(** Parts of the source are loaded, under the anchor [a]. *)
Record loading (a : option NumHash) pa ps pn pt (d : db) : Prop := {
  ld_anchor : content (ProofWindow d) InitialStateKey = a;
  ld_blocks : no_blocks d;
  ld_accounts : loaded pa (rows (HashedAccountHistory d));
  ld_storages : loaded ps (rows (HashedStorageHistory d));
  ld_nodes : loaded pn (rows (AccountTrieHistory d));
  ld_tries : loaded pt (rows (StorageTrieHistory d));
}.

Lemma source_prefix {K V} `{KeyOrdLaws K} (tab : SourceTable K V E) src pre batch :
  source_ok tab src → (pre ++ batch) `prefix_of` src →
  StronglySorted key_lt (map fst (pre ++ batch)) ∧ ∀ k, k ∈ map fst batch → key_ok k.
Proof.
  intros [Hsrt Hok _ _] [rest ->]. rewrite map_app in Hsrt. split.
  - by apply StronglySorted_app in Hsrt as (_ & ? & _).
  - intros k Hk. apply Hok. rewrite !map_app, !elem_of_app. by auto.
Qed.

Lemma sort_live {K V} `{KeyOrd K} (batch : list (K * V)) :
  sort_by_key (map (λ '(a, x), (a, Some x)) batch) ≡ₚ live_items batch.
Proof.
  unfold sort_by_key, live_items. rewrite merge_sort_Permutation. apply reflexive_eq, map_ext. by intros [].
Qed.

Lemma entries_accounts_spec a pa ps pn pt batch d : loading a pa ps pn pt d →
  (pa ++ batch) `prefix_of` sa → batch ≠ [] →
  durable d (entries_accounts batch d) (loading a (pa ++ batch) ps pn pt).
Proof.
  intros [A B L1 L2 L3 L4] Hp Hne. destruct (source_prefix _ _ _ _ Ha Hp) as [Hsrt Hok].
  unfold entries_accounts, store_hashed_accounts. destruct batch as [|x batch]; [done|].
  apply commit_durable. eapply succeeds_bind.
  - eapply succeeds_lift, persist_loaded; [done|exact Hsrt|exact Hok|]. apply sort_live.
  - intros [t ks] Hl. apply succeeds_Ok. by split.
Qed.

Lemma entries_accounts_trie_spec a pa ps pn pt batch d : loading a pa ps pn pt d →
  (pn ++ batch) `prefix_of` sn → batch ≠ [] →
  durable d (entries_accounts_trie batch d) (loading a pa ps (pn ++ batch) pt).
Proof.
  intros [A B L1 L2 L3 L4] Hp Hne. destruct (source_prefix _ _ _ _ Hn Hp) as [Hsrt Hok].
  unfold entries_accounts_trie, store_account_branches. destruct batch as [|x batch]; [done|].
  apply commit_durable. eapply succeeds_bind.
  - eapply succeeds_lift, persist_loaded; [done|exact Hsrt|exact Hok|]. apply sort_live.
  - intros [t ks] Hl. apply succeeds_Ok. by split.
Qed.

Lemma flat_sort {K A} `{KeyOrd K} (entries : list (Z * list (K * A))) : flat (sort_by_key entries) ≡ₚ flat entries.
Proof. unfold flat, sort_by_key. by rewrite merge_sort_Permutation. Qed.

Lemma flat_map_values {K A B} (f : A → B) (entries : list (Z * list (K * A))) :
  flat (map (λ '(a, l), (a, map (λ '(k, v), (k, f v)) l)) entries) = map (λ x, (x.1, f x.2)) (flat entries).
Proof.
  induction entries as [|[a l] entries IH]; [done|]. unfold flat in *. cbn [map].
  rewrite !bind_cons, map_app, IH. f_equal. cbn. rewrite !map_map. apply map_ext. by intros [].
Qed.

Lemma entries_storages_spec a pa ps pn pt batch d : loading a pa ps pn pt d →
  (ps ++ batch) `prefix_of` ss → batch ≠ [] →
  durable d (entries_storages batch d) (loading a pa (ps ++ batch) pn pt).
Proof.
  intros [A B L1 L2 L3 L4] Hp _. destruct (source_prefix _ _ _ _ Hs Hp) as [Hsrt Hok].
  unfold entries_storages, store_hashed_storages_bulk. apply commit_durable. eapply succeeds_bind.
  - eapply succeeds_lift, store_all_loaded; [done|exact Hsrt|exact Hok|].
    rewrite (flat_map_values Some), flat_sort, group_by_address_flat by done. cbn.
    unfold live_items. rewrite !map_map. apply reflexive_eq, map_ext. by intros [[? ?] ?].
  - intros t Hl. apply succeeds_Ok. by split.
Qed.

Lemma entries_storages_trie_spec a pa ps pn pt batch d : loading a pa ps pn pt d →
  (pt ++ batch) `prefix_of` st → batch ≠ [] →
  durable d (entries_storages_trie batch d) (loading a pa ps pn (pt ++ batch)).
Proof.
  intros [A B L1 L2 L3 L4] Hp _. destruct (source_prefix _ _ _ _ Ht Hp) as [Hsrt Hok].
  unfold entries_storages_trie, store_storage_branches_bulk. apply commit_durable. eapply succeeds_bind.
  - eapply succeeds_lift, store_all_loaded; [done|exact Hsrt|exact Hok|].
    rewrite flat_sort, group_by_address_flat by done. cbn.
    unfold live_items. rewrite !map_map. apply reflexive_eq, map_ext. by intros [[? ?] ?].
  - intros t Hl. apply succeeds_Ok. by split.
Qed.

(** Some of every table is loaded, under the anchor [a]. *)
Definition partly_loaded (a : option NumHash) (d : db) : Prop :=
  ∃ pa ps pn pt, pa `prefix_of` sa ∧ ps `prefix_of` ss ∧ pn `prefix_of` sn ∧ pt `prefix_of` st
    ∧ loading a pa ps pn pt d.

Lemma initialize_trie_spec a anchor pa ps pn pt d : loading a pa ps pn pt d →
  pa `prefix_of` sa → ps `prefix_of` ss → pn `prefix_of` sn → pt `prefix_of` st →
  latest_hashed_account_key anchor = fst <$> last pa →
  latest_hashed_storage_key anchor = fst <$> last ps →
  latest_account_trie_key anchor = fst <$> last pn →
  latest_storage_trie_key anchor = fst <$> last pt →
  ∃ d' r, initialize_trie storage_threshold src_accounts src_storages src_accounts_trie src_storages_trie anchor d
          = Some (d', r) ∧
    match r with
    | Ok _ => loading a sa ss sn st d'
    | Err x => partly_loaded a d' ∧ ∃ y, x = DatabaseError y
    end.
Proof.
  intros Hl P1 P2 P3 P4 E1 E2 E3 E4. unfold initialize_trie, partly_loaded. rewrite E1, E2, E3, E4.
  destruct (initialize_from_spec storage_threshold entries_accounts (λ p, loading a p ps pn pt) sa Hthreshold
    (λ p b d, entries_accounts_spec a p ps pn pt b d) src_accounts pa d Ha Hl P1)
    as (d1 & [[]|x] & q1 & -> & Q1 & L1 & R1); cbn [and_then]; [subst q1|eexists _, _; split; [done|]; split; [|done]; by exists q1, ps, pn, pt].
  destruct (initialize_from_spec storage_threshold entries_storages (λ p, loading a sa p pn pt) ss Hthreshold
    (λ p b d, entries_storages_spec a sa p pn pt b d) src_storages ps d1 Hs L1 P2)
    as (d2 & [[]|x] & q2 & -> & Q2 & L2 & R2); cbn [and_then]; [subst q2|eexists _, _; split; [done|]; split; [|done]; by exists sa, q2, pn, pt].
  destruct (initialize_from_spec storage_threshold entries_storages_trie (λ p, loading a sa ss pn p) st Hthreshold
    (λ p b d, entries_storages_trie_spec a sa ss pn p b d) src_storages_trie pt d2 Ht L2 P4)
    as (d3 & [[]|x] & q3 & -> & Q3 & L3 & R3); cbn [and_then]; [subst q3|eexists _, _; split; [done|]; split; [|done]; by exists sa, ss, pn, q3].
  destruct (initialize_from_spec storage_threshold entries_accounts_trie (λ p, loading a sa ss p st) sn Hthreshold
    (λ p b d, entries_accounts_trie_spec a sa ss p st b d) src_accounts_trie pn d3 Hn L3 P3)
    as (d4 & [[]|x] & q4 & -> & Q4 & L4 & R4); eexists _, _; (split; [done|]); [by subst q4|split; [|done]; by exists sa, ss, q4, st].
Qed.

(** *** Completing *)

Lemma loaded_indexed {K V} `{KeyOrdLaws K} (pre : list (K * V)) rs ka n : loaded pre rs → 0 ≤ n →
  indexed n n ka rs.
Proof.
  intros [Hwf Hin] H0'. split; [done| |lia].
  intros k v Hr%Hin. apply list_elem_of_fmap in Hr as (x & [= -> ->] & _). done.
Qed.

(** The window of the loaded state. *)
Definition source_window (a : NumHash) : Window (Node := Node) (Account := Account) := {|
  w_earliest := a; w_latest := a; w_state _ := source_state |}.

Lemma item_of_dec {K V} (D1 D2 : EqDecision K) (l : list (K * V)) k : @item_of K V D1 l k = @item_of K V D2 l k.
Proof. induction l as [|[k' v] l IH]; [done|]. rewrite !item_of_cons, IH. by repeat case_bool_decide. Qed.

Lemma loaded_seen {K V} `{KeyOrdLaws K} (D : EqDecision K) (tab : SourceTable K V E) (src : list (K * V)) rs n k :
  source_ok tab src → loaded src rs → 0 ≤ n → view rs n k = item_of src k.
Proof. intros [Hsrt _ _ _] Hl H0'. rewrite (loaded_view src rs n k Hsrt Hl H0'). apply item_of_dec. Qed.

Lemma loaded_represents a d d' : loading (Some a) sa ss sn st d → 0 ≤ number a →
  window_set EarliestBlock a d d' → represents d' (source_window a).
Proof.
  intros [A (B1 & B2 & B3) L1 L2 L3 L4] H0' (Hw & E1 & E2 & E3 & E4 & E5). split; [split; cbn|].
  - by rewrite Hw, bool_decide_true.
  - by rewrite Hw, bool_decide_false, B2.
  - lia.
  - intros b. rewrite E5, B3. split; [done|lia].
  - split; rewrite ?E1, ?E2, ?E3, ?E4; by eapply loaded_indexed.
  - cbn. intros n Hn'. split_and!; intros k; cbn; rewrite ?E1, ?E2, ?E3, ?E4.
    + apply (loaded_seen _ _ _ _ _ _ Hn L3). lia.
    + apply (loaded_seen _ _ _ _ _ _ Ht L4). lia.
    + apply (loaded_seen _ _ _ _ _ _ Ha L1). lia.
    + f_equal. apply (loaded_seen _ _ _ _ _ _ Hs L2). lia.
Qed.

Lemma commit_initial_state_spec a d : loading (Some a) sa ss sn st d → 0 ≤ number a →
  ∃ d' r, commit_initial_state d = Some (d', r) ∧
    match r with
    | Ok _ => represents d' (source_window a)
    | Err x => d' = d ∧ ∃ y, x = DatabaseError y
    end.
Proof.
  intros Hl H0'. unfold commit_initial_state, get_initial_state_anchor.
  pose proof (law_p_seek_exact InitialStateKey (ProofWindow d)) as Hk.
  destruct (p_seek_exact InitialStateKey _) as [o|x]; cbn in Hk |- *.
  2:{ exists d, (Err (DatabaseError x)). by eauto. }
  rewrite (ld_anchor _ _ _ _ _ _ Hl) in Hk. subst o.
  destruct (commit_durable (λ d0, let! d1 := Some (inner_set_earliest_block_number (number a) (nhash a) d0) in
      Some (Ok (d1, tt))) d (λ d', represents d' (source_window a))) as (d' & [[]|x] & Hrun & Hr).
  { eapply succeeds_bind; [apply set_earliest_spec|]. intros d1 Hset. apply succeeds_Ok. cbn.
    eapply loaded_represents; [done|done|]. by destruct a. }
  - unfold set_earliest_block_number_hash. rewrite Hrun. by exists d', (Ok a).
  - unfold set_earliest_block_number_hash. rewrite Hrun. by exists d', (Err x).
Qed.

Lemma prefix_sorted {K V} `{KeyOrdLaws K} (tab : SourceTable K V E) src pre :
  source_ok tab src → pre `prefix_of` src → StronglySorted key_lt (map fst pre).
Proof. intros [Hsrt _ _ _] [rest ->]. rewrite map_app in Hsrt. by apply StronglySorted_app in Hsrt as (_ & ? & _). Qed.

Lemma latest_key_spec {K V} `{KeyOrdLaws K} (pre : list (K * V)) (t : Tb K V) :
  loaded pre (rows t) → StronglySorted key_lt (map fst pre) →
  succeeds (Some (get_latest_key t)) (λ o, o = fst <$> last pre).
Proof.
  intros Hl Hsrt. eapply succeeds_rbind; [apply succeeds_lift, law_last, Hl|]. intros o ->.
  apply succeeds_Ok. by apply loaded_last.
Qed.

(** What the job reads back of an interrupted run. *)
Lemma initial_state_anchor_spec a pa ps pn pt d : loading (Some a) pa ps pn pt d →
  pa `prefix_of` sa → ps `prefix_of` ss → pn `prefix_of` sn → pt `prefix_of` st →
  succeeds (Some (initial_state_anchor d)) (λ anchor, anchor = {|
    anchor_block := Some a; status := InProgress;
    latest_account_trie_key := fst <$> last pn; latest_storage_trie_key := fst <$> last pt;
    latest_hashed_account_key := fst <$> last pa; latest_hashed_storage_key := fst <$> last ps |}).
Proof.
  intros [A (B1 & _) L1 L2 L3 L4] P1 P2 P3 P4. unfold initial_state_anchor.
  eapply succeeds_rbind; [apply succeeds_lift, law_p_seek_exact|]. intros o ->. rewrite A.
  eapply succeeds_rbind; [apply succeeds_lift, law_p_seek_exact|]. intros o ->. rewrite B1.
  eapply succeeds_rbind; [apply latest_key_spec; [done|by eapply prefix_sorted]|]. intros k1 ->.
  eapply succeeds_rbind; [apply latest_key_spec; [done|by eapply prefix_sorted]|]. intros k2 ->.
  eapply succeeds_rbind; [apply latest_key_spec; [done|by eapply prefix_sorted]|]. intros k3 ->.
  eapply succeeds_rbind; [apply latest_key_spec; [done|by eapply prefix_sorted]|]. intros k4 ->.
  by apply succeeds_Ok.
Qed.

(** From any partly loaded store to the end. *)
Lemma continue_spec a anchor pa ps pn pt d : loading (Some a) pa ps pn pt d → 0 ≤ number a →
  pa `prefix_of` sa → ps `prefix_of` ss → pn `prefix_of` sn → pt `prefix_of` st →
  latest_hashed_account_key anchor = fst <$> last pa →
  latest_hashed_storage_key anchor = fst <$> last ps →
  latest_account_trie_key anchor = fst <$> last pn →
  latest_storage_trie_key anchor = fst <$> last pt →
  ∃ d' r,
    and_then (initialize_trie storage_threshold src_accounts src_storages src_accounts_trie src_storages_trie anchor d)
      (λ d, and_then (commit_initial_state d) (λ d, Some (d, Ok tt))) = Some (d', r) ∧
    match r with
    | Ok _ => represents d' (source_window a)
    | Err x => partly_loaded (Some a) d' ∧ ∃ y, x = DatabaseError y
    end.
Proof.
  intros Hl H0' P1 P2 P3 P4 E1 E2 E3 E4.
  destruct (initialize_trie_spec (Some a) anchor pa ps pn pt d) as (d1 & [[]|x] & -> & Hr); [done..| |];
    cbn [and_then]; [|by exists d1, (Err x)].
  destruct (commit_initial_state_spec a d1 Hr H0') as (d2 & [a'|x] & -> & Hr2); cbn [and_then].
  - by exists d2, (Ok tt).
  - destruct Hr2 as [-> Hy]. exists d1, (Err x). split; [done|]. split; [|done].
    exists sa, ss, sn, st. by split_and!.
Qed.

(** Nothing is loaded, and there is no anchor. *)
Definition untouched (d : db) : Prop := loading None [] [] [] [] d.

(** C27. The initialization job survives interruptions.  Started on an untouched store, or
    on one where earlier runs for the same anchor block loaded any part of the source
    before they failed, the job terminates; when it succeeds the store serves the
    window of the anchor block alone, whose state is the source's, with no row lost or
    repeated; when it fails it is because a database failed, and the store is one from
    which the job can be run again. *)
Theorem initialization_resumes a d : 0 ≤ number a →
  untouched d ∨ partly_loaded (Some a) d →
  ∃ d' r,
    run storage_threshold src_accounts src_storages src_accounts_trie src_storages_trie (number a) (nhash a) d
    = Some (d', r) ∧
    match r with
    | Ok _ => represents d' (source_window a)
    | Err x => (untouched d' ∨ partly_loaded (Some a) d') ∧ ∃ y, x = DatabaseError y
    end.
Proof.
  intros H0' [Hl|(pa & ps & pn & pt & P1 & P2 & P3 & P4 & Hl)]; unfold run.
  - unfold initial_state_anchor, get_initial_state_anchor.
    pose proof (law_p_seek_exact InitialStateKey (ProofWindow d)) as Hk.
    destruct (p_seek_exact InitialStateKey _) as [o|x]; cbn in Hk |- *.
    2:{ exists d, (Err (DatabaseError x)). by eauto. }
    rewrite (ld_anchor _ _ _ _ _ _ Hl) in Hk. subst o. cbn [status InitialStateAnchor_default].
    destruct (commit_durable (λ d, let! w := Some (lift (p_insert InitialStateKey (Build_NumHash (number a) (nhash a)) (ProofWindow d))) in
      Some (Ok (with_window d w, tt))) d (loading (Some a) [] [] [] [])) as (d1 & [[]|x] & Hrun & Hr).
    { eapply succeeds_bind; [apply succeeds_lift, law_p_insert|]. intros w (_ & Hw). apply succeeds_Ok.
      destruct Hl as [A (B1 & B2 & B3) L1 L2 L3 L4]. split; cbn; [|split_and!|done..].
      - rewrite Hw, bool_decide_true by done. by destruct a.
      - cbn. by rewrite Hw, bool_decide_false.
      - cbn. by rewrite Hw, bool_decide_false.
      - done. }
    + unfold set_initial_state_anchor. rewrite Hrun. cbn [and_then].
      destruct (continue_spec a InitialStateAnchor_default [] [] [] [] d1 Hr H0') as (d2 & r & Hrun2 & Hr2);
        [apply prefix_nil..|done|done|done|done|].
      exists d2, r. split; [exact Hrun2|]. destruct r; [done|]. destruct Hr2. by eauto.
    + destruct Hr as [-> Hy]. unfold set_initial_state_anchor. rewrite Hrun. exists d, (Err x). by eauto.
  - destruct (initial_state_anchor_spec a pa ps pn pt d Hl P1 P2 P3 P4) as ([anchor|x] & [= ->] & Hr).
    + subst anchor. cbn [status validate_anchor_block anchor_block]. rewrite !Z.eqb_refl. cbn [negb orb].
      match goal with |- context [initialize_trie _ _ _ _ _ ?anc _] =>
        destruct (continue_spec a anc pa ps pn pt d Hl H0' P1 P2 P3 P4) as (d2 & r & Hrun2 & Hr2) end; [done..|].
      exists d2, r. split; [exact Hrun2|]. destruct r; [done|]. destruct Hr2. by eauto.
    + exists d, (Err x). split; [done|]. split; [right; by exists pa, ps, pn, pt|done].
Qed.
End Run.
End Job.

(** ** A sample source *)

Module ListSource.
Section Source.
Context {K V : Type} `{KeyOrdLaws K}.
Definition after (start : option K) (src : list (K * V)) : list (K * V) :=
  match start with
  | None => src
  | Some k => List.filter (λ r, bool_decide (key_lt k r.1)) src
  end.
Definition source (src : list (K * V)) : SourceTable K V string := {|
  s_seek k := Ok (head (from k (map fst src)));
  s_iter start := map Ok (after start src) |}.

Lemma filter_none {A} (p : A → bool) l : (∀ x, x ∈ l → p x = false) → List.filter p l = [].
Proof.
  induction l as [|x l IH]; cbn; [done|]. intros Hp. rewrite (Hp x) by left.
  apply IH. intros y Hy. apply Hp. by right.
Qed.

Lemma after_prefix pre rest : StronglySorted key_lt (map fst (pre ++ rest)) →
  after (fst <$> last pre) (pre ++ rest) = rest.
Proof.
  intros Hs. destruct (last pre) as [x|] eqn:Hx; cbn; [|by apply last_None in Hx as ->].
  apply last_Some in Hx as [pre' ->]. rewrite map_app in Hs. rewrite List.filter_app.
  assert (Hpre : ∀ r, r ∈ pre' ++ [x] → ¬ key_lt x.1 r.1).
  { intros r [Hr| ->%list_elem_of_singleton]%elem_of_app Hlt; [|by apply (irreflexivity key_lt x.1)].
    rewrite map_app in Hs. apply StronglySorted_app in Hs as (_ & Hs & _).
    apply (irreflexivity key_lt x.1). etrans; [exact Hlt|].
    apply (StronglySorted_app_1_elem_of _ _ _ _ _ Hs); [|left]. apply list_elem_of_fmap. by exists r. }
  assert (Hrest : ∀ r, r ∈ rest → key_lt x.1 r.1).
  { intros r Hr. apply (StronglySorted_app_1_elem_of _ _ _ _ _ Hs); apply list_elem_of_fmap; [exists x|by exists r].
    split; [done|]. apply elem_of_app. right. left. }
  rewrite (filter_none (λ r, bool_decide (key_lt x.1 r.1)) (pre' ++ [x])).
  - apply filter_all_in. intros r Hr. by apply bool_decide_true, Hrest.
  - intros r Hr. by apply bool_decide_false, Hpre.
Qed.

Lemma source_laws (src : list (K * V)) : StronglySorted key_lt (map fst src) →
  (∀ k, k ∈ map fst src → key_ok k) → source_ok (source src) src.
Proof.
  intros Hs Hok. split; [done..|done|]. intros pre rest ->. left. cbn. by rewrite after_prefix.
Qed.
End Source.

(** The state of the sample store, and a run that stopped after the first account. *)
Definition src_a : list (Z * Z) := [(1, 11); (2, 12)].
Definition src_s : list (Z * Z * Z) := [((2, 5), 50); ((2, 6), 60)].
Definition src_n : list (list Z * Z) := [([1], 100)].
Definition src_t : list (Z * list Z * Z) := [((2, [7]), 200)].
Definition anchor : NumHash := Build_NumHash 3 1003.
Definition interrupted : ListStore.store := {|
  AccountTrieHistory := []; StorageTrieHistory := [];
  HashedAccountHistory := [(1, ListStore.v0 11)]; HashedStorageHistory := [];
  ProofWindow := [(InitialStateKey, anchor)]; BlockChangeSet := [] |}.

Lemma src_a_ok : source_ok (source src_a) src_a.
Proof. apply source_laws; [repeat constructor; cbn; lia|]. apply Forall_forall. repeat constructor; cbn; lia. Qed.
Lemma src_s_ok : source_ok (source src_s) src_s.
Proof. apply source_laws; [repeat constructor; cbn; lia|]. apply Forall_forall. repeat constructor; cbn; lia. Qed.
Lemma src_n_ok : source_ok (source src_n) src_n.
Proof. apply source_laws; [repeat constructor|]. apply Forall_forall. repeat constructor; cbn; lia. Qed.
Lemma src_t_ok : source_ok (source src_t) src_t.
Proof. apply source_laws; [repeat constructor|]. apply Forall_forall. repeat constructor; cbn; lia. Qed.

Lemma interrupted_partly :
  partly_loaded (E := string) src_a src_s src_n src_t (Some anchor) interrupted.
Proof.
  exists [(1, 11)], [], [], []. split_and!; [by exists [(2, 12)]|apply prefix_nil..|].
  split; [done|by split_and!|..]; (split; [split; repeat constructor; cbn; lia|done]).
Qed.
End ListSource.

Import ListSource.

Lemma initialization_resumes_witness :
  (∃ d', run (E := string) 2 (source src_a) (source src_s) (source src_n) (source src_t) 3 1003 interrupted
    = Some (d', Ok tt))
  ∧ ∃ d' r,
    run (E := string) 2 (source src_a) (source src_s) (source src_n) (source src_t) 3 1003 interrupted
    = Some (d', r) ∧
    match r with
    | Ok _ => represents (E := string) d' (source_window src_a src_s src_n src_t anchor)
    | Err x => (untouched (E := string) d'
                ∨ partly_loaded (E := string) src_a src_s src_n src_t (Some anchor) d')
        ∧ ∃ y, x = DatabaseError y
    end.
Proof.
  split; [eexists; vm_compute; reflexivity|].
  simple refine (initialization_resumes 2 (source src_a) (source src_s) (source src_n) (source src_t)
    src_a src_s src_n src_t _ _ _ _ _ anchor interrupted _ _);
    [lia|exact src_a_ok|exact src_s_ok|exact src_n_ok|exact src_t_ok|vm_compute; discriminate
    |right; exact interrupted_partly].
Defined.
