(* ===== verification/Live.v ===== *)
(** * The live trie collector

    Models [crates/proofs/src/live.rs] and the batch sessions of
    [crates/proofs/src/db/batch.rs]: executing blocks on the state the proofs store
    holds and appending their updates, one block or one transaction of many blocks at a
    time, and rewriting the history after a reorg.  Executing a block (the EVM and
    reth's trie code over the store's cursors) is a parameter.  The specification runs
    the same steps on the window of states. *)

From stdpp Require Import sorting.
From S2P Require Import Prelude.
From S2P Require Import Versioned.
From S2P Require Import HistoryWrites.
From S2P Require Import ProofsStore.
From S2P Require Import StoreRefinement.
#[local] Open Scope Z_scope.

(** A block with its senders: what the collector reads of it. *)
Record RecoveredBlock (Body : Type) := {
  rb_ref : BlockWithParent;
  rb_state_root : B256;
  rb_body : Body;
}.
Arguments rb_ref {Body}.
Arguments rb_state_root {Body}.
Arguments rb_body {Body}.

Inductive BatchBlock (Node Account Body : Type) :=
| Cached (block_with_parent : BlockWithParent) (updates : BlockStateDiff Node Account)
| Execute (b : RecoveredBlock Body).
Arguments Cached {Node Account Body}.
Arguments Execute {Node Account Body}.

Definition entry_ref {Node Account Body} (x : BatchBlock Node Account Body) : BlockWithParent :=
  match x with Cached r _ => r | Execute b => rb_ref b end.

(** The guards on the parent of a block that is executed. *)
Definition parent_in_window {E} (r : BlockWithParent) (earliest latest : Z)
  : result Z (MorphProofsStorageError E) :=
  let parent_block_number := wrapping_sub u64_max (number (block r)) 1 in
  if parent_block_number <? earliest then Err UnknownParent
  else if latest <? parent_block_number then
    Err (MissingParentBlock (number (block r)) parent_block_number latest)
  else Ok parent_block_number.

Section Collector.
Context {Tb C Pt : Type → Type → Type} {E Node Account Body : Type}.
Context `{DupDb Tb C E, PlainDb Pt E}.
Abbreviation db := (Db Tb Pt Node Account).
Abbreviation diff := (BlockStateDiff Node Account).
Abbreviation err := (MorphProofsStorageError E).
Context `{TxOps db E}.

(** Fuel for the loops of an append, and the execution of a block on the state of
    another: the state root and the sorted updates. *)
Context (fuel : db → diff → nat).
Context (execute : db → Z → RecoveredBlock Body → result (B256 * diff) err).

(** Executing a block and appending its updates inside a transaction. *)
Definition execute_and_append (b : RecoveredBlock Body) (earliest latest : Z) (d : db)
  : option (result (db * WriteCounts) err) :=
  let! parent_block_number := Some (parent_in_window (rb_ref b) earliest latest) in
  let! '(state_root, bd) := Some (execute d parent_block_number b) in
  if negb (state_root =? rb_state_root b) then
    Some (Err (StateRootMismatch (number (block (rb_ref b))) state_root (rb_state_root b)))
  else store_trie_updates_append_only (fuel d bd) (rb_ref b) bd d.

Definition execute_one_in_session (b : RecoveredBlock Body) (earliest : Z) (d : db)
  : option (result (db * WriteCounts) err) :=
  let! latest := Some (inner_get_latest_block_number_hash d) in
  match latest with
  | None => Some (Err NoBlocksFound)
  | Some latest => execute_and_append b earliest (number latest) d
  end.

(** The loop of [execute_and_store_batch]. *)
Fixpoint batch_loop (earliest : Z) (blocks : list (BatchBlock Node Account Body))
    (total_writes : WriteCounts) (d : db) : option (result (db * WriteCounts) err) :=
  match blocks with
  | [] => Some (Ok (d, total_writes))
  | x :: blocks =>
      let! '(d, counts) :=
        match x with
        | Cached r bd => store_trie_updates_append_only (fuel d bd) r bd d
        | Execute b => execute_one_in_session b earliest d
        end in
      batch_loop earliest blocks (counts_add total_writes counts) d
  end.

(** The body of the batch session. *)
Definition batch_update (blocks : list (BatchBlock Node Account Body)) (d : db)
  : option (result (db * WriteCounts) err) :=
  let! earliest := Some (inner_get_earliest_block_number_hash d) in
  let! latest := Some (inner_get_latest_block_number_hash d) in
  match earliest, latest with
  | Some earliest, Some _ => batch_loop (number earliest) blocks WriteCounts_default d
  | _, _ => Some (Err NoBlocksFound)
  end.

(** [with_batch_session] commits as [commit_update] does.  The window is read again for
    the metrics after the commit. *)
Definition execute_and_store_batch (blocks : list (BatchBlock Node Account Body)) (d : db)
  : option (db * result unit err) :=
  match blocks with
  | [] => Some (d, Ok tt)
  | _ =>
      match commit_update (batch_update blocks) d with
      | None => None
      | Some (d, Err e) => Some (d, Err e)
      | Some (d, Ok _) =>
          match inner_get_earliest_block_number_hash d with
          | Err e => Some (d, Err e)
          | Ok _ => Some (d, Ok tt)
          end
      end
  end.

(** [LiveTrieCollector::unwind_history], which also reads the window again. *)
Definition collector_unwind_history (to : BlockWithParent) (d : db) : option (db * result unit err) :=
  match unwind_history to d with
  | None => None
  | Some (d, Err e) => Some (d, Err e)
  | Some (d, Ok _) =>
      match inner_get_earliest_block_number_hash d with
      | Err e => Some (d, Err e)
      | Ok None => Some (d, Ok tt)
      | Ok (Some _) =>
          match inner_get_latest_block_number_hash d with
          | Err e => Some (d, Err e)
          | Ok _ => Some (d, Ok tt)
          end
      end
  end.

(** One block, executed on the committed store and then appended. *)
Definition execute_and_store_block_updates (b : RecoveredBlock Body) (d : db)
  : option (db * result unit err) :=
  match inner_get_earliest_block_number_hash d with
  | Err e => Some (d, Err e)
  | Ok earliest =>
      match inner_get_latest_block_number_hash d with
      | Err e => Some (d, Err e)
      | Ok latest =>
          match earliest, latest with
          | Some earliest, Some latest =>
              let computed :=
                let? n := parent_in_window (rb_ref b) (number earliest) (number latest) in
                let? '(state_root, bd) := execute d n b in
                if negb (state_root =? rb_state_root b) then
                  Err (StateRootMismatch (number (block (rb_ref b))) state_root (rb_state_root b))
                else Ok bd in
              match computed with
              | Err e => Some (d, Err e)
              | Ok bd => no_counts (store_trie_updates (fuel d bd) (rb_ref b) bd d)
              end
          | _, _ => Some (d, Err NoBlocksFound)
          end
      end
  end.

(** Out-of-order updates are skipped. *)
Definition store_block_updates (r : BlockWithParent) (bd : diff) (d : db)
  : option (db * result unit err) :=
  match store_trie_updates (fuel d bd) r bd d with
  | None => None
  | Some (d, Ok _) => Some (d, Ok tt)
  | Some (d, Err (OutOfOrder _ _ _)) => Some (d, Ok tt)
  | Some (d, Err e) => Some (d, Err e)
  end.

Definition unwind_and_store_block_updates (n : nat) (block_updates : list (BlockWithParent * diff)) (d : db)
  : option (db * result unit err) :=
  match block_updates with
  | [] => Some (d, Ok tt)
  | (first, _) :: _ =>
      replace_updates n (Build_NumHash (saturating_sub (number (block first)) 1) (parent first))
        block_updates d
  end.
End Collector.

(** ** The collector on the window *)

Section Specification.
Context {Node Account Body E : Type}.
Abbreviation diff := (BlockStateDiff Node Account).
Abbreviation err := (MorphProofsStorageError E).
Abbreviation window := (Window (Node := Node) (Account := Account)).
(** What executing a block on a state yields. *)
Context (exec_on : State Node Account → RecoveredBlock Body → result (B256 * diff) err).

Definition w_execute (b : RecoveredBlock Body) (earliest : Z) (w : window) : result window err :=
  let? n := parent_in_window (rb_ref b) earliest (number (w_latest w)) in
  let? '(state_root, bd) := exec_on (w_state w n) b in
  if negb (state_root =? rb_state_root b) then
    Err (StateRootMismatch (number (block (rb_ref b))) state_root (rb_state_root b))
  else w_append (rb_ref b) bd w.

Fixpoint w_batch (earliest : Z) (blocks : list (BatchBlock Node Account Body)) (w : window)
  : result window err :=
  match blocks with
  | [] => Ok w
  | x :: blocks =>
      let? w := match x with Cached r bd => w_append r bd w | Execute b => w_execute b earliest w end in
      w_batch earliest blocks w
  end.
End Specification.

Section Numbered.
(** The number of the block with a hash. *)
Context (num_of : B256 → Z).

(** A reference to a block of the chain: its number and its parent's are theirs. *)
Definition ref_ok (r : BlockWithParent) : Prop :=
  num_of (nhash (block r)) = number (block r) ∧ num_of (parent r) = number (block r) - 1
  ∧ 1 ≤ number (block r) ≤ u64_max.

Definition window_ok {Node Account} (w : Window (Node := Node) (Account := Account)) : Prop :=
  num_of (nhash (w_latest w)) = number (w_latest w).

Lemma append_ok {Node Account E} r (bd : BlockStateDiff Node Account) w w' : ref_ok r →
  w_append (E := E) r bd w = Ok w' → window_ok w' ∧ w_earliest w' = w_earliest w ∧ w_latest w' = block r.
Proof. intros (Hn & _) Ha. unfold w_append in Ha. destruct (_ =? _); [|done]. by injection Ha as <-. Qed.

Lemma append_number {Node Account} (w : Window (Node := Node) (Account := Account)) r : window_ok w → ref_ok r →
  parent r = nhash (w_latest w) → number (block r) = number (w_latest w) + 1.
Proof. intros Hw (_ & Hp & _) He. unfold window_ok in Hw. rewrite He in Hp. lia. Qed.
End Numbered.

Section BatchRefinement.
Context {Tb C Pt : Type → Type → Type} {E Node Account Body : Type}.
Context `{DupDbLaws Tb C E, PlainDbLaws Pt E}.
Abbreviation db := (Db Tb Pt Node Account).
Abbreviation diff := (BlockStateDiff Node Account).
Abbreviation err := (MorphProofsStorageError E).
Abbreviation window := (Window (Node := Node) (Account := Account)).
Context `{TxOps db E}.
Context (fuel : db → diff → nat).
Context (execute : db → Z → RecoveredBlock Body → result (B256 * diff) err).
Context (exec_on : State Node Account → RecoveredBlock Body → result (B256 * diff) err).
Context (num_of : B256 → Z).
Implicit Types (d : db) (w : window).

(** The fuel suffices; execution sees the state of its block and yields sorted updates,
    or fails on the store or on the provider. *)
Definition retryable (x : err) : Prop :=
  match x with DatabaseError _ | ProviderError _ | TryLockError => True | _ => False end.
Hypothesis Hfuel : ∀ d bd, append_fuel d bd (fuel d bd).
Hypothesis Hexec : ∀ d w n b, represents d w → number (w_earliest w) ≤ n ≤ number (w_latest w) →
  execute d n b = exec_on (w_state w n) b ∨ ∃ x, execute d n b = Err x ∧ retryable x.
Hypothesis Hexec_wf : ∀ s b root bd, exec_on s b = Ok (root, bd) → diff_wf bd.

(** A transaction's step follows the window's, or a resource fails. *)
Definition follows {A} (m : option (result (db * A) err)) (step : result window err) : Prop :=
  ∃ r, m = Some r ∧
    match r with
    | Ok (d', _) => ∃ w', step = Ok w' ∧ represents d' w'
    | Err x => step = Err x ∨ retryable x
    end.

Lemma implements_follows {A} (m : option (result (db * A) err)) step : implements m step → follows m step.
Proof.
  intros (r & -> & Hr). exists r. split; [done|]. destruct r as [[d' a]|x]; [done|].
  destruct Hr as [?|[y ->]]; [by left|by right].
Qed.

Lemma follows_bind {A B} (m : option (result (db * A) err)) step
    (k : db * A → option (result (db * B) err)) (kw : window → result window err) :
  follows m step →
  (∀ d' a w', step = Ok w' → represents d' w' → follows (k (d', a)) (kw w')) →
  follows (fbind m k) (result_bind step kw).
Proof.
  intros (r & -> & Hr) Hk. destruct r as [[d' a]|x]; cbn [fbind].
  - destruct Hr as (w' & Hs & Hrep). rewrite Hs. cbn. by apply Hk.
  - exists (Err x). split; [done|]. destruct Hr as [->|?]; [by left|by right].
Qed.

Lemma follows_failed {A} x step : step = Err x ∨ retryable x → follows (A := A) (Some (Err x)) step.
Proof. by exists (Err x). Qed.

Definition entry_ok (x : BatchBlock Node Account Body) : Prop :=
  ref_ok num_of (entry_ref x) ∧ match x with Cached _ bd => diff_wf bd | Execute _ => True end.

Lemma append_follows r bd d w : represents d w → window_ok num_of w → ref_ok num_of r → diff_wf bd →
  follows (store_trie_updates_append_only (fuel d bd) r bd d) (w_append r bd w).
Proof.
  intros Hrep Hw Hr Hbd. apply implements_follows, append_implements; [done| |apply Hr|done|apply Hfuel].
  by eapply append_number.
Qed.

Lemma execute_follows b d w : represents d w → window_ok num_of w → ref_ok num_of (rb_ref b) →
  follows (execute_one_in_session fuel execute b (number (w_earliest w)) d)
    (w_execute exec_on b (number (w_earliest w)) w).
Proof.
  intros Hrep Hw Hr. unfold execute_one_in_session, execute_and_append, w_execute.
  destruct (get_latest_spec d _ _ (proj1 Hrep)) as ([o|x] & -> & Ho); cbn [fbind];
    [subst o|destruct Ho as [y ->]; apply follows_failed; by right].
  unfold parent_in_window. rewrite wrapping_sub_exact by (destruct Hr as (_ & _ & ?); lia).
  destruct (Z.ltb_spec (number (block (rb_ref b)) - 1) (number (w_earliest w))); cbn [fbind result_bind];
    [apply follows_failed; by left|].
  destruct (Z.ltb_spec (number (w_latest w)) (number (block (rb_ref b)) - 1)); cbn [fbind result_bind];
    [apply follows_failed; by left|].
  destruct (Hexec d w (number (block (rb_ref b)) - 1) b Hrep) as [->|(x & -> & Hx)]; [lia| |];
    [|cbn; apply follows_failed; by right].
  destruct (exec_on _ b) as [[root bd]|x] eqn:He; cbn [fbind result_bind]; [|apply follows_failed; by left].
  destruct (root =? rb_state_root b); cbn [negb]; [|apply follows_failed; by left].
  apply append_follows; [done..|]. by eapply Hexec_wf.
Qed.

Lemma w_execute_ok b e w w' : ref_ok num_of (rb_ref b) → w_execute exec_on b e w = Ok w' →
  window_ok num_of w' ∧ w_earliest w' = w_earliest w ∧ w_latest w' = block (rb_ref b).
Proof.
  intros Hr. unfold w_execute. destruct (parent_in_window _ _ _) as [n|]; [|done]. cbn.
  destruct (exec_on _ _) as [[root bd]|]; [|done]. cbn. destruct (_ =? _); [|done]. by apply append_ok.
Qed.

Lemma batch_loop_follows blocks counts d w : represents d w → window_ok num_of w → Forall entry_ok blocks →
  follows (batch_loop fuel execute (number (w_earliest w)) blocks counts d)
    (w_batch exec_on (number (w_earliest w)) blocks w).
Proof.
  intros Hrep Hw Hb. revert counts d w Hrep Hw. induction Hb as [|x blocks [Hr Hx] Hb IH];
    intros counts d w Hrep Hw; cbn [batch_loop w_batch].
  { exists (Ok (d, counts)). split; [done|]. by exists w. }
  eapply follows_bind.
  - destruct x as [r bd|b]; [by apply append_follows|by apply execute_follows].
  - intros d' c w' Hs Hrep'. assert (Hw' : window_ok num_of w' ∧ w_earliest w' = w_earliest w).
    { destruct x as [r bd|b]; [eapply append_ok in Hs; [|done]|eapply w_execute_ok in Hs; [|done]]; naive_solver. }
    destruct Hw' as [Hw' <-]. by apply IH.
Qed.

(** What a durable operation of the collector can do: the window's step, or nothing; a
    resource failure can also be reported after the commit. *)
Definition durable_step d (w : window) (m : option (db * result unit err)) (step : result window err) : Prop :=
  ∃ d' r, m = Some (d', r) ∧
    ((r = Ok tt ∨ ∃ y, r = Err (DatabaseError y)) ∧ (∃ w', step = Ok w' ∧ represents d' w')
     ∨ d' = d ∧ ∃ x, r = Err x ∧ (step = Err x ∨ retryable x)).

Lemma batch_commits blocks d w : represents d w → window_ok num_of w → Forall entry_ok blocks →
  durable_step d w (execute_and_store_batch fuel execute blocks d)
    (w_batch exec_on (number (w_earliest w)) blocks w).
Proof.
  intros Hrep Hw Hb. unfold execute_and_store_batch. destruct blocks as [|x blocks].
  { exists d, (Ok tt). split; [done|]. left. split; [by left|]. by exists w. }
  remember (x :: blocks) as l eqn:Hl. clear Hl x blocks.
  assert (Hf : follows (batch_update fuel execute l d) (w_batch exec_on (number (w_earliest w)) l w)).
  { unfold batch_update.
    pose proof (law_p_seek_exact EarliestBlock (ProofWindow d)) as He.
    unfold inner_get_earliest_block_number_hash, inner_get_block_number_hash.
    destruct (p_seek_exact EarliestBlock _) as [o|y]; cbn [lift map_err fbind]; [|apply follows_failed; by right].
    cbn in He. rewrite (si_earliest _ _ _ (proj1 Hrep)) in He. subst o.
    destruct (get_latest_spec d _ _ (proj1 Hrep)) as ([o|x] & [= ->] & Ho); cbn [fbind];
      [subst o|destruct Ho as [y ->]; apply follows_failed; by right].
    by apply batch_loop_follows. }
  destruct Hf as (r & Hu & Hr). unfold commit_update, durable_step.
  destruct (tx_mut d) as [[]|y]; [|eexists d, _; split; [done|]; right; split; [done|]; eexists; split; [done|by right]].
  rewrite Hu. destruct r as [[d' c]|x]; [|by eexists d, _; split; [done|]; right; eauto].
  destruct (tx_commit d') as [[]|y]; [|eexists d, _; split; [done|]; right; split; [done|]; eexists; split; [done|by right]].
  unfold inner_get_earliest_block_number_hash, inner_get_block_number_hash.
  destruct (p_seek_exact EarliestBlock _) as [o|y]; cbn [lift map_err]; eexists d', _; (split; [done|]); left; by eauto.
Qed.

Lemma unwind_commits to d w : represents d w →
  durable_step d w (collector_unwind_history to d) (w_unwind to w).
Proof.
  intros Hrep. unfold collector_unwind_history, durable_step.
  destruct (commit_update_commits _ _ _ (unwind_implements to d w Hrep)) as (d' & r & Hun & Hr).
  unfold unwind_history. rewrite Hun. destruct r as [[]|x].
  - unfold inner_get_earliest_block_number_hash, inner_get_latest_block_number_hash, inner_get_block_number_hash.
    destruct (p_seek_exact EarliestBlock _) as [[e|]|y]; cbn [lift map_err];
      [|eexists d', _; split; [done|]; left; by eauto..].
    destruct (p_seek_exact LatestBlock _) as [[l|]|y]; cbn [lift map_err result_bind];
      eexists d', _; (split; [done|]); left; by eauto.
  - destruct Hr as [-> [?|[y ->]]]; (eexists d, _; split; [done|]; right; split; [done|]; eexists; split; [done|]);
      [by left|by right].
Qed.
End BatchRefinement.
