(* ===== verification/SyncTarget.v ===== *)
(** * The sync target of the proofs extension

    Models [crates/proofs-exex/src/sync_target.rs]: the pending state that chain
    notifications merge into and the sync loop consumes, and the bounded cache of trie
    data.  The two mutexes make each operation atomic; [Notify] is its stored permit. *)

From stdpp Require Import sorting.
From S2P Require Import Prelude.
From S2P Require Import Versioned.
From S2P Require Import HistoryWrites.
From S2P Require Import ProofsStore.
#[local] Open Scope Z_scope.

Definition CACHE_CAPACITY : nat := 1024.

Record CachedBlockTrieData (Data : Type) := {
  block_with_parent : BlockWithParent;
  trie_data : Data;
}.
Arguments block_with_parent {Data}.
Arguments trie_data {Data}.

Inductive SyncTargetState :=
| SyncUpTo (to : Z)
| RevertThenSync (revert_to : BlockWithParent) (sync_to : Z)
| Revert (revert_to : BlockWithParent).

Definition deeper_revert (current new : BlockWithParent) : BlockWithParent :=
  if number (block new) <=? number (block current) then new else current.

Definition further_sync (current new : Z) : Z := if current <=? new then new else current.

Definition apply_next (self new : SyncTargetState) : SyncTargetState :=
  match self, new with
  | SyncUpTo current, SyncUpTo new => SyncUpTo (further_sync current new)
  | SyncUpTo _, new => new
  | (RevertThenSync current _ | Revert current), Revert new => Revert (deeper_revert current new)
  | RevertThenSync current_revert _, RevertThenSync new_revert new_sync =>
      RevertThenSync (deeper_revert current_revert new_revert) new_sync
  | Revert current, RevertThenSync new sync_to => RevertThenSync (deeper_revert current new) sync_to
  | RevertThenSync revert_to sync_to, SyncUpTo to => RevertThenSync revert_to (further_sync sync_to to)
  | Revert revert_to, SyncUpTo to => RevertThenSync revert_to to
  end.

Definition revert_is_covered (pending completed : BlockWithParent) : bool :=
  (number (block completed) <? number (block pending))
  || (number (block pending) =? number (block completed)) && (nhash (block pending) =? nhash (block completed)).

Module Target.
Record SyncTarget (Data : Type) := {
  cache : list (Z * CachedBlockTrieData Data);
  state : option SyncTargetState;
  permit : bool;
}.
Arguments cache {Data}.
Arguments state {Data}.
Arguments permit {Data}.
Arguments Build_SyncTarget {Data}.

Section Operations.
Context {Data : Type}.
Implicit Types (s : SyncTarget Data).

Definition SyncTarget_new : SyncTarget Data := Build_SyncTarget [] None false.

Definition update_state (new : SyncTargetState) s : SyncTarget Data :=
  Build_SyncTarget (cache s)
    (Some match state s with Some current => apply_next current new | None => new end) true.

Definition requeue_state (failed : SyncTargetState) s : SyncTarget Data :=
  Build_SyncTarget (cache s)
    (Some match state s with Some newer => apply_next failed newer | None => failed end) true.

Definition take_state s : SyncTarget Data * option SyncTargetState :=
  (Build_SyncTarget (cache s) None (permit s), state s).

Definition mark_revert_complete (reverted_to : BlockWithParent) s : SyncTarget Data :=
  match state s with
  | Some (RevertThenSync revert_to sync_to) =>
      if revert_is_covered revert_to reverted_to
      then Build_SyncTarget (cache s) (Some (SyncUpTo sync_to)) (permit s) else s
  | Some (Revert revert_to) =>
      if revert_is_covered revert_to reverted_to
      then Build_SyncTarget (cache s) None (permit s) else s
  | _ => s
  end.

Definition has_pending_state s : bool := match state s with Some _ => true | None => false end.

(** [notified().await] returns once a permit is there, and takes it. *)
Definition notified s : option (SyncTarget Data) :=
  if permit s then Some (Build_SyncTarget (cache s) (state s) false) else None.

(** The loop that pops the first entries while the cache is too long. *)
Fixpoint evict_oldest (c : list (Z * CachedBlockTrieData Data)) : list (Z * CachedBlockTrieData Data) :=
  match c with
  | [] => []
  | _ :: c' => if (CACHE_CAPACITY <? length c)%nat then evict_oldest c' else c
  end.

Definition insert (block_number : Z) (data : CachedBlockTrieData Data) s : SyncTarget Data :=
  Build_SyncTarget (evict_oldest (btree_insert block_number data (cache s))) (state s) (permit s).

Definition take (block_number : Z) s : SyncTarget Data * option (CachedBlockTrieData Data) :=
  (Build_SyncTarget (List.filter (λ x, negb (x.1 =? block_number)) (cache s)) (state s) (permit s),
   item_of (cache s) block_number).

Definition clear_from (block_number : Z) s : SyncTarget Data :=
  Build_SyncTarget (List.filter (λ x, x.1 <? block_number) (cache s)) (state s) (permit s).
End Operations.
End Target.

(** ** Merging *)

(** The revert and the forward target a state asks for. *)
Definition revert_of (x : SyncTargetState) : option BlockWithParent :=
  match x with SyncUpTo _ => None | RevertThenSync r _ | Revert r => Some r end.
Definition sync_of (x : SyncTargetState) : option Z :=
  match x with SyncUpTo t | RevertThenSync _ t => Some t | Revert _ => None end.

Lemma deeper_revert_number r1 r2 :
  number (block (deeper_revert r1 r2)) = Z.min (number (block r1)) (number (block r2)).
Proof. unfold deeper_revert. destruct (Z.leb_spec (number (block r2)) (number (block r1))); lia. Qed.

(** The merged revert is the deeper of the two, the newer at equal depth. *)
Lemma revert_of_apply_next x y :
  revert_of (apply_next x y) =
    match revert_of x, revert_of y with
    | Some r1, Some r2 => Some (deeper_revert r1 r2)
    | None, o | o, None => o
    end.
Proof. by destruct x, y. Qed.

(** The merged forward target depends on the older state's target only. *)
Lemma sync_of_apply_next x y :
  sync_of (apply_next x y) =
    match y with
    | SyncUpTo t => Some match sync_of x with Some t0 => further_sync t0 t | None => t end
    | RevertThenSync _ t => Some t
    | Revert _ => None
    end.
Proof. by destruct x, y. Qed.

(** ** The cache *)

Section Cache.
Context {Data : Type}.
Implicit Types (s : Target.SyncTarget Data).

Lemma evict_oldest_suffix (c : list (Z * CachedBlockTrieData Data)) : ∃ k, Target.evict_oldest c = drop k c.
Proof.
  induction c as [|x c [k IH]]; [by exists 0%nat|]. cbn [Target.evict_oldest].
  destruct (_ <? _)%nat; [by exists (S k)|by exists 0%nat].
Qed.

Lemma evict_oldest_length (c : list (Z * CachedBlockTrieData Data)) : (length (Target.evict_oldest c) ≤ CACHE_CAPACITY)%nat.
Proof.
  induction c as [|x c IH]; [apply Nat.le_0_l|]. cbn [Target.evict_oldest].
  destruct (Nat.ltb_spec CACHE_CAPACITY (length (x :: c))); [done|lia].
Qed.

(** Nothing is dropped while there is room. *)
Lemma evict_oldest_room (c : list (Z * CachedBlockTrieData Data)) :
  (length c ≤ CACHE_CAPACITY)%nat → Target.evict_oldest c = c.
Proof. destruct c as [|x c]; [done|]. intros Hl. cbn [Target.evict_oldest]. by rewrite (proj2 (Nat.ltb_ge _ _) Hl). Qed.

(** A cache in order, within its bound. *)
Definition cache_ok (c : list (Z * CachedBlockTrieData Data)) : Prop :=
  btree c ∧ (length c ≤ CACHE_CAPACITY)%nat.

Lemma elem_of_insert n data s x : btree (Target.cache s) → x ∈ Target.cache (Target.insert n data s) → x = (n, data) ∨ x ∈ Target.cache s.
Proof.
  intros Hb Hx. unfold Target.insert in Hx. cbn in Hx. destruct (evict_oldest_suffix (btree_insert n data (Target.cache s))) as [k Hk].
  rewrite Hk in Hx.
  assert (Hx' : x ∈ btree_insert n data (Target.cache s)) by (rewrite <- (take_drop k (btree_insert _ _ _)); apply elem_of_app; by right).
  destruct x as [m y]. clear Hx. rename Hx' into Hx.
  apply elem_of_btree_insert in Hx; [|done]. naive_solver.
Qed.
End Cache.
