(* ===== verification/ProofsSync.v ===== *)
(** * The proofs execution extension

    Models [crates/proofs-exex/src/lib.rs]: the handlers that turn chain notifications
    into work on the [SyncTarget], and the background loop that reverts and extends the
    proofs store.  The two run concurrently, so a state of the system has the program
    counter of the loop and the operations the handlers still have to perform, and a
    step is one operation of either, a change of the canonical chain, or a prune.
    The store is the interface [ProofsHistory]; its laws say that the operations are
    those of the window of states, and [Live] and [StoreSafety] discharge them. *)

From stdpp Require Import sorting.
From S2P Require Import Prelude.
From S2P Require Import Versioned.
From S2P Require Import HistoryWrites.
From S2P Require Import ProofsStore.
From S2P Require Import StoreRefinement.
From S2P Require Import StoreSafety.
From S2P Require Import Live.
From S2P Require Import SyncTarget.
#[local] Open Scope Z_scope.

(** ** The store the extension writes *)

Class ProofsHistory (St E Node Account Body : Type) := {
  ph_earliest : St → result (option NumHash) (MorphProofsStorageError E);
  ph_latest : St → result (option NumHash) (MorphProofsStorageError E);
  (** [LiveTrieCollector::unwind_history] and [execute_and_store_batch]; [None] would be
      a loop that does not end. *)
  ph_unwind : BlockWithParent → St → option (St * result unit (MorphProofsStorageError E));
  ph_batch : list (BatchBlock Node Account Body) → St → option (St * result unit (MorphProofsStorageError E));
  (** What a run of the pruner can do. *)
  ph_prunes : St → St → Prop;
}.

Class ProofsHistoryLaws (St E Node Account Body : Type) `{ProofsHistory St E Node Account Body}
    (exec_on : State Node Account → RecoveredBlock Body
               → result (B256 * BlockStateDiff Node Account) (MorphProofsStorageError E))
    (num_of : B256 → Z) := {
  ph_holds : St → Window (Node := Node) (Account := Account) → Prop;
  law_ph_window s w : ph_holds s w → 0 ≤ number (w_earliest w) ≤ number (w_latest w);
  law_ph_earliest s w : ph_holds s w →
    ph_earliest s = Ok (Some (w_earliest w)) ∨ ∃ x, ph_earliest s = Err x ∧ retryable x;
  law_ph_latest s w : ph_holds s w →
    ph_latest s = Ok (Some (w_latest w)) ∨ ∃ x, ph_latest s = Err x ∧ retryable x;
  law_ph_unwind to s w : ph_holds s w → ∃ s' r, ph_unwind to s = Some (s', r) ∧
    ((r = Ok tt ∨ ∃ y, r = Err (DatabaseError y)) ∧ (∃ w', w_unwind (E := E) to w = Ok w' ∧ ph_holds s' w')
     ∨ s' = s ∧ ∃ x, r = Err x ∧ (w_unwind to w = Err x ∨ retryable x));
  law_ph_batch blocks s w : ph_holds s w → window_ok num_of w → Forall (entry_ok num_of) blocks →
    ∃ s' r, ph_batch blocks s = Some (s', r) ∧
    ((r = Ok tt ∨ ∃ y, r = Err (DatabaseError y))
     ∧ (∃ w', w_batch exec_on (number (w_earliest w)) blocks w = Ok w' ∧ ph_holds s' w')
     ∨ s' = s ∧ ∃ x, r = Err x ∧ (w_batch exec_on (number (w_earliest w)) blocks w = Err x ∨ retryable x));
  law_ph_prunes s s' w : ph_holds s w → ph_prunes s s' → ∃ w', ph_holds s' w' ∧ shortened w w'
    ∧ number (w_earliest w') ≤ number (w_latest w');
}.

Definition DEFAULT_MAX_PRUNE_BLOCKS_STARTUP : Z := 1000.
Definition SYNC_BLOCKS_PER_TURN : Z := 50.

(** ** The handlers *)

Section Extension.
Context {St E Node Account Body : Type} `{ProofsHistory St E Node Account Body}.
Abbreviation diff := (BlockStateDiff Node Account).
Abbreviation err := (MorphProofsStorageError E).
Abbreviation blk := (RecoveredBlock Body).
Abbreviation sync_target := (Target.SyncTarget diff).
Context (verification_interval : Z).

(** A segment of the chain, with the trie data that reth attached. *)
Abbreviation Chain := (list (RecoveredBlock Body * option (BlockStateDiff Node Account))).
Definition first (c : Chain) : option blk := fst <$> head c.
Definition chain_tip (c : Chain) : option blk := fst <$> last c.
Definition fork_block (c : Chain) : option NumHash :=
  (λ b, Build_NumHash (saturating_sub (number (block (rb_ref b))) 1) (parent (rb_ref b))) <$> first c.

Inductive ExExNotification :=
| ChainCommitted (new : Chain)
| ChainReorged (old new : Chain)
| ChainReverted (old : Chain).

(** The operations a handler performs, in order, each under the locks of [SyncTarget]. *)
Inductive Action :=
| ClearFrom (block_number : Z)
| Insert (block_number : Z) (data : CachedBlockTrieData diff)
| Update (new : SyncTargetState)
| FinishedHeight (tip : NumHash).

Definition act (a : Action) (t : sync_target) : sync_target :=
  match a with
  | ClearFrom n => Target.clear_from n t
  | Insert n data => Target.insert n data t
  | Update new => Target.update_state new t
  | FinishedHeight _ => t
  end.

Definition insert_chain (new : Chain) : list Action :=
  omap (λ '(b, data), (λ d, Insert (number (block (rb_ref b))) (Build_CachedBlockTrieData _ (rb_ref b) d)) <$> data) new.

Definition handle_chain_committed (new : Chain) : result (list Action) string :=
  match chain_tip new with
  | None => Err "chain is empty"%string
  | Some tip => Ok (insert_chain new ++ [Update (SyncUpTo (number (block (rb_ref tip))))])
  end.

Definition handle_chain_reorged (old new : Chain) : result (list Action) string :=
  if negb (bool_decide (fork_block old = fork_block new)) then Err "Fork blocks do not match"%string
  else
    match first old, chain_tip new with
    | Some first_old, Some tip =>
        Ok (ClearFrom (number (block (rb_ref first_old))) :: insert_chain new
            ++ [Update (RevertThenSync (rb_ref first_old) (number (block (rb_ref tip))))])
    | _, _ => Err "chain is empty"%string
    end.

Definition handle_chain_reverted (old : Chain) : result (list Action) string :=
  match first old with
  | None => Err "chain is empty"%string
  | Some first_old =>
      Ok [ClearFrom (number (block (rb_ref first_old))); Update (Revert (rb_ref first_old))]
  end.

Definition committed_chain (n : ExExNotification) : option Chain :=
  match n with ChainCommitted new | ChainReorged _ new => Some new | ChainReverted _ => None end.

Definition handle_notification (n : ExExNotification) : result (list Action) string :=
  let? actions :=
    match n with
    | ChainCommitted new => handle_chain_committed new
    | ChainReorged old new => handle_chain_reorged old new
    | ChainReverted old => handle_chain_reverted old
    end in
  Ok (actions ++ match committed_chain n ≫= chain_tip with
                 | Some tip => [FinishedHeight (block (rb_ref tip))]
                 | None => []
                 end).

(** ** The loop *)

Definition is_retryable_sync_error (x : err) : bool :=
  match x with DatabaseError _ | ProviderError _ | TryLockError => true | _ => false end.

Definition handle_revert (revert_to : BlockWithParent) (s : St) : option (St * result unit err) :=
  match ph_latest s with
  | Err x => Some (s, Err x)
  | Ok None => Some (s, Err NoBlocksFound)
  | Ok (Some latest) =>
      if number (block revert_to) <=? number latest then ph_unwind revert_to s else Some (s, Ok tt)
  end.

(** A cached entry that needs no verification is used as it is. *)
Definition build_batch_entry (block_number : Z) (cached : option (CachedBlockTrieData diff))
  : option (BatchBlock Node Account Body) :=
  let should_verify := (0 <? verification_interval) && (block_number mod verification_interval =? 0) in
  match cached with
  | Some c => if should_verify then None else Some (Cached (block_with_parent c) (trie_data c))
  | None => None
  end.

(** Where the loop is: at the top of [sync_loop]; waiting for a notification; before a
    revert; after it landed; at the top of [sync_forward]'s loop; building a batch of
    the blocks up to [end_], at block [n]; reading that block from the provider; storing
    the batch; re-arming the target after a failure. *)
Inductive Pc :=
| LTop
| LWait
| LRevert (revert_to : BlockWithParent) (sync_to : option Z)
| LMark (revert_to : BlockWithParent) (sync_to : option Z)
| LForward (goal : Z)
| LBuild (goal n end_ : Z) (batch : list (BatchBlock Node Account Body))
| LFetch (goal n end_ : Z) (batch : list (BatchBlock Node Account Body))
| LStore (goal : Z) (batch : list (BatchBlock Node Account Body))
| LRequeue (goal : Z).

(** The system: the shared target, the store, the loop, what the handlers have left to
    do; the canonical chain the provider answers from and the tip its last notification
    asked to sync to, if any; whether a revert failed so far. *)
Record Sys := {
  target : sync_target;
  store : St;
  pc : Pc;
  script : list Action;
  can : Z → option blk;
  tip : Z;
  wanted : option Z;
  revert_failed : bool;
}.

Definition goto (s : Sys) (t : sync_target) (st : St) (p : Pc) (failed : bool) : Sys := {|
  target := t; store := st; pc := p; script := script s; can := can s; tip := tip s;
  wanted := wanted s; revert_failed := revert_failed s || failed |}.

(** [match state] of the loop. *)
Definition start (o : option SyncTargetState) : Pc :=
  match o with
  | None => LWait
  | Some (Revert revert_to) => LRevert revert_to None
  | Some (RevertThenSync revert_to sync_to) => LRevert revert_to (Some sync_to)
  | Some (SyncUpTo to) => LForward to
  end.

(** The top of [sync_forward]'s loop: the next place and whether the read failed. *)
Definition forward_turn (goal : Z) (t : sync_target) (st : St) : Pc * bool :=
  if Target.has_pending_state t then (LTop, false)
  else
    match ph_latest st with
    | Ok None => (LTop, false)
    | Err _ => (LRequeue goal, true)
    | Ok (Some latest) =>
        if goal <=? number latest then (LTop, false)
        else
          let end_ := Z.min (saturating_add u64_max (number latest) SYNC_BLOCKS_PER_TURN) goal in
          (LBuild goal (number latest + 1) end_ [], false)
    end.

(** One step of the loop; the flag says whether the store or the provider failed. *)
Inductive loop_step : bool → Sys → Sys → Prop :=
| step_take s : pc s = LTop →
    loop_step false s (goto s (Target.take_state (target s)).1 (store s) (start (Target.take_state (target s)).2) false)
| step_wake s t : pc s = LWait → Target.notified (target s) = Some t →
    loop_step false s (goto s t (store s) LTop false)
| step_revert s r o st : pc s = LRevert r o → handle_revert r (store s) = Some (st, Ok tt) →
    loop_step false s (goto s (target s) st (LMark r o) false)
| step_revert_failed s r o st x : pc s = LRevert r o → handle_revert r (store s) = Some (st, Err x) →
    loop_step true s (goto s (target s) st LTop true)
| step_mark s r o : pc s = LMark r o →
    loop_step false s (goto s (Target.mark_revert_complete r (target s)) (store s)
                         match o with Some t => LForward t | None => LTop end false)
| step_forward s g : pc s = LForward g →
    loop_step (forward_turn g (target s) (store s)).2 s
      (goto s (target s) (store s) (forward_turn g (target s) (store s)).1 false)
| step_built s g n e l : pc s = LBuild g n e l → e < n →
    loop_step false s (goto s (target s) (store s) (LStore g l) false)
| step_build s g n e l : pc s = LBuild g n e l → n ≤ e →
    loop_step false s (goto s (Target.take n (target s)).1 (store s)
      match build_batch_entry n (Target.take n (target s)).2 with
      | Some x => LBuild g (n + 1) e (l ++ [x])
      | None => LFetch g n e l
      end false)
| step_fetch s g n e l : pc s = LFetch g n e l →
    loop_step false s (goto s (target s) (store s)
      match can s n with Some b => LBuild g (n + 1) e (l ++ [Execute b]) | None => LRequeue g end false)
| step_fetch_failed s g n e l : pc s = LFetch g n e l →
    loop_step true s (goto s (target s) (store s) (LRequeue g) false)
| step_store s g l st : pc s = LStore g l → ph_batch l (store s) = Some (st, Ok tt) →
    loop_step false s (goto s (target s) st (LForward g) false)
| step_store_failed s g l st x : pc s = LStore g l → ph_batch l (store s) = Some (st, Err x) →
    loop_step (is_retryable_sync_error x) s
      (goto s (target s) st (if is_retryable_sync_error x then LRequeue g else LTop) false)
| step_requeue s g : pc s = LRequeue g →
    loop_step false s (goto s (Target.requeue_state (SyncUpTo g) (target s)) (store s) LTop false).

(** ** The chain *)

(** The chain [c], continued from block [f] on by [new]. *)
Definition extend (c : Z → option blk) (f : Z) (new : Chain) : Z → option blk :=
  λ n, if n <? f then c n else fst <$> new !! Z.to_nat (n - f).

(** What the notification of a change says, of a chain [c] up to [t] that is replaced
    from [f] on by [new]. *)
Inductive announces (c : Z → option blk) (t f : Z) (new : Chain) : ExExNotification → Prop :=
| announce_commit : f = t + 1 → new ≠ [] → announces c t f new (ChainCommitted new)
| announce_reorg old : f ≤ t → new ≠ [] → first old = c f →
    announces c t f new (ChainReorged old new)
| announce_revert old : f ≤ t → new = [] → first old = c f →
    announces c t f new (ChainReverted old).

(** One step of the handlers, of the chain or of the pruner. *)
Inductive env_step (valid : blk → option diff → Prop) (base : Z) : Sys → Sys → Prop :=
| step_act s a l : script s = a :: l →
    env_step valid base s {| target := act a (target s); store := store s; pc := pc s; script := l;
      can := can s; tip := tip s; wanted := wanted s; revert_failed := revert_failed s |}
| step_chain s f new n l : base < f ≤ tip s + 1 → announces (can s) (tip s) f new n →
    (∀ i b d, new !! i = Some (b, d) → number (block (rb_ref b)) = f + Z.of_nat i ∧ valid b d) →
    (∀ k b b', extend (can s) f new k = Some b → extend (can s) f new (k + 1) = Some b' → f ≤ k + 1 →
       parent (rb_ref b') = nhash (block (rb_ref b))) →
    handle_notification n = Ok l →
    env_step valid base s {| target := target s; store := store s; pc := pc s; script := script s ++ l;
      can := extend (can s) f new; tip := f + Z.of_nat (length new) - 1;
      wanted := (λ b, number (block (rb_ref b))) <$> (committed_chain n ≫= chain_tip);
      revert_failed := revert_failed s |}
| step_prune s st : ph_prunes (store s) st →
    env_step valid base s {| target := target s; store := st; pc := pc s; script := script s;
      can := can s; tip := tip s; wanted := wanted s; revert_failed := revert_failed s |}.

Definition sys_step valid base (s s' : Sys) : Prop :=
  (∃ fault, loop_step fault s s') ∨ env_step valid base s s'.

(** ** Starting *)

Definition ensure_initialized (proofs_history_window max_prune_blocks_startup : Z) (s : St)
  : result unit string :=
  match ph_earliest s with
  | Err _ => Err "storage error"%string
  | Ok None => Err "Proofs storage not initialized"%string
  | Ok (Some earliest) =>
      match ph_latest s with
      | Err _ => Err "storage error"%string
      | Ok None => Err "Proofs storage not initialized"%string
      | Ok (Some latest) =>
          let target_earliest := saturating_sub (number latest) proofs_history_window in
          if (number earliest <? target_earliest)
             && (max_prune_blocks_startup <? target_earliest - number earliest)
          then Err "Configuration requires pruning too many blocks"%string
          else Ok tt
      end
  end.

(** What [run] does before it listens to notifications. *)
Definition run_start (proofs_history_window max_prune_blocks_startup best_block : Z) (s : St)
  : result sync_target string :=
  let? _ := ensure_initialized proofs_history_window max_prune_blocks_startup s in
  match ph_latest s with
  | Err _ => Err "storage error"%string
  | Ok o =>
      let latest_stored := match o with Some l => number l | None => 0 end in
      Ok (if latest_stored <? best_block
          then Target.update_state (SyncUpTo best_block) Target.SyncTarget_new
          else Target.SyncTarget_new)
  end.

(** ** Serving proofs *)

Inductive ProofWindowError :=
| Uninitialized
| Outside (requested earliest latest : Z)
| CanonicalMismatch (blk : Z) (stored : B256) (canonical : option B256).

Definition validate_canonical_anchor (b : Z) (stored : B256) (canonical : option B256)
  : result unit ProofWindowError :=
  if negb (bool_decide (canonical = Some stored)) then Err (CanonicalMismatch b stored canonical)
  else Ok tt.

Definition validate_window (requested : Z) (earliest latest : option Z) : result unit ProofWindowError :=
  match earliest, latest with
  | Some earliest, Some latest =>
      if (requested <? earliest) || (latest <? requested) then Err (Outside requested earliest latest)
      else Ok tt
  | _, _ => Err Uninitialized
  end.

(** [state_provider] for a canonical block: the block whose state is served.  Provider
    and storage errors are the outer [None]. *)
Definition state_provider (block_hash : Z → option B256) (block_number : Z) (s : St)
  : option (result Z ProofWindowError) :=
  match ph_earliest s, ph_latest s with
  | Ok earliest, Ok latest =>
      Some (let? _ := validate_window block_number (number <$> earliest) (number <$> latest) in
            match latest with
            | None => Err Uninitialized
            | Some latest =>
                let? _ := validate_canonical_anchor (number latest) (nhash latest) (block_hash (number latest)) in
                Ok block_number
            end)
  | _, _ => None
  end.
End Extension.
