(* ===== verification/SyncSafety.v ===== *)
(** * Guarantees of the proofs extension

    Whatever the interleaving of chain notifications, the sync loop and the pruner, as
    long as no revert fails the store never mixes branches: once no revert is
    outstanding, every state it serves is the canonical one ([Inv] and
    [sync_serves_canonical]). *)

From stdpp Require Import sorting.
From S2P Require Import Prelude.
From S2P Require Import Versioned.
From S2P Require Import HistoryWrites.
From S2P Require Import ProofsStore.
From S2P Require Import StoreRefinement.
From S2P Require Import StoreSafety.
From S2P Require Import Live.
From S2P Require Import SyncTarget.
From S2P Require Import ProofsSync.
#[local] Open Scope Z_scope.

(** ** Outstanding work *)

Section Jobs.
Context {E Node Account Body : Type}.
Abbreviation pc_t := (Pc (Node := Node) (Account := Account) (Body := Body)).
Abbreviation action := (Action (Node := Node) (Account := Account)).
Implicit Types (l : list SyncTargetState) (rs : list BlockWithParent).

(** What the loop is working on, as a state of the target. *)
Definition pc_jobs (p : pc_t) : list SyncTargetState :=
  match p with
  | LTop | LWait | LMark _ None => []
  | LRevert r None => [Revert r]
  | LRevert r (Some t) => [RevertThenSync r t]
  | LMark _ (Some t) | LForward t | LBuild t _ _ _ | LFetch t _ _ _ | LStore t _ | LRequeue t => [SyncUpTo t]
  end.

Definition script_jobs (s : list action) : list SyncTargetState :=
  omap (λ a, match a with Update u => Some u | _ => None end) s.

Definition reverts l : list BlockWithParent := omap revert_of l.

Definition goals l : list Z := omap sync_of l.

(** Block [n] is below every outstanding revert. *)
Definition safe_below (n : Z) l : Prop := Forall (λ r, n < number (block r)) (reverts l).

Lemma reverts_app l1 l2 : reverts (l1 ++ l2) = reverts l1 ++ reverts l2.
Proof. apply omap_app. Qed.

Lemma safe_below_app n l1 l2 : safe_below n (l1 ++ l2) ↔ safe_below n l1 ∧ safe_below n l2.
Proof. unfold safe_below. rewrite reverts_app. apply Forall_app. Qed.

Lemma safe_below_le n m l : m ≤ n → safe_below n l → safe_below m l.
Proof. intros Hm Hs. eapply Forall_impl; [exact Hs|]. cbn. lia. Qed.

Lemma safe_below_merge n x y l : safe_below n (apply_next x y :: l) ↔ safe_below n (x :: y :: l).
Proof.
  change (apply_next x y :: l) with ([apply_next x y] ++ l). change (x :: y :: l) with ([x; y] ++ l).
  rewrite !safe_below_app. apply and_iff_compat_r. unfold safe_below, reverts. cbn.
  rewrite revert_of_apply_next. destruct (revert_of x) as [r1|], (revert_of y) as [r2|];
    rewrite ?Forall_cons, ?Forall_nil, ?deeper_revert_number; cbn; rewrite ?Forall_cons, ?Forall_nil; lia || tauto.
Qed.

Lemma goals_app l1 l2 : goals (l1 ++ l2) = goals l1 ++ goals l2.
Proof. apply omap_app. Qed.

Lemma goals_merge m x y l : Forall (λ g, g ≤ m) (goals (x :: y :: l)) → Forall (λ g, g ≤ m) (goals (apply_next x y :: l)).
Proof.
  change (x :: y :: l) with ([x; y] ++ l). change (apply_next x y :: l) with ([apply_next x y] ++ l).
  rewrite !goals_app, !Forall_app. intros [Hxy Hl]. split; [|done]. unfold goals in *. cbn in *.
  rewrite sync_of_apply_next. destruct y; [|apply Forall_inv_tail in Hxy || idtac..].
  - destruct (sync_of x) as [g|]; cbn in *; repeat (apply Forall_cons in Hxy as [? Hxy]); repeat constructor; [|done].
    unfold further_sync. by destruct (_ <=? _).
  - destruct (sync_of x); cbn in *; repeat (apply Forall_cons in Hxy as [? Hxy]); by repeat constructor.
  - by constructor.
Qed.

Lemma pc_jobs_start o : pc_jobs (start o) = option_list o.
Proof. by destruct o as [[]|]. Qed.

(** The parent of a revert is the chain's block below it. *)
Definition at_parent (c : Z → option (RecoveredBlock Body)) (r : BlockWithParent) : Prop :=
  ∃ b, c (number (block r) - 1) = Some b ∧ nhash (block (rb_ref b)) = parent r.

(** So is every revert's, unless a later one goes deeper. *)
Fixpoint anchored (c : Z → option (RecoveredBlock Body)) rs : Prop :=
  match rs with
  | [] => True
  | r :: rs => anchored c rs ∧ (Forall (λ r', number (block r) - 1 < number (block r')) rs → at_parent c r)
  end.

Lemma anchored_app_r c rs1 rs2 : anchored c (rs1 ++ rs2) → anchored c rs2.
Proof. induction rs1 as [|r rs1 IH]; [done|]. cbn. intros [? _]. by apply IH. Qed.

Lemma anchored_merge c l0 x y l :
  anchored c (reverts (l0 ++ x :: y :: l)) → anchored c (reverts (l0 ++ apply_next x y :: l)).
Proof.
  rewrite !reverts_app.
  assert (Hsafe : ∀ n, Forall (λ r', n < number (block r')) (reverts (apply_next x y :: l))
                       ↔ Forall (λ r', n < number (block r')) (reverts (x :: y :: l))).
  { intros n. apply safe_below_merge. }
  induction (reverts l0) as [|r rs IH]; cbn [app].
  - clear Hsafe. unfold reverts. cbn [omap list_omap]. rewrite revert_of_apply_next.
    destruct (revert_of x) as [r1|], (revert_of y) as [r2|]; try done.
    + cbn [anchored]. intros ((Hl & H2) & H1). split; [done|]. intros Hd. unfold deeper_revert in *.
      destruct (Z.leb_spec (number (block r2)) (number (block r1))); [by apply H2|].
      apply H1. constructor; [lia|]. done.
  - cbn [anchored]. intros [Ha Hr]. split; [by apply IH|]. intros Hf. apply Hr.
    apply Forall_app in Hf as [Hf1 Hf2]. apply Forall_app. split; [done|]. by apply Hsafe.
Qed.

(** A change of the chain from block [f] on that is announced by the last revert. *)
Lemma anchored_changed c c' rs (f : Z) : anchored c rs →
  (∀ r, r ∈ rs → number (block r) - 1 < f → at_parent c r → at_parent c' r) →
  ∀ rf, number (block rf) = f → at_parent c' rf → anchored c' (rs ++ [rf]).
Proof.
  intros Ha Hc rf Hf Hrf. induction rs as [|r rs IH]; cbn [app anchored].
  - split; [done|]. by intros _.
  - cbn in Ha. destruct Ha as [Ha Hr]. split.
    + apply IH; [done|]. intros r' Hr'. apply Hc. by right.
    + intros [H1 H2]%Forall_app. apply Hc; [left| |by apply Hr]. apply Forall_inv in H2. lia.
Qed.

Lemma anchored_ext c c' rs : (∀ r, r ∈ rs → at_parent c r → at_parent c' r) → anchored c rs → anchored c' rs.
Proof.
  induction rs as [|r rs IH]; [done|]. cbn. intros Hc [Ha Hr]. split.
  - apply IH; [|done]. intros r' Hr'. apply Hc. by right.
  - intros Hf. apply Hc; [left|by apply Hr].
Qed.
End Jobs.

(** ** The invariant *)

Section Safety.
Context {St E Node Account Body : Type}.
Context (exec_on : State Node Account → RecoveredBlock Body
                   → result (B256 * BlockStateDiff Node Account) (MorphProofsStorageError E)).
Context (num_of : B256 → Z).
Context `{ProofsHistoryLaws St E Node Account Body exec_on num_of}.
Abbreviation diff := (BlockStateDiff Node Account).
Abbreviation blk := (RecoveredBlock Body).
Abbreviation window := (Window (Node := Node) (Account := Account)).
Abbreviation sys := (Sys (St := St) (Node := Node) (Account := Account) (Body := Body)).
Context (verification_interval : Z).
(** The state after the block with a hash, and the oldest block considered. *)
Context (chain_state : B256 → State Node Account) (base : Z).
Implicit Types (w : window) (c : Z → option (RecoveredBlock Body)) (l : list SyncTargetState) (s : sys).

Definition bhash (b : blk) : B256 := nhash (block (rb_ref b)).

(** Updates that lead from the state of the parent to that of the block. *)
Definition genuine (bd : diff) (r : BlockWithParent) : Prop :=
  diff_wf bd ∧ ∀ σ, σ ≡ chain_state (parent r) → apply_diff bd σ ≡ chain_state (nhash (block r)).

(** A block of the chain: executing it on its parent's state gives its state root and
    its state. *)
Definition valid_blk (b : blk) : Prop :=
  ref_ok num_of (rb_ref b) ∧ ∀ σ, σ ≡ chain_state (parent (rb_ref b)) →
    ∃ bd, exec_on σ b = Ok (rb_state_root b, bd) ∧ apply_diff bd σ ≡ chain_state (bhash b).
Definition valid (b : blk) (d : option diff) : Prop :=
  valid_blk b ∧ ∀ bd, d = Some bd → genuine bd (rb_ref b).

Record chain_ok c (t : Z) : Prop := {
  ch_range : ∀ n, c n ≠ None ↔ base ≤ n ≤ t;
  ch_number : ∀ n b, c n = Some b → number (block (rb_ref b)) = n;
  ch_valid : ∀ n b, c n = Some b → base < n → valid_blk b;
  ch_linked : ∀ n b b', c n = Some b → c (n + 1) = Some b' → parent (rb_ref b') = bhash b;
}.

(** Below the outstanding reverts, the window holds the chain's states. *)
Definition on_window c l w : Prop := ∀ n, number (w_earliest w) ≤ n ≤ number (w_latest w) → safe_below n l →
  ∃ b, c n = Some b ∧ w_state w n ≡ chain_state (bhash b) ∧ (n = number (w_latest w) → nhash (w_latest w) = bhash b).

Definition on_chain c (r : BlockWithParent) : Prop := ∃ b, c (number (block r)) = Some b ∧ rb_ref b = r.

Definition cached_ok (x : Z * CachedBlockTrieData diff) : Prop :=
  number (block (block_with_parent x.2)) = x.1 ∧ ref_ok num_of (block_with_parent x.2)
  ∧ genuine (trie_data x.2) (block_with_parent x.2).

(** An entry that the handlers still have to clear. *)
Definition stale (a : list (Action (Node := Node) (Account := Account))) (n : Z) : Prop :=
  ∃ f, ClearFrom f ∈ a ∧ f ≤ n.

Fixpoint script_ok c (a : list (Action (Node := Node) (Account := Account))) : Prop :=
  match a with
  | [] => True
  | x :: a => script_ok c a ∧
      match x with
      | Insert n data => cached_ok (n, data) ∧ (on_chain c (block_with_parent data) ∨ stale a n)
      | ClearFrom f => ∃ r, r ∈ reverts (script_jobs a) ∧ number (block r) ≤ f
      | _ => True
      end
  end.

(** An entry of a batch: genuine, and on the chain unless a revert will remove it. *)
Definition entry_fits c l (x : BatchBlock Node Account Body) : Prop :=
  ref_ok num_of (entry_ref x)
  ∧ match x with Cached r bd => genuine bd r | Execute b => valid_blk b end
  ∧ (safe_below (number (block (entry_ref x))) l → on_chain c (entry_ref x)).

Fixpoint batch_fits c l (n : Z) (batch : list (BatchBlock Node Account Body)) : Prop :=
  match batch with
  | [] => True
  | x :: batch => number (block (entry_ref x)) = n ∧ entry_fits c l x ∧ batch_fits c l (n + 1) batch
  end.

Definition pc_fits c l w (p : Pc) : Prop :=
  match p with
  | LBuild g n e batch =>
      n = number (w_latest w) + 1 + Z.of_nat (length batch) ∧ n ≤ e + 1 ∧ number (w_latest w) < e ≤ g
      ∧ batch_fits c l (number (w_latest w) + 1) batch
  | LFetch g n e batch =>
      n = number (w_latest w) + 1 + Z.of_nat (length batch) ∧ n ≤ e ∧ number (w_latest w) < e ≤ g
      ∧ batch_fits c l (number (w_latest w) + 1) batch
  | LStore g batch =>
      batch ≠ [] ∧ number (w_latest w) + Z.of_nat (length batch) ≤ g
      ∧ batch_fits c l (number (w_latest w) + 1) batch
  | LMark r _ => number (w_latest w) < number (block r)
  | _ => True
  end.

(** The jobs of the loop, the target and the handlers, oldest first. *)
Definition jobs s : list SyncTargetState :=
  pc_jobs (pc s) ++ option_list (Target.state (target s)) ++ script_jobs (script s).

Record Inv s w : Prop := {
  iv_holds : ph_holds (store s) w;
  iv_window : window_ok num_of w;
  iv_base : base ≤ number (w_earliest w);
  iv_chain : chain_ok (can s) (tip s);
  iv_states : on_window (can s) (jobs s) w;
  iv_anchored : anchored (can s) (reverts (jobs s));
  iv_reverts : Forall (λ r, ref_ok num_of r ∧ base < number (block r)) (reverts (jobs s));
  iv_goals : Forall (λ g, g ≤ u64_max) (goals (jobs s));
  iv_sorted : btree (Target.cache (target s));
  iv_cache : ∀ x, x ∈ Target.cache (target s) →
    cached_ok x ∧ (on_chain (can s) (block_with_parent x.2) ∨ stale (script s) x.1);
  iv_script : script_ok (can s) (script s);
  iv_pc : pc_fits (can s) (jobs s) w (pc s);
  iv_wakeup : pc s = LWait → Target.state (target s) ≠ None → Target.permit (target s) = true;
}.

(** *** Appending *)

Lemma append_fits c l w w' r bd : on_window c l w → window_ok num_of w → ref_ok num_of r →
  number (w_earliest w) ≤ number (w_latest w) → number (block r) = number (w_latest w) + 1 →
  (safe_below (number (block r)) l → on_chain c r) →
  (∀ σ, σ = w_state w (number (w_latest w)) → σ ≡ chain_state (parent r) → apply_diff bd σ ≡ chain_state (nhash (block r))) →
  w_append (E := E) r bd w = Ok w' → on_window c l w'.
Proof.
  intros Hon Hw Hr Hel Hnum Hc Hg Ha. unfold w_append in Ha.
  destruct (Z.eqb_spec (nhash (w_latest w)) (parent r)) as [Hp|]; [|done]. injection Ha as <-.
  intros n Hn Hs. cbn in *. destruct (Z.leb_spec n (number (w_latest w))) as [Hle|Hgt].
  - destruct (Hon n) as (b & Hb & Hst & Hh); [lia|done|]. exists b. split_and!; [done..|]. lia.
  - assert (n = number (block r)) as -> by lia. destruct (Hc Hs) as (b & Hb & Href).
    exists b. split; [done|]. unfold bhash. rewrite Href. split; [|done].
    destruct (Hon (number (w_latest w))) as (b0 & Hb0 & Hst0 & Hh0); [lia|eapply safe_below_le; [|exact Hs]; lia|].
    apply Hg; [done|]. rewrite Hst0, <- Hp, Hh0 by done. done.
Qed.

Lemma execute_fits c l w w' b : on_window c l w → window_ok num_of w → valid_blk b →
  number (w_earliest w) ≤ number (w_latest w) → number (block (rb_ref b)) = number (w_latest w) + 1 →
  (safe_below (number (block (rb_ref b))) l → on_chain c (rb_ref b)) →
  w_execute exec_on b (number (w_earliest w)) w = Ok w' → on_window c l w'.
Proof.
  intros Hon Hw [Hr Hv] Hel Hnum Hc. unfold w_execute, parent_in_window.
  rewrite wrapping_sub_exact by (destruct Hr as (_ & _ & ?); lia).
  replace (number (block (rb_ref b)) - 1) with (number (w_latest w)) by lia.
  rewrite (proj2 (Z.ltb_ge _ _) Hel), Z.ltb_irrefl. cbn [result_bind].
  destruct (exec_on _ b) as [[root bd]|] eqn:He; [|done]. cbn [result_bind].
  destruct (root =? rb_state_root b); [|done]. cbn [negb]. intros Ha.
  eapply append_fits; [exact Hon|exact Hw|exact Hr|exact Hel|exact Hnum|exact Hc| |exact Ha].
  intros σ -> Hσ. destruct (Hv _ Hσ) as (bd' & He' & Hg). rewrite He in He'. by injection He' as -> <-.
Qed.

Lemma batch_stored c l batch w w' : on_window c l w → window_ok num_of w →
  number (w_earliest w) ≤ number (w_latest w) → batch_fits c l (number (w_latest w) + 1) batch →
  w_batch exec_on (number (w_earliest w)) batch w = Ok w' →
  on_window c l w' ∧ window_ok num_of w' ∧ w_earliest w' = w_earliest w
  ∧ number (w_latest w') = number (w_latest w) + Z.of_nat (length batch).
Proof.
  revert w. induction batch as [|x batch IH]; intros w Hon Hw Hel Hb; cbn [w_batch].
  { intros [= <-]. split_and!; [done..|]. cbn. lia. }
  destruct Hb as (Hnum & (Hr & Hx & Hc) & Hb).
  destruct (match x with Cached r bd => w_append r bd w | Execute b => w_execute exec_on b (number (w_earliest w)) w end)
    as [w1|] eqn:H1; [|done]. cbn [result_bind].
  assert (Hw1 : on_window c l w1 ∧ window_ok num_of w1 ∧ w_earliest w1 = w_earliest w ∧ w_latest w1 = block (entry_ref x)).
  { destruct x as [r bd|b]; cbn in *.
    - split; [|by eapply append_ok]. destruct Hx as [_ Hg].
      eapply append_fits; [exact Hon|exact Hw|exact Hr|exact Hel|exact Hnum|exact Hc| |exact H1].
      intros σ _. apply Hg.
    - split; [|by eapply w_execute_ok]. by eapply execute_fits. }
  destruct Hw1 as (Hon1 & Hok1 & He1 & Hl1). intros Hrest. rewrite <- He1 in Hrest.
  destruct (IH w1) as (A & B & C' & D'); [done|done|rewrite He1, Hl1; lia|by rewrite Hl1, Hnum|done|].
  split_and!; [done..|congruence|]. rewrite D', Hl1, Hnum. cbn [length]. lia.
Qed.

Lemma batch_entries c l n batch : batch_fits c l n batch → Forall (entry_ok num_of) batch.
Proof.
  revert n. induction batch as [|x batch IH]; intros n; [by constructor|]. intros (_ & (Hr & Hx & _) & Hb).
  constructor; [|by eapply IH]. split; [done|]. destruct x; [apply Hx|done].
Qed.

Lemma batch_fits_app c l n batch x : batch_fits c l n batch →
  number (block (entry_ref x)) = n + Z.of_nat (length batch) → entry_fits c l x →
  batch_fits c l n (batch ++ [x]).
Proof.
  revert n. induction batch as [|y batch IH]; intros n; cbn [app batch_fits length].
  - intros _ Hn Hx. split_and!; [lia|done|done].
  - intros (Hy & Hf & Hb) Hn Hx. split_and!; [done..|]. apply IH; [done|lia|done].
Qed.

(** Fewer safe blocks, or a chain that keeps the safe ones. *)
Lemma batch_fits_weaken c c' l l' n batch :
  (∀ m r, safe_below m l' → number (block r) = m → safe_below m l ∧ (on_chain c r → on_chain c' r)) →
  batch_fits c l n batch → batch_fits c' l' n batch.
Proof.
  intros Hw. revert n. induction batch as [|x batch IH]; intros n; [done|]. intros (Hn & (Hr & Hx & Hc) & Hb).
  cbn. split_and!; [done..| |by apply IH]. split_and!; [done..|]. intros Hs.
  destruct (Hw _ (entry_ref x) Hs eq_refl) as [Hs' Hcc]. by apply Hcc, Hc.
Qed.

(** *** Steps that only move the work along *)

(** A step that keeps the chain and the window, and no block becomes safe by it. *)
Lemma on_window_weaken c l l' w : (∀ n, safe_below n l' → safe_below n l) → on_window c l w → on_window c l' w.
Proof. intros Hl Hon n Hn Hs. by apply Hon, Hl. Qed.

Lemma pc_fits_weaken c c' l l' w p :
  (∀ m r, safe_below m l' → number (block r) = m → safe_below m l ∧ (on_chain c r → on_chain c' r)) →
  pc_fits c l w p → pc_fits c' l' w p.
Proof.
  intros Hl. destruct p; cbn; try done; intros Hp.
  all: destruct_and?; split_and!; try done.
  all: by eapply batch_fits_weaken.
Qed.

Lemma script_clears c a f : script_ok c a → ClearFrom f ∈ a →
  ∃ r, r ∈ reverts (script_jobs a) ∧ number (block r) ≤ f.
Proof.
  induction a as [|x a IH]; [by intros _ []%elem_of_nil|]. cbn [script_ok]. intros [Ha Hx].
  assert (Hin : ∀ r, r ∈ reverts (script_jobs a) → r ∈ reverts (script_jobs (x :: a))).
  { intros r Hr. change (x :: a) with ([x] ++ a). unfold script_jobs. rewrite omap_app.
    fold (script_jobs a). rewrite reverts_app. apply elem_of_app. by right. }
  intros [<-|Hf]%elem_of_cons.
  - destruct Hx as (r & Hr & Hle). eauto.
  - destruct (IH Ha Hf) as (r & Hr & Hle). eauto.
Qed.

Lemma stale_unsafe s w n : Inv s w → stale (script s) n → safe_below n (jobs s) → False.
Proof.
  intros Hi (f & Hf & Hle) Hs. destruct (script_clears _ _ _ (iv_script _ _ Hi) Hf) as (r & Hr & Hrf).
  unfold jobs in Hs. rewrite !safe_below_app in Hs. destruct Hs as (_ & _ & Hs).
  unfold safe_below in Hs. rewrite Forall_forall in Hs. specialize (Hs _ Hr). lia.
Qed.

(** A step of the loop that leaves the store alone. *)
Lemma Inv_moved s w t p : Inv s w →
  let s' := goto s t (store s) p false in
  on_window (can s) (jobs s') w → anchored (can s) (reverts (jobs s')) →
  (∀ r, r ∈ reverts (jobs s') → r ∈ reverts (jobs s)) →
  Forall (λ g, g ≤ u64_max) (goals (jobs s')) →
  btree (Target.cache t) → (∀ x, x ∈ Target.cache t → x ∈ Target.cache (target s)) →
  pc_fits (can s) (jobs s') w p →
  (p = LWait → Target.state t ≠ None → Target.permit t = true) → Inv s' w.
Proof.
  intros [Hh Hw Hb Hc Hon Ha Hr Hg Hbt Hca Hsc Hp Hwk] s' Hon' Ha' Hr' Hg' Hbt' Hca' Hp' Hwk'.
  split; try done.
  - rewrite Forall_forall in Hr |- *. auto.
  - intros x Hx. by apply Hca, Hca'.
Qed.

(** The same, when the jobs stay the same. *)
Lemma Inv_same_jobs s w t p : Inv s w → jobs (goto s t (store s) p false) = jobs s →
  btree (Target.cache t) → (∀ x, x ∈ Target.cache t → x ∈ Target.cache (target s)) →
  pc_fits (can s) (jobs s) w p →
  (p = LWait → Target.state t ≠ None → Target.permit t = true) → Inv (goto s t (store s) p false) w.
Proof.
  intros Hi Hj Hbt Hca Hp Hwk. apply Inv_moved; try rewrite Hj; try done.
  - apply Hi.
  - apply Hi.
  - apply Hi.
Qed.

(** Dropping a forward target. *)
Lemma Inv_dropped s w p g : Inv s w → pc_jobs (pc s) = [SyncUpTo g] → pc_jobs p = [] → p ≠ LWait →
  pc_fits (can s) (jobs (goto s (target s) (store s) p false)) w p →
  Inv (goto s (target s) (store s) p false) w.
Proof.
  intros Hi Hpc Hp Hne Hf.
  assert (Hj : jobs s = SyncUpTo g :: jobs (goto s (target s) (store s) p false))
    by (unfold jobs, goto; cbn; by rewrite Hpc, Hp).
  pose proof (iv_states _ _ Hi) as Hon. pose proof (iv_anchored _ _ Hi) as Ha.
  pose proof (iv_reverts _ _ Hi) as Hr. pose proof (iv_goals _ _ Hi) as Hg. rewrite Hj in *.
  apply Inv_moved; try done; [by rewrite Hj|by apply Forall_inv_tail in Hg|by apply Hi].
Qed.

(** *** The steps of the loop *)

Lemma btree_filter (f : Z * CachedBlockTrieData diff → bool) m : btree m → btree (List.filter f m).
Proof.
  unfold btree. induction m as [|x m IH]; [done|]. cbn [map List.filter]. intros [Hs Hx]%StronglySorted_inv.
  destruct (f x); [|by apply IH]. cbn [map]. constructor; [by apply IH|]. rewrite Forall_forall in Hx |- *.
  intros k (y & -> & Hy)%list_elem_of_fmap. apply Hx, list_elem_of_fmap. exists y. split; [done|].
  rewrite list_elem_of_In, filter_In, <- list_elem_of_In in Hy. tauto.
Qed.

Lemma elem_of_filtered {A} (f : A → bool) (m : list A) x : x ∈ List.filter f m ↔ x ∈ m ∧ f x = true.
Proof. by rewrite list_elem_of_In, filter_In, <- list_elem_of_In. Qed.

Lemma Inv_revert s w r o st : Inv s w → pc s = LRevert r o → handle_revert r (store s) = Some (st, Ok tt) →
  ∃ w', Inv (goto s (target s) st (LMark r o) false) w'.
Proof.
  intros Hi Hpc Hrun. pose proof (law_ph_window _ _ (iv_holds _ _ Hi)) as Hwin.
  set (s' := goto s (target s) st (LMark r o) false).
  assert (Hj : reverts (jobs s) = r :: reverts (jobs s')) by (unfold jobs, s', goto; cbn; rewrite Hpc; by destruct o).
  assert (Hgl : goals (jobs s') = goals (jobs s)) by (unfold jobs, s', goto; cbn; rewrite Hpc; by destruct o).
  pose proof (iv_anchored _ _ Hi) as Ha. pose proof (iv_reverts _ _ Hi) as Hr. rewrite Hj in Ha, Hr.
  destruct Ha as [Ha Har]. apply Forall_cons in Hr as [[Hrok Hrb] Hr].
  assert (Hsafe : ∀ n, n < number (block r) → safe_below n (jobs s') → safe_below n (jobs s)).
  { intros n Hn Hs. unfold safe_below. rewrite Hj. by constructor. }
  unfold handle_revert in Hrun.
  destruct (law_ph_latest _ _ (iv_holds _ _ Hi)) as [Hl|(x & Hl & _)]; rewrite Hl in Hrun; [|done].
  destruct (Z.leb_spec (number (block r)) (number (w_latest w))) as [Hle|Hlt].
  - destruct (law_ph_unwind r _ _ (iv_holds _ _ Hi)) as (st' & res & Hun & Hres). rewrite Hrun in Hun.
    injection Hun as <- <-. destruct Hres as [[_ (w' & Hw' & Hh')]|(_ & x & ? & _)]; [|done].
    unfold w_unwind in Hw'. rewrite (proj2 (Z.ltb_ge _ _) Hle) in Hw'.
    destruct (Z.leb_spec (number (block r)) (number (w_earliest w))); [done|]. injection Hw' as <-.
    match type of Hh' with ph_holds _ ?w' => exists w' end. split; try apply Hi; try done; cbn.
    + destruct Hrok as (_ & Hp & _). exact Hp.
    + intros n Hn Hs. destruct (iv_states _ _ Hi n) as (b & Hb & Hst & _); [cbn in Hn; lia|apply Hsafe; [cbn in Hn; lia|done]|].
      exists b. split_and!; [done..|]. cbn. intros ->. destruct (Har Hs) as (b' & Hb' & <-).
      rewrite Hb in Hb'. by injection Hb' as <-.
    + pose proof (iv_goals _ _ Hi) as Hg. rewrite <- Hgl in Hg. exact Hg.
    + lia.
  - injection Hrun as <-. exists w. split; try apply Hi; try done; cbn.
    + intros n Hn Hs. apply (iv_states _ _ Hi); [done|]. apply Hsafe; [lia|done].
    + pose proof (iv_goals _ _ Hi) as Hg. rewrite <- Hgl in Hg. exact Hg.
Qed.

Lemma Inv_mark s w r o : Inv s w → pc s = LMark r o →
  Inv (goto s (Target.mark_revert_complete r (target s)) (store s)
         match o with Some t => LForward t | None => LTop end false) w.
Proof.
  intros Hi Hpc. set (p := match o with Some t => LForward t | None => LTop end).
  assert (Hpj : pc_jobs p = pc_jobs (pc s)) by (rewrite Hpc; by destruct o).
  pose proof (iv_pc _ _ Hi) as Hlow. rewrite Hpc in Hlow. cbn in Hlow.
  assert (Hnr : ∀ n, safe_below n (pc_jobs (pc s))) by (intros n; rewrite Hpc; destruct o; by constructor).
  assert (Hrr : reverts (pc_jobs (pc s)) = []) by (rewrite Hpc; by destruct o).
  assert (Hpf : ∀ l, pc_fits (can s) l w p) by by destruct o.
  assert (Hpw : p ≠ LWait) by by destruct o.
  unfold Target.mark_revert_complete.
  destruct (Target.state (target s)) as [[g|f g|f]|] eqn:Hst;
    try (apply Inv_same_jobs; [done|unfold jobs, goto; cbn; by rewrite Hpj, Hst|apply Hi|done|done|done]).
  all: destruct (revert_is_covered f r) eqn:Hcov;
    [|apply Inv_same_jobs; [done|unfold jobs, goto; cbn; by rewrite Hpj, Hst|apply Hi|done|done|done]].
  all: assert (Hf : number (block r) ≤ number (block f)) by (unfold revert_is_covered in Hcov; lia).
  all: assert (Hkey : ∀ l0, (∀ n, safe_below n l0) →
      on_window (can s) (pc_jobs (pc s) ++ l0 ++ script_jobs (script s)) w)
    by (intros l0 Hl0 n Hn Hs; apply (iv_states _ _ Hi); [done|]; unfold jobs; rewrite Hst;
        rewrite !safe_below_app in Hs |- *; destruct Hs as (_ & _ & Hs); split_and!; [done| |done];
        repeat constructor; lia).
  all: pose proof (iv_anchored _ _ Hi) as Ha; pose proof (iv_goals _ _ Hi) as Hg;
    unfold jobs in Ha, Hg; rewrite Hst in Ha, Hg.
  all: apply Inv_moved; [done|..]; unfold jobs, goto; cbn -[safe_below]; rewrite ?Hpj, ?Hst;
    try done; try apply Hi.
  all: try (rewrite ?reverts_app, ?goals_app in *; cbn in *; rewrite ?Hrr in *; cbn in *).
  all: try (by apply Ha).
  all: try (intros r' Hr'; rewrite ?reverts_app in *; cbn in *; rewrite ?Hrr in *; by right).
  all: match goal with |- on_window _ _ _ => idtac | _ => done end.
  all: [> apply (Hkey [SyncUpTo g])|apply (Hkey [])]; intros n; by constructor.
Qed.

Lemma Inv_forward s w g : Inv s w → pc s = LForward g →
  Inv (goto s (target s) (store s) (forward_turn g (target s) (store s)).1 false) w.
Proof.
  intros Hi Hpc. assert (Hpj : pc_jobs (pc s) = [SyncUpTo g]) by by rewrite Hpc.
  unfold forward_turn. destruct (Target.has_pending_state _); [by eapply Inv_dropped|].
  destruct (law_ph_latest _ _ (iv_holds _ _ Hi)) as [->|(x & -> & _)]; cbn [fst].
  2:{ apply Inv_same_jobs; try done; [unfold jobs; cbn; by rewrite Hpj|apply Hi]. }
  destruct (Z.leb_spec g (number (w_latest w))); [by eapply Inv_dropped|]. cbn [fst].
  apply Inv_same_jobs; try done; [unfold jobs; cbn; by rewrite Hpj|apply Hi|]. cbn.
  assert (Hg : g ≤ u64_max).
  { pose proof (iv_goals _ _ Hi) as Hg. unfold jobs in Hg. rewrite Hpj in Hg. by apply Forall_inv in Hg. }
  unfold saturating_add, SYNC_BLOCKS_PER_TURN. split_and!; [lia..|done].
Qed.

Lemma entry_cached s w n : Inv s w → ∀ x d, item_of (Target.cache (target s)) n = Some d →
  build_batch_entry verification_interval n (Some d) = Some x →
  number (block (entry_ref x)) = n ∧ entry_fits (can s) (jobs s) x.
Proof.
  intros Hi x d Hd Hx. apply item_of_Some in Hd; [|apply btree_NoDup, Hi].
  destruct (iv_cache _ _ Hi _ Hd) as [(Hn & Hr & Hg) Hc]. cbn in *.
  unfold build_batch_entry in Hx. destruct (_ && _); [done|]. injection Hx as <-. cbn.
  split; [done|]. split_and!; [done..|]. cbn. rewrite Hn. intros Hs. destruct Hc as [?|Hst]; [done|].
  by destruct (stale_unsafe _ _ _ Hi Hst).
Qed.

Lemma Inv_build s w g n e batch : Inv s w → pc s = LBuild g n e batch → n ≤ e →
  Inv (goto s (Target.take n (target s)).1 (store s)
    match build_batch_entry verification_interval n (Target.take n (target s)).2 with
    | Some x => LBuild g (n + 1) e (batch ++ [x])
    | None => LFetch g n e batch
    end false) w.
Proof.
  intros Hi Hpc Hne. pose proof (iv_pc _ _ Hi) as Hp. rewrite Hpc in Hp. destruct Hp as (Hn & He & Hlt & Hb).
  apply Inv_same_jobs; [done|..].
  - unfold jobs. cbn. rewrite Hpc. by destruct (build_batch_entry _ _ _).
  - cbn. apply btree_filter, Hi.
  - intros x. cbn. rewrite elem_of_filtered. tauto.
  - cbn [snd Target.take]. destruct (item_of (Target.cache (target s)) n) as [d|] eqn:Hd; [|by cbn].
    destruct (build_batch_entry _ _ _) as [x|] eqn:Hx; [|by cbn].
    destruct (entry_cached _ _ _ Hi _ _ Hd Hx) as [Hxn Hfit]. cbn. rewrite length_app. cbn.
    split_and!; [lia..|]. apply batch_fits_app; [done|lia|done].
  - by destruct (build_batch_entry _ _ _).
Qed.

Lemma Inv_fetch s w g n e batch : Inv s w → pc s = LFetch g n e batch →
  Inv (goto s (target s) (store s)
    match can s n with Some b => LBuild g (n + 1) e (batch ++ [Execute b]) | None => LRequeue g end false) w.
Proof.
  intros Hi Hpc. pose proof (iv_pc _ _ Hi) as Hp. rewrite Hpc in Hp. destruct Hp as (Hn & He & Hlt & Hb).
  pose proof (law_ph_window _ _ (iv_holds _ _ Hi)). pose proof (iv_base _ _ Hi).
  pose proof (iv_chain _ _ Hi) as Hch.
  apply Inv_same_jobs; [done|unfold jobs; cbn; rewrite Hpc; by destruct (can s n)|apply Hi|done| |by destruct (can s n)].
  destruct (can s n) as [b|] eqn:Hcn; [|done]. cbn. rewrite length_app. cbn. split_and!; [lia..|].
  pose proof (ch_number _ _ Hch _ _ Hcn) as Hbn. assert (Hv : valid_blk b) by (eapply ch_valid; [done|done|lia]).
  apply batch_fits_app; [done|cbn; lia|]. split_and!; [apply Hv|done|]. intros _. exists b. cbn. by rewrite Hbn.
Qed.

Lemma Inv_requeue s w g : Inv s w → pc s = LRequeue g →
  Inv (goto s (Target.requeue_state (SyncUpTo g) (target s)) (store s) LTop false) w.
Proof.
  intros Hi Hpc. pose proof (iv_anchored _ _ Hi) as Ha. pose proof (iv_goals _ _ Hi) as Hg.
  pose proof (iv_states _ _ Hi) as Hon. unfold jobs in Ha, Hg, Hon. rewrite Hpc in Ha, Hg, Hon.
  unfold Target.requeue_state. destruct (Target.state (target s)) as [p|] eqn:Hst.
  - cbn [pc_jobs option_list app] in Ha, Hg, Hon.
    apply Inv_moved; [done|..]; unfold jobs, goto; cbn -[safe_below apply_next reverts goals script_jobs].
    + eapply on_window_weaken; [|exact Hon]. intros n. apply safe_below_merge.
    + by apply (anchored_merge _ []).
    + unfold jobs. rewrite Hpc, Hst. cbn. intros r Hr. by destruct p.
    + by apply goals_merge.
    + apply Hi.
    + done.
    + done.
    + done.
  - apply Inv_same_jobs; [done|unfold jobs; cbn; by rewrite Hpc, Hst|apply Hi|done..].
Qed.

(** The store after a batch, whatever the loop does next. *)
Lemma Inv_stored s w w' g batch st p : Inv s w → pc s = LStore g batch → pc_jobs p = [SyncUpTo g] →
  (∀ c l w, pc_fits c l w p) → p ≠ LWait →
  w_batch exec_on (number (w_earliest w)) batch w = Ok w' → ph_holds st w' →
  Inv (goto s (target s) st p false) w' ∧ number (w_latest w) < number (w_latest w') ≤ g.
Proof.
  intros Hi Hpc Hpj Hp Hpw Hw' Hh'. pose proof (iv_pc _ _ Hi) as Hf. rewrite Hpc in Hf. destruct Hf as (Hne & Hlen & Hb).
  pose proof (law_ph_window _ _ (iv_holds _ _ Hi)).
  destruct (batch_stored _ _ _ _ _ (iv_states _ _ Hi) (iv_window _ _ Hi) ltac:(lia) Hb Hw') as (Hon & Hok & He & Hl).
  assert (Hj : jobs (goto s (target s) st p false) = jobs s) by (unfold jobs; cbn; by rewrite Hpc, Hpj).
  split.
  - destruct Hi. split; rewrite ?Hj, ?He; done || apply Hp.
  - destruct batch; [done|]. cbn [length] in *. lia.
Qed.

(** How the window can change in a step of the loop. *)
Definition loop_moves s s' w w' : Prop :=
  match pc s with
  | LRevert _ _ => True
  | LStore g _ => w' = w ∧ pc s' ≠ LForward g ∨ pc_jobs (pc s') = [SyncUpTo g] ∧ number (w_latest w) < number (w_latest w') ≤ g
  | _ => w' = w
  end.

Lemma Inv_loop fault s s' w : Inv s w → loop_step verification_interval fault s s' →
  revert_failed s' = false → ∃ w', Inv s' w' ∧ loop_moves s s' w w'.
Proof.
  intros Hi Hs Hf. destruct Hs as [s Hpc|s t Hpc Ht|s r o st Hpc Hrun|s r o st x Hpc Hrun|s r o Hpc|s g Hpc
    |s g n e l Hpc Hne|s g n e l Hpc Hne|s g n e l Hpc|s g n e l Hpc|s g l st Hpc Hrun|s g l st x Hpc Hrun|s g Hpc].
  - exists w. split; [|unfold loop_moves; by rewrite Hpc]. apply Inv_same_jobs; [done| |apply Hi|done| |].
    + unfold jobs. cbn. by rewrite pc_jobs_start, Hpc.
    + cbn. by destruct (Target.state (target s)) as [[]|].
    + done.
  - exists w. split; [|unfold loop_moves; by rewrite Hpc]. unfold Target.notified in Ht. destruct (Target.permit (target s)); [|done]. injection Ht as <-.
    apply Inv_same_jobs; [done|unfold jobs; cbn; by rewrite Hpc|apply Hi|done..].
  - destruct (Inv_revert _ _ _ _ _ Hi Hpc Hrun) as [w' ?]. exists w'. split; [done|unfold loop_moves; by rewrite Hpc].
  - cbn in Hf. by rewrite orb_true_r in Hf.
  - exists w. split; [by apply Inv_mark|unfold loop_moves; by rewrite Hpc].
  - exists w. split; [by apply Inv_forward|unfold loop_moves; by rewrite Hpc].
  - exists w. split; [|unfold loop_moves; by rewrite Hpc]. pose proof (iv_pc _ _ Hi) as Hp. rewrite Hpc in Hp. destruct Hp as (Hn & He & Hlt & Hb).
    apply Inv_same_jobs; [done|unfold jobs; cbn; by rewrite Hpc|apply Hi|done| |done]. cbn.
    split_and!; [destruct l; [cbn in *; lia|done]|lia|done].
  - exists w. split; [by apply Inv_build|unfold loop_moves; by rewrite Hpc].
  - exists w. split; [by apply Inv_fetch|unfold loop_moves; by rewrite Hpc].
  - exists w. split; [|unfold loop_moves; by rewrite Hpc]. apply Inv_same_jobs; [done|unfold jobs; cbn; by rewrite Hpc|apply Hi|done..].
  - pose proof (iv_pc _ _ Hi) as Hp. rewrite Hpc in Hp. destruct Hp as (_ & _ & Hb).
    destruct (law_ph_batch l _ _ (iv_holds _ _ Hi) (iv_window _ _ Hi) (batch_entries _ _ _ _ Hb)) as (st' & r & Hrun' & Hr).
    rewrite Hrun in Hrun'. injection Hrun' as <- <-. destruct Hr as [[_ (w' & Hw' & Hh')]|(_ & x & ? & _)]; [|done].
    exists w'. unfold loop_moves. rewrite Hpc. destruct (Inv_stored s w w' g l st (LForward g)) as [? ?]; [done..|]. split; [done|]. by right.
  - pose proof (iv_pc _ _ Hi) as Hp. rewrite Hpc in Hp. destruct Hp as (_ & _ & Hb).
    destruct (law_ph_batch l _ _ (iv_holds _ _ Hi) (iv_window _ _ Hi) (batch_entries _ _ _ _ Hb)) as (st' & r & Hrun' & Hr).
    rewrite Hrun in Hrun'. injection Hrun' as <- <-. destruct Hr as [[[?|[y [= ->]]] (w' & Hw' & Hh')]|(-> & x' & [= <-] & Hx)].
    + done.
    + exists w'. unfold loop_moves. rewrite Hpc. destruct (Inv_stored s w w' g l st (LRequeue g)) as [? ?]; [done..|]. split; [done|]. by right.
    + exists w. unfold loop_moves. rewrite Hpc. split; [|left; cbn; by destruct (is_retryable_sync_error x)].
      destruct (is_retryable_sync_error x).
      * apply Inv_same_jobs; [done|unfold jobs; cbn; by rewrite Hpc|apply Hi|done..].
      * by apply (Inv_dropped _ _ _ g); [|rewrite Hpc|..].
  - exists w. split; [by apply Inv_requeue|unfold loop_moves; by rewrite Hpc].
Qed.

(** *** The steps of the handlers, the chain and the pruner *)

Lemma btree_drop k (m : list (Z * CachedBlockTrieData diff)) : btree m → btree (drop k m).
Proof.
  unfold btree. intros Hm. rewrite <- (take_drop k m), map_app in Hm.
  by apply StronglySorted_app in Hm as (_ & _ & ?).
Qed.

Lemma Inv_act s w a rest : Inv s w → script s = a :: rest →
  Inv {| target := act a (target s); store := store s; pc := pc s; script := rest; can := can s; tip := tip s;
         wanted := wanted s; revert_failed := revert_failed s |} w.
Proof.
  intros Hi Hs. pose proof (iv_script _ _ Hi) as Hsc. rewrite Hs in Hsc. destruct Hsc as [Hsc Ha].
  pose proof (iv_cache _ _ Hi) as Hca. rewrite Hs in Hca.
  assert (Hkeep : ∀ n, (∀ f, a ≠ ClearFrom f) → stale (a :: rest) n → stale rest n).
  { intros n Hna (f & [<-|Hf]%elem_of_cons & Hle); [by destruct (Hna f)|]. by exists f. }
  destruct a as [f|n data|u|b].
  - assert (Hj : jobs s = pc_jobs (pc s) ++ option_list (Target.state (target s)) ++ script_jobs rest)
      by (unfold jobs; by rewrite Hs).
    destruct Hi. rewrite Hj in *. split; try done; cbn.
    + by apply btree_filter.
    + intros x [Hx Hlt]%elem_of_filtered. destruct (Hca _ Hx) as [Hok [?|(f' & [[= ->]|Hf']%elem_of_cons & Hle)]].
      * by split; [|left].
      * lia.
      * split; [done|]. right. by exists f'.
  - assert (Hj : jobs s = pc_jobs (pc s) ++ option_list (Target.state (target s)) ++ script_jobs rest)
      by (unfold jobs; by rewrite Hs).
    destruct Hi. rewrite Hj in *. split; try done; cbn.
    + destruct (evict_oldest_suffix (btree_insert n data (Target.cache (target s)))) as [k ->].
      by apply btree_drop, btree_insert_sorted.
    + intros x [->|Hx]%elem_of_insert; [by destruct Ha|..|done].
      destruct (Hca _ Hx) as [Hok [?|Hst]]; (split; [done|]); [by left|right]. by apply Hkeep.
  - pose proof (iv_anchored _ _ Hi) as Han. pose proof (iv_goals _ _ Hi) as Hg. pose proof (iv_states _ _ Hi) as Hon.
    pose proof (iv_pc _ _ Hi) as Hp. pose proof (iv_reverts _ _ Hi) as Hr.
    set (s' := {| target := _ |}).
    assert (Hj : ∃ l0 l1, jobs s = l0 ++ l1 ∧ (jobs s' = jobs s
        ∨ ∃ x l2, l1 = x :: u :: l2 ∧ jobs s' = l0 ++ apply_next x u :: l2)).
    { unfold jobs, s'. cbn. rewrite Hs. destruct (Target.state (target s)) as [x|].
      - eexists (pc_jobs (pc s)), _. split; [done|]. right. by eexists x, _.
      - eexists (pc_jobs (pc s)), _. split; [done|]. by left. }
    destruct Hj as (l0 & l1 & Hj & [Heq|(x & l2 & -> & Heq)]).
    + destruct Hi. split; rewrite ?Heq; try done; cbn.
      intros y Hy. destruct (Hca _ Hy) as [Hok [?|Hst]]; (split; [done|]); [by left|right]. by apply Hkeep.
    + assert (Hsafe : ∀ n, safe_below n (jobs s') → safe_below n (jobs s)).
      { intros n. rewrite Heq, Hj, !safe_below_app. by rewrite safe_below_merge. }
      rewrite Hj in Han, Hg, Hr. destruct Hi. split; try done; cbn.
      * by eapply on_window_weaken.
      * rewrite Heq. by apply anchored_merge.
      * rewrite Heq. rewrite reverts_app in Hr |- *. apply Forall_app in Hr as [Hr1 Hr2]. apply Forall_app. split; [done|].
        unfold reverts in *. cbn in *. rewrite revert_of_apply_next. unfold deeper_revert.
        destruct (revert_of x), (revert_of u); try done; try destruct (_ <=? _);
          repeat (apply Forall_cons in Hr2 as [? Hr2]); by constructor.
      * rewrite Heq. rewrite goals_app in Hg |- *. apply Forall_app in Hg as [Hg1 Hg2]. apply Forall_app.
        split; [done|]. by apply goals_merge.
      * intros y Hy. destruct (Hca _ Hy) as [Hok [?|Hst]]; (split; [done|]); [by left|right]. by apply Hkeep.
      * eapply pc_fits_weaken; [|done]. by auto.
  - assert (Hj : jobs s = pc_jobs (pc s) ++ option_list (Target.state (target s)) ++ script_jobs rest)
      by (unfold jobs; by rewrite Hs).
    destruct Hi. rewrite Hj in *. split; try done; cbn.
    intros x Hx. destruct (Hca _ Hx) as [Hok [?|Hst]]; (split; [done|]); [by left|right]. by apply Hkeep.
Qed.

Lemma Inv_prune s w st : Inv s w → ph_prunes (store s) st → ∃ w',
  Inv {| target := target s; store := st; pc := pc s; script := script s; can := can s; tip := tip s;
         wanted := wanted s; revert_failed := revert_failed s |} w' ∧ w_latest w' = w_latest w.
Proof.
  intros Hi Hp. destruct (law_ph_prunes _ _ _ (iv_holds _ _ Hi) Hp) as (w' & Hh & (Hl & Hst & He) & _).
  exists w'. split; [|done]. destruct Hi. split; try done.
  - unfold window_ok. by rewrite Hl.
  - lia.
  - intros n Hn Hs. cbn. rewrite Hl in Hn |- *. rewrite Hst. apply iv_states0; [lia|done].
  - revert iv_pc0. unfold pc_fits. cbn. by rewrite Hl.
Qed.

Lemma script_jobs_app (a1 a2 : list (Action (Node := Node) (Account := Account))) :
  script_jobs (a1 ++ a2) = script_jobs a1 ++ script_jobs a2.
Proof. apply omap_app. Qed.

Lemma insert_chain_jobs new : script_jobs (insert_chain (Node := Node) (Account := Account) (Body := Body) new) = [].
Proof. induction new as [|[b [d|]] new IH]; done. Qed.

Lemma elem_of_insert_chain new a : a ∈ insert_chain (Node := Node) (Account := Account) (Body := Body) new →
  ∃ i b d, new !! i = Some (b, Some d)
    ∧ a = Insert (number (block (rb_ref b))) (Build_CachedBlockTrieData _ (rb_ref b) d).
Proof.
  unfold insert_chain. intros ([b o] & Hin & Ha)%list_elem_of_omap. destruct o as [d|]; [|done].
  injection Ha as <-. apply list_elem_of_lookup in Hin as [i Hi]. by exists i, b, d.
Qed.

Lemma script_ok_app c c' a1 a2 : script_ok c a1 → script_ok c' a2 →
  (∀ r, on_chain c r → on_chain c' r ∨ stale a2 (number (block r))) → script_ok c' (a1 ++ a2).
Proof.
  intros H1 H2 Hc. induction a1 as [|x a1 IH]; [done|]. cbn [script_ok app] in *. destruct H1 as [H1 Hx].
  split; [by apply IH|]. destruct x as [f|n data| |]; [| |done..].
  - destruct Hx as (r & Hr & Hle). exists r. split; [|done]. rewrite script_jobs_app, reverts_app.
    apply elem_of_app. by left.
  - destruct Hx as [Hok Hx]. split; [done|]. destruct Hok as (Hn & _). cbn in Hn.
    destruct Hx as [Hx|(f & Hf & Hle)].
    + destruct (Hc _ Hx) as [?|(f & Hf & Hle)]; [by left|]. right. exists f. rewrite elem_of_app. split; [by right|lia].
    + right. exists f. rewrite elem_of_app. split; [by left|done].
Qed.

Lemma insert_chain_ok c new : (∀ i b d, new !! i = Some (b, d) →
    c (number (block (rb_ref b))) = Some b ∧ valid b d) →
  script_ok c (insert_chain new).
Proof.
  intros Hnew. assert (Hin : ∀ a, a ∈ insert_chain new → ∃ b d,
    a = Insert (number (block (rb_ref b))) (Build_CachedBlockTrieData _ (rb_ref b) d)
    ∧ c (number (block (rb_ref b))) = Some b ∧ valid b (Some d)).
  { intros a (i & b & d & Hi & ->)%elem_of_insert_chain. exists b, d. split; [done|]. by eapply Hnew. }
  revert Hin. generalize (insert_chain new). clear Hnew. induction l as [|a l IH]; [done|]. intros Hin.
  cbn [script_ok]. split; [apply IH; intros a' Ha'; apply Hin; by right|].
  destruct (Hin a) as (b & d & -> & Hb & [Hr Hv] & Hg); [left|]. split.
  - split_and!; cbn; [done|done|by apply Hg].
  - left. by exists b.
Qed.

(** What the handlers of a change from [f] on do. *)
Record announced c (t f : Z) (new : list (blk * option diff))
    (n : ExExNotification (Node := Node) (Account := Account) (Body := Body))
    (a : list (Action (Node := Node) (Account := Account))) (u : SyncTargetState) : Prop := {
  an_jobs : script_jobs a = [u];
  an_goal : sync_of u = (λ b : blk, number (block (rb_ref b))) <$> (committed_chain n ≫= chain_tip);
  an_tip : sync_of u = match new with [] => None | _ => Some (f + Z.of_nat (length new) - 1) end;
  an_revert : if t <? f then revert_of u = None ∧ new ≠ []
    else ClearFrom f ∈ a ∧ ∃ b, c f = Some b ∧ revert_of u = Some (rb_ref b);
  an_script : script_ok (extend c f new) a;
}.

Lemma extend_below c f new n : n < f → extend (Account := Account) (Node := Node) c f new n = c n.
Proof. intros Hn. unfold extend. by rewrite (proj2 (Z.ltb_lt _ _) Hn). Qed.

Lemma extend_new c f new i : extend (Account := Account) (Node := Node) c f new (f + Z.of_nat i) = fst <$> new !! i.
Proof.
  unfold extend. rewrite (proj2 (Z.ltb_ge _ _)) by lia. f_equal. f_equal. lia.
Qed.

Lemma chain_tip_number (f : Z) (new : list (blk * option diff)) b :
  (∀ i b d, new !! i = Some (b, d) → number (block (rb_ref b)) = f + Z.of_nat i ∧ valid b d) →
  chain_tip new = Some b → new ≠ [] ∧ number (block (rb_ref b)) = f + Z.of_nat (length new) - 1 ∧ valid_blk b.
Proof.
  intros Hnew Hb. unfold chain_tip in Hb. apply fmap_Some in Hb as ([b' d] & Hl & ->).
  rewrite last_lookup in Hl. destruct (Hnew _ _ _ Hl) as [Hn [Hv _]]. cbn.
  assert (Hne : new ≠ []) by by intros ->. split_and!; [done| |done]. rewrite Hn.
  destruct new; [done|]. cbn [length]. lia.
Qed.

Lemma notification_announced c t f new n a : chain_ok c t → base < f ≤ t + 1 → announces c t f new n →
  (∀ i b d, new !! i = Some (b, d) → number (block (rb_ref b)) = f + Z.of_nat i ∧ valid b d) →
  handle_notification n = Ok a → ∃ u, announced c t f new n a u.
Proof.
  intros Hc Hf Hann Hnew Ha.
  assert (Hins : script_ok (extend c f new) (insert_chain new)).
  { apply insert_chain_ok. intros i b d Hi. destruct (Hnew _ _ _ Hi) as [Hn Hv]. split; [|done].
    rewrite Hn, extend_new, Hi. done. }
  assert (Htl : ∀ x (b : blk), script_ok (extend c f new) [Update x; FinishedHeight (block (rb_ref b))]) by done.
  assert (Htip : ∀ b, chain_tip new = Some b →
    Some (number (block (rb_ref b))) = match new with [] => None | _ => Some (f + Z.of_nat (length new) - 1) end).
  { intros b Hb. destruct (chain_tip_number f new b Hnew Hb) as (Hne & -> & _). by destruct new. }
  unfold handle_notification in Ha.
  destruct Hann as [-> Hne|old Hle Hne Hold|old Hle -> Hold]; cbn [committed_chain] in Ha.
  - unfold handle_chain_committed in Ha. cbn [mbind option_bind] in Ha.
    destruct (chain_tip new) as [b|] eqn:Hb; [|done]. cbn in Ha. injection Ha as <-.
    exists (SyncUpTo (number (block (rb_ref b)))). split.
    + rewrite <- app_assoc, script_jobs_app, insert_chain_jobs. done.
    + cbn. by rewrite Hb.
    + by apply Htip.
    + rewrite (proj2 (Z.ltb_lt _ _)) by lia. done.
    + rewrite <- app_assoc. eapply script_ok_app; [done|done|by left].
  - unfold handle_chain_reorged in Ha. destruct (negb _); [done|].
    assert (Hcf : c f ≠ None) by (apply (ch_range _ _ Hc); lia).
    rewrite Hold in Ha. destruct (c f) as [bf|] eqn:Hbf; [|done]. cbn [mbind option_bind] in Ha.
    destruct (chain_tip new) as [b|] eqn:Hb; [|done]. cbn in Ha. injection Ha as <-.
    pose proof (ch_number _ _ Hc _ _ Hbf) as Hnf.
    exists (RevertThenSync (rb_ref bf) (number (block (rb_ref b)))). split.
    + rewrite <- app_assoc. cbn -[script_jobs].
      change (ClearFrom ?x :: ?y) with ([ClearFrom x] ++ y). rewrite !script_jobs_app, insert_chain_jobs. done.
    + cbn. by rewrite Hb.
    + by apply Htip.
    + rewrite (proj2 (Z.ltb_ge _ _)) by lia. rewrite Hnf. split; [left|by exists bf].
    + rewrite <- app_assoc. cbn [app script_ok]. split; [eapply script_ok_app; [done|done|by left]|].
      exists (rb_ref bf). split; [|done]. rewrite script_jobs_app, insert_chain_jobs. left.
  - unfold handle_chain_reverted in Ha. assert (Hcf : c f ≠ None) by (apply (ch_range _ _ Hc); lia).
    rewrite Hold in Ha. destruct (c f) as [bf|] eqn:Hbf; [|done]. cbn in Ha. injection Ha as <-.
    pose proof (ch_number _ _ Hc _ _ Hbf) as Hnf. exists (Revert (rb_ref bf)). split; [done..| |].
    + rewrite (proj2 (Z.ltb_ge _ _)) by lia. rewrite Hnf. split; [left|by exists bf].
    + cbn. split_and!; [done..|]. exists (rb_ref bf). split; [left|done].
Qed.

Lemma extend_ok c t f new : chain_ok c t → base < f ≤ t + 1 →
  (∀ i b d, new !! i = Some (b, d) → number (block (rb_ref b)) = f + Z.of_nat i ∧ valid b d) →
  (∀ k b b', extend c f new k = Some b → extend c f new (k + 1) = Some b' → f ≤ k + 1 →
     parent (rb_ref b') = nhash (block (rb_ref b))) →
  chain_ok (extend c f new) (f + Z.of_nat (length new) - 1).
Proof.
  intros [C1 C2 C3 C4] Hf Hnew Hlink.
  assert (Hge : ∀ n b, f ≤ n → extend c f new n = Some b → number (block (rb_ref b)) = n ∧ valid_blk b).
  { intros n b Hn Hb. replace n with (f + Z.of_nat (Z.to_nat (n - f))) in Hb |- * by lia.
    rewrite extend_new in Hb. apply fmap_Some in Hb as ([b' d] & Hi & ->). destruct (Hnew _ _ _ Hi) as [? [? _]]. done. }
  split.
  - intros n. destruct (Z.lt_ge_cases n f) as [Hlt|Hn].
    + rewrite extend_below, C1 by done. lia.
    + replace (extend c f new n) with (fst <$> new !! Z.to_nat (n - f))
        by (rewrite <- (extend_new c f); f_equal; lia).
      rewrite fmap_None, lookup_ge_None. lia.
  - intros n b Hb. destruct (Z.lt_ge_cases n f) as [Hlt|Hn]; [|by apply Hge].
    rewrite extend_below in Hb by done. by apply C2.
  - intros n b Hb Hbase. destruct (Z.lt_ge_cases n f) as [Hlt|Hn]; [|by apply (Hge n)].
    rewrite extend_below in Hb by done. by eapply C3.
  - intros n b b' Hb Hb'. destruct (Z.lt_ge_cases (n + 1) f) as [Hlt|Hn]; [|by eapply Hlink].
    rewrite extend_below in Hb, Hb' by lia. by eapply C4.
Qed.

Lemma Inv_chain s w f new n a : Inv s w → base < f ≤ tip s + 1 → announces (can s) (tip s) f new n →
  (∀ i b d, new !! i = Some (b, d) → number (block (rb_ref b)) = f + Z.of_nat i ∧ valid b d) →
  (∀ k b b', extend (can s) f new k = Some b → extend (can s) f new (k + 1) = Some b' → f ≤ k + 1 →
     parent (rb_ref b') = nhash (block (rb_ref b))) →
  handle_notification n = Ok a →
  Inv {| target := target s; store := store s; pc := pc s; script := script s ++ a;
    can := extend (can s) f new; tip := f + Z.of_nat (length new) - 1;
    wanted := (λ b, number (block (rb_ref b))) <$> (committed_chain n ≫= chain_tip);
    revert_failed := revert_failed s |} w.
Proof.
  intros Hi Hf Hann Hnew Hlink Ha. pose proof (iv_chain _ _ Hi) as Hc.
  destruct (notification_announced _ _ _ _ _ _ Hc Hf Hann Hnew Ha) as (u & [J1 J2 J3 J4 J5]).
  set (s' := {| target := _ |}).
  assert (Hj : jobs s' = jobs s ++ [u]) by (unfold jobs, s'; cbn [target pc script]; by rewrite script_jobs_app, J1, !app_assoc).
  (* below the change, or cleared and reverted *)
  assert (Hsafe : ∀ m, safe_below m (jobs s') → safe_below m (jobs s) ∧ (can s m ≠ None → m < f)).
  { intros m. rewrite Hj, safe_below_app. intros [Hm Hu]. split; [done|]. intros Hcm%(ch_range _ _ Hc).
    destruct (Z.ltb_spec (tip s) f); [lia|]. destruct J4 as (_ & b & Hb & Hr).
    unfold safe_below, reverts in Hu. cbn in Hu. rewrite Hr in Hu. apply Forall_inv in Hu.
    by rewrite (ch_number _ _ Hc _ _ Hb) in Hu. }
  assert (Hon : ∀ r, on_chain (can s) r → on_chain (extend (can s) f new) r ∨ stale a (number (block r))).
  { intros r (b & Hb & Hr). destruct (Z.lt_ge_cases (number (block r)) f) as [Hlt|Hge].
    - left. exists b. by rewrite extend_below.
    - right. assert (Hin : can s (number (block r)) ≠ None) by by rewrite Hb.
      apply (ch_range _ _ Hc) in Hin. destruct (Z.ltb_spec (tip s) f); [lia|]. destruct J4 as [Hcl _].
      by exists f. }
  assert (Hat : ∀ r, number (block r) - 1 < f → at_parent (can s) r → at_parent (extend (can s) f new) r).
  { intros r Hr (b & Hb & Hp). exists b. by rewrite extend_below. }
  assert (Hrev : ∀ r, revert_of u = Some r → number (block r) = f ∧ ref_ok num_of r ∧ at_parent (extend (can s) f new) r).
  { intros r Hr. destruct (Z.ltb_spec (tip s) f); [destruct J4 as [J4 _]; congruence|].
    destruct J4 as (_ & b & Hb & Hrb). rewrite Hr in Hrb. injection Hrb as ->.
    pose proof (ch_number _ _ Hc _ _ Hb) as Hn. destruct (ch_valid _ _ Hc f b Hb) as [Hrok _]; [lia|].
    split_and!; [done..|].
    apply Hat; [lia|]. assert (Hp : can s (f - 1) ≠ None) by (apply (ch_range _ _ Hc); lia).
    destruct (can s (f - 1)) as [b'|] eqn:Hb'; [|done]. exists b'. rewrite Hn. split; [done|].
    symmetry. eapply (ch_linked _ _ Hc (f - 1)); [done|]. by replace (f - 1 + 1) with f by lia. }
  split; try apply Hi; cbn.
  - by apply (extend_ok _ (tip s)).
  - intros m Hm [Hs Hlt]%Hsafe. destruct (iv_states _ _ Hi m Hm Hs) as (b & Hb & Hst). exists b.
    rewrite extend_below; [done|]. apply Hlt. by rewrite Hb.
  - rewrite Hj, reverts_app. unfold reverts at 2. cbn. destruct (revert_of u) as [r|] eqn:Hr.
    + destruct (Hrev r eq_refl) as (Hn & _ & Hp). eapply anchored_changed; [apply Hi| |exact Hn|done].
      intros r' _ Hlt. apply Hat. lia.
    + rewrite app_nil_r. eapply anchored_ext; [|apply Hi]. intros r' _ Hp. apply Hat; [|done].
      destruct Hp as (b & Hb & _). destruct (Z.ltb_spec (tip s) f); [|by destruct J4 as (_ & ? & _ & ?)].
      assert (Hin : can s (number (block r') - 1) ≠ None) by by rewrite Hb. apply (ch_range _ _ Hc) in Hin. lia.
  - rewrite Hj, reverts_app. apply Forall_app. split; [apply Hi|]. unfold reverts. cbn.
    destruct (revert_of u) as [r|] eqn:Hr; [|by constructor]. destruct (Hrev r eq_refl) as (Hn & Hok & _).
    constructor; [|done]. split; [done|lia].
  - rewrite Hj, goals_app. apply Forall_app. split; [apply Hi|]. unfold goals. cbn. rewrite J2.
    destruct (committed_chain n ≫= chain_tip) as [b|] eqn:Hb; [|by constructor]. constructor; [|done].
    assert (Hv : valid_blk b); [|apply Hv].
    destruct Hann as [_ _|old _ _ _|old _ _ _]; cbn in Hb; [| |done]; by eapply chain_tip_number.
  - intros x Hx. destruct (iv_cache _ _ Hi _ Hx) as [Hok [Hx'|(g & Hg & Hle)]]; (split; [done|]).
    + destruct Hok as (Hn & _). destruct (Hon _ Hx') as [?|(g & Hg & Hle)]; [by left|]. right. exists g.
      rewrite elem_of_app. split; [by right|lia].
    + right. exists g. rewrite elem_of_app. split; [by left|done].
  - eapply script_ok_app; [apply Hi|done|done].
  - eapply pc_fits_weaken; [|apply Hi]. intros m r [Hs Hlt]%Hsafe Hm. split; [done|].
    intros (b & Hb & Hr). exists b. rewrite extend_below; [done|]. rewrite Hm. apply Hlt. rewrite <- Hm. by rewrite Hb.
Qed.

(** *** Every run *)

Lemma Inv_step s s' w : Inv s w → sys_step verification_interval valid base s s' →
  revert_failed s' = false → ∃ w', Inv s' w'.
Proof.
  intros Hi [[fault Hs]|Hs] Hf; [destruct (Inv_loop _ _ _ _ Hi Hs Hf) as (w' & ? & _); by exists w'|].
  destruct Hs as [s a rest Hs|s f new n a Hfr Hann Hnew Hlink Ha|s st Hp].
  - exists w. by apply Inv_act.
  - exists w. by apply Inv_chain.
  - destruct (Inv_prune _ _ _ Hi Hp) as (w' & ? & _). by exists w'.
Qed.

Lemma failed_for_good s s' : sys_step verification_interval valid base s s' →
  revert_failed s' = false → revert_failed s = false.
Proof.
  intros [[fault Hs]|Hs]; destruct Hs; cbn; try done; by intros [? _]%orb_false_iff.
Qed.

(** The extension starts on a store whose window is on the chain. *)
Definition on_chain_window c w : Prop := ∀ n, number (w_earliest w) ≤ n ≤ number (w_latest w) →
  ∃ b, c n = Some b ∧ w_state w n ≡ chain_state (bhash b) ∧ (n = number (w_latest w) → nhash (w_latest w) = bhash b).

Record starts s w : Prop := {
  st_holds : ph_holds (store s) w;
  st_window : window_ok num_of w;
  st_base : base ≤ number (w_earliest w);
  st_chain : chain_ok (can s) (tip s);
  st_states : on_chain_window (can s) w;
  st_target : target s = (if number (w_latest w) <? tip s
                          then Target.update_state (SyncUpTo (tip s)) Target.SyncTarget_new
                          else Target.SyncTarget_new);
  st_tip : tip s ≤ u64_max;
  st_pc : pc s = LTop;
  st_script : script s = [];
  st_wanted : wanted s = Some (tip s);
}.

Lemma starts_Inv s w : starts s w → Inv s w.
Proof.
  intros [A B C' D' F G Hu P Q _].
  assert (Hj : jobs s = if number (w_latest w) <? tip s then [SyncUpTo (tip s)] else []).
  { unfold jobs. rewrite P, Q, G. by destruct (_ <? _). }
  assert (Hca : Target.cache (target s) = []) by (rewrite G; by destruct (_ <? _)).
  assert (Hr : reverts (jobs s) = []) by (rewrite Hj; by destruct (_ <? _)).
  split; rewrite ?P, ?Q, ?Hr, ?Hca; try done.
  - intros n Hn _. by apply F.
  - rewrite Hj. by destruct (_ <? _); repeat constructor.
  - constructor.
  - by intros x []%elem_of_nil.
Qed.

Lemma reachable_Inv s0 w0 s : starts s0 w0 → rtc (sys_step verification_interval valid base) s0 s →
  revert_failed s = false → ∃ w, Inv s w.
Proof.
  intros H0'. revert s. apply (rtc_ind_r (λ s, revert_failed s = false → ∃ w, Inv s w)).
  - intros _. exists w0. by apply starts_Inv.
  - intros s1 s2 _ Hs IH Hf. destruct IH as [w Hi]; [by eapply failed_for_good|]. by eapply Inv_step.
Qed.

Lemma quiet_window s w : Inv s w → reverts (jobs s) = [] → on_chain_window (can s) w.
Proof. intros Hi Hq n Hn. apply (iv_states _ _ Hi); [done|]. unfold safe_below. by rewrite Hq. Qed.

(** C7. The proofs store never serves a state of an abandoned branch.  Take any
    interleaving of chain changes (commits, reorgs and reverts of any depth, their
    notifications arriving late), sync turns from cached data or by execution, failed
    turns, and prunes, from a store on the canonical chain.  If no revert failed so far,
    then whenever no revert is outstanding every state of the window is the canonical
    one of its block, and its latest hash is the canonical hash; in particular a proof
    request that [state_provider] accepts reads the canonical state of its block. *)
Theorem sync_serves_canonical s0 w0 s : starts s0 w0 →
  rtc (sys_step verification_interval valid base) s0 s →
  revert_failed s = false → reverts (jobs s) = [] →
  ∃ w, ph_holds (store s) w ∧ on_chain_window (can s) w ∧
    ∀ n m, state_provider (λ k, bhash <$> can s k) n (store s) = Some (Ok m) →
      m = n ∧ ∃ b, can s n = Some b ∧ w_state w n ≡ chain_state (bhash b).
Proof.
  intros H0' Hr Hf Hq. destruct (reachable_Inv _ _ _ H0' Hr Hf) as [w Hi]. exists w.
  pose proof (quiet_window _ _ Hi Hq) as Hon. split_and!; [apply Hi|done|]. intros n m Hsp. unfold state_provider in Hsp.
  destruct (law_ph_earliest _ _ (iv_holds _ _ Hi)) as [He|(x & He & _)]; rewrite He in Hsp; [|done].
  destruct (law_ph_latest _ _ (iv_holds _ _ Hi)) as [Hl|(x & Hl & _)]; rewrite Hl in Hsp; [|done].
  cbn in Hsp. destruct (Z.ltb_spec n (number (w_earliest w))), (Z.ltb_spec (number (w_latest w)) n); cbn in Hsp; try done.
  destruct (validate_canonical_anchor _ _ _); cbn in Hsp; [|done]. injection Hsp as <-. split; [done|].
  destruct (Hon n) as (b & Hb & Hst & _); [lia|]. by exists b.
Qed.
End Safety.
