(* ===== verification/SyncLiveness.v ===== *)
(** * The proofs extension catches up

    Once the handlers have nothing left to do, a loop that no fault disturbs stops, and
    then the store reaches the tip of the chain: [sync_catches_up], by a measure of
    the work that every step of the loop decreases. *)

From Stdlib Require Import Relation_Operators Lexicographic_Product Wf_nat.
From stdpp Require Import sorting.
From S2P Require Import Prelude.
From S2P Require Import Versioned.
From S2P Require Import HistoryWrites.
From S2P Require Import ProofsStore.
From S2P Require Import StoreRefinement.
From S2P Require Import StoreSafety.
From S2P Require Import Live.
From S2P Require Import SyncTarget.
From S2P Require Import ProofsSync.
From S2P Require Import SyncSafety.
#[local] Open Scope Z_scope.

Section Liveness.
Context {St E Node Account Body : Type}.
Context (exec_on : State Node Account → RecoveredBlock Body
                   → result (B256 * BlockStateDiff Node Account) (MorphProofsStorageError E)).
Context (num_of : B256 → Z).
Context `{ProofsHistoryLaws St E Node Account Body exec_on num_of}.
Abbreviation diff := (BlockStateDiff Node Account).
Abbreviation blk := (RecoveredBlock Body).
Abbreviation window := (Window (Node := Node) (Account := Account)).
Abbreviation sys := (Sys (St := St) (Node := Node) (Account := Account) (Body := Body)).
Context (verification_interval : Z).
(** The state after the block with a hash, and the oldest block considered. *)
Context (chain_state : B256 → State Node Account) (base : Z).
Implicit Types (w : window) (c : Z → option (RecoveredBlock Body)) (l : list SyncTargetState) (s : sys).

(** The definitions and lemmas of [SyncSafety] at these parameters. *)
Abbreviation valid_blk := (valid_blk exec_on num_of chain_state).
Abbreviation valid := (valid exec_on num_of chain_state).
Abbreviation chain_ok := (chain_ok exec_on num_of chain_state base).
Abbreviation on_window := (on_window chain_state).
Abbreviation batch_fits := (batch_fits exec_on num_of chain_state).
Abbreviation pc_fits := (pc_fits exec_on num_of chain_state).
Abbreviation Inv := (Inv exec_on num_of chain_state base).
Abbreviation on_chain_window := (on_chain_window chain_state).
Abbreviation starts := (starts exec_on num_of chain_state base).
Abbreviation ch_range := (ch_range exec_on num_of chain_state base).
Abbreviation ch_number := (ch_number exec_on num_of chain_state base).
Abbreviation ch_valid := (ch_valid exec_on num_of chain_state base).
Abbreviation ch_linked := (ch_linked exec_on num_of chain_state base).
Abbreviation iv_holds := (iv_holds exec_on num_of chain_state base).
Abbreviation iv_window := (iv_window exec_on num_of chain_state base).
Abbreviation iv_base := (iv_base exec_on num_of chain_state base).
Abbreviation iv_chain := (iv_chain exec_on num_of chain_state base).
Abbreviation iv_states := (iv_states exec_on num_of chain_state base).
Abbreviation iv_pc := (iv_pc exec_on num_of chain_state base).
Abbreviation iv_wakeup := (iv_wakeup exec_on num_of chain_state base).
Abbreviation batch_stored := (batch_stored exec_on num_of chain_state).
Abbreviation batch_entries := (batch_entries exec_on num_of chain_state).
Abbreviation Inv_loop := (Inv_loop exec_on num_of verification_interval chain_state base).
Abbreviation Inv_act := (Inv_act exec_on num_of verification_interval chain_state base).
Abbreviation Inv_chain := (Inv_chain exec_on num_of chain_state base).
Abbreviation Inv_prune := (Inv_prune exec_on num_of chain_state base).
Abbreviation notification_announced := (notification_announced exec_on num_of chain_state base).
Abbreviation failed_for_good := (failed_for_good exec_on num_of verification_interval chain_state base).
Abbreviation quiet_window := (quiet_window exec_on num_of chain_state base).
Abbreviation starts_Inv := (starts_Inv exec_on num_of chain_state base).

(** *** Catching up *)

(** The forward target after more states are merged into one. *)
Definition sync_step (o : option Z) (u : SyncTargetState) : option Z :=
  match u with
  | SyncUpTo t => Some match o with Some t0 => further_sync t0 t | None => t end
  | RevertThenSync _ t => Some t
  | Revert _ => None
  end.

Lemma further_sync_max a b : further_sync a b = Z.max a b.
Proof. unfold further_sync. destruct (Z.leb_spec a b); lia. Qed.

Lemma sync_step_merge o x u : sync_step o (apply_next x u) = sync_step (sync_step o x) u.
Proof. destruct x, u; cbn; try done. f_equal. destruct o; rewrite !further_sync_max; lia. Qed.

(** Whatever part of the work is done, what is left leads to [t]. *)
Fixpoint exact (t : Z) l : Prop :=
  match l with
  | [] => True
  | x :: l => foldl sync_step (sync_of x) l = Some t ∧ exact t l
  end.

Lemma exact_tail t x l : exact t (x :: l) → exact t l.
Proof. by intros [_ ?]. Qed.

Lemma exact_head t x y l : sync_of x = sync_of y → exact t (x :: l) → exact t (y :: l).
Proof. cbn. by intros ->. Qed.

Lemma exact_app t l1 l2 : exact t (l1 ++ l2) → exact t l2.
Proof. induction l1 as [|x l1 IH]; [done|]. cbn. intros [_ ?]. by apply IH. Qed.

Lemma exact_merge t l0 x u l : exact t (l0 ++ x :: u :: l) → exact t (l0 ++ apply_next x u :: l).
Proof.
  induction l0 as [|y l0 IH]; cbn [app exact].
  - intros (Hx & Hu & Hl). split; [|done]. rewrite sync_of_apply_next. cbn in Hx. exact Hx.
  - intros [Hy Hl]. split; [|by apply IH]. rewrite foldl_app in Hy |- *. cbn in *. by rewrite sync_step_merge.
Qed.

Lemma exact_snoc t t' l u : exact t l → sync_of u = Some t' → (∀ a, u = SyncUpTo a → t ≤ a) → exact t' (l ++ [u]).
Proof.
  intros Hl Hu Ha. induction l as [|x l IH]; cbn [app exact]; [done|]. destruct Hl as [Hx Hl]. split; [|by apply IH].
  rewrite foldl_app, Hx. cbn. destruct u; cbn in *; simplify_eq; try done. rewrite further_sync_max.
  specialize (Ha _ eq_refl). f_equal. lia.
Qed.

(** The jobs that count: a loop that is about to check for pending work drops its own. *)
Definition live_pc (p : Pc (Node := Node) (Account := Account) (Body := Body)) (o : option SyncTargetState)
  : list SyncTargetState :=
  match p, o with
  | (LMark _ _ | LForward _), Some _ => []
  | _, _ => pc_jobs p
  end.
Definition live_jobs s : list SyncTargetState :=
  live_pc (pc s) (Target.state (target s)) ++ option_list (Target.state (target s)) ++ script_jobs (script s).

Record Aim s w : Prop := {
  go_exact : exact (tip s) (live_jobs s);
  go_sync : Forall (λ x, sync_of x ≠ None) (jobs s);
  go_done : live_jobs s = [] → tip s ≤ number (w_latest w);
}.

Lemma live_suffix s : ∃ l, jobs s = l ++ live_jobs s.
Proof.
  unfold jobs, live_jobs. destruct (pc s), (Target.state (target s));
    first [exists []; reflexivity|eexists (pc_jobs _); reflexivity].
Qed.

Lemma live_jobs_same s t p st : live_pc p (Target.state t) = live_pc (pc s) (Target.state (target s)) →
  Target.state t = Target.state (target s) → live_jobs (goto s t st p false) = live_jobs s.
Proof. unfold live_jobs. cbn. by intros -> ->. Qed.

(** With nothing to revert, a batch is accepted. *)
Lemma batch_accepts c t l batch w : chain_ok c t → on_window c l w → reverts l = [] → window_ok num_of w →
  base ≤ number (w_earliest w) ≤ number (w_latest w) → batch_fits c l (number (w_latest w) + 1) batch →
  ∃ w', w_batch exec_on (number (w_earliest w)) batch w = Ok w'.
Proof.
  intros Hc Hon Hq. assert (Hsafe : ∀ n, safe_below n l) by (intros n; unfold safe_below; by rewrite Hq).
  revert w Hon. induction batch as [|x batch IH]; intros w Hon Hw Hel Hb; [by exists w|].
  destruct Hb as (Hnum & (Hr & Hx & Hxc) & Hb). cbn [w_batch].
  destruct (Hon (number (w_latest w))) as (b0 & Hb0 & Hst0 & Hh0); [lia|done|].
  destruct (Hxc (Hsafe _)) as (b1 & Hb1 & Href). rewrite Hnum in Hb1.
  assert (Hp : nhash (w_latest w) = parent (entry_ref x)).
  { rewrite Hh0, <- Href by done. symmetry. by eapply ch_linked. }
  assert (H1 : ∃ w1, match x with Cached r bd => w_append r bd w | Execute b => w_execute exec_on b (number (w_earliest w)) w end = Ok w1).
  { destruct x as [r bd|b]; cbn in *.
    - unfold w_append. rewrite Hp, Z.eqb_refl. cbn. by eexists.
    - unfold w_execute, parent_in_window. destruct Hx as [Hrok Hv].
      rewrite wrapping_sub_exact by (destruct Hr as (_ & _ & ?); lia).
      replace (number (block (rb_ref b)) - 1) with (number (w_latest w)) by lia.
      rewrite (proj2 (Z.ltb_ge _ _)), Z.ltb_irrefl by lia. cbn [result_bind].
      destruct (Hv (w_state w (number (w_latest w)))) as (bd & -> & _).
      { rewrite Hst0, <- Hh0, Hp; done. }
      cbn [result_bind]. rewrite Z.eqb_refl. cbn. unfold w_append. rewrite Hp, Z.eqb_refl. cbn. by eexists. }
  destruct H1 as [w1 H1]. rewrite H1. cbn [result_bind].
  destruct (batch_stored c l [x] w w1) as (Hon1 & Hw1 & He1 & Hl1); [done|done|lia|by cbn|cbn [w_batch]; by rewrite H1|].
  cbn [length] in Hl1. rewrite <- He1. apply IH; [done|done|rewrite He1, Hl1; lia|].
  rewrite Hl1. by replace (number (w_latest w) + Z.of_nat 1 + 1) with (number (w_latest w) + 1 + 1) by lia.
Qed.

(** A step that keeps the jobs that count, and the tip of the store. *)
Lemma Aim_same s w w' t st p : Aim s w → live_jobs (goto s t st p false) = live_jobs s →
  Forall (λ x, sync_of x ≠ None) (jobs (goto s t st p false)) →
  (live_jobs s = [] → w_latest w' = w_latest w) → Aim (goto s t st p false) w'.
Proof.
  intros [He Hs Hd] Hl Hj Hw. split; [by rewrite Hl|done|]. rewrite Hl. intros Hn. rewrite Hw by done. by apply Hd.
Qed.

(** A step that drops the first job that counts. *)
Lemma Aim_drop s w w' t st p x : Aim s w → live_jobs s = x :: live_jobs (goto s t st p false) →
  Forall (λ x, sync_of x ≠ None) (jobs (goto s t st p false)) →
  (live_jobs (goto s t st p false) = [] → sync_of x = Some (tip s) → tip s ≤ number (w_latest w')) →
  Aim (goto s t st p false) w'.
Proof.
  intros [He Hs Hd] Hl Hj Hw. rewrite Hl in He. split; [by eapply exact_tail|done|]. intros Hn.
  apply Hw; [done|]. rewrite Hn in He. by destruct He as [He _].
Qed.

Lemma Aim_mark s w r o : Aim s w → pc s = LMark r o →
  Aim (goto s (Target.mark_revert_complete r (target s)) (store s)
          match o with Some t => LForward t | None => LTop end false) w.
Proof.
  intros HG Hpc. pose proof (go_sync _ _ HG) as Hsy. unfold jobs in Hsy. rewrite Hpc in Hsy.
  set (p := match o with Some t => LForward t | None => LTop end).
  assert (Hpj : pc_jobs p = pc_jobs (pc s)) by (rewrite Hpc; by destruct o). rewrite Hpc in Hpj.
  assert (Hlp : ∀ x, live_pc p (Some x) = []) by by destruct o.
  unfold Target.mark_revert_complete. destruct (Target.state (target s)) as [[g|f g|f]|] eqn:Hst.
  - apply Aim_same with w; [done|unfold live_jobs; cbn; by rewrite Hpc, Hst, Hlp| |done]. unfold jobs; cbn. by rewrite Hpj, Hst.
  - destruct (revert_is_covered f r).
    2:{ apply Aim_same with w; [done|unfold live_jobs; cbn; by rewrite Hpc, Hst, Hlp| |done]. unfold jobs; cbn. by rewrite Hpj, Hst. }
    split.
    + unfold live_jobs. cbn. rewrite Hlp. pose proof (go_exact _ _ HG) as He. unfold live_jobs in He. rewrite Hpc, Hst in He.
      cbn in He |- *. exact He.
    + unfold jobs. cbn -[pc_jobs]. rewrite Hpj. apply Forall_app in Hsy as [Hs1 Hs2]. apply Forall_app. split; [done|].
      constructor; [done|]. by apply Forall_inv_tail in Hs2.
    + unfold live_jobs. cbn. by rewrite Hlp.
  - exfalso. apply Forall_app in Hsy as [_ Hsy]. by apply Forall_inv in Hsy.
  - apply Aim_same with w; [done|unfold live_jobs; cbn; rewrite Hpc, Hst; by destruct o| |done]. unfold jobs; cbn. by rewrite Hpj, Hst.
Qed.

Lemma Aim_revert s w w' r o st : Aim s w → pc s = LRevert r o → Aim (goto s (target s) st (LMark r o) false) w'.
Proof.
  intros HG Hpc. pose proof HG as [He Hsy _]. unfold jobs in Hsy. rewrite Hpc in Hsy.
  destruct o as [t|]; [|by apply Forall_inv in Hsy]. unfold live_jobs in He. rewrite Hpc in He.
  unfold live_jobs, jobs. split; cbn in *.
  - destruct (Target.state (target s)) as [x|]; cbn in *; [apply He|]. apply He.
  - constructor; [done|]. by apply Forall_inv_tail in Hsy.
  - by destruct (Target.state (target s)).
Qed.

Lemma Aim_requeue s w g : Aim s w → pc s = LRequeue g →
  Aim (goto s (Target.requeue_state (SyncUpTo g) (target s)) (store s) LTop false) w.
Proof.
  intros HG Hpc. pose proof HG as [He Hsy _]. unfold jobs in Hsy. unfold live_jobs in He. rewrite Hpc in Hsy, He.
  unfold Target.requeue_state. destruct (Target.state (target s)) as [x|] eqn:Hst; cbn [live_pc pc_jobs option_list app] in *.
  - split; unfold live_jobs, jobs; cbn -[apply_next].
    + by apply (exact_merge _ []).
    + apply Forall_inv_tail in Hsy. apply Forall_cons in Hsy as [Hx Hsy]. constructor; [|done].
      rewrite sync_of_apply_next. by destruct x.
    + done.
  - apply Aim_same with w; [done|unfold live_jobs; cbn; by rewrite Hpc, Hst| |done]. unfold jobs. by cbn.
Qed.

Lemma Aim_loop fault s s' w w' : Inv s w → Aim s w → loop_step verification_interval fault s s' →
  revert_failed s' = false → loop_moves s s' w w' → Aim s' w'.
Proof.
  intros Hi HG Hs Hf Hmv. pose proof (go_sync _ _ HG) as Hsy. unfold jobs in Hsy. unfold loop_moves in Hmv.
  destruct Hs as [s Hpc|s t Hpc Ht|s r o st Hpc Hrun|s r o st x Hpc Hrun|s r o Hpc|s g Hpc
    |s g n e l Hpc Hne|s g n e l Hpc Hne|s g n e l Hpc|s g n e l Hpc|s g l st Hpc Hrun|s g l st x Hpc Hrun|s g Hpc];
    rewrite Hpc in Hmv, Hsy; try subst w'.
  - apply Aim_same with w; [done| | |done].
    + unfold live_jobs. cbn. rewrite Hpc. by destruct (Target.state (target s)) as [[]|].
    + unfold jobs. cbn. rewrite pc_jobs_start. exact Hsy.
  - unfold Target.notified in Ht. destruct (Target.permit (target s)); [|done]. injection Ht as <-.
    apply Aim_same with w; [done|unfold live_jobs; cbn; by rewrite Hpc| |done]. unfold jobs. by cbn.
  - by eapply Aim_revert.
  - cbn in Hf. by rewrite orb_true_r in Hf.
  - by apply Aim_mark.
  - unfold forward_turn, Target.has_pending_state in *. destruct (Target.state (target s)) as [x|] eqn:Hst.
    { apply Aim_same with w; [done|unfold live_jobs; cbn; by rewrite Hpc, Hst| |done].
      unfold jobs. cbn. rewrite Hst. by apply Forall_inv_tail in Hsy. }
    assert (Hdrop : live_jobs s = SyncUpTo g :: live_jobs (goto s (target s) (store s) LTop false))
      by (unfold live_jobs; cbn; by rewrite Hpc, Hst).
    assert (Hdj : Forall (λ x, sync_of x ≠ None) (jobs (goto s (target s) (store s) LTop false)))
      by (unfold jobs; cbn; rewrite Hst; by apply Forall_inv_tail in Hsy).
    destruct (law_ph_latest _ _ (iv_holds _ _ Hi)) as [->|(x & -> & _)]; cbn [fst].
    2:{ apply Aim_same with w; [done|unfold live_jobs; cbn; by rewrite Hpc, Hst| |done]. unfold jobs. cbn. by rewrite Hst. }
    destruct (Z.leb_spec g (number (w_latest w))); cbn [fst].
    + eapply Aim_drop; [done|exact Hdrop|done|]. intros _ [= <-]. done.
    + apply Aim_same with w; [done|unfold live_jobs; cbn; by rewrite Hpc, Hst| |done]. unfold jobs. cbn. by rewrite Hst.
  - apply Aim_same with w; [done|unfold live_jobs; cbn; by rewrite Hpc| |done]. unfold jobs. by cbn.
  - apply Aim_same with w; [done| | |done].
    + unfold live_jobs. cbn. rewrite Hpc. by destruct (build_batch_entry _ _ _).
    + unfold jobs. cbn. by destruct (build_batch_entry _ _ _).
  - apply Aim_same with w; [done| | |done].
    + unfold live_jobs. cbn. rewrite Hpc. by destruct (can s n).
    + unfold jobs. cbn. by destruct (can s n).
  - apply Aim_same with w; [done|unfold live_jobs; cbn; by rewrite Hpc| |done]. unfold jobs. by cbn.
  - destruct (Target.state (target s)) as [x|] eqn:Hst.
    + eapply Aim_drop; [done|unfold live_jobs; cbn; rewrite Hpc, Hst; reflexivity|unfold jobs; cbn; by rewrite Hst|].
      unfold live_jobs. cbn. by rewrite Hst.
    + apply Aim_same with w; [done|unfold live_jobs; cbn; by rewrite Hpc, Hst|unfold jobs; cbn; by rewrite Hst|].
      unfold live_jobs. by rewrite Hpc, Hst.
  - destruct (is_retryable_sync_error x) eqn:Hx.
    { apply Aim_same with w; [done|unfold live_jobs; cbn; by rewrite Hpc|unfold jobs; by cbn|].
      unfold live_jobs. by rewrite Hpc. }
    destruct Hmv as [[-> _]|[Hj _]]; [|done].
    eapply Aim_drop; [done|unfold live_jobs; cbn; rewrite Hpc; reflexivity|unfold jobs; cbn; by apply Forall_inv_tail in Hsy|].
    intros Hnil _. exfalso.
    pose proof (iv_pc _ _ Hi) as Hp. rewrite Hpc in Hp. destruct Hp as (_ & _ & Hb).
    pose proof (law_ph_window _ _ (iv_holds _ _ Hi)). pose proof (iv_base _ _ Hi).
    assert (Hq : reverts (jobs s) = []).
    { unfold live_jobs in Hnil. cbn [goto pc target script live_pc pc_jobs app] in Hnil. unfold jobs. rewrite Hpc.
      cbn [pc_jobs app]. by rewrite Hnil. }
    destruct (batch_accepts _ _ _ _ _ (iv_chain _ _ Hi) (iv_states _ _ Hi) Hq (iv_window _ _ Hi) ltac:(lia) Hb) as [w' Hw'].
    destruct (law_ph_batch l _ _ (iv_holds _ _ Hi) (iv_window _ _ Hi) (batch_entries _ _ _ _ Hb)) as (st' & r & Hrun' & Hr).
    rewrite Hrun in Hrun'. injection Hrun' as <- <-. destruct Hr as [[[?|[y [= ->]]] _]|(_ & x' & [= <-] & [Hx'|Hx'])].
    + done.
    + done.
    + congruence.
    + by destruct x.
  - by apply Aim_requeue.
Qed.

Lemma Aim_act s w a rest : Aim s w → script s = a :: rest →
  Aim {| target := act a (target s); store := store s; pc := pc s; script := rest; can := can s; tip := tip s;
          wanted := wanted s; revert_failed := revert_failed s |} w.
Proof.
  intros [He Hsy Hd] Hs. unfold jobs, live_jobs in He, Hsy, Hd. rewrite Hs in He, Hsy, Hd.
  destruct a as [f|n data|u|b]; try (split; done). unfold act, Target.update_state.
  destruct (Target.state (target s)) as [x|] eqn:Hst.
  - split; unfold jobs, live_jobs; cbn -[apply_next script_jobs] in *.
    + assert (Hlp : ∀ y, live_pc (pc s) (Some y) = live_pc (pc s) (Some x)) by by destruct (pc s).
      rewrite Hlp. by apply exact_merge.
    + apply Forall_app in Hsy as [H1 H2]. apply Forall_app. split; [done|].
      apply Forall_cons in H2 as [Hx H2]. apply Forall_cons in H2 as [Hu H2]. constructor; [|done].
      rewrite sync_of_apply_next. by destruct u.
    + by intros [_ ?]%app_nil.
  - split; unfold jobs, live_jobs; cbn -[script_jobs pc_jobs live_pc] in *.
    + assert (Hlp : live_pc (pc s) (Some u) = live_pc (pc s) None ∨ live_pc (pc s) (Some u) = [])
        by (destruct (pc s); by auto).
      destruct Hlp as [->| ->]; [exact He|]. by eapply exact_app.
    + exact Hsy.
    + by intros [_ ?]%app_nil.
Qed.

Lemma Aim_chain s w f new n a : Inv s w → Aim s w → base < f ≤ tip s + 1 → announces (can s) (tip s) f new n →
  (∀ i b d, new !! i = Some (b, d) → number (block (rb_ref b)) = f + Z.of_nat i ∧ valid b d) →
  handle_notification n = Ok a → committed_chain n ≫= chain_tip ≠ None →
  Aim {| target := target s; store := store s; pc := pc s; script := script s ++ a;
    can := extend (can s) f new; tip := f + Z.of_nat (length new) - 1;
    wanted := (λ b, number (block (rb_ref b))) <$> (committed_chain n ≫= chain_tip);
    revert_failed := revert_failed s |} w.
Proof.
  intros Hi [He Hsy Hd] Hf Hann Hnew Ha Hw. pose proof (iv_chain _ _ Hi) as Hc.
  destruct (notification_announced _ _ _ _ _ _ Hc Hf Hann Hnew Ha) as (u & [J1 J2 J3 J4 J5]).
  set (s' := {| target := _ |}).
  assert (Hj : jobs s' = jobs s ++ [u]) by (unfold jobs, s'; cbn [target pc script]; by rewrite script_jobs_app, J1, !app_assoc).
  assert (Hl : live_jobs s' = live_jobs s ++ [u])
    by (unfold live_jobs, s'; cbn [target pc script]; by rewrite script_jobs_app, J1, !app_assoc).
  assert (Hne : new ≠ []).
  { intros ->. rewrite J3 in J2. by destruct (committed_chain n ≫= chain_tip). }
  assert (Hu : sync_of u = Some (f + Z.of_nat (length new) - 1)) by (rewrite J3; by destruct new).
  split.
  - rewrite Hl. eapply exact_snoc; [exact He|exact Hu|]. intros t' ->. cbn in Hu. injection Hu as ->.
    destruct (Z.ltb_spec (tip s) f); [|by destruct J4 as (_ & ? & _ & ?)]. destruct new; [done|]. cbn [length]. lia.
  - rewrite Hj. apply Forall_app. split; [done|]. constructor; [by rewrite Hu|done].
  - rewrite Hl. by destruct (live_jobs s).
Qed.

(** Steps of a chain that is only ever extended or reorganized. *)
Definition live_step s s' : Prop := sys_step verification_interval valid base s s' ∧ wanted s' ≠ None.

Lemma live_reachable s0 w0 s : starts s0 w0 → rtc live_step s0 s → revert_failed s = false → ∃ w, Inv s w ∧ Aim s w.
Proof.
  intros H0'. revert s. apply (rtc_ind_r (λ s, revert_failed s = false → ∃ w, Inv s w ∧ Aim s w)).
  - intros _. exists w0. split; [by apply starts_Inv|]. destruct H0' as [A B C' D' F G Hu P Q W].
    split; unfold live_jobs, jobs; rewrite P, Q, G; destruct (Z.ltb_spec (number (w_latest w0)) (tip s0)); cbn; try done.
    all: by repeat constructor.
  - intros s1 s2 _ [Hs Hw] IH Hf. destruct IH as (w & Hi & HG); [by eapply failed_for_good|].
    destruct Hs as [[fault Hs]|Hs].
    + destruct (Inv_loop _ _ _ _ Hi Hs Hf) as (w' & Hi' & Hmv). exists w'. split; [done|].
      exact (Aim_loop _ _ _ _ _ Hi HG Hs Hf Hmv).
    + destruct Hs as [s a rest Hs|s f new n a Hfr Hann Hnew Hlink Ha|s st Hp].
      * exists w. split; [by apply Inv_act|by apply Aim_act].
      * exists w. split; [by apply Inv_chain|]. apply Aim_chain; try done. cbn in Hw. intros Hn. by rewrite Hn in Hw.
      * destruct (Inv_prune _ _ _ Hi Hp) as (w' & Hi' & Hl). exists w'. split; [done|].
        destruct HG as [He Hsy Hd]. split; [done..|]. intros Hn. rewrite Hl. by apply Hd.
Qed.

(** *** The loop left alone *)

(** Reverts to do, blocks and jobs to go, and the place in the loop. *)
Definition max_goal l : Z := foldr Z.max 0 (goals l).
Definition place (p : Pc (Node := Node) (Account := Account) (Body := Body)) (o : option SyncTargetState) : nat :=
  match p with
  | LRequeue _ => match o with Some _ => 3 | None => 200 end
  | LMark _ _ => 9 | LTop => 8 | LRevert _ _ => 7 | LForward _ => 6
  | LBuild _ _ _ _ | LFetch _ _ _ _ => 5 | LStore _ _ => 4 | LWait => 1
  end.
Definition build_left (p : Pc (Node := Node) (Account := Account) (Body := Body)) : nat :=
  match p with
  | LBuild _ n e _ => 2 * Z.to_nat (e + 1 - n)
  | LFetch _ n e _ => 2 * Z.to_nat (e + 1 - n) - 1
  | _ => 0
  end.
Definition effort (p : Pc (Node := Node) (Account := Account) (Body := Body)) (o : option SyncTargetState)
    (permit : bool) (latest : Z) : nat * (nat * nat) :=
  let l := pc_jobs p ++ option_list o in
  (length (reverts l),
   ((Z.to_nat (max_goal l - latest) * 4000 + length l * 1000 + (if permit then 100 else 0) + place p o)%nat,
    build_left p)).
Definition effort_of s w : nat * (nat * nat) :=
  effort (pc s) (Target.state (target s)) (Target.permit (target s)) (number (w_latest w)).

Definition less : relation (nat * (nat * nat)) := slexprod _ _ lt (slexprod _ _ lt lt).
Lemma less_wf : well_founded less.
Proof. apply wf_slexprod; [apply lt_wf|]. apply wf_slexprod; apply lt_wf. Qed.

Lemma less_left (a b k a' b' k' : nat) : (a' < a)%nat → less (a', (b', k')) (a, (b, k)).
Proof. apply left_slex. Qed.
Lemma less_mid (a b k b' k' : nat) : (b' < b)%nat → less (a, (b', k')) (a, (b, k)).
Proof. intros. apply right_slex. by apply left_slex. Qed.
Lemma less_right (a b k k' : nat) : (k' < k)%nat → less (a, (b, k')) (a, (b, k)).
Proof. intros. apply right_slex. by apply right_slex. Qed.

Lemma fetch_missing s w g n e batch : Inv s w → Aim s w → script s = [] → pc s = LFetch g n e batch →
  can s n = None → Target.state (target s) ≠ None.
Proof.
  intros Hi [He _ _] Hs Hpc Hn Hst. unfold live_jobs in He. rewrite Hpc, Hs, Hst in He. destruct He as [[= He] _].
  pose proof (iv_pc _ _ Hi) as Hp. rewrite Hpc in Hp. destruct Hp as (Hnl & Hne & Hl & _).
  pose proof (law_ph_window _ _ (iv_holds _ _ Hi)). pose proof (iv_base _ _ Hi).
  assert (Hr : can s n ≠ None) by (apply (ch_range _ _ (iv_chain _ _ Hi)); lia). done.
Qed.

Lemma effort_mark p q r o permit latest : pc_jobs q = pc_jobs p → (place q None < place p None)%nat →
  (∀ x, place q (Some x) < place p (Some x))%nat → build_left p = 0%nat → build_left q = 0%nat →
  less (let t := Target.mark_revert_complete (Data := diff) r (Target.Build_SyncTarget [] o permit) in
        effort q (Target.state t) (Target.permit t) latest)
    (effort p o permit latest).
Proof.
  intros Hj Hp1 Hp2 Hb1 Hb2. unfold Target.mark_revert_complete. cbn [Target.state].
  assert (Hsame : less (effort q o permit latest) (effort p o permit latest)).
  { unfold effort. rewrite Hj. apply less_mid. destruct o as [x|]; [specialize (Hp2 x)|]; lia. }
  destruct o as [[g|f g|f]|]; [exact Hsame| | |exact Hsame].
  - destruct (revert_is_covered f r); [|exact Hsame]. unfold effort. cbn. rewrite Hj. apply less_left.
    rewrite !reverts_app, !length_app. cbn. lia.
  - destruct (revert_is_covered f r); [|exact Hsame]. unfold effort. cbn. rewrite Hj. apply less_left.
    rewrite app_nil_r, !reverts_app, !length_app. cbn. lia.
Qed.

Lemma effort_drop p q g o permit latest : pc_jobs p = [SyncUpTo g] → pc_jobs q = [] →
  (place q o < 1000 + place p o)%nat → less (effort q o permit latest) (effort p o permit latest).
Proof.
  intros Hp Hq Hpl. unfold effort. rewrite Hp, Hq. cbn [app].
  replace (reverts (SyncUpTo g :: option_list o)) with (reverts (option_list o)) by done.
  assert (max_goal (option_list o) ≤ max_goal (SyncUpTo g :: option_list o)) by (unfold max_goal, goals; cbn; lia).
  apply less_mid. cbn [length]. destruct permit; lia.
Qed.

Lemma effort_requeue g (t : Target.SyncTarget diff) latest :
  less (effort LTop (Target.state (Target.requeue_state (SyncUpTo g) t)) (Target.permit (Target.requeue_state (SyncUpTo g) t)) latest)
    (effort (LRequeue g) (Target.state t) (Target.permit t) latest).
Proof.
  unfold effort, Target.requeue_state. cbn [Target.state Target.permit pc_jobs option_list app].
  destruct (Target.state t) as [x|]; cbn [option_list].
  - change (option_list (Some ?y)) with [y].
    replace (length (reverts [apply_next (SyncUpTo g) x])) with (length (reverts [SyncUpTo g; x])) by by destruct x.
    assert (max_goal [apply_next (SyncUpTo g) x] ≤ max_goal [SyncUpTo g; x]).
    { unfold max_goal, goals. cbn [omap list_omap]. rewrite sync_of_apply_next.
      destruct x; cbn; rewrite ?further_sync_max; lia. }
    apply less_mid. cbn [length place]. destruct (Target.permit t); lia.
  - apply less_mid. cbn. destruct (Target.permit t); lia.
Qed.

Lemma effort_decreases s s' w w' : Inv s w → Aim s w → script s = [] →
  loop_step verification_interval false s s' → loop_moves s s' w w' →
  less (effort_of s' w') (effort_of s w).
Proof.
  intros Hi HG Hsc Hs Hmv. unfold loop_moves in Hmv. unfold effort_of.
  remember false as fault eqn:Hfa.
  destruct Hs as [s Hpc|s t Hpc Ht|s r o st Hpc Hrun|s r o st x Hpc Hrun|s r o Hpc|s g Hpc
    |s g n e l Hpc Hne|s g n e l Hpc Hne|s g n e l Hpc|s g n e l Hpc|s g l st Hpc Hrun|s g l st x Hpc Hrun|s g Hpc];
    rewrite Hpc in *; try done; try subst w'; cbn [goto pc target].
  - cbn. unfold effort. rewrite pc_jobs_start, app_nil_r. apply less_mid.
    destruct (Target.state (target s)) as [[]|]; cbn; lia.
  - unfold Target.notified in Ht. destruct (Target.permit (target s)); [|done]. injection Ht as <-. cbn.
    unfold effort. apply less_mid. cbn. lia.
  - unfold effort. destruct o as [t|]; apply less_left; cbn; lia.
  - assert (He : ∀ q, Target.mark_revert_complete r (target s) = q →
      Target.state q = Target.state (Target.mark_revert_complete (Data := diff) r
        (Target.Build_SyncTarget [] (Target.state (target s)) (Target.permit (target s))))
      ∧ Target.permit q = Target.permit (Target.mark_revert_complete (Data := diff) r
        (Target.Build_SyncTarget [] (Target.state (target s)) (Target.permit (target s))))).
    { intros q <-. unfold Target.mark_revert_complete. cbn.
      destruct (Target.state (target s)) as [[]|] eqn:Hst; cbn; rewrite ?Hst; try done; by destruct (revert_is_covered _ _); cbn; rewrite ?Hst. }
    destruct (He _ eq_refl) as [-> ->]. by destruct o; apply effort_mark; try done; intros; cbn; lia.
  - unfold forward_turn, Target.has_pending_state in *. destruct (Target.state (target s)) as [x|] eqn:Hst.
    { unfold effort. cbn [fst pc_jobs app option_list]. 
      replace (reverts (SyncUpTo g :: [x])) with (reverts [x]) by done. apply less_mid.
      unfold max_goal, goals. cbn. destruct (sync_of x); cbn; lia. }
    destruct (ph_latest (store s)) as [[nh|]|]; cbn [fst snd] in *; [|unfold effort; apply less_mid; cbn; lia|done].
    destruct (g <=? number nh); cbn [fst snd] in *; unfold effort; apply less_mid; cbn; lia.
  - unfold effort. apply less_mid. cbn. lia.
  - pose proof (iv_pc _ _ Hi) as Hp. rewrite Hpc in Hp. destruct Hp as (Hn & He & Hlt & _). cbn [Target.take fst snd].
    unfold effort. destruct (build_batch_entry _ _ _); apply less_right; cbn; lia.
  - pose proof (iv_pc _ _ Hi) as Hp. rewrite Hpc in Hp. destruct Hp as (Hn & He & Hlt & _).
    destruct (can s n) as [b|] eqn:Hcn.
    + unfold effort. apply less_right. cbn. lia.
    + destruct (Target.state (target s)) as [x|] eqn:Hst; [|by destruct (fetch_missing _ _ _ _ _ _ Hi HG Hsc Hpc Hcn)].
      unfold effort. apply less_mid. cbn. lia.
  - destruct Hmv as [[-> Hmv]|[_ Hmv]].
    + by destruct Hmv.
    + unfold effort. apply less_mid. cbn [pc_jobs app].
      assert (g ≤ max_goal (SyncUpTo g :: option_list (Target.state (target s)))) by (unfold max_goal, goals; cbn; lia).
      cbn [place]. destruct (Target.permit (target s)); lia.
  - rewrite Hfa in Hmv |- *. cbn [goto pc] in Hmv. destruct Hmv as [[-> _]|[? _]]; [|done]. apply (effort_drop _ _ g); cbn; lia || done.
  - apply effort_requeue.
Qed.

(** A loop that is not waiting for a notification has a step. *)
Lemma loop_progress s w : Inv s w → (pc s = LWait → Target.permit (target s) = true) →
  ∃ fault s', loop_step verification_interval fault s s'.
Proof.
  intros Hi Hw. destruct (pc s) as [| |r o|r o|g|g n e batch|g n e batch|g batch|g] eqn:Hpc.
  - do 2 eexists. by apply step_take.
  - specialize (Hw eq_refl). do 2 eexists. eapply step_wake; [done|]. unfold Target.notified. by rewrite Hw.
  - assert (Hrun : ∃ st res, handle_revert r (store s) = Some (st, res)).
    { unfold handle_revert. destruct (ph_latest (store s)) as [[latest|]|]; eauto.
      destruct (_ <=? _); [|eauto]. destruct (law_ph_unwind r _ _ (iv_holds _ _ Hi)) as (st & res & -> & _). eauto. }
    destruct Hrun as (st & [[]|x] & Hrun); do 2 eexists; [by eapply step_revert|by eapply step_revert_failed].
  - do 2 eexists. by eapply step_mark.
  - do 2 eexists. by eapply step_forward.
  - destruct (Z.lt_ge_cases e n); do 2 eexists; [by eapply step_built|by eapply step_build].
  - do 2 eexists. by eapply step_fetch.
  - pose proof (iv_pc _ _ Hi) as Hp. rewrite Hpc in Hp. destruct Hp as (_ & _ & Hb).
    destruct (law_ph_batch batch _ _ (iv_holds _ _ Hi) (iv_window _ _ Hi) (batch_entries _ _ _ _ Hb)) as (st & [[]|x] & Hrun & _);
      do 2 eexists; [by eapply step_store|by eapply step_store_failed].
  - do 2 eexists. by eapply step_requeue.
Qed.

Definition quiet_step s s' : Prop := loop_step verification_interval false s s'.

Record resting s w : Prop := { rs_inv : Inv s w; rs_aim : Aim s w; rs_script : script s = []; rs_failed : revert_failed s = false }.

Lemma resting_step s w s' : resting s w → quiet_step s s' → ∃ w', resting s' w' ∧ less (effort_of s' w') (effort_of s w).
Proof.
  intros [Hi HG Hs Hf] Hst.
  assert (Hkeep : script s' = script s ∧ revert_failed s' = false).
  { unfold quiet_step in Hst. inversion Hst; subst; cbn; by rewrite ?Hf. }
  destruct Hkeep as [Hs' Hf']. destruct (Inv_loop _ _ _ _ Hi Hst Hf') as (w' & Hi' & Hmv). exists w'. split.
  - split; [done| |congruence|done]. exact (Aim_loop _ _ _ _ _ Hi HG Hst Hf' Hmv).
  - by eapply effort_decreases.
Qed.

Lemma resting_terminates s w : resting s w → Acc (flip quiet_step) s.
Proof.
  remember (effort_of s w) as k eqn:Hk. revert s w Hk. induction (less_wf k) as [k _ IH].
  intros s w -> Hr. constructor. intros s' Hs'. destruct (resting_step _ _ _ Hr Hs') as (w' & Hr' & Hl). by eapply IH.
Qed.

Lemma resting_run s w s' : rtc quiet_step s s' → resting s w → ∃ w', resting s' w'.
Proof.
  intros Hr. revert w. induction Hr as [s|s s1 s' Hs _ IH]; intros w Hre; [by exists w|].
  destruct (resting_step _ _ _ Hre Hs) as (w1 & Hre1 & _). by eapply IH.
Qed.

Lemma resting_stuck s w : resting s w → (∀ fault s', ¬ loop_step verification_interval fault s s') →
  on_chain_window (can s) w ∧ number (w_latest w) = tip s.
Proof.
  intros [Hi HG Hs _] Hstuck.
  assert (Hw : pc s = LWait ∧ Target.state (target s) = None).
  { assert (Hno : ¬ (pc s = LWait → Target.permit (target s) = true)).
    { intros Hp. destruct (loop_progress _ _ Hi Hp) as (fault & s' & Hst). by destruct (Hstuck fault s'). }
    assert (Hpc : pc s = LWait) by (destruct (pc s); [|done|..]; by destruct Hno).
    split; [done|]. destruct (Target.state (target s)) eqn:Hst; [|done]. destruct Hno. intros _.
    apply (iv_wakeup _ _ Hi); [done|by rewrite Hst]. }
  destruct Hw as [Hpc Hst]. assert (Hj : jobs s = []) by (unfold jobs; by rewrite Hpc, Hst, Hs).
  assert (Hl : live_jobs s = []) by (unfold live_jobs; by rewrite Hpc, Hst, Hs).
  pose proof (quiet_window _ _ Hi ltac:(by rewrite Hj)) as Hon. split; [done|].
  pose proof (go_done _ _ HG Hl). pose proof (law_ph_window _ _ (iv_holds _ _ Hi)).
  destruct (Hon (number (w_latest w))) as (b & Hb & _); [lia|].
  assert (Hr : can s (number (w_latest w)) ≠ None) by by rewrite Hb.
  apply (ch_range _ _ (iv_chain _ _ Hi)) in Hr. lia.
Qed.

(** C8. The proofs store catches up with the chain.  Take any run, faults and prunes
    included, in which the chain is extended and reorganized and no revert failed, and
    stop it once the handlers have nothing left to do.  If from then on neither the
    store nor the provider fails, the loop takes finitely many steps, however the
    choices left to it fall; and when it can take no more, it waits for a notification
    and the window of the store is canonical and ends at the tip of the chain. *)
Theorem sync_catches_up s0 w0 s : starts s0 w0 → rtc live_step s0 s → revert_failed s = false → script s = [] →
  Acc (flip quiet_step) s ∧
  ∀ s', rtc quiet_step s s' → (∀ fault s2, ¬ loop_step verification_interval fault s' s2) →
    ∃ w, ph_holds (store s') w ∧ on_chain_window (can s') w ∧ number (w_latest w) = tip s'.
Proof.
  intros H0' Hr Hf Hs. destruct (live_reachable _ _ _ H0' Hr Hf) as (w & Hi & HG).
  assert (Hre : resting s w) by done. split; [by eapply resting_terminates|].
  intros s' Hr' Hstuck. destruct (resting_run _ _ _ Hr' Hre) as [w' Hre']. exists w'.
  split; [apply (iv_holds _ _ (rs_inv _ _ Hre'))|]. by apply resting_stuck.
Qed.
End Liveness.
