(* ===== verification/SyncStore.v ===== *)
(** * The proofs extension on its store

    The store of [ProofsStore], driven through the collector of [Live], has the laws
    [ProofsHistoryLaws] that the guarantees of the extension rely on.  Module
    [Samples] runs the whole on a small chain, and shows how a revert that the store
    refuses leaves it with states of two branches. *)

From stdpp Require Import sorting.
From S2P Require Import Prelude.
From S2P Require Import Versioned.
From S2P Require Import HistoryWrites.
From S2P Require Import ProofsStore.
From S2P Require Import StoreRefinement.
From S2P Require Import StoreSafety.
From S2P Require Import Live.
From S2P Require Import SyncTarget.
From S2P Require Import ProofsSync.
From S2P Require Import SyncSafety.
From S2P Require Import SyncLiveness.
#[local] Open Scope Z_scope.

Section Instance.
Context {Tb C Pt : Type → Type → Type} {E Node Account Body : Type}.
Context `{DupDbLaws Tb C E, PlainDbLaws Pt E}.
Abbreviation db := (Db Tb Pt Node Account).
Abbreviation diff := (BlockStateDiff Node Account).
Abbreviation err := (MorphProofsStorageError E).
Context `{TxOps db E}.
Context (fuel : db → diff → nat).
Context (execute : db → Z → RecoveredBlock Body → result (B256 * diff) err).
Context (exec_on : State Node Account → RecoveredBlock Body → result (B256 * diff) err).
Context (num_of : B256 → Z).
Hypothesis Hfuel : ∀ d bd, append_fuel d bd (fuel d bd).
Hypothesis Hexec : ∀ d w n b, represents d w → number (w_earliest w) ≤ n ≤ number (w_latest w) →
  execute d n b = exec_on (w_state w n) b ∨ ∃ x, execute d n b = Err x ∧ retryable x.
Hypothesis Hexec_wf : ∀ s b root bd, exec_on s b = Ok (root, bd) → diff_wf bd.

(** The pruner runs beside the loop, one transaction at a time. *)
Definition db_history : ProofsHistory db E Node Account Body := {|
  ph_earliest := inner_get_earliest_block_number_hash;
  ph_latest := inner_get_latest_block_number_hash;
  ph_unwind := collector_unwind_history;
  ph_batch := execute_and_store_batch fuel execute;
  ph_prunes d d' := ∃ n r res, prune_fuel d n ∧ prune_earliest_state n r d = Some (d', res) |}.

Lemma prune_shortens r (w w' : Window (Node := Node) (Account := Account)) : w_prune (E := E) r w = Ok w' → number (w_earliest w) ≤ number (w_latest w) →
  shortened w w' ∧ number (w_earliest w') ≤ number (w_latest w').
Proof.
  unfold w_prune. intros Hp Hw. destruct (Z.ltb_spec (number (w_latest w)) (number (block r))); [done|].
  destruct (Z.leb_spec (number (block r)) (number (w_earliest w))); injection Hp as <-; cbn;
    (split; [split_and!; cbn; done || lia|lia]).
Qed.

Definition db_history_laws : @ProofsHistoryLaws db E Node Account Body db_history exec_on num_of.
Proof.
  refine {| ph_holds := represents |}.
  - intros d w Hr. apply (si_window _ _ _ (proj1 Hr)).
  - intros d w Hr. cbn. unfold inner_get_earliest_block_number_hash, inner_get_block_number_hash.
    pose proof (law_p_seek_exact EarliestBlock (ProofWindow d)) as He.
    destruct (p_seek_exact EarliestBlock _) as [o|y]; cbn in He |- *; [left|right; by eexists].
    rewrite (si_earliest _ _ _ (proj1 Hr)) in He. by subst o.
  - intros d w Hr. cbn. destruct (get_latest_spec d _ _ (proj1 Hr)) as ([o|x] & [= ->] & Ho); [subst; by left|].
    right. destruct Ho as [y ->]. by eexists.
  - intros to d w Hr. exact (unwind_commits to d w Hr).
  - intros blocks d w. exact (batch_commits fuel execute exec_on num_of Hfuel Hexec Hexec_wf blocks d w).
  - intros d d' w Hr (n & r & res & Hn & Hp).
    destruct (commit_update_commits _ _ _ (prune_implements n r d w Hr Hn)) as (d1 & res1 & Hrun & Hres).
    pose proof (si_window _ _ _ (proj1 Hr)) as Hw.
    unfold prune_earliest_state in Hp. rewrite Hrun in Hp. injection Hp as -> ->. destruct res as [c|x].
    + destruct Hres as (w' & Hw' & Hr'). exists w'. split; [done|]. eapply prune_shortens; [done|lia].
    + destruct Hres as [-> _]. exists w. split_and!; [done..|]. lia.
Defined.
End Instance.

(** ** Running the loop *)

Section Running.
Context {St E Node Account Body : Type} `{ProofsHistory St E Node Account Body}.
Abbreviation sys := (Sys (St := St) (Node := Node) (Account := Account) (Body := Body)).
Context (verification_interval : Z).

(** The step of the loop when the provider answers. *)
Definition loop_next (s : sys) : option (bool * sys) :=
  match pc s with
  | LTop => Some (false, goto s (Target.take_state (target s)).1 (store s) (start (Target.take_state (target s)).2) false)
  | LWait => (λ t, (false, goto s t (store s) LTop false)) <$> Target.notified (target s)
  | LRevert r o =>
      match handle_revert r (store s) with
      | Some (st, Ok _) => Some (false, goto s (target s) st (LMark r o) false)
      | Some (st, Err _) => Some (true, goto s (target s) st LTop true)
      | None => None
      end
  | LMark r o => Some (false, goto s (Target.mark_revert_complete r (target s)) (store s)
                                match o with Some t => LForward t | None => LTop end false)
  | LForward g => Some ((forward_turn g (target s) (store s)).2,
                        goto s (target s) (store s) (forward_turn g (target s) (store s)).1 false)
  | LBuild g n e l =>
      Some (false,
        if e <? n then goto s (target s) (store s) (LStore g l) false
        else goto s (Target.take n (target s)).1 (store s)
               match build_batch_entry verification_interval n (Target.take n (target s)).2 with
               | Some x => LBuild g (n + 1) e (l ++ [x])
               | None => LFetch g n e l
               end false)
  | LFetch g n e l => Some (false, goto s (target s) (store s)
      match can s n with Some b => LBuild g (n + 1) e (l ++ [Execute b]) | None => LRequeue g end false)
  | LStore g l =>
      match ph_batch l (store s) with
      | Some (st, Ok _) => Some (false, goto s (target s) st (LForward g) false)
      | Some (st, Err x) => Some (is_retryable_sync_error x,
          goto s (target s) st (if is_retryable_sync_error x then LRequeue g else LTop) false)
      | None => None
      end
  | LRequeue g => Some (false, goto s (Target.requeue_state (SyncUpTo g) (target s)) (store s) LTop false)
  end.

Lemma loop_next_sound s fault s' : loop_next s = Some (fault, s') → loop_step verification_interval fault s s'.
Proof.
  unfold loop_next. destruct (pc s) as [| |r o|r o|g|g n e l|g n e l|g l|g] eqn:Hpc.
  - intros [= <- <-]. by apply step_take.
  - intros (t & Ht & [= -> ->])%fmap_Some. by apply step_wake.
  - destruct (handle_revert r (store s)) as [[st [[]|x]]|] eqn:Hr; intros [= <- <-];
      [by eapply step_revert|by eapply step_revert_failed].
  - intros [= <- <-]. by eapply step_mark.
  - intros [= <- <-]. by eapply step_forward.
  - intros [= <- <-]. destruct (Z.ltb_spec e n); [by eapply step_built|by eapply step_build].
  - intros [= <- <-]. by eapply step_fetch.
  - destruct (ph_batch l (store s)) as [[st [[]|x]]|] eqn:Hr; intros [= <- <-];
      [by eapply step_store|by eapply step_store_failed].
  - intros [= <- <-]. by eapply step_requeue.
Qed.

(** What the handlers do next. *)
Definition act_next (s : sys) : option sys :=
  match script s with
  | [] => None
  | a :: l => Some {| target := act a (target s); store := store s; pc := pc s; script := l;
      can := can s; tip := tip s; wanted := wanted s; revert_failed := revert_failed s |}
  end.

(** The handlers first, then the loop. *)
Fixpoint settle (n : nat) (s : sys) : sys :=
  match n with
  | O => s
  | S n =>
      match act_next s with
      | Some s => settle n s
      | None => match loop_next s with Some (_, s) => settle n s | None => s end
      end
  end.

Lemma settle_reaches valid base n s : rtc (sys_step verification_interval valid base) s (settle n s).
Proof.
  revert s. induction n as [|n IH]; intros s; [done|]. cbn [settle]. unfold act_next.
  destruct (script s) as [|a l] eqn:Hs.
  - destruct (loop_next s) as [[fault s']|] eqn:Hl; [|done]. eapply rtc_l; [|apply IH].
    left. exists fault. by apply loop_next_sound.
  - eapply rtc_l; [|apply IH]. right. by apply step_act.
Qed.

(** The chain continued from [f] on by [new]. *)
Definition notify (f : Z) (new : list (RecoveredBlock Body * option (BlockStateDiff Node Account)))
    (n : ExExNotification) (s : sys) : sys :=
  match handle_notification n with
  | Err _ => s
  | Ok l => {| target := target s; store := store s; pc := pc s; script := script s ++ l;
      can := extend (can s) f new; tip := f + Z.of_nat (length new) - 1;
      wanted := (λ b : RecoveredBlock Body, number (block (rb_ref b))) <$> (committed_chain n ≫= chain_tip);
      revert_failed := revert_failed s |}
  end.

(** Blocks that follow one another. *)
Fixpoint chained (h : B256) (new : list (RecoveredBlock Body * option (BlockStateDiff Node Account))) : Prop :=
  match new with
  | [] => True
  | (b, _) :: new => parent (rb_ref b) = h ∧ chained (bhash b) new
  end.

Lemma chained_lookup h new i b d : chained h new → new !! i = Some (b, d) →
  parent (rb_ref b) = match i with O => h | S i => default h ((λ x, bhash x.1) <$> new !! i) end.
Proof.
  revert h i. induction new as [|[b0 d0] new IH]; intros h i; [done|]. intros [Hp Hc].
  destruct i as [|i]; cbn; [by intros [= <- _]|]. intros Hi. rewrite (IH _ _ Hc Hi). destruct i as [|i]; [done|].
  cbn. destruct (new !! i) as [x|] eqn:Hx; [done|]. apply lookup_lt_Some in Hi. apply lookup_ge_None in Hx. lia.
Qed.

Lemma notify_reaches valid base f new n l s b0 : base < f ≤ tip s + 1 → announces (can s) (tip s) f new n →
  (∀ i b d, new !! i = Some (b, d) → number (block (rb_ref b)) = f + Z.of_nat i ∧ valid b d) →
  can s (f - 1) = Some b0 → chained (bhash b0) new → handle_notification n = Ok l →
  env_step valid base s (notify f new n s).
Proof.
  intros Hf Hann Hnew Hb0 Hch Hl. unfold notify. rewrite Hl. eapply step_chain; try done.
  intros k b b' Hb Hb' Hk.
  assert (Hi : ∃ d', new !! Z.to_nat (k + 1 - f) = Some (b', d')).
  { unfold extend in Hb'. rewrite (proj2 (Z.ltb_ge _ _) Hk) in Hb'. apply fmap_Some in Hb' as ([b1 d1] & Hi & ->). by exists d1. }
  destruct Hi as [d' Hi]. rewrite (chained_lookup _ _ _ _ _ Hch Hi).
  destruct (Z.to_nat (k + 1 - f)) as [|i] eqn:Hn.
  - rewrite extend_below in Hb by lia. replace k with (f - 1) in Hb by lia. rewrite Hb0 in Hb. by injection Hb as <-.
  - replace k with (f + Z.of_nat i) in Hb by lia. rewrite extend_new in Hb.
    apply fmap_Some in Hb as ([b1 d1] & -> & ->). done.
Qed.
End Running.

(** ** A small chain *)

Module SyncSamples.
Import ListStore.
Abbreviation blk := (RecoveredBlock unit).
Abbreviation sys := (Sys (St := store) (Node := Z) (Account := Z) (Body := unit)).

(** Block hashes are [1000], then a hundred for the branch plus the number; a block
    sets the first account to its hash. *)
Definition num_of (h : B256) : Z := h mod 100.
Definition sets (h : B256) : sample_diff :=
  {| account_nodes := []; storage_tries := []; accounts := [(1, Some h)]; storages := [] |}.
Definition mk (p h : B256) : blk :=
  {| rb_ref := Build_BlockWithParent p (Build_NumHash (num_of h) h); rb_state_root := h; rb_body := tt |}.
Definition chain_state (h : B256) : State Z Z :=
  if h =? 1000 then state_at (E := string) genesis 0 else apply_diff (sets h) (state_at (E := string) genesis 0).
Definition exec_on (σ : State Z Z) (b : blk) : result (B256 * sample_diff) (MorphProofsStorageError string) :=
  Ok (rb_state_root b, sets (nhash (block (rb_ref b)))).
Definition execute (d : store) (n : Z) (b : blk) : result (B256 * sample_diff) (MorphProofsStorageError string) :=
  Ok (rb_state_root b, sets (nhash (block (rb_ref b)))).
Definition fuel (d : store) (bd : sample_diff) : nat :=
  S (length (keys_of (rows (E := string) (StorageTrieHistory d))) + trie_entries (storage_tries bd)
     + 2 * (length (keys_of (rows (E := string) (HashedStorageHistory d))) + slot_entries (storages bd))).

#[global] Instance history : ProofsHistory store string Z Z unit := db_history fuel execute.

Lemma sets_wf h : diff_wf (sets h).
Proof.
  split; cbn; try (by split; constructor); try (by constructor); try (by intros ? ? []%elem_of_nil).
  split; by_decide.
Qed.

#[global] Instance history_laws : ProofsHistoryLaws store string Z Z unit exec_on num_of.
Proof.
  apply db_history_laws.
  - intros d bd. unfold append_fuel, fuel. lia.
  - intros d w n b _ _. by left.
  - intros s b root bd [= <- <-]. apply sets_wf.
Defined.

Lemma sets_state p h σ : h ≠ 1000 → σ ≡ chain_state p → apply_diff (sets h) σ ≡ chain_state h.
Proof.
  intros Hh Hσ. unfold chain_state in *. rewrite (proj2 (Z.eqb_neq _ _) Hh).
  destruct (p =? 1000); rewrite Hσ; [done|]. split_and!; intros k; cbn; try done. unfold item_of. cbn. by destruct (bool_decide _).
Qed.

Definition valid_sample : blk → option sample_diff → Prop := valid exec_on num_of chain_state.

Lemma mk_valid p h d : num_of p = num_of h - 1 → 1 ≤ num_of h → d = None ∨ d = Some (sets h) → valid_sample (mk p h) d.
Proof.
  intros Hp Hh Hd. assert (H100 : h ≠ 1000) by (intros ->; by destruct Hh).
  assert (Hg : ∀ σ, σ ≡ chain_state p → apply_diff (sets h) σ ≡ chain_state h) by (intros; by eapply sets_state).
  split.
  - split; [|intros σ Hσ; eexists; split; [done|]; cbn in *; by apply Hg].
    unfold ref_ok. cbn. split_and!; [done|done|done|]. pose proof (Z.mod_pos_bound h 100 ltac:(lia)).
    pose proof uint_max_order. unfold num_of. lia.
  - intros bd ->. destruct Hd as [?|[= ->]]; [done|]. split; [apply sets_wf|exact Hg].
Qed.

(** The genesis block, and the extension just started on a store that holds it. *)
Definition genesis_block : blk := {| rb_ref := Build_BlockWithParent 999 (Build_NumHash 0 1000); rb_state_root := 0; rb_body := tt |}.
Definition started : sys := {|
  target := Target.SyncTarget_new; ProofsSync.store := genesis; pc := LTop; script := [];
  can n := if n =? 0 then Some genesis_block else None; tip := 0; wanted := Some 0; revert_failed := false |}.

Lemma started_starts : starts exec_on num_of chain_state 0 started genesis_window.
Proof.
  split; try done; cbn.
  - exact genesis_represented.
  - split; cbn; intros n; [|intros b..].
    + destruct (Z.eqb_spec n 0); split; try done; lia.
    + destruct (Z.eqb_spec n 0); [|done]. by intros [= <-].
    + destruct (Z.eqb_spec n 0); [lia|done].
    + intros b'. destruct (Z.eqb_spec n 0), (Z.eqb_spec (n + 1) 0); try done. lia.
  - intros n Hn. cbn in Hn. assert (n = 0) as -> by lia. exists genesis_block. split; [done|]. split; done.
Qed.

(** A commit of two blocks, synced from reth's data and by execution; a prune of the
    first; a reorg at the first block the store holds; and one above it. *)
Definition commit : list (blk * option sample_diff) := [(mk 1000 1101, Some (sets 1101)); (mk 1101 1102, None)].
Definition reorg1 : list (blk * option sample_diff) := [(mk 1000 1201, None); (mk 1201 1202, None)].
Definition reorg2 : list (blk * option sample_diff) := [(mk 1201 1302, Some (sets 1302))].
Definition at1 : sys := notify 1 commit (ChainCommitted commit) started.
Definition at2 : sys := settle 0 40 at1.
Definition at3 : sys := {| target := target at2; pc := pc at2; script := script at2; can := can at2; tip := tip at2;
  wanted := wanted at2; revert_failed := revert_failed at2;
  ProofsSync.store := match prune_earliest_state (E := string) 50 (rb_ref (mk 1000 1101)) (ProofsSync.store at2) with Some (d, _) => d | None => ProofsSync.store at2 end |}.
Definition at4 : sys := notify 1 reorg1 (ChainReorged commit reorg1) at3.
Definition at5 : sys := settle 0 40 at4.
Definition at6 : sys := notify 2 reorg2 (ChainReorged (drop 1 reorg1) reorg2) at5.
Definition at7 : sys := settle 0 40 at6.

Abbreviation sample_step := (sys_step 0 valid_sample 0).

Lemma started_at1 : env_step valid_sample 0 started at1.
Proof.
  eapply notify_reaches with (b0 := genesis_block); try done; [by constructor|].
  intros [|[|i]] b d; [intros [= <- <-]..|done]; (split; [done|]); apply mk_valid; by auto.
Qed.

Lemma at3_at4 : env_step valid_sample 0 at3 at4.
Proof.
  simple refine (notify_reaches _ 0 1 reorg1 _ _ at3 genesis_block _ _ _ _ _ _);
    [shelve|vm_compute; intuition discriminate|constructor; [vm_compute; discriminate|done|vm_compute; reflexivity]
    | |vm_compute; reflexivity|vm_compute; tauto|vm_compute; reflexivity].
  intros [|[|i]] b d; [intros [= <- <-]..|done]; (split; [done|]); apply mk_valid; by auto.
Qed.

Lemma at5_at6 : env_step valid_sample 0 at5 at6.
Proof.
  simple refine (notify_reaches _ 0 2 reorg2 _ _ at5 (mk 1000 1201) _ _ _ _ _ _);
    [shelve|vm_compute; intuition discriminate|constructor; [vm_compute; discriminate|done|vm_compute; reflexivity]
    | |vm_compute; reflexivity|vm_compute; tauto|vm_compute; reflexivity].
  intros [|i] b d; [intros [= <- <-]|done]; (split; [done|]); apply mk_valid; by auto.
Qed.

Lemma at2_at3 : env_step valid_sample 0 at2 at3.
Proof.
  apply step_prune. exists 50%nat, (rb_ref (mk 1000 1101)). eexists. split; [vm_compute; lia|vm_compute; reflexivity].
Qed.

Lemma settled n s : rtc sample_step s (settle 0 n s).
Proof. apply settle_reaches. Qed.

Lemma started_at3 : rtc sample_step started at3.
Proof.
  apply (rtc_l _ _ at1); [right; exact started_at1|]. transitivity at2; [exact (settled 40 at1)|].
  apply rtc_once. right. exact at2_at3.
Qed.

Lemma started_at7 : rtc sample_step started at7.
Proof.
  transitivity at3; [exact started_at3|]. apply (rtc_l _ _ at4); [right; exact at3_at4|].
  transitivity at5; [exact (settled 40 at4)|]. apply (rtc_l _ _ at6); [right; exact at5_at6|]. exact (settled 40 at6).
Qed.

Lemma settle_live n s : wanted s ≠ None → rtc (live_step exec_on num_of 0 chain_state 0) s (settle 0 n s).
Proof.
  revert s. induction n as [|n IH]; intros s Hw; [done|]. cbn [settle]. unfold act_next.
  destruct (script s) as [|a l] eqn:Hs.
  - destruct (loop_next 0 s) as [[fault s']|] eqn:Hl; [|done]. apply loop_next_sound in Hl.
    assert (Hw' : wanted s' ≠ None) by by destruct Hl. eapply rtc_l; [|by apply IH]. split; [left; by exists fault|done].
  - eapply rtc_l; [|by apply IH]. split; [right; by apply step_act|done].
Qed.
End SyncSamples.
Import SyncSamples.

Lemma sync_serves_canonical_witness :
  state_provider (λ k, bhash <$> can at3 k) 1 (ProofsSync.store at3) = Some (Ok 1)
  ∧ ∃ w, ph_holds (ProofsSync.store at3) w ∧ on_chain_window chain_state (can at3) w ∧
      ∀ n m, state_provider (λ k, bhash <$> can at3 k) n (ProofsSync.store at3) = Some (Ok m) →
        m = n ∧ ∃ b, can at3 n = Some b ∧ w_state w n ≡ chain_state (bhash b).
Proof.
  split; [vm_compute; reflexivity|].
  simple refine (sync_serves_canonical exec_on num_of 0 chain_state 0 started ListStore.genesis_window at3 _ _ _ _);
    [exact started_starts|exact started_at3|vm_compute; reflexivity|vm_compute; reflexivity].
Defined.

(** The handlers are done, the loop has not started. *)
Lemma sync_catches_up_witness :
  pc (settle 0 3 at1) = LTop ∧ tip (settle 0 3 at1) = 2
  ∧ (Acc (flip (quiet_step 0)) (settle 0 3 at1) ∧
     ∀ s', rtc (quiet_step 0) (settle 0 3 at1) s' → (∀ fault s2, ¬ loop_step 0 fault s' s2) →
       ∃ w, ph_holds (ProofsSync.store s') w ∧ on_chain_window chain_state (can s') w ∧ number (w_latest w) = tip s').
Proof.
  split; [vm_compute; reflexivity|]. split; [vm_compute; reflexivity|].
  simple refine (sync_catches_up exec_on num_of 0 chain_state 0 started ListStore.genesis_window (settle 0 3 at1) _ _ _ _);
    [exact started_starts| |vm_compute; reflexivity|vm_compute; reflexivity].
  eapply rtc_l; [split; [right; exact started_at1|discriminate]|]. apply settle_live. discriminate.
Defined.

(** C9. A revert the store refuses is never made good.  On a store that holds blocks 1
    and 2, a reorg from block 1 on is refused, since the unwind would reach the
    earliest block; the extension goes on with nothing outstanding.  A later reorg from
    block 2 on unwinds one block and takes the hash of its new branch for the block it
    keeps, which is still that of the first branch.  All notifications handled and all
    work done, the proofs endpoint accepts block 1, its anchor being canonical, and
    serves the state of a block that is not on the chain. *)
Theorem refused_revert_mixes_branches :
  starts exec_on num_of chain_state 0 started ListStore.genesis_window
  ∧ ∃ s, rtc (sys_step 0 valid_sample 0) started s
    ∧ pc s = LWait ∧ script s = [] ∧ Target.state (target s) = None ∧ revert_failed s = true
    ∧ state_provider (λ k, bhash <$> can s k) 1 (ProofsSync.store s) = Some (Ok 1)
    ∧ bhash <$> can s 1 = Some 1201
    ∧ v_accounts (chain_state 1201) 1 = Some 1201
    ∧ v_accounts (state_at (E := string) (ProofsSync.store s) 1) 1 = Some 1101.
Proof.
  split; [exact started_starts|]. exists at7. split; [exact started_at7|].
  split_and!; vm_compute; reflexivity.
Qed.
