(* ===== verification/PoolSafety.v ===== *)
(** * What the transaction pool guarantees

    Theorems about [TxPool]: which Morph transactions a maintenance turn keeps, stated
    with the exact sums of what each sender has to pay; and that a transaction the pool
    admits can pay when it is executed on the state it was admitted against. *)

From stdpp Require Import sorting.
From S2P Require Import Prelude.
From S2P Require Import Hardfork.
From S2P Require Import Rlp.
From S2P Require Import MorphTx.
From S2P Require Import Envelope.
From S2P Require Import L1Fee.
From S2P Require Import TxEnv.
From S2P Require Import TokenFee.
From S2P Require Import Journal.
From S2P Require Import FeeHandler.
From S2P Require Import FeeSafety.
From S2P Require Import TxPool.

(** ** Conversions *)

Lemma token_amount_nonneg i x : 0 ≤ x → 0 ≤ price_ratio i → 0 ≤ scale i → 0 ≤ eth_to_token_amount i x.
Proof.
  intros Hx Hp Hs. unfold eth_to_token_amount, eth_to_token_amount_with_credit.
  pose proof uint_max_order. destruct (_ || _) eqn:Hz; [cbn; lia|]. bool_simp.
  assert (0 ≤ saturating_mul u256_max x (scale i)) by (unfold saturating_mul; nia).
  assert (0 ≤ saturating_mul u256_max x (scale i) / price_ratio i) by (apply Z.div_pos; lia).
  destruct (_ =? 0); cbn; [done|]. unfold saturating_add. lia.
Qed.

(** A larger fee never costs fewer units. *)
Lemma token_amount_mono i x y : 0 ≤ x ≤ y → 0 ≤ price_ratio i → 0 ≤ scale i →
  eth_to_token_amount i x ≤ eth_to_token_amount i y.
Proof.
  intros Hx Hp Hs. unfold eth_to_token_amount, eth_to_token_amount_with_credit.
  destruct (_ || _) eqn:Hz; [done|]. bool_simp. cbv zeta.
  assert (Hm : 0 ≤ saturating_mul u256_max x (scale i) ≤ saturating_mul u256_max y (scale i)).
  { pose proof uint_max_order. unfold saturating_mul.
    assert (x * scale i ≤ y * scale i) by (apply Z.mul_le_mono_nonneg_r; lia).
    assert (0 ≤ x * scale i) by nonneg. lia. }
  assert (Hu : saturating_mul u256_max y (scale i) ≤ u256_max) by (unfold saturating_mul; lia).
  revert Hm Hu. generalize (saturating_mul u256_max x (scale i)) (saturating_mul u256_max y (scale i)).
  intros p q [Hp0 Hpq] Hq.
  assert (Hd : p / price_ratio i ≤ q / price_ratio i) by (apply Z.div_le_mono; lia).
  assert (Hq' : q / price_ratio i ≤ q).
  { apply Z.div_le_upper_bound; [lia|]. nia. }
  destruct (Z.eqb_spec (p mod price_ratio i) 0) as [Hpm|Hpm], (Z.eqb_spec (q mod price_ratio i) 0) as [Hqm|Hqm];
    cbn; unfold saturating_add; try lia.
  - assert (p / price_ratio i ≠ q / price_ratio i); [|lia]. intros He.
    pose proof (Z.div_mod p (price_ratio i) ltac:(lia)). pose proof (Z.div_mod q (price_ratio i) ltac:(lia)).
    pose proof (Z.mod_pos_bound p (price_ratio i) ltac:(lia)). nia.
Qed.

(** ** What a sender has to pay *)

Section Sender.
Context {ETH AL SA SG Er IT : Type} `{AlloyRlp AL SA SG}.
Abbreviation envelope := (MorphTxEnvelope.MorphTxEnvelope ETH AL SA SG).
Abbreviation pooled := (MorphPooledTransaction envelope).
Context (keccak256 : bytes → Z) (eth_encode_2718 : ETH → bytes).
Context (eth_view : ETH → TxView AL SA) (eth_max_fee_per_gas : ETH → Z).
Context (d : PoolDb Er IT) (info : L1BlockInfo) (hf : MorphHardfork) (block_gas_limit : Z).
Context (sender : Address) (eth : Z).
Implicit Types (tx : pooled) (ps : list pooled).

Definition morph_of tx : option (TxMorph.TxMorph AL SA) :=
  match p_transaction tx with MorphTxEnvelope.Morph t => Some (MorphTxEnvelope.tx t) | _ => None end.

Definition l1_fee_of tx : Z := calculate_tx_l1_cost info (rlp eth_encode_2718 (p_transaction tx)) hf.

(** The fee at the price cap, in ETH. *)
Definition fee_cap tx (m : TxMorph.TxMorph AL SA) : Z :=
  TxMorph.gas_limit m * TxMorph.max_fee_per_gas m + l1_fee_of tx.

Definition token_of (id : Z) : option TokenFeeInfo :=
  match load_for_caller keccak256 (db_slot d) (db_balance_of d hf) id sender with
  | Ok o => o
  | Err _ => None
  end.

Definition eth_need tx : Z :=
  match morph_of tx with
  | Some m => TxMorph.value m + (if TxMorph.fee_token_id m =? 0 then fee_cap tx m else 0)
  | None => 0
  end.

Definition token_need (id : Z) tx : Z :=
  match morph_of tx, token_of id with
  | Some m, Some i => if TxMorph.fee_token_id m =? id then eth_to_token_amount i (fee_cap tx m) else 0
  | _, _ => 0
  end.

(** The conditions on the transaction by itself. *)
Definition acceptable tx (m : TxMorph.TxMorph AL SA) : Prop :=
  TxMorph.gas_limit m ≤ block_gas_limit
  ∧ (TxMorph.version m = 1 → is_jade hf = true) ∧ (TxMorph.version m = 2 → is_celadon hf = true)
  ∧ TxMorph.validate m = Ok tt
  ∧ (TxMorph.fee_token_id m ≠ 0 → ∃ i, token_of (TxMorph.fee_token_id m) = Some i
       ∧ is_active i = true ∧ price_ratio i ≠ 0
       ∧ (TxMorph.fee_limit m = 0 ∨ eth_to_token_amount i (fee_cap tx m) ≤ TxMorph.fee_limit m)).

(** The transaction can be paid after [ps], whose order does not matter. *)
Definition payable ps tx : Prop :=
  ∃ m, morph_of tx = Some m ∧ acceptable tx m
  ∧ sum_by eth_need ps + eth_need tx ≤ eth
  ∧ (∀ i, TxMorph.fee_token_id m ≠ 0 → token_of (TxMorph.fee_token_id m) = Some i →
       sum_by (token_need (TxMorph.fee_token_id m)) ps + token_need (TxMorph.fee_token_id m) tx ≤ balance i).

(** *** Admission *)

(** A database returns 256-bit words. *)
Definition db_ok : Prop :=
  (∀ a k v, db_slot d a k = Ok v → is_u256 v) ∧ (∀ a b v, db_balance_of d hf a b = Ok v → is_u256 v).
Definition pooled_ok tx : Prop := ∀ m, morph_of tx = Some m →
  is_u64 (TxMorph.gas_limit m) ∧ is_u128 (TxMorph.max_fee_per_gas m) ∧ is_u256 (TxMorph.value m)
  ∧ is_u256 (TxMorph.fee_limit m) ∧ 0 ≤ TxMorph.fee_token_id m.

Hypothesis Hdb : db_ok.
Hypothesis Hinfo : ∃ db', (∀ a k v, db' a k = Ok v → is_u256 v) ∧ try_fetch (Er := Er) db' hf = Ok info.

Lemma l1_fee_range tx : 0 ≤ l1_fee_of tx ≤ u64_max.
Proof. destruct Hinfo as (db' & Hu & Hf). by eapply l1_cost_range. Qed.

Lemma fee_cap_range tx m : pooled_ok tx → morph_of tx = Some m → 0 ≤ fee_cap tx m ≤ u64_max * u128_max + u64_max.
Proof.
  intros Hok Hm. destruct (Hok m Hm) as (Hg & Hf & _). pose proof (l1_fee_range tx). unfold fee_cap, in_range in *.
  assert (TxMorph.gas_limit m * TxMorph.max_fee_per_gas m ≤ u64_max * u128_max) by (apply Z.mul_le_mono_nonneg; lia).
  assert (0 ≤ TxMorph.gas_limit m * TxMorph.max_fee_per_gas m) by nonneg. lia.
Qed.

Lemma fee_cap_fits : u64_max * u128_max + u64_max ≤ u256_max.
Proof. vm_compute. discriminate. Qed.

Lemma saturated_fee tx m : pooled_ok tx → morph_of tx = Some m →
  saturating_add u256_max (saturating_mul u256_max (TxMorph.gas_limit m) (TxMorph.max_fee_per_gas m)) (l1_fee_of tx)
  = fee_cap tx m.
Proof.
  intros Hok Hm. pose proof (fee_cap_range tx m Hok Hm). pose proof fee_cap_fits. pose proof (l1_fee_range tx).
  unfold fee_cap in *. rewrite saturating_mul_exact by lia. by rewrite saturating_add_exact by lia.
Qed.

Lemma token_of_ranges id i : token_of id = Some i →
  0 ≤ balance i ∧ 0 ≤ price_ratio i ∧ 0 ≤ scale i.
Proof.
  unfold token_of. destruct (load_for_caller _ _ _ _ _) as [o|] eqn:Hl; [|done]. intros ->.
  unfold load_for_caller in Hl. apply bind_Ok in Hl as (o & Ho%map_err_Ok & Hl).
  destruct o as [entry|]; [|done]. apply bind_Ok in Hl as (i' & Hi & [= ->]).
  unfold entry_load_for_caller in Hi. apply bind_Ok in Hi as (b & Hb & [= <-]). cbn.
  destruct Hdb as [Hs Hc].
  assert (Hbal : is_u256 b).
  { unfold read_token_balance_with_fallback in Hb. destruct (e_balance_slot entry); [|by eapply Hc].
    apply map_err_Ok in Hb. by eapply Hs. }
  unfold load, read_registry_entry in Ho. apply bind_Ok in Ho as (? & ? & Ho).
  destruct (_ =? 0); [done|]. do 4 (apply bind_Ok in Ho as (? & ?%Hs & Ho)). injection Ho as <-. cbn.
  unfold in_range in *. lia.
Qed.

Definition gates (m : TxMorph.TxMorph AL SA) : Prop :=
  (TxMorph.version m = 1 → is_jade hf = true) ∧ (TxMorph.version m = 2 → is_celadon hf = true)
  ∧ TxMorph.validate m = Ok tt.

(** The token side of admission, and the result. *)
Definition token_side tx (m : TxMorph.TxMorph AL SA) (res : MorphTxValidationResult) : Prop :=
  ∃ i, token_of (TxMorph.fee_token_id m) = Some i ∧ is_active i = true ∧ price_ratio i ≠ 0
  ∧ eth_to_token_amount i (fee_cap tx m) ≤ effective_fee_limit i (TxMorph.fee_limit m)
  ∧ res = {| r_uses_token_fee := true; r_token_info := Some i;
             r_required_token_amount := eth_to_token_amount i (fee_cap tx m);
             r_amount_to_pay := eth_to_token_amount i (fee_cap tx m) |}.

Lemma admission_spec tx m B res : pooled_ok tx → morph_of tx = Some m → 0 ≤ B < u256_max →
  validate_morph_tx keccak256 d {| consensus_tx := p_transaction tx; TxPool.sender := sender;
    eth_balance := B; l1_data_fee := l1_fee_of tx; hardfork := hf |} = Ok res ↔
  gates m ∧ TxMorph.value m ≤ B ∧
  (if TxMorph.fee_token_id m =? 0
   then TxMorph.value m + fee_cap tx m ≤ B
        ∧ res = {| r_uses_token_fee := false; r_token_info := None; r_required_token_amount := 0; r_amount_to_pay := 0 |}
   else token_side tx m res).
Proof.
  intros Hok Hm HB. pose proof (saturated_fee tx m Hok Hm) as Hfee.
  pose proof (fee_cap_range tx m Hok Hm) as Hcap. destruct (Hok m Hm) as (_ & _ & Hv & _).
  unfold morph_of in Hm. unfold validate_morph_tx. cbn [consensus_tx TxPool.sender eth_balance l1_data_fee hardfork].
  destruct (p_transaction tx) as [| | | | |s] eqn:Hp; try done. injection Hm as <-. set (m := MorphTxEnvelope.tx s) in *.
  rewrite Hfee, !reject_Ok, bind_unit_Ok, map_err_Ok, reject_Ok. unfold gates.
  change TxMorph.MORPH_TX_VERSION_1 with 1. change TxMorph.MORPH_TX_VERSION_2 with 2. bool_simp.
  assert (Hgate : ∀ (b : bool) (n : Z), (b = true ∨ TxMorph.version m ≠ n) ↔ (TxMorph.version m = n → b = true))
    by (intros b n; destruct b, (Z.eq_dec (TxMorph.version m) n); naive_solver).
  rewrite !Hgate.
  destruct (Z.eqb_spec (TxMorph.fee_token_id m) 0) as [Hid|Hid].
  - rewrite reject_Ok. bool_simp. unfold in_range in Hv.
    assert (Hsat : saturating_add u256_max (fee_cap tx m) (TxMorph.value m) ≤ B ↔ TxMorph.value m + fee_cap tx m ≤ B)
      by (unfold saturating_add; lia).
    rewrite Hsat. naive_solver.
  - unfold token_side, token_of. destruct (load_for_caller _ _ _ _ _) as [[i|]|]; cbn [map_err ok_or result_bind].
    + rewrite !reject_Ok. bool_simp. naive_solver lia.
    + naive_solver.
    + naive_solver.
Qed.

(** *** Budgets *)

Hypothesis Heth : 0 ≤ eth < u256_max.

Lemma eth_need_nonneg tx : pooled_ok tx → 0 ≤ eth_need tx.
Proof.
  intros Hok. unfold eth_need. destruct (morph_of tx) as [m|] eqn:Hm; [|done].
  pose proof (fee_cap_range tx m Hok Hm). destruct (Hok m Hm) as (_ & _ & Hv & _). unfold in_range in Hv.
  destruct (_ =? 0); lia.
Qed.

Lemma token_need_nonneg id tx : pooled_ok tx → 0 ≤ token_need id tx.
Proof.
  intros Hok. unfold token_need. destruct (morph_of tx) as [m|] eqn:Hm; [|done].
  destruct (token_of id) as [i|] eqn:Hi; [|done]. destruct (_ =? _); [|done].
  pose proof (fee_cap_range tx m Hok Hm). destruct (token_of_ranges id i Hi) as (_ & ? & ?).
  apply token_amount_nonneg; lia.
Qed.

Lemma sum_eth_nonneg ps : Forall pooled_ok ps → 0 ≤ sum_by eth_need ps.
Proof. intros Hps. apply sum_by_nonneg. rewrite Forall_forall in Hps. intros x Hx. by apply eth_need_nonneg, Hps. Qed.

Lemma sum_token_nonneg id ps : Forall pooled_ok ps → 0 ≤ sum_by (token_need id) ps.
Proof. intros Hps. apply sum_by_nonneg. rewrite Forall_forall in Hps. intros x Hx. by apply token_need_nonneg, Hps. Qed.

(** The budget left after [ps]. *)
Record budget_after ps (b : SenderBudget) : Prop := {
  ba_eth : b_eth_balance b = eth - sum_by eth_need ps;
  ba_covered : sum_by eth_need ps ≤ eth;
  ba_token : ∀ id i, id ≠ 0 → token_of id = Some i →
    default (balance i) (b_token_balances b !! id) = balance i - sum_by (token_need id) ps;
}.

Lemma sum_by_snoc (f : pooled → Z) ps tx : sum_by f (ps ++ [tx]) = sum_by f ps + f tx.
Proof. rewrite sum_by_app. cbn. lia. Qed.

Lemma consume_eth_spec ps b tx m : pooled_ok tx → Forall pooled_ok ps → morph_of tx = Some m → TxMorph.fee_token_id m = 0 →
  budget_after ps b → sum_by eth_need ps + eth_need tx ≤ eth → ∃ b',
  consume_eth_budget b (TxMorph.value m) (TxMorph.gas_limit m) (TxMorph.max_fee_per_gas m) (l1_fee_of tx) = (true, b')
  ∧ budget_after (ps ++ [tx]) b'.
Proof.
  intros Hok Hps Hm Hid [Be Bc Bt] Hsum. pose proof (fee_cap_range tx m Hok Hm) as Hcap.
  pose proof (sum_eth_nonneg ps Hps).
  destruct (Hok m Hm) as (_ & _ & Hv & _). unfold in_range in Hv.
  assert (Hneed : eth_need tx = TxMorph.value m + fee_cap tx m) by (unfold eth_need; by rewrite Hm, Hid).
  unfold consume_eth_budget. rewrite saturated_fee by done. rewrite saturating_add_exact by lia.
  destruct (Z.ltb_spec (b_eth_balance b) (fee_cap tx m + TxMorph.value m)); [lia|].
  eexists. split; [done|]. split; cbn.
  - rewrite sum_by_snoc. unfold saturating_sub. lia.
  - rewrite sum_by_snoc. lia.
  - intros id i Hi Ht. rewrite sum_by_snoc. rewrite (Bt id i Hi Ht).
    assert (token_need id tx = 0); [|lia]. unfold token_need. rewrite Hm, Ht, Hid.
    by rewrite (proj2 (Z.eqb_neq _ _)) by done.
Qed.

Lemma consume_token_spec ps b tx m i : pooled_ok tx → Forall pooled_ok ps → morph_of tx = Some m →
  TxMorph.fee_token_id m ≠ 0 → token_of (TxMorph.fee_token_id m) = Some i → budget_after ps b →
  let '(ok, b') := consume_token_budget b (TxMorph.value m) (Some (TxMorph.fee_token_id m)) (Some (TxMorph.fee_limit m))
                     (eth_to_token_amount i (fee_cap tx m)) (Some (balance i)) in
  if ok : bool then
    (TxMorph.fee_limit m = 0 ∨ eth_to_token_amount i (fee_cap tx m) ≤ TxMorph.fee_limit m)
    ∧ sum_by (token_need (TxMorph.fee_token_id m)) ps + token_need (TxMorph.fee_token_id m) tx ≤ balance i
    ∧ sum_by eth_need ps + eth_need tx ≤ eth ∧ budget_after (ps ++ [tx]) b'
  else
    TxMorph.fee_limit m ≠ 0 ∧ TxMorph.fee_limit m < eth_to_token_amount i (fee_cap tx m)
    ∨ balance i < sum_by (token_need (TxMorph.fee_token_id m)) ps + token_need (TxMorph.fee_token_id m) tx
    ∨ eth < sum_by eth_need ps + eth_need tx.
Proof.
  intros Hok Hps Hm Hid Hi [Be Bc Bt]. set (id := TxMorph.fee_token_id m) in *.
  assert (Hneed : eth_need tx = TxMorph.value m)
    by (unfold eth_need; rewrite Hm; fold id; rewrite (proj2 (Z.eqb_neq _ _) Hid); lia).
  assert (Htok : token_need id tx = eth_to_token_amount i (fee_cap tx m))
    by (unfold token_need; by rewrite Hm, Hi, Z.eqb_refl).
  pose proof (Bt id i Hid Hi) as Hb. pose proof (eth_need_nonneg tx Hok).
  pose proof (token_need_nonneg id tx Hok). pose proof (sum_token_nonneg id ps Hps).
  unfold consume_token_budget. change (default 0 (Some (balance i))) with (balance i). rewrite Hb. rewrite Htok in *.
  set (left := balance i - sum_by (token_need id) ps) in *. set (req := eth_to_token_amount i (fee_cap tx m)) in *.
  destruct (Z.eqb_spec (TxMorph.fee_limit m) 0) as [Hl0|Hl0], (Z.ltb_spec left (TxMorph.fee_limit m)) as [Hl|Hl];
    cbn [orb]; match goal with |- context[if (?x <? req) || _ then _ else _] => destruct (Z.ltb_spec x req) as [Hr|Hr] end;
    cbn [orb]; try (destruct (Z.ltb_spec (b_eth_balance b) (TxMorph.value m)) as [He|He]); cbn -[sum_by];
    try lia.
  all: split_and!; [lia..|]; split; rewrite ?sum_by_snoc; cbn; [unfold saturating_sub; lia|lia|].
  all: intros id' i' Hid' Hi'; rewrite sum_by_snoc; destruct (decide (id' = id)) as [->|Hne];
    [rewrite lookup_insert_eq; cbn; assert (i' = i) as -> by congruence; unfold saturating_sub; lia|].
  all: rewrite !lookup_insert_ne by done; rewrite (Bt id' i' Hid' Hi');
    assert (token_need id' tx = 0); [|lia]; unfold token_need; rewrite Hm, Hi'; fold id;
    by rewrite (proj2 (Z.eqb_neq _ _)) by done.
Qed.

(** One transaction: kept exactly when it is payable. *)
Lemma revalidate_spec ps b tx m : pooled_ok tx → Forall pooled_ok ps → morph_of tx = Some m → budget_after ps b →
  let '(ok, b') := revalidate keccak256 eth_encode_2718 eth_view eth_max_fee_per_gas d info hf block_gas_limit sender b tx in
  if ok : bool then payable ps tx ∧ budget_after (ps ++ [tx]) b' else ¬ payable ps tx.
Proof.
  intros Hok Hps Hm Hb. pose proof Hb as [Be Bc Bt]. pose proof (sum_eth_nonneg ps Hps).
  pose proof (eth_need_nonneg tx Hok) as Hn. destruct (Hok m Hm) as (_ & _ & Hv & _).
  assert (HB : 0 ≤ b_eth_balance b < u256_max) by lia.
  pose proof (λ res, admission_spec tx m (b_eth_balance b) res Hok Hm HB) as Hadm.
  unfold revalidate. fold (l1_fee_of tx). unfold morph_of in Hm.
  destruct (p_transaction tx) as [| | | | |sg] eqn:Hp; try done. injection Hm as Hm. cbn [view v_gas_limit v_value morph_tx_view].
  rewrite Hm. assert (Hmo : morph_of tx = Some m) by (unfold morph_of; by rewrite Hp, Hm).
  unfold exceeds_block_gas_limit. destruct (Z.ltb_spec block_gas_limit (TxMorph.gas_limit m)) as [Hg|Hg].
  { intros (m' & Hm' & (Hg' & _) & _). rewrite Hmo in Hm'. injection Hm' as <-. lia. }
  destruct (validate_morph_tx _ _ _) as [res|x].
  - destruct (proj1 (Hadm res) eq_refl) as (Hga & Hval & Hside).
    destruct (Z.eqb_spec (TxMorph.fee_token_id m) 0) as [Hid|Hid].
    + destruct Hside as [Hcost ->]. cbn [r_uses_token_fee max_fee_of]. rewrite Hm.
      assert (Hneed : eth_need tx = TxMorph.value m + fee_cap tx m) by (unfold eth_need; by rewrite Hmo, Hid).
      destruct (consume_eth_spec ps b tx m) as (b' & -> & Hb'); [done..|lia|]. split; [|done].
      exists m. split_and!; [done| |lia|by intros i ?]. destruct Hga as (? & ? & ?). split_and!; [done..|]. by intros.
    + destruct Hside as (i & Hi & Hact & Hpr & Hlim & ->). cbn [r_uses_token_fee r_required_token_amount r_token_info].
      cbn [fmap option_fmap option_map MorphTxEnvelope.fee_token_id MorphTxEnvelope.fee_limit]. rewrite Hm.
      pose proof (consume_token_spec ps b tx m i Hok Hps Hmo Hid Hi Hb) as Hc.
      destruct (consume_token_budget _ _ _ _ _ _) as [[] b'].
      * destruct Hc as (C1 & C2 & C3 & C4). split; [|done]. exists m. destruct Hga as (? & ? & ?).
        split_and!; [done|split_and!; [done..|]; intros _; by exists i|done|].
        intros i' _ Hi'. rewrite Hi in Hi'. by injection Hi' as <-.
      * intros (m' & Hm' & (_ & _ & _ & _ & Hac) & P1 & P2). rewrite Hmo in Hm'. injection Hm' as <-.
        destruct (Hac Hid) as (i' & Hi' & _ & _ & Hl). rewrite Hi in Hi'. injection Hi' as <-.
        specialize (P2 i Hid Hi). lia.
  - intros (m' & Hm' & (_ & G1 & G2 & G3 & Hac) & P1 & P2). rewrite Hmo in Hm'. injection Hm' as <-.
    assert (Hval : TxMorph.value m ≤ b_eth_balance b).
    { assert (TxMorph.value m ≤ eth_need tx); [|lia]. unfold eth_need. rewrite Hmo.
      pose proof (fee_cap_range tx m Hok Hmo). destruct (_ =? 0); lia. }
    destruct (Z.eqb_spec (TxMorph.fee_token_id m) 0) as [Hid|Hid].
    + assert (Hneed : eth_need tx = TxMorph.value m + fee_cap tx m) by (unfold eth_need; by rewrite Hmo, Hid).
      assert (Hc : TxMorph.value m + fee_cap tx m ≤ b_eth_balance b) by lia.
      pose proof (proj2 (Hadm _) (conj (conj G1 (conj G2 G3)) (conj Hval (conj Hc eq_refl)))). done.
    + destruct (Hac Hid) as (i & Hi & Hact & Hpr & Hl). specialize (P2 i Hid Hi).
      assert (Htok : token_need (TxMorph.fee_token_id m) tx = eth_to_token_amount i (fee_cap tx m))
        by (unfold token_need; by rewrite Hmo, Hi, Z.eqb_refl).
      pose proof (sum_token_nonneg (TxMorph.fee_token_id m) ps Hps).
      assert (Hle : eth_to_token_amount i (fee_cap tx m) ≤ effective_fee_limit i (TxMorph.fee_limit m)).
      { unfold effective_fee_limit. destruct (Z.eqb_spec (TxMorph.fee_limit m) 0); lia. }
      pose proof (proj2 (Hadm _) (conj (conj G1 (conj G2 G3)) (conj Hval
        (ex_intro _ i (conj Hi (conj Hact (conj Hpr (conj Hle eq_refl)))))))). done.
Qed.

(** The walk stops at the first transaction that is not payable after those before it. *)
Lemma walk_spec txs ps b : Forall pooled_ok ps → Forall (λ tx, pooled_ok tx ∧ morph_of tx ≠ None) txs → budget_after ps b →
  ∃ kept, (∀ i tx, kept !! i = Some tx → payable (ps ++ take i kept) tx)
  ∧ ((txs = kept ∧ revalidate_sender keccak256 eth_encode_2718 eth_view eth_max_fee_per_gas d info hf block_gas_limit sender b txs = [])
     ∨ ∃ tx rest, txs = kept ++ tx :: rest ∧ ¬ payable (ps ++ kept) tx
       ∧ revalidate_sender keccak256 eth_encode_2718 eth_view eth_max_fee_per_gas d info hf block_gas_limit sender b txs = [p_hash tx]).
Proof.
  revert ps b. induction txs as [|tx txs IH]; intros ps b Hps Htxs Hb.
  { exists []. split; [done|]. by left. }
  apply Forall_cons in Htxs as [[Hok Hmo] Htxs]. destruct (morph_of tx) as [m|] eqn:Hm; [|done].
  pose proof (revalidate_spec ps b tx m Hok Hps Hm Hb) as Hr. cbn [revalidate_sender].
  destruct (revalidate _ _ _ _ _ _ _ _ _ _ _) as [[] b'].
  - destruct Hr as [Hpay Hb'].
    destruct (IH (ps ++ [tx]) b') as (kept & Hk & Hres); [by apply Forall_app; split; [|constructor]|done|done|].
    exists (tx :: kept). split.
    + intros [|i] x; cbn; [intros [= <-]; by rewrite app_nil_r|]. intros Hx. specialize (Hk i x Hx).
      by rewrite <- app_assoc in Hk.
    + rewrite <- app_assoc in Hres. cbn in Hres. destruct Hres as [[-> ->]|(t & rest & -> & Hn & ->)]; [by left|].
      right. by exists t, rest.
  - exists []. split; [done|]. right. exists tx, txs. rewrite app_nil_r. done.
Qed.
End Sender.

(** ** A maintenance turn *)

Lemma filter_and {A} (f g : A → bool) (l : list A) :
  List.filter (λ x, f x && g x) l = List.filter g (List.filter f l).
Proof. induction l as [|x l IH]; [done|]. cbn. destruct (f x); cbn; [|done]. destruct (g x); by rewrite IH. Qed.

Lemma filter_all {A} (f : A → bool) (l : list A) : Forall (λ x, f x = true) l → List.filter f l = l.
Proof. induction 1 as [|x l Hx _ IH]; [done|]. cbn. by rewrite Hx, IH. Qed.

Lemma bfilter_none {A} (f : A → bool) (l : list A) : Forall (λ x, f x = false) l → List.filter f l = [].
Proof. induction 1 as [|x l Hx _ IH]; [done|]. cbn. by rewrite Hx, IH. Qed.

Lemma elem_of_bfilter {A} (f : A → bool) (l : list A) x : x ∈ List.filter f l ↔ x ∈ l ∧ f x = true.
Proof. by rewrite list_elem_of_In, filter_In, <- list_elem_of_In. Qed.

#[global] Instance bfilter_perm {A} (f : A → bool) : Proper (Permutation ==> Permutation) (List.filter f).
Proof. induction 1; cbn; repeat (destruct (f _)); eauto using Permutation. Qed.

#[global] Instance sum_by_perm {A} (f : A → Z) : Proper (Permutation ==> eq) (sum_by f).
Proof. induction 1; unfold sum_by in *; cbn; lia. Qed.

(** In a list sorted by distinct keys, what comes before an entry has the smaller keys. *)
Lemma sorted_before {A} (key : A → Z) (l : list A) i x :
  StronglySorted (λ a b, key a ≤ key b) l → NoDup (map key l) → l !! i = Some x →
  take i l = List.filter (λ a, key a <? key x) l.
Proof.
  intros Hs Hn Hx. pose proof (take_drop_middle l i x Hx) as Hl.
  rewrite <- Hl in Hs, Hn |- * at 2. rewrite List.filter_app. cbn. rewrite Z.ltb_irrefl.
  apply StronglySorted_app in Hs as (Hle & _ & Hs). apply StronglySorted_inv in Hs as [_ Hge].
  rewrite map_app in Hn. cbn in Hn. apply NoDup_app in Hn as (_ & Hd & _).
  rewrite filter_all, bfilter_none; [by rewrite app_nil_r|..]; apply Forall_forall.
  - intros a Ha. rewrite Forall_forall in Hge. specialize (Hge a Ha). lia.
  - intros a Ha. specialize (Hle a x Ha (ltac:(left))). assert (key a ≠ key x); [|lia]. intros He.
    apply (Hd (key a)); [apply list_elem_of_fmap; eauto|]. rewrite He. left.
Qed.

Lemma sorted_lookup {A} (R : relation A) (l : list A) i j x y :
  StronglySorted R l → l !! i = Some x → l !! j = Some y → (i < j)%nat → R x y.
Proof.
  intros Hs. revert i j. induction Hs as [|a l _ IH Ha]; intros i j; [done|].
  destruct i as [|i], j as [|j]; cbn; intros Hi Hj Hij; try lia; [|apply (IH i j Hi Hj); lia].
  injection Hi as ->. rewrite Forall_forall in Ha. apply Ha. by eapply list_elem_of_lookup_2.
Qed.

Section Turn.
Context {ETH AL SA SG Er IT PE : Type} `{AlloyRlp AL SA SG}.
Context {C F : Type} `{ForkConditionOps F} `{MorphHardforks C F}.
Abbreviation envelope := (MorphTxEnvelope.MorphTxEnvelope ETH AL SA SG).
Abbreviation pooled := (MorphPooledTransaction envelope).
Context (keccak256 : bytes → Z) (eth_encode_2718 : ETH → bytes).
Context (eth_view : ETH → TxView AL SA) (eth_max_fee_per_gas : ETH → Z).
Context (chain_spec : C) (state_by_block_hash : B256 → result (PoolDb Er IT) PE).
Context (hash_iter : gmap Address (list pooled) → list (Address * list pooled)).
Context {Pool : Type} (all_transactions : Pool → list pooled * list pooled).
Context (remove_transactions_and_descendants : list B256 → Pool → Pool).
Implicit Types (tx : pooled) (l : list pooled).

Abbreviation nonce := (nonce_of_tx eth_view).

(** The senders' transactions, grouped. *)
Lemma push_by_sender_lookup l (m : gmap Address (list pooled)) s :
  foldl push_by_sender m l !! s
  = match List.filter (λ tx, p_signer tx =? s) l with
    | [] => m !! s
    | own => Some (default [] (m !! s) ++ own)
    end.
Proof.
  revert m. induction l as [|tx l IH]; intros m; [done|]. cbn [foldl List.filter]. rewrite IH. unfold push_by_sender.
  destruct (Z.eqb_spec (p_signer tx) s) as [->|Hne].
  - rewrite lookup_insert_eq. cbn. destruct (List.filter _ l) as [|t own]; [done|]. by rewrite <- app_assoc.
  - by rewrite lookup_insert_ne by done.
Qed.

Definition pool_txs (pool : Pool) : list pooled := (all_transactions pool).1 ++ (all_transactions pool).2.

(** reth's pool removes the named transactions and what depends on them, and a
    [HashMap] walks its entries in some order. *)
Record pool_laws : Prop := {
  law_hash_iter m : hash_iter m ≡ₚ map_to_list m;
  law_remove hs pool tx : tx ∈ pool_txs (remove_transactions_and_descendants hs pool) ↔
    tx ∈ pool_txs pool
    ∧ ¬ ∃ t, t ∈ pool_txs pool ∧ p_hash t ∈ hs ∧ p_signer t = p_signer tx ∧ nonce t ≤ nonce tx;
}.

(** A pool holds a transaction once, and one transaction per sender and nonce. *)
Record pool_wf (pool : Pool) : Prop := {
  wf_nodup : NoDup (pool_txs pool);
  wf_hash t t' : t ∈ pool_txs pool → t' ∈ pool_txs pool → p_hash t = p_hash t' → t = t';
  wf_nonce t t' : t ∈ pool_txs pool → t' ∈ pool_txs pool → p_signer t = p_signer t' →
    nonce t = nonce t' → t = t';
}.

(** The Morph transactions of a sender, and those before one of them. *)
Definition own_morph (pool : Pool) (s : Address) : list pooled :=
  List.filter (λ tx, pool_is_morph_tx tx && (p_signer tx =? s)) (pool_txs pool).
Definition earlier (pool : Pool) tx : list pooled :=
  List.filter (λ t, nonce t <? nonce tx) (own_morph pool (p_signer tx)).

Section OneTurn.
Context (pool : Pool) (tip : Tip) (d : PoolDb Er IT) (info : L1BlockInfo).
Abbreviation hf := (morph_hardfork_at chain_spec (t_number tip) (t_timestamp tip)).
Hypothesis Hlaws : pool_laws.
Hypothesis Hwf : pool_wf pool.
Hypothesis Htxs : Forall pooled_ok (pool_txs pool).
Hypothesis Hstate : state_by_block_hash (t_hash tip) = Ok d.
Hypothesis Hinfo : try_fetch (db_slot d) hf = Ok info.
Hypothesis Hdb : db_ok d hf.
Hypothesis Hbasic : ∀ s account, db_basic d s = Ok account → 0 ≤ default 0 account < u256_max.

(** Payable at this tip, after the sender's earlier Morph transactions. *)
Definition affordable tx : Prop := ∀ account, db_basic d (p_signer tx) = Ok account →
  payable keccak256 eth_encode_2718 d info hf (t_gas_limit tip) (p_signer tx) (default 0 account)
    (earlier pool tx) tx.

Lemma own_morph_elem s tx : tx ∈ own_morph pool s ↔
  tx ∈ pool_txs pool ∧ pool_is_morph_tx tx = true ∧ p_signer tx = s.
Proof. unfold own_morph. rewrite elem_of_bfilter, andb_true_iff, Z.eqb_eq. done. Qed.

#[local] Instance by_nonce_trans : Transitive (by_nonce (AL := AL) (SA := SA) (SG := SG) eth_view).
Proof. intros a b c. unfold by_nonce. lia. Qed.
#[local] Instance by_nonce_total : Total (by_nonce (AL := AL) (SA := SA) (SG := SG) eth_view).
Proof. intros a b. unfold by_nonce. lia. Qed.

Lemma own_sorted s : StronglySorted (λ a b, nonce a ≤ nonce b) (merge_sort (by_nonce eth_view) (own_morph pool s)).
Proof. apply (StronglySorted_merge_sort (by_nonce eth_view)). Qed.

Lemma own_nonces s : NoDup (map nonce (merge_sort (by_nonce eth_view) (own_morph pool s))).
Proof.
  apply NoDup_fmap_2_strong.
  - intros a b Ha Hb. rewrite merge_sort_Permutation, own_morph_elem in Ha, Hb.
    destruct Ha as (Ha & _ & Hsa), Hb as (Hb & _ & Hsb). apply (wf_nonce _ Hwf); [done..|congruence].
  - rewrite merge_sort_Permutation. unfold own_morph. apply NoDup_ListNoDup, List.NoDup_filter, NoDup_ListNoDup, Hwf.
Qed.

Lemma payable_perm s (eth : Z) ps ps' tx : ps ≡ₚ ps' →
  payable keccak256 eth_encode_2718 d info hf (t_gas_limit tip) s eth ps tx ↔
  payable keccak256 eth_encode_2718 d info hf (t_gas_limit tip) s eth ps' tx.
Proof.
  intros Hp. unfold payable. assert (Hs : ∀ f : pooled → Z, sum_by f ps = sum_by f ps') by (intros; by rewrite Hp).
  by setoid_rewrite Hs.
Qed.

Lemma morph_type tx : pool_is_morph_tx tx = true → morph_of tx ≠ None.
Proof. unfold pool_is_morph_tx, ty, type_byte, morph_of. by destruct (p_transaction tx). Qed.

(** A sender's removed transaction is the first that is not affordable. *)
Lemma removed_spec s account : db_basic d s = Ok account →
  let removed := revalidate_entry keccak256 eth_encode_2718 eth_view eth_max_fee_per_gas d info hf (t_gas_limit tip)
                   (s, own_morph pool s) in
  (removed = [] ∧ ∀ t, t ∈ own_morph pool s → affordable t)
  ∨ ∃ t, removed = [p_hash t] ∧ t ∈ own_morph pool s ∧ ¬ affordable t
      ∧ ∀ t', t' ∈ own_morph pool s → nonce t' < nonce t → affordable t'.
Proof.
  intros Hacc. unfold revalidate_entry. cbn [fst snd]. rewrite Hacc.
  set (l := merge_sort (by_nonce eth_view) (own_morph pool s)).
  assert (Hin : ∀ x, x ∈ l ↔ x ∈ own_morph pool s) by (intros x; unfold l; by rewrite merge_sort_Permutation).
  assert (Hpay : ∀ i x, l !! i = Some x →
    affordable x ↔ payable keccak256 eth_encode_2718 d info hf (t_gas_limit tip) s (default 0 account) (take i l) x).
  { intros i x Hx. pose proof (list_elem_of_lookup_2 _ _ _ Hx) as Hxl. apply Hin, own_morph_elem in Hxl as (_ & _ & Hs).
    rewrite (payable_perm s _ _ (earlier pool x)).
    - unfold affordable. rewrite Hs. split; [intros Ha; by apply Ha|]. intros Ha a Hb. rewrite Hacc in Hb. by injection Hb as <-.
    - rewrite (sorted_before nonce l i x (own_sorted s) (own_nonces s) Hx). unfold earlier. rewrite Hs.
      unfold l. by rewrite merge_sort_Permutation. }
  destruct (walk_spec keccak256 eth_encode_2718 eth_view eth_max_fee_per_gas d info hf (t_gas_limit tip) s
    (default 0 account) Hdb (ex_intro _ (db_slot d) (conj (proj1 Hdb) Hinfo)) (Hbasic _ _ Hacc) l []
    {| b_eth_balance := default 0 account; b_token_balances := ∅ |}) as (kept & Hkept & Hres).
  { constructor. }
  { apply Forall_forall. intros x Hx. apply Hin, own_morph_elem in Hx as (Hx & Hty & _).
    rewrite Forall_forall in Htxs. split; [by apply Htxs|by apply morph_type]. }
  { split; cbn; [lia|apply (Hbasic _ _ Hacc)|]. intros id i _ _. rewrite lookup_empty. cbn. lia. }
  cbn [app] in Hkept, Hres. destruct Hres as [[Hl ->]|(t & rest & Hl & Hn & ->)].
  - left. split; [done|]. intros t Ht. apply Hin, list_elem_of_lookup in Ht as [i Hi]. apply (Hpay i t Hi).
    rewrite Hl in Hi |- *. by apply Hkept.
  - assert (Ht : l !! length kept = Some t) by (rewrite Hl; by apply list_lookup_middle).
    right. exists t. split_and!; [done|by apply Hin; eapply list_elem_of_lookup_2|rewrite (Hpay _ _ Ht), Hl, take_app_length; done|].
    intros x Hx Hlt. apply Hin, list_elem_of_lookup in Hx as [i Hi]. apply (Hpay i x Hi).
    assert (Hi' : (i < length kept)%nat).
    { destruct (Nat.lt_ge_cases i (length kept)) as [|Hge]; [done|]. exfalso.
      destruct (decide (i = length kept)) as [->|]; [rewrite Ht in Hi; injection Hi as ->; lia|].
      pose proof (sorted_lookup _ _ _ _ _ _ (own_sorted s) Ht Hi ltac:(lia)) as Hs. cbn in Hs. lia. }
    rewrite Hl in Hi |- *. rewrite take_app_le by lia. apply Hkept. by rewrite lookup_app_l in Hi.
Qed.

Lemma to_remove_elem h : h ∈ to_remove keccak256 eth_encode_2718 eth_view eth_max_fee_per_gas chain_spec state_by_block_hash
    hash_iter tip (all_transactions pool).1 (all_transactions pool).2 ↔
  ∃ s, own_morph pool s ≠ []
    ∧ h ∈ revalidate_entry keccak256 eth_encode_2718 eth_view eth_max_fee_per_gas d info hf (t_gas_limit tip) (s, own_morph pool s).
Proof.
  assert (Hown : ∀ s, own_morph pool s
      = List.filter (λ tx, p_signer tx =? s) (List.filter pool_is_morph_tx (pool_txs pool)))
    by (intros s; apply filter_and).
  unfold to_remove. fold (pool_txs pool). set (morph := List.filter pool_is_morph_tx (pool_txs pool)) in *.
  destruct morph as [|x l] eqn:Hm.
  { split; [by intros []%elem_of_nil|]. intros (s & Hs & _). by rewrite Hown in Hs. }
  rewrite <- Hm in *. clear Hm x l. rewrite Hstate, Hinfo, list_elem_of_In, in_concat. split.
  - intros (r & (e & <- & He)%in_map_iff & Hh). rewrite <- list_elem_of_In, (law_hash_iter Hlaws) in He.
    destruct e as [s own]. apply elem_of_map_to_list in He. rewrite push_by_sender_lookup, lookup_empty, <- Hown in He.
    exists s. destruct (own_morph pool s) as [|x l]; [done|]. cbn in He. injection He as <-.
    split; [done|]. by apply list_elem_of_In.
  - intros (s & Hne & Hh). eexists. split; [|apply list_elem_of_In; exact Hh]. apply in_map.
    rewrite <- list_elem_of_In, (law_hash_iter Hlaws). apply elem_of_map_to_list.
    rewrite push_by_sender_lookup, lookup_empty, <- Hown. by destruct (own_morph pool s).
Qed.

(** C14. A maintenance turn keeps exactly what can be paid.  Once the state and the L1
    parameters of the new tip are read, a transaction stays in the pool if and only if
    every Morph transaction of its sender up to its nonce fits the block gas limit, is
    valid at the tip's hardfork, and can be paid, in ETH and in each fee token, from what
    the sender's earlier Morph transactions leave when each pays its price cap; the
    transactions of a sender whose account cannot be read all stay.  The order in which
    senders are visited does not matter. *)
Theorem maintenance_keeps_payable tx :
  tx ∈ pool_txs (maintain_turn keccak256 eth_encode_2718 eth_view eth_max_fee_per_gas chain_spec state_by_block_hash
    hash_iter all_transactions remove_transactions_and_descendants pool tip) ↔
  tx ∈ pool_txs pool ∧ ∀ m, m ∈ own_morph pool (p_signer tx) → nonce m ≤ nonce tx → affordable m.
Proof.
  unfold maintain_turn. destruct (all_transactions pool) as [pending queued] eqn:Hall.
  pose proof to_remove_elem as Hrem. rewrite Hall in Hrem. cbn [fst snd] in Hrem.
  assert (Hkey : (¬ ∃ t, t ∈ pool_txs pool ∧ p_hash t ∈ to_remove keccak256 eth_encode_2718 eth_view eth_max_fee_per_gas
      chain_spec state_by_block_hash hash_iter tip pending queued ∧ p_signer t = p_signer tx ∧ nonce t ≤ nonce tx)
    ↔ ∀ m, m ∈ own_morph pool (p_signer tx) → nonce m ≤ nonce tx → affordable m).
  { split.
    - intros Hno m Hm Hle account Hacc.
      assert (Hs : p_signer m = p_signer tx) by by apply own_morph_elem in Hm as (_ & _ & ?).
      rewrite Hs in Hacc. revert account Hacc. rewrite <- Hs. change (affordable m).
      intros account Hacc. rewrite Hs in Hacc.
      destruct (removed_spec _ _ Hacc) as [[_ Hall']|(t & Hr & Ht & _ & Hbef)].
      + apply Hall'; [done|]. by rewrite Hs.
      + apply Hbef; [done| |by rewrite Hs]. destruct (Z.lt_ge_cases (nonce m) (nonce t)); [done|]. destruct Hno.
        pose proof Ht as (Htp & _ & Hts)%own_morph_elem. exists t. split_and!; [done| |done|lia].
        apply Hrem. exists (p_signer tx). split; [by intros Hn; rewrite Hn in Ht; apply elem_of_nil in Ht|].
        rewrite Hr. by apply list_elem_of_singleton.
    - intros Haff (t & Htp & Hh & Hts & Hle). apply Hrem in Hh as (s & _ & Hh).
      destruct (db_basic d s) as [account|] eqn:Hacc; [|unfold revalidate_entry in Hh; cbn in Hh; rewrite Hacc in Hh; by apply elem_of_nil in Hh].
      destruct (removed_spec _ _ Hacc) as [[Hr _]|(t' & Hr & Ht' & Hna & _)]; rewrite Hr in Hh; [by apply elem_of_nil in Hh|].
      apply list_elem_of_singleton in Hh. pose proof Ht' as (Htp' & _ & Hs')%own_morph_elem.
      rewrite <- (wf_hash _ Hwf _ _ Htp Htp' Hh) in *. apply Hna, Haff; [|done]. rewrite <- Hts, Hs'. done. }
  rewrite <- Hkey. destruct (to_remove _ _ _ _ _ _ _ _ _ _) as [|h hs].
  - split; [|tauto]. intros Htx. split; [done|]. by intros (t & _ & []%elem_of_nil & _).
  - apply (law_remove Hlaws).
Qed.
End OneTurn.
End Turn.
