(* ===== verification/PoolAdmission.v ===== *)
(** * Admitted transactions can pay

    The fee handler, run on the state the pool checked a transaction against, never
    refuses it for lack of funds, in ETH or in a fee token with a balance slot. *)

From stdpp Require Import sorting.
From S2P Require Import Prelude.
From S2P Require Import Hardfork.
From S2P Require Import Rlp.
From S2P Require Import MorphTx.
From S2P Require Import Envelope.
From S2P Require Import L1Fee.
From S2P Require Import TxEnv.
From S2P Require Import TokenFee.
From S2P Require Import Journal.
From S2P Require Import FeeHandler.
From S2P Require Import FeeSafety.
From S2P Require Import TxPool.
From S2P Require Import PoolSafety.

(** The first step of a computation that fails. *)
Ltac sm_err H :=
  let s := fresh "s" in let a := fresh "a" in let H1 := fresh "Hrun" in
  apply sm_bind_Err in H as [H|(s & a & H1 & H)].

(** An error that says the sender cannot pay. *)
Definition cannot_pay {Er} (err : EVMError Er InvalidTransaction) : Prop :=
  match err with
  | Transaction x =>
      match x with
      | EthInvalidTransaction (LackOfFundForMaxFee _ _ | OverflowPaymentInTransaction)
      | TokenNotRegistered _ | TokenIdZeroNotSupported | TokenNotActive _ | InvalidTokenConfig _
      | TokenBalanceQueryFailed | InsufficientTokenBalance _ _ => True
      | _ => False
      end
  | _ => False
  end.

Section Pays.
Context {J Er Code Log St CP : Type} `{JournalLaws J Er Code Log St CP}.
Context {AL SA RA : Type} (keccak256 : bytes → Z).
Context (price : MorphTxEnv AL SA RA → Z → Z).
Context (spending : MorphTxEnv AL SA RA → Z → Z → result Z InvalidTransaction).
Context (check_account : AccountInfo Code → Z → bool → bool → result unit InvalidTransaction).
Abbreviation evm := (MorphEvm J Er Log).
Abbreviation error := (EVMError Er InvalidTransaction).
Context (run_exec_loop : FrameInit Code → sm evm error FrameResult).
Context (eip7702_address : Code → option Address).
Context (tx : MorphTxEnv AL SA RA) (block : BlockEnv) (cfg : Cfg).
Abbreviation sender := (TxEnv.caller (inner tx)).

(** revm's account check looks at the nonce and the code, and its effective spending
    fails only when it overflows. *)
Record revm_check_laws : Prop := {
  check_not_payment i n b1 b2 x : check_account i n b1 b2 = Err x →
    x ≠ OverflowPaymentInTransaction ∧ ∀ fee balance, x ≠ LackOfFundForMaxFee fee balance;
  spending_total t b p : gas_limit (inner t) * price t b + value (inner t) ≤ u256_max →
    ∃ s, spending t b p = Ok s;
}.
Hypothesis Hlaws : revm_tx_laws price spending.
Hypothesis Hcheck : revm_check_laws.
Hypothesis Henv : env_ok tx.
Hypothesis Hbase : 0 ≤ basefee block.
Hypothesis Hcharge : is_fee_charge_disabled cfg = false.
Hypothesis Hbalance : is_balance_check_disabled cfg = false.

(** The largest total the transaction can cost in ETH, given its L1 fee. *)
Definition max_cost (l1 : Z) : Z :=
  gas_limit (inner tx) * max_fee_per_gas tx + value (inner tx) + l1.

Lemma price_bounds : 0 ≤ price tx (basefee block) ≤ max_fee_per_gas tx.
Proof. by apply (price_capped _ _ Hlaws). Qed.

Lemma caller_fee_accepts bal l1 : 0 ≤ l1 → max_cost l1 ≤ bal ≤ u128_max →
  ∃ nb, calculate_caller_fee_with_l1_cost spending tx block cfg bal l1 = Ok nb.
Proof.
  intros Hl [Hc Hu]. unfold calculate_caller_fee_with_l1_cost. rewrite Hcharge, Hbalance. cbn [negb].
  pose proof price_bounds as Hp. pose proof Henv as [Hg Hv Hm _]. unfold in_range, max_cost in *.
  pose proof uint_max_order.
  assert (H0g : 0 ≤ gas_limit (inner tx) * max_fee_per_gas tx) by nonneg.
  assert (Hpg : gas_limit (inner tx) * price tx (basefee block) ≤ gas_limit (inner tx) * max_fee_per_gas tx)
    by (apply Z.mul_le_mono_nonneg_l; lia).
  unfold checked_mul. destruct (Z.leb_spec (gas_limit (inner tx) * max_fee_per_gas tx) u128_max); [|lia].
  cbn [ok_or result_bind]. unfold checked_add at 2.
  destruct (Z.leb_spec (gas_limit (inner tx) * max_fee_per_gas tx + value (inner tx)) u256_max); [|lia].
  cbn [mbind option_bind]. unfold checked_add.
  destruct (Z.leb_spec (gas_limit (inner tx) * max_fee_per_gas tx + value (inner tx) + l1) u256_max); [|lia].
  cbn [ok_or result_bind].
  destruct (Z.ltb_spec bal (gas_limit (inner tx) * max_fee_per_gas tx + value (inner tx) + l1)); [lia|]. cbn [result_bind].
  destruct (spending_total Hcheck tx (basefee block) (default 0 (blob_gasprice block))) as [s ->]; [lia|].
  cbn. eauto.
Qed.

Lemma on_journal_Err {A} (c : sm J Er A) (e e' : evm) err : on_journal c e = (e', Err err) → ¬ cannot_pay err.
Proof. unfold on_journal. destruct (c (journal e)) as [j [a|x]]; [done|]. intros [= _ <-]. by intros []. Qed.

Lemma check_Err i n b1 b2 (e e' : evm) err :
  eth_try (check_account i n b1 b2) e = (e', Err err) → ¬ cannot_pay err.
Proof.
  unfold eth_try, tx_try, sm_lift. destruct (check_account i n b1 b2) as [|x] eqn:Hx; [done|]. intros [= _ <-]. cbn.
  destruct (check_not_payment Hcheck _ _ _ _ _ Hx) as [H1 H2]. destruct x; [|by destruct (H2 fee balance)|intros []..]. by destruct H1.
Qed.

Lemma fetch_l1_Err (e e' : evm) err : fetch_l1_data_fee tx cfg e = (e', Err err) → ¬ cannot_pay err.
Proof.
  unfold fetch_l1_data_fee. intros Hrun. sm_err Hrun; [|done]. unfold sm_read in Hrun.
  destruct (try_fetch _ _); [done|]. injection Hrun as _ <-. by intros [].
Qed.

(** What the handler fetches, as the pool computes it. *)
Lemma fetch_l1_value (e e' : evm) l1 info : try_fetch (db_storage (journal e)) (spec cfg) = Ok info →
  fetch_l1_data_fee tx cfg e = (e', Ok l1) →
  e' = e ∧ l1 = calculate_tx_l1_cost info (default [] (rlp_bytes tx)) (spec cfg).
Proof.
  intros Hf. unfold fetch_l1_data_fee. intros Hrun. sm_inv Hrun. injection Hrun0 as <- Hr%map_err_Ok.
  rewrite Hf in Hr. injection Hr as <-. by injection Hrun as <- <-.
Qed.

Lemma bump_never_fails (e e' : evm) err : bump_nonce_if_call tx e ≠ (e', Err err).
Proof. unfold bump_nonce_if_call. by destruct (TxMorph.is_create _). Qed.

Lemma eth_fee_accepted (e e' : evm) info err :
  try_fetch (db_storage (journal e)) (spec cfg) = Ok info →
  max_cost (calculate_tx_l1_cost info (default [] (rlp_bytes tx)) (spec cfg)) ≤ balance_of (journal e) sender ≤ u128_max →
  validate_and_deduct_eth_fee spending check_account tx block cfg e = (e', Err err) → ¬ cannot_pay err.
Proof.
  intros Hf Hcost. set (l1 := calculate_tx_l1_cost info (default [] (rlp_bytes tx)) (spec cfg)) in *.
  assert (Hl1 : 0 ≤ l1) by (eapply l1_cost_range; [|exact Hf]; intros; by eapply db_storage_u256).
  intros Hrun. unfold validate_and_deduct_eth_fee in Hrun. sm_err Hrun; [by eapply fetch_l1_Err|].
  apply (fetch_l1_value _ _ _ _ Hf) in Hrun0 as [-> ->]. fold l1 in Hrun.
  sm_err Hrun; [done|]. injection Hrun0 as <- <-.
  sm_err Hrun; [by eapply on_journal_Err|]. destruct a as [i c]. apply load_account_Ok in Hrun0 as (j1 & -> & _ & Hi).
  sm_err Hrun; [by eapply check_Err|]. apply eth_try_Ok in Hrun0 as [_ ->].
  cbn in Hi. destruct (caller_fee_accepts (info_balance i) l1) as [nb Hnb]; [done|by rewrite Hi|].
  rewrite Hnb in Hrun. sm_err Hrun; [done|]. injection Hrun0 as <- <-.
  sm_err Hrun; [done|]. by apply bump_never_fails in Hrun.
Qed.

(** *** In tokens *)

Lemma slot_transfer_accepted (j j' : J) from to token amount bs (err : error) :
  amount ≤ slot_of j token (compute_mapping_slot_for_address keccak256 bs from) →
  transfer_erc20_with_slot keccak256 from to token amount bs j = (j', Err err) → ¬ cannot_pay err.
Proof.
  intros Hle. unfold transfer_erc20_with_slot. intros Hrun. sm_err Hrun.
  { unfold db, sm_map_err in Hrun. destruct (load_account token j) as [j1 [a|x]]; [done|]. injection Hrun as _ <-. by intros []. }
  assert (Hv1 : same_view s j).
  { pose proof (load_account_view token j) as Hv. unfold db, sm_map_err in Hrun0.
    destruct (load_account token j) as [j1 r]. by injection Hrun0 as <- _. }
  sm_err Hrun; [done|]. injection Hrun1 as <- _.
  unfold with_journal_checkpoint in Hrun. pose proof (checkpoint_view (touch token s)) as Hv2.
  destruct (checkpoint (touch token s)) as [j2 cp] eqn:Hcp. cbn in Hv2.
  assert (Hv : same_view j2 j) by by rewrite Hv2, touch_view, Hv1.
  match type of Hrun with match ?f j2 with _ => _ end = _ => destruct (f j2) as [j3 [val|x]] eqn:Hf end; [done|].
  injection Hrun as _ <-. cbv zeta in Hf. sm_err Hf.
  { unfold db, sm_map_err in Hf. destruct (sload _ _ j2) as [j4 [b|y]]; [done|]. injection Hf as _ <-. by intros []. }
  unfold db, sm_map_err in Hrun. destruct (sload token _ j2) as [j4 [b|y]] eqn:Hsl; [|done]. injection Hrun as <- <-.
  apply sload_value in Hsl. rewrite Hv in Hsl. subst b.
  sm_err Hf.
  { unfold sm_lift, checked_sub in Hf. destruct (Z.leb_spec amount (slot_of j token
      (compute_mapping_slot_for_address keccak256 bs from))); [done|lia]. }
  destruct (_ =? _); [done|]. sm_err Hf.
  { unfold db, sm_map_err in Hf. destruct (sload _ _ s0) as [j5 [b|y]]; [done|]. injection Hf as _ <-. by intros []. }
  sm_err Hf.
  { unfold sm_lift in Hf. destruct (checked_add _ _ _); [done|]. injection Hf as _ <-. by intros []. }
  sm_err Hf.
  { unfold db, sm_map_err in Hf. destruct (sstore _ _ _ _) as [j5 [b|y]]; [done|]. injection Hf as _ <-. by intros []. }
  sm_err Hf; [|done].
  unfold db, sm_map_err in Hf. destruct (sstore _ _ _ _) as [j5 [b|y]]; [done|]. injection Hf as _ <-. by intros [].
Qed.

Lemma value_check_accepted (e e' : evm) err : value (inner tx) ≤ balance_of (journal e) sender →
  (if negb (is_fee_charge_disabled cfg) && negb (value (inner tx) =? 0) then
     '(account, _) ← on_journal (load_account sender);
     if info_balance account <? value (inner tx) then
       sm_fail (Transaction (EthInvalidTransaction
         (LackOfFundForMaxFee (value (inner tx)) (info_balance account))))
     else mret tt
   else mret tt) e = (e', Err err) → ¬ cannot_pay err.
Proof.
  intros Hv. destruct (_ && _); [|done]. intros Hrun. sm_err Hrun; [by eapply on_journal_Err|].
  destruct a as [i c]. apply load_account_Ok in Hrun0 as (j1 & -> & _ & Hi).
  destruct (Z.ltb_spec (info_balance i) (value (inner tx))); [lia|done].
Qed.

Lemma bump_for_call_Err (e e' : evm) err :
  (if negb (TxMorph.is_create (kind (inner tx))) then
     on_journal (load_account sender);; mod_journal (bump_nonce sender)
   else mret tt) e = (e', Err err) → ¬ cannot_pay err.
Proof. destruct (negb _); [|done]. intros Hrun. sm_err Hrun; [by eapply on_journal_Err|done]. Qed.

(** The token the sender pays in, with what its entry and its balance slot hold. *)
Definition fee_info_at (entry : TokenRegistryEntry) (bs : Z) (e : evm) : TokenFeeInfo :=
  into_fee_info entry sender
    (slot_of (journal e) (e_token_address entry) (compute_mapping_slot_for_address keccak256 bs sender)).

Lemma token_fee_accepted tid entry bs info (e e' : evm) err :
  fresh_storage (journal e) → tid ≠ 0 → load keccak256 (db_storage (journal e)) tid = Ok (Some entry) →
  e_balance_slot entry = Some bs → e_is_active entry = true → 0 < e_price_ratio entry → 0 < e_scale entry →
  value (inner tx) ≤ balance_of (journal e) sender →
  try_fetch (db_storage (journal e)) (spec cfg) = Ok info →
  let l1 := calculate_tx_l1_cost info (default [] (rlp_bytes tx)) (spec cfg) in
  eth_to_token_amount (fee_info_at entry bs e) (gas_limit (inner tx) * max_fee_per_gas tx + l1)
    ≤ effective_fee_limit (fee_info_at entry bs e) (default 0 (fee_limit tx)) →
  validate_and_deduct_token_fee keccak256 price check_account run_exec_loop eip7702_address tx block cfg tid e
    = (e', Err err) → ¬ cannot_pay err.
Proof.
  intros Hfresh Htid Hload Hbs Hact Hpr Hsc Hval Hf l1 Hlim Hrun. unfold validate_and_deduct_token_fee in Hrun.
  rewrite (proj2 (Z.eqb_neq _ _) Htid) in Hrun. cbv zeta in Hrun.
  sm_err Hrun; [by eapply on_journal_Err|]. destruct a as [i c]. apply load_account_same in Hrun0 as Hs1.
  sm_err Hrun; [by eapply check_Err|]. apply eth_try_Ok in Hrun1 as [_ ->].
  sm_err Hrun; [eapply value_check_accepted; [|exact Hrun]; by rewrite (proj1 Hs1)|]. apply value_check_same in Hrun1.
  pose proof (same_state_trans _ _ _ Hs1 Hrun1) as [Hv Hd]. clear Hs1 Hrun1 Hrun0.
  sm_err Hrun.
  { unfold sm_read in Hrun. rewrite (load_ext _ _ _ _ Hd), Hload in Hrun. done. }
  injection Hrun0 as <- Hl%map_err_Ok. rewrite (load_ext _ _ _ _ Hd), Hload in Hl. injection Hl as <-.
  sm_err Hrun; [done|]. apply tx_try_Ok in Hrun0 as [[= <-] ->].
  assert (Hus : ensure_usable (IT := InvalidTransaction) entry tid = Ok entry)
    by (apply ensure_usable_Ok; split_and!; [done|done|lia|lia]).
  rewrite Hus in Hrun. sm_err Hrun; [done|]. apply tx_try_Ok in Hrun0 as [[= <-] ->]. rewrite Hcharge in Hrun.
  assert (Hbal : ∀ r, read_balance_from_storage keccak256 (db_storage (journal s0)) (e_token_address entry) sender bs = Ok r →
    into_fee_info entry sender r = fee_info_at entry bs e).
  { intros r Hr. unfold read_balance_from_storage, read_mapping_value in Hr. rewrite Hd in Hr. by apply Hfresh in Hr as ->. }
  unfold load_token_fee_info in Hrun. rewrite Hbs in Hrun. sm_err Hrun.
  { sm_err Hrun; [|done]. unfold sm_read in Hrun. destruct (read_balance_from_storage _ _ _ _ _); [done|].
    injection Hrun as _ <-. by intros []. }
  sm_inv Hrun0. injection Hrun1 as <- Hr%map_err_Ok. injection Hrun0 as <- <-. rewrite (Hbal _ Hr) in Hrun. clear Hbal Hr.
  set (fi := fee_info_at entry bs e) in *.
  sm_err Hrun; [by eapply fetch_l1_Err|].
  assert (Hf' : try_fetch (db_storage (journal s0)) (spec cfg) = Ok info).
  { rewrite <- Hf. unfold try_fetch. by rewrite !Hd. }
  apply (fetch_l1_value _ _ _ _ Hf') in Hrun0 as [-> ->]. fold l1 in Hrun. unfold gas_price_now in Hrun.
  assert (Hl1 : 0 ≤ l1 ≤ u64_max) by (eapply l1_cost_range; [|exact Hf]; intros; by eapply db_storage_u256).
  pose proof price_bounds as Hp. pose proof Henv as [Hg _ Hm _].
  rewrite prepaid_fits in Hrun by (unfold in_range in *; done || lia).
  assert (Hamt : (eth_to_token_amount_with_credit fi (prepaid price tx block + l1)).1
    ≤ effective_fee_limit fi (default 0 (fee_limit tx))).
  { etrans; [|exact Hlim]. apply token_amount_mono; [|cbn; lia..]. unfold prepaid, in_range in *.
    assert (gas_limit (inner tx) * price tx (basefee block) ≤ gas_limit (inner tx) * max_fee_per_gas tx)
      by (apply Z.mul_le_mono_nonneg_l; lia).
    assert (0 ≤ gas_limit (inner tx) * price tx (basefee block)) by nonneg. lia. }
  destruct (eth_to_token_amount_with_credit fi _) as [amount credit]. cbn [fst] in Hamt.
  destruct (Z.ltb_spec (effective_fee_limit fi (default 0 (fee_limit tx))) amount); [lia|].
  change (balance_slot fi) with (e_balance_slot entry) in Hrun. rewrite Hbs in Hrun.
  sm_err Hrun.
  { destruct (amount =? 0); [done|]. sm_err Hrun; [|by repeat case_match].
    unfold with_journal in Hrun. destruct (transfer_erc20_with_slot _ _ _ _ _ _ _) as [j' [r|x]] eqn:Ht; [done|].
    injection Hrun as _ <-. eapply slot_transfer_accepted; [|exact Ht]. cbn. rewrite Hv.
    unfold effective_fee_limit, fi in *. cbn in *. destruct (_ =? 0); lia. }
  sm_err Hrun; [by rewrite bool_decide_eq_false_2 in Hrun|].
  sm_err Hrun; [by eapply bump_for_call_Err|done].
Qed.
End Pays.

(** ** From the pool to the handler *)

(** The effective limit never exceeds the balance. *)
Lemma effective_limit_le i limit : effective_fee_limit i limit ≤ balance i.
Proof. unfold effective_fee_limit. destruct (_ =? 0); lia. Qed.

(** With a zero scale or price nothing is payable. *)
Lemma unusable_amount i x : price_ratio i = 0 ∨ scale i = 0 → eth_to_token_amount i x = u256_max.
Proof.
  intros Hz. unfold eth_to_token_amount, eth_to_token_amount_with_credit.
  destruct (Z.eqb_spec (price_ratio i) 0), (Z.eqb_spec (scale i) 0); try done. lia.
Qed.

Section Admission.
Context {J Er Code Log St CP : Type} `{JournalLaws J Er Code Log St CP}.
Context {ETH AL SA RA SG IT PE C F Origin State : Type}.
Context `{AlloyRlp AL SA SG} `{ForkConditionOps F} `{MorphHardforks C F}.
Abbreviation envelope := (MorphTxEnvelope.MorphTxEnvelope ETH AL SA SG).
Abbreviation pooled := (MorphPooledTransaction envelope).
Abbreviation evm := (MorphEvm J Er Log).
Abbreviation error := (EVMError Er InvalidTransaction).
Context (keccak256 : bytes → Z) (eth_view : ETH → TxView AL SA) (eth_encode_2718 : ETH → bytes).
Context (empty_access_list : AL) (recover_authorization : SA → RA).
Context (price : MorphTxEnv AL SA RA → Z → Z).
Context (spending : MorphTxEnv AL SA RA → Z → Z → result Z InvalidTransaction).
Context (check_account : AccountInfo Code → Z → bool → bool → result unit InvalidTransaction).
Context (run_exec_loop : FrameInit Code → sm evm error FrameResult).
Context (eip7702_address : Code → option Address).
Context (chain_spec : C) (state_by_block_number : Z → result (PoolDb Er IT) PE).
Context (ensure_max_init_code_size : pooled → Z → result unit TxError.InvalidPoolTransactionError).
Context (inner_validate : Origin → pooled → option State → TransactionValidationOutcome pooled * option State).
Context (origin : Origin) (tx : pooled) (block : BlockEnv) (cfg : Cfg).
Context (bi : MorphL1BlockInfo) (d : PoolDb Er IT) (e : evm).

(** The environment the transaction is executed in. *)
Abbreviation env := (from_recovered_tx eth_view eth_encode_2718 empty_access_list recover_authorization
  (p_transaction tx) (p_signer tx)).

(** The pool looked at the state that the transaction is now executed on; reth's
    validator passes the transaction and its sender's balance on, and computed its cost;
    its fee token has a balance slot. *)
Record pool_at_state : Prop := {
  ps_state : state_by_block_number (bi_number bi) = Ok d;
  ps_slots a k : db_slot d a k = db_storage (journal e) a k;
  ps_calls a b v : db_balance_of d (spec cfg) a b = Ok v → is_u256 v;
  ps_fresh : fresh_storage (journal e);
  ps_info : try_fetch (db_slot d) (spec cfg) = Ok (bi_l1_block_info bi);
  ps_spec : spec cfg = morph_hardfork_at chain_spec (bi_number bi) (bi_timestamp bi);
  ps_funds : 0 ≤ balance_of (journal e) (p_signer tx) ≤ u128_max;
  ps_inner st b n h tx' p a st' : inner_validate origin tx st = (Valid b n h tx' p a, st') →
    tx' = tx ∧ b = balance_of (journal e) (p_signer tx);
  ps_cost : pool_is_morph_tx tx = false →
    p_cost tx = saturating_add u256_max
      (saturating_mul u256_max (gas_limit (inner env)) (max_fee_per_gas env)) (value (inner env));
  ps_slot_mode m entry : morph_of tx = Some m →
    load keccak256 (db_slot d) (TxMorph.fee_token_id m) = Ok (Some entry) →
    ∃ bs, e_balance_slot entry = Some bs
      ∧ slot_of (journal e) (e_token_address entry) (compute_mapping_slot_for_address keccak256 bs (p_signer tx)) < u256_max;
}.

Lemma admitted_checked b n h tx' p a : pool_at_state →
  validate_one keccak256 eth_encode_2718 chain_spec state_by_block_number ensure_max_init_code_size inner_validate
    bi origin tx = Valid b n h tx' p a →
  check_fees keccak256 eth_encode_2718 chain_spec state_by_block_number bi (pool_is_morph_tx tx) tx
    (balance_of (journal e) (p_signer tx)) = Ok tt ∧ TxEnv.is_l1_msg env = false.
Proof.
  intros Hps. unfold validate_one, validate_one_with_state.
  destruct (is_eip4844 tx); [done|]. destruct (is_l1_message tx) eqn:Hl1; [done|].
  destruct (_ && _); [done|]. destruct (_ && _); [done|]. destruct (ensure_max_init_code_size _ _) as [|x]; [|done].
  destruct (inner_validate origin tx None) as [o st] eqn:Hin. destruct o; [|done..].
  destruct (ps_inner Hps _ _ _ _ _ _ _ _ Hin) as [-> ->].
  destruct (check_fees _ _ _ _ _ _ _ _) as [[]|x] eqn:Hc; [|done]. intros _. split; [done|].
  unfold TxEnv.is_l1_msg. unfold is_l1_message, ty in Hl1. rewrite <- Hl1.
  unfold from_recovered_tx, from_tx_with_rlp_bytes.
  destruct (p_transaction tx); try done. cbn. by repeat case_match.
Qed.

Lemma env_caller : TxEnv.caller (inner env) = p_signer tx ∧ rlp_bytes env = Some (rlp eth_encode_2718 (p_transaction tx)).
Proof.
  unfold from_recovered_tx, from_tx_with_rlp_bytes. destruct (p_transaction tx); try done. cbn. by repeat case_match.
Qed.

(** The fields of a Morph transaction's environment. *)
Lemma env_morph m : morph_of tx = Some m →
  TxEnv.is_morph_tx env = true ∧ fee_token_id env = Some (TxMorph.fee_token_id m)
  ∧ fee_limit env = Some (TxMorph.fee_limit m) ∧ gas_limit (inner env) = TxMorph.gas_limit m
  ∧ max_fee_per_gas env = TxMorph.max_fee_per_gas m ∧ value (inner env) = TxMorph.value m.
Proof.
  unfold morph_of, from_recovered_tx. destruct (p_transaction tx) as [| | | | |s]; try done. intros [= <-].
  destruct s as [m sg]. rewrite env_of_morph. done.
Qed.

(** The registry entry behind the token the pool checked, as the handler reads it. *)
Lemma token_of_entry m i : pool_at_state → morph_of tx = Some m →
  token_of keccak256 d (spec cfg) (p_signer tx) (TxMorph.fee_token_id m) = Some i →
  ∃ entry bs, load keccak256 (db_storage (journal e)) (TxMorph.fee_token_id m) = Ok (Some entry)
    ∧ e_balance_slot entry = Some bs ∧ balance i < u256_max
    ∧ i = into_fee_info entry (p_signer tx)
            (slot_of (journal e) (e_token_address entry) (compute_mapping_slot_for_address keccak256 bs (p_signer tx))).
Proof.
  intros Hps Hm. unfold token_of. destruct (load_for_caller _ _ _ _ _) as [o|] eqn:Hl; [|done]. intros ->.
  unfold load_for_caller in Hl. apply bind_Ok in Hl as (o & Ho%map_err_Ok & Hl).
  destruct o as [entry|]; [|done]. apply bind_Ok in Hl as (i' & Hi & [= ->]).
  destruct (ps_slot_mode Hps m entry Hm Ho) as (bs & Hbs & Hlt).
  unfold entry_load_for_caller in Hi. apply bind_Ok in Hi as (v & Hv & [= <-]). rewrite Hbs in Hv.
  unfold read_token_balance_with_fallback in Hv. apply map_err_Ok in Hv.
  unfold read_balance_from_storage, read_mapping_value in Hv. rewrite (ps_slots Hps) in Hv.
  apply (ps_fresh Hps) in Hv as ->.
  exists entry, bs. rewrite <- (load_ext _ _ _ _ (ps_slots Hps)). done.
Qed.

(** A transaction of another type pays in ETH. *)
Lemma env_other : pool_is_morph_tx tx = false → TxEnv.is_morph_tx env = false.
Proof.
  unfold pool_is_morph_tx, ty, from_recovered_tx, TxEnv.is_morph_tx. intros <-.
  unfold from_tx_with_rlp_bytes. destruct (p_transaction tx); try done. cbn. by repeat case_match.
Qed.

Section Executed.
Hypothesis Hps : pool_at_state.
Hypothesis Hok : pooled_ok tx.
Hypothesis Henv : env_ok env.
Hypothesis Hbf : 0 ≤ basefee block.
Hypothesis Hlaws : revm_tx_laws price spending.
Hypothesis Hcheck : revm_check_laws price spending check_account.
Hypothesis Hcharge : is_fee_charge_disabled cfg = false.
Hypothesis Hbalance : is_balance_check_disabled cfg = false.
Abbreviation deduct := (validate_against_state_and_deduct_caller keccak256 price spending check_account run_exec_loop
  eip7702_address env block cfg).
Abbreviation l1 := (l1_fee_of eth_encode_2718 (bi_l1_block_info bi) (spec cfg) tx).

Lemma ps_words a k v : db_slot d a k = Ok v → is_u256 v.
Proof. rewrite (ps_slots Hps). apply db_storage_u256. Qed.

Lemma ps_fetch : try_fetch (db_storage (journal e)) (spec cfg) = Ok (bi_l1_block_info bi).
Proof. rewrite <- (ps_info Hps). unfold try_fetch. by rewrite !(ps_slots Hps). Qed.

(** A maximum ETH cost within the balance is enough for a transaction that pays in ETH. *)
Lemma eth_payer_accepted (e' : evm) err : pays_eth env →
  max_cost env l1 ≤ balance_of (journal e) (p_signer tx) → deduct e = (e', Err err) → ¬ cannot_pay err.
Proof.
  intros Hpe Hcost. rewrite deduct_pays_eth by done. destruct env_caller as [Hcaller Hrlp].
  apply (eth_fee_accepted price spending check_account env block cfg Hlaws Hcheck Henv Hbf Hcharge Hbalance
    (reset e) _ _ _ ps_fetch).
  rewrite Hcaller, Hrlp. exact (conj Hcost (proj2 (ps_funds Hps))).
Qed.

(** The token side of admission is enough for one that pays in a token. *)
Lemma token_payer_accepted m res (e' : evm) err : morph_of tx = Some m → TxMorph.fee_token_id m ≠ 0 →
  TxEnv.is_l1_msg env = false → TxMorph.value m ≤ balance_of (journal e) (p_signer tx) →
  token_side keccak256 eth_encode_2718 d (bi_l1_block_info bi) (spec cfg) (p_signer tx) tx m res →
  deduct e = (e', Err err) → ¬ cannot_pay err.
Proof.
  intros Hm Hid Hnl1 Hv (i & Hi & Hact & Hpr & Hlim & _) Hrun.
  destruct (env_morph m Hm) as (E1 & E2 & E3 & E4 & E5 & E6). destruct env_caller as [Hcaller Hrlp].
  assert (Hrun' : validate_and_deduct_token_fee keccak256 price check_account run_exec_loop eip7702_address env block cfg
    (TxMorph.fee_token_id m) (reset e) = (e', Err err)).
  { assert (Ht : token_id env = TxMorph.fee_token_id m) by (unfold token_id; by rewrite E2).
    unfold validate_against_state_and_deduct_caller in Hrun. rewrite Hnl1, E1, Ht in Hrun.
    destruct (Hok m Hm) as (_ & _ & _ & _ & Hpos). by destruct (Z.ltb_spec 0 (TxMorph.fee_token_id m)); [|lia]. }
  destruct (token_of_entry m i Hps Hm Hi) as (entry & bs & Hload & Hbs & Hlt & Hi').
  destruct (token_of_ranges keccak256 d (spec cfg) (p_signer tx) (conj ps_words (ps_calls Hps)) _ _ Hi) as (_ & Hp0 & Hs0).
  pose proof (effective_limit_le i (TxMorph.fee_limit m)).
  assert (Hsc : scale i ≠ 0) by (intros Hz; rewrite (unusable_amount i) in Hlim by auto; lia).
  eapply (token_fee_accepted keccak256 price spending check_account run_exec_loop eip7702_address env block cfg
    Hlaws Hcheck Henv Hbf Hcharge (TxMorph.fee_token_id m) entry bs _ (reset e)); try done.
  all: rewrite ?Hcaller, ?Hrlp, ?E3, ?E4, ?E5, ?E6; unfold fee_info_at; rewrite ?Hcaller; cbn [default].
  all: subst i; cbn in *; try done; try lia; first [exact (ps_fresh Hps)|exact ps_fetch].
Qed.
End Executed.

(** C13. A transaction that the pool admits can pay, in ETH or in a fee token whose
    balances are in a storage slot.  Executed on the state the pool looked at
    ([pool_at_state]: the same storage, hardfork and L1 parameters, an ETH balance within
    128 bits, a registry entry with a balance slot that holds less than the largest word),
    with fee and balance checks enabled, the fee handler does not refuse it for lack of
    funds, whatever the base fee of the block: neither because ETH does not cover value
    and fee, nor because its fee token is unknown, inactive or misconfigured, nor because
    the token balance or the fee limit is too small.  Tokens without a balance slot, whose
    balance is read by a call of the token contract, are not covered. *)
Theorem admitted_tx_can_pay b n h tx' p a :
  pool_at_state → pooled_ok tx → env_ok env → 0 ≤ basefee block →
  revm_tx_laws price spending → revm_check_laws price spending check_account →
  is_fee_charge_disabled cfg = false → is_balance_check_disabled cfg = false →
  validate_one keccak256 eth_encode_2718 chain_spec state_by_block_number ensure_max_init_code_size inner_validate
    bi origin tx = Valid b n h tx' p a →
  ∀ err, (validate_against_state_and_deduct_caller keccak256 price spending check_account run_exec_loop eip7702_address
            env block cfg e).2 = Err err → ¬ cannot_pay err.
Proof.
  intros Hps Hok Henv Hbf Hlaws Hcheck Hc1 Hc2 Hval err.
  destruct (validate_against_state_and_deduct_caller _ _ _ _ _ _ _ _ _ _) as [e' r] eqn:Hrun. cbn [snd]. intros ->.
  destruct (admitted_checked _ _ _ _ _ _ Hps Hval) as [Hfees Hnl1].
  pose proof (ps_funds Hps) as Hfunds. pose proof uint_max_order as Hord.
  unfold check_fees in Hfees. rewrite <- (ps_spec Hps) in Hfees. change (calculate_tx_l1_cost _ _ _)
    with (l1_fee_of eth_encode_2718 (bi_l1_block_info bi) (spec cfg) tx) in Hfees.
  assert (Hst : ∃ db', (∀ a k v, db' a k = Ok v → is_u256 v) ∧ try_fetch db' (spec cfg) = Ok (bi_l1_block_info bi))
    by exact (ex_intro _ (db_slot d) (conj (ps_words Hps) (ps_info Hps))).
  destruct (pool_is_morph_tx tx) eqn:Hmt.
  - pose proof (morph_type tx Hmt) as Hne. destruct (morph_of tx) as [m|] eqn:Hm; [clear Hne|done].
    destruct (env_morph m Hm) as (E1 & E2 & _ & E4 & E5 & E6).
    apply bind_Ok in Hfees as (res & Hadm%map_err_Ok & _).
    unfold validate_morph_tx_balance in Hadm. rewrite (ps_state Hps) in Hadm.
    apply (admission_spec keccak256 eth_encode_2718 d _ (spec cfg) (p_signer tx) Hst tx m _ res Hok Hm) in Hadm
      as (_ & Hv & Hside); [|lia].
    destruct (Z.eqb_spec (TxMorph.fee_token_id m) 0) as [Hid|Hid]; [|by eapply token_payer_accepted].
    eapply eth_payer_accepted; [done..| | |exact Hrun].
    + split; [done|]. unfold token_id. by rewrite E1, E2, Hid.
    + unfold max_cost. rewrite E4, E5, E6. destruct Hside as [Hcost _]. unfold fee_cap in Hcost. lia.
  - apply reject_Ok in Hfees as [Hcost _]. bool_simp. rewrite (ps_cost Hps Hmt) in Hcost.
    pose proof (l1_fee_range eth_encode_2718 (bi_l1_block_info bi) (spec cfg) Hst tx) as Hl1.
    eapply eth_payer_accepted; [done..|split; [done|by rewrite env_other]| |exact Hrun].
    unfold max_cost. destruct Henv as [Hg Hv Hm _]. unfold saturating_add, saturating_mul, in_range in *.
    assert (0 ≤ gas_limit (inner env) * max_fee_per_gas env) by nonneg. lia.
Qed.
End Admission.

(** ** A concrete pool *)

Module PoolSamples.
Import Concrete TokenSamples MapJournal FeeSamples.
#[export] Existing Instance MapJournal.ops.
#[export] Existing Instance MapJournal.laws.
#[export] Existing Instance Standard.ops.

Abbreviation envelope := (MorphTxEnvelope.MorphTxEnvelope unit (list bytes) bytes Standard.Signature).
Abbreviation pooled := (MorphPooledTransaction envelope).

Definition morph (nonce gas value token : Z) : TxMorph.TxMorph (list bytes) bytes := {|
  TxMorph.chain_id := 2818; TxMorph.nonce := nonce; TxMorph.gas_limit := gas;
  TxMorph.max_fee_per_gas := 2000000; TxMorph.max_priority_fee_per_gas := 500000;
  TxMorph.to := Call 0x33; TxMorph.value := value; TxMorph.access_list := [];
  TxMorph.version := 1; TxMorph.fee_token_id := token; TxMorph.fee_limit := 0;
  TxMorph.reference := None; TxMorph.memo := None; TxMorph.authorization_list := [];
  TxMorph.input := [] |}.

Definition pool_tx (nonce gas value token : Z) : pooled := {|
  p_transaction := MorphTxEnvelope.Morph {| MorphTxEnvelope.tx := morph nonce gas value token;
                     MorphTxEnvelope.signature := TxMorph.sample_signature |};
  p_signer := 0x11; p_hash := 100 + nonce; p_cost := value |}.

(** Paid in token 3; in ETH, with more value than is left; and again in ETH. *)
Definition first_tx : pooled := pool_tx 0 100000 (4 * 10 ^ 17) 3.
Definition second_tx : pooled := pool_tx 1 100000 (7 * 10 ^ 17) 0.
Definition third_tx : pooled := pool_tx 2 100000 0 0.

Definition pool_db : PoolDb unit InvalidTransaction := {|
  db_slot := db_storage sample_journal;
  db_balance_of _ _ _ := Ok 40;
  db_basic a := Ok (balances sample_journal !! a) |}.

Definition pool_view (_ : unit) : TxView (list bytes) bytes := morph_tx_view (morph 0 0 0 0).

Definition tip : Tip := {| t_number := 9; t_timestamp := 1793772001; t_gas_limit := 30000000; t_hash := 77 |}.
Definition state_of (_ : B256) : result (PoolDb unit InvalidTransaction) unit := Ok pool_db.

(** A pool as its pending and queued lists. *)
Definition Pool : Type := list pooled * list pooled.
Definition pool : Pool := ([second_tx; first_tx], [third_tx]).
Definition doomed (hs : list B256) (p : Pool) (tx : pooled) : bool :=
  existsb (λ t, existsb (Z.eqb (p_hash t)) hs && (p_signer t =? p_signer tx)
                && (nonce_of_tx pool_view t <=? nonce_of_tx pool_view tx)) (p.1 ++ p.2).
Definition remove (hs : list B256) (p : Pool) : Pool :=
  (List.filter (λ tx, negb (doomed hs p tx)) p.1, List.filter (λ tx, negb (doomed hs p tx)) p.2).
Definition info : L1BlockInfo :=
  match try_fetch (db_slot pool_db) Celadon with Ok i => i | Err _ => bi_l1_block_info MorphL1BlockInfo_default end.

Lemma sample_pool_laws : pool_laws pool_view map_to_list id remove.
Proof.
  split; [done|]. intros hs p tx. unfold pool_txs, remove. cbn. rewrite <- List.filter_app, elem_of_bfilter.
  rewrite negb_true_iff. apply and_iff_compat_l. rewrite <- not_true_iff_false. apply not_iff_compat.
  unfold doomed. rewrite existsb_exists. apply exist_proper. intros t.
  rewrite <- list_elem_of_In, !andb_true_iff, Z.eqb_eq, Z.leb_le, existsb_exists. split.
  - intros (? & ((? & ?%list_elem_of_In & ->%Z.eqb_eq) & ?) & ?). done.
  - intros (? & Hh & ? & ?). split_and!; try done. exists (p_hash t). rewrite Z.eqb_refl. split; [by apply list_elem_of_In|done].
Qed.

Lemma sample_pool_wf : pool_wf pool_view id pool.
Proof.
  assert (Hin : ∀ t, t ∈ pool_txs id pool → t = second_tx ∨ t = first_tx ∨ t = third_tx) by set_solver.
  split.
  - unfold pool_txs. cbn. repeat constructor; set_solver.
  - intros t t' [->|[->| ->]]%Hin [->|[->| ->]]%Hin; done.
  - intros t t' [->|[->| ->]]%Hin [->|[->| ->]]%Hin; done.
Qed.

Lemma sample_pooled_ok nonce gas value token : is_u64 gas → is_u256 value → 0 ≤ token →
  pooled_ok (pool_tx nonce gas value token).
Proof. intros Hg Hv Ht m [= <-]. cbn. split_and!; try done; ulia. Qed.

Lemma sample_db_ok hf : db_ok pool_db hf.
Proof. split; [|intros a b v [= <-]; ulia]. intros a k v. apply (db_storage_u256 sample_journal). Qed.
End PoolSamples.

Import Concrete TokenSamples MapJournal FeeSamples PoolSamples.

Lemma maintenance_keeps_payable_witness :
  payable mix (λ _, []) pool_db PoolSamples.info Celadon 30000000 0x11 (10 ^ 18) [] first_tx
  ∧ second_tx ∉ pool_txs id (maintain_turn mix (λ _, []) pool_view (λ _, 0) mainnet state_of map_to_list id
      PoolSamples.remove PoolSamples.pool PoolSamples.tip).
Proof.
  split; [|intros Hin%(list_elem_of_In); vm_compute in Hin; by destruct Hin as [Hin|[]]].
  assert (Hk : first_tx ∈ pool_txs id (maintain_turn mix (λ _, []) pool_view (λ _, 0) mainnet state_of map_to_list id
      PoolSamples.remove PoolSamples.pool PoolSamples.tip)) by (apply list_elem_of_In; vm_compute; by left).
  simple refine (proj2 (proj1 (maintenance_keeps_payable mix (λ _, []) pool_view (λ _, 0) mainnet state_of map_to_list id
    PoolSamples.remove PoolSamples.pool PoolSamples.tip pool_db PoolSamples.info sample_pool_laws sample_pool_wf
    _ eq_refl _ (sample_db_ok _) _ first_tx) Hk) first_tx _ _ (Some (10 ^ 18)) _).
  - unfold pool_txs. cbn [id fst snd app PoolSamples.pool]. repeat apply Forall_cons_2; [apply sample_pooled_ok; ulia..|constructor].
  - vm_compute. reflexivity.
  - intros s account [= <-]. destruct (decide (s = 0x11)) as [->|Hs]; [vm_compute; split; [discriminate|reflexivity]|].
    cbn. rewrite lookup_singleton_ne by done. vm_compute; split; [discriminate|reflexivity].
  - apply list_elem_of_In. vm_compute. right. left. reflexivity.
  - reflexivity.
  - reflexivity.
Defined.

(** The first transaction, admitted at the same state and executed on it. *)
Definition sample_bi : MorphL1BlockInfo := {|
  bi_l1_block_info := PoolSamples.info; bi_base_fee_per_gas := Some 1000000;
  bi_timestamp := 1793772001; bi_number := 9 |}.
Definition sample_inner (_ : unit) (tx : pooled) (st : option unit)
  : TransactionValidationOutcome pooled * option unit :=
  (Valid (balance_of sample_journal (p_signer tx)) 0 None tx true None, st).
Definition first_env := from_recovered_tx (RA := bytes) pool_view (λ _, []) [] id
  (p_transaction first_tx) (p_signer first_tx).

Lemma sample_at_state : pool_at_state mix pool_view (λ _, []) [] (id : bytes → bytes) mainnet
  (λ _, Ok pool_db : result _ unit) sample_inner tt first_tx sample_cfg sample_bi pool_db start.
Proof.
  split; try done.
  - intros a b v [= <-]. ulia.
  - exact start_fresh.
  - intros st b n h tx0 p a st0 Hin. unfold sample_inner in Hin. by simplify_eq.
  - intros m entry [= <-] Hload. vm_compute in Hload. injection Hload as <-. exists 5. by vm_compute.
Qed.

Lemma admitted_tx_can_pay_witness :
  let r := (validate_against_state_and_deduct_caller mix price spending check_account run_frame no_delegate
              first_env sample_block sample_cfg start).2 in
  r = Ok tt ∧ ∀ err, r = Err err → ¬ cannot_pay err.
Proof.
  split; [vm_compute; reflexivity|].
  simple refine (admitted_tx_can_pay mix pool_view (λ _, []) [] (id : bytes → bytes) price spending check_account
    run_frame no_delegate mainnet (λ _, Ok pool_db : result _ unit) (λ _ _, Ok tt) sample_inner tt first_tx
    sample_block sample_cfg sample_bi pool_db start (10 ^ 18) 0 None first_tx true None sample_at_state
    _ _ _ sample_laws _ _ _ _).
  - apply sample_pooled_ok; ulia.
  - split; cbn; ulia.
  - cbn. lia.
  - split; [done|]. intros t b p Hle. unfold spending. rewrite (proj2 (Z.leb_le _ _) Hle). eauto.
  - reflexivity.
  - reflexivity.
  - vm_compute. reflexivity.
Defined.
