(* ===== verification/RefIndex.v ===== *)
(** * The reference index

    Models [crates/reference-index]: the tables and their key encodings ([tables.rs],
    [db.rs]), the write path ([writer.rs], [backfill.rs], [reconcile.rs]), the turn of
    the background runtime that brings the index to the canonical chain and its event
    loop ([runtime.rs]), and the query path ([reader.rs], [types.rs]).  MDBX tables are
    the class [OrdTables]; the canonical chain is read through [CanonicalChain], whose
    answers depend on the time of the call, because the chain moves while a turn runs. *)

From S2P Require Import Prelude.
From stdpp Require Import sorting.
From S2P Require Import Rlp.
From S2P Require Import MorphTx.
From S2P Require Import Envelope.
From S2P Require Import PayloadTypes.
From S2P Require Import Versioned.
#[local] Open Scope Z_scope.

Abbreviation B256 := Z (only parsing).

(** ** Errors *)

(** [ReferenceIndexError]; [E] and [P] are reth's database and provider errors. *)
Inductive ReferenceIndexError (E P : Type) :=
| Initializing
| IndexBehind
| IndexUnavailable
| LimitTooLarge (limit : Z)
| OffsetTooLarge (offset : Z)
| InvalidBackfillBatchSize
| CorruptMetadata (what : string)
| ChainIdentityMismatch (field : string)
| SchemaMismatch (expected actual : Z)
| ManualRebuildRequired (jade_first_block : Z)
| IndexDatabase (e : E)
| IndexProvider (e : P)
| IndexOther (what : string).
Arguments Initializing {E P}.
Arguments IndexBehind {E P}.
Arguments IndexUnavailable {E P}.
Arguments LimitTooLarge {E P}.
Arguments OffsetTooLarge {E P}.
Arguments InvalidBackfillBatchSize {E P}.
Arguments CorruptMetadata {E P}.
Arguments ChainIdentityMismatch {E P}.
Arguments SchemaMismatch {E P}.
Arguments ManualRebuildRequired {E P}.
Arguments IndexDatabase {E P}.
Arguments IndexProvider {E P}.
Arguments IndexOther {E P}.

Definition requires_manual_rebuild {E P} (e : ReferenceIndexError E P) : bool :=
  match e with
  | CorruptMetadata _ | ChainIdentityMismatch _ | SchemaMismatch _ _ | ManualRebuildRequired _ => true
  | _ => false
  end.

(** ** Keys *)

Record ReferenceIndexKey := {
  rk_reference : bytes;
  rk_block_number : Z;
  rk_transaction_index : Z;
  rk_transaction_hash : B256;
}.

Record BlockReferenceKey := {
  bk_block_number : Z;
  bk_transaction_index : Z;
  bk_transaction_hash : B256;
}.

(** The derived orders compare field by field. *)
Definition rk_fields (k : ReferenceIndexKey) : bytes * (Z * (Z * Z)) :=
  (rk_reference k, (rk_block_number k, (rk_transaction_index k, rk_transaction_hash k))).
Definition bk_fields (k : BlockReferenceKey) : Z * (Z * Z) :=
  (bk_block_number k, (bk_transaction_index k, bk_transaction_hash k)).

#[global] Program Instance ReferenceIndexKey_ord : KeyOrd ReferenceIndexKey := {|
  key_lt k1 k2 := key_lt (rk_fields k1) (rk_fields k2);
  key_default := Build_ReferenceIndexKey [] 0 0 0; key_ok k := key_ok (rk_fields k) |}.
Next Obligation. solve_decision. Defined.
Next Obligation. intros k1 k2. apply _. Defined.

#[global] Program Instance BlockReferenceKey_ord : KeyOrd BlockReferenceKey := {|
  key_lt k1 k2 := key_lt (bk_fields k1) (bk_fields k2);
  key_default := Build_BlockReferenceKey 0 0 0; key_ok k := key_ok (bk_fields k) |}.
Next Obligation. solve_decision. Defined.
Next Obligation. intros k1 k2. apply _. Defined.

Lemma rk_fields_inj k1 k2 : rk_fields k1 = rk_fields k2 → k1 = k2.
Proof. destruct k1, k2. by intros [= -> -> -> ->]. Qed.
Lemma bk_fields_inj k1 k2 : bk_fields k1 = bk_fields k2 → k1 = k2.
Proof. destruct k1, k2. by intros [= -> -> ->]. Qed.

(** An order pulled back along an injection. *)
Lemma pull_back_laws {K L} `{KeyOrd K} `{KeyOrdLaws L} (f : K → L) :
  (∀ k1 k2, f k1 = f k2 → k1 = k2) → (∀ k1 k2, key_lt k1 k2 ↔ key_lt (f k1) (f k2)) →
  (∀ k, key_ok k ↔ key_ok (f k)) → f key_default = key_default → KeyOrdLaws K.
Proof.
  intros Hinj Hlt Hok Hd. split.
  - split.
    + intros k Hk%Hlt. by apply (irreflexivity key_lt (f k)).
    + intros k1 k2 k3 H12%Hlt H23%Hlt. apply Hlt. by etrans.
  - intros k1 k2. rewrite !Hlt. destruct (key_lt_total (f k1) (f k2)) as [?|[?%Hinj|?]]; auto.
  - intros k. rewrite Hok, Hlt, Hd. apply key_default_least.
Qed.

#[global] Instance ReferenceIndexKey_laws : KeyOrdLaws ReferenceIndexKey.
Proof. by apply (pull_back_laws rk_fields rk_fields_inj). Qed.
#[global] Instance BlockReferenceKey_laws : KeyOrdLaws BlockReferenceKey.
Proof. by apply (pull_back_laws bk_fields bk_fields_inj). Qed.

(** *** Encodings *)

Inductive DatabaseError := Decode.

Definition slice (from to : nat) (b : bytes) : bytes := take (to - from) (drop from b).

Definition rk_encode (k : ReferenceIndexKey) : bytes :=
  rk_reference k ++ be_word 8 (rk_block_number k) ++ be_word 8 (rk_transaction_index k)
  ++ be_word 32 (rk_transaction_hash k).

Definition rk_decode (value : bytes) : result ReferenceIndexKey DatabaseError :=
  if negb (len value =? 80) then Err Decode
  else Ok {| rk_reference := slice 0 32 value;
             rk_block_number := Standard.of_be (slice 32 40 value);
             rk_transaction_index := Standard.of_be (slice 40 48 value);
             rk_transaction_hash := Standard.of_be (drop 48 value) |}.

Definition bk_encode (k : BlockReferenceKey) : bytes :=
  be_word 8 (bk_block_number k) ++ be_word 8 (bk_transaction_index k) ++ be_word 32 (bk_transaction_hash k).

Definition bk_decode (value : bytes) : result BlockReferenceKey DatabaseError :=
  if negb (len value =? 48) then Err Decode
  else Ok {| bk_block_number := Standard.of_be (slice 0 8 value);
             bk_transaction_index := Standard.of_be (slice 8 16 value);
             bk_transaction_hash := Standard.of_be (drop 16 value) |}.

(** Keys whose fields have their machine width. *)
Definition rk_wf (k : ReferenceIndexKey) : Prop :=
  length (rk_reference k) = 32%nat ∧ Forall is_byte (rk_reference k)
  ∧ is_u64 (rk_block_number k) ∧ is_u64 (rk_transaction_index k) ∧ is_u256 (rk_transaction_hash k).
Definition bk_wf (k : BlockReferenceKey) : Prop :=
  is_u64 (bk_block_number k) ∧ is_u64 (bk_transaction_index k) ∧ is_u256 (bk_transaction_hash k).

(** *** Metadata values *)

Inductive IndexMetaKey := IndexedTo | ChainId | GenesisHash | SchemaVersion | JadeFirstBlockNumber.
#[global] Instance IndexMetaKey_eq_dec : EqDecision IndexMetaKey.
Proof. solve_decision. Defined.

(** [From<IndexMetaKey> for MetaKey] *)
Definition meta_key (k : IndexMetaKey) : Z :=
  match k with
  | IndexedTo => 1 | ChainId => 2 | GenesisHash => 3 | SchemaVersion => 4 | JadeFirstBlockNumber => 5
  end.

Section MetaCodec.
Context {E P : Type}.
Abbreviation error := (ReferenceIndexError E P).

Definition encode_u64 (value : Z) : bytes := be_word 8 value.
Definition decode_u64 (value : bytes) : result Z error :=
  if len value =? 8 then Ok (Standard.of_be value) else Err (CorruptMetadata "invalid u64 value").
Definition encode_u32 (value : Z) : bytes := be_word 4 value.
Definition decode_u32 (value : bytes) : result Z error :=
  if len value =? 4 then Ok (Standard.of_be value) else Err (CorruptMetadata "invalid u32 value").
Definition encode_b256 (value : B256) : bytes := be_word 32 value.
Definition decode_b256 (value : bytes) : result B256 error :=
  if len value =? 32 then Ok (Standard.of_be value) else Err (CorruptMetadata "invalid B256 value").
End MetaCodec.

(** ** MDBX *)

(** [t_from (Some k)] collects the rows that [seek k] and then [next] visit,
    [t_from None] those from [first] on. *)
Class OrdTables (Tb : Type → Type → Type) (E : Type) := {
  t_get {K V} `{KeyOrd K} : K → Tb K V → result (option V) E;
  t_put {K V} `{KeyOrd K} : K → V → Tb K V → result (Tb K V) E;
  t_delete {K V} `{KeyOrd K} : K → Tb K V → result (Tb K V) E;
  t_entries {K V} `{KeyOrd K} : Tb K V → result Z E;
  t_from {K V} `{KeyOrd K} : option K → Tb K V → result (list (K * V)) E;
}.

(** What libmdbx documents of a table without duplicates. *)
Class OrdTablesLaws (Tb : Type → Type → Type) (E : Type) `{OrdTables Tb E} := {
  row {K V} `{KeyOrd K} : Tb K V → K → option V;
  law_t_get {K V} `{KeyOrdLaws K} k (t : Tb K V) : outcome (t_get k t) (λ o, o = row t k);
  law_t_put {K V} `{KeyOrdLaws K} k v (t : Tb K V) :
    outcome (t_put k v t) (λ t', ∀ k', row t' k' = if bool_decide (k' = k) then Some v else row t k');
  law_t_delete {K V} `{KeyOrdLaws K} k (t : Tb K V) :
    outcome (t_delete k t) (λ t', ∀ k', row t' k' = if bool_decide (k' = k) then None else row t k');
  law_t_entries {K V} `{KeyOrdLaws K} (t : Tb K V) :
    outcome (t_entries t) (λ n, n = 0 ↔ ∀ k, row t k = None);
  law_t_from {K V} `{KeyOrdLaws K} ko (t : Tb K V) :
    outcome (t_from ko t) (λ l, StronglySorted key_lt (map fst l)
      ∧ ∀ k v, (k, v) ∈ l ↔ row t k = Some v ∧ match ko with Some k0 => ¬ key_lt k k0 | None => True end);
}.

(** ** Data *)

Definition DEFAULT_BACKFILL_BATCH_BLOCKS : Z := 512.
Definition LIVE_LAG_SLO : Z := 16.
Definition SCHEMA_VERSION : Z := 2.

Record CanonicalTip := { tip_number : Z; tip_hash : B256; tip_timestamp : Z }.
#[global] Instance CanonicalTip_eq_dec : EqDecision CanonicalTip.
Proof. solve_decision. Defined.

Record CanonicalBlock (Envelope : Type) := {
  cb_number : Z;
  cb_hash : B256;
  cb_timestamp : Z;
  cb_transactions : list Envelope;
}.
Arguments cb_number {Envelope}.
Arguments cb_hash {Envelope}.
Arguments cb_timestamp {Envelope}.
Arguments cb_transactions {Envelope}.

Record ReferenceQuery := { q_reference : bytes; q_offset : Z; q_limit : Z }.

Record ReferenceTransactionResult := {
  transaction_hash : B256;
  result_block_number : Z;
  block_timestamp : Z;
  transaction_index : Z;
}.

Definition DEFAULT_LIMIT : Z := 100.
Definition MAX_LIMIT : Z := 100.
Definition MAX_OFFSET : Z := 10000.

(** [ReferenceQuery::new] *)
Definition query_new {E P} (reference : bytes) (offset limit : option Z)
  : result ReferenceQuery (ReferenceIndexError E P) :=
  let offset := default 0 offset in
  let limit := default DEFAULT_LIMIT limit in
  reject LimitTooLarge limit when MAX_LIMIT <? limit in
  reject OffsetTooLarge offset when MAX_OFFSET <? offset in
  Ok {| q_reference := reference; q_offset := offset; q_limit := limit |}.

Inductive ReferenceIndexPhase := Opening | PreJade | Deferred | Backfill | IsLive | Repairing | Unavailable.
#[global] Instance ReferenceIndexPhase_eq_dec : EqDecision ReferenceIndexPhase.
Proof. solve_decision. Defined.

(** The tables of an index. *)
Record IndexDb (Tb : Type → Type → Type) := {
  d_reference_index : Tb ReferenceIndexKey Z;
  d_block_reference_index : Tb BlockReferenceKey bytes;
  d_indexed_blocks : Tb Z B256;
  d_index_meta : Tb Z bytes;
}.
Arguments d_reference_index {Tb}.
Arguments d_block_reference_index {Tb}.
Arguments d_indexed_blocks {Tb}.
Arguments d_index_meta {Tb}.

(** The trait [CanonicalChain]: what each read answers when it is made at a given time. *)
Record CanonicalChain (Envelope Error : Type) := {
  head_at : nat → result CanonicalTip Error;
  canonical_hash_at : nat → Z → result (option B256) Error;
  block_timestamp_at : nat → Z → result (option Z) Error;
  finalized_block_number_at : nat → result (option Z) Error;
  canonical_blocks_at : nat → Z → Z → result (list (CanonicalBlock Envelope)) Error;
}.
Arguments head_at {Envelope Error}.
Arguments canonical_hash_at {Envelope Error}.
Arguments block_timestamp_at {Envelope Error}.
Arguments finalized_block_number_at {Envelope Error}.
Arguments canonical_blocks_at {Envelope Error}.

(** The environment of the database: opening it, beginning and committing transactions. *)
Record DbEnv (E : Type) := {
  env_init : nat → result unit string;
  env_tx : nat → result unit E;
  env_tx_mut : nat → result unit E;
  env_commit : nat → result unit E;
}.
Arguments env_init {E}.
Arguments env_tx {E}.
Arguments env_tx_mut {E}.
Arguments env_commit {E}.

(** The state of a [ReferenceIndexRuntime] and of the handle it shares: the durable
    tables, whether the database is installed in the handle, and the time. *)
Record Index (Tb : Type → Type → Type) := {
  disk : IndexDb Tb;
  installed : bool;
  phase : ReferenceIndexPhase;
  unavailable : bool;
  now : nat;
}.
Arguments disk {Tb}.
Arguments installed {Tb}.
Arguments phase {Tb}.
Arguments unavailable {Tb}.
Arguments now {Tb}.

Definition set_disk {Tb} (d : IndexDb Tb) (s : Index Tb) : Index Tb := {|
  disk := d; installed := installed s; phase := phase s; unavailable := unavailable s; now := now s |}.
Definition install_db {Tb} (s : Index Tb) : Index Tb := {|
  disk := disk s; installed := true; phase := phase s; unavailable := unavailable s; now := now s |}.
Definition tick {Tb} (s : Index Tb) : Index Tb := {|
  disk := disk s; installed := installed s; phase := phase s; unavailable := unavailable s; now := S (now s) |}.
Definition set_phase {Tb} (p : ReferenceIndexPhase) (s : Index Tb) : Index Tb :=
  if bool_decide (phase s = p) then s
  else {| disk := disk s; installed := installed s; phase := p;
          unavailable := bool_decide (p = Unavailable); now := now s |}.

(** [ReferenceIndexHandle::new], over the tables on disk. *)
Definition handle_new {Tb} (d : IndexDb Tb) (t : nat) : Index Tb := {|
  disk := d; installed := false; phase := Opening; unavailable := false; now := t |}.

Section Index.
Context {ETH AL SA SG E P : Type}.
Abbreviation envelope := (MorphTxEnvelope.MorphTxEnvelope ETH AL SA SG).
Abbreviation block := (CanonicalBlock envelope).
Abbreviation error := (ReferenceIndexError E P).
Context {Tb : Type → Type → Type} `{OrdTables Tb E}.
Context (tx_hash : envelope → B256).

(** ** Writes, inside a transaction *)

Abbreviation db := (IndexDb Tb).
Abbreviation db_err := (map_err (IndexDatabase (E := E) (P := P))).

Definition put_indexed_block (n : Z) (h : B256) (d : db) : result db error :=
  let? t := db_err (t_put n h (d_indexed_blocks d)) in
  Ok {| d_reference_index := d_reference_index d; d_block_reference_index := d_block_reference_index d;
        d_indexed_blocks := t; d_index_meta := d_index_meta d |}.

Definition put_meta (k : IndexMetaKey) (v : bytes) (d : db) : result db error :=
  let? t := db_err (t_put (meta_key k) v (d_index_meta d)) in
  Ok {| d_reference_index := d_reference_index d; d_block_reference_index := d_block_reference_index d;
        d_indexed_blocks := d_indexed_blocks d; d_index_meta := t |}.

(** The two rows of a transaction that carries a reference. *)
Definition put_reference (reference : bytes) (n i : Z) (h : B256) (timestamp : Z) (d : db) : result db error :=
  let? r := db_err (t_put {| rk_reference := reference; rk_block_number := n;
    rk_transaction_index := i; rk_transaction_hash := h |} timestamp (d_reference_index d)) in
  let? b := db_err (t_put {| bk_block_number := n; bk_transaction_index := i;
    bk_transaction_hash := h |} reference (d_block_reference_index d)) in
  Ok {| d_reference_index := r; d_block_reference_index := b;
        d_indexed_blocks := d_indexed_blocks d; d_index_meta := d_index_meta d |}.

Fixpoint write_references (n timestamp idx : Z) (transactions : list envelope) (written : Z) (d : db)
  : result (db * Z) error :=
  match transactions with
  | [] => Ok (d, written)
  | transaction :: transactions =>
      match MorphTxEnvelope.reference transaction with
      | None => write_references n timestamp (idx + 1) transactions written d
      | Some reference =>
          let? d := put_reference reference n idx (tx_hash transaction) timestamp d in
          write_references n timestamp (idx + 1) transactions (written + 1) d
      end
  end.

Definition write_block (block_number : Z) (block_hash : B256) (block_timestamp : Z)
    (transactions : list envelope) (d : db) : result (db * Z) error :=
  let? d := put_indexed_block block_number block_hash d in
  write_references block_number block_timestamp 0 transactions 0 d.

(** The rows of the block among the rows from its first possible key on. *)
Fixpoint block_entries (n : Z) (rows : list (BlockReferenceKey * bytes)) : list (BlockReferenceKey * bytes) :=
  match rows with
  | [] => []
  | (key, value) :: rows =>
      if negb (bk_block_number key =? n) then [] else (key, value) :: block_entries n rows
  end.

Fixpoint delete_entries (entries : list (BlockReferenceKey * bytes)) (d : db) : result db error :=
  match entries with
  | [] => Ok d
  | (key, reference) :: entries =>
      let? r := db_err (t_delete {| rk_reference := reference; rk_block_number := bk_block_number key;
        rk_transaction_index := bk_transaction_index key;
        rk_transaction_hash := bk_transaction_hash key |} (d_reference_index d)) in
      let? b := db_err (t_delete key (d_block_reference_index d)) in
      delete_entries entries
        {| d_reference_index := r; d_block_reference_index := b;
           d_indexed_blocks := d_indexed_blocks d; d_index_meta := d_index_meta d |}
  end.

Definition delete_block (block_number : Z) (d : db) : result db error :=
  let? rows := db_err (t_from (Some {| bk_block_number := block_number; bk_transaction_index := 0;
    bk_transaction_hash := 0 |}) (d_block_reference_index d)) in
  let? d := delete_entries (block_entries block_number rows) d in
  let? t := db_err (t_delete block_number (d_indexed_blocks d)) in
  Ok {| d_reference_index := d_reference_index d; d_block_reference_index := d_block_reference_index d;
        d_indexed_blocks := t; d_index_meta := d_index_meta d |}.

Definition update_indexed_to (block_number : Z) : db → result db error :=
  put_meta IndexedTo (encode_u64 block_number).

Definition clear_indexed_to (d : db) : result db error :=
  let? t := db_err (t_delete (meta_key IndexedTo) (d_index_meta d)) in
  Ok {| d_reference_index := d_reference_index d; d_block_reference_index := d_block_reference_index d;
        d_indexed_blocks := d_indexed_blocks d; d_index_meta := t |}.

Definition set_jade_first_block_number (block_number : Z) : db → result db error :=
  put_meta JadeFirstBlockNumber (encode_u64 block_number).

(** The first rows below the floor, at most [room] of them. *)
Fixpoint stale_rows (room : nat) (floor : Z) (rows : list (Z * B256)) : list Z :=
  match room, rows with
  | S room, (key, _) :: rows => if floor <=? key then [] else key :: stale_rows room floor rows
  | _, _ => []
  end.

Fixpoint delete_indexed (keys : list Z) (d : db) : result db error :=
  match keys with
  | [] => Ok d
  | key :: keys =>
      let? t := db_err (t_delete key (d_indexed_blocks d)) in
      delete_indexed keys
        {| d_reference_index := d_reference_index d; d_block_reference_index := d_block_reference_index d;
           d_indexed_blocks := t; d_index_meta := d_index_meta d |}
  end.

Definition prune_indexed_blocks_before (floor : Z) (d : db) : result db error :=
  if floor =? 0 then Ok d
  else
    let? rows := db_err (t_from None (d_indexed_blocks d)) in
    delete_indexed (stale_rows (Z.to_nat DEFAULT_BACKFILL_BATCH_BLOCKS) floor rows) d.

(** ** Reads of a snapshot *)

Definition get_meta {A} (k : IndexMetaKey) (decode : bytes → result A error) (d : db) : result (option A) error :=
  let? v := db_err (t_get (meta_key k) (d_index_meta d)) in
  match v with
  | None => Ok None
  | Some v => let? a := decode v in Ok (Some a)
  end.

(** ** The database handle *)

Context (env : DbEnv E) (chain : CanonicalChain envelope error).
Abbreviation state := (Index Tb).
Abbreviation M := (sm state error).

(** Anything outside is asked at the current time, and takes time. *)
Definition ask {A} (f : nat → result A error) : M A := λ s, (tick s, f (now s)).

Definition tx : M db := _ ← ask (λ t, db_err (env_tx env t)); sm_get disk.

(** A write transaction: nothing changes unless it commits. *)
Definition write_tx {A} (body : db → result (db * A) error) : M A :=
  _ ← ask (λ t, db_err (env_tx_mut env t));
  '(d, a) ← sm_read (λ s, body (disk s));
  _ ← ask (λ t, db_err (env_commit env t));
  _ ← sm_modify (set_disk d);
  mret a.

Definition indexed_to : M (option Z) := d ← tx; sm_lift (get_meta IndexedTo decode_u64 d).
Definition jade_first_block_number : M (option Z) :=
  d ← tx; sm_lift (get_meta JadeFirstBlockNumber decode_u64 d).
Definition indexed_block_hash (block_number : Z) : M (option B256) :=
  d ← tx; sm_lift (db_err (t_get block_number (d_indexed_blocks d))).

Definition has_entries {K V} `{KeyOrd K} (t : Tb K V) : result bool error :=
  let? n := db_err (t_entries t) in Ok (negb (n =? 0)).

Definition is_some {A} (o : option A) : bool := match o with Some _ => true | None => false end.

Definition init_identity (chain_id : Z) (genesis_hash : B256) (d : db) : result (db * unit) error :=
  let? d := put_meta ChainId (encode_u64 chain_id) d in
  let? d := put_meta GenesisHash (encode_b256 genesis_hash) d in
  let? d := put_meta SchemaVersion (encode_u32 SCHEMA_VERSION) d in
  Ok (d, tt).

Definition raw_meta (d : db) (k : IndexMetaKey) : result (option bytes) error :=
  db_err (t_get (meta_key k) (d_index_meta d)).

(** What the identity check reads in one transaction. *)
Definition read_identity (d : db) : result (option Z * option B256 * option Z * bool * bool) error :=
  let? stored_chain_id := get_meta ChainId decode_u64 d in
  let? stored_genesis := get_meta GenesisHash decode_b256 d in
  let? stored_schema := get_meta SchemaVersion decode_u32 d in
  let? m1 := raw_meta d IndexedTo in
  let? m2 := if is_some m1 then Ok None else raw_meta d JadeFirstBlockNumber in
  let? e1 := has_entries (d_reference_index d) in
  let? e2 := if e1 then Ok true else has_entries (d_block_reference_index d) in
  let? e3 := if e2 then Ok true else has_entries (d_indexed_blocks d) in
  Ok (stored_chain_id, stored_genesis, stored_schema, is_some m1 || is_some m2, e3).

Definition validate_or_init_chain_identity (chain_id : Z) (genesis_hash : B256) : M unit :=
  d ← tx;
  '(stored_chain_id, stored_genesis, stored_schema, has_runtime_meta, has_index_data) ← sm_lift (read_identity d);
  match stored_chain_id, stored_genesis, stored_schema with
  | None, None, None =>
      if negb has_runtime_meta && negb has_index_data
      then write_tx (init_identity chain_id genesis_hash)
      else sm_fail (CorruptMetadata "chain identity fields must be all present or all absent")
  | Some stored_chain_id, Some stored_genesis, Some stored_schema =>
      if negb (stored_chain_id =? chain_id) then sm_fail (ChainIdentityMismatch "chain_id")
      else if negb (stored_genesis =? genesis_hash) then sm_fail (ChainIdentityMismatch "genesis_hash")
      else if negb (stored_schema =? SCHEMA_VERSION) then sm_fail (SchemaMismatch SCHEMA_VERSION stored_schema)
      else mret tt
  | _, _, _ => sm_fail (CorruptMetadata "chain identity fields must be all present or all absent")
  end.

(** [ReferenceIndexDb::open] *)
Definition open (chain_id : Z) (genesis_hash : B256) : M unit :=
  _ ← ask (λ t, map_err IndexOther (env_init env t));
  validate_or_init_chain_identity chain_id genesis_hash.

(** ** Backfill *)

(** The search for the first block of Jade: the interval halves, so [Z.log2] of it
    and two more steps are enough. *)
Fixpoint jade_search (fuel : nat) (jade_timestamp low high : Z) : M Z :=
  match fuel with
  | O => mret low
  | S fuel =>
      if low <? high then
        let middle := low + (high - low) / 2 in
        timestamp ← ask (λ t, block_timestamp_at chain t middle);
        timestamp ← sm_lift (ok_or timestamp (IndexOther "missing canonical header while resolving Jade"));
        if timestamp <? jade_timestamp then jade_search fuel jade_timestamp (middle + 1) high
        else jade_search fuel jade_timestamp low middle
      else mret low
  end.
Definition search_fuel (high : Z) : nat := Z.to_nat (Z.log2 high + 2).

Definition resolve_jade_first_block (head : CanonicalTip) (jade_timestamp : Z) : M (option Z) :=
  if tip_timestamp head <? jade_timestamp then mret None
  else
    low ← jade_search (search_fuel (tip_number head)) jade_timestamp 0 (tip_number head);
    mret (Some low).

Fixpoint contiguous (expected : Z) (blocks : list block) : result unit error :=
  match blocks with
  | [] => Ok tt
  | b :: blocks =>
      reject IndexOther "non-contiguous reference-index batch" when negb (cb_number b =? expected) in
      contiguous (saturating_add u64_max expected 1) blocks
  end.

Fixpoint write_blocks (blocks : list block) (references_written : Z) (d : db) : result (db * Z) error :=
  match blocks with
  | [] => Ok (d, references_written)
  | b :: blocks =>
      let? '(d, n) := write_block (cb_number b) (cb_hash b) (cb_timestamp b) (cb_transactions b) d in
      write_blocks blocks (references_written + n) d
  end.

Definition batch_body (jade_first_block : Z) (blocks : list block) (last : block) (finalized : option Z)
    (d : db) : result (db * Z) error :=
  let? '(d, references_written) := write_blocks blocks 0 d in
  let? d := set_jade_first_block_number jade_first_block d in
  let? d := update_indexed_to (cb_number last) d in
  let? d :=
    match finalized with
    | Some finalized =>
        let floor := Z.max finalized jade_first_block in
        if floor <=? cb_number last then prune_indexed_blocks_before floor d else Ok d
    | None => Ok d
    end in
  Ok (d, references_written).

Definition commit_canonical_batch (jade_first_block expected_start : Z) (blocks : list block)
    (finalized : option Z) : M Z :=
  match last blocks with
  | None => mret 0
  | Some last =>
      _ ← sm_lift (contiguous expected_start blocks);
      write_tx (batch_body jade_first_block blocks last finalized)
  end.

(** ** Rollback *)

Fixpoint delete_blocks (numbers : list Z) (d : db) : result db error :=
  match numbers with
  | [] => Ok d
  | number :: numbers => let? d := delete_block number d in delete_blocks numbers d
  end.

Definition rollback_body (ancestor : option Z) (cursor lower_bound batch_start : Z) (d : db)
  : result (db * unit) error :=
  let? d := delete_blocks (seqZ batch_start (cursor - batch_start + 1)) d in
  let? d :=
    if batch_start =? lower_bound then
      match ancestor with
      | Some ancestor => update_indexed_to ancestor d
      | None => clear_indexed_to d
      end
    else update_indexed_to (batch_start - 1) d in
  Ok (d, tt).

(** The cursor falls with every turn of the loop. *)
Fixpoint rollback_loop (fuel : nat) (ancestor : option Z) (batch_size : Z) : M unit :=
  match fuel with
  | O => mret tt
  | S fuel =>
      cursor ← indexed_to;
      match cursor with
      | None => mret tt
      | Some cursor =>
          if match ancestor with Some ancestor => cursor <=? ancestor | None => false end then mret tt
          else
            let lower_bound := match ancestor with Some a => saturating_add u64_max a 1 | None => 0 end in
            let batch_start := Z.max (saturating_sub cursor (saturating_sub batch_size 1)) lower_bound in
            _ ← write_tx (rollback_body ancestor cursor lower_bound batch_start);
            rollback_loop fuel ancestor batch_size
      end
  end.

Definition rollback_fuel (d : db) : nat :=
  match get_meta IndexedTo decode_u64 d with
  | Ok (Some cursor) => S (S (Z.to_nat cursor))
  | _ => 1
  end.

Definition rollback_suffix (ancestor : option Z) (batch_size : Z) : M unit :=
  if batch_size =? 0 then sm_fail InvalidBackfillBatchSize
  else
    fuel ← sm_get (λ s, rollback_fuel (disk s));
    rollback_loop fuel ancestor batch_size.

(** ** One turn of the runtime *)

Context (chain_id : Z) (genesis_hash : B256) (jade_timestamp : Z).

Definition open_db : M unit :=
  ready ← sm_get installed;
  if ready : bool then mret tt
  else _ ← open chain_id genesis_hash; sm_modify install_db.

(** The walk back to the last block that is still canonical. *)
Fixpoint rewind (fuel : nat) (rewind_floor number : Z) : M (option Z) :=
  match fuel with
  | O => mret None
  | S fuel =>
      indexed_hash ← indexed_block_hash number;
      indexed_hash ← sm_lift (ok_or indexed_hash
        (CorruptMetadata "indexed canonical range contains a block-hash gap"));
      canonical ← ask (λ t, canonical_hash_at chain t number);
      if bool_decide (canonical = Some indexed_hash) then mret (Some number)
      else if number =? rewind_floor then mret None
      else rewind fuel rewind_floor (number - 1)
  end.

Definition repair (jade_first_block : Z) (finalized : option Z) (candidate : Z) : M unit :=
  _ ← sm_modify (set_phase Repairing);
  let rewind_floor :=
    Z.min (match finalized with Some f => Z.max f jade_first_block | None => jade_first_block end) candidate in
  ancestor ← rewind (S (Z.to_nat (candidate - rewind_floor))) rewind_floor candidate;
  ancestor ← sm_lift (ok_or ancestor (ManualRebuildRequired jade_first_block));
  rollback_suffix (Some ancestor) DEFAULT_BACKFILL_BATCH_BLOCKS.

Definition reconcile_cursor (jade_first_block : Z) (finalized : option Z) (head : CanonicalTip) : M unit :=
  cursor ← indexed_to;
  match cursor with
  | None => mret tt
  | Some cursor =>
      let candidate := Z.min cursor (tip_number head) in
      indexed_hash ← indexed_block_hash candidate;
      indexed_hash ← sm_lift (ok_or indexed_hash
        (CorruptMetadata "durable cursor range is missing an IndexedBlocks hash"));
      if (cursor =? tip_number head) && (indexed_hash =? tip_hash head) then mret tt
      else if cursor <? tip_number head then
        canonical ← ask (λ t, canonical_hash_at chain t cursor);
        if bool_decide (canonical = Some indexed_hash) then mret tt
        else repair jade_first_block finalized candidate
      else repair jade_first_block finalized candidate
  end.

(** Every block of the batch is still canonical. *)
Fixpoint verify_batch (expected_number : Z) (blocks : list block) : M unit :=
  match blocks with
  | [] => mret tt
  | b :: blocks =>
      canonical_hash ← ask (λ t, canonical_hash_at chain t expected_number);
      if negb (cb_number b =? expected_number) || negb (bool_decide (canonical_hash = Some (cb_hash b)))
      then sm_fail (IndexOther "canonical block changed while reading backfill batch")
      else verify_batch (expected_number + 1) blocks
  end.

(** The batch from [start] on, up to the head the turn has seen. *)
Definition backfill_turn (jade_first_block : Z) (finalized : option Z) (head : CanonicalTip) (start : Z) : M unit :=
  _ ← sm_modify (set_phase Backfill);
  let end_ := Z.min (saturating_add u64_max start (DEFAULT_BACKFILL_BATCH_BLOCKS - 1)) (tip_number head) in
  blocks ← ask (λ t, canonical_blocks_at chain t start end_);
  if negb (Z.of_nat (length blocks) =? saturating_add u64_max (saturating_sub end_ start) 1)
  then sm_fail (IndexOther "canonical block range returned too few blocks")
  else
    _ ← verify_batch start blocks;
    _ ← commit_canonical_batch jade_first_block start blocks finalized;
    current_head ← ask (head_at chain);
    if (end_ =? tip_number current_head)
       && match last blocks with Some b => cb_hash b =? tip_hash current_head | None => false end
    then sm_modify (set_phase IsLive) else mret tt.

(** The end of a turn, once the first block of Jade is known. *)
Definition catch_up (jade_first_block : Z) (head : CanonicalTip) : M unit :=
  finalized ← ask (finalized_block_number_at chain);
  _ ← reconcile_cursor jade_first_block finalized head;
  cursor ← indexed_to;
  let start := match cursor with Some cursor => saturating_add u64_max cursor 1 | None => jade_first_block end in
  if tip_number head <? start then sm_modify (set_phase IsLive)
  else backfill_turn jade_first_block finalized head start.

Definition synchronize_once_inner (defer : bool) : M unit :=
  _ ← open_db;
  head ← ask (head_at chain);
  if tip_timestamp head <? jade_timestamp then sm_modify (set_phase PreJade)
  else if defer then _ ← indexed_to; sm_modify (set_phase Deferred)
  else
    stored ← jade_first_block_number;
    jade_first_block ←
      match stored with
      | Some block => mret block
      | None =>
          found ← resolve_jade_first_block head jade_timestamp;
          sm_lift (ok_or found (IndexOther "Jade is active at the canonical head but its first block was not found"))
      end;
    catch_up jade_first_block head.

Definition synchronize_once (defer : bool) : M unit := λ s,
  match synchronize_once_inner defer s with
  | (s, Err e) => ((if requires_manual_rebuild e then set_phase Unavailable s else s), Err e)
  | ok => ok
  end.

(** ** Queries *)

Definition is_pre_jade (timestamp : Z) : bool := timestamp <? jade_timestamp.

(** The page: rows of the reference, in key order. *)
Fixpoint collect (query : ReferenceQuery) (skipped : Z) (results : list ReferenceTransactionResult)
    (rows : list (ReferenceIndexKey * Z)) : list ReferenceTransactionResult :=
  match rows with
  | [] => results
  | (key, value) :: rows =>
      if negb (bool_decide (rk_reference key = q_reference query)) || (q_limit query <=? Z.of_nat (length results)) then results
      else if skipped <? q_offset query then collect query (skipped + 1) results rows
      else collect query skipped
             (results ++ [{| transaction_hash := rk_transaction_hash key; result_block_number := rk_block_number key;
                             block_timestamp := value; transaction_index := rk_transaction_index key |}]) rows
  end.

(** What a query answers on one snapshot. *)
Definition query_snapshot (query : ReferenceQuery) (canonical_tip : CanonicalTip) (d : db)
  : result (list ReferenceTransactionResult) error :=
  let? indexed_to := get_meta IndexedTo decode_u64 d in
  let? indexed_to := ok_or indexed_to IndexBehind in
  let? indexed_hash := db_err (t_get indexed_to (d_indexed_blocks d)) in
  let? indexed_hash := ok_or indexed_hash IndexBehind in
  reject IndexBehind when negb (indexed_to =? tip_number canonical_tip) || negb (indexed_hash =? tip_hash canonical_tip) in
  let? rows := db_err (t_from (Some {| rk_reference := q_reference query; rk_block_number := 0;
    rk_transaction_index := 0; rk_transaction_hash := 0 |}) (d_reference_index d)) in
  Ok (collect query 0 [] rows).

Definition query_at (query : ReferenceQuery) (canonical_tip : CanonicalTip) : M (list ReferenceTransactionResult) :=
  gate ← sm_get unavailable;
  if gate : bool then sm_fail IndexUnavailable
  else
    ready ← sm_get installed;
    if negb ready then sm_fail Initializing
    else d ← tx; sm_lift (query_snapshot query canonical_tip d).
End Index.

(** ** The chain of a node *)

(** What reth's provider answers at a given time. *)
Record HeaderInfo := { hi_number : Z; hi_hash : B256; hi_timestamp : Z }.
Record BlockReaderIdExt (Envelope P : Type) := {
  latest_header_at : nat → result (option HeaderInfo) P;
  block_hash_at : nat → Z → result (option B256) P;
  header_by_number_at : nat → Z → result (option HeaderInfo) P;
  finalized_at : nat → result (option Z) P;
  block_range_at : nat → Z → Z → result (list (HeaderInfo * list Envelope)) P;
}.
Arguments latest_header_at {Envelope P}.
Arguments block_hash_at {Envelope P}.
Arguments header_by_number_at {Envelope P}.
Arguments finalized_at {Envelope P}.
Arguments block_range_at {Envelope P}.

(** [impl CanonicalChain for P]; [hash_slow] is the header's hash. *)
Definition provider_chain {Envelope E P} (p : BlockReaderIdExt Envelope P)
  : CanonicalChain Envelope (ReferenceIndexError E P) := {|
  head_at t :=
    let? header := map_err IndexProvider (latest_header_at p t) in
    let? header := ok_or header (IndexOther "missing canonical head") in
    Ok {| tip_number := hi_number header; tip_hash := hi_hash header; tip_timestamp := hi_timestamp header |};
  canonical_hash_at t n := map_err IndexProvider (block_hash_at p t n);
  block_timestamp_at t n :=
    let? h := map_err IndexProvider (header_by_number_at p t n) in Ok (hi_timestamp <$> h);
  finalized_block_number_at t := map_err IndexProvider (finalized_at p t);
  canonical_blocks_at t lo hi :=
    let? blocks := map_err IndexProvider (block_range_at p t lo hi) in
    Ok (map (λ '(h, txs), {| cb_number := hi_number h; cb_hash := hi_hash h;
                             cb_timestamp := hi_timestamp h; cb_transactions := txs |}) blocks);
|}.
