(* ===== verification/RefIndexTables.v ===== *)
(** * The tables of the reference index

    Theorems about [RefIndex]: the key encodings keep the order in which queries and
    rollbacks walk a table, and the write path keeps the tables exact, that is, equal to
    what the indexed blocks carry. *)

From S2P Require Import Prelude.
From stdpp Require Import sorting.
From S2P Require Import Rlp.
From S2P Require Import MorphTx.
From S2P Require Import Envelope.
From S2P Require Import PayloadTypes.
From S2P Require Import Versioned.
From S2P Require Import RefIndex.
#[local] Open Scope Z_scope.

(** ** Keys *)

Lemma be_word_snoc n z : be_word (S n) z = be_word n (z / 256) ++ [z mod 256].
Proof. done. Qed.

Lemma be_word_length n z : length (be_word n z) = n.
Proof. unfold be_word. by rewrite length_rev, Standard.length_fixed_le. Qed.

Lemma of_be_word n z : 0 ≤ z < 256 ^ Z.of_nat n → Standard.of_be (be_word n z) = z.
Proof. intros Hz. unfold Standard.of_be, be_word. rewrite rev_involutive. by apply Standard.of_le_fixed_le. Qed.

(** Strings of one length compare by their prefixes first. *)
Lemma path_lt_app p q x y : length p = length q →
  path_lt (p ++ x) (q ++ y) ↔ path_lt p q ∨ p = q ∧ path_lt x y.
Proof.
  revert q. induction p as [|a p IH]; intros [|b q] Hl; try done; cbn; [naive_solver|].
  injection Hl as Hl. rewrite IH by done. split.
  - intros [?|(-> & [?|[-> ?]])]; naive_solver.
  - intros [[?|[-> ?]]|[[= -> ->] ?]]; naive_solver.
Qed.

(** Big-endian words compare as numbers. *)
Lemma path_lt_be_word n a b : 0 ≤ a < 256 ^ Z.of_nat n → 0 ≤ b < 256 ^ Z.of_nat n →
  path_lt (be_word n a) (be_word n b) ↔ a < b.
Proof.
  revert a b. induction n as [|n IH]; intros a b Ha Hb.
  { change (256 ^ Z.of_nat 0) with 1 in *. cbn. lia. }
  rewrite Nat2Z.inj_succ, Z.pow_succ_r in Ha, Hb by lia.
  rewrite !be_word_snoc, path_lt_app by by rewrite !be_word_length.
  pose proof (Z.div_mod a 256 ltac:(lia)). pose proof (Z.div_mod b 256 ltac:(lia)).
  pose proof (Z.mod_pos_bound a 256 ltac:(lia)). pose proof (Z.mod_pos_bound b 256 ltac:(lia)).
  assert (Ha' : 0 ≤ a / 256 < 256 ^ Z.of_nat n) by (split; [apply Z.div_pos|apply Z.div_lt_upper_bound]; lia).
  assert (Hb' : 0 ≤ b / 256 < 256 ^ Z.of_nat n) by (split; [apply Z.div_pos|apply Z.div_lt_upper_bound]; lia).
  rewrite IH by done. cbn. split.
  - intros [?|[He [?|[? []]]]]; [nia|]. apply (f_equal Standard.of_be) in He. rewrite !of_be_word in He by done. lia.
  - intros Hlt. destruct (Z.lt_ge_cases (a / 256) (b / 256)); [by left|]. right.
    assert (a / 256 = b / 256) as -> by nia. split; [done|]. left. lia.
Qed.

Lemma be_word_prefix n a b x y : 0 ≤ a < 256 ^ Z.of_nat n → 0 ≤ b < 256 ^ Z.of_nat n →
  path_lt (be_word n a ++ x) (be_word n b ++ y) ↔ a < b ∨ a = b ∧ path_lt x y.
Proof.
  intros Ha Hb. rewrite path_lt_app by by rewrite !be_word_length. rewrite path_lt_be_word by done.
  split; intros [?|[He ?]]; auto; right; split; try done; [|by rewrite He].
  apply (f_equal Standard.of_be) in He. by rewrite !of_be_word in He.
Qed.

Lemma u64_word z : is_u64 z → 0 ≤ z < 256 ^ Z.of_nat 8.
Proof. unfold in_range. change (256 ^ Z.of_nat 8) with (u64_max + 1). lia. Qed.
Lemma u256_word z : is_u256 z → 0 ≤ z < 256 ^ Z.of_nat 32.
Proof. unfold in_range. change (256 ^ Z.of_nat 32) with (u256_max + 1). lia. Qed.

Lemma bk_encode_order k1 k2 : bk_wf k1 → bk_wf k2 → path_lt (bk_encode k1) (bk_encode k2) ↔ key_lt k1 k2.
Proof.
  intros (?%u64_word & ?%u64_word & ?%u256_word) (?%u64_word & ?%u64_word & ?%u256_word). unfold bk_encode.
  rewrite !be_word_prefix, path_lt_be_word by done. done.
Qed.

Lemma rk_encode_order k1 k2 : rk_wf k1 → rk_wf k2 → path_lt (rk_encode k1) (rk_encode k2) ↔ key_lt k1 k2.
Proof.
  intros (Hl1 & _ & ?%u64_word & ?%u64_word & ?%u256_word) (Hl2 & _ & ?%u64_word & ?%u64_word & ?%u256_word).
  unfold rk_encode. rewrite path_lt_app by congruence.
  rewrite !be_word_prefix, path_lt_be_word by done. done.
Qed.

(** A slice of a concatenation. *)
Lemma slice_app n m (p x y : bytes) : length p = n → length x = (m - n)%nat → slice n m (p ++ x ++ y) = x.
Proof. intros <- Hx. unfold slice. rewrite drop_app_length, <- Hx. by rewrite take_app_length. Qed.

Lemma bk_round_trip k : bk_wf k → bk_decode (bk_encode k) = Ok k.
Proof.
  intros (Hn%u64_word & Hi%u64_word & Hh%u256_word). unfold bk_decode, bk_encode.
  assert (Hl : len (be_word 8 (bk_block_number k) ++ be_word 8 (bk_transaction_index k) ++ be_word 32 (bk_transaction_hash k)) = 48)
    by (unfold len; by rewrite !length_app, !be_word_length).
  rewrite Hl. cbn [negb Z.eqb Pos.eqb]. f_equal.
  rewrite <- (app_nil_l (be_word 8 (bk_block_number k) ++ _)) at 1.
  rewrite (slice_app 0 8), (slice_app 8 16) by (by rewrite ?be_word_length).
  rewrite app_assoc, drop_app_length' by by rewrite length_app, !be_word_length.
  rewrite !of_be_word by done. by destruct k.
Qed.

Lemma rk_round_trip k : rk_wf k → rk_decode (rk_encode k) = Ok k.
Proof.
  intros (Hr & _ & Hn%u64_word & Hi%u64_word & Hh%u256_word). unfold rk_decode, rk_encode.
  set (tl := be_word 8 (rk_block_number k) ++ be_word 8 (rk_transaction_index k) ++ be_word 32 (rk_transaction_hash k)).
  assert (Hl : len (rk_reference k ++ tl) = 80) by (unfold len, tl; by rewrite !length_app, !be_word_length, Hr).
  rewrite Hl. cbn [negb Z.eqb Pos.eqb]. f_equal. unfold tl.
  rewrite <- (app_nil_l (rk_reference k ++ _)) at 1. rewrite (slice_app 0 32) by done.
  rewrite (slice_app 32 40) by (by rewrite ?be_word_length).
  rewrite (app_assoc (rk_reference k)), (slice_app 40 48) by (by rewrite ?length_app, ?be_word_length, ?Hr).
  rewrite (app_assoc (_ ++ _)), drop_app_length' by by rewrite !length_app, !be_word_length, Hr.
  rewrite !of_be_word by done. by destruct k.
Qed.

(** The key encodings are faithful.  Decoding an encoded key returns it, and encoded
    keys compare byte by byte as the keys compare field by field: so MDBX keeps the rows of
    a reference together in chain order, and the rows of a block together. *)
Theorem index_keys_faithful (k k' : ReferenceIndexKey) (b b' : BlockReferenceKey) : rk_wf k → rk_wf k' → bk_wf b → bk_wf b' →
  rk_decode (rk_encode k) = Ok k ∧ (path_lt (rk_encode k) (rk_encode k') ↔ key_lt k k')
  ∧ bk_decode (bk_encode b) = Ok b ∧ (path_lt (bk_encode b) (bk_encode b') ↔ key_lt b b').
Proof.
  intros Hk Hk' Hb Hb'. split_and!; [by apply rk_round_trip|by apply rk_encode_order|by apply bk_round_trip|by apply bk_encode_order].
Qed.

Lemma index_keys_faithful_witness :
  let k := Build_ReferenceIndexKey (repeat 7 32) 255 3 900 in
  let k' := Build_ReferenceIndexKey (repeat 7 32) 256 0 1 in
  let b := Build_BlockReferenceKey 9 255 1 in
  let b' := Build_BlockReferenceKey 9 256 0 in
  (key_lt k k' ∧ key_lt b b')
  ∧ (rk_decode (rk_encode k) = Ok k ∧ (path_lt (rk_encode k) (rk_encode k') ↔ key_lt k k')
     ∧ bk_decode (bk_encode b) = Ok b ∧ (path_lt (bk_encode b) (bk_encode b') ↔ key_lt b b')).
Proof.
  intros k k' b b'. split.
  - split; [right; split; [done|]; left; cbn; lia|right; split; [done|]; left; cbn; lia].
  - assert (Hr : Forall is_byte (repeat 7 32)).
    { apply Forall_forall. intros x ->%list_elem_of_In%repeat_spec. split; done. }
    simple refine (index_keys_faithful k k' b b' _ _ _ _); split_and!; try exact Hr; split; vm_compute; discriminate.
Defined.

(** ** Exact tables *)

Section Exact.
Context {ETH AL SA SG E P : Type}.
Abbreviation envelope := (MorphTxEnvelope.MorphTxEnvelope ETH AL SA SG).
Abbreviation block := (CanonicalBlock envelope).
Abbreviation error := (ReferenceIndexError E P).
Context {Tb : Type → Type → Type} `{OrdTablesLaws Tb E}.
Context (tx_hash : envelope → Z).
Hypothesis tx_hash_nonneg : ∀ t, 0 ≤ tx_hash t.
Implicit Types (d : IndexDb Tb) (b : block) (blk : Z → option block).

(** The block has a transaction with this reference and hash at this position. *)
Definition carries b (i : Z) (r : bytes) (h : Z) : Prop :=
  0 ≤ i ∧ ∃ t, cb_transactions b !! Z.to_nat i = Some t ∧ MorphTxEnvelope.reference t = Some r ∧ tx_hash t = h.

(** The tables hold exactly the references of the blocks [blk], and for each block from
    [floor] on its hash. *)
Record exact d blk (floor : Z) : Prop := {
  ex_reference k ts : row (d_reference_index d) k = Some ts ↔ ∃ b, blk (rk_block_number k) = Some b
    ∧ carries b (rk_transaction_index k) (rk_reference k) (rk_transaction_hash k) ∧ ts = cb_timestamp b;
  ex_block k r : row (d_block_reference_index d) k = Some r ↔ ∃ b, blk (bk_block_number k) = Some b
    ∧ carries b (bk_transaction_index k) r (bk_transaction_hash k);
  ex_hash n h : row (d_indexed_blocks d) n = Some h → ∃ b, blk n = Some b ∧ cb_hash b = h;
  ex_kept n b : blk n = Some b → floor ≤ n → row (d_indexed_blocks d) n = Some (cb_hash b);
}.

Definition set_block (n : Z) (o : option block) blk : Z → option block :=
  λ m, if m =? n then o else blk m.

(** *** Single rows *)

Lemma put_indexed_block_spec n h d : outcome (put_indexed_block (P := P) n h d) (λ d',
  d_reference_index d' = d_reference_index d ∧ d_block_reference_index d' = d_block_reference_index d
  ∧ d_index_meta d' = d_index_meta d
  ∧ ∀ m, row (d_indexed_blocks d') m = if bool_decide (m = n) then Some h else row (d_indexed_blocks d) m).
Proof.
  unfold put_indexed_block. pose proof (law_t_put n h (d_indexed_blocks d)) as Hl.
  destruct (t_put n h (d_indexed_blocks d)); [|done]. cbn in *. done.
Qed.

Lemma put_meta_spec k v d : outcome (put_meta (P := P) k v d) (λ d',
  d_reference_index d' = d_reference_index d ∧ d_block_reference_index d' = d_block_reference_index d
  ∧ d_indexed_blocks d' = d_indexed_blocks d
  ∧ ∀ m, row (d_index_meta d') m = if bool_decide (m = meta_key k) then Some v else row (d_index_meta d) m).
Proof.
  unfold put_meta. pose proof (law_t_put (meta_key k) v (d_index_meta d)) as Hl.
  destruct (t_put (meta_key k) v (d_index_meta d)); [|done]. cbn in *. done.
Qed.

Lemma put_reference_spec r n i h ts d : outcome (put_reference (P := P) r n i h ts d) (λ d',
  d_indexed_blocks d' = d_indexed_blocks d ∧ d_index_meta d' = d_index_meta d
  ∧ (∀ k, row (d_reference_index d') k
       = if bool_decide (k = Build_ReferenceIndexKey r n i h) then Some ts else row (d_reference_index d) k)
  ∧ ∀ k, row (d_block_reference_index d') k
       = if bool_decide (k = Build_BlockReferenceKey n i h) then Some r else row (d_block_reference_index d) k).
Proof.
  unfold put_reference. pose proof (law_t_put (Build_ReferenceIndexKey r n i h) ts (d_reference_index d)) as H1.
  destruct (t_put _ ts _) as [t1|]; [|done]. cbn in *.
  pose proof (law_t_put (Build_BlockReferenceKey n i h) r (d_block_reference_index d)) as H2.
  destruct (t_put _ r _) as [t2|]; [|done]. cbn in *. done.
Qed.

(** *** Writing a block *)

Definition upto b (i : nat) : block := {|
  cb_number := cb_number b; cb_hash := cb_hash b; cb_timestamp := cb_timestamp b;
  cb_transactions := take i (cb_transactions b) |}.

Lemma carries_upto_S b i t j r h : cb_transactions b !! i = Some t →
  carries (upto b (S i)) j r h ↔
  carries (upto b i) j r h ∨ (j = Z.of_nat i ∧ MorphTxEnvelope.reference t = Some r ∧ tx_hash t = h).
Proof.
  intros Ht. unfold carries. cbn. split.
  - intros (Hj & t' & (Ht' & Hlt)%lookup_take_Some & Hr & Hh).
    destruct (decide (Z.to_nat j = i)) as [He|Hne].
    + right. rewrite He, Ht in Ht'. injection Ht' as ->. split_and!; [lia|done..].
    + left. split; [done|]. exists t'. rewrite lookup_take_lt by lia. done.
  - intros [(Hj & t' & (Ht' & Hlt)%lookup_take_Some & Hr & Hh)|(-> & Hr & Hh)].
    + split; [done|]. exists t'. rewrite lookup_take_lt by lia. done.
    + split; [lia|]. exists t. rewrite Nat2Z.id, lookup_take_lt by lia. done.
Qed.

(** The tables of references alone. *)
Definition rows_exact d blk : Prop :=
  (∀ k ts, row (d_reference_index d) k = Some ts ↔ ∃ b, blk (rk_block_number k) = Some b
     ∧ carries b (rk_transaction_index k) (rk_reference k) (rk_transaction_hash k) ∧ ts = cb_timestamp b)
  ∧ ∀ k r, row (d_block_reference_index d) k = Some r ↔ ∃ b, blk (bk_block_number k) = Some b
     ∧ carries b (bk_transaction_index k) r (bk_transaction_hash k).

Lemma rows_exact_ext d blk blk' : (∀ n, blk n = blk' n) → rows_exact d blk → rows_exact d blk'.
Proof. intros Hb [H1 H2]. split; intros; rewrite <- Hb; [apply H1|apply H2]. Qed.

Lemma write_references_spec n b blk i w d : (i ≤ length (cb_transactions b))%nat →
  rows_exact d (set_block n (Some (upto b i)) blk) →
  outcome (write_references (P := P) tx_hash n (cb_timestamp b) (Z.of_nat i) (drop i (cb_transactions b)) w d) (λ '(d', _),
    d_indexed_blocks d' = d_indexed_blocks d ∧ d_index_meta d' = d_index_meta d
    ∧ rows_exact d' (set_block n (Some b) blk)).
Proof.
  remember (drop i (cb_transactions b)) as txs eqn:Htxs. revert i w d Htxs.
  induction txs as [|t txs IH]; intros i w d Htxs Hi Hex.
  { cbn. split_and!; [done..|]. assert (Hall : upto b i = b); [|by rewrite Hall in Hex].
    unfold upto. rewrite take_ge by (apply (f_equal length) in Htxs; rewrite length_drop in Htxs; cbn in Htxs; lia).
    by destruct b. }
  assert (Ht : cb_transactions b !! i = Some t)
    by (rewrite <- (Nat.add_0_r i), <- lookup_drop, <- Htxs; done).
  assert (Hrest : txs = drop (S i) (cb_transactions b))
    by (rewrite <- Nat.add_1_r, <- drop_drop, <- Htxs; done).
  apply lookup_lt_Some in Ht as Hlt. cbn [write_references].
  replace (Z.of_nat i + 1) with (Z.of_nat (S i)) by lia.
  destruct (MorphTxEnvelope.reference t) as [r|] eqn:Hr.
  - eapply outcome_bind; [apply put_reference_spec|]. intros d1 (Hib & Hm & H1 & H2).
    rewrite <- Hib, <- Hm. apply IH; [done|lia|]. destruct Hex as [E1 E2]. split.
    + intros k ts. rewrite H1. unfold set_block in *. specialize (E1 k ts).
      destruct (Z.eqb_spec (rk_block_number k) n) as [Hn|Hn].
      * setoid_rewrite (inj_iff Some). case_bool_decide as Hk.
        -- subst k. cbn in *. split; [intros [= <-]|intros (? & <- & _ & ->); done].
           exists (upto b (S i)). split_and!; [done| |done]. apply (carries_upto_S b i t); naive_solver.
        -- rewrite E1. split.
           ++ intros (b' & [= <-] & Hc & ->). exists (upto b (S i)). split_and!; [done| |done].
              apply (carries_upto_S b i t); auto.
           ++ intros (b' & <- & [Hc|(Hj & Hr' & Hh)]%(carries_upto_S b i t) & ->); [by exists (upto b i)| |done].
              destruct Hk. destruct k; cbn in *; congruence.
      * rewrite bool_decide_eq_false_2 by (by intros ->). exact E1.
    + intros k v. rewrite H2. unfold set_block in *. specialize (E2 k v).
      destruct (Z.eqb_spec (bk_block_number k) n) as [Hn|Hn].
      * case_bool_decide as Hk.
        -- subst k. cbn in *. split.
           ++ intros [= <-]. exists (upto b (S i)). split; [done|]. apply (carries_upto_S b i t); naive_solver.
           ++ intros (b' & [= <-] & [(Hj & t' & (Ht' & Hlt')%lookup_take_Some & _)|(_ & Hr' & _)]%(carries_upto_S b i t));
                [lia|congruence|done].
        -- rewrite E2. split.
           ++ intros (b' & [= <-] & Hc). exists (upto b (S i)). split; [done|]. apply (carries_upto_S b i t); auto.
           ++ intros (b' & [= <-] & [Hc|(Hj & Hr' & Hh)]%(carries_upto_S b i t)); [by exists (upto b i)| |done].
              destruct Hk. destruct k; cbn in *; congruence.
      * rewrite bool_decide_eq_false_2 by (by intros ->). exact E2.
  - apply IH; [done|lia|]. eapply (rows_exact_ext d (set_block n (Some (upto b i)) blk)) in Hex; [|done].
    assert (Hsame : ∀ j r h, carries (upto b (S i)) j r h ↔ carries (upto b i) j r h).
    { intros j r h. rewrite (carries_upto_S b i t) by done. rewrite Hr. naive_solver. }
    destruct Hex as [E1 E2]. unfold set_block in *. split; intros k v; [rewrite E1|rewrite E2].
    + destruct (_ =? n); [|done]. split; intros (b' & [= <-] & Hc & ->); eexists; (split; [done|]);
        split; try done; by apply Hsame.
    + destruct (_ =? n); [|done]. split; intros (b' & [= <-] & Hc); eexists; (split; [done|]); by apply Hsame.
Qed.

Lemma exact_rows d blk floor : exact d blk floor → rows_exact d blk.
Proof. intros [H1 H2 _ _]. by split. Qed.

(** A block that carries nothing leaves no row. *)
Lemma rows_exact_empty n b d blk : blk n = None → rows_exact d blk → rows_exact d (set_block n (Some (upto b 0)) blk).
Proof.
  intros Hn [H1 H2]. assert (Hno : ∀ j r h, ¬ carries (upto b 0) j r h) by (intros j r h (_ & t & Ht & _); done).
  unfold set_block. split; intros k v.
  - rewrite H1. destruct (Z.eqb_spec (rk_block_number k) n) as [->|]; [|done]. rewrite Hn. naive_solver.
  - rewrite H2. destruct (Z.eqb_spec (bk_block_number k) n) as [->|]; [|done]. rewrite Hn. naive_solver.
Qed.

Lemma write_block_spec n b d blk floor : blk n = None → exact d blk floor →
  outcome (write_block (P := P) tx_hash n (cb_hash b) (cb_timestamp b) (cb_transactions b) d) (λ '(d', _),
    d_index_meta d' = d_index_meta d ∧ exact d' (set_block n (Some b) blk) floor).
Proof.
  intros Hn Hex. unfold write_block. eapply outcome_bind; [apply put_indexed_block_spec|].
  intros d1 (Hr & Hb & Hm & Hi). cbn.
  assert (H1 : rows_exact d1 (set_block n (Some (upto b 0)) blk)).
  { apply rows_exact_empty; [done|]. unfold rows_exact. rewrite Hr, Hb. by eapply exact_rows. }
  eapply outcome_mono; [exact (write_references_spec n b blk 0 0 d1 ltac:(lia) H1)|].
  intros [d' w] (Hi' & Hm' & [H2 H3]). split; [congruence|]. split; [done|done|..]; intros m h; rewrite Hi', Hi; unfold set_block.
  - destruct (Z.eqb_spec m n); case_bool_decide; try done; [intros [= <-]; eauto|by apply (ex_hash _ _ _ Hex)].
  - destruct (Z.eqb_spec m n); case_bool_decide; try done; [by intros [= <-]|by apply (ex_kept _ _ _ Hex)].
Qed.

(** *** Deleting a block *)

Definition entry_key (e : BlockReferenceKey * bytes) : ReferenceIndexKey := {|
  rk_reference := e.2; rk_block_number := bk_block_number e.1;
  rk_transaction_index := bk_transaction_index e.1; rk_transaction_hash := bk_transaction_hash e.1 |}.

Lemma delete_entries_spec entries d : outcome (delete_entries (P := P) entries d) (λ d',
  d_indexed_blocks d' = d_indexed_blocks d ∧ d_index_meta d' = d_index_meta d
  ∧ (∀ k v, row (d_reference_index d') k = Some v ↔ row (d_reference_index d) k = Some v ∧ k ∉ map entry_key entries)
  ∧ ∀ k v, row (d_block_reference_index d') k = Some v ↔ row (d_block_reference_index d) k = Some v ∧ k ∉ map fst entries).
Proof.
  revert d. induction entries as [|[key r] entries IH]; intros d; cbn [delete_entries].
  { cbn. split_and!; [done..| |]; intros k v; split; [|naive_solver| |naive_solver]; intros Hk;
      (split; [done|]); apply not_elem_of_nil. }
  pose proof (law_t_delete (entry_key (key, r)) (d_reference_index d)) as H1.
  change (Build_ReferenceIndexKey _ _ _ _) with (entry_key (key, r)).
  destruct (t_delete (entry_key (key, r)) _) as [t1|]; [|done]. cbn [map_err result_bind].
  pose proof (law_t_delete key (d_block_reference_index d)) as H2.
  destruct (t_delete key _) as [t2|]; [|done]. cbn [map_err result_bind outcome] in *.
  eapply outcome_mono; [apply IH|]. cbn. intros d' (Hi & Hm & H3 & H4). split_and!; [done..| |]; intros k v.
  - rewrite H3, H1, not_elem_of_cons. case_bool_decide; naive_solver.
  - rewrite H4, H2, not_elem_of_cons. case_bool_decide; naive_solver.
Qed.

(** From the first key of the block on, its rows come first. *)
Lemma block_entries_elem n (rows : list (BlockReferenceKey * bytes)) : StronglySorted key_lt (map fst rows) →
  (∀ e, e ∈ rows → n ≤ bk_block_number e.1) →
  ∀ e, e ∈ block_entries n rows ↔ e ∈ rows ∧ bk_block_number e.1 = n.
Proof.
  induction rows as [|[key v] rows IH]; cbn; intros Hs Hge e; [set_solver|].
  apply StronglySorted_inv in Hs as [Hs Hlt]. rewrite Forall_forall in Hlt.
  pose proof (Hge (key, v) ltac:(left)) as Hk. cbn in Hk.
  destruct (Z.eqb_spec (bk_block_number key) n) as [He|He]; cbn.
  - rewrite !elem_of_cons, IH; [|done|intros e' He'; apply Hge; by right]. naive_solver.
  - split; [by intros ?%elem_of_nil|]. intros [[->|Hin]%elem_of_cons Hn]; [done|]. exfalso.
    specialize (Hlt e.1 ltac:(by apply list_elem_of_fmap_2)). cbn in Hlt. lia.
Qed.

Lemma delete_block_spec n d blk floor : exact d blk floor →
  outcome (delete_block (P := P) n d) (λ d',
    d_index_meta d' = d_index_meta d ∧ exact d' (set_block n None blk) floor).
Proof.
  intros Hex. unfold delete_block. set (k0 := Build_BlockReferenceKey n 0 0).
  pose proof (law_t_from (Some k0) (d_block_reference_index d)) as Hfrom.
  destruct (t_from (Some k0) _) as [rows|]; [|done]. cbn [map_err result_bind outcome] in *. destruct Hfrom as [Hs Hrows].
  assert (Hge : ∀ e, e ∈ rows → n ≤ bk_block_number e.1).
  { intros [k v] [_ Hk]%Hrows. cbn in *. lia. }
  assert (Hentry : ∀ k r, (k, r) ∈ block_entries n rows ↔ row (d_block_reference_index d) k = Some r ∧ bk_block_number k = n).
  { intros k r. rewrite (block_entries_elem n rows Hs Hge), Hrows. cbn. split; [tauto|]. intros [Hr Hn].
    split_and!; [done| |done]. apply (ex_block _ _ _ Hex) in Hr as (b & _ & Hi & t & _ & _ & Hh).
    pose proof (tx_hash_nonneg t). cbn. lia. }
  eapply outcome_bind; [apply delete_entries_spec|]. intros d1 (Hi & Hm & H1 & H2).
  pose proof (law_t_delete n (d_indexed_blocks d1)) as H3.
  destruct (t_delete n (d_indexed_blocks d1)) as [t|]; [|done]. cbn [map_err result_bind outcome] in *.
  split; [done|]. rewrite Hi in H3. split; cbn.
  - intros k ts. rewrite H1, (ex_reference _ _ _ Hex). unfold set_block.
    destruct (Z.eqb_spec (rk_block_number k) n) as [Hn|Hn].
    + split; [|naive_solver]. intros [(b & Hb & Hc & ->) Hno]. destruct Hno.
      apply list_elem_of_fmap. exists (Build_BlockReferenceKey (rk_block_number k) (rk_transaction_index k) (rk_transaction_hash k), rk_reference k).
      split; [by destruct k|]. apply Hentry. split; [|done]. apply (ex_block _ _ _ Hex). naive_solver.
    + split; [tauto|]. intros Hk. split; [done|]. intros ([k' r] & -> & [_ Hk']%Hentry)%list_elem_of_fmap. done.
  - intros k r. rewrite H2, (ex_block _ _ _ Hex). unfold set_block.
    destruct (Z.eqb_spec (bk_block_number k) n) as [Hn|Hn].
    + split; [|naive_solver]. intros [Hk Hno]. destruct Hno. apply list_elem_of_fmap. exists (k, r). split; [done|].
      apply Hentry. by rewrite (ex_block _ _ _ Hex).
    + split; [tauto|]. intros Hk. split; [done|]. intros ([k' r'] & -> & [_ Hk']%Hentry)%list_elem_of_fmap. done.
  - intros m h. rewrite H3. unfold set_block. destruct (Z.eqb_spec m n); case_bool_decide; try done. apply (ex_hash _ _ _ Hex).
  - intros m b. rewrite H3. unfold set_block. destruct (Z.eqb_spec m n); case_bool_decide; try done. apply (ex_kept _ _ _ Hex).
Qed.

(** *** Pruning *)

Lemma delete_indexed_spec keys d : outcome (delete_indexed (P := P) keys d) (λ d',
  d_reference_index d' = d_reference_index d ∧ d_block_reference_index d' = d_block_reference_index d
  ∧ d_index_meta d' = d_index_meta d
  ∧ ∀ n h, row (d_indexed_blocks d') n = Some h ↔ row (d_indexed_blocks d) n = Some h ∧ n ∉ keys).
Proof.
  revert d. induction keys as [|key keys IH]; intros d; cbn [delete_indexed].
  { cbn. split_and!; [done..|]. intros n h. split; [|naive_solver]. intros Hn. split; [done|]. apply not_elem_of_nil. }
  pose proof (law_t_delete key (d_indexed_blocks d)) as H1.
  destruct (t_delete key _) as [t|]; [|done]. cbn [map_err result_bind outcome] in *.
  eapply outcome_mono; [apply IH|]. cbn. intros d' (Hr & Hb & Hm & H2). split_and!; [done..|]. intros n h.
  rewrite H2, H1, not_elem_of_cons. case_bool_decide; naive_solver.
Qed.

Lemma stale_rows_below room floor rows n : n ∈ stale_rows room floor rows → n < floor.
Proof.
  revert rows. induction room as [|room IH]; intros [|[k v] rows]; cbn; try by intros ?%elem_of_nil.
  destruct (Z.leb_spec floor k); [by intros ?%elem_of_nil|]. intros [->|Hn]%elem_of_cons; [done|]. by eapply IH.
Qed.

Lemma prune_spec floor' d blk floor : exact d blk floor →
  outcome (prune_indexed_blocks_before (P := P) floor' d) (λ d',
    d_index_meta d' = d_index_meta d ∧ exact d' blk (Z.max floor floor')).
Proof.
  intros Hex. unfold prune_indexed_blocks_before. destruct (Z.eqb_spec floor' 0) as [->|Hf].
  { cbn. split; [done|]. destruct Hex as [H1 H2 H3 H4]. split; try done. intros n b Hb Hn. apply H4; [done|lia]. }
  destruct (t_from None _) as [rows|]; [|done]. cbn [map_err result_bind].
  eapply outcome_mono; [apply delete_indexed_spec|]. intros d' (Hr & Hb & Hm & Hi). split; [done|].
  destruct Hex as [H1 H2 H3 H4]. split.
  - intros k ts. rewrite Hr. apply H1.
  - intros k r. rewrite Hb. apply H2.
  - intros n h [Hn _]%Hi. by apply H3.
  - intros n b Hn Hle. apply Hi. split; [apply H4; [done|lia]|]. intros ?%stale_rows_below. lia.
Qed.
End Exact.
