(* ===== verification/RefIndexSafety.v ===== *)
(** * What the reference index guarantees

    Theorems about [RefIndex]: a turn of the runtime keeps the tables equal to the
    references of a chain that ends at the cursor, whatever fails on the way, provided
    the canonical chain only grows while the turn runs; so a query answers exactly the
    page of the canonical chain.  A reorganization inside a turn is the case that the
    code does not cover, which [reorg_inside_turn_mixes_branches] shows. *)

From S2P Require Import Prelude.
From stdpp Require Import sorting.
From S2P Require Import Rlp.
From S2P Require Import MorphTx.
From S2P Require Import Envelope.
From S2P Require Import PayloadTypes.
From S2P Require Import Versioned.
From S2P Require Import RefIndex.
From S2P Require Import RefIndexTables.
#[local] Open Scope Z_scope.

(** ** Outcomes of a stateful computation *)

Definition after {S E A} (c : sm S E A) (s : S) (Q : S → result A E → Prop) : Prop := Q (c s).1 (c s).2.

Section After.
Context {S E A B : Type}.
Implicit Types (c : sm S E A) (s : S).

Lemma after_bind c (k : A → sm S E B) s Q :
  after c s (λ s' r, match r with Ok a => after (k a) s' Q | Err e => Q s' (Err e) end) → after (c ≫= k) s Q.
Proof. unfold after, mbind, sm_bind. by destruct (c s) as [s' [a|e]]. Qed.

Lemma after_mono c s (Q Q' : S → result A E → Prop) : after c s Q → (∀ s' r, Q s' r → Q' s' r) → after c s Q'.
Proof. unfold after. auto. Qed.

Lemma after_ret (a : A) s (Q : S → result A E → Prop) : Q s (Ok a) → after (mret a) s Q.
Proof. done. Qed.

Lemma after_run c s s' r Q : after c s Q → c s = (s', r) → Q s' r.
Proof. unfold after. intros HQ He. by rewrite He in HQ. Qed.
End After.

(** ** Chains *)

Section Safety.
Context {ETH AL SA SG E P : Type}.
Abbreviation envelope := (MorphTxEnvelope.MorphTxEnvelope ETH AL SA SG).
Abbreviation block := (CanonicalBlock envelope).
Abbreviation error := (ReferenceIndexError E P).
Context {Tb : Type → Type → Type} `{OrdTablesLaws Tb E}.
Context (tx_hash : envelope → Z) (env : DbEnv E) (chain : CanonicalChain envelope error).
Context (chain_id : Z) (genesis_hash : Z) (jade_timestamp : Z).
Abbreviation state := (Index Tb).

(** The chains that are ever canonical, and the canonical one at each time. *)
Context (known : list block → Prop) (canon : nat → list block).

(** A chain is numbered from zero, its times do not go back, references come with Jade,
    and a hash determines a block and all its ancestors. *)
Record known_laws : Prop := {
  kn_number c i b : known c → c !! i = Some b → cb_number b = Z.of_nat i;
  kn_length c : known c → Z.of_nat (length c) ≤ u64_max;
  kn_hash c c' i b b' : known c → known c' → c !! i = Some b → c' !! i = Some b' →
    cb_hash b = cb_hash b' → take (S i) c = take (S i) c';
  kn_time c i j b b' : known c → c !! i = Some b → c !! j = Some b' → (i ≤ j)%nat → cb_timestamp b ≤ cb_timestamp b';
  kn_plain c b t : known c → b ∈ c → cb_timestamp b < jade_timestamp → t ∈ cb_transactions b →
    MorphTxEnvelope.reference t = None;
  kn_canon t : known (canon t);
}.

(** A read of the chain may fail, or not find a block; what it finds is canonical at
    that time.  A range read returns real blocks, which the code compares by hash. *)
Record chain_laws : Prop := {
  cl_head t tip : head_at chain t = Ok tip → ∃ b, last (canon t) = Some b
    ∧ tip = {| tip_number := cb_number b; tip_hash := cb_hash b; tip_timestamp := cb_timestamp b |};
  cl_hash t n h : canonical_hash_at chain t n = Ok (Some h) →
    0 ≤ n ∧ ∃ b, canon t !! Z.to_nat n = Some b ∧ cb_hash b = h;
  cl_time t n ts : block_timestamp_at chain t n = Ok (Some ts) →
    0 ≤ n ∧ ∃ b, canon t !! Z.to_nat n = Some b ∧ cb_timestamp b = ts;
  cl_blocks t lo hi bs b : canonical_blocks_at chain t lo hi = Ok bs → b ∈ bs →
    ∃ c, known c ∧ 0 ≤ cb_number b ∧ c !! Z.to_nat (cb_number b) = Some b;
}.

Hypothesis tx_hash_nonneg : ∀ t, 0 ≤ tx_hash t.
Hypothesis Hknown : known_laws.
Hypothesis Hchain : chain_laws.

(** The chain only grows between two times. *)
Definition quiet (t0 t1 : nat) : Prop := ∀ t t', (t0 ≤ t ≤ t')%nat → (t' ≤ t1)%nat → canon t `prefix_of` canon t'.

Lemma quiet_mono t0 t1 t0' t1' : (t0 ≤ t0')%nat → (t1' ≤ t1)%nat → quiet t0 t1 → quiet t0' t1'.
Proof. intros H0' H1 Hq t t' Ht Ht'. apply Hq; lia. Qed.

Lemma quiet_block t0 t1 t i b : quiet t0 t1 → (t0 ≤ t ≤ t1)%nat → canon t !! i = Some b → canon t1 !! i = Some b.
Proof. intros Hq Ht Hb. eapply prefix_lookup_Some; [exact Hb|]. apply Hq; lia. Qed.

Lemma quiet_take t0 t1 t i : quiet t0 t1 → (t0 ≤ t ≤ t1)%nat → (i ≤ length (canon t))%nat →
  take i (canon t1) = take i (canon t).
Proof.
  intros Hq Ht Hi. destruct (Hq t t1 ltac:(lia) ltac:(lia)) as [l Hl]. rewrite Hl. by apply take_app_le.
Qed.

(** ** The invariant of the tables *)

(** The blocks of [c] from [lo] to [hi]. *)
Definition span (c : list block) (lo hi : Z) : Z → option block :=
  λ m, if (lo <=? m) && (m <=? hi) then c !! Z.to_nat m else None.

Definition before_jade (c : list block) (n : Z) : Prop :=
  ∀ m b, 0 ≤ m < n → c !! Z.to_nat m = Some b → cb_timestamp b < jade_timestamp.

(** The tables index [c] from [jade] up to the cursor [n]. *)
Record indexes (d : IndexDb Tb) (c : list block) (n jade floor : Z) : Prop := {
  ix_known : known c;
  ix_range : 0 ≤ jade ≤ n;
  ix_length : n < Z.of_nat (length c);
  ix_jade : before_jade c jade;
  ix_cursor : row (d_index_meta d) (meta_key IndexedTo) = Some (encode_u64 n);
  ix_first : row (d_index_meta d) (meta_key JadeFirstBlockNumber) = Some (encode_u64 jade);
  ix_exact : exact tx_hash d (span c jade n) floor;
}.

Record fresh (d : IndexDb Tb) : Prop := {
  fr_exact : exact tx_hash d (λ _, None) 0;
  fr_cursor : row (d_index_meta d) (meta_key IndexedTo) = None;
  fr_first : row (d_index_meta d) (meta_key JadeFirstBlockNumber) = None;
}.

Definition db_inv (d : IndexDb Tb) : Prop := fresh d ∨ ∃ c n jade floor, indexes d c n jade floor.

Lemma exact_ext d blk blk' floor : (∀ m, blk m = blk' m) → exact tx_hash d blk floor → exact tx_hash d blk' floor.
Proof.
  intros Hb [H1 H2 H3 H4]. split.
  - intros k ts. rewrite <- Hb. apply H1.
  - intros k r. rewrite <- Hb. apply H2.
  - intros m h. rewrite <- Hb. apply H3.
  - intros m b. rewrite <- Hb. apply H4.
Qed.

(** The tables depend on the chain only up to the cursor. *)
Lemma span_take c c' lo hi m : 0 ≤ lo → take (S (Z.to_nat hi)) c = take (S (Z.to_nat hi)) c' → span c lo hi m = span c' lo hi m.
Proof.
  intros Hlo Ht. unfold span. destruct (Z.leb_spec lo m), (Z.leb_spec m hi); cbn; try done.
  rewrite <- (lookup_take_lt c (S (Z.to_nat hi))), <- (lookup_take_lt c' (S (Z.to_nat hi))) by lia. by rewrite Ht.
Qed.

Lemma indexes_cursor_range d c n jade floor : indexes d c n jade floor → is_u64 n ∧ n < u64_max.
Proof. intros [Hk Hr Hl _ _ _ _]. pose proof (kn_length Hknown c Hk). unfold in_range. lia. Qed.

Lemma jade_range d c n jade floor : indexes d c n jade floor → is_u64 jade.
Proof. intros Hi. destruct (indexes_cursor_range _ _ _ _ _ Hi). pose proof (ix_range _ _ _ _ _ Hi). unfold in_range in *. lia. Qed.

(** The same tables, for another chain with the same prefix. *)
Lemma indexes_move d c c' n jade floor : indexes d c n jade floor → known c' →
  take (S (Z.to_nat n)) c = take (S (Z.to_nat n)) c' → indexes d c' n jade floor.
Proof.
  intros [Hk Hr Hl Hj Hc Hf Hex] Hk' Ht.
  assert (Hl' : n < Z.of_nat (length c')).
  { apply (f_equal length) in Ht. rewrite !length_take in Ht. lia. }
  split; try done.
  - intros m b Hm Hb. apply (Hj m b Hm).
    rewrite <- (lookup_take_lt c (S (Z.to_nat n))) by lia. rewrite Ht, lookup_take_lt by lia. done.
  - eapply exact_ext; [|exact Hex]. intros m. apply span_take; [lia|done].
Qed.

(** ** Reading the tables *)

Lemma u64_codec n : is_u64 n → decode_u64 (E := E) (P := P) (encode_u64 n) = Ok n.
Proof.
  intros Hn%u64_word. unfold decode_u64, encode_u64. change (len (be_word 8 n) =? 8) with true. cbv iota.
  by rewrite of_be_word.
Qed.

Lemma get_meta_spec {A} k (dec : bytes → result A error) d :
  outcome (get_meta k dec d) (λ o, match row (d_index_meta d) (meta_key k) with
    | None => o = None | Some v => ∃ a, dec v = Ok a ∧ o = Some a end).
Proof.
  unfold get_meta. pose proof (law_t_get (meta_key k) (d_index_meta d)) as Hl.
  destruct (t_get (meta_key k) (d_index_meta d)) as [o|]; [|done]. cbn in *. subst o.
  destruct (row _ _) as [v|]; [|done]. destruct (dec v); cbn; [|done]. eauto.
Qed.

(** What is left unchanged by a read. *)
Definition idle (s s' : state) : Prop := disk s' = disk s ∧ (now s ≤ now s')%nat.

Lemma idle_trans s1 s2 s3 : idle s1 s2 → idle s2 s3 → idle s1 s3.
Proof. intros [Hd1 ?] [Hd2 ?]. split; [congruence|lia]. Qed.

Lemma set_phase_idle p (s : state) : idle s (set_phase p s).
Proof. unfold set_phase. case_bool_decide; split; done. Qed.

Lemma after_ask {A} (f : nat → result A error) (s : state) Q : Q (tick s) (f (now s)) → after (ask f) s Q.
Proof. done. Qed.

Lemma after_tx (s : state) Q : (∀ s' r, idle s s' → match r with Ok d => d = disk s | Err _ => True end → Q s' r) →
  after (tx (P := P) env) s Q.
Proof.
  intros HQ. unfold tx. apply after_bind, after_ask.
  destruct (map_err _ (env_tx env (now s))) as [u|e]; apply HQ; try done; split; cbn; try done; lia.
Qed.

Lemma after_indexed_to (s : state) Q : (∀ s' r, idle s s' → match r with
    | Ok o => match row (d_index_meta (disk s)) (meta_key IndexedTo) with
              | None => o = None | Some v => ∃ n, decode_u64 (E := E) (P := P) v = Ok n ∧ o = Some n end
    | Err _ => True end → Q s' r) → after (indexed_to (P := P) env) s Q.
Proof.
  intros HQ. unfold indexed_to. apply after_bind, after_tx. intros s' [d|e] Hi Hr; [|by apply HQ].
  subst d. unfold after, sm_lift. cbn. apply HQ; [done|].
  pose proof (get_meta_spec IndexedTo (decode_u64 (E := E) (P := P)) (disk s)) as Hg.
  by destruct (get_meta _ _ (disk s)).
Qed.

Lemma after_jade_first (s : state) Q : (∀ s' r, idle s s' → match r with
    | Ok o => match row (d_index_meta (disk s)) (meta_key JadeFirstBlockNumber) with
              | None => o = None | Some v => ∃ n, decode_u64 (E := E) (P := P) v = Ok n ∧ o = Some n end
    | Err _ => True end → Q s' r) → after (jade_first_block_number (P := P) env) s Q.
Proof.
  intros HQ. unfold jade_first_block_number. apply after_bind, after_tx. intros s' [d|e] Hi Hr; [|by apply HQ].
  subst d. unfold after, sm_lift. cbn. apply HQ; [done|].
  pose proof (get_meta_spec JadeFirstBlockNumber (decode_u64 (E := E) (P := P)) (disk s)) as Hg.
  by destruct (get_meta _ _ (disk s)).
Qed.

Lemma after_indexed_hash n (s : state) Q : (∀ s' r, idle s s' →
    match r with Ok o => o = row (d_indexed_blocks (disk s)) n | Err _ => True end → Q s' r) →
  after (indexed_block_hash (P := P) env n) s Q.
Proof.
  intros HQ. unfold indexed_block_hash. apply after_bind, after_tx. intros s' [d|e] Hi Hr; [|by apply HQ].
  subst d. unfold after, sm_lift. cbn. apply HQ; [done|].
  pose proof (law_t_get n (d_indexed_blocks (disk s))) as Hg.
  by destruct (t_get n (d_indexed_blocks (disk s))).
Qed.

(** A write transaction replaces the tables, or leaves them. *)
Lemma after_write_tx {A} (body : IndexDb Tb → result (IndexDb Tb * A) error) (I : IndexDb Tb * A → Prop) (s : state) Q :
  outcome (body (disk s)) I →
  (∀ s' e, idle s s' → Q s' (Err e)) →
  (∀ s' d a, I (d, a) → disk s' = d → (now s ≤ now s')%nat → Q s' (Ok a)) →
  after (write_tx env body) s Q.
Proof.
  intros Hb Herr Hok. unfold write_tx. apply after_bind, after_ask.
  destruct (map_err _ (env_tx_mut env (now s))) as [u|e]; [|apply Herr; split; cbn; [done|lia]].
  apply after_bind. unfold after, sm_read. cbn [fst snd tick disk].
  destruct (body (disk s)) as [[d a]|e]; [|apply Herr; split; cbn; [done|lia]].
  apply after_bind, after_ask. destruct (map_err _ (env_commit env _)) as [u'|e]; [|apply Herr; split; cbn; [done|lia]].
  change (Q (set_disk d (tick (tick s))) (Ok a)). apply (Hok _ d a); [exact Hb|done|cbn; lia].
Qed.

(** ** The first block of Jade *)

Lemma before_jade_take c c' n : take (Z.to_nat n) c = take (Z.to_nat n) c' → before_jade c n → before_jade c' n.
Proof.
  intros Ht Hb m b Hm Hl. apply (Hb m b Hm). rewrite <- (lookup_take_lt c (Z.to_nat n)) by lia.
  rewrite Ht, lookup_take_lt by lia. done.
Qed.

(** The search only moves its lower end past blocks that it knows to precede Jade. *)
Lemma jade_search_spec t0 fuel low high (s : state) : (t0 ≤ now s)%nat → 0 ≤ low ≤ high →
  (quiet t0 (now s) → (Z.to_nat low ≤ length (canon (now s)))%nat ∧ before_jade (canon (now s)) low) →
  after (jade_search chain fuel jade_timestamp low high) s (λ s' r, idle s s' ∧ ∀ j, r = Ok j →
    low ≤ j ≤ high
    ∧ (quiet t0 (now s') → (Z.to_nat j ≤ length (canon (now s')))%nat ∧ before_jade (canon (now s')) j)).
Proof.
  revert low high s. induction fuel as [|fuel IH]; intros low high s Ht Hr Hlow; cbn [jade_search].
  { split; [done|]. intros j [= <-]. split; [lia|done]. }
  destruct (Z.ltb_spec low high) as [Hlt|Hge]; [|split; [done|]; intros j [= <-]; split; [lia|done]].
  set (middle := low + (high - low) / 2).
  assert (Hmid : low ≤ middle < high).
  { pose proof (Z.div_pos (high - low) 2 ltac:(lia) ltac:(lia)).
    pose proof (Z.div_lt_upper_bound (high - low) 2 (high - low) ltac:(lia) ltac:(lia)). unfold middle. lia. }
  apply after_bind, after_ask. destruct (block_timestamp_at chain (now s) middle) as [o|e] eqn:Hts; [|by split; [split; cbn; [|lia]|]].
  apply after_bind. unfold after at 1, sm_lift. cbn [fst snd]. destruct o as [ts|]; cbn; [|by split; [split; cbn; [|lia]|]].
  destruct (cl_time Hchain _ _ _ Hts) as (Hm0 & b & Hb & Hbt).
  assert (Hgrow : ∀ n, quiet t0 (S (now s)) → (Z.to_nat n ≤ length (canon (now s)))%nat →
    before_jade (canon (now s)) n →
    (Z.to_nat n ≤ length (canon (S (now s))))%nat ∧ before_jade (canon (S (now s))) n).
  { intros n Hq Hn Hbj. destruct (Hq (now s) (S (now s)) ltac:(lia) ltac:(lia)) as [l Hl]. split.
    - rewrite Hl, length_app. lia.
    - eapply before_jade_take; [|exact Hbj]. rewrite Hl. by rewrite take_app_le. }
  destruct (Z.ltb_spec ts jade_timestamp) as [Hj|Hj].
  - eapply after_mono; [apply IH; cbn; [lia|lia|]|].
    + intros Hq. apply Hgrow; [done|apply lookup_lt_Some in Hb; lia|]. intros m b' Hm Hb'.
      pose proof (kn_time Hknown _ _ _ _ _ (kn_canon Hknown (now s)) Hb' Hb ltac:(lia)). lia.
    + cbn. intros s' r [[Hd Hn] Hres]. cbn in *. split; [split; [done|lia]|]. intros j Hrj.
      destruct (Hres j Hrj). split; [lia|done].
  - eapply after_mono; [apply IH; cbn; [lia|lia|]|].
    + intros Hq. destruct (Hlow (quiet_mono _ _ _ _ (le_n _) (Nat.le_succ_diag_r _) Hq)). by apply Hgrow.
    + cbn. intros s' r [[Hd Hn] Hres]. cbn in *. split; [split; [done|lia]|]. intros j Hrj.
      destruct (Hres j Hrj). split; [lia|done].
Qed.

(** ** Rollback *)

Lemma rewind_spec fuel floor number (s : state) :
  after (rewind env chain fuel floor number) s (λ s' r, idle s s' ∧ ∀ a, r = Ok (Some a) →
    ∃ h t b, row (d_indexed_blocks (disk s)) a = Some h ∧ (now s ≤ t ≤ now s')%nat
      ∧ canon t !! Z.to_nat a = Some b ∧ cb_hash b = h).
Proof.
  revert number s. induction fuel as [|fuel IH]; intros number s; cbn [rewind]; [by split|].
  apply after_bind, after_indexed_hash. intros s1 [o|e] [Hd1 Hn1] Ho; [|by split].
  subst o. apply after_bind. unfold after at 1, sm_lift. cbn [fst snd].
  destruct (row (d_indexed_blocks (disk s)) number) as [h|] eqn:Hrow; cbn; [|by split].
  apply after_bind, after_ask.
  destruct (canonical_hash_at chain (now s1) number) as [o|e] eqn:Hh; [|by split; [split; cbn; [|lia]|]].
  assert (Hidle : idle s (tick s1)) by (split; cbn; [done|lia]).
  case_bool_decide as Ho.
  - subst o. split; [done|]. intros a [= <-]. destruct (cl_hash Hchain _ _ _ Hh) as (_ & b & Hb & Hbh).
    exists h, (now s1), b. split_and!; try done; cbn; lia.
  - destruct (number =? floor); [by split|]. eapply after_mono; [apply IH|].
    cbn. intros s' r [Hi Hres]. split; [by eapply idle_trans|]. intros a Ha.
    destruct (Hres a Ha) as (h' & t & b & Hrow' & Ht & Hb). exists h', t, b.
    destruct Hi as [_ Hn']. rewrite Hd1 in Hrow'. cbn in *. split_and!; try done; try lia; tauto.
Qed.

Lemma delete_blocks_spec numbers d blk floor : exact tx_hash d blk floor →
  outcome (delete_blocks (P := P) numbers d) (λ d', d_index_meta d' = d_index_meta d
    ∧ exact tx_hash d' (λ m, if bool_decide (m ∈ numbers) then None else blk m) floor).
Proof.
  revert d blk. induction numbers as [|n numbers IH]; intros d blk Hex; cbn [delete_blocks].
  { cbn. split; [done|]. eapply exact_ext; [|exact Hex]. done. }
  eapply outcome_bind; [exact (delete_block_spec tx_hash tx_hash_nonneg n d blk floor Hex)|]. intros d1 [Hm1 Hex1].
  eapply outcome_mono; [by apply IH|]. intros d' [Hm Hex']. split; [congruence|].
  eapply exact_ext; [|exact Hex']. intros m. cbn. unfold set_block.
  destruct (Z.eqb_spec m n) as [->|Hne]; repeat case_bool_decide; set_solver.
Qed.

Lemma span_delete c jade lo n m : lo ≤ n + 1 →
  (if bool_decide (m ∈ seqZ lo (n - lo + 1)) then None else span c jade n m) = span c jade (lo - 1) m.
Proof.
  intros Hlo. unfold span. case_bool_decide as Hm; rewrite elem_of_seqZ in Hm;
    destruct (Z.leb_spec jade m), (Z.leb_spec m n), (Z.leb_spec m (lo - 1)); cbn; try done; lia.
Qed.

(** A batch of the rollback moves the cursor down to the block before it. *)
Lemma rollback_body_spec a n lo d c jade floor : indexes d c n jade floor → jade ≤ a → a + 1 ≤ lo ≤ n →
  outcome (rollback_body (P := P) (Some a) n (a + 1) lo d) (λ '(d', _), indexes d' c (lo - 1) jade floor).
Proof.
  intros Hix Ha Hlo. unfold rollback_body. eapply outcome_bind; [eapply delete_blocks_spec, ix_exact, Hix|].
  intros d1 [Hm1 Hex1]. cbn.
  replace (if lo =? a + 1 then update_indexed_to a d1 else update_indexed_to (lo - 1) d1)
    with (update_indexed_to (P := P) (lo - 1) d1)
    by (destruct (Z.eqb_spec lo (a + 1)); [f_equal; lia|done]).
  eapply outcome_bind; [apply put_meta_spec|]. intros d2 (Hr & Hb & Hi & Hm). cbn. destruct Hix as [Hk Hrg Hl Hj Hc Hf _].
  split; [done|lia|lia|done|..].
  - by rewrite Hm, bool_decide_eq_true_2.
  - rewrite Hm, bool_decide_eq_false_2 by done. by rewrite Hm1.
  - eapply (exact_ext _ (λ m, if bool_decide (m ∈ seqZ lo (n - lo + 1)) then None else span c jade n m));
      [intros m; by apply span_delete; lia|].
    destruct Hex1 as [E1 E2 E3 E4]. split; rewrite ?Hr, ?Hb, ?Hi; done.
Qed.

Lemma rollback_loop_spec fuel a batch_size c n jade floor (s : state) :
  indexes (disk s) c n jade floor → jade ≤ a ≤ n → 0 < batch_size → (Z.to_nat (n - a) < fuel)%nat →
  after (rollback_loop (P := P) env fuel (Some a) batch_size) s (λ s' r, (now s ≤ now s')%nat ∧
    ∃ n', a ≤ n' ≤ n ∧ indexes (disk s') c n' jade floor ∧ (r = Ok tt → n' = a)).
Proof.
  revert n s. induction fuel as [|fuel IH]; intros n s Hix Ha Hbs Hfuel; [lia|]. cbn [rollback_loop].
  destruct (indexes_cursor_range _ _ _ _ _ Hix) as [Hn Hn1].
  apply after_bind, after_indexed_to. intros s1 r [Hd1 Hn1'] Hr.
  destruct r as [o|e]; [|split; [lia|]; exists n; rewrite Hd1; split_and!; [lia|lia|done|done]].
  rewrite (ix_cursor _ _ _ _ _ Hix) in Hr. destruct Hr as (n0 & Hdec & ->). rewrite u64_codec in Hdec by done. injection Hdec as <-.
  destruct (Z.leb_spec n a) as [Hle|Hlt].
  { split; [cbn; lia|]. exists n. cbn. rewrite Hd1. split_and!; [lia|lia|done|intros _; lia]. }
  unfold in_range in Hn. rewrite saturating_add_exact by lia.
  set (lo := Z.max (saturating_sub n (saturating_sub batch_size 1)) (a + 1)).
  assert (Hlo : a + 1 ≤ lo ≤ n) by (unfold lo, saturating_sub; lia).
  apply after_bind. eapply after_write_tx.
  - rewrite Hd1. apply (rollback_body_spec a n lo _ c jade floor Hix); lia.
  - intros s2 e [Hd2 Hn2]. split; [lia|]. exists n. rewrite Hd2, Hd1. split_and!; [lia|lia|done|done].
  - intros s2 d2 [] Hix2 <- Hn2. eapply after_mono; [apply (IH (lo - 1)); [done|lia|done|lia]|].
    cbn. intros s' r (Hn' & n' & Hrange & Hres). split; [lia|]. exists n'. split; [lia|done].
Qed.

Lemma rollback_suffix_spec a c n jade floor (s : state) : indexes (disk s) c n jade floor → jade ≤ a ≤ n →
  after (rollback_suffix (P := P) env (Some a) DEFAULT_BACKFILL_BATCH_BLOCKS) s (λ s' r, (now s ≤ now s')%nat ∧
    ∃ n', a ≤ n' ≤ n ∧ indexes (disk s') c n' jade floor ∧ (r = Ok tt → n' = a)).
Proof.
  intros Hix Ha. unfold rollback_suffix. cbn [Z.eqb DEFAULT_BACKFILL_BATCH_BLOCKS]. apply after_bind. unfold after at 1, sm_get. cbn.
  pose proof (get_meta_spec IndexedTo (decode_u64 (E := E) (P := P)) (disk s)) as Hg.
  rewrite (ix_cursor _ _ _ _ _ Hix), u64_codec in Hg by by eapply indexes_cursor_range.
  unfold rollback_fuel. destruct (get_meta _ _ (disk s)) as [o|e] eqn:Hm; cbn in Hg.
  - destruct Hg as (n0 & [= <-] & ->). pose proof (ix_range _ _ _ _ _ Hix). apply rollback_loop_spec; try done; lia.
  - cbn [rollback_loop]. apply after_bind. unfold indexed_to. apply after_bind, after_tx. intros s1 [d1|e1] [Hd1 Hn1] Hr.
    + subst d1. unfold after, sm_lift. cbn. rewrite Hm. split; [done|]. exists n. rewrite Hd1. split_and!; try done; lia.
    + split; [done|]. exists n. rewrite Hd1. split_and!; try done; lia.
Qed.

(** ** Backfill *)

(** The batch is a piece of the chain. *)
Definition piece (c : list block) (start : Z) (bs : list block) : Prop :=
  ∀ i b, bs !! i = Some b → cb_number b = start + Z.of_nat i ∧ c !! Z.to_nat (start + Z.of_nat i) = Some b.

Lemma piece_cons c start b bs : piece c start (b :: bs) →
  cb_number b = start ∧ c !! Z.to_nat start = Some b ∧ piece c (start + 1) bs.
Proof.
  intros Hp. destruct (Hp 0%nat b eq_refl) as [Hn Hb]. rewrite Z.add_0_r in Hn, Hb. split_and!; [done..|].
  intros i b' Hi. destruct (Hp (S i) b' Hi) as [Hn' Hb']. rewrite Nat2Z.inj_succ in *.
  replace (start + Z.succ (Z.of_nat i)) with (start + 1 + Z.of_nat i) in * by lia. done.
Qed.

Lemma span_snoc c jade n b m : jade ≤ n + 1 → c !! Z.to_nat (n + 1) = Some b →
  set_block (n + 1) (Some b) (span c jade n) m = span c jade (n + 1) m.
Proof.
  intros Hj Hb. unfold set_block, span. destruct (Z.eqb_spec m (n + 1)) as [->|Hne].
  - destruct (Z.leb_spec jade (n + 1)), (Z.leb_spec (n + 1) (n + 1)); cbn; try lia. done.
  - destruct (Z.leb_spec jade m), (Z.leb_spec m n), (Z.leb_spec m (n + 1)); cbn; try lia; done.
Qed.

Lemma write_blocks_spec c jade bs start w d floor : jade ≤ start → piece c start bs →
  exact tx_hash d (span c jade (start - 1)) floor →
  outcome (write_blocks (P := P) tx_hash bs w d) (λ '(d', _), d_index_meta d' = d_index_meta d
    ∧ exact tx_hash d' (span c jade (start - 1 + Z.of_nat (length bs))) floor).
Proof.
  revert start w d. induction bs as [|b bs IH]; intros start w d Hj Hp Hex; cbn [write_blocks length].
  { cbn. by rewrite Z.add_0_r. }
  apply piece_cons in Hp as (Hn & Hb & Hp). rewrite Hn.
  assert (Hnew : span c jade (start - 1) start = None).
  { unfold span. destruct (Z.leb_spec start (start - 1)); [lia|]. by rewrite andb_false_r. }
  eapply outcome_bind; [exact (write_block_spec tx_hash start b d _ floor Hnew Hex)|].
  intros [d1 w1] [Hm1 Hex1]. eapply outcome_mono; [apply (IH (start + 1)); [lia|done|]|].
  - eapply exact_ext; [|exact Hex1]. intros m. replace (start + 1 - 1) with (start - 1 + 1) by lia.
    replace start with (start - 1 + 1) at 1 by lia. apply span_snoc; [lia|]. by replace (start - 1 + 1) with start by lia.
  - intros [d' w'] [Hm Hex']. split; [congruence|].
    replace (start - 1 + Z.of_nat (S (length bs))) with (start + 1 - 1 + Z.of_nat (length bs)) by lia. done.
Qed.

Lemma batch_body_spec c jade bs l start fin d floor : known c → before_jade c jade → 0 ≤ jade ≤ start →
  piece c start bs → last bs = Some l → exact tx_hash d (span c jade (start - 1)) floor →
  outcome (batch_body (P := P) tx_hash jade bs l fin d) (λ '(d', _), ∃ floor',
    indexes d' c (cb_number l) jade floor' ∧ (floor ≤ cb_number l → floor' ≤ cb_number l)).
Proof.
  intros Hk Hbj Hj Hp Hlast Hex. unfold batch_body.
  assert (Hl : cb_number l = start - 1 + Z.of_nat (length bs) ∧ c !! Z.to_nat (cb_number l) = Some l).
  { rewrite last_lookup in Hlast. destruct (Hp _ _ Hlast) as [Hn Hc]. rewrite Hn. split; [|done].
    apply lookup_lt_Some in Hlast. lia. }
  destruct Hl as [Hnum Hin].
  eapply outcome_bind; [exact (write_blocks_spec c jade bs start 0 d floor (proj2 Hj) Hp Hex)|]. intros [d1 w] [Hm1 Hex1]. rewrite <- Hnum in Hex1.
  assert (Hne : (0 < length bs)%nat) by (destruct bs; [done|cbn; lia]).
  eapply outcome_bind; [apply put_meta_spec|]. intros d2 (Hr2 & Hb2 & Hi2 & Hm2).
  eapply outcome_bind; [apply put_meta_spec|]. intros d3 (Hr3 & Hb3 & Hi3 & Hm3).
  assert (Hex3 : exact tx_hash d3 (span c jade (cb_number l)) floor).
  { destruct Hex1 as [E1 E2 E3 E4]. split; rewrite ?Hr3, ?Hb3, ?Hi3, ?Hr2, ?Hb2, ?Hi2; done. }
  assert (Hix : ∀ d4 fl, d_index_meta d4 = d_index_meta d3 → exact tx_hash d4 (span c jade (cb_number l)) fl →
    indexes d4 c (cb_number l) jade fl).
  { intros d4 fl Hm4 Hex4. apply lookup_lt_Some in Hin. split; [done|lia|lia|done| | |done]; rewrite Hm4, Hm3.
    - by rewrite bool_decide_eq_true_2.
    - rewrite bool_decide_eq_false_2 by done. by rewrite Hm2, bool_decide_eq_true_2. }
  eapply (outcome_bind _ _ (λ d4, ∃ fl, indexes d4 c (cb_number l) jade fl ∧ (floor ≤ cb_number l → fl ≤ cb_number l)));
    [|by intros d4].
  destruct fin as [f|]; [|cbn; exists floor; auto].
  destruct (Z.leb_spec (Z.max f jade) (cb_number l)); [|cbn; exists floor; auto].
  eapply outcome_mono; [eapply prune_spec, Hex3|]. intros d4 [Hm4 Hex4]. exists (Z.max floor (Z.max f jade)). split; [auto|lia].
Qed.

(** ** Reconciliation *)

(** A recorded hash that is canonical at some time places the index on that chain. *)
Lemma canonical_prefix d c n jade floor m h t b : indexes d c n jade floor →
  row (d_indexed_blocks d) m = Some h → canon t !! Z.to_nat m = Some b → cb_hash b = h →
  jade ≤ m ≤ n ∧ take (S (Z.to_nat m)) c = take (S (Z.to_nat m)) (canon t).
Proof.
  intros Hix Hrow Hb Hh. apply (ex_hash _ _ _ _ (ix_exact _ _ _ _ _ Hix)) in Hrow as (b' & Hb' & Hh').
  unfold span in Hb'. destruct (Z.leb_spec jade m), (Z.leb_spec m n); try done. cbn in Hb'. split; [lia|].
  apply (kn_hash Hknown c (canon t) _ b' b (ix_known _ _ _ _ _ Hix) (kn_canon Hknown t) Hb' Hb). congruence.
Qed.

(** The index follows the chain that is canonical at a time since [t0]. *)
Definition follows (t0 : nat) (s : state) (jade floor : Z) : Prop :=
  ∃ n t, (t0 ≤ t ≤ now s)%nat ∧ indexes (disk s) (canon t) n jade floor.

Lemma repair_spec c n jade floor fin cand (s : state) : indexes (disk s) c n jade floor →
  after (repair env chain jade fin cand) s (λ s' r, (now s ≤ now s')%nat
    ∧ (∃ n', indexes (disk s') c n' jade floor) ∧ (r = Ok tt → follows (now s) s' jade floor)).
Proof.
  intros Hix. unfold repair. apply after_bind. unfold after at 1, sm_modify. cbn [fst snd].
  destruct (set_phase_idle Repairing s) as [Hd0 Hn0]. set (s0 := set_phase Repairing s) in *. rewrite <- Hd0 in Hix.
  apply after_bind. eapply after_mono; [apply rewind_spec|]. intros s1 [o|e] [[Hd1 Hn1] Hres].
  2: { split_and!; [lia|exists n; by rewrite Hd1|done]. }
  apply after_bind. unfold after at 1, sm_lift. cbn [fst snd].
  destruct o as [a|]; cbn [ok_or]; [|split_and!; [lia|exists n; by rewrite Hd1|done]].
  destruct (Hres a eq_refl) as (h & t & b & Hrow & Ht & Hb & Hh).
  destruct (canonical_prefix _ _ _ _ _ _ _ _ _ Hix Hrow Hb Hh) as [Ha Htake]. rewrite <- Hd1 in Hix.
  eapply after_mono; [by eapply rollback_suffix_spec|]. intros s2 r (Hn2 & n' & Hr & Hix2 & Hok).
  split_and!; [lia|by exists n'|]. intros ->. exists n', t. split; [lia|]. rewrite (Hok eq_refl) in *.
  eapply indexes_move; [exact Hix2|apply (kn_canon Hknown)|done].
Qed.

Lemma last_canon t b : last (canon t) = Some b → 0 ≤ cb_number b ∧ canon t !! Z.to_nat (cb_number b) = Some b
  ∧ length (canon t) = S (Z.to_nat (cb_number b)).
Proof.
  rewrite last_lookup. intros Hb. rewrite (kn_number Hknown _ _ _ (kn_canon Hknown t) Hb), Nat2Z.id.
  apply lookup_lt_Some in Hb as Hlt. split_and!; [lia|done|lia].
Qed.

Lemma reconcile_spec t0 head t c n jade floor fin (s : state) : (t0 ≤ t ≤ now s)%nat → head_at chain t = Ok head →
  indexes (disk s) c n jade floor →
  after (reconcile_cursor env chain jade fin head) s (λ s' r, (now s ≤ now s')%nat
    ∧ (∃ n', indexes (disk s') c n' jade floor) ∧ (r = Ok tt → follows t0 s' jade floor)).
Proof.
  intros Ht Hhead Hix. unfold reconcile_cursor. destruct (indexes_cursor_range _ _ _ _ _ Hix) as [Hn _].
  apply after_bind, after_indexed_to. intros s1 [o|e] [Hd1 Hn1] Ho.
  2: { split_and!; [lia|exists n; by rewrite Hd1|done]. }
  rewrite (ix_cursor _ _ _ _ _ Hix) in Ho. destruct Ho as (n0 & Hdec & ->). rewrite u64_codec in Hdec by done. injection Hdec as <-.
  apply after_bind, after_indexed_hash. intros s2 [o|e] [Hd2 Hn2] Ho.
  2: { split_and!; [lia|exists n; by rewrite Hd2, Hd1|done]. }
  subst o. apply after_bind. unfold after at 1, sm_lift. cbn [fst snd]. rewrite Hd1. rewrite <- Hd1, <- Hd2 in Hix.
  destruct (row (d_indexed_blocks (disk s)) (n `min` tip_number head)) as [h|] eqn:Hrow; cbn [ok_or].
  2: { split_and!; [lia|by exists n|done]. }
  rewrite <- Hd1, <- Hd2 in Hrow.
  assert (Hrepair : ∀ s3, idle s2 s3 → after (repair env chain jade fin (n `min` tip_number head)) s3 (λ s' r,
    (now s ≤ now s')%nat ∧ (∃ n', indexes (disk s') c n' jade floor) ∧ (r = Ok tt → follows t0 s' jade floor))).
  { intros s3 [Hd3 Hn3]. rewrite <- Hd3 in Hix. eapply after_mono; [by eapply repair_spec|].
    intros s' r (Hn' & Hix' & Hok). split_and!; [lia|done|]. intros Hr. destruct (Hok Hr) as (n' & t' & Ht' & Hf).
    exists n', t'. split; [lia|done]. }
  assert (Hgood : ∀ t' b s3, (t0 ≤ t' ≤ now s3)%nat → idle s2 s3 → n ≤ tip_number head → canon t' !! Z.to_nat n = Some b →
    cb_hash b = h → (now s ≤ now s3)%nat ∧ (∃ n', indexes (disk s3) c n' jade floor) ∧ ((Ok tt : result unit error) = Ok tt → follows t0 s3 jade floor)).
  { intros t' b s3 Ht' [Hd3 Hn3] Hle Hb Hh. rewrite Z.min_l in Hrow by done. rewrite Hd3. split_and!; [lia|by exists n|].
    intros _. exists n, t'. split; [lia|]. rewrite Hd3. eapply indexes_move; [exact Hix|apply (kn_canon Hknown)|].
    eapply canonical_prefix; done. }
  destruct (cl_head Hchain _ _ Hhead) as (bh & (_ & Hbh & _)%last_canon & ->). cbn [tip_number tip_hash] in *.
  destruct (Z.eqb_spec n (cb_number bh)) as [He|He]; cbn [andb].
  - destruct (Z.eqb_spec h (cb_hash bh)) as [Heh|Heh].
    + apply (Hgood t bh s2); [lia|done|lia|by rewrite He|done].
    + rewrite (proj2 (Z.ltb_ge _ _)) by lia. by apply Hrepair.
  - destruct (Z.ltb_spec n (cb_number bh)) as [Hlt|Hge]; [|by apply Hrepair].
    apply after_bind, after_ask. assert (Hi3 : idle s2 (tick s2)) by (split; cbn; [done|lia]).
    destruct (canonical_hash_at chain (now s2) n) as [o|e] eqn:Hch.
    2: { split_and!; [cbn; lia|by exists n|done]. }
    case_bool_decide as Ho; [|by apply Hrepair]. subst o.
    destruct (cl_hash Hchain _ _ _ Hch) as (_ & b & Hb & Hbh'). apply (Hgood (now s2) b (tick s2)); [cbn; lia|done|lia|done|done].
Qed.

(** With no cursor there is nothing to reconcile. *)
Lemma reconcile_fresh jade fin head (s : state) : fresh (disk s) →
  after (reconcile_cursor env chain jade fin head) s (λ s' _, idle s s').
Proof.
  intros Hf. unfold reconcile_cursor. apply after_bind, after_indexed_to. intros s1 [o|e] Hi Ho; [|done].
  rewrite (fr_cursor _ Hf) in Ho. by subst o.
Qed.

(** ** A turn *)

Lemma verify_batch_spec start bs (s : state) : after (verify_batch chain start bs) s (λ s' r, idle s s' ∧
  (r = Ok tt → ∀ i b, bs !! i = Some b → cb_number b = start + Z.of_nat i ∧ ∃ t b', (now s ≤ t ≤ now s')%nat
     ∧ 0 ≤ start + Z.of_nat i ∧ canon t !! Z.to_nat (start + Z.of_nat i) = Some b' ∧ cb_hash b' = cb_hash b)).
Proof.
  revert start s. induction bs as [|b bs IH]; intros start s; cbn [verify_batch]; [by split|].
  apply after_bind, after_ask. assert (Hi : idle s (tick s)) by (split; cbn; [done|lia]).
  destruct (canonical_hash_at chain (now s) start) as [o|e] eqn:Hh; [|by split].
  destruct (Z.eqb_spec (cb_number b) start) as [Hn|Hn]; cbn [negb orb]; [|by split].
  case_bool_decide as Ho; cbn [negb]; [subst o|by split].
  destruct (cl_hash Hchain _ _ _ Hh) as (Hs0 & b0 & Hb0 & Hh0).
  eapply after_mono; [apply IH|]. intros s' r [Hi' Hok]. split; [by eapply idle_trans|]. intros Hr i b' Hb'.
  destruct Hi' as [_ Hn']. cbn in Hn'. destruct i as [|i].
  - injection Hb' as <-. rewrite Z.add_0_r. split; [done|]. exists (now s), b0. split_and!; [lia|lia|lia|done|done].
  - destruct (Hok Hr i b' Hb') as (Hnum & t & b1 & Ht & Hpos & Hb1 & Hh1). cbn in Ht. rewrite Nat2Z.inj_succ.
    replace (start + Z.succ (Z.of_nat i)) with (start + 1 + Z.of_nat i) by lia. split; [done|].
    exists t, b1. split_and!; [lia|lia|lia|done|done].
Qed.

(** Blocks that were canonical one by one form a piece of a chain that only grew. *)
Lemma verified_piece t0 t1 start bs : quiet t0 t1 →
  (∀ i b, bs !! i = Some b → ∃ c, known c ∧ 0 ≤ cb_number b ∧ c !! Z.to_nat (cb_number b) = Some b) →
  (∀ i b, bs !! i = Some b → cb_number b = start + Z.of_nat i ∧ ∃ t b', (t0 ≤ t ≤ t1)%nat
     ∧ 0 ≤ start + Z.of_nat i ∧ canon t !! Z.to_nat (start + Z.of_nat i) = Some b' ∧ cb_hash b' = cb_hash b) →
  piece (canon t1) start bs.
Proof.
  intros Hq Hreal Hver i b Hi. destruct (Hver i b Hi) as (Hn & t & b' & Ht & Hpos & Hb' & Hh). split; [done|].
  destruct (Hreal i b Hi) as (c & Hc & _ & Hcb). rewrite Hn in Hcb.
  assert (Heq : Some b' = Some b).
  { rewrite <- Hb', <- Hcb, <- (lookup_take_lt (canon t) (S (Z.to_nat (start + Z.of_nat i)))) by lia.
    rewrite (kn_hash Hknown _ _ _ _ _ (kn_canon Hknown t) Hc Hb' Hcb Hh). apply lookup_take_lt. lia. }
  injection Heq as ->. exact (quiet_block t0 t1 t _ _ Hq Ht Hb').
Qed.

(** What the tables hold before a batch from [start] on. *)
Definition ready (t0 : nat) (s : state) (jade start : Z) : Prop := quiet t0 (now s) →
  0 ≤ jade ≤ start ∧ (Z.to_nat start ≤ length (canon (now s)))%nat ∧ before_jade (canon (now s)) jade
  ∧ ∃ floor, exact tx_hash (disk s) (span (canon (now s)) jade (start - 1)) floor.

Lemma ready_idle t0 s s' jade start : (t0 ≤ now s)%nat → idle s s' → ready t0 s jade start → ready t0 s' jade start.
Proof.
  intros Ht [Hd Hn] Hr Hq. destruct (Hr (quiet_mono _ _ _ _ (le_n _) Hn Hq)) as (Hj & Hl & Hb & floor & Hex).
  assert (Htake : ∀ i, (i ≤ Z.to_nat start)%nat → take i (canon (now s)) = take i (canon (now s'))).
  { intros i Hi. symmetry. eapply quiet_take; [exact Hq|lia|lia]. }
  split_and!; [lia|lia| | |].
  - destruct (Hq (now s) (now s') ltac:(lia) ltac:(lia)) as [l Hl']. rewrite Hl', length_app. lia.
  - eapply before_jade_take; [apply Htake; lia|done].
  - exists floor. rewrite Hd. eapply exact_ext; [|exact Hex]. intros m. unfold span.
    destruct (Z.leb_spec jade m), (Z.leb_spec m (start - 1)); cbn; try done.
    rewrite <- (lookup_take_lt (canon (now s)) (S (Z.to_nat m))), <- (lookup_take_lt (canon (now s')) (S (Z.to_nat m))) by lia.
    rewrite Htake by lia. done.
Qed.

Lemma backfill_turn_spec t0 jade fin head start (s : state) : (t0 ≤ now s)%nat → db_inv (disk s) → ready t0 s jade start →
  after (backfill_turn tx_hash env chain jade fin head start) s (λ s' _, (now s ≤ now s')%nat
    ∧ (quiet t0 (now s') → db_inv (disk s'))).
Proof.
  intros Ht Hinv Hready. unfold backfill_turn.
  assert (Hkeep : ∀ s', idle s s' → (now s ≤ now s')%nat ∧ (quiet t0 (now s') → db_inv (disk s'))) by (intros s' [-> ?]; done).
  apply after_bind. unfold after at 1, sm_modify. cbn [fst snd]. pose proof (set_phase_idle Backfill s) as Hi1.
  set (s1 := set_phase Backfill s) in *. apply after_bind, after_ask.
  assert (Hi2 : idle s (tick s1)) by (eapply idle_trans; [exact Hi1|]; split; cbn; [done|lia]).
  destruct (canonical_blocks_at chain (now s1) start _) as [bs|e] eqn:Hbs; [|by apply Hkeep].
  destruct (negb _); [by apply Hkeep|]. apply after_bind. eapply after_mono; [apply verify_batch_spec|].
  intros s3 [[]|e] [Hi3 Hver]; [|by apply Hkeep; eapply idle_trans]. specialize (Hver eq_refl).
  assert (Hi03 : idle s s3) by by eapply idle_trans.
  unfold commit_canonical_batch. apply after_bind. destruct (last bs) as [l|] eqn:Hlast.
  2: { assert (Hi4 : idle s (tick s3)) by (eapply idle_trans; [exact Hi03|]; split; cbn; [done|lia]).
       apply after_ret, after_bind, after_ask. destruct (head_at chain (now s3)) as [h|e]; [|by apply (Hkeep (tick s3))].
       rewrite andb_false_r. by apply (Hkeep (tick s3)). }
  apply after_bind. unfold after at 1, sm_lift. cbn [fst snd].
  destruct (contiguous start bs) as [[]|e]; [|by apply Hkeep].
  pose proof (ready_idle t0 s s3 jade start Ht Hi03 Hready) as Hready3.
  eapply (after_write_tx _ (λ '(d', _), quiet t0 (now s3) → db_inv d')).
  - destruct (batch_body tx_hash jade bs l fin (disk s3)) as [[d' w]|e] eqn:Hbody; [|done]. cbn. intros Hq.
    destruct (Hready3 Hq) as (Hj & Hl & Hbj & floor & Hex).
    assert (Hp : piece (canon (now s3)) start bs).
    { apply (verified_piece t0 (now s3)); [done| |].
      - intros i b Hib. eapply cl_blocks; [exact Hchain|exact Hbs|]. by eapply list_elem_of_lookup_2.
      - intros i b Hib. destruct (Hver i b Hib) as (Hnum & t & b' & Ht' & Hrest). split; [done|]. exists t, b'.
        destruct Hi2 as [_ Hn2]. cbn in Ht', Hn2. split; [lia|done]. }
    pose proof (batch_body_spec (canon (now s3)) jade bs l start fin (disk s3) floor (kn_canon Hknown _) Hbj Hj Hp Hlast Hex) as Hb.
    rewrite Hbody in Hb. destruct Hb as (fl & Hix & _). right. eauto.
  - intros s4 e Hi4. apply Hkeep. by eapply idle_trans.
  - intros s4 d' w Hd' <- Hn4. destruct Hi03 as [_ Hn03].
    assert (Hend : ∀ s5, idle s4 s5 → (now s ≤ now s5)%nat ∧ (quiet t0 (now s5) → db_inv (disk s5))).
    { intros s5 [-> Hn5]. split; [lia|]. intros Hq. apply Hd'. eapply quiet_mono; [done| |exact Hq]. lia. }
    apply after_bind, after_ask. destruct (head_at chain (now s4)) as [h|e]; [|apply Hend; split; cbn; [done|lia]].
    destruct (_ && _); apply Hend; [|split; cbn; [done|lia]].
    eapply idle_trans; [|apply set_phase_idle]. split; cbn; [done|lia].
Qed.

(** Opening the database writes at most its identity. *)
Definition kept (d d' : IndexDb Tb) : Prop :=
  d_reference_index d' = d_reference_index d ∧ d_block_reference_index d' = d_block_reference_index d
  ∧ d_indexed_blocks d' = d_indexed_blocks d
  ∧ ∀ k, k = IndexedTo ∨ k = JadeFirstBlockNumber →
      row (d_index_meta d') (meta_key k) = row (d_index_meta d) (meta_key k).

Lemma kept_exact d d' blk floor : kept d d' → exact tx_hash d blk floor → exact tx_hash d' blk floor.
Proof. intros (Hr & Hb & Hi & _) [E1 E2 E3 E4]. split; rewrite ?Hr, ?Hb, ?Hi; done. Qed.

Lemma kept_inv d d' : kept d d' → db_inv d → db_inv d'.
Proof.
  intros Hk [[Hex Hc Hf]|(c & n & jade & floor & [Hkn Hr Hl Hj Hc Hf Hex])]; pose proof (kept_exact _ _ _ _ Hk Hex) as Hex';
    destruct Hk as (_ & _ & _ & Hm); pose proof (Hm IndexedTo (or_introl eq_refl)) as Hm1;
    pose proof (Hm JadeFirstBlockNumber (or_intror eq_refl)) as Hm2.
  - left. split; [done|congruence..].
  - right. exists c, n, jade, floor. split; try done; congruence.
Qed.

Lemma put_meta_kept k v d : k ≠ IndexedTo → k ≠ JadeFirstBlockNumber → outcome (put_meta (P := P) k v d) (kept d).
Proof.
  intros H1' H2'. eapply outcome_mono; [apply put_meta_spec|]. intros d' (Hr & Hb & Hi & Hm). split_and!; try done.
  intros k' Hk'. rewrite Hm, bool_decide_eq_false_2; [done|]. destruct Hk' as [-> | ->], k; done.
Qed.

Lemma kept_trans d1 d2 d3 : kept d1 d2 → kept d2 d3 → kept d1 d3.
Proof. intros (? & ? & ? & Hm1) (? & ? & ? & Hm2). split_and!; [congruence..|]. intros k Hk. by rewrite Hm2, Hm1. Qed.

Lemma init_identity_kept d : outcome (init_identity (P := P) chain_id genesis_hash d) (λ '(d', _), kept d d').
Proof.
  unfold init_identity. eapply outcome_bind; [by apply put_meta_kept|]. intros d1 H1'.
  eapply outcome_bind; [by apply put_meta_kept|]. intros d2 H2'.
  eapply outcome_bind; [by apply put_meta_kept|]. intros d3 H3'. cbn. by eapply kept_trans; [eapply kept_trans|].
Qed.

Lemma open_db_spec (s : state) : after (open_db (P := P) env chain_id genesis_hash) s (λ s' _, (now s ≤ now s')%nat ∧ kept (disk s) (disk s')).
Proof.
  assert (Hself : ∀ d, kept d d) by done.
  assert (Hidle : ∀ s', idle s s' → (now s ≤ now s')%nat ∧ kept (disk s) (disk s')) by (intros s' [-> ?]; done).
  unfold open_db. apply after_bind. unfold after at 1, sm_get. cbn [fst snd]. destruct (installed s); [by split|].
  apply after_bind. unfold open. apply after_bind, after_ask.
  assert (Hi1 : idle s (tick s)) by (split; cbn; [done|lia]).
  destruct (map_err _ (env_init env (now s))) as [[]|e]; [|by apply Hidle].
  unfold validate_or_init_chain_identity. apply after_bind, after_tx. intros s2 [d|e] Hi2 Hd.
  2: { apply Hidle. by eapply idle_trans. }
  assert (Hi02 : idle s s2) by by eapply idle_trans. apply after_bind. unfold after at 1, sm_lift. cbn [fst snd].
  destruct (read_identity d) as [[[[[[c|] [g|]] [sv|]] m] en]|e]; try by apply Hidle.
  - destruct (negb (c =? chain_id)); [by apply Hidle|]. destruct (negb (g =? genesis_hash)); [by apply Hidle|].
    destruct (negb (sv =? SCHEMA_VERSION)); [by apply Hidle|]. apply (Hidle (install_db s2)). done.
  - destruct (negb m && negb en); [|by apply Hidle]. eapply after_write_tx; [apply init_identity_kept| |].
    + intros s3 e Hi3. apply Hidle. by eapply idle_trans.
    + intros s3 d3 [] Hk <- Hn3. destruct Hi02 as [Hd2 Hn2]. rewrite <- Hd2. split; [cbn; lia|done].
Qed.

(** The turn keeps the tables exact. *)
Lemma ready_fresh t0 jade (s : state) : fresh (disk s) → 0 ≤ jade →
  (quiet t0 (now s) → (Z.to_nat jade ≤ length (canon (now s)))%nat ∧ before_jade (canon (now s)) jade) →
  ready t0 s jade jade.
Proof.
  intros Hf Hj Hq Hquiet. destruct (Hq Hquiet). split_and!; [lia|lia|done|done|]. exists 0.
  eapply exact_ext; [|exact (fr_exact _ Hf)]. intros m. cbn. unfold span.
  destruct (Z.leb_spec jade m), (Z.leb_spec m (jade - 1)); cbn; try done. lia.
Qed.

Lemma ready_follows t0 jade floor n t (s : state) : (t0 ≤ t ≤ now s)%nat → indexes (disk s) (canon t) n jade floor →
  ready t0 s jade (n + 1).
Proof.
  intros Ht Hix Hq. pose proof (ix_range _ _ _ _ _ Hix). pose proof (ix_length _ _ _ _ _ Hix).
  assert (Hmove : indexes (disk s) (canon (now s)) n jade floor).
  { eapply indexes_move; [exact Hix|apply (kn_canon Hknown)|]. symmetry. eapply quiet_take; [exact Hq|lia|lia]. }
  pose proof (ix_length _ _ _ _ _ Hmove). split_and!; [lia|lia|lia|apply Hmove|].
  exists floor. replace (n + 1 - 1) with n by lia. apply Hmove.
Qed.

Lemma catch_up_fresh t0 j head (s : state) : (t0 ≤ now s)%nat → fresh (disk s) → 0 ≤ j → ready t0 s j j →
  after (catch_up tx_hash env chain j head) s (λ s' _, (now s ≤ now s')%nat ∧ (quiet t0 (now s') → db_inv (disk s'))).
Proof.
  intros Ht Hf Hj Hready. unfold catch_up.
  assert (Hkeep : ∀ s', idle s s' → (now s ≤ now s')%nat ∧ (quiet t0 (now s') → db_inv (disk s'))).
  { intros s' [-> ?]. split; [lia|]. intros _. by left. }
  apply after_bind, after_ask. assert (Hi1 : idle s (tick s)) by (split; cbn; [done|lia]).
  destruct (finalized_block_number_at chain (now s)) as [fin|e]; [|by apply Hkeep].
  apply after_bind. eapply after_mono; [by apply reconcile_fresh|].
  intros s2 [[]|e] Hi2; [|apply Hkeep; by eapply idle_trans]. assert (Hi02 : idle s s2) by by eapply idle_trans.
  apply after_bind, after_indexed_to. intros s3 [o|e] Hi3 Ho; [|apply Hkeep; by eapply idle_trans].
  assert (Hi03 : idle s s3) by by eapply idle_trans.
  replace (disk s2) with (disk s) in Ho by (destruct Hi02; done). rewrite (fr_cursor _ Hf) in Ho. subst o.
  destruct (tip_number head <? j); [apply Hkeep; eapply idle_trans; [exact Hi03|]; apply set_phase_idle|].
  eapply after_mono; [eapply (backfill_turn_spec t0)|].
  - destruct Hi03. lia.
  - destruct Hi03 as [-> _]. by left.
  - by eapply ready_idle.
  - cbn. intros s' r' [Hn' Hq']. destruct Hi03. split; [lia|done].
Qed.

Lemma catch_up_indexed t0 t head c n jade floor (s : state) : (t0 ≤ t ≤ now s)%nat → head_at chain t = Ok head →
  indexes (disk s) c n jade floor →
  after (catch_up tx_hash env chain jade head) s (λ s' _, (now s ≤ now s')%nat ∧ (quiet t0 (now s') → db_inv (disk s'))).
Proof.
  intros Ht Hhead Hix. unfold catch_up. apply after_bind, after_ask.
  destruct (finalized_block_number_at chain (now s)) as [fin|e]; [|split; [cbn; lia|]; intros _; right; eauto].
  apply after_bind. eapply after_mono; [apply (reconcile_spec t0 head t c n jade floor); [cbn; lia|done|done]|].
  intros s1 r (Hn1 & (n1 & Hix1) & Hok). cbn in Hn1.
  assert (Hkeep : ∀ s', idle s1 s' → (now s ≤ now s')%nat ∧ (quiet t0 (now s') → db_inv (disk s'))).
  { intros s' [-> ?]. split; [lia|]. intros _. right. eauto. }
  destruct r as [[]|e]; [|by apply Hkeep]. destruct (Hok eq_refl) as (n' & t' & Ht' & Hix').
  apply after_bind, after_indexed_to. intros s2 [o|e] Hi2 Ho; [|by apply Hkeep].
  rewrite (ix_cursor _ _ _ _ _ Hix') in Ho. destruct Ho as (m & Hdec & ->).
  destruct (indexes_cursor_range _ _ _ _ _ Hix') as [Hr' Hm']. rewrite u64_codec in Hdec by done. injection Hdec as <-.
  rewrite saturating_add_exact by lia.
  destruct (tip_number head <? n' + 1); [apply Hkeep; eapply idle_trans; [exact Hi2|]; apply set_phase_idle|].
  eapply after_mono; [eapply (backfill_turn_spec t0)|].
  - destruct Hi2. lia.
  - destruct Hi2 as [-> _]. right. eauto.
  - eapply ready_idle; [|exact Hi2|]; [lia|]. by eapply ready_follows.
  - cbn. intros s' r' [Hn' Hq']. destruct Hi2. split; [lia|done].
Qed.

Lemma turn_inner_spec defer (s : state) : db_inv (disk s) →
  after (synchronize_once_inner tx_hash env chain chain_id genesis_hash jade_timestamp defer) s
    (λ s' _, (now s ≤ now s')%nat ∧ (quiet (now s) (now s') → db_inv (disk s'))).
Proof.
  intros Hinv0. unfold synchronize_once_inner. apply after_bind. eapply after_mono; [apply open_db_spec|].
  intros s1 r [Hn1 Hk1]. apply (kept_inv _ _ Hk1) in Hinv0 as Hinv. clear Hinv0 Hk1.
  assert (Hkeep : ∀ s', idle s1 s' → (now s ≤ now s')%nat ∧ (quiet (now s) (now s') → db_inv (disk s'))).
  { intros s' [-> ?]. split; [lia|done]. }
  destruct r as [[]|e]; [|by apply Hkeep]. apply after_bind, after_ask.
  assert (Hi2 : idle s1 (tick s1)) by (split; cbn; [done|lia]).
  destruct (head_at chain (now s1)) as [head|e] eqn:Hhead; [|by apply Hkeep].
  destruct (Z.ltb_spec (tip_timestamp head) jade_timestamp) as [Hpre|Hpost].
  { apply Hkeep. eapply idle_trans; [exact Hi2|]. apply set_phase_idle. }
  destruct defer.
  { apply after_bind, after_indexed_to. intros s3 [o|e] Hi3 _; apply Hkeep; [|by eapply idle_trans].
    eapply idle_trans; [by eapply idle_trans|]. apply set_phase_idle. }
  set (s2 := tick s1) in *. apply after_bind, after_jade_first. intros s3 [o|e] Hi3 Ho.
  2: { apply Hkeep. by eapply idle_trans. }
  assert (Hi13 : idle s1 s3) by by eapply idle_trans. cbn [disk tick s2] in Ho. destruct Hi13 as [Hd13 Hn13].
  destruct Hinv as [Hf|(c & n & jade & floor & Hix)].
  - rewrite (fr_first _ Hf) in Ho. subst o. apply after_bind. unfold resolve_jade_first_block.
    rewrite (proj2 (Z.ltb_ge _ _)) by done.
    destruct (cl_head Hchain _ _ Hhead) as (bh & (Hb0 & _)%last_canon & Hheadeq).
    assert (Hh0 : 0 ≤ tip_number head) by by subst head.
    apply after_bind, after_bind. eapply after_mono.
    { apply (jade_search_spec (now s)); [lia|lia|]. intros _. split; [cbn; lia|]. intros m b Hm. lia. }
    intros s4 r4 [Hi4 Hj]. assert (Hi14 : idle s1 s4) by by eapply idle_trans; [split|].
    destruct r4 as [j|e]; [|by apply Hkeep]. destruct (Hj j eq_refl) as [Hjr Hready]. clear Hj.
    apply after_ret. unfold after at 1, sm_lift. cbn [fst snd ok_or]. destruct Hi14 as [Hd14 Hn14]. rewrite <- Hd14 in Hf.
    eapply after_mono; [apply (catch_up_fresh (now s)); [lia|done|lia|by apply ready_fresh; [| lia|]]|].
    intros s' r' [Hn' Hq']. split; [lia|done].
  - rewrite (ix_first _ _ _ _ _ Hix) in Ho. destruct Ho as (j & Hdec & ->).
    rewrite u64_codec in Hdec by by eapply jade_range. injection Hdec as <-.
    apply after_bind, after_ret. rewrite <- Hd13 in Hix.
    eapply after_mono; [apply (catch_up_indexed (now s) (now s1) _ c n jade floor); [lia|done|done]|].
    intros s' r' [Hn' Hq']. split; [lia|done].
Qed.

Lemma turn_spec defer (s s' : state) r : db_inv (disk s) →
  synchronize_once tx_hash env chain chain_id genesis_hash jade_timestamp defer s = (s', r) →
  (now s ≤ now s')%nat ∧ (quiet (now s) (now s') → db_inv (disk s')).
Proof.
  intros Hinv. unfold synchronize_once. pose proof (turn_inner_spec defer s Hinv) as Ht. unfold after in Ht.
  destruct (synchronize_once_inner _ _ _ _ _ _ _ s) as [s1 [u|e]]; cbn in Ht; [by intros [= <- _]|].
  intros [= <- _]. destruct (requires_manual_rebuild e); [|done].
  destruct (set_phase_idle Unavailable s1) as [-> Hn]. destruct Ht. split; [lia|].
  intros Hq. unfold set_phase in Hq. case_bool_decide; auto.
Qed.

(** ** Queries *)

(** The rows of a reference in a chain, in the order of the chain. *)
Fixpoint tx_rows (r : bytes) (n ts i : Z) (txs : list envelope) : list (ReferenceIndexKey * Z) :=
  match txs with
  | [] => []
  | t :: txs =>
      (if bool_decide (MorphTxEnvelope.reference t = Some r)
       then [(Build_ReferenceIndexKey r n i (tx_hash t), ts)] else [])
      ++ tx_rows r n ts (i + 1) txs
  end.
Definition reference_rows (r : bytes) (c : list block) : list (ReferenceIndexKey * Z) :=
  concat (map (λ b, tx_rows r (cb_number b) (cb_timestamp b) 0 (cb_transactions b)) c).

Definition to_result (e : ReferenceIndexKey * Z) : ReferenceTransactionResult := {|
  transaction_hash := rk_transaction_hash e.1; result_block_number := rk_block_number e.1;
  block_timestamp := e.2; transaction_index := rk_transaction_index e.1 |}.

(** The page of a query: what the chain carries, after the offset, up to the limit. *)
Definition page (q : ReferenceQuery) (c : list block) : list ReferenceTransactionResult :=
  take (Z.to_nat (q_limit q)) (drop (Z.to_nat (q_offset q)) (map to_result (reference_rows (q_reference q) c))).

Lemma tx_rows_elem r n ts i txs k v : (k, v) ∈ tx_rows r n ts i txs ↔
  rk_reference k = r ∧ rk_block_number k = n ∧ v = ts ∧ i ≤ rk_transaction_index k
  ∧ ∃ t, txs !! Z.to_nat (rk_transaction_index k - i) = Some t
      ∧ MorphTxEnvelope.reference t = Some r ∧ tx_hash t = rk_transaction_hash k.
Proof.
  revert i. induction txs as [|t txs IH]; intros i; cbn [tx_rows].
  { split; [by intros ?%elem_of_nil|]. by intros (_ & _ & _ & _ & t & Ht & _). }
  rewrite elem_of_app, IH. split.
  - intros [Hk|(Hr & Hn & Hv & Hi & t' & Ht' & Hrest)].
    + case_bool_decide as Ht; [|by apply elem_of_nil in Hk]. apply list_elem_of_singleton in Hk as [= -> ->]. cbn.
      split_and!; [done..|lia|]. exists t. by rewrite Z.sub_diag.
    + split_and!; [done..|lia|]. exists t'. split; [|done].
      replace (Z.to_nat (rk_transaction_index k - i)) with (S (Z.to_nat (rk_transaction_index k - (i + 1)))) by lia. done.
  - intros (Hr & Hn & Hv & Hi & t' & Ht' & Href & Hh). destruct (Z.eq_dec (rk_transaction_index k) i) as [He|He].
    + left. rewrite He, Z.sub_diag in Ht'. injection Ht' as ->. rewrite bool_decide_eq_true_2 by done.
      apply list_elem_of_singleton. destruct k; cbn in *. congruence.
    + right. split_and!; [done..|lia|]. exists t'. split; [|done].
      replace (Z.to_nat (rk_transaction_index k - i)) with (S (Z.to_nat (rk_transaction_index k - (i + 1)))) in Ht' by lia. done.
Qed.

Abbreviation row_lt := (λ a b : ReferenceIndexKey * Z, key_lt a.1 b.1).

Lemma tx_rows_sorted r n ts i txs : StronglySorted row_lt (tx_rows r n ts i txs).
Proof.
  revert i. induction txs as [|t txs IH]; intros i; cbn [tx_rows]; [constructor|].
  case_bool_decide; cbn; [|apply IH]. constructor; [apply IH|]. apply Forall_forall. intros [k v] Hk%tx_rows_elem.
  destruct k as [r' n' i' h']. cbn in *. destruct Hk as (-> & -> & _ & Hi & _). right. split; [done|]. right. split; [done|].
  left. lia.
Qed.

(** Blocks numbered from [k0] on. *)
Definition numbered (k0 : Z) (c : list block) : Prop := ∀ i b, c !! i = Some b → cb_number b = k0 + Z.of_nat i.

Lemma numbered_cons k0 b c : numbered k0 (b :: c) → cb_number b = k0 ∧ numbered (k0 + 1) c.
Proof.
  intros Hn. split; [rewrite (Hn 0%nat b eq_refl); lia|]. intros i b' Hi. rewrite (Hn (S i) b' Hi). lia.
Qed.

Lemma reference_rows_elem r k0 c k v : numbered k0 c → (k, v) ∈ reference_rows r c ↔
  rk_reference k = r ∧ k0 ≤ rk_block_number k ∧ ∃ b, c !! Z.to_nat (rk_block_number k - k0) = Some b
    ∧ carries tx_hash b (rk_transaction_index k) r (rk_transaction_hash k) ∧ v = cb_timestamp b.
Proof.
  revert k0. induction c as [|b c IH]; intros k0 Hn; unfold reference_rows; cbn.
  { split; [by intros ?%elem_of_nil|]. by intros (_ & _ & b & Hb & _). }
  apply numbered_cons in Hn as [Hb Hn]. rewrite elem_of_app, tx_rows_elem, Hb. setoid_rewrite (IH _ Hn). split.
  - intros [(Hr & Hk & -> & Hi & t & Ht & Hrest)|(Hr & Hk & b' & Hb' & Hrest)].
    + split_and!; [done|lia|]. exists b. rewrite Hk, Z.sub_diag. rewrite Z.sub_0_r in Ht. split_and!; [done| |done].
      split; [done|]. eauto.
    + split_and!; [done|lia|]. exists b'. split; [|done].
      replace (Z.to_nat (rk_block_number k - k0)) with (S (Z.to_nat (rk_block_number k - (k0 + 1)))) by lia. done.
  - intros (Hr & Hk & b' & Hb' & Hrest). destruct (Z.eq_dec (rk_block_number k) k0) as [He|He].
    + left. rewrite He, Z.sub_diag in Hb'. injection Hb' as ->. destruct Hrest as [(Hi & t & Ht & Hrest) ->].
      split_and!; [done..|]. exists t. by rewrite Z.sub_0_r.
    + right. split_and!; [done|lia|]. exists b'. split; [|done].
      replace (Z.to_nat (rk_block_number k - k0)) with (S (Z.to_nat (rk_block_number k - (k0 + 1)))) in Hb' by lia. done.
Qed.

Lemma reference_rows_sorted r k0 c : numbered k0 c → StronglySorted row_lt (reference_rows r c).
Proof.
  revert k0. induction c as [|b c IH]; intros k0 Hn; [constructor|]. apply numbered_cons in Hn as [Hb Hn].
  unfold reference_rows. cbn. apply StronglySorted_app. split_and!; [|apply tx_rows_sorted|by eapply IH].
  intros [k v] [k' v'] Hk%tx_rows_elem Hk'%(reference_rows_elem r (k0 + 1)); [|done].
  destruct k as [r1 n1 i1 h1], k' as [r2 n2 i2 h2]. cbn in *. destruct Hk as (-> & -> & _), Hk' as (-> & Hlt & _).
  right. split; [done|]. left. lia.
Qed.

(** Strictly sorted lists with the same elements are equal. *)
Lemma sorted_rows_unique (l1 l2 : list (ReferenceIndexKey * Z)) :
  StronglySorted row_lt l1 → StronglySorted row_lt l2 → (∀ x, x ∈ l1 ↔ x ∈ l2) → l1 = l2.
Proof.
  intros H1' H2' Hin.
  assert (Hnd : ∀ l, StronglySorted row_lt l → NoDup l).
  { induction 1 as [|x l _ IH Hx]; constructor; [|done]. intros Hx'. rewrite Forall_forall in Hx.
    by apply (irreflexivity key_lt x.1), (Hx x). }
  revert l2 H2' Hin. induction H1' as [|x l1 Hs1 IH Hx]; intros l2 H2' Hin.
  { destruct l2 as [|y l2]; [done|]. exfalso. by apply (not_elem_of_nil y), Hin; left. }
  destruct H2' as [|y l2 Hs2 Hy]; [exfalso; by apply (not_elem_of_nil x), Hin; left|].
  rewrite Forall_forall in Hx, Hy.
  assert (Hxy : x = y).
  { destruct (proj1 (elem_of_cons _ _ _) (proj1 (Hin x) ltac:(left))) as [|Hx2]; [done|].
    destruct (proj1 (elem_of_cons _ _ _) (proj2 (Hin y) ltac:(left))) as [|Hy1]; [done|]. exfalso.
    apply (irreflexivity key_lt x.1). etrans; [by apply Hx|by apply Hy]. }
  subst y. f_equal. apply IH; [done|]. intros z. specialize (Hin z). rewrite !elem_of_cons in Hin.
  assert (Hn1 : x ∉ l1) by (intros ?%Hx; by apply (irreflexivity key_lt x.1)).
  assert (Hn2 : x ∉ l2) by (intros ?%Hy; by apply (irreflexivity key_lt x.1)).
  split; intros Hz; destruct (decide (z = x)) as [->|]; try done; naive_solver.
Qed.

(** The rows of the reference come first among those from its first possible key on. *)
Fixpoint own_rows (r : bytes) (rows : list (ReferenceIndexKey * Z)) : list (ReferenceIndexKey * Z) :=
  match rows with
  | [] => []
  | e :: rows => if bool_decide (rk_reference e.1 = r) then e :: own_rows r rows else []
  end.

Lemma collect_spec q skipped results rows : 0 ≤ skipped ≤ q_offset q → Z.of_nat (length results) ≤ q_limit q →
  collect q skipped results rows
  = results ++ take (Z.to_nat (q_limit q) - length results)
      (drop (Z.to_nat (q_offset q - skipped)) (map to_result (own_rows (q_reference q) rows))).
Proof.
  revert skipped results. induction rows as [|[k v] rows IH]; intros skipped results Hs Hl; cbn [collect own_rows].
  { cbn. by rewrite drop_nil, take_nil, app_nil_r. }
  cbn [fst]. case_bool_decide as Hr; cbn [negb orb]; [|cbn; by rewrite drop_nil, take_nil, app_nil_r].
  destruct (Z.leb_spec (q_limit q) (Z.of_nat (length results))) as [Hfull|Hroom].
  { replace (Z.to_nat (q_limit q) - length results)%nat with 0%nat by lia. by rewrite take_0, app_nil_r. }
  destruct (Z.ltb_spec skipped (q_offset q)) as [Hskip|Hall].
  - rewrite IH by lia. cbn [map].
    replace (Z.to_nat (q_offset q - skipped)) with (S (Z.to_nat (q_offset q - (skipped + 1)))) by lia. done.
  - rewrite IH by (rewrite ?length_app; cbn; lia).
    replace (Z.to_nat (q_offset q - skipped)) with 0%nat by lia. rewrite !drop_0. cbn [map].
    replace (Z.to_nat (q_limit q) - length results)%nat
      with (S (Z.to_nat (q_limit q) - length (results ++ [to_result (k, v)]))%nat) by (rewrite length_app; cbn; lia).
    by rewrite <- app_assoc.
Qed.

Lemma own_rows_sorted r rows : StronglySorted row_lt rows → StronglySorted row_lt (own_rows r rows)
  ∧ ∀ e, e ∈ own_rows r rows → e ∈ rows ∧ rk_reference e.1 = r.
Proof.
  induction 1 as [|e rows Hs [IH1 IH2] He]; cbn; [split; [constructor|by intros e ?%elem_of_nil]|].
  case_bool_decide as Hr; [|split; [constructor|by intros e' ?%elem_of_nil]]. split.
  - constructor; [done|]. rewrite Forall_forall in He |- *. intros x Hx. apply He. by apply IH2.
  - intros x [->|Hx]%elem_of_cons; [split; [left|done]|]. destruct (IH2 x Hx). split; [by right|done].
Qed.

Lemma own_rows_all r rows : StronglySorted row_lt rows → (∀ e, e ∈ rows → ¬ key_lt (rk_reference e.1) r) →
  ∀ e, e ∈ rows → rk_reference e.1 = r → e ∈ own_rows r rows.
Proof.
  induction 1 as [|x rows Hs IH Hx]; intros Hge e He Hr; [by apply elem_of_nil in He|]. cbn.
  case_bool_decide as Hxr.
  - apply elem_of_cons in He as [->|He]; [left|right]. apply IH; [|done..]. intros e' He'. apply Hge. by right.
  - exfalso. apply elem_of_cons in He as [->|He]; [done|]. rewrite Forall_forall in Hx. specialize (Hx e He).
    destruct Hx as [Hlt|[Heq _]]; cbn in *; [|congruence]. rewrite Hr in Hlt. apply (Hge x ltac:(left)). exact Hlt.
Qed.

Lemma sorted_keys_rows (rows : list (ReferenceIndexKey * Z)) :
  StronglySorted key_lt (map fst rows) → StronglySorted row_lt rows.
Proof.
  induction rows as [|e l IH]; [constructor|]. cbn [map]. intros [Hs Hall]%StronglySorted_inv. constructor; [by apply IH|].
  apply Forall_forall. intros x Hx. rewrite Forall_fmap, Forall_forall in Hall. by apply (Hall x).
Qed.

(** The tip names the head of the canonical chain of a time. *)
Definition names_head (tip : CanonicalTip) (t : nat) : Prop :=
  ∃ b, last (canon t) = Some b ∧ tip_number tip = cb_number b ∧ tip_hash tip = cb_hash b.

Lemma query_snapshot_spec q tip t d res : db_inv d → names_head tip t → 0 ≤ q_offset q → 0 ≤ q_limit q →
  query_snapshot (P := P) q tip d = Ok res → res = page q (canon t).
Proof.
  intros Hinv Hhead Ho Hl Hq. unfold query_snapshot in Hq.
  pose proof (get_meta_spec IndexedTo (decode_u64 (E := E) (P := P)) d) as Hg.
  apply bind_Ok in Hq as (o & Hmeta & Hq). rewrite Hmeta in Hg. cbn [outcome] in Hg.
  apply bind_Ok in Hq as (n & ->%ok_or_Ok & Hq).
  destruct Hinv as [Hf|(c & n' & jade & floor & Hix)]; [by rewrite (fr_cursor _ Hf) in Hg|].
  rewrite (ix_cursor _ _ _ _ _ Hix), u64_codec in Hg by by eapply indexes_cursor_range.
  destruct Hg as (n0 & [= <-] & [= ->]).
  pose proof (law_t_get n' (d_indexed_blocks d)) as Hget.
  apply bind_Ok in Hq as (o & Hrow%map_err_Ok & Hq). rewrite Hrow in Hget. cbn in Hget. subst o.
  apply bind_Ok in Hq as (h & Hh%ok_or_Ok & Hq). apply reject_Ok in Hq as [Hck Hq]. bool_simp. destruct Hck as [Hn Hhash].
  destruct Hhead as (b & Hlast & Htn & Htip). rewrite Htn in Hn. rewrite Htip in Hhash. apply last_canon in Hlast as (Hb0 & Hb & Hlen).
  destruct (canonical_prefix _ _ _ _ _ _ _ t b Hix Hh) as [_ Htake]; [by rewrite Hn|congruence|].
  apply (indexes_move _ _ (canon t) _ _ _ Hix (kn_canon Hknown t)) in Htake. clear Hix. rename Htake into Hix.
  set (k0 := Build_ReferenceIndexKey (q_reference q) 0 0 0) in *.
  pose proof (law_t_from (Some k0) (d_reference_index d)) as Hfrom.
  apply bind_Ok in Hq as (rows & Hrows%map_err_Ok & [= <-]). rewrite Hrows in Hfrom. destruct Hfrom as [Hsorted Hin].
  rewrite collect_spec by (cbn; lia). unfold page. cbn [app length]. rewrite Nat.sub_0_r, Z.sub_0_r. do 2 f_equal. f_equal.
  pose proof (sorted_keys_rows rows Hsorted) as Hs.
  assert (Hnum : numbered 0 (canon t)) by (intros i b' Hb'; by apply (kn_number Hknown _ _ _ (kn_canon Hknown t))).
  destruct (own_rows_sorted (q_reference q) rows Hs) as [Hso Hsub].
  apply sorted_rows_unique; [done|by eapply reference_rows_sorted|]. intros [k v].
  rewrite (reference_rows_elem _ 0 _ _ _ Hnum), Z.sub_0_r.
  assert (Hrow' : row (d_reference_index d) k = Some v ↔ ∃ b', 0 ≤ rk_block_number k ∧ canon t !! Z.to_nat (rk_block_number k) = Some b'
    ∧ carries tx_hash b' (rk_transaction_index k) (rk_reference k) (rk_transaction_hash k) ∧ v = cb_timestamp b').
  { rewrite (ex_reference _ _ _ _ (ix_exact _ _ _ _ _ Hix)). unfold span. pose proof (ix_range _ _ _ _ _ Hix). split.
    - intros (b' & Hb' & Hc). destruct (Z.leb_spec jade (rk_block_number k)), (Z.leb_spec (rk_block_number k) n'); try done.
      exists b'. split; [lia|done].
    - intros (b' & Hpos & Hb' & Hc & Hv). exists b'. split; [|done].
      apply lookup_lt_Some in Hb' as Hlt.
      destruct (Z.leb_spec jade (rk_block_number k)), (Z.leb_spec (rk_block_number k) n'); cbn; try done; [lia| |lia].
      exfalso. pose proof (ix_jade _ _ _ _ _ Hix _ _ ltac:(split; [exact Hpos|done]) Hb') as Hpre.
      destruct Hc as (_ & tr & Htr & Href & _).
      rewrite (kn_plain Hknown _ b' tr (kn_canon Hknown t)) in Href; [done|by eapply list_elem_of_lookup_2|done|by eapply list_elem_of_lookup_2]. }
  split.
  - intros Hk. destruct (Hsub _ Hk) as [Hkr Hr]. cbn in Hr. apply Hin in Hkr as [Hkr _]. apply Hrow' in Hkr as (b' & ? & ? & Hc & ?).
    rewrite Hr in Hc. naive_solver.
  - intros (Hr & Hpos & b' & Hb' & Hc & Hv). apply own_rows_all; [done| |apply Hin|done].
    + intros [k' v'] [_ Hge]%Hin Hlt. apply Hge. left. exact Hlt.
    + rewrite <- Hr in Hc. split; [apply Hrow'; naive_solver|]. intros [Hlt|[_ [Hlt|[_ [Hlt|[_ Hlt]]]]]]; cbn in Hlt.
      * rewrite Hr in Hlt. exact (irreflexivity (key_lt (K := list Z)) (q_reference q) Hlt).
      * lia.
      * destruct Hc as [? _]. lia.
      * destruct Hc as (_ & tr & _ & _ & Hth). pose proof (tx_hash_nonneg tr). lia.
Qed.

(** ** Runs *)

(** The index from empty tables on: turns in quiet times, whatever they return; time
    passes; the node restarts. *)
Inductive reachable : state → Prop :=
| reach_new d t : fresh d → reachable (handle_new d t)
| reach_turn s defer s' r : reachable s → quiet (now s) (now s') →
    synchronize_once tx_hash env chain chain_id genesis_hash jade_timestamp defer s = (s', r) → reachable s'
| reach_wait s : reachable s → reachable (tick s)
| reach_restart s t : reachable s → (now s ≤ t)%nat → reachable (handle_new (disk s) t).

Lemma reachable_inv s : reachable s → db_inv (disk s).
Proof.
  induction 1 as [d t Hd|s defer s' r _ IH Hq Hrun|s _ IH|s t _ IH _]; [by left| |done|done].
  by apply (turn_spec defer s s' r IH Hrun).
Qed.

Lemma query_at_spec s q tip t s' res : db_inv (disk s) → names_head tip t → 0 ≤ q_offset q → 0 ≤ q_limit q →
  query_at (P := P) env q tip s = (s', Ok res) → res = page q (canon t).
Proof.
  intros Hinv Hhead Ho Hl Hq. unfold query_at in Hq.
  apply sm_bind_Ok in Hq as (s1 & gate & [= <- <-] & Hq). destruct (unavailable s); [done|].
  apply sm_bind_Ok in Hq as (s2 & rd & [= <- <-] & Hq). destruct (installed s); [|done].
  apply sm_bind_Ok in Hq as (s3 & d & Htx & Hq).
  pose proof (after_run (tx env) s s3 (Ok d) (λ _ r, match r with Ok d' => d' = disk s | Err _ => True end)
    ltac:(apply after_tx; by intros) Htx) as Hd. cbn in Hd. subst d.
  injection Hq as _ Hq. by eapply query_snapshot_spec.
Qed.

(** The index answers with the canonical chain.  From empty tables on, after any
    sequence of turns, failed or not, of restarts and of reorganizations between turns, a
    query that succeeds for the head of a moment returns exactly the page of what the
    canonical chain of that moment carries: every transaction with the reference, in
    chain order, after the offset and up to the limit.  An index that is behind, on
    another branch or unavailable does not answer. *)
Theorem query_returns_canonical_page s q tip t s' res : reachable s → head_at chain t = Ok tip →
  0 ≤ q_offset q → 0 ≤ q_limit q → query_at (P := P) env q tip s = (s', Ok res) → res = page q (canon t).
Proof.
  intros Hr%reachable_inv (b & Hb & ->)%(cl_head Hchain). apply query_at_spec; [done|]. by exists b.
Qed.
End Safety.
