(* ===== verification/RefIndexLiveness.v ===== *)
(** * The reference index catches up

    While nothing fails and the canonical chain rests, turns of the runtime bring the
    index to the head: a reorganization is rolled back to the last common block, and
    every turn indexes the next batch. *)

From S2P Require Import Prelude.
From stdpp Require Import sorting.
From S2P Require Import Rlp.
From S2P Require Import MorphTx.
From S2P Require Import Envelope.
From S2P Require Import PayloadTypes.
From S2P Require Import Versioned.
From S2P Require Import RefIndex.
From S2P Require Import RefIndexTables.
From S2P Require Import RefIndexSafety.
#[local] Open Scope Z_scope.

(** A computation that succeeds. *)
Definition runs {S E A} (c : sm S E A) (s : S) (Q : S → A → Prop) : Prop := ∃ s' a, c s = (s', Ok a) ∧ Q s' a.

Lemma runs_bind {S E A B} (c : sm S E A) (k : A → sm S E B) s Q :
  runs c s (λ s' a, runs (k a) s' Q) → runs (c ≫= k) s Q.
Proof. intros (s' & a & Hc & s2 & b & Hk & HQ). exists s2, b. split; [|done]. by rewrite (sm_bind_run _ _ _ _ _ Hc). Qed.

Lemma runs_mono {S E A} (c : sm S E A) s (Q Q' : S → A → Prop) : runs c s Q → (∀ s' a, Q s' a → Q' s' a) → runs c s Q'.
Proof. intros (s' & a & Hc & HQ) Himp. exists s', a. auto. Qed.

Lemma runs_ret {S E A} (a : A) s (Q : S → A → Prop) : Q s a → runs (E := E) (mret a) s Q.
Proof. intros HQ. by exists s, a. Qed.

Lemma runs_modify {S E} (f : S → S) s (Q : S → unit → Prop) : Q (f s) tt → runs (E := E) (sm_modify f) s Q.
Proof. intros HQ. by exists (f s), tt. Qed.

Lemma runs_lift {S E A} (r : result A E) s a (Q : S → A → Prop) : r = Ok a → Q s a → runs (sm_lift r) s Q.
Proof. intros -> HQ. by exists s, a. Qed.

Lemma runs_get {S E A} (f : S → A) s (Q : S → A → Prop) : Q s (f s) → runs (E := E) (sm_get f) s Q.
Proof. intros HQ. by exists s, (f s). Qed.

Lemma runs_after {S E A} (c : sm S E A) s (Q : S → result A E → Prop) (R : S → A → Prop) :
  after c s Q → runs c s R → runs c s (λ s' a, Q s' (Ok a) ∧ R s' a).
Proof. intros HQ (s' & a & Hc & HR). exists s', a. split_and!; [done| |done]. by apply (after_run _ _ _ _ _ HQ). Qed.

(** Success with a property of the outcome. *)
Definition yields {A E} (r : result A E) (P : A → Prop) : Prop := ∃ a, r = Ok a ∧ P a.

Lemma yields_bind {A B E} (r : result A E) (k : A → result B E) Q P :
  yields r Q → (∀ a, Q a → yields (k a) P) → yields (result_bind r k) P.
Proof. intros (a & -> & HQ) Hk. by apply Hk. Qed.

Lemma ok_bind {A B E} (r : result A E) (k : A → result B E) P :
  yields r (λ _, True) → (∀ a, yields (k a) P) → yields (result_bind r k) P.
Proof. intros (a & -> & _) Hk. apply Hk. Qed.

Lemma yields_outcome {A E} (r : result A E) (P : A → Prop) : yields r (λ _, True) → outcome r P → yields r P.
Proof. intros (a & -> & _) HP. by exists a. Qed.

Section Liveness.
Context {ETH AL SA SG E P : Type}.
Abbreviation envelope := (MorphTxEnvelope.MorphTxEnvelope ETH AL SA SG).
Abbreviation block := (CanonicalBlock envelope).
Abbreviation error := (ReferenceIndexError E P).
Context {Tb : Type → Type → Type} `{OrdTablesLaws Tb E}.
Context (tx_hash : envelope → Z) (env : DbEnv E) (chain : CanonicalChain envelope error).
Context (chain_id : Z) (genesis_hash : Z) (jade_timestamp : Z).
Context (known : list block → Prop) (canon : nat → list block).
Abbreviation state := (Index Tb).
Abbreviation turn := (synchronize_once tx_hash env chain chain_id genesis_hash jade_timestamp false).

(** Nothing fails. *)
Record total_tables : Prop := {
  tot_get {K V} `{KeyOrd K} k (t : Tb K V) : ∃ o, t_get k t = Ok o;
  tot_put {K V} `{KeyOrd K} k v (t : Tb K V) : ∃ t', t_put k v t = Ok t';
  tot_delete {K V} `{KeyOrd K} k (t : Tb K V) : ∃ t', t_delete k t = Ok t';
  tot_entries {K V} `{KeyOrd K} (t : Tb K V) : ∃ n, t_entries t = Ok n;
  tot_from {K V} `{KeyOrd K} ko (t : Tb K V) : ∃ l, t_from ko t = Ok l;
}.
Record steady_env : Prop := {
  st_init t : env_init env t = Ok tt;
  st_tx t : env_tx env t = Ok tt;
  st_tx_mut t : env_tx_mut env t = Ok tt;
  st_commit t : env_commit env t = Ok tt;
}.

(** The chain rests at [c], and every read finds it. *)
Record resting (c : list block) (fin : option Z) : Prop := {
  rs_canon t : canon t = c;
  rs_head t b : last c = Some b →
    head_at chain t = Ok {| tip_number := cb_number b; tip_hash := cb_hash b; tip_timestamp := cb_timestamp b |};
  rs_hash t n b : 0 ≤ n → c !! Z.to_nat n = Some b → canonical_hash_at chain t n = Ok (Some (cb_hash b));
  rs_hash_any t n : ∃ o, canonical_hash_at chain t n = Ok o;
  rs_time t n b : 0 ≤ n → c !! Z.to_nat n = Some b → block_timestamp_at chain t n = Ok (Some (cb_timestamp b));
  rs_finalized t : finalized_block_number_at chain t = Ok fin;
  rs_blocks t lo hi : 0 ≤ lo ≤ hi → hi < Z.of_nat (length c) →
    canonical_blocks_at chain t lo hi = Ok (take (Z.to_nat (hi - lo + 1)) (drop (Z.to_nat lo) c));
}.

Hypothesis tx_hash_nonneg : ∀ t, 0 ≤ tx_hash t.
Hypothesis Hknown : known_laws jade_timestamp known canon.
Hypothesis Hchain : chain_laws chain known canon.
Hypothesis Htotal : total_tables.
Hypothesis Henv : steady_env.

(** ** Tables *)

Abbreviation ok r := (yields r (λ _, True)).

Lemma put_meta_ok k v (d : IndexDb Tb) : ok (put_meta (P := P) k v d).
Proof. unfold put_meta. destruct (tot_put Htotal (meta_key k) v (d_index_meta d)) as [t ->]. by eexists. Qed.

Lemma put_reference_ok r n i h ts (d : IndexDb Tb) : ok (put_reference (P := P) r n i h ts d).
Proof.
  unfold put_reference. destruct (tot_put Htotal (Build_ReferenceIndexKey r n i h) ts (d_reference_index d)) as [t1 ->].
  cbn. destruct (tot_put Htotal (Build_BlockReferenceKey n i h) r (d_block_reference_index d)) as [t2 ->]. by eexists.
Qed.

Lemma write_references_ok n ts i txs w (d : IndexDb Tb) : ok (write_references (P := P) tx_hash n ts i txs w d).
Proof.
  revert i w d. induction txs as [|t txs IH]; intros i w d; cbn; [by eexists|].
  destruct (MorphTxEnvelope.reference t); [|done]. apply ok_bind; [apply put_reference_ok|]. done.
Qed.

Lemma write_blocks_ok bs w (d : IndexDb Tb) : ok (write_blocks (P := P) tx_hash bs w d).
Proof.
  revert w d. induction bs as [|b bs IH]; intros w d; cbn; [by eexists|].
  apply ok_bind; [|intros [d' n]; apply IH]. unfold write_block, put_indexed_block.
  destruct (tot_put Htotal (cb_number b) (cb_hash b) (d_indexed_blocks d)) as [t ->]. cbn. apply write_references_ok.
Qed.

Lemma delete_entries_ok es (d : IndexDb Tb) : ok (delete_entries (P := P) es d).
Proof.
  revert d. induction es as [|[k r] es IH]; intros d; cbn; [by eexists|].
  match goal with |- context[t_delete ?k ?t] => destruct (tot_delete Htotal k t) as [t1 ->] end. cbn.
  match goal with |- context[t_delete ?k ?t] => destruct (tot_delete Htotal k t) as [t2 ->] end. apply IH.
Qed.

Lemma delete_blocks_ok ns (d : IndexDb Tb) : ok (delete_blocks (P := P) ns d).
Proof.
  revert d. induction ns as [|n ns IH]; intros d; cbn; [by eexists|]. apply ok_bind; [|intros d'; apply IH].
  unfold delete_block. match goal with |- context[t_from ?k ?t] => destruct (tot_from Htotal k t) as [l ->] end. cbn.
  apply ok_bind; [apply delete_entries_ok|]. intros d1.
  match goal with |- context[t_delete ?k ?t] => destruct (tot_delete Htotal k t) as [t1 ->] end. by eexists.
Qed.

Lemma delete_indexed_ok ks (d : IndexDb Tb) : ok (delete_indexed (P := P) ks d).
Proof.
  revert d. induction ks as [|k ks IH]; intros d; cbn; [by eexists|].
  match goal with |- context[t_delete ?k ?t] => destruct (tot_delete Htotal k t) as [t1 ->] end. apply IH.
Qed.

Lemma batch_body_ok jade bs l fin (d : IndexDb Tb) : ok (batch_body (P := P) tx_hash jade bs l fin d).
Proof.
  unfold batch_body. apply ok_bind; [apply write_blocks_ok|]. intros [d1 w].
  apply ok_bind; [apply put_meta_ok|]. intros d2. apply ok_bind; [apply put_meta_ok|]. intros d3.
  apply ok_bind; [|intros d4; by eexists]. destruct fin as [f|]; [|by eexists].
  destruct (_ <=? _); [|by eexists]. unfold prune_indexed_blocks_before. destruct (_ =? 0); [by eexists|].
  match goal with |- context[t_from ?k ?t] => destruct (tot_from Htotal k t) as [rows ->] end. apply delete_indexed_ok.
Qed.

(** ** Transactions *)

(** The gate of the queries is the phase. *)
Definition gated (s : state) : Prop := unavailable s = bool_decide (phase s = Unavailable).

(** Time passed; the handle is as it was, and so are the tables. *)
Definition still (s s' : state) : Prop := installed s' = installed s ∧ (now s ≤ now s')%nat ∧ (gated s → gated s').
Definition passed (s s' : state) : Prop := disk s' = disk s ∧ still s s'.

Lemma still_trans s1 s2 s3 : still s1 s2 → still s2 s3 → still s1 s3.
Proof. intros (? & ? & ?) (? & ? & ?). split_and!; [congruence|lia|auto]. Qed.

Lemma passed_trans s1 s2 s3 : passed s1 s2 → passed s2 s3 → passed s1 s3.
Proof. intros [??] [??]. split; [congruence|by eapply still_trans]. Qed.

Lemma runs_ask {A} (f : nat → result A error) (s : state) a Q : f (now s) = Ok a → Q (tick s) a → runs (ask f) s Q.
Proof. intros Hf HQ. exists (tick s), a. unfold ask. by rewrite Hf. Qed.

Lemma passed_tick (s : state) : passed s (tick s).
Proof. split; [done|]. split_and!; [done| |done]. cbn. lia. Qed.

Lemma passed_phase p (s : state) : passed s (set_phase p s).
Proof. unfold set_phase. case_bool_decide; by split_and!. Qed.

Lemma phase_set_phase p (s : state) : phase (set_phase p s) = p.
Proof. unfold set_phase. by case_bool_decide. Qed.

Lemma runs_tx (s : state) Q : Q (tick s) (disk s) → runs (tx (P := P) env) s Q.
Proof. intros HQ. unfold tx. apply runs_bind. eapply runs_ask; [by rewrite (st_tx Henv)|]. by apply runs_get. Qed.

Lemma runs_write_tx {A} (body : IndexDb Tb → result (IndexDb Tb * A) error) (I : IndexDb Tb * A → Prop) (s : state) Q :
  yields (body (disk s)) I →
  (∀ s' d a, I (d, a) → disk s' = d → still s s' → Q s' a) →
  runs (write_tx env body) s Q.
Proof.
  intros ([d a] & Hb & HI) HQ. unfold write_tx. apply runs_bind. eapply runs_ask; [by rewrite (st_tx_mut Henv)|].
  apply runs_bind. exists (tick s), (d, a). split; [by unfold sm_read; rewrite <- Hb|].
  apply runs_bind. eapply runs_ask; [by rewrite (st_commit Henv)|].
  apply runs_bind, runs_modify, runs_ret. apply (HQ _ d a); [done..|]. split_and!; [done| |done]. cbn. lia.
Qed.

Lemma get_meta_row {A} k (dec : bytes → result A error) (d : IndexDb Tb) o :
  (match row (d_index_meta d) (meta_key k) with None => o = None | Some v => ∃ a, dec v = Ok a ∧ o = Some a end) →
  get_meta k dec d = Ok o.
Proof.
  intros Ho. unfold get_meta. pose proof (law_t_get (meta_key k) (d_index_meta d)) as Hl.
  destruct (tot_get Htotal (meta_key k) (d_index_meta d)) as [o' Ho']. rewrite Ho' in Hl |- *. cbn in Hl. subst o'. cbn.
  destruct (row _ _); [|by subst]. destruct Ho as (a & -> & ->). done.
Qed.

Abbreviation indexes := (indexes tx_hash jade_timestamp known).
Abbreviation fresh := (fresh tx_hash).

Lemma runs_indexed_to_Some (s : state) c n jade floor Q : indexes (disk s) c n jade floor → Q (tick s) (Some n) →
  runs (indexed_to (P := P) env) s Q.
Proof.
  intros Hix HQ. unfold indexed_to. apply runs_bind, runs_tx. eapply runs_lift; [|exact HQ].
  apply get_meta_row. rewrite (ix_cursor _ _ _ _ _ _ _ _ Hix). exists n. split; [|done].
  apply u64_codec. by eapply indexes_cursor_range.
Qed.

Lemma runs_indexed_to_None (s : state) Q : fresh (disk s) → Q (tick s) None → runs (indexed_to (P := P) env) s Q.
Proof.
  intros Hf HQ. unfold indexed_to. apply runs_bind, runs_tx. eapply runs_lift; [|exact HQ].
  apply get_meta_row. by rewrite (fr_cursor _ _ Hf).
Qed.

Lemma runs_indexed_hash (s : state) n h Q : row (d_indexed_blocks (disk s)) n = Some h → Q (tick s) (Some h) →
  runs (indexed_block_hash (P := P) env n) s Q.
Proof.
  intros Hrow HQ. unfold indexed_block_hash. apply runs_bind, runs_tx. eapply runs_lift; [|exact HQ].
  pose proof (law_t_get n (d_indexed_blocks (disk s))) as Hl.
  destruct (tot_get Htotal n (d_indexed_blocks (disk s))) as [o Ho]. rewrite Ho in Hl |- *. cbn in *. congruence.
Qed.

Lemma runs_jade_first_Some (s : state) c n jade floor Q : indexes (disk s) c n jade floor → Q (tick s) (Some jade) →
  runs (jade_first_block_number (P := P) env) s Q.
Proof.
  intros Hix HQ. unfold jade_first_block_number. apply runs_bind, runs_tx. eapply runs_lift; [|exact HQ].
  apply get_meta_row. rewrite (ix_first _ _ _ _ _ _ _ _ Hix). exists jade. split; [|done].
  apply u64_codec. by eapply jade_range.
Qed.

Lemma runs_jade_first_None (s : state) Q : fresh (disk s) → Q (tick s) None →
  runs (jade_first_block_number (P := P) env) s Q.
Proof.
  intros Hf HQ. unfold jade_first_block_number. apply runs_bind, runs_tx. eapply runs_lift; [|exact HQ].
  apply get_meta_row. by rewrite (fr_first _ _ Hf).
Qed.

(** ** The chain at rest *)

Context (c : list block) (fin : option Z) (Hrest : resting c fin).
Context (top : block) (Htop : last c = Some top).
Abbreviation head := (Build_CanonicalTip (cb_number top) (cb_hash top) (cb_timestamp top)).
Abbreviation top_number := (cb_number top).

Lemma c_known : known c.
Proof. rewrite <- (rs_canon _ _ Hrest 0). apply (kn_canon _ _ _ Hknown). Qed.

Lemma top_spec : 0 ≤ top_number ∧ c !! Z.to_nat top_number = Some top ∧ length c = S (Z.to_nat top_number)
  ∧ top_number < u64_max.
Proof.
  pose proof Htop as Hl. rewrite last_lookup in Hl. pose proof (kn_number _ _ _ Hknown _ _ _ c_known Hl) as Hn.
  pose proof (kn_length _ _ _ Hknown _ c_known). apply lookup_lt_Some in Hl as Hlt.
  rewrite Hn, Nat2Z.id. split_and!; [lia|done|lia|lia].
Qed.

Lemma c_block n : 0 ≤ n ≤ top_number → ∃ b, c !! Z.to_nat n = Some b ∧ cb_number b = n.
Proof.
  intros Hn. destruct top_spec as (_ & _ & Hl & _).
  destruct (lookup_lt_is_Some_2 c (Z.to_nat n)) as [b Hb]; [lia|]. exists b. split; [done|].
  rewrite (kn_number _ _ _ Hknown _ _ _ c_known Hb). lia.
Qed.

(** *** The first block of Jade *)

Abbreviation before_jade := (before_jade jade_timestamp).

(** With an interval below [2 ^ fuel], the search finds the first block of Jade. *)
Lemma jade_search_runs fuel low high b (s : state) : 0 ≤ low ≤ high → high ≤ top_number →
  before_jade c low → c !! Z.to_nat high = Some b → jade_timestamp ≤ cb_timestamp b → high - low < 2 ^ Z.of_nat fuel →
  runs (jade_search chain fuel jade_timestamp low high) s (λ s' j, passed s s' ∧ low ≤ j ≤ high ∧ before_jade c j
    ∧ ∃ b', c !! Z.to_nat j = Some b' ∧ jade_timestamp ≤ cb_timestamp b').
Proof.
  revert low high b s. induction fuel as [|fuel IH]; intros low high b s Hr Hh Hlow Hb Hts Hf; cbn [jade_search].
  { change (2 ^ Z.of_nat 0) with 1 in Hf. replace high with low in * by lia. apply runs_ret. split_and!; try done; try lia; eauto. }
  destruct (Z.ltb_spec low high) as [Hlt|Hge].
  2: { replace high with low in * by lia. apply runs_ret. split_and!; try done; try lia; eauto. }
  set (middle := low + (high - low) / 2).
  assert (Hmid : low ≤ middle < high ∧ high - middle - 1 < 2 ^ Z.of_nat fuel ∧ middle - low < 2 ^ Z.of_nat fuel).
  { rewrite Nat2Z.inj_succ, Z.pow_succ_r in Hf by lia.
    pose proof (Z.div_mod (high - low) 2 ltac:(lia)). pose proof (Z.mod_pos_bound (high - low) 2 ltac:(lia)). unfold middle. lia. }
  destruct (c_block middle) as (bm & Hbm & _); [lia|].
  apply runs_bind. eapply runs_ask; [by apply (rs_time _ _ Hrest); [lia|]|].
  apply runs_bind. eapply runs_lift; [done|]. destruct (Z.ltb_spec (cb_timestamp bm) jade_timestamp) as [Hj|Hj].
  - eapply runs_mono; [eapply (IH (middle + 1) high b); [lia|done| |done|done|lia]|].
    + intros m b' Hm Hb'. pose proof (kn_time _ _ _ Hknown _ _ _ _ _ c_known Hb' Hbm ltac:(lia)). lia.
    + intros s' j (Hp & Hjr & Hfound). split; [eapply passed_trans; [apply passed_tick|done]|]. split; [lia|done].
  - eapply runs_mono; [eapply (IH low middle bm); [lia|lia|done|done|done|lia]|].
    intros s' j (Hp & Hjr & Hfound). split; [eapply passed_trans; [apply passed_tick|done]|]. split; [lia|done].
Qed.

Lemma search_fuel_enough high : 0 ≤ high → high < 2 ^ Z.of_nat (search_fuel high).
Proof.
  intros Hh. unfold search_fuel. pose proof (Z.log2_nonneg high). rewrite Z2Nat.id by lia.
  destruct (Z.eq_dec high 0) as [->|]; [done|]. pose proof (Z.log2_spec high ltac:(lia)).
  rewrite Z.pow_add_r by lia. change (2 ^ 2) with 4. rewrite Z.pow_succ_r in * by lia. lia.
Qed.

(** *** Reconciliation *)

(** The index holds the block [a] of the chain at rest and its hash, and either nothing
    above it or only blocks above finality. *)
Record anchor (d : IndexDb Tb) (c0 : list block) (n jade floor a : Z) : Prop := {
  an_indexes : indexes d c0 n jade floor;
  an_kept : floor ≤ a;
  an_range : jade ≤ a ≤ n;
  an_top : a ≤ top_number;
  an_common : take (S (Z.to_nat a)) c0 = take (S (Z.to_nat a)) c;
  an_final : a = n ∨ ∀ f, fin = Some f → f ≤ a;
}.

(** From the anchor up to the cursor every hash is recorded. *)
Lemma anchor_row d c0 n jade floor a m : anchor d c0 n jade floor a → a ≤ m ≤ n →
  ∃ b, c0 !! Z.to_nat m = Some b ∧ row (d_indexed_blocks d) m = Some (cb_hash b).
Proof.
  intros [Hix Hk Hr _ _ _] Hm. pose proof (ix_range _ _ _ _ _ _ _ _ Hix). pose proof (ix_length _ _ _ _ _ _ _ _ Hix).
  destruct (lookup_lt_is_Some_2 c0 (Z.to_nat m)) as [b Hb]; [lia|]. exists b. split; [done|].
  apply (ex_kept _ _ _ _ (ix_exact _ _ _ _ _ _ _ _ Hix)); [|lia]. unfold span.
  by rewrite (proj2 (Z.leb_le jade m)), (proj2 (Z.leb_le m n)) by lia.
Qed.

(** A block of both chains with one hash is common to them with all below. *)
Lemma common_block c0 m b b' : known c0 → c0 !! Z.to_nat m = Some b → c !! Z.to_nat m = Some b' → cb_hash b = cb_hash b' →
  take (S (Z.to_nat m)) c0 = take (S (Z.to_nat m)) c.
Proof. intros Hk Hb Hb' Hh. by apply (kn_hash _ _ _ Hknown c0 c _ b b' Hk c_known). Qed.

Lemma anchor_block d c0 n jade floor a b b' : anchor d c0 n jade floor a →
  c0 !! Z.to_nat a = Some b → c !! Z.to_nat a = Some b' → b = b'.
Proof.
  intros Han Hb Hb'. rewrite <- (lookup_take_lt c0 (S (Z.to_nat a))) in Hb by lia.
  rewrite (an_common _ _ _ _ _ _ Han), lookup_take_lt in Hb by lia. congruence.
Qed.

Lemma rewind_runs fuel low m c0 n jade floor a (s : state) : anchor (disk s) c0 n jade floor a → low ≤ a →
  a ≤ m ≤ n → m ≤ top_number → (Z.to_nat (m - a) < fuel)%nat →
  runs (rewind env chain fuel low m) s (λ s' o, passed s s' ∧ ∃ a', o = Some a' ∧ a ≤ a' ≤ m
    ∧ take (S (Z.to_nat a')) c0 = take (S (Z.to_nat a')) c).
Proof.
  revert m s. induction fuel as [|fuel IH]; intros m s Han Hlow Hm Htop' Hf; [lia|]. cbn [rewind].
  destruct (anchor_row _ _ _ _ _ _ m Han Hm) as (b & Hb & Hrow). pose proof (an_range _ _ _ _ _ _ Han).
  pose proof (ix_range _ _ _ _ _ _ _ _ (an_indexes _ _ _ _ _ _ Han)).
  apply runs_bind. eapply runs_indexed_hash; [exact Hrow|]. apply runs_bind. eapply runs_lift; [done|].
  destruct (c_block m) as (b' & Hb' & _); [lia|]. apply runs_bind. eapply runs_ask; [by apply (rs_hash _ _ Hrest); [lia|]|].
  assert (Hp : passed s (tick (tick s))) by (eapply passed_trans; apply passed_tick).
  case_bool_decide as He.
  - injection He as He. apply runs_ret. split; [done|]. exists m. split_and!; [done|lia|lia|].
    eapply common_block; [apply Han|done..]. 
  - assert (m ≠ a) by (intros ->; apply He; do 2 f_equal; symmetry; by eapply anchor_block).
    rewrite (proj2 (Z.eqb_neq m low)) by lia. eapply runs_mono; [eapply (IH (m - 1)); [exact Han|lia..]|].
    intros s' o (Hp' & a' & -> & Ha' & Ht). split; [by eapply passed_trans|]. exists a'. split_and!; [done|lia|lia|done].
Qed.

Lemma rollback_body_ok a n lb lo (d : IndexDb Tb) : ok (rollback_body (P := P) a n lb lo d).
Proof.
  unfold rollback_body. apply ok_bind; [apply delete_blocks_ok|]. intros d1. apply ok_bind; [|intros d2; by eexists].
  destruct (lo =? lb); [destruct a as [a|]|apply put_meta_ok]; [apply put_meta_ok|]. unfold clear_indexed_to.
  match goal with |- context[t_delete ?k ?t] => destruct (tot_delete Htotal k t) as [t1 ->] end. by eexists.
Qed.

Lemma rollback_loop_runs fuel a bs c0 n jade floor (s : state) : indexes (disk s) c0 n jade floor → jade ≤ a ≤ n →
  0 < bs → (Z.to_nat (n - a) < fuel)%nat →
  runs (rollback_loop (P := P) env fuel (Some a) bs) s (λ s' _, still s s' ∧ indexes (disk s') c0 a jade floor).
Proof.
  revert n s. induction fuel as [|fuel IH]; intros n s Hix Ha Hbs Hf; [lia|]. cbn [rollback_loop].
  pose proof (indexes_cursor_range _ _ _ _ Hknown _ _ _ _ _ Hix) as [Hn Hn']. apply runs_bind. eapply runs_indexed_to_Some; [exact Hix|].
  destruct (passed_tick s) as [Hd Hst]. destruct (Z.leb_spec n a) as [Hle|Hlt].
  { apply runs_ret. split; [done|]. by replace n with a in Hix by lia. }
  unfold in_range in Hn. rewrite saturating_add_exact by lia.
  set (lo := Z.max (saturating_sub n (saturating_sub bs 1)) (a + 1)).
  assert (Hlo : a + 1 ≤ lo ≤ n) by (unfold lo, saturating_sub; lia).
  apply runs_bind. eapply runs_write_tx.
  - rewrite Hd. eapply yields_outcome; [apply rollback_body_ok|].
    eapply rollback_body_spec; first [done|lia].
  - intros s2 d2 [] Hix2 <- Hst2. eapply runs_mono; [eapply (IH (lo - 1)); [exact Hix2|lia..]|].
    intros s' [] [Hst' Hres]. split; [|done]. eapply still_trans; [exact Hst|]. by eapply still_trans.
Qed.

Lemma rollback_suffix_runs a c0 n jade floor (s : state) : indexes (disk s) c0 n jade floor → jade ≤ a ≤ n →
  runs (rollback_suffix (P := P) env (Some a) DEFAULT_BACKFILL_BATCH_BLOCKS) s
    (λ s' _, still s s' ∧ indexes (disk s') c0 a jade floor).
Proof.
  intros Hix Ha. unfold rollback_suffix. cbn [Z.eqb DEFAULT_BACKFILL_BATCH_BLOCKS]. apply runs_bind, runs_get.
  unfold rollback_fuel. erewrite get_meta_row.
  2: { rewrite (ix_cursor _ _ _ _ _ _ _ _ Hix). exists n. split; [|done]. apply u64_codec. by eapply indexes_cursor_range. }
  pose proof (ix_range _ _ _ _ _ _ _ _ Hix). by eapply rollback_loop_runs; [exact Hix| |..|lia].
Qed.

Lemma repair_runs c0 n jade floor a (s : state) : anchor (disk s) c0 n jade floor a → a ≠ n →
  runs (repair env chain jade fin (Z.min n top_number)) s (λ s' _, still s s'
    ∧ ∃ n', a ≤ n' ∧ indexes (disk s') c n' jade floor).
Proof.
  intros Han Hne. pose proof Han as [Hix Hk Hr Ht _ [?|Hfin]]; [done|]. unfold repair. apply runs_bind, runs_modify.
  destruct (passed_phase Repairing s) as [Hd0 Hst0]. rewrite <- Hd0 in Han, Hix. pose proof (ix_range _ _ _ _ _ _ _ _ Hix).
  set (cand := Z.min n top_number) in *. set (low := Z.min _ cand).
  assert (Hlow : low ≤ a ∧ low ≤ cand ∧ cand = Z.min n top_number).
  { unfold low, cand. destruct fin as [f|]; [|lia]. specialize (Hfin f eq_refl). lia. }
  apply runs_bind. eapply runs_mono; [eapply (rewind_runs _ _ _ _ _ _ _ a); [exact Han|lia..]|].
  intros s1 o ([Hd1 Hst1] & a' & -> & Ha' & Htake). apply runs_bind. eapply runs_lift; [done|].
  rewrite <- Hd1 in Hix. eapply runs_mono; [eapply rollback_suffix_runs; [exact Hix|lia]|].
  intros s2 [] [Hst2 Hix2]. split; [eapply still_trans; [exact Hst0|]; by eapply still_trans|].
  exists a'. split; [lia|]. eapply indexes_move; [exact Hix2|apply c_known|done].
Qed.

Lemma reconcile_runs c0 n jade floor a (s : state) : anchor (disk s) c0 n jade floor a →
  runs (reconcile_cursor env chain jade fin head) s (λ s' _, still s s'
    ∧ ∃ n', a ≤ n' ∧ indexes (disk s') c n' jade floor).
Proof.
  intros Han. pose proof Han as [Hix Hk Hr Ht _ _]. pose proof (ix_range _ _ _ _ _ _ _ _ Hix). unfold reconcile_cursor.
  apply runs_bind. eapply runs_indexed_to_Some; [exact Hix|]. cbn [tip_number tip_hash].
  destruct (anchor_row _ _ _ _ _ _ (Z.min n top_number) Han ltac:(lia)) as (b & Hb & Hrow).
  apply runs_bind. eapply runs_indexed_hash; [exact Hrow|]. apply runs_bind. eapply runs_lift; [done|].
  assert (Hp : passed s (tick (tick s))) by (eapply passed_trans; apply passed_tick).
  assert (Hgood : ∀ s' b', passed s s' → n ≤ top_number → c !! Z.to_nat n = Some b' → cb_hash b = cb_hash b' →
    still s s' ∧ ∃ n', a ≤ n' ∧ indexes (disk s') c n' jade floor).
  { intros s' b' [Hd Hst] Hn Hb' Hh. split; [done|]. exists n. split; [lia|]. rewrite Hd. rewrite Z.min_l in Hb by done.
    eapply indexes_move; [exact Hix|apply c_known|]. eapply common_block; [apply Hix|done..]. }
  assert (Hbad : ∀ s', passed s s' → a ≠ n → runs (repair env chain jade fin (Z.min n top_number)) s'
    (λ s' _, still s s' ∧ ∃ n', a ≤ n' ∧ indexes (disk s') c n' jade floor)).
  { intros s' [Hd Hst] Hne. rewrite <- Hd in Han. eapply runs_mono; [by eapply repair_runs|].
    intros s2 _ [Hst2 Hres]. split; [by eapply still_trans|done]. }
  assert (Hsame : ∀ b', n ≤ top_number → c !! Z.to_nat n = Some b' → cb_hash b ≠ cb_hash b' → a ≠ n).
  { intros b' Hn Hb' Hh ->. apply Hh. f_equal. rewrite Z.min_l in Hb by done. by eapply anchor_block. }
  destruct top_spec as (_ & Hbt & _). destruct (Z.eqb_spec n top_number) as [He|He]; cbn [andb].
  - rewrite <- He in Hbt. destruct (Z.eqb_spec (cb_hash b) (cb_hash top)) as [Heh|Heh].
    + apply runs_ret. by eapply Hgood; [|lia|..].
    + rewrite (proj2 (Z.ltb_ge _ _)) by lia. apply Hbad; [done|]. by apply (Hsame top); [lia|..].
  - destruct (Z.ltb_spec n top_number) as [Hlt|Hge]; [|apply Hbad; [done|lia]].
    destruct (c_block n) as (b' & Hb' & _); [lia|]. apply runs_bind. eapply runs_ask; [by apply (rs_hash _ _ Hrest); [lia|]|].
    assert (Hp' : passed s (tick (tick (tick s)))) by (eapply passed_trans; [exact Hp|apply passed_tick]).
    case_bool_decide as Heh.
    + injection Heh as Heh. apply runs_ret. by eapply Hgood; [|lia|..].
    + apply Hbad; [done|]. apply (Hsame b'); [lia|done|]. intros Hh. apply Heh. by rewrite Hh.
Qed.

(** *** Backfill *)

Lemma range_piece lo hi : 0 ≤ lo ≤ hi → hi ≤ top_number →
  let bs := take (Z.to_nat (hi - lo + 1)) (drop (Z.to_nat lo) c) in
  piece c lo bs ∧ Z.of_nat (length bs) = hi - lo + 1 ∧ ∃ l, last bs = Some l ∧ cb_number l = hi ∧ c !! Z.to_nat hi = Some l.
Proof.
  intros Hlo Hhi bs. destruct top_spec as (_ & _ & Hl & _).
  assert (Hlen : length bs = Z.to_nat (hi - lo + 1)) by (unfold bs; rewrite length_take, length_drop; lia).
  assert (Hp : piece c lo bs).
  { intros i b Hb. unfold bs in Hb. apply lookup_take_Some in Hb as [Hb _]. rewrite lookup_drop in Hb.
    rewrite (kn_number _ _ _ Hknown _ _ _ c_known Hb).
    replace (Z.to_nat (lo + Z.of_nat i)) with (Z.to_nat lo + i)%nat by lia. split; [lia|done]. }
  split_and!; [done|lia|]. destruct (last bs) as [l|] eqn:Hlast.
  - exists l. rewrite last_lookup in Hlast. destruct (Hp _ _ Hlast) as [Hn Hb]. rewrite Hlen in *.
    replace (lo + Z.of_nat (Init.Nat.pred (Z.to_nat (hi - lo + 1)))) with hi in * by lia. done.
  - apply last_None in Hlast. rewrite Hlast in Hlen. cbn in Hlen. lia.
Qed.

Lemma piece_range lo bs : 0 ≤ lo → piece c lo bs → bs ≠ [] → lo + Z.of_nat (length bs) ≤ top_number + 1.
Proof.
  intros Hlo Hp Hne. destruct top_spec as (Ht0 & _ & Hl & _). destruct (last bs) as [l|] eqn:Hlast; [|by apply last_None in Hlast].
  rewrite last_lookup in Hlast. destruct (Hp _ _ Hlast) as [_ Hb]. apply lookup_lt_Some in Hb, Hlast. lia.
Qed.

Lemma verify_batch_runs lo bs (s : state) : 0 ≤ lo → piece c lo bs → runs (verify_batch chain lo bs) s (λ s' _, passed s s').
Proof.
  revert lo s. induction bs as [|b bs IH]; intros lo s Hlo Hp; cbn [verify_batch]; [by apply runs_ret|].
  apply piece_cons in Hp as (Hn & Hb & Hp). apply runs_bind. eapply runs_ask; [by apply (rs_hash _ _ Hrest)|].
  rewrite Hn, Z.eqb_refl, bool_decide_eq_true_2 by done. cbn [negb orb].
  eapply runs_mono; [apply IH; [lia|done]|]. intros s2 [] Hs2. eapply passed_trans; [apply passed_tick|done].
Qed.

Lemma contiguous_ok lo bs : 0 ≤ lo → piece c lo bs → contiguous (E := E) (P := P) lo bs = Ok tt.
Proof.
  revert lo. induction bs as [|b bs IH]; intros lo Hlo Hp; [done|]. cbn [contiguous].
  pose proof (piece_range lo _ Hlo Hp ltac:(done)) as Hr. destruct top_spec as (_ & _ & _ & Hu).
  apply piece_cons in Hp as (Hn & _ & Hp). rewrite Hn, Z.eqb_refl. cbn. cbn in Hr. rewrite saturating_add_exact by lia.
  apply IH; [lia|done].
Qed.

(** The cursor is [n], its hash is recorded, and at the head the index is live. *)
Definition arrived (s : state) (n : Z) : Prop :=
  ∃ jade floor, indexes (disk s) c n jade floor ∧ floor ≤ n ∧ (n = top_number → phase s = IsLive).

Lemma backfill_turn_runs jade floor start (s : state) : 0 ≤ jade ≤ start → start ≤ top_number → before_jade c jade →
  exact tx_hash (disk s) (span c jade (start - 1)) floor → floor ≤ start →
  runs (backfill_turn tx_hash env chain jade fin head start) s
    (λ s' _, still s s' ∧ arrived s' (Z.min (start + 511) top_number)).
Proof.
  intros Hj Hstart Hbj Hex Hfl. destruct top_spec as (Ht0 & _ & _ & Hu). unfold backfill_turn. apply runs_bind, runs_modify.
  destruct (passed_phase Backfill s) as [Hd0 Hst0]. set (s0 := set_phase Backfill s) in *. cbn [tip_number tip_hash].
  replace (Z.min (saturating_add u64_max start (DEFAULT_BACKFILL_BATCH_BLOCKS - 1)) top_number)
    with (Z.min (start + 511) top_number) by (unfold saturating_add; change (DEFAULT_BACKFILL_BATCH_BLOCKS - 1) with 511; lia).
  set (hi := Z.min (start + 511) top_number). assert (Hhi : start ≤ hi ≤ top_number) by (unfold hi; lia).
  destruct top_spec as (_ & _ & Hl & _). apply runs_bind. eapply runs_ask; [apply (rs_blocks _ _ Hrest); lia|].
  destruct (range_piece start hi) as (Hp & Hlen & l & Hlast & Hln & Hlc); [lia..|]. set (bs := take _ _) in *.
  rewrite Hlen. unfold saturating_sub. rewrite saturating_add_exact by lia. rewrite (proj2 (Z.eqb_eq _ _)) by lia. cbn [negb].
  apply runs_bind. eapply runs_mono; [apply verify_batch_runs; [lia|done]|]. intros s1 [] [Hd1 Hst1].
  assert (Hd : disk s1 = disk s) by (rewrite Hd1; exact Hd0).
  assert (Hst : still s s1) by (eapply still_trans; [exact Hst0|]; eapply still_trans; [apply passed_tick|exact Hst1]).
  unfold commit_canonical_batch. rewrite Hlast. apply runs_bind, runs_bind. eapply runs_lift; [apply contiguous_ok; [lia|done]|].
  eapply runs_write_tx.
  { rewrite Hd. eapply yields_outcome; [apply batch_body_ok|].
    eapply batch_body_spec; [exact c_known|exact Hbj|exact Hj|exact Hp|exact Hlast|exact Hex]. }
  intros s2 d2 w (fl & Hix & Hfl2) <- Hst2. rewrite Hln in Hix, Hfl2. apply runs_bind.
  eapply runs_ask; [by apply (rs_head _ _ Hrest)|]. cbn [tip_number tip_hash].
  destruct (Z.eqb_spec hi top_number) as [He|He]; cbn [andb].
  - replace l with top by (rewrite He in Hlc; destruct top_spec as (_ & Hbt & _); congruence). rewrite Z.eqb_refl.
    apply runs_modify. destruct (passed_phase IsLive (tick s2)) as [Hd3 Hst3]. split.
    + eapply still_trans; [exact Hst|]. eapply still_trans; [exact Hst2|]. eapply still_trans; [apply passed_tick|exact Hst3].
    + exists jade, fl. rewrite Hd3. split_and!; [done|apply Hfl2; lia|]. intros _. apply phase_set_phase.
  - apply runs_ret. split; [eapply still_trans; [exact Hst|]; eapply still_trans; [exact Hst2|apply passed_tick]|].
    exists jade, fl. split_and!; [done|apply Hfl2; lia|done].
Qed.

(** *** A turn *)

Lemma catch_up_fresh_runs j (s : state) : fresh (disk s) → 0 ≤ j ≤ top_number → before_jade c j →
  runs (catch_up tx_hash env chain j head) s (λ s' _, still s s' ∧ arrived s' (Z.min (j + 511) top_number)).
Proof.
  intros Hf Hj Hbj. unfold catch_up. apply runs_bind. eapply runs_ask; [apply (rs_finalized _ _ Hrest)|].
  apply runs_bind. unfold reconcile_cursor. apply runs_bind. eapply runs_indexed_to_None; [done|]. apply runs_ret.
  apply runs_bind. eapply runs_indexed_to_None; [done|]. cbn [tip_number]. rewrite (proj2 (Z.ltb_ge _ _)) by lia.
  eapply runs_mono; [eapply (backfill_turn_runs j 0); [lia|lia|done| |lia]|].
  - eapply exact_ext; [|exact (fr_exact _ _ Hf)]. intros m. cbn. unfold span.
    destruct (Z.leb_spec j m), (Z.leb_spec m (j - 1)); cbn; try done. lia.
  - intros s' _ [Hst Ha]. split; [|done]. eapply still_trans; [apply passed_tick|].
    eapply still_trans; [apply passed_tick|]. eapply still_trans; [apply passed_tick|exact Hst].
Qed.

Lemma catch_up_runs c0 n jade floor a (s : state) : anchor (disk s) c0 n jade floor a →
  runs (catch_up tx_hash env chain jade head) s (λ s' _, still s s'
    ∧ ∃ n', Z.min (a + 512) top_number ≤ n' ∧ arrived s' n').
Proof.
  intros Han. destruct top_spec as (Ht0 & _ & Hl & Hu). unfold catch_up.
  apply runs_bind. eapply runs_ask; [apply (rs_finalized _ _ Hrest)|].
  apply runs_bind. eapply runs_mono; [eapply reconcile_runs; exact Han|]. intros s1 [] (Hst1 & n1 & Hn1 & Hix1).
  assert (Hst : still s s1) by (eapply still_trans; [apply passed_tick|exact Hst1]).
  pose proof (ix_range _ _ _ _ _ _ _ _ Hix1). pose proof (ix_length _ _ _ _ _ _ _ _ Hix1).
  pose proof (an_kept _ _ _ _ _ _ Han). apply runs_bind. eapply runs_indexed_to_Some; [exact Hix1|].
  cbn [tip_number]. rewrite saturating_add_exact by lia. destruct (Z.ltb_spec top_number (n1 + 1)) as [Hlt|Hge].
  - apply runs_modify. destruct (passed_phase IsLive (tick s1)) as [Hd2 Hst2].
    split; [eapply still_trans; [exact Hst|]; eapply still_trans; [apply passed_tick|exact Hst2]|].
    exists n1. split; [lia|]. exists jade, floor. rewrite Hd2. split_and!; [done|lia|]. intros _. apply phase_set_phase.
  - eapply runs_mono; [eapply (backfill_turn_runs jade floor); [lia|lia|apply Hix1| |lia]|].
    + replace (n1 + 1 - 1) with n1 by lia. apply Hix1.
    + intros s' _ [Hst' Ha]. split; [eapply still_trans; [exact Hst|]; eapply still_trans; [apply passed_tick|exact Hst']|].
      eexists. split; [|exact Ha]. lia.
Qed.

(** What a turn can start from: empty tables, or an anchor. *)
Definition startable (d : IndexDb Tb) (m : Z) : Prop :=
  (fresh d ∧ m = -1) ∨ ∃ c0 n jade floor, anchor d c0 n jade floor m.

Hypothesis top_jade : jade_timestamp ≤ cb_timestamp top.

(** *** Opening *)

Abbreviation meta d k := (row (d_index_meta d) (meta_key k)).

(** The database is open, or opens: it carries the node's identity, or nothing yet. *)
Definition openable (s : state) : Prop := installed s = true
  ∨ (meta (disk s) ChainId = Some (encode_u64 chain_id) ∧ meta (disk s) GenesisHash = Some (encode_b256 genesis_hash)
     ∧ meta (disk s) SchemaVersion = Some (encode_u32 SCHEMA_VERSION))
  ∨ (fresh (disk s) ∧ meta (disk s) ChainId = None ∧ meta (disk s) GenesisHash = None ∧ meta (disk s) SchemaVersion = None).

Definition opened (s s' : state) : Prop := installed s' = true ∧ (now s ≤ now s')%nat ∧ (gated s → gated s').

Lemma opened_still s1 s2 s3 : opened s1 s2 → still s2 s3 → opened s1 s3.
Proof. intros (? & ? & ?) (? & ? & ?). split_and!; [congruence|lia|auto]. Qed.

Hypothesis Hid : is_u64 chain_id ∧ is_u256 genesis_hash.

Lemma raw_meta_row (d : IndexDb Tb) k : raw_meta (P := P) d k = Ok (meta d k).
Proof.
  unfold raw_meta. pose proof (law_t_get (meta_key k) (d_index_meta d)) as Hl.
  destruct (tot_get Htotal (meta_key k) (d_index_meta d)) as [o Ho]. rewrite Ho in Hl |- *. cbn in *. by subst o.
Qed.

Lemma has_entries_ok {K V} `{KeyOrd K} (t : Tb K V) : ok (has_entries (P := P) t).
Proof. unfold has_entries. destruct (tot_entries Htotal t) as [n ->]. by eexists. Qed.

Lemma has_entries_empty {K V} `{KeyOrdLaws K} (t : Tb K V) : (∀ k, row t k = None) → has_entries (P := P) t = Ok false.
Proof.
  intros Hn. unfold has_entries. pose proof (law_t_entries t) as Hl. destruct (tot_entries Htotal t) as [n Ht].
  rewrite Ht in Hl |- *. cbn in *. apply Hl in Hn as ->. done.
Qed.

(** Empty tables have no rows. *)
Lemma fresh_rows (d : IndexDb Tb) : fresh d →
  (∀ k, row (d_reference_index d) k = None) ∧ (∀ k, row (d_block_reference_index d) k = None)
  ∧ (∀ n, row (d_indexed_blocks d) n = None).
Proof.
  intros [[E1 E2 E3 _] _ _]. split_and!.
  - intros k. destruct (row (d_reference_index d) k) as [v|] eqn:Hr; [|done]. apply E1 in Hr as (b & [=] & _).
  - intros k. destruct (row (d_block_reference_index d) k) as [v|] eqn:Hr; [|done]. apply E2 in Hr as (b & [=] & _).
  - intros n. destruct (row (d_indexed_blocks d) n) as [v|] eqn:Hr; [|done]. apply E3 in Hr as (b & [=] & _).
Qed.

Lemma identity_codecs : decode_u64 (E := E) (P := P) (encode_u64 chain_id) = Ok chain_id
  ∧ decode_b256 (E := E) (P := P) (encode_b256 genesis_hash) = Ok genesis_hash
  ∧ decode_u32 (E := E) (P := P) (encode_u32 SCHEMA_VERSION) = Ok SCHEMA_VERSION.
Proof.
  destruct Hid as [Hc Hg]. split_and!; [by apply u64_codec| |done]. unfold decode_b256, encode_b256.
  change (len (be_word 32 genesis_hash) =? 32) with true. cbv iota. by rewrite of_be_word by by apply u256_word.
Qed.

Lemma read_identity_present (d : IndexDb Tb) : meta d ChainId = Some (encode_u64 chain_id) →
  meta d GenesisHash = Some (encode_b256 genesis_hash) → meta d SchemaVersion = Some (encode_u32 SCHEMA_VERSION) →
  ∃ m e, read_identity (P := P) d = Ok (Some chain_id, Some genesis_hash, Some SCHEMA_VERSION, m, e).
Proof.
  intros Hc Hg Hs. destruct identity_codecs as (Dc & Dg & Ds). unfold read_identity.
  rewrite (get_meta_row ChainId decode_u64 d (Some chain_id)) by (rewrite Hc; eauto).
  rewrite (get_meta_row GenesisHash decode_b256 d (Some genesis_hash)) by (rewrite Hg; eauto).
  rewrite (get_meta_row SchemaVersion decode_u32 d (Some SCHEMA_VERSION)) by (rewrite Hs; eauto).
  cbn [result_bind]. rewrite !raw_meta_row. cbn [result_bind].
  destruct (has_entries_ok (d_reference_index d)) as (e1 & -> & _), (has_entries_ok (d_block_reference_index d)) as (e2 & -> & _),
    (has_entries_ok (d_indexed_blocks d)) as (e3 & -> & _).
  destruct (is_some _), e1, e2; cbn; do 2 eexists; reflexivity.
Qed.

Lemma read_identity_absent (d : IndexDb Tb) : fresh d → meta d ChainId = None →
  meta d GenesisHash = None → meta d SchemaVersion = None → read_identity (P := P) d = Ok (None, None, None, false, false).
Proof.
  intros Hf Hc Hg Hs. unfold read_identity. rewrite !(get_meta_row _ _ d None) by by rewrite ?Hc, ?Hg, ?Hs.
  cbn [result_bind]. rewrite !raw_meta_row, (fr_cursor _ _ Hf), (fr_first _ _ Hf). cbn [result_bind is_some].
  destruct (fresh_rows d Hf) as (H1' & H2' & H3'). by rewrite !has_entries_empty.
Qed.

Lemma init_identity_ok (d : IndexDb Tb) : ok (init_identity (P := P) chain_id genesis_hash d).
Proof. unfold init_identity. do 3 (apply ok_bind; [apply put_meta_ok|]; intros ?). by eexists. Qed.

Lemma open_db_runs (s : state) : openable s →
  runs (open_db (P := P) env chain_id genesis_hash) s (λ s' _, opened s s' ∧ kept (disk s) (disk s')).
Proof.
  intros Ho. unfold open_db. apply runs_bind, runs_get. destruct (installed s) eqn:Hin; [by apply runs_ret|].
  destruct Ho as [?|Ho]; [congruence|]. apply runs_bind. unfold open. apply runs_bind.
  eapply runs_ask; [by rewrite (st_init Henv)|]. unfold validate_or_init_chain_identity. apply runs_bind, runs_tx, runs_bind.
  assert (Hn : (now s ≤ S (S (now s)))%nat) by lia.
  destruct Ho as [(Hc & Hg & Hs)|(Hf & Hc & Hg & Hs)].
  - destruct (read_identity_present (disk s) Hc Hg Hs) as (m & e & Hr). eapply runs_lift; [exact Hr|].
    cbv beta iota. rewrite !Z.eqb_refl. cbn [negb]. apply runs_ret, runs_modify. split; done.
  - eapply runs_lift; [by apply read_identity_absent|]. cbn [negb andb]. eapply runs_write_tx.
    { eapply yields_outcome; [apply init_identity_ok|apply init_identity_kept]. }
    intros s' d [] Hk <- (_ & Hn' & Hg'). cbn in Hn'. apply runs_modify. split; [|done]. split_and!; [done|cbn; lia|exact Hg'].
Qed.

Lemma kept_indexes d d' c0 n jade floor : kept d d' → indexes d c0 n jade floor → indexes d' c0 n jade floor.
Proof.
  intros Hk [K R L J Cu Fi Ex]. pose proof (kept_exact _ _ _ _ _ Hk Ex). destruct Hk as (_ & _ & _ & Hm).
  split; try done; rewrite Hm; auto.
Qed.

Lemma kept_startable d d' m : kept d d' → startable d m → startable d' m.
Proof.
  intros Hk [[Hf ->]|(c0 & n & jade & floor & [Ix K R T Cm Fi])].
  - left. split; [|done]. destruct Hf as [Hex Hc Hj]. pose proof (kept_exact _ _ _ _ _ Hk Hex).
    destruct Hk as (_ & _ & _ & Hm). split; [done|rewrite Hm; auto..].
  - right. exists c0, n, jade, floor. split; try done. by eapply kept_indexes.
Qed.

Lemma turn_runs (s : state) m : openable s → startable (disk s) m →
  runs turn s (λ s' _, opened s s' ∧ ∃ n', Z.min (m + 512) top_number ≤ n' ∧ arrived s' n').
Proof.
  intros Hin Hst. enough (Hinner : runs (synchronize_once_inner tx_hash env chain chain_id genesis_hash jade_timestamp false) s
    (λ s' _, opened s s' ∧ ∃ n', Z.min (m + 512) top_number ≤ n' ∧ arrived s' n')).
  { destruct Hinner as (s' & [] & Hrun & HQ). exists s', tt. split; [|done]. unfold synchronize_once. by rewrite Hrun. }
  unfold synchronize_once_inner. apply runs_bind. eapply runs_mono; [by apply open_db_runs|].
  intros s0 [] [Hop Hk]. apply (kept_startable _ _ _ Hk) in Hst. clear Hk. apply runs_bind. eapply runs_ask; [by apply (rs_head _ _ Hrest)|]. cbn [tip_timestamp]. rewrite (proj2 (Z.ltb_ge _ _)) by done.
  destruct top_spec as (Ht0 & Hbt & _).
  assert (Hticks : ∀ s', still (tick (tick s0)) s' → opened s s').
  { intros s' Hs'. eapply opened_still; [exact Hop|]. eapply still_trans; [apply passed_tick|].
    eapply still_trans; [apply passed_tick|exact Hs']. }
  apply runs_bind. destruct Hst as [[Hf ->]|(c0 & n & jade & floor & Han)].
  - eapply runs_jade_first_None; [done|]. apply runs_bind. unfold resolve_jade_first_block. cbn [tip_timestamp tip_number].
    rewrite (proj2 (Z.ltb_ge _ _)) by done. apply runs_bind, runs_bind. eapply runs_mono.
    { eapply (jade_search_runs _ 0 top_number top); [lia|done|intros m b Hm; lia|done|done|].
      rewrite Z.sub_0_r. by apply search_fuel_enough. }
    intros s1 j ([Hd1 Hst1] & Hj & Hbj & _). apply runs_ret. eapply runs_lift; [done|].
    assert (Hf1 : fresh (disk s1)) by (rewrite Hd1; exact Hf).
    eapply runs_mono; [eapply (catch_up_fresh_runs j); [done|lia|done]|]. intros s' _ [Hst' Ha].
    split; [apply Hticks; by eapply still_trans|]. eexists. split; [|exact Ha]. lia.
  - eapply runs_jade_first_Some; [apply Han|]. apply runs_bind, runs_ret.
    eapply runs_mono; [eapply catch_up_runs; exact Han|]. intros s' _ [Hst' Ha]. split; [by apply Hticks|done].
Qed.

(** A deferred turn opens the database and reads the cursor only. *)
Lemma deferred_turn_runs (s : state) m : openable s → startable (disk s) m →
  runs (synchronize_once tx_hash env chain chain_id genesis_hash jade_timestamp true) s
    (λ s' _, opened s s' ∧ startable (disk s') m ∧ phase s' = Deferred).
Proof.
  intros Hin Hst. enough (Hinner : runs (synchronize_once_inner tx_hash env chain chain_id genesis_hash jade_timestamp true) s
    (λ s' _, opened s s' ∧ startable (disk s') m ∧ phase s' = Deferred)).
  { destruct Hinner as (s' & [] & Hrun & HQ). exists s', tt. split; [|done]. unfold synchronize_once. by rewrite Hrun. }
  unfold synchronize_once_inner. apply runs_bind. eapply runs_mono; [by apply open_db_runs|].
  intros s0 [] [Hop Hk]. apply (kept_startable _ _ _ Hk) in Hst. clear Hk. apply runs_bind.
  eapply runs_ask; [by apply (rs_head _ _ Hrest)|]. cbn [tip_timestamp]. rewrite (proj2 (Z.ltb_ge _ _)) by done.
  assert (Hend : opened s (set_phase Deferred (tick (tick s0))) ∧ startable (disk (set_phase Deferred (tick (tick s0)))) m
    ∧ phase (set_phase Deferred (tick (tick s0))) = Deferred).
  { destruct (passed_phase Deferred (tick (tick s0))) as [-> Hst']. split_and!; [|exact Hst|apply phase_set_phase].
    eapply opened_still; [exact Hop|]. eapply still_trans; [apply passed_tick|]. eapply still_trans; [apply passed_tick|exact Hst']. }
  apply runs_bind. destruct Hst as [[Hf _]|(c0 & n & jade & floor & Han)].
  - eapply runs_indexed_to_None; [done|]. by apply runs_modify.
  - eapply runs_indexed_to_Some; [apply Han|]. by apply runs_modify.
Qed.

Lemma arrived_startable (s : state) n : arrived s n → startable (disk s) n.
Proof.
  intros (jade & floor & Hix & Hfl & _). right. exists c, n, jade, floor. destruct top_spec as (Ht0 & _ & Hl & _).
  pose proof (ix_length _ _ _ _ _ _ _ _ Hix). pose proof (ix_range _ _ _ _ _ _ _ _ Hix).
  split; [done|done|lia|lia|done|by left].
Qed.

(** The state after a number of turns. *)
Definition turns (k : nat) (s : state) : state := Nat.iter k (λ s, (turn s).1) s.

Lemma turns_run k (s : state) m : openable s → startable (disk s) m → (0 < k)%nat →
  opened s (turns k s) ∧ (∀ i, (i < k)%nat → (turn (turns i s)).2 = Ok tt)
  ∧ ∃ n, Z.min (m + 512 * Z.of_nat k) top_number ≤ n ∧ arrived (turns k s) n.
Proof.
  intros Hin Hm Hk. induction k as [|k IH]; [lia|]. destruct k as [|k].
  - destruct (turn_runs s m Hin Hm) as (s' & [] & Hrun & Hst & n & Hn & Ha).
    unfold turns. cbn [Nat.iter nat_rect]. rewrite Hrun. split_and!; [done| |].
    + intros i Hi. replace i with 0%nat by lia. cbn. by rewrite Hrun.
    + exists n. split; [lia|done].
  - destruct IH as (Hst & Hok & n & Hn & Ha); [lia|].
    assert (Hin' : openable (turns (S k) s)) by (left; by destruct Hst).
    destruct (turn_runs (turns (S k) s) n Hin' (arrived_startable _ _ Ha)) as (s' & [] & Hrun & Hst' & n' & Hn' & Ha').
    replace (turns (S (S k)) s) with s' by (change (s' = (turn (turns (S k) s)).1); by rewrite Hrun).
    split_and!; [destruct Hst as (_ & ? & ?), Hst' as (? & ? & ?); split_and!; [done|lia|auto]| |exists n'; split; [lia|done]].
    intros i Hi. destruct (decide (i = S k)) as [->|]; [by rewrite Hrun|apply Hok; lia].
Qed.

Lemma query_runs (s : state) q : gated s → installed s = true → arrived s top_number → 0 ≤ q_offset q → 0 ≤ q_limit q →
  (query_at (P := P) env q head s).2 = Ok (page tx_hash q c).
Proof.
  intros Hg Hin (jade & floor & Hix & Hfl & Hlive) Ho Hl. specialize (Hlive eq_refl). destruct top_spec as (Ht0 & Hbt & _).
  enough (Hq : yields (query_snapshot (P := P) q head (disk s)) (λ _, True)).
  { destruct Hq as (res & Hres & _). assert (Hpage : res = page tx_hash q c).
    { rewrite <- (rs_canon _ _ Hrest 0). eapply (query_snapshot_spec tx_hash); try done; [right; by do 4 eexists|].
      exists top. rewrite (rs_canon _ _ Hrest 0). done. }
    enough (Hrun : runs (query_at (P := P) env q head) s (λ _ r, r = page tx_hash q c)) by by destruct Hrun as (s' & r & -> & ->).
    unfold query_at. apply runs_bind, runs_get. rewrite Hg, Hlive. cbn. apply runs_bind, runs_get. rewrite Hin. cbn.
    apply runs_bind, runs_tx. eapply runs_lift; [exact Hres|exact Hpage]. }
  unfold query_snapshot. erewrite get_meta_row.
  2: { rewrite (ix_cursor _ _ _ _ _ _ _ _ Hix). exists top_number. split; [|done]. apply u64_codec. by eapply indexes_cursor_range. }
  cbn [result_bind ok_or].
  assert (Hrow : row (d_indexed_blocks (disk s)) top_number = Some (cb_hash top)).
  { apply (ex_kept _ _ _ _ (ix_exact _ _ _ _ _ _ _ _ Hix)); [|done]. unfold span. pose proof (ix_range _ _ _ _ _ _ _ _ Hix).
    by rewrite (proj2 (Z.leb_le jade top_number)), Z.leb_refl by lia. }
  pose proof (law_t_get top_number (d_indexed_blocks (disk s))) as Hget.
  destruct (tot_get Htotal top_number (d_indexed_blocks (disk s))) as [o Hgo]. rewrite Hgo in Hget |- *. cbn in Hget. subst o.
  cbn. rewrite Hrow. cbn. rewrite !Z.eqb_refl. cbn.
  match goal with |- context[t_from ?k ?t] => destruct (tot_from Htotal k t) as [rows ->] end. by eexists.
Qed.

(** The index catches up.  While the canonical chain rests and nothing fails, an index
    that is empty, or that holds a block of the chain whose hash it still records and that
    is not below finality, reaches the head: every turn succeeds, and once the turns cover
    the chain in batches of 512 blocks the index is live and answers every query at the
    head with the page of the canonical chain.  So a reorganization above the finalized
    block is repaired without an operator. *)
Theorem index_catches_up (s : state) m k q : gated s → openable s → startable (disk s) m →
  Z.of_nat (length c) ≤ 512 * Z.of_nat k → 0 ≤ q_offset q → 0 ≤ q_limit q →
  (∀ i, (i < k)%nat → (turn (turns i s)).2 = Ok tt) ∧ phase (turns k s) = IsLive
  ∧ (query_at (P := P) env q head (turns k s)).2 = Ok (page tx_hash q c).
Proof.
  intros Hg Hin Hm Hk Ho Hl. destruct top_spec as (Ht0 & _ & Hlen & _).
  assert (Hm0 : -1 ≤ m).
  { destruct Hm as [[_ ->]|(c0 & n & jade & floor & Han)]; [done|]. pose proof (an_range _ _ _ _ _ _ Han).
    pose proof (ix_range _ _ _ _ _ _ _ _ (an_indexes _ _ _ _ _ _ Han)). lia. }
  destruct (turns_run k s m Hin Hm ltac:(lia)) as ((Hin' & _ & Hg') & Hok & n & Hn & Ha).
  assert (n = top_number) as ->.
  { destruct Ha as (jade & floor & Hix & _). pose proof (ix_length _ _ _ _ _ _ _ _ Hix). lia. }
  split_and!; [done| |apply query_runs; [auto|congruence|done..]]. destruct Ha as (_ & _ & _ & _ & Hlive). auto.
Qed.
End Liveness.
