(* ===== verification/RefIndexService.v ===== *)
(** * The reference index as a service

    Models the background loop of [crates/reference-index/src/runtime.rs], which decides
    when the index takes a turn, and the RPC method of [crates/rpc/src/morph/handler.rs],
    which waits for the index and brackets a query between two reads of the chain tip.
    Instants and durations are nanoseconds. *)

From S2P Require Import Prelude.
From stdpp Require Import sorting.
From S2P Require Import Rlp.
From S2P Require Import MorphTx.
From S2P Require Import Envelope.
From S2P Require Import PayloadTypes.
From S2P Require Import Versioned.
From S2P Require Import RefIndex.
#[local] Open Scope Z_scope.

Definition from_millis (n : Z) : Z := n * 1000000.
Definition from_secs (n : Z) : Z := n * 1000000000.
Definition saturating_duration_since (now earlier : Z) : Z := Z.max (now - earlier) 0.

(** ** Rapid sync *)

Definition RAPID_SYNC_BLOCK_THRESHOLD : Z := 64.
Definition RAPID_SYNC_WINDOW : Z := from_secs 2.
Definition RECONCILE_POLL_INTERVAL : Z := from_secs 1.
Definition MAX_RETRY_BACKOFF : Z := from_secs 30.
Definition duration_max : Z := from_secs u64_max + 999999999.

Record RapidSyncDetector := { window_started : Z; blocks_in_window : Z }.

Definition detector_new (now : Z) : RapidSyncDetector := {| window_started := now; blocks_in_window := 0 |}.

Definition reset_expired_window (now : Z) (d : RapidSyncDetector) : RapidSyncDetector :=
  if RAPID_SYNC_WINDOW <=? saturating_duration_since now (window_started d)
  then {| window_started := now; blocks_in_window := 0 |} else d.

Definition record_blocks (now blocks : Z) (d : RapidSyncDetector) : RapidSyncDetector :=
  let d := reset_expired_window now d in
  {| window_started := window_started d; blocks_in_window := saturating_add u64_max (blocks_in_window d) blocks |}.

Definition record_lagged (now : Z) (d : RapidSyncDetector) : RapidSyncDetector :=
  let d := reset_expired_window now d in
  {| window_started := window_started d; blocks_in_window := RAPID_SYNC_BLOCK_THRESHOLD + 1 |}.

Definition should_defer (now : Z) (d : RapidSyncDetector) : bool * RapidSyncDetector :=
  let d := reset_expired_window now d in (RAPID_SYNC_BLOCK_THRESHOLD <? blocks_in_window d, d).

(** ** Notifications *)

(** What the loop reads of a [CanonStateNotification]: the lengths of its chains. *)
Record Notification := { committed_len : Z; reverted_len : option Z }.

Inductive PendingBroadcastEvent := Item (n : Notification) | Lagged (skipped : Z).

Definition observe_canonical_notification (now : Z) (n : Notification) (d : RapidSyncDetector) : RapidSyncDetector :=
  record_blocks now (committed_len n + default 0 (reverted_len n)) d.

Definition observe_lagged_notification (now : Z) (d : RapidSyncDetector) : RapidSyncDetector := record_lagged now d.

Definition observe (e : Z * PendingBroadcastEvent) (d : RapidSyncDetector) : RapidSyncDetector :=
  match e.2 with
  | Item n => observe_canonical_notification e.1 n d
  | Lagged _ => observe_lagged_notification e.1 d
  end.

(** The queued events, each with the instant at which it is observed: what
    [sync_requested] and the detector become. *)
Fixpoint drain_ready_broadcast (queue : list (Z * PendingBroadcastEvent)) (sync_requested : bool)
    (d : RapidSyncDetector) : bool * RapidSyncDetector :=
  match queue with
  | [] => (sync_requested, d)
  | e :: queue => drain_ready_broadcast queue true (observe e d)
  end.

(** ** The loop *)

(** How the blocking task of a turn ends.  It is cancelled before it starts; the tables of
    a turn that panics are those of a turn whose database breaks at that point. *)
Inductive JobOutcome (E : Type) := Finished | Cancelled | Panicked (broken : DbEnv E).
Arguments Finished {E}.
Arguments Cancelled {E}.
Arguments Panicked {E}.

(** What ends the wait of an iteration. *)
Inductive Wakeup := Notified (e : Z * PendingBroadcastEvent) | ChannelClosed | PollTick.

(** What happens around an iteration: the events in the channel and whether it is closed
    behind them, the instants of the two checks of the detector, the time that passes
    before the turn, how its task ends, and what the loop wakes up for. *)
Record Surroundings (E : Type) := {
  queued : list (Z * PendingBroadcastEvent);
  closed : bool;
  first_check : Z;
  second_check : Z;
  delay : nat;
  job : JobOutcome E;
  wakeup : Wakeup;
}.
Arguments queued {E}.
Arguments closed {E}.
Arguments first_check {E}.
Arguments second_check {E}.
Arguments delay {E}.
Arguments job {E}.
Arguments wakeup {E}.

(** The loop's variables; [running] is false once [run] has returned. *)
Record Loop (Tb : Type → Type → Type) := {
  index : Index Tb;
  detector : RapidSyncDetector;
  notifications_open : bool;
  sync_requested : bool;
  retry_backoff : Z;
  running : bool;
}.
Arguments index {Tb}.
Arguments detector {Tb}.
Arguments notifications_open {Tb}.
Arguments sync_requested {Tb}.
Arguments retry_backoff {Tb}.
Arguments running {Tb}.

(** The start of [run], after the first tick of the poll. *)
Definition loop_new {Tb} (i : Index Tb) (now : Z) : Loop Tb := {|
  index := i; detector := detector_new now; notifications_open := true; sync_requested := false;
  retry_backoff := from_secs 1; running := true |}.

Section Run.
Context {ETH AL SA SG E P : Type}.
Abbreviation envelope := (MorphTxEnvelope.MorphTxEnvelope ETH AL SA SG).
Abbreviation error := (ReferenceIndexError E P).
Context {Tb : Type → Type → Type} `{OrdTables Tb E}.
Context (tx_hash : envelope → B256) (env : DbEnv E) (chain : CanonicalChain envelope error).
Context (chain_id : Z) (genesis_hash : B256) (jade_timestamp : Z).
Abbreviation surroundings := (Surroundings E).
Abbreviation turn e := (synchronize_once tx_hash e chain chain_id genesis_hash jade_timestamp).

(** The events that are ready are drained first. *)
Definition drain_phase (w : surroundings) (l : Loop Tb) : Loop Tb :=
  if notifications_open l then
    let '(requested, d) := drain_ready_broadcast (queued w) (sync_requested l) (detector l) in
    {| index := index l; detector := d; notifications_open := negb (closed w); sync_requested := requested;
       retry_backoff := retry_backoff l; running := running l |}
  else l.

(** During rapid sync a deferred index is left alone. *)
Definition defer_phase (w : surroundings) (l : Loop Tb) : Loop Tb :=
  if sync_requested l then
    let '(defer, d) := should_defer (first_check w) (detector l) in
    {| index := index l; detector := d; notifications_open := notifications_open l;
       sync_requested := negb (defer && bool_decide (phase (index l) = Deferred));
       retry_backoff := retry_backoff l; running := running l |}
  else l.

(** The wait at the end of an iteration; a closed channel wakes nobody. *)
Definition select_phase (w : surroundings) (l : Loop Tb) : Loop Tb :=
  match wakeup w with
  | Notified e => if notifications_open l then
      {| index := index l; detector := observe e (detector l); notifications_open := true; sync_requested := true;
         retry_backoff := retry_backoff l; running := running l |} else l
  | ChannelClosed => if notifications_open l then
      {| index := index l; detector := detector l; notifications_open := false; sync_requested := true;
         retry_backoff := retry_backoff l; running := running l |} else l
  | PollTick =>
      {| index := index l; detector := detector l; notifications_open := notifications_open l; sync_requested := true;
         retry_backoff := retry_backoff l; running := running l |}
  end.

(** The turn of an iteration, and whether the wait follows it. *)
Definition turn_phase (w : surroundings) (l : Loop Tb) : Loop Tb * bool :=
  let '(defer, d) := should_defer (second_check w) (detector l) in
  let waited := Nat.iter (delay w) tick (index l) in
  let after i requested backoff alive := {| index := i; detector := d; notifications_open := notifications_open l;
    sync_requested := requested; retry_backoff := backoff; running := alive |} in
  match job w with
  | Cancelled => (after waited true (retry_backoff l) false, false)
  | Panicked broken => (after (set_phase Unavailable (turn broken defer waited).1) true (retry_backoff l) false, false)
  | Finished =>
      let '(i, result) := turn env defer waited in
      match result with
      | Ok _ =>
          let requested := bool_decide (phase i = Backfill) in (after i requested (from_secs 1) true, negb requested)
      | Err e =>
          if requires_manual_rebuild e then (after i true (retry_backoff l) false, false)
          else (after i true (Z.min (saturating_mul duration_max (retry_backoff l) 2) MAX_RETRY_BACKOFF) true, false)
      end
  end.

(** One iteration of [run]. *)
Definition run_iteration (w : surroundings) (l : Loop Tb) : Loop Tb :=
  if negb (running l) then l
  else
    let l := defer_phase w (drain_phase w l) in
    let '(l, wait) := if sync_requested l then turn_phase w l else (l, true) in
    if wait then select_phase w l else l.

Definition run (ws : list surroundings) (l : Loop Tb) : Loop Tb := foldl (λ l w, run_iteration w l) l ws.
End Run.

(** ** The RPC method *)

Definition INDEX_WAIT_TIMEOUT : Z := from_millis 300.
Definition INDEX_WAIT_POLL_INTERVAL : Z := from_millis 5.

Definition next_poll_delay (now deadline : Z) : option Z :=
  let remaining := saturating_duration_since deadline now in
  if remaining =? 0 then None else Some (Z.min INDEX_WAIT_POLL_INTERVAL remaining).

Record ErrorObjectOwned := { code : Z; message : string }.
Definition InvalidParams : Z := -32602.
Definition InternalError : Z := -32603.

(** [to_string] is the error's own text. *)
Definition to_rpc_error {E P} (to_string : ReferenceIndexError E P → string) (e : ReferenceIndexError E P)
  : ErrorObjectOwned :=
  match e with
  | Initializing => {| code := -32000; message := "reference index initializing" |}
  | IndexBehind => {| code := -32000; message := "reference index is behind" |}
  | IndexUnavailable => {| code := -32000; message := "reference index is unavailable" |}
  | LimitTooLarge _ | OffsetTooLarge _ => {| code := InvalidParams; message := to_string e |}
  | _ => {| code := InternalError; message := "internal reference index error" |}
  end.

Record ReferenceQueryArgs := { a_reference : bytes; a_offset : option Z; a_limit : option Z }.

Record ChainInfo := { best_number : Z; best_hash : B256 }.
#[global] Instance ChainInfo_eq_dec : EqDecision ChainInfo.
Proof. solve_decision. Defined.

(** What the method meets at each time: the provider, the index that the runtime is
    writing, the clock, and when a sleeping thread wakes. *)
Record RpcWorld (Tb : Type → Type → Type) (P : Type) := {
  chain_info_at : nat → result ChainInfo P;
  header_at : nat → B256 → result (option HeaderInfo) P;
  index_at : nat → Index Tb;
  clock_at : nat → Z;
  wake_at : nat → Z → nat;
}.
Arguments chain_info_at {Tb P}.
Arguments header_at {Tb P}.
Arguments index_at {Tb P}.
Arguments clock_at {Tb P}.
Arguments wake_at {Tb P}.

(** How an iteration of the method's loop ends. *)
Inductive Turnout := Answer (results : list ReferenceTransactionResult) | Retry.

(** The loop's wait guard. *)
Record RpcWaitGuard := { waited : bool; timed_out : bool }.

Section Rpc.
Context {E P : Type} {Tb : Type → Type → Type} `{OrdTables Tb E}.
Abbreviation error := (ReferenceIndexError E P).
Context (env : DbEnv E) (jade_timestamp : Z) (to_string : error → string) (world : RpcWorld Tb P).

(** The method's state is the time; [see] reads the world and takes time. *)
Abbreviation M := (sm nat error).
Definition see {A} (f : nat → result A error) : M A := λ t, (S t, f t).

Definition chain_info : M ChainInfo := see (λ t, map_err IndexProvider (chain_info_at world t)).

(** The tip that a query is made for. *)
Definition canonical_tip (before : ChainInfo) : M CanonicalTip :=
  header ← see (λ t, map_err IndexProvider (header_at world t (best_hash before)));
  header ← sm_lift (ok_or header IndexBehind);
  if negb (hi_number header =? best_number before) then sm_fail IndexBehind
  else mret {| tip_number := best_number before; tip_hash := best_hash before; tip_timestamp := hi_timestamp header |}.

(** An answer counts when the tip has not changed since. *)
Definition bracket (before : ChainInfo) (results : list ReferenceTransactionResult) : M Turnout :=
  after ← chain_info;
  if bool_decide (after = before) then mret (Answer results) else mret Retry.

Definition attempt (query : ReferenceQuery) : M Turnout :=
  before ← chain_info;
  tip ← canonical_tip before;
  if is_pre_jade jade_timestamp (tip_timestamp tip) then bracket before []
  else
    answer ← see (λ t, Ok (query_at (P := P) env query tip (index_at world t)).2);
    match answer with
    | Ok results => bracket before results
    | Err IndexBehind =>
        phase ← see (λ t, Ok (phase (index_at world t)));
        if bool_decide (phase = Deferred) || bool_decide (phase = PreJade) then sm_fail IndexBehind else mret Retry
    | Err other => sm_fail other
    end.

(** The loop, with the guard; [None] when [fuel] runs out. *)
Fixpoint wait_loop (fuel : nat) (query : ReferenceQuery) (deadline : Z) (wait : RpcWaitGuard) (t : nat)
  : option (nat * RpcWaitGuard * result (list ReferenceTransactionResult) error) :=
  match fuel with
  | O => None
  | S fuel =>
      if waited wait && (deadline <=? clock_at world t)
      then Some (S t, {| waited := waited wait; timed_out := true |}, Err IndexBehind)
      else
        match attempt query (S t) with
        | (t, Err e) => Some (t, wait, Err e)
        | (t, Ok (Answer results)) => Some (t, wait, Ok results)
        | (t, Ok Retry) =>
            match next_poll_delay (clock_at world t) deadline with
            | None => Some (S t, {| waited := true; timed_out := true |}, Err IndexBehind)
            | Some d => wait_loop fuel query deadline {| waited := true; timed_out := timed_out wait |} (wake_at world (S t) d)
            end
        end
  end.

(** Every wait is five milliseconds, or reaches the deadline: sixty waits, and an
    attempt before each and after the last. *)
Definition wait_fuel : nat := 61.

(** [get_transaction_hashes_by_reference], called at time [t]: when it returns, whether
    the wait counts as timed out, and the result. *)
Definition get_transaction_hashes_by_reference (args : ReferenceQueryArgs) (t : nat)
  : option (nat * bool * result (list ReferenceTransactionResult) ErrorObjectOwned) :=
  match query_new (a_reference args) (a_offset args) (a_limit args) with
  | Err e => Some (t, false, Err (to_rpc_error to_string e))
  | Ok query =>
      match wait_loop wait_fuel query (clock_at world t + INDEX_WAIT_TIMEOUT) {| waited := false; timed_out := false |} (S t) with
      | None => None
      | Some (t, wait, r) => Some (t, waited wait && timed_out wait, map_err (to_rpc_error to_string) r)
      end
  end.
End Rpc.
