(* ===== verification/RefIndexServing.v ===== *)
(** * What the reference index serves

    Theorems about [RefIndexService]: the loop keeps the index exact, whatever happens
    around it, and brings it to the head of a chain at rest; the RPC method answers
    with the page of the chain that is canonical when it returns, and always returns. *)

From S2P Require Import Prelude.
From stdpp Require Import sorting.
From S2P Require Import Rlp.
From S2P Require Import MorphTx.
From S2P Require Import Envelope.
From S2P Require Import PayloadTypes.
From S2P Require Import Versioned.
From S2P Require Import RefIndex.
From S2P Require Import RefIndexTables.
From S2P Require Import RefIndexSafety.
From S2P Require Import RefIndexLiveness.
From S2P Require Import RefIndexService.
#[local] Open Scope Z_scope.

Section Serving.
Context {ETH AL SA SG E P : Type}.
Abbreviation envelope := (MorphTxEnvelope.MorphTxEnvelope ETH AL SA SG).
Abbreviation block := (CanonicalBlock envelope).
Abbreviation error := (ReferenceIndexError E P).
Context {Tb : Type → Type → Type} `{OrdTablesLaws Tb E}.
Context (tx_hash : envelope → Z) (env : DbEnv E) (chain : CanonicalChain envelope error).
Context (chain_id : Z) (genesis_hash : Z) (jade_timestamp : Z).
Context (known : list block → Prop) (canon : nat → list block).
Abbreviation state := (Index Tb).
Abbreviation loop := (Loop Tb).
Abbreviation iteration := (run_iteration tx_hash env chain chain_id genesis_hash jade_timestamp).
Abbreviation run := (run tx_hash env chain chain_id genesis_hash jade_timestamp).
Abbreviation db_inv := (db_inv tx_hash jade_timestamp known).

Hypothesis tx_hash_nonneg : ∀ t, 0 ≤ tx_hash t.
Hypothesis Hknown : known_laws jade_timestamp known canon.
Hypothesis Hchain : chain_laws chain known canon.

(** ** The loop keeps the index exact *)

Lemma drain_index w (l : loop) : index (drain_phase (E := E) w l) = index l ∧ running (drain_phase w l) = running l.
Proof. unfold drain_phase. destruct (notifications_open l); [|done]. by destruct (drain_ready_broadcast _ _ _). Qed.

Lemma defer_index w (l : loop) : index (defer_phase (E := E) w l) = index l ∧ running (defer_phase w l) = running l.
Proof. unfold defer_phase. destruct (sync_requested l); [|done]. by destruct (should_defer _ _). Qed.

Lemma select_index w (l : loop) : index (select_phase (E := E) w l) = index l ∧ running (select_phase w l) = running l.
Proof. unfold select_phase. destruct (wakeup w), (notifications_open l); done. Qed.

Lemma ticks n (s : state) : disk (Nat.iter n tick s) = disk s ∧ installed (Nat.iter n tick s) = installed s
  ∧ phase (Nat.iter n tick s) = phase s ∧ unavailable (Nat.iter n tick s) = unavailable s
  ∧ now (Nat.iter n tick s) = (now s + n)%nat.
Proof.
  induction n as [|n IH]; [cbn; split_and!; [done..|lia]|]. destruct IH as (? & ? & ? & ? & ?).
  rewrite Nat.iter_succ. cbn. split_and!; [done..|lia].
Qed.

(** The turns of a run are quiet: the chain only grows while a turn runs, and may move in
    any way between turns. *)
Fixpoint calm (ws : list (Surroundings E)) (l : loop) : Prop :=
  match ws with
  | [] => True
  | w :: ws => quiet canon (now (index l) + delay w) (now (index (iteration w l))) ∧ calm ws (iteration w l)
  end.

Lemma turn_keeps env' defer (s : state) : db_inv (disk s) →
  let s' := (synchronize_once tx_hash env' chain chain_id genesis_hash jade_timestamp defer s).1 in
  quiet canon (now s) (now s') → db_inv (disk s').
Proof.
  intros Hinv. cbn. destruct (synchronize_once _ _ _ _ _ _ defer s) as [s' r] eqn:Hrun. cbn.
  by apply (turn_spec tx_hash env' chain chain_id genesis_hash jade_timestamp known canon tx_hash_nonneg Hknown Hchain defer s s' r).
Qed.

Lemma iteration_keeps w (l : loop) : db_inv (disk (index l)) →
  quiet canon (now (index l) + delay w) (now (index (iteration w l))) → db_inv (disk (index (iteration w l))).
Proof.
  intros Hinv. unfold run_iteration. destruct (running l); [|done]. cbn [negb].
  destruct (drain_index w l) as [Hd _], (defer_index w (drain_phase w l)) as [He _]. rewrite Hd in He.
  set (l1 := defer_phase w (drain_phase w l)) in *. rewrite <- He in Hinv |- *. clearbody l1.
  destruct (sync_requested l1); [|by destruct (select_index w l1) as [-> _]].
  destruct (ticks (delay w) (index l1)) as (Hdisk & _ & _ & _ & Hnow). set (s := Nat.iter (delay w) tick (index l1)) in *.
  rewrite <- Hdisk in Hinv. rewrite <- Hnow. unfold turn_phase. destruct (should_defer _ _) as [df d]. fold s.
  destruct (job w) as [| |broken].
  - pose proof (turn_keeps env df s Hinv) as Hk. cbn in Hk.
    destruct (synchronize_once _ _ _ _ _ _ df s) as [s' [u|e]]; cbn in Hk.
    + destruct (negb _); [rewrite (proj1 (select_index w _))|]; done.
    + destruct (requires_manual_rebuild e); done.
  - done.
  - pose proof (turn_keeps broken df s Hinv) as Hk. cbn in Hk |- *.
    destruct (synchronize_once _ _ _ _ _ _ df s) as [s' r]. cbn in *. destruct (set_phase_idle Unavailable s') as [-> _].
    unfold set_phase. by case_bool_decide.
Qed.

Lemma run_keeps ws (l : loop) : db_inv (disk (index l)) → calm ws l → db_inv (disk (index (run ws l))).
Proof.
  revert l. induction ws as [|w ws IH]; intros l Hinv Hc; [done|]. destruct Hc as [Hq Hc].
  apply (IH (iteration w l)); [by apply iteration_keeps|done].
Qed.

(** The variables of the loop have their machine types, the backoff is between one and
    thirty seconds, and the tables are exact. *)
Record loop_wf (l : loop) : Prop := {
  lw_backoff : from_secs 1 ≤ retry_backoff l ≤ MAX_RETRY_BACKOFF;
  lw_blocks : is_u64 (blocks_in_window (detector l));
  lw_index : db_inv (disk (index l));
}.

(** The chains of a notification have lengths. *)
Definition event_wf (e : Z * PendingBroadcastEvent) : Prop :=
  match e.2 with Item n => 0 ≤ committed_len n ∧ 0 ≤ default 0 (reverted_len n) | Lagged _ => True end.
Definition surroundings_wf (w : Surroundings E) : Prop :=
  Forall event_wf (queued w) ∧ match wakeup w with Notified e => event_wf e | _ => True end.

Lemma reset_u64 now d : is_u64 (blocks_in_window d) → is_u64 (blocks_in_window (reset_expired_window now d)).
Proof. unfold reset_expired_window. by destruct (_ <=? _). Qed.

Lemma observe_u64 e d : event_wf e → is_u64 (blocks_in_window d) → is_u64 (blocks_in_window (observe e d)).
Proof.
  destruct e as [now [n|skipped]]; cbn; intros He Hd; [|done].
  apply (reset_u64 now) in Hd. cbn in He. unfold saturating_add, in_range in *. lia.
Qed.

Lemma drain_u64 q r d : Forall event_wf q → is_u64 (blocks_in_window d) →
  is_u64 (blocks_in_window (drain_ready_broadcast q r d).2).
Proof.
  intros Hq. revert r d. induction Hq as [|e q He _ IH]; intros r d Hd; [done|]. cbn. apply IH. by apply observe_u64.
Qed.

Lemma backoff_bounds b : from_secs 1 ≤ b ≤ MAX_RETRY_BACKOFF →
  from_secs 1 ≤ Z.min (saturating_mul duration_max b 2) MAX_RETRY_BACKOFF ≤ MAX_RETRY_BACKOFF.
Proof.
  unfold duration_max, MAX_RETRY_BACKOFF, from_secs. ulia.
Qed.

(** The variables apart from the index. *)
Definition vars_wf (l : loop) : Prop :=
  from_secs 1 ≤ retry_backoff l ≤ MAX_RETRY_BACKOFF ∧ is_u64 (blocks_in_window (detector l)).

Lemma turn_phase_vars w (l : loop) : vars_wf l →
  vars_wf (turn_phase tx_hash env chain chain_id genesis_hash jade_timestamp w l).1.
Proof.
  intros [Hb Hd]. unfold turn_phase. destruct (should_defer _ _) as [df d] eqn:Hdf.
  assert (Hd' : is_u64 (blocks_in_window d)) by (injection Hdf as _ <-; by apply reset_u64).
  destruct (job w); [|by split..]. destruct (synchronize_once _ _ _ _ _ _ df _) as [s [u|e]]; cbn; [by split|].
  destruct (requires_manual_rebuild e); [by split|]. split; [|done]. by apply backoff_bounds.
Qed.

Lemma iteration_vars w (l : loop) : surroundings_wf w → vars_wf l → vars_wf (iteration w l).
Proof.
  intros [Hq Hw] Hl. unfold run_iteration. destruct (running l); [|done]. cbn [negb].
  assert (H1 : vars_wf (drain_phase w l)).
  { unfold drain_phase. destruct (notifications_open l); [|done]. pose proof (drain_u64 _ (sync_requested l) _ Hq (proj2 Hl)) as Hu.
    destruct (drain_ready_broadcast _ _ _). split; [apply Hl|done]. }
  assert (H2 : vars_wf (defer_phase w (drain_phase w l))).
  { unfold defer_phase. destruct (sync_requested _); [|done]. split; [apply H1|]. apply reset_u64, H1. }
  assert (Hsel : ∀ l', vars_wf l' → vars_wf (select_phase w l')).
  { intros l' [Hb Hd]. unfold select_phase. destruct (wakeup w) as [e| |], (notifications_open l'); try by split.
    split; [done|]. by apply observe_u64. }
  set (l1 := defer_phase w (drain_phase w l)) in *. destruct (sync_requested l1); [|by apply Hsel].
  pose proof (turn_phase_vars w l1 H2) as H3.
  destruct (turn_phase _ _ _ _ _ _ w l1) as [l2 [|]]; [by apply Hsel|done].
Qed.

Lemma run_vars ws (l : loop) : Forall surroundings_wf ws → vars_wf l → vars_wf (run ws l).
Proof.
  intros Hws. revert l. induction Hws as [|w ws Hw _ IH]; intros l Hl; [done|].
  apply (IH (iteration w l)). by apply iteration_vars.
Qed.

(** C38. The loop keeps its state well formed.  Under any notifications, failures,
    cancellations, panics and reorganizations, in any order, the retry backoff stays
    between one and thirty seconds and the block counter stays a 64-bit number.  The
    tables stay exactly those of a chain from the first Jade block up to the cursor, or
    empty, as long as no reorganization happens while a turn is running ([calm]): the
    chain may be reorganized between turns, and may grow at any time.
    [reorg_inside_turn_mixes_branches] shows that the proviso is needed. *)
Theorem loop_stays_well_formed ws (l : loop) : loop_wf l → Forall surroundings_wf ws →
  vars_wf (run ws l) ∧ (calm ws l → loop_wf (run ws l)).
Proof.
  intros [Hb Hd Hi] Hws. pose proof (run_vars ws l Hws (conj Hb Hd)) as Hv.
  split; [done|]. intros Hc. destruct Hv. split; [done..|]. by apply run_keeps.
Qed.

(** ** Answers *)

Context (to_string : error → string) (world : RpcWorld Tb P).

(** What the provider and the index show at each time: the tip of the canonical chain;
    headers that hash to the hash asked for; and tables that a run of the loop from
    empty ones has reached, a turn in progress being one that stops at that point. *)
Record world_laws : Prop := {
  wl_tip t i : chain_info_at world t = Ok i → ∃ b, last (canon t) = Some b ∧ i = {| best_number := cb_number b; best_hash := cb_hash b |};
  wl_header t h hd : header_at world t h = Ok (Some hd) → ∃ c b, known c ∧ 0 ≤ cb_number b ∧ c !! Z.to_nat (cb_number b) = Some b
    ∧ cb_hash b = h ∧ hi_number hd = cb_number b ∧ hi_timestamp hd = cb_timestamp b;
  wl_index t : ∃ ws l, fresh tx_hash (disk (index l)) ∧ calm ws l ∧ disk (index_at world t) = disk (index (run ws l));
  wl_clock t t' : (t ≤ t')%nat → clock_at world t ≤ clock_at world t';
  wl_wake t d : 0 ≤ d → (t ≤ wake_at world t d)%nat ∧ clock_at world t + d ≤ clock_at world (wake_at world t d);
}.
Hypothesis Hworld : world_laws.

Lemma index_inv t : db_inv (disk (index_at world t)).
Proof. destruct (wl_index Hworld t) as (ws & l & Hf & Hc & ->). apply run_keeps; [by left|done]. Qed.

(** Before Jade no block carries a reference. *)
Lemma page_pre_jade q t b : last (canon t) = Some b → cb_timestamp b < jade_timestamp → page tx_hash q (canon t) = [].
Proof.
  intros Hlast Hts. unfold page. destruct (last_canon _ _ _ Hknown _ _ Hlast) as (Hb0 & Hb & Hlen).
  assert (Hnum : numbered 0 (canon t)) by (intros i b' Hb'; by apply (kn_number _ _ _ Hknown _ _ _ (kn_canon _ _ _ Hknown t))).
  enough (reference_rows tx_hash (q_reference q) (canon t) = []) as -> by (cbn; by rewrite drop_nil, take_nil).
  destruct (reference_rows tx_hash (q_reference q) (canon t)) as [|[k v] rows] eqn:Hrows; [done|]. exfalso.
  assert (Hin : (k, v) ∈ reference_rows tx_hash (q_reference q) (canon t)) by (rewrite Hrows; left).
  apply (reference_rows_elem _ _ 0) in Hin as (_ & _ & b' & Hb' & (_ & tr & Htr & Href & _) & _); [|done].
  apply lookup_lt_Some in Hb' as Hlt.
  pose proof (kn_time _ _ _ Hknown _ _ _ _ _ (kn_canon _ _ _ Hknown t) Hb' Hb ltac:(lia)).
  rewrite (kn_plain _ _ _ Hknown (canon t) b' tr (kn_canon _ _ _ Hknown t)) in Href; [done|by eapply list_elem_of_lookup_2|lia|].
  by eapply list_elem_of_lookup_2.
Qed.

(** Two times with one tip have one chain. *)
Lemma same_tip t t' b b' : last (canon t) = Some b → last (canon t') = Some b' →
  cb_number b = cb_number b' → cb_hash b = cb_hash b' → canon t = canon t'.
Proof.
  intros Hl Hl' Hn Hh. destruct (last_canon _ _ _ Hknown _ _ Hl) as (_ & Hb & Hlen), (last_canon _ _ _ Hknown _ _ Hl') as (_ & Hb' & Hlen').
  rewrite <- Hn in Hb', Hlen'.
  pose proof (kn_hash _ _ _ Hknown _ _ _ _ _ (kn_canon _ _ _ Hknown t) (kn_canon _ _ _ Hknown t') Hb Hb' Hh) as Ht.
  rewrite !take_ge in Ht by lia. done.
Qed.

Abbreviation attempt := (attempt (P := P) env jade_timestamp world).

Lemma chain_info_run t t' i : chain_info (E := E) world t = (t', Ok i) → t' = S t ∧ ∃ b, last (canon t) = Some b
  ∧ i = {| best_number := cb_number b; best_hash := cb_hash b |}.
Proof. intros [= <- Hi%map_err_Ok]. split; [done|]. by apply (wl_tip Hworld). Qed.

(** The tip has the number, the hash and the time of the head. *)
Lemma canonical_tip_run t0 b t t' tip : last (canon t0) = Some b →
  canonical_tip (E := E) world {| best_number := cb_number b; best_hash := cb_hash b |} t = (t', Ok tip) →
  t' = S t ∧ tip = {| tip_number := cb_number b; tip_hash := cb_hash b; tip_timestamp := cb_timestamp b |}.
Proof.
  intros Hlast Hrun. unfold canonical_tip in Hrun. apply sm_bind_Ok in Hrun as (t1 & o & [= <- Ho%map_err_Ok] & Hrun).
  apply sm_bind_Ok in Hrun as (t2 & hd & [= <- ->%ok_or_Ok] & Hrun). cbn [best_number best_hash] in *.
  destruct (Z.eqb_spec (hi_number hd) (cb_number b)) as [Hn|Hn]; [|done]. injection Hrun as <- <-. split; [done|].
  destruct (wl_header Hworld _ _ _ Ho) as (c & b' & Hc & Hb0' & Hb' & Hh & Hn' & ->). f_equal.
  destruct (last_canon _ _ _ Hknown _ _ Hlast) as (_ & Hb & _). rewrite <- Hn, Hn' in Hb.
  pose proof (kn_hash _ _ _ Hknown _ _ _ _ _ Hc (kn_canon _ _ _ Hknown t0) Hb' Hb Hh) as Ht.
  assert (He : Some b' = Some b); [|congruence].
  rewrite <- Hb', <- Hb, <- (lookup_take_lt c (S (Z.to_nat (cb_number b')))) by lia. rewrite Ht. apply lookup_take_lt. lia.
Qed.

Lemma bracket_run t0 b res t t' res' : last (canon t0) = Some b →
  bracket (E := E) world {| best_number := cb_number b; best_hash := cb_hash b |} res t = (t', Ok (Answer res')) →
  res' = res ∧ canon (pred t') = canon t0.
Proof.
  intros Hlast Hrun. unfold bracket in Hrun. apply sm_bind_Ok in Hrun as (t1 & i & Hi & Hrun).
  apply chain_info_run in Hi as (-> & b' & Hlast' & ->). case_bool_decide as He; [|done]. injection Hrun as <- <-.
  split; [done|]. injection He as Hn Hh. cbn. by apply (same_tip t t0 b' b).
Qed.

Lemma attempt_answer q t t' res : 0 ≤ q_offset q → 0 ≤ q_limit q → attempt q t = (t', Ok (Answer res)) →
  res = page tx_hash q (canon (pred t')).
Proof.
  intros Ho Hl Hrun. unfold RefIndexService.attempt in Hrun. apply sm_bind_Ok in Hrun as (t1 & i & Hi & Hrun).
  apply chain_info_run in Hi as (-> & b & Hlast & ->). apply sm_bind_Ok in Hrun as (t2 & tip & Htip & Hrun).
  apply (canonical_tip_run t b) in Htip as [-> ->]; [|done]. cbn [tip_timestamp] in Hrun. unfold is_pre_jade in Hrun.
  destruct (Z.ltb_spec (cb_timestamp b) jade_timestamp) as [Hpre|Hpost].
  - apply (bracket_run t b) in Hrun as [-> ->]; [|done]. symmetry. by eapply page_pre_jade.
  - apply sm_bind_Ok in Hrun as (t3 & answer & [= <- Ha] & Hrun). destruct answer as [results|[]]; try done.
    + apply (bracket_run t b) in Hrun as [-> ->]; [|done].
      destruct (query_at env q _ (index_at world (S (S t)))) as [s' r] eqn:Hq. cbn in Ha. subst r.
      eapply (query_at_spec tx_hash); try done; [apply index_inv|]. exists b. done.
    + apply sm_bind_Ok in Hrun as (t4 & ph & [= <- <-] & Hrun). by destruct (_ || _).
Qed.

Lemma wait_loop_answer fuel q deadline w t t' w' res : 0 ≤ q_offset q → 0 ≤ q_limit q →
  wait_loop (P := P) env jade_timestamp world fuel q deadline w t = Some (t', w', Ok res) →
  res = page tx_hash q (canon (pred t')) ∧ timed_out w' = timed_out w.
Proof.
  intros Ho Hl. revert w t. induction fuel as [|fuel IH]; intros w t; [done|]. cbn [wait_loop].
  destruct (_ && _); [done|]. destruct (attempt q (S t)) as [t1 [[results|]|e]] eqn:Ha; [| |done].
  - intros [= <- <- <-]. split; [|done]. by eapply attempt_answer.
  - destruct (next_poll_delay _ _) as [d|]; [|done]. intros Hrun. apply IH in Hrun. done.
Qed.

(** What [query_new] accepts. *)
Lemma query_new_Ok r o l (q : ReferenceQuery) : query_new (E := E) (P := P) r o l = Ok q →
  q = {| q_reference := r; q_offset := default 0 o; q_limit := default DEFAULT_LIMIT l |} ∧ q_limit q ≤ MAX_LIMIT ∧ q_offset q ≤ MAX_OFFSET.
Proof.
  unfold query_new. intros [Hl [Ho [= <-]]%reject_Ok]%reject_Ok. bool_simp. cbn. split_and!; [done|lia|lia].
Qed.

(** C10. The RPC method answers with the canonical chain, from an index that no
    reorganization has caught in the middle of a turn.  The tables it reads are those of
    any run of the loop from empty ones, with any failures and notifications, during
    whose turns the chain only grew ([wl_index], [calm]; the chain may be reorganized
    between turns, and [reorg_inside_turn_mixes_branches] shows that the proviso is
    needed).  However else the chain and the index move while the method runs, an answer
    is exactly the page of the chain that is canonical at the method's last read, right
    before it returns: every transaction with the reference in chain order, after the
    offset and up to the limit, at most a hundred of them; and an answer is never
    counted as a timeout.  Before Jade the answer is empty and that is the page too. *)
Theorem rpc_answers_canonical args t t' timeout res :
  (∀ o, a_offset args = Some o → is_u64 o) → (∀ l, a_limit args = Some l → is_u64 l) →
  get_transaction_hashes_by_reference (P := P) env jade_timestamp to_string world args t = Some (t', timeout, Ok res) →
  res = page tx_hash {| q_reference := a_reference args; q_offset := default 0 (a_offset args);
                        q_limit := default DEFAULT_LIMIT (a_limit args) |} (canon (pred t'))
  ∧ (length res ≤ 100)%nat ∧ timeout = false.
Proof.
  intros Ho Hl. unfold get_transaction_hashes_by_reference. destruct (query_new _ _ _) as [q|e] eqn:Hq; [|done].
  apply query_new_Ok in Hq as (-> & Hlim & _). set (q := Build_ReferenceQuery _ _ _) in *.
  assert (Hoff : 0 ≤ q_offset q) by (cbn; destruct (a_offset args) as [o|]; cbn; [apply (Ho o eq_refl)|lia]).
  assert (Hlim0 : 0 ≤ q_limit q) by (cbn; destruct (a_limit args) as [l|]; cbn; [apply (Hl l eq_refl)|done]).
  destruct (wait_loop _ _ _ _ _ _ _) as [[[t1 w] r]|] eqn:Hw; [|done]. intros [= <- <- Hr]. apply map_err_Ok in Hr. subst r.
  apply wait_loop_answer in Hw as [-> Ht]; [|done..]. split_and!; [done| |rewrite Ht; apply andb_false_r].
  unfold page. rewrite length_take. unfold MAX_LIMIT in Hlim. lia.
Qed.

(** ** The method returns *)

Lemma attempt_time q t : (t ≤ (attempt q t).1)%nat.
Proof.
  assert (Hb : ∀ i res u, (u ≤ (bracket (E := E) world i res u).1)%nat).
  { intros i res u. unfold bracket, mbind, sm_bind, chain_info, see. cbn. destruct (map_err _ _); [|cbn; lia].
    case_bool_decide; cbn; lia. }
  unfold RefIndexService.attempt, mbind, sm_bind, chain_info, see. cbn.
  destruct (map_err _ (chain_info_at world t)) as [i|]; [|cbn; lia].
  unfold canonical_tip, mbind, sm_bind, see, sm_lift. cbn. destruct (map_err _ (header_at world _ _)) as [o|]; [|cbn; lia].
  destruct (ok_or o _) as [hd|]; [|cbn; lia]. destruct (negb _); [cbn; lia|]. cbn.
  destruct (is_pre_jade _ _); [specialize (Hb i [] (S (S t))); lia|].
  destruct (query_at _ _ _ _).2 as [res|[]]; cbn; try lia; [specialize (Hb i res (S (S (S t)))); lia|].
  destruct (_ || _); cbn; lia.
Qed.

Lemma wait_loop_returns n fuel q deadline w t : (n < fuel)%nat → deadline - clock_at world t ≤ INDEX_WAIT_POLL_INTERVAL * Z.of_nat n →
  timed_out w = false →
  ∃ t' w' r, wait_loop (P := P) env jade_timestamp world fuel q deadline w t = Some (t', w', r) ∧ (t ≤ t')%nat
    ∧ (timed_out w' = true → r = Err IndexBehind ∧ deadline ≤ clock_at world t').
Proof.
  revert fuel w t. induction n as [|n IH]; intros [|fuel] w t Hf Hd Hw; try lia; cbn [wait_loop];
    (destruct (waited w && (deadline <=? clock_at world t)) eqn:Hexp;
      [bool_simp; do 3 eexists; split_and!; [done|lia|]; intros _; split; [done|];
       pose proof (wl_clock Hworld t (S t) ltac:(lia)); lia|]);
    pose proof (attempt_time q (S t)) as Hat; destruct (attempt q (S t)) as [t1 [[res|]|e]]; cbn in Hat;
    try (do 3 eexists; split_and!; [done|lia|]; rewrite Hw; discriminate);
    pose proof (wl_clock Hworld t t1 ltac:(lia)) as Hclock; pose proof (wl_clock Hworld t1 (S t1) ltac:(lia)) as Hclock';
    unfold next_poll_delay, saturating_duration_since.
  - rewrite (proj2 (Z.eqb_eq _ 0)) by lia. do 3 eexists. split_and!; [done|lia|]. intros _. split; [done|lia].
  - destruct (Z.eqb_spec (Z.max (deadline - clock_at world t1) 0) 0) as [Hz|Hz].
    { do 3 eexists. split_and!; [done|lia|]. intros _. split; [done|lia]. }
    set (d := Z.min _ _). destruct (wl_wake Hworld (S t1) d) as [Hwake Hslept]; [unfold d, INDEX_WAIT_POLL_INTERVAL, from_millis; lia|].
    edestruct (IH fuel) as (t' & w' & r & Hrun & Ht' & Hres); [lia| | |exists t', w', r; split_and!; [exact Hrun|lia|exact Hres]].
    + assert (Hdd : d = Z.min INDEX_WAIT_POLL_INTERVAL (Z.max (deadline - clock_at world t1) 0)) by done. clearbody d.
      unfold INDEX_WAIT_POLL_INTERVAL, from_millis in *. lia.
    + done.
Qed.

(** The RPC method returns.  Called at any time it makes at most sixty-one attempts and
    returns; when it reports a timeout, the 300 milliseconds have passed and the error is
    that the index is behind. *)
Theorem rpc_returns args t : ∃ t' timeout r,
  get_transaction_hashes_by_reference (P := P) env jade_timestamp to_string world args t = Some (t', timeout, r)
  ∧ (t ≤ t')%nat ∧ (timeout = true → clock_at world t + INDEX_WAIT_TIMEOUT ≤ clock_at world t'
       ∧ r = Err {| code := -32000; message := "reference index is behind" |}).
Proof.
  unfold get_transaction_hashes_by_reference. destruct (query_new _ _ _) as [q|e]; [|by do 3 eexists; split_and!].
  destruct (wait_loop_returns 60 wait_fuel q (clock_at world t + INDEX_WAIT_TIMEOUT) {| waited := false; timed_out := false |} (S t))
    as (t' & w' & r & -> & Ht & Hres); [unfold wait_fuel; lia| |done|].
  - pose proof (wl_clock Hworld t (S t) ltac:(lia)). unfold INDEX_WAIT_TIMEOUT, INDEX_WAIT_POLL_INTERVAL, from_millis. lia.
  - do 3 eexists. split_and!; [done|lia|]. intros [_ Hto]%andb_true_iff. destruct (Hres Hto) as [-> ?]. done.
Qed.

(** ** The loop reaches the head *)

Context (c : list block) (fin : option Z) (top : block).
Hypothesis Htotal : total_tables (Tb := Tb) (E := E).
Hypothesis Henv : steady_env env.
Hypothesis Hrest : resting chain canon c fin.
Hypothesis Htop : last c = Some top.
Hypothesis top_jade : jade_timestamp ≤ cb_timestamp top.
Hypothesis Hid : is_u64 chain_id ∧ is_u256 genesis_hash.
Abbreviation head := (Build_CanonicalTip (cb_number top) (cb_hash top) (cb_timestamp top)).
Abbreviation openable := (openable tx_hash chain_id genesis_hash).
Abbreviation startable := (startable tx_hash jade_timestamp known c fin top).
Abbreviation arrived := (arrived tx_hash jade_timestamp known c top).

(** Nothing happens around the iteration but the tick of the poll. *)
Definition undisturbed (w : Surroundings E) : Prop := queued w = [] ∧ job w = Finished ∧ wakeup w = PollTick.

(** The detector without events: as it was, or reset. *)
Definition calmer (d d' : RapidSyncDetector) : Prop := d' = d ∨ blocks_in_window d' = 0.

Lemma reset_calmer now d d0 : calmer d0 d → calmer d0 (reset_expired_window now d).
Proof. unfold reset_expired_window. destruct (_ <=? _); [by right|done]. Qed.

Lemma should_defer_expired now d0 d : calmer d0 d → window_started d0 + RAPID_SYNC_WINDOW ≤ now →
  (should_defer now d).1 = false ∧ blocks_in_window (should_defer now d).2 = 0.
Proof.
  intros Hc Hnow. unfold should_defer. cbn.
  enough (Hz : blocks_in_window (reset_expired_window now d) = 0) by by rewrite Hz.
  unfold reset_expired_window, saturating_duration_since. destruct (Z.leb_spec RAPID_SYNC_WINDOW (Z.max (now - window_started d) 0)); [done|].
  destruct Hc as [->|Hc]; [|done]. unfold RAPID_SYNC_WINDOW, from_secs in *. lia.
Qed.

(** Where the loop can be while it waits for the window to pass. *)
Record waiting (d0 : RapidSyncDetector) (m : Z) (l : loop) : Prop := {
  wt_running : running l = true;
  wt_openable : openable (index l);
  wt_gated : gated (index l);
  wt_startable : ∃ m', m ≤ m' ∧ startable (disk (index l)) m';
  wt_calmer : calmer d0 (detector l);
}.

Lemma ticks_ready n (s : state) : (openable s → openable (Nat.iter n tick s)) ∧ (gated s → gated (Nat.iter n tick s))
  ∧ ∀ m, startable (disk s) m → startable (disk (Nat.iter n tick s)) m.
Proof.
  destruct (ticks n s) as (Hd & Hi & Hp & Hu & _). unfold RefIndexLiveness.openable, gated. rewrite Hd, Hi, Hp, Hu. done.
Qed.

Lemma top_facts : 0 ≤ cb_number top ∧ length c = S (Z.to_nat (cb_number top)).
Proof. destruct (top_spec chain jade_timestamp known canon Hknown c fin Hrest top Htop) as (? & _ & ? & _). done. Qed.

(** The cursor is [n] and the database is open. *)
Definition landed (s : state) (n : Z) : Prop := arrived s n ∧ installed s = true.

Lemma arrived_range (s : state) n : arrived s n → 0 ≤ n ≤ cb_number top ∧ startable (disk s) n.
Proof.
  intros Ha. split; [|by eapply (arrived_startable tx_hash chain jade_timestamp known canon)]. destruct Ha as (jade & floor & Hix & _).
  pose proof (ix_range _ _ _ _ _ _ _ _ Hix). pose proof (ix_length _ _ _ _ _ _ _ _ Hix).
  destruct top_facts. lia.
Qed.

(** A turn, deferred or not, leaves an index from which turns go on. *)
Lemma turn_ready defer (s : state) m : openable s → gated s → startable (disk s) m →
  ∃ s', synchronize_once tx_hash env chain chain_id genesis_hash jade_timestamp defer s = (s', Ok tt)
    ∧ openable s' ∧ gated s' ∧ (if defer then startable (disk s') m
        else ∃ n, Z.min (m + 512) (cb_number top) ≤ n ∧ landed s' n).
Proof.
  intros Hop Hg Hst. destruct defer.
  - edestruct (deferred_turn_runs tx_hash env chain chain_id genesis_hash jade_timestamp known canon) as (s' & [] & Hrun & (Hin & _ & Hg') & Hst' & _);
      [done..|exact Hop|exact Hst|]. exists s'. split_and!; [done|by left|auto|done].
  - edestruct (turn_runs tx_hash env chain chain_id genesis_hash jade_timestamp known canon) as (s' & [] & Hrun & (Hin & _ & Hg') & n & Hn & Ha);
      [done..|exact Hop|exact Hst|]. exists s'. split_and!; [done|by left|auto|by exists n].
Qed.

(** What the checks before the turn leave. *)
Lemma checks_spec d0 w (l : loop) : undisturbed w → calmer d0 (detector l) →
  let l1 := defer_phase w (drain_phase w l) in
  calmer d0 (detector l1)
  ∧ (sync_requested l = true → window_started d0 + RAPID_SYNC_WINDOW ≤ first_check w →
       sync_requested l1 = true ∧ blocks_in_window (detector l1) = 0).
Proof.
  intros (Hq & _ & _) Hc l1.
  assert (Hdrain : detector (drain_phase w l) = detector l ∧ sync_requested (drain_phase w l) = sync_requested l).
  { unfold drain_phase. rewrite Hq. by destruct (notifications_open l). }
  destruct Hdrain as [Hd Hs]. unfold l1, defer_phase. rewrite Hs. destruct (sync_requested l); [|split; [by rewrite Hd|done]].
  rewrite Hd. split.
  - destruct (should_defer _ _) as [df d] eqn:Hdf. unfold should_defer in Hdf. injection Hdf as <- <-. by apply reset_calmer.
  - intros _ Hnow. destruct (should_defer_expired (first_check w) d0 (detector l) Hc Hnow) as [Hf Hz].
    destruct (should_defer _ _) as [df d]. cbn in *. by subst df.
Qed.

Lemma turn_phase_spec d0 m w (l : loop) : undisturbed w → waiting d0 m l → calmer d0 (detector l) →
  waiting d0 m (turn_phase tx_hash env chain chain_id genesis_hash jade_timestamp w l).1
  ∧ let '(l', wait) := turn_phase tx_hash env chain chain_id genesis_hash jade_timestamp w l in
    (wait = false → sync_requested l' = true)
    ∧ (blocks_in_window (detector l) = 0 → ∃ n, Z.min (m + 512) (cb_number top) ≤ n ∧ landed (index l') n).
Proof.
  intros (_ & Hj & _) [Hr Hop Hg (m' & Hm & Hst) _] Hc. unfold turn_phase. rewrite Hj.
  destruct (should_defer (second_check w) (detector l)) as [df d] eqn:Hdf.
  destruct (ticks_ready (delay w) (index l)) as (Hop' & Hg' & Hst').
  destruct (turn_ready df _ m' (Hop' Hop) (Hg' Hg) (Hst' _ Hst)) as (s' & -> & Hop2 & Hg2 & Hst2).
  assert (Hd : calmer d0 d).
  { unfold should_defer in Hdf. injection Hdf as _ <-. by apply reset_calmer. }
  cbn. split; [split; cbn; [done..| |done]|split].
  - destruct df; [by exists m'|]. destruct Hst2 as (n & Hn & [[Hrange Ha]%arrived_range _]).
    destruct (decide (m ≤ n)); [by exists n|]. exists m'. split; [done|]. exfalso.
    enough (m' ≤ cb_number top) by lia. destruct Hst as [[_ ->]|(c1 & n1 & j1 & fl1 & Han1)]; [lia|exact (an_top _ _ _ _ _ _ _ _ _ _ _ _ Han1)].
  - intros Hf%negb_false_iff. done.
  - intros Hz. assert (df = false) as ->.
    { unfold should_defer, reset_expired_window in Hdf. destruct (_ <=? _); cbn in Hdf; [|rewrite Hz in Hdf]; by injection Hdf. }
    destruct Hst2 as (n & Hn & Ha). exists n. split; [lia|done].
Qed.

Lemma iteration_spec d0 m w (l : loop) : undisturbed w → waiting d0 m l →
  waiting d0 m (iteration w l) ∧ sync_requested (iteration w l) = true
  ∧ (sync_requested l = true → window_started d0 + RAPID_SYNC_WINDOW ≤ first_check w →
       ∃ n, Z.min (m + 512) (cb_number top) ≤ n ∧ landed (index (iteration w l)) n).
Proof.
  intros Hw Hwt. unfold run_iteration. rewrite (wt_running _ _ _ Hwt). cbn [negb].
  destruct (drain_index w l) as [Hi1 Hr1], (defer_index w (drain_phase w l)) as [Hi2 Hr2]. rewrite Hi1 in Hi2. rewrite Hr1 in Hr2.
  destruct (checks_spec d0 w l Hw (wt_calmer _ _ _ Hwt)) as [Hc Hgo]. set (l1 := defer_phase w (drain_phase w l)) in *.
  assert (Hwt1 : waiting d0 m l1).
  { destruct Hwt as [Hr Hop Hg Hst _]. split; rewrite ?Hi2, ?Hr2; done. }
  assert (Hsel : ∀ l2, waiting d0 m l2 → waiting d0 m (select_phase w l2) ∧ sync_requested (select_phase w l2) = true
    ∧ index (select_phase w l2) = index l2).
  { intros l2 [Hr Hop Hg Hst Hd]. destruct Hw as (_ & _ & Hwake). unfold select_phase. rewrite Hwake. done. }
  destruct (sync_requested l1) eqn:Hs1.
  - destruct (turn_phase_spec d0 m w l1 Hw Hwt1 Hc) as [Hwt2 Ht].
    destruct (turn_phase tx_hash env chain chain_id genesis_hash jade_timestamp w l1) as [l2 wait]. cbn in Hwt2. destruct Ht as [Hreq Harr].
    destruct wait.
    + destruct (Hsel l2 Hwt2) as (? & ? & ->). split_and!; [done..|]. intros Hreq' Hnow. by apply Harr, Hgo.
    + split_and!; [done|auto|]. intros Hreq' Hnow. by apply Harr, Hgo.
  - destruct (Hsel l1 Hwt1) as (? & ? & ->). split_and!; [done..|]. intros Hreq' Hnow. by destruct (Hgo Hreq' Hnow).
Qed.

Lemma run_waits d0 m ws (l : loop) : Forall undisturbed ws → waiting d0 m l → waiting d0 m (run ws l).
Proof.
  intros Hws. revert l. induction Hws as [|w ws Hw _ IH]; intros l Hl; [done|]. apply (IH (iteration w l)).
  by apply iteration_spec.
Qed.

(** Iterations after the window advance the index by a batch each. *)
Lemma run_advances d0 m ws (l : loop) : Forall undisturbed ws →
  Forall (λ w, window_started d0 + RAPID_SYNC_WINDOW ≤ first_check w) ws → ws ≠ [] → waiting d0 m l → sync_requested l = true →
  running (run ws l) = true ∧ gated (index (run ws l))
  ∧ ∃ n, Z.min (m + 512 * Z.of_nat (length ws)) (cb_number top) ≤ n ∧ landed (index (run ws l)) n.
Proof.
  intros Hws. revert m l. induction Hws as [|w ws Hw Hws IH]; intros m l Hnow Hne Hl Hs; [done|].
  apply Forall_cons in Hnow as [Hnow1 Hnow]. destruct (iteration_spec d0 m w l Hw Hl) as (Hl' & Hs' & Hadv).
  destruct (Hadv Hs Hnow1) as (n & Hn & Ha). destruct ws as [|w' ws].
  { cbn. split_and!; [apply Hl'|apply Hl'|]. exists n. split; [lia|done]. }
  assert (Hl2 : waiting d0 n (iteration w l)).
  { destruct Hl' as [Hr Hop Hg _ Hd]. split; try done. exists n. split; [done|]. by apply arrived_range, Ha. }
  destruct (IH n (iteration w l) Hnow ltac:(done) Hl2 Hs') as (Hr & Hg & n' & Hn' & Ha').
  split_and!; [done..|]. exists n'. cbn [length] in *. split; [lia|done].
Qed.

(** C11. The background loop reaches the head.  Let the canonical chain rest and nothing
    fail, whatever bursts of notifications came before.  Once the rapid-sync window has
    passed, the loop takes a turn in each iteration, and after as many as cover the chain
    in batches of 512 blocks, and one more, it is still running, the index is live, and a
    query at the head answers with the page of the chain. *)
Theorem run_reaches_live ws1 ws2 (l : loop) m q : running l = true → openable (index l) → gated (index l) →
  startable (disk (index l)) m → Forall undisturbed (ws1 ++ ws2) →
  Forall (λ w, window_started (detector l) + RAPID_SYNC_WINDOW ≤ first_check w) ws2 →
  Z.of_nat (length c) + 512 ≤ 512 * Z.of_nat (length ws2) → 0 ≤ q_offset q → 0 ≤ q_limit q →
  running (run (ws1 ++ ws2) l) = true ∧ phase (index (run (ws1 ++ ws2) l)) = IsLive
  ∧ (query_at (P := P) env q head (index (run (ws1 ++ ws2) l))).2 = Ok (page tx_hash q c).
Proof.
  intros Hr Hop Hg Hst Hws Hnow Hlen Ho Hl. apply Forall_app in Hws as [Hws1 Hws2].
  unfold RefIndexService.run. rewrite foldl_app.
  assert (Hwt : waiting (detector l) (-1) (run ws1 l)).
  { apply run_waits; [done|]. split; [done..| |by left]. exists m. split; [|done]. destruct Hst as [[_ ->]|(c0 & n & j & fl & Han)]; [done|].
    pose proof (an_range _ _ _ _ _ _ _ _ _ _ _ _ Han). pose proof (ix_range _ _ _ _ _ _ _ _ (an_indexes _ _ _ _ _ _ _ _ _ _ _ _ Han)). lia. }
  destruct ws2 as [|w ws2]; [cbn in Hlen; lia|]. apply Forall_cons in Hws2 as [Hw Hws2], Hnow as [Hnow1 Hnow]. cbn [foldl].
  change (foldl _ l ws1) with (run ws1 l). destruct (iteration_spec _ _ w _ Hw Hwt) as (Hwt' & Hs' & _).
  destruct top_facts as [Ht0 Hcl].
  destruct (run_advances _ _ ws2 _ Hws2 Hnow ltac:(intros ->; cbn in Hlen; lia) Hwt' Hs') as (Hr' & Hg' & n & Hn & Ha & Hin).
  cbn [length] in Hlen. assert (n = cb_number top) as -> by (apply arrived_range in Ha as [? _]; lia).
  change (foldl _ (iteration w (run ws1 l)) ws2) with (run ws2 (iteration w (run ws1 l))).
  split_and!; [done|by destruct Ha as (_ & _ & _ & _ & Hlive); apply Hlive|].
  by apply (query_runs tx_hash env chain jade_timestamp known canon tx_hash_nonneg Hknown Htotal Henv c fin Hrest top Htop).
Qed.
End Serving.
