(* ===== verification/RefIndexRuns.v ===== *)
(** * Runs of the reference index

    Executable tables for [RefIndex], runs of the index over small chains, and the
    reorganization that a turn does not notice. *)

From S2P Require Import Prelude.
From stdpp Require Import sorting.
From S2P Require Import Rlp.
From S2P Require Import MorphTx.
From S2P Require Import Envelope.
From S2P Require Import PayloadTypes.
From S2P Require Import Versioned.
From S2P Require Import HistoryWrites.
From S2P Require Import ProofsStore.
From S2P Require Import StoreSafety.
From S2P Require Import RefIndex.
From S2P Require Import RefIndexTables.
From S2P Require Import RefIndexSafety.
From S2P Require Import RefIndexLiveness.
From S2P Require Import RefIndexService.
From S2P Require Import RefIndexServing.
#[local] Open Scope Z_scope.

(** ** Tables *)

Module ListTables.
Import ListStore.

Section Keys.
Context {K V : Type} `{KeyOrdLaws K}.
Definition key_le (k1 k2 : K) : Prop := ¬ key_lt k2 k1.
#[global] Instance key_le_dec : RelDecision key_le.
Proof. intros k1 k2. unfold key_le. apply _. Defined.
#[global] Instance key_le_total : Total key_le.
Proof.
  intros k1 k2. unfold key_le. destruct (key_lt_total k1 k2) as [Hk|[->|Hk]].
  - left. intros Hk'. apply (irreflexivity key_lt k1). by etrans.
  - left. apply irreflexivity, _.
  - right. intros Hk'. apply (irreflexivity key_lt k1). by etrans.
Qed.
#[global] Instance key_le_trans : Transitive key_le.
Proof.
  intros k1 k2 k3 H12 H23 H31. destruct (key_lt_total k1 k2) as [Hk|[->|Hk]]; [|by destruct H23|by destruct H12].
  apply H23. by etrans.
Qed.

(** The keys that satisfy a test, in order. *)
Definition ordered_keys (p : K → bool) (t : plain K V) : list K :=
  merge_sort key_le (List.filter p (remove_dups (map fst t))).

Lemma elem_of_ordered_keys p t k : k ∈ ordered_keys p t ↔ k ∈ map fst t ∧ p k = true.
Proof.
  unfold ordered_keys. rewrite merge_sort_Permutation, list_elem_of_In, filter_In, <- list_elem_of_In.
  by rewrite elem_of_remove_dups.
Qed.

Lemma ordered_keys_sorted p t : StronglySorted key_lt (ordered_keys p t).
Proof.
  assert (Hnd : NoDup (ordered_keys p t)).
  { unfold ordered_keys. rewrite merge_sort_Permutation.
    apply NoDup_ListNoDup, List.NoDup_filter, NoDup_ListNoDup, NoDup_remove_dups. }
  assert (Hs : StronglySorted key_le (ordered_keys p t)) by apply (StronglySorted_merge_sort key_le).
  revert Hnd Hs. generalize (ordered_keys p t). induction 2 as [|k l Hs IH Hk]; [constructor|].
  apply NoDup_cons in Hnd as [Hkl Hnd]. constructor; [by apply IH|]. apply Forall_forall. intros k' Hk'.
  rewrite Forall_forall in Hk. specialize (Hk _ Hk'). destruct (key_lt_total k k') as [?|[->|?]]; [done..|]. by destruct Hk.
Qed.
End Keys.

Definition from_key {K} `{KeyOrd K} (ko : option K) (k : K) : bool :=
  match ko with Some k0 => negb (bool_decide (key_lt k k0)) | None => true end.

#[global] Instance list_tables : OrdTables plain string := {
  t_get K V _ k t := Ok (item_of t k);
  t_put K V _ k v t := Ok (put k v t);
  t_delete K V _ k t := Ok (remove k t);
  t_entries K V _ t := Ok (Z.of_nat (length t));
  t_from K V _ ko t := Ok (walk (ordered_keys (from_key ko) t) t);
}.

#[global] Instance list_tables_laws : OrdTablesLaws plain string.
Proof.
  refine {| row K V _ t k := item_of t k |}.
  - done.
  - intros K V ? ? k v t k'. apply item_of_put.
  - intros K V ? ? k t k'. apply item_of_remove.
  - intros K V ? ? t. cbn. split.
    + intros Hl k. destruct t; [done|cbn in Hl; lia].
    + intros Hn. destruct t as [|[k v] t]; [done|]. specialize (Hn k). rewrite item_of_cons, bool_decide_true in Hn; done.
  - intros K V ? ? ko t. cbn. split; [apply walk_sorted, ordered_keys_sorted|]. intros k v.
    rewrite elem_of_walk, elem_of_ordered_keys. unfold from_key. split.
    + intros [[_ Hk] Hi]. split; [done|]. destruct ko; [|done]. by apply negb_true_iff, bool_decide_eq_false in Hk.
    + intros [Hi Hk]. split_and!; [by eapply item_of_member| |done]. destruct ko; [|done].
      by apply negb_true_iff, bool_decide_eq_false.
Defined.
End ListTables.

(** ** Chains *)

Module IndexSamples.
Import ListTables ListStore.
Abbreviation envelope := (MorphTxEnvelope.MorphTxEnvelope unit unit unit unit).
Abbreviation block := (CanonicalBlock envelope).
Abbreviation error := (ReferenceIndexError string string).
Abbreviation tables := (IndexDb plain).
Abbreviation state := (Index plain).

(** A transaction with a reference; its nonce stands for its hash. *)
Definition ref_tx (nonce : Z) (r : bytes) : envelope :=
  MorphTxEnvelope.Morph {| MorphTxEnvelope.tx := {|
    TxMorph.chain_id := 2818; TxMorph.nonce := nonce; TxMorph.gas_limit := 21000; TxMorph.max_fee_per_gas := 2;
    TxMorph.max_priority_fee_per_gas := 1; TxMorph.to := Call 0x33; TxMorph.value := 0; TxMorph.access_list := tt;
    TxMorph.version := 1; TxMorph.fee_token_id := 0; TxMorph.fee_limit := 0; TxMorph.reference := Some r;
    TxMorph.memo := None; TxMorph.authorization_list := []; TxMorph.input := [] |}; MorphTxEnvelope.signature := tt |}.
Definition tx_hash (e : envelope) : Z :=
  match e with MorphTxEnvelope.Morph t => Z.abs (TxMorph.nonce (MorphTxEnvelope.tx t)) | _ => 0 end.

Definition r1 : bytes := repeat 1 32.
Definition r2 : bytes := repeat 2 32.

Definition mk (n h ts : Z) (txs : list envelope) : block :=
  {| cb_number := n; cb_hash := h; cb_timestamp := ts; cb_transactions := txs |}.
Definition b0 : block := mk 0 100 10 [ref_tx 1 r1].
(** Two branches on it. *)
Definition a1 : block := mk 1 111 20 [ref_tx 2 r2; ref_tx 3 r1].
Definition a2 : block := mk 2 121 30 [].
Definition b1 : block := mk 1 112 20 [ref_tx 4 r1].
Definition b2 : block := mk 2 122 30 [ref_tx 5 r1; ref_tx 6 r1].

Definition branch_a1 : list block := [b0; a1].
Definition branch_a : list block := [b0; a1; a2].
Definition branch_b : list block := [b0; b1; b2].
Definition known (c : list block) : Prop := c = branch_a1 ∨ c = branch_a ∨ c = branch_b.

(** A chain that is canonical until a time, and another one from then on. *)
Definition switch (t : nat) (before after : list block) : nat → list block := λ u, if (u <? t)%nat then before else after.

(** A provider over the canonical chain of each time; it never fails. *)
Definition nth_block (c : list block) (n : Z) : option block := if n <? 0 then None else c !! Z.to_nat n.
Definition chain_of (canon : nat → list block) : CanonicalChain envelope error := {|
  head_at t := match last (canon t) with
    | Some b => Ok {| tip_number := cb_number b; tip_hash := cb_hash b; tip_timestamp := cb_timestamp b |}
    | None => Err (IndexOther "missing canonical head") end;
  canonical_hash_at t n := Ok (cb_hash <$> nth_block (canon t) n);
  block_timestamp_at t n := Ok (cb_timestamp <$> nth_block (canon t) n);
  finalized_block_number_at t := Ok None;
  canonical_blocks_at t lo hi := Ok (take (Z.to_nat (hi - lo + 1)) (drop (Z.to_nat lo) (canon t)));
|}.
Definition steady : DbEnv string :=
  {| env_init _ := Ok tt; env_tx _ := Ok tt; env_tx_mut _ := Ok tt; env_commit _ := Ok tt |}.

Definition empty : tables := {|
  d_reference_index := []; d_block_reference_index := []; d_indexed_blocks := []; d_index_meta := [] |}.

Definition turn (canon : nat → list block) (s : state) : state * result unit error :=
  synchronize_once tx_hash steady (chain_of canon) 2818 7 10 false s.
Definition wait_until (t : nat) (s : state) : state := Nat.iter (t - now s) tick s.

(** *** The chains satisfy the laws *)

Lemma branches_number c i b : known c → c !! i = Some b → cb_number b = Z.of_nat i.
Proof. intros [->|[->| ->]]; destruct i as [|[|[|i]]]; cbn; intros [= <-]; done. Qed.

Lemma branches_hash c c' i b b' : known c → known c' → c !! i = Some b → c' !! i = Some b' →
  cb_hash b = cb_hash b' → take (S i) c = take (S i) c'.
Proof.
  intros [->|[->| ->]] [->|[->| ->]]; destruct i as [|[|[|i]]]; cbn; intros [= <-] [= <-]; try done; intros [=].
Qed.

Lemma branches_time c i j b b' : known c → c !! i = Some b → c !! j = Some b' → (i ≤ j)%nat →
  cb_timestamp b ≤ cb_timestamp b'.
Proof.
  intros [->|[->| ->]]; destruct i as [|[|[|i]]], j as [|[|[|j]]]; cbn; intros [= <-] [= <-] Hij; cbn; lia.
Qed.

Lemma sample_known canon : (∀ t, known (canon t)) → known_laws 10 known canon.
Proof.
  intros Hcanon. split.
  - exact branches_number.
  - intros c [->|[->| ->]]; vm_compute; discriminate.
  - exact branches_hash.
  - exact branches_time.
  - intros c b t [->|[->| ->]] Hb Hts _; exfalso; unfold branch_a1, branch_a, branch_b in Hb;
      repeat (apply elem_of_cons in Hb as [->|Hb]; [cbn in Hts; lia|]); by apply elem_of_nil in Hb.
  - exact Hcanon.
Qed.

Lemma nth_block_Some c n b : nth_block c n = Some b → 0 ≤ n ∧ c !! Z.to_nat n = Some b.
Proof. unfold nth_block. destruct (Z.ltb_spec n 0); [done|]. by split. Qed.

Lemma sample_chain canon : (∀ t, known (canon t)) → chain_laws (chain_of canon) known canon.
Proof.
  intros Hcanon. split.
  - intros t tip. cbn. destruct (last (canon t)) as [b|]; [|done]. intros [= <-]. eauto.
  - intros t n h. cbn. destruct (nth_block (canon t) n) as [b|] eqn:Hb; cbn; [|done]. intros [= <-].
    apply nth_block_Some in Hb as [??]. eauto.
  - intros t n ts. cbn. destruct (nth_block (canon t) n) as [b|] eqn:Hb; cbn; [|done]. intros [= <-].
    apply nth_block_Some in Hb as [??]. eauto.
  - intros t lo hi bs b [= <-] Hb. exists (canon t). split; [done|].
    apply list_elem_of_lookup in Hb as [i Hi]. apply lookup_take_Some in Hi as [Hi _]. rewrite lookup_drop in Hi.
    rewrite (branches_number _ _ _ (Hcanon t) Hi), Nat2Z.id. split; [lia|done].
Qed.

Lemma switch_quiet t c c' t0 t1 : (t1 < t)%nat ∨ (t ≤ t0)%nat → quiet (switch t c c') t0 t1.
Proof.
  intros Ht u u' Hu Hu'. unfold switch. destruct (Nat.ltb_spec u t), (Nat.ltb_spec u' t); try done; lia.
Qed.

Lemma fresh_empty : fresh tx_hash empty.
Proof. split; [split|done|done]; cbn; try done; naive_solver. Qed.

(** A run: the index follows branch A; the chain moves to branch B; the next turn
    rolls back the abandoned block and indexes the new ones. *)
Definition moved : nat → list block := switch 40 branch_a1 branch_b.
Definition start : state := handle_new empty 0.
Definition indexed_a : state := (turn moved start).1.
Definition indexed_b : state := (turn moved (wait_until 40 indexed_a)).1.

Lemma moved_known t : known (moved t).
Proof. unfold moved, switch, known. destruct (t <? 40)%nat; auto. Qed.

Lemma wait_reachable canon jade n s : reachable tx_hash steady (chain_of canon) 2818 7 jade canon s →
  reachable tx_hash steady (chain_of canon) 2818 7 jade canon (Nat.iter n tick s).
Proof. intros Hs. induction n as [|n IH]; [done|]. by constructor. Qed.

Lemma indexed_b_reachable : reachable tx_hash steady (chain_of moved) 2818 7 10 moved indexed_b.
Proof.
  apply (reach_turn _ _ _ _ _ _ _ (wait_until 40 indexed_a) false indexed_b (turn moved (wait_until 40 indexed_a)).2).
  - apply wait_reachable.
    apply (reach_turn _ _ _ _ _ _ _ start false indexed_a (turn moved start).2);
      [apply reach_new, fresh_empty| |exact (surjective_pairing (turn moved start))].
    apply switch_quiet. left. vm_compute. lia.
  - apply switch_quiet. right. vm_compute. lia.
  - exact (surjective_pairing (turn moved (wait_until 40 indexed_a))).
Qed.

Definition query (r : bytes) (offset limit : Z) : ReferenceQuery :=
  {| q_reference := r; q_offset := offset; q_limit := limit |}.
End IndexSamples.
Import ListTables ListStore IndexSamples.

Lemma query_returns_canonical_page_witness :
  map transaction_hash (page tx_hash (query r1 1 2) branch_b) = [4; 5]
  ∧ ∃ res, (query_at (P := string) steady (query r1 1 2) (Build_CanonicalTip 2 122 30) indexed_b).2 = Ok res
      ∧ res = page tx_hash (query r1 1 2) (moved 61).
Proof.
  split; [vm_compute; reflexivity|]. eexists. split; [vm_compute; reflexivity|].
  simple refine (query_returns_canonical_page tx_hash steady (chain_of moved) 2818 7 10 known moved _
    (sample_known _ moved_known) (sample_chain _ moved_known) indexed_b (query r1 1 2) (Build_CanonicalTip 2 122 30) 61
    (tick indexed_b) _ indexed_b_reachable _ _ _ _).
  - intros []; cbn; lia.
  - vm_compute. reflexivity.
  - cbn. lia.
  - cbn. lia.
  - vm_compute. reflexivity.
Defined.

(** *** Catching up after a reorganization *)

Lemma list_tables_total : total_tables (Tb := plain) (E := string).
Proof. split; intros; by eexists. Qed.

Lemma steady_steady : steady_env steady.
Proof. by split. Qed.

Lemma sample_resting c : resting (chain_of (λ _, c)) (λ _, c) c None.
Proof.
  split; try done.
  - intros t b Hb. cbn. by rewrite Hb.
  - intros t n b Hn Hb. cbn. unfold nth_block. rewrite (proj2 (Z.ltb_ge _ _)) by lia. by rewrite Hb.
  - intros t n. by eexists.
  - intros t n b Hn Hb. cbn. unfold nth_block. rewrite (proj2 (Z.ltb_ge _ _)) by lia. by rewrite Hb.
Qed.

(** An index that has followed the first blocks of branch A; then the chain is branch B. *)
Definition on_a : state := (turn (λ _, branch_a1) start).1.

Lemma sample_identity : is_u64 2818 ∧ is_u256 7.
Proof. split; done. Qed.

Lemma start_openable : openable tx_hash 2818 7 start.
Proof. right; right. split_and!; [apply fresh_empty|done..]. Qed.

Lemma encode_u64_inj n m : is_u64 n → is_u64 m → encode_u64 n = encode_u64 m → n = m.
Proof.
  intros Hn Hm He. enough (Hok : Ok n = (Ok m : result Z error)) by congruence.
  rewrite <- (u64_codec n Hn), <- (u64_codec m Hm). by rewrite He.
Qed.

Lemma on_a_indexes : indexes tx_hash 10 known (disk on_a) branch_a1 1 0 0.
Proof.
  assert (Hk : ∀ _ : nat, known branch_a1) by by left.
  destruct (turn_runs tx_hash steady (chain_of (λ _, branch_a1)) 2818 7 10 known (λ _, branch_a1) ltac:(intros []; cbn; lia)
    (sample_known _ Hk) (sample_chain _ Hk) list_tables_total steady_steady branch_a1 None (sample_resting _) a1 eq_refl ltac:(cbn; lia) sample_identity
    start (-1) start_openable ltac:(left; split; [apply fresh_empty|done]))
    as (s' & [] & Hrun & _ & n & Hn & jade & floor & Hix & Hfl & _).
  assert (s' = on_a) as -> by (unfold on_a, turn; by rewrite Hrun). clear Hrun.
  pose proof (indexes_cursor_range _ _ _ _ (sample_known _ Hk) _ _ _ _ _ Hix) as [Hn64 _].
  pose proof (jade_range _ _ _ _ (sample_known _ Hk) _ _ _ _ _ Hix) as Hj64.
  destruct Hix as [Hkn Hr Hl Hj Hc Hf [E1 E2 E3 E4]].
  assert (n = 1) as ->.
  { apply encode_u64_inj; [done|done|]. apply (inj Some). rewrite <- Hc. vm_compute. reflexivity. }
  assert (jade = 0) as ->.
  { apply encode_u64_inj; [done|done|]. apply (inj Some). rewrite <- Hf. vm_compute. reflexivity. }
  split; [done|lia|done|done|done|done|]. split; [done..|]. intros m b Hm _. unfold span in Hm.
  destruct (Z.leb_spec 0 m), (Z.leb_spec m 1); try done. assert (m = 0 ∨ m = 1) as [-> | ->] by lia;
    cbn in Hm; injection Hm as <-; vm_compute; reflexivity.
Qed.

Lemma index_catches_up_witness :
  phase on_a = IsLive
  ∧ (phase (turns tx_hash steady (chain_of (λ _, branch_b)) 2818 7 10 1 on_a) = IsLive
     ∧ (query_at (P := string) steady (query r1 0 100) (Build_CanonicalTip 2 122 30)
          (turns tx_hash steady (chain_of (λ _, branch_b)) 2818 7 10 1 on_a)).2 = Ok (page tx_hash (query r1 0 100) branch_b)).
Proof.
  split; [vm_compute; reflexivity|].
  simple refine (proj2 (index_catches_up tx_hash steady (chain_of (λ _, branch_b)) 2818 7 10 known (λ _, branch_b) _
    (sample_known _ (λ _, or_intror (or_intror eq_refl))) (sample_chain _ (λ _, or_intror (or_intror eq_refl))) list_tables_total steady_steady branch_b None (sample_resting _)
    b2 eq_refl _ sample_identity on_a 0 1 (query r1 0 100) _ _ _ _ _ _)).
  - intros []; cbn; lia.
  - cbn. lia.
  - vm_compute. reflexivity.
  - left. vm_compute. reflexivity.
  - right. exists branch_a1, 1, 0, 0. split; [exact on_a_indexes|lia|lia|cbn; lia|reflexivity|right; discriminate].
  - vm_compute. discriminate.
  - cbn. lia.
  - cbn. lia.
Defined.

(** *** The loop and the RPC method *)

(** An iteration at a second, without events. *)
Definition at_second (n : Z) : Surroundings string := {|
  queued := []; closed := false; first_check := from_secs n; second_check := from_secs n; delay := 3;
  job := Finished; wakeup := PollTick |}.

(** A loop that has just seen a hundred blocks, over the index of branch A. *)
Definition bursting : Loop plain := {|
  index := on_a; detector := record_blocks 0 100 (detector_new 0); notifications_open := true; sync_requested := true;
  retry_backoff := from_secs 1; running := true |}.

Lemma run_reaches_live_witness :
  phase (index (run tx_hash steady (chain_of (λ _, branch_b)) 2818 7 10 [at_second 1] bursting)) = Deferred
  ∧ let l := run tx_hash steady (chain_of (λ _, branch_b)) 2818 7 10 ([at_second 1] ++ [at_second 2; at_second 3]) bursting in
    running l = true ∧ phase (index l) = IsLive
    ∧ (query_at (P := string) steady (query r1 0 100) (Build_CanonicalTip 2 122 30) (index l)).2
      = Ok (page tx_hash (query r1 0 100) branch_b).
Proof.
  split; [vm_compute; reflexivity|].
  simple refine (run_reaches_live tx_hash steady (chain_of (λ _, branch_b)) 2818 7 10 known (λ _, branch_b) _
    (sample_known _ (λ _, or_intror (or_intror eq_refl))) (sample_chain _ (λ _, or_intror (or_intror eq_refl))) branch_b None b2 list_tables_total steady_steady (sample_resting _)
    eq_refl _ sample_identity [at_second 1] [at_second 2; at_second 3] bursting 0 (query r1 0 100) _ _ _ _ _ _ _ _ _).
  - intros []; cbn; lia.
  - cbn. lia.
  - reflexivity.
  - left. vm_compute. reflexivity.
  - vm_compute. reflexivity.
  - right. exists branch_a1, 1, 0, 0. split; [exact on_a_indexes|lia|lia|cbn; lia|reflexivity|right; discriminate].
  - repeat constructor.
  - repeat constructor; vm_compute; discriminate.
  - vm_compute. discriminate.
  - cbn. lia.
  - cbn. lia.
Defined.

(** A run with a burst, a failing database and a panic. *)
Definition broken : DbEnv string :=
  {| env_init _ := Ok tt; env_tx _ := Ok tt; env_tx_mut _ := Err "disk full"; env_commit _ := Ok tt |}.
Definition rough : list (Surroundings string) := [
  {| queued := [(0, Item {| committed_len := 40; reverted_len := Some 2 |}); (1, Lagged 3)]; closed := false;
     first_check := 2; second_check := 3; delay := 1; job := Finished; wakeup := PollTick |};
  {| queued := []; closed := true; first_check := from_secs 3; second_check := from_secs 3; delay := 2;
     job := Panicked broken; wakeup := ChannelClosed |}].

Lemma loop_stays_well_formed_witness :
  blocks_in_window (detector (run tx_hash steady (chain_of (λ _, branch_b)) 2818 7 10 (take 1 rough) (loop_new start 0))) = 65
  ∧ phase (index (run tx_hash steady (chain_of (λ _, branch_b)) 2818 7 10 rough (loop_new start 0))) = Unavailable
  ∧ loop_wf tx_hash 10 known (run tx_hash steady (chain_of (λ _, branch_b)) 2818 7 10 rough (loop_new start 0)).
Proof.
  split; [vm_compute; reflexivity|]. split; [vm_compute; reflexivity|].
  simple refine (proj2 (loop_stays_well_formed tx_hash steady (chain_of (λ _, branch_b)) 2818 7 10 known (λ _, branch_b) _
    (sample_known _ (λ _, or_intror (or_intror eq_refl))) (sample_chain _ (λ _, or_intror (or_intror eq_refl)))
    rough (loop_new start 0) _ _) _).
  - intros []; cbn; lia.
  - split; [vm_compute; split; discriminate|done|left; apply fresh_empty].
  - repeat constructor; cbn; lia.
  - cbn. split_and!; try done; intros ? ? _ _; done.
Defined.

(** A world at rest on branch B, a millisecond a step, with the index that two
    iterations from empty tables leave. *)
Definition caught_up : Loop plain :=
  run tx_hash steady (chain_of (λ _, branch_b)) 2818 7 10 [at_second 1; at_second 2] (loop_new start 0).
Definition header_of (h : Z) : option HeaderInfo :=
  b ← List.find (λ b, cb_hash b =? h) branch_b;
  Some {| hi_number := cb_number b; hi_hash := cb_hash b; hi_timestamp := cb_timestamp b |}.
Definition world_b : RpcWorld plain string := {|
  chain_info_at _ := Ok {| best_number := 2; best_hash := 122 |};
  header_at _ h := Ok (header_of h);
  index_at _ := index caught_up;
  clock_at t := from_millis (Z.of_nat t);
  wake_at t d := (t + S (Z.to_nat (d / from_millis 1)))%nat;
|}.

Lemma world_b_laws : world_laws tx_hash steady (chain_of (λ _, branch_b)) 2818 7 10 known (λ _, branch_b) world_b.
Proof.
  split.
  - intros t i [= <-]. exists b2. done.
  - intros t h hd Hf. change (Ok (header_of h) = Ok (Some hd) :> result _ string) in Hf.
    assert (Hf' : header_of h = Some hd) by congruence. clear Hf. rename Hf' into Hf. unfold header_of in Hf.
    destruct (List.find _ branch_b) as [b|] eqn:Hb; [|done]. injection Hf as <-. apply List.find_some in Hb as [Hin Hh%Z.eqb_eq].
    exists branch_b, b. cbn. destruct Hin as [<-|[<-|[<-|[]]]]; (split_and!; [right; by right|cbn; lia|done..]).
  - intros t. exists [at_second 1; at_second 2], (loop_new start 0). split_and!; [apply fresh_empty| |done].
    cbn. split_and!; try done; intros ? ? _ _; done.
  - intros t t' Ht. cbn. unfold from_millis. lia.
  - intros t d Hd. cbn. split; [lia|]. unfold from_millis. rewrite Nat2Z.inj_add, Nat2Z.inj_succ.
    pose proof (Z.div_mod d (1 * 1000000) ltac:(lia)). pose proof (Z.mod_pos_bound d (1 * 1000000) ltac:(lia)).
    pose proof (Z.div_pos d (1 * 1000000) Hd ltac:(lia)). rewrite Z2Nat.id by done. lia.
Qed.

Definition args : ReferenceQueryArgs := {| a_reference := r1; a_offset := Some 1; a_limit := None |}.

Lemma rpc_answers_canonical_witness : ∃ t' res,
  get_transaction_hashes_by_reference (P := string) steady 10 (λ _, "error") world_b args 5 = Some (t', false, Ok res)
  ∧ map transaction_hash res = [4; 5; 6]
  ∧ (res = page tx_hash (query r1 1 100) branch_b ∧ (length res ≤ 100)%nat ∧ false = false).
Proof.
  exists 11%nat. eexists. split; [vm_compute; reflexivity|]. split; [reflexivity|].
  simple refine (rpc_answers_canonical tx_hash steady (chain_of (λ _, branch_b)) 2818 7 10 known (λ _, branch_b) _
    (sample_known _ (λ _, or_intror (or_intror eq_refl))) (sample_chain _ (λ _, or_intror (or_intror eq_refl))) (λ _, "error") world_b world_b_laws
    args 5 11 false _ _ _ _).
  - intros []; cbn; lia.
  - intros o [= <-]. done.
  - discriminate.
  - vm_compute. reflexivity.
Defined.

Lemma rpc_returns_witness : ∃ t' timeout r,
  get_transaction_hashes_by_reference (P := string) steady 10 (λ _, "error") world_b args 5 = Some (t', timeout, r)
  ∧ (5 ≤ t')%nat ∧ (timeout = true → clock_at world_b 5 + INDEX_WAIT_TIMEOUT ≤ clock_at world_b t'
       ∧ r = Err {| code := -32000; message := "reference index is behind" |}).
Proof.
  exact (rpc_returns tx_hash steady (chain_of (λ _, branch_b)) 2818 7 10 known (λ _, branch_b) (λ _, "error") world_b
    world_b_laws args 5).
Defined.

(** *** A reorganization inside a turn *)

(** Branch A grows while the index rests; branch B replaces it just after the turn has
    found the cursor's block canonical and before it reads the next blocks. *)
Definition moved_inside : nat → list block :=
  λ t, if (t <? 40)%nat then branch_a1 else if (t <? 46)%nat then branch_a else branch_b.
Definition mixed : state := (turn moved_inside (wait_until 40 (turn moved_inside start).1)).1.

(** C12. A reorganization inside a turn mixes branches.  The turn checks that the block
    at the cursor is canonical, then reads and checks the blocks above it, but not that
    they are linked to it.  When the chain is reorganized in between, the index keeps the
    rows of the abandoned block below and commits the new blocks above; it reports itself
    live, answers queries at the new head with a transaction that is not on the chain and
    without one that is, and no later turn repairs it. *)
Theorem reorg_inside_turn_mixes_branches :
  phase mixed = IsLive
  ∧ head_at (chain_of moved_inside) (now mixed) = Ok (Build_CanonicalTip 2 122 30)
  ∧ (∃ res, (query_at (P := string) steady (query r1 0 100) (Build_CanonicalTip 2 122 30) mixed).2 = Ok res
       ∧ map transaction_hash res = [1; 3; 5; 6])
  ∧ map transaction_hash (page tx_hash (query r1 0 100) (moved_inside (now mixed))) = [1; 4; 5; 6]
  ∧ (turn moved_inside mixed).2 = Ok tt ∧ disk (turn moved_inside mixed).1 = disk mixed.
Proof. split_and!; [..|eexists; split| | |]; vm_compute; reflexivity. Qed.
