(* ===== verification/Precompiles.v ===== *)
(** * Precompiles and opcodes

    The precompile sets of each hardfork (revm/src/precompiles.rs), which are built from
    revm's Berlin and Osaka sets by replacing and adding entries, and the opcodes that the
    Morph EVM replaces (revm/src/evm.rs): BLOCKHASH, and the disabled ones.

    revm's sets are parameters: a precompile's identifier and result are abstract types,
    and [halt] is [PrecompileOutput::halt] of [PrecompileHalt::other].  An execution that
    panics is [None]. *)

From stdpp Require Import gmap.
From S2P Require Import Prelude.
From S2P Require Import Hardfork.
From S2P Require Import Rlp.
From S2P Require Import PayloadTypes.

(** ** Addresses *)

Definition ECRECOVER : Address := 1.
Definition SHA256 : Address := 2.
Definition RIPEMD160 : Address := 3.
Definition IDENTITY : Address := 4.
Definition MODEXP : Address := 5.
Definition BN256_ADD : Address := 6.
Definition BN256_MUL : Address := 7.
Definition BN256_PAIRING : Address := 8.
Definition BLAKE2F : Address := 9.
Definition POINT_EVALUATION : Address := 10.
Definition BLS12_G1ADD : Address := 0x0b.
Definition BLS12_G1MULTIEXP : Address := 0x0c.
Definition BLS12_G2ADD : Address := 0x0d.
Definition BLS12_G2MULTIEXP : Address := 0x0e.
Definition BLS12_PAIRING : Address := 0x0f.
Definition BLS12_MAP_FP_TO_G1 : Address := 0x10.
Definition BLS12_MAP_FP2_TO_G2 : Address := 0x11.
Definition P256_VERIFY : Address := 256.

(** ** Sets *)

(** [Precompile]: its identifier, its address and its function of input, gas limit and
    reservoir. *)
Record Precompile (Id PR : Type) := {
  pc_id : Id;
  pc_address : Address;
  execute : bytes → Z → Z → option PR;
}.
Arguments pc_id {Id PR}.
Arguments pc_address {Id PR}.
Arguments execute {Id PR}.
Arguments Build_Precompile {Id PR}.

(** [Precompiles], by address; [extend] replaces the entry of an address. *)
Abbreviation Precompiles Id PR := (gmap Z (Precompile Id PR)).

Definition extend {Id PR} (ps : list (Precompile Id PR)) (m : Precompiles Id PR) : Precompiles Id PR :=
  fold_left (λ m p, <[pc_address p := p]> m) ps m.

(** [if let Some(p) = from.get(&addr) { precompiles.extend([p.clone()]) }] *)
Definition extend_from {Id PR} (from : Precompiles Id PR) (addr : Address) (m : Precompiles Id PR) : Precompiles Id PR :=
  match from !! addr with Some p => extend [p] m | None => m end.

(** [buf] is the data at the offset, padded with zeros on the right. *)
Definition modexp_len_exceeds_32 (data : bytes) (offset : nat) : bool :=
  let start := Nat.min offset (length data) in
  let stop := Nat.min (offset + 32) (length data) in
  let n := (stop - start)%nat in
  let buf := take n (drop start data) ++ repeat 0 (32 - n) in
  existsb (λ b, negb (b =? 0)) (take 31 buf) || (32 <? nth 31 buf 0).

Section Sets.
Context {Id PR : Type} (Ripemd160 Blake2F ModExp Bn254Pairing : Id).
Context (halt : string → Z → PR).
Context (berlin osaka : Precompiles Id PR).
Abbreviation precompile := (Precompile Id PR).
Abbreviation precompiles := (Precompiles Id PR).

Definition ripemd160_disabled (_ : bytes) (_ reservoir : Z) : option PR :=
  Some (halt "ripemd160 precompile disabled in Bernoulli/Curie hardfork" reservoir).

Definition blake2f_disabled (_ : bytes) (_ reservoir : Z) : option PR :=
  Some (halt "blake2f precompile disabled in Bernoulli/Curie hardfork" reservoir).

Definition modexp_with_32byte_limit (input : bytes) (gas_limit reservoir : Z) : option PR :=
  if modexp_len_exceeds_32 input 0 || modexp_len_exceeds_32 input 32 || modexp_len_exceeds_32 input 64 then
    Some (halt "modexp temporarily only accepts inputs of 32 bytes (256 bits) or less" reservoir)
  else berlin !! MODEXP ≫= λ p, execute p input gas_limit reservoir.

Definition bn256_pairing_with_4pair_limit (input : bytes) (gas_limit reservoir : Z) : option PR :=
  if 4 * 192 <? len input then Some (halt "bad elliptic curve pairing size" reservoir)
  else berlin !! BN256_PAIRING ≫= λ p, execute p input gas_limit reservoir.

Definition bernoulli : precompiles :=
  let m := extend [Build_Precompile Ripemd160 RIPEMD160 ripemd160_disabled;
                   Build_Precompile Blake2F BLAKE2F blake2f_disabled] berlin in
  extend [Build_Precompile ModExp MODEXP modexp_with_32byte_limit] m.

Definition morph203 : precompiles :=
  let m := extend_from berlin BLAKE2F bernoulli in
  let m := extend_from berlin RIPEMD160 m in
  extend [Build_Precompile Bn254Pairing BN256_PAIRING bn256_pairing_with_4pair_limit] m.

Definition emerald : precompiles :=
  let m := extend_from osaka MODEXP morph203 in
  let m := fold_left (λ m addr, extend_from osaka addr m)
    [BLS12_G1ADD; BLS12_G1MULTIEXP; BLS12_G2ADD; BLS12_G2MULTIEXP; BLS12_PAIRING; BLS12_MAP_FP_TO_G1;
     BLS12_MAP_FP2_TO_G2] m in
  extend_from osaka P256_VERIFY m.

(** [MorphPrecompiles]; the inner provider's own hardfork is always the default. *)
Record MorphPrecompiles := {
  inner : precompiles;
  mp_spec : MorphHardfork;
}.

Definition new_with_spec (spec : MorphHardfork) : MorphPrecompiles := {|
  inner := match spec with
           | Bernoulli | Curie => bernoulli
           | Morph203 | Viridian => morph203
           | Emerald | Jade | Celadon => emerald
           end;
  mp_spec := spec |}.

Definition contains (p : MorphPrecompiles) (address : Address) : bool := bool_decide (is_Some (inner p !! address)).

Definition set_spec (spec : MorphHardfork) (p : MorphPrecompiles) : MorphPrecompiles * bool :=
  if bool_decide (spec = mp_spec p) then (p, false) else (new_with_spec spec, true).

(** [warm_addresses]: the addresses of the set. *)
Definition warm_addresses (p : MorphPrecompiles) : gset Z := dom (inner p).
End Sets.

(** ** Opcodes *)

Definition as_u64_saturated (value : Z) : Z :=
  let limb i := Z.land (Z.shiftr value (64 * i)) u64_max in
  if (limb 1 =? 0) && (limb 2 =? 0) && (limb 3 =? 0) then limb 0 else u64_max.

Definition BLOCK_HASH_HISTORY : Z := 256.

Section Opcodes.
Context (keccak256 : bytes → Z).

Definition morph_blockhash_value (chain_id number : Z) : Z :=
  keccak256 (be_word 8 chain_id ++ be_word 8 number).

Definition morph_blockhash_result (chain_id current_number requested_number : Z) : Z :=
  let lower := Z.max 0 (current_number - BLOCK_HASH_HISTORY) in
  if (lower <=? requested_number) && (requested_number <? current_number)
  then morph_blockhash_value chain_id requested_number else 0.

(** The instruction, on the stack with its top first; [None] is the stack underflow. *)
Definition blockhash_morph (block_number chain_id : Z) (stack : list Z) : option (list Z) :=
  match stack with
  | [] => None
  | number :: rest =>
      Some (morph_blockhash_result (as_u64_saturated chain_id) (as_u64_saturated block_number) (as_u64_saturated number)
            :: rest)
  end.

(** The instruction table that [MorphEvm::new] builds: instructions with their static
    gas, by opcode; [unknown] is [Instruction::unknown]. *)
Definition install {I : Type} (blockhash unknown : I) (BLOCKHASH : Z) (mainnet : Z → I * Z) : Z → I * Z :=
  let insert op i gas t := λ o, if o =? op then (i, gas) else t o in
  insert 0x4a unknown 0 (insert 0x49 unknown 0 (insert 0xff unknown 0 (insert 0x40 blockhash BLOCKHASH mainnet))).
End Opcodes.

(** ** Lemmas *)

(** *** Lengths of modexp *)

(** The word of [data] at an offset, as [getData] reads it. *)
Definition word_at (data : bytes) (offset : nat) : Z :=
  Standard.of_be (take 32 (drop offset data ++ repeat 0 32)).

Lemma of_be_app b c : Standard.of_be (b ++ c) = Standard.of_be b * 256 ^ len c + Standard.of_be c.
Proof.
  unfold Standard.of_be. rewrite rev_app_distr. unfold len. rewrite <- (length_rev c).
  induction (rev c) as [|x l IH]; cbn [Standard.of_le app length]; [lia|].
  rewrite IH, Nat2Z.inj_succ, Z.pow_succ_r by lia. ring.
Qed.

Lemma of_le_zero b : Forall is_byte b → 0 ≤ Standard.of_le b ∧ (Standard.of_le b = 0 ↔ existsb (λ x, negb (x =? 0)) b = false).
Proof.
  induction 1 as [|x b [Hx _] Hb [IH0 IH]]; [done|]. cbn [Standard.of_le existsb]. split; [lia|].
  rewrite orb_false_iff, negb_false_iff, Z.eqb_eq, <- IH. lia.
Qed.

Lemma existsb_rev {A} (f : A → bool) l : existsb f (rev l) = existsb f l.
Proof. apply eq_true_iff_eq. rewrite !existsb_exists. by setoid_rewrite <- in_rev. Qed.

Lemma padded_slice (data : bytes) offset :
  take (Nat.min (offset + 32) (length data) - Nat.min offset (length data)) (drop (Nat.min offset (length data)) data)
    ++ repeat 0 (32 - (Nat.min (offset + 32) (length data) - Nat.min offset (length data)))
  = take 32 (drop offset data ++ repeat 0 32).
Proof.
  rewrite take_app, length_drop. destruct (Nat.le_gt_cases (length data) offset) as [Hle|Hgt].
  - rewrite !Nat.min_r, Nat.sub_diag by lia. rewrite (drop_ge data offset), take_nil by lia. cbn [take app].
    replace (length data - offset)%nat with 0%nat by lia. reflexivity.
  - rewrite (Nat.min_l offset) by lia. f_equal.
    + destruct (Nat.le_gt_cases (length data) (offset + 32)).
      * rewrite Nat.min_r by lia. by rewrite !take_ge by (rewrite length_drop; lia).
      * rewrite Nat.min_l by lia. f_equal. lia.
    + replace (32 - (Nat.min (offset + 32) (length data) - offset))%nat with (32 - (length data - offset))%nat by lia.
      set (k := (32 - (length data - offset))%nat).
      replace (repeat 0 32) with (repeat 0 k ++ repeat 0 (32 - k)) by (rewrite <- repeat_app; f_equal; lia).
      by rewrite take_app_length' by (rewrite repeat_length; lia).
Qed.

Lemma modexp_len_spec data offset : Forall is_byte data → modexp_len_exceeds_32 data offset = (32 <? word_at data offset).
Proof.
  intros Hd. unfold modexp_len_exceeds_32, word_at. rewrite padded_slice.
  set (buf := take 32 _). assert (Hlen : length buf = 32%nat) by (unfold buf; rewrite length_take, length_app, repeat_length; lia).
  assert (Hb : Forall is_byte buf).
  { apply Forall_take, Forall_app. split; [by apply Forall_drop|]. apply Forall_forall. intros x Hx%list_elem_of_In%repeat_spec.
    subst. unfold is_byte. lia. }
  destruct (lookup_lt_is_Some_2 buf 31) as [x Hx]; [lia|].
  pose proof (take_S_r buf 31 x Hx) as Hsplit. rewrite (take_ge buf 32) in Hsplit by lia.
  rewrite (nth_lookup_Some buf 31 0 x Hx). rewrite Hsplit at 2. rewrite of_be_app.
  assert (Hx' : is_byte x) by (eapply Forall_lookup_1; done).
  destruct (of_le_zero (rev (take 31 buf))) as [H0 Hz]; [apply Forall_rev, Forall_take; done|].
  rewrite existsb_rev in Hz. fold (Standard.of_be (take 31 buf)) in H0, Hz.
  cbn [Standard.of_be rev app Standard.of_le]. change (256 ^ len [x]) with 256. unfold is_byte in Hx'.
  change (Standard.of_be [x]) with (x + 256 * 0).
  destruct (existsb _ (take 31 buf)) eqn:He; cbn [orb].
  - assert (Standard.of_be (take 31 buf) ≠ 0) by (rewrite Hz; done). symmetry. apply Z.ltb_lt. lia.
  - rewrite (proj2 Hz eq_refl). f_equal. lia.
Qed.

(** *** Sets *)

Section Lookup.
Context {Id PR : Type}.
Implicit Types (m from : Precompiles Id PR).

(** Each entry of a set is at its own address. *)
Definition keyed m : Prop := ∀ (a : Address) p, m !! a = Some p → pc_address p = a.

Lemma lookup_put (p : Precompile Id PR) m (a : Address) : extend [p] m !! a = if a =? pc_address p then Some p else m !! a.
Proof.
  cbn. destruct (Z.eqb_spec a (pc_address p)) as [->|Hne]; [apply lookup_insert_eq|by apply lookup_insert_ne].
Qed.

Lemma lookup_extend_from from addr m (a : Address) : keyed from →
  extend_from from addr m !! a = if (a =? addr) && bool_decide (is_Some (from !! addr)) then from !! addr else m !! a.
Proof.
  intros Hk. unfold extend_from. destruct (from !! addr) as [p|] eqn:Hp.
  - rewrite lookup_put, (Hk _ _ Hp). by destruct (a =? addr).
  - by rewrite andb_false_r.
Qed.
End Lookup.

Section Facts.
Context {Id PR : Type} (Ripemd160 Blake2F ModExp Bn254Pairing : Id).
Context (halt : string → Z → PR).
Context (berlin osaka : Precompiles Id PR).

(** revm's sets: Berlin has the addresses 1 to 9, and Osaka those that are taken of it. *)
Record revm_sets : Prop := {
  rs_berlin (a : Address) : is_Some (berlin !! a) ↔ 1 ≤ a ≤ 9;
  rs_osaka (a : Address) : a = MODEXP ∨ BLS12_G1ADD ≤ a ≤ BLS12_MAP_FP2_TO_G2 ∨ a = P256_VERIFY → is_Some (osaka !! a);
  rs_berlin_keyed : keyed berlin;
  rs_osaka_keyed : keyed osaka;
}.
Hypothesis Hsets : revm_sets.

Definition run_of (m : Precompiles Id PR) (a : Address) (input : bytes) (gas_limit reservoir : Z) : option (option PR) :=
  (λ p, execute p input gas_limit reservoir) <$> m !! a.

(** The table: what a call of an address does at a hardfork; [None] when it is no
    precompile. *)
Definition table (f : MorphHardfork) (a : Address) (input : bytes) (gas_limit reservoir : Z) : option (option PR) :=
  let halted msg := Some (Some (halt msg reservoir)) in
  let run m := run_of m a input gas_limit reservoir in
  if a =? RIPEMD160 then
    if is_morph203 f then run berlin else halted "ripemd160 precompile disabled in Bernoulli/Curie hardfork"%string
  else if a =? BLAKE2F then
    if is_morph203 f then run berlin else halted "blake2f precompile disabled in Bernoulli/Curie hardfork"%string
  else if a =? MODEXP then
    if is_emerald f then run osaka
    else if 32 <? Z.max (word_at input 0) (Z.max (word_at input 32) (word_at input 64))
    then halted "modexp temporarily only accepts inputs of 32 bytes (256 bits) or less"%string else run berlin
  else if a =? BN256_PAIRING then
    if is_morph203 f && (768 <? len input) then halted "bad elliptic curve pairing size"%string else run berlin
  else if (1 <=? a) && (a <=? 9) then run berlin
  else if (BLS12_G1ADD <=? a) && (a <=? BLS12_MAP_FP2_TO_G2) || (a =? P256_VERIFY) then
    if is_emerald f then run osaka else None
  else None.

Abbreviation bernoulli_set := (bernoulli Ripemd160 Blake2F ModExp halt berlin).
Abbreviation morph203_set := (morph203 Ripemd160 Blake2F ModExp Bn254Pairing halt berlin).
Abbreviation emerald_set := (emerald Ripemd160 Blake2F ModExp Bn254Pairing halt berlin osaka).
Abbreviation provider := (new_with_spec Ripemd160 Blake2F ModExp Bn254Pairing halt berlin osaka).

Lemma bernoulli_lookup (a : Address) : bernoulli_set !! a =
  if a =? MODEXP then Some (Build_Precompile ModExp MODEXP (modexp_with_32byte_limit halt berlin))
  else if a =? BLAKE2F then Some (Build_Precompile Blake2F BLAKE2F (blake2f_disabled halt))
  else if a =? RIPEMD160 then Some (Build_Precompile Ripemd160 RIPEMD160 (ripemd160_disabled halt))
  else berlin !! a.
Proof.
  unfold bernoulli. cbv zeta. rewrite lookup_put. cbn [pc_address].
  change (extend [?p; ?q] berlin) with (extend [q] (extend [p] berlin)). by rewrite !lookup_put.
Qed.

Lemma in_berlin (a : Address) : 1 ≤ a ≤ 9 → bool_decide (is_Some (berlin !! a)) = true.
Proof. intros Ha. by apply bool_decide_eq_true, (rs_berlin Hsets). Qed.

Lemma in_osaka (a : Address) : a = MODEXP ∨ BLS12_G1ADD ≤ a ≤ BLS12_MAP_FP2_TO_G2 ∨ a = P256_VERIFY → bool_decide (is_Some (osaka !! a)) = true.
Proof. intros Ha. by apply bool_decide_eq_true, (rs_osaka Hsets). Qed.

Lemma morph203_lookup (a : Address) : morph203_set !! a =
  if a =? BN256_PAIRING then Some (Build_Precompile Bn254Pairing BN256_PAIRING (bn256_pairing_with_4pair_limit halt berlin))
  else if (a =? RIPEMD160) || (a =? BLAKE2F) then berlin !! a
  else bernoulli_set !! a.
Proof.
  unfold morph203. cbv zeta. rewrite lookup_put, !lookup_extend_from by exact (rs_berlin_keyed Hsets). cbn [pc_address].
  rewrite !in_berlin by (unfold RIPEMD160, BLAKE2F; lia). rewrite !andb_true_r.
  destruct (a =? BN256_PAIRING); [done|]. destruct (Z.eqb_spec a RIPEMD160) as [->|]; [done|].
  by destruct (Z.eqb_spec a BLAKE2F) as [->|].
Qed.

Lemma emerald_lookup (a : Address) : emerald_set !! a =
  if (a =? MODEXP) || (BLS12_G1ADD <=? a) && (a <=? BLS12_MAP_FP2_TO_G2) || (a =? P256_VERIFY) then osaka !! a
  else morph203_set !! a.
Proof.
  unfold emerald. cbn [fold_left]. cbv zeta. rewrite !lookup_extend_from by exact (rs_osaka_keyed Hsets).
  rewrite !in_osaka by (unfold BLS12_G1ADD, BLS12_G1MULTIEXP, BLS12_G2ADD, BLS12_G2MULTIEXP, BLS12_PAIRING, BLS12_MAP_FP_TO_G1,
    BLS12_MAP_FP2_TO_G2, MODEXP, P256_VERIFY; lia).
  rewrite !andb_true_r.
  repeat match goal with |- context [a =? ?k] => destruct (Z.eqb_spec a k) as [->|]; [done|] end.
  destruct (Z.leb_spec BLS12_G1ADD a), (Z.leb_spec a BLS12_MAP_FP2_TO_G2); try done. exfalso.
  unfold BLS12_G1ADD, BLS12_G1MULTIEXP, BLS12_G2ADD, BLS12_G2MULTIEXP, BLS12_PAIRING, BLS12_MAP_FP_TO_G1,
    BLS12_MAP_FP2_TO_G2 in *. lia.
Qed.

(** Each set against its column of the table. *)
Lemma berlin_outside (a : Address) : ¬ (1 ≤ a ≤ 9) → berlin !! a = None.
Proof. intros Ha. apply eq_None_not_Some. by rewrite (rs_berlin Hsets). Qed.

Lemma modexp_runs input g r : Forall is_byte input →
  Some (modexp_with_32byte_limit halt berlin input g r)
  = if 32 <? Z.max (word_at input 0) (Z.max (word_at input 32) (word_at input 64))
    then Some (Some (halt "modexp temporarily only accepts inputs of 32 bytes (256 bits) or less" r))
    else run_of berlin MODEXP input g r.
Proof.
  intros Hb. unfold modexp_with_32byte_limit, run_of. rewrite !modexp_len_spec by done.
  destruct (proj2 (rs_berlin Hsets MODEXP)) as [p ->]; [unfold MODEXP; lia|].
  destruct (Z.ltb_spec 32 (word_at input 0)), (Z.ltb_spec 32 (word_at input 32)), (Z.ltb_spec 32 (word_at input 64)); cbn [orb];
    (destruct (Z.ltb_spec 32 (Z.max (word_at input 0) (Z.max (word_at input 32) (word_at input 64)))); first [done|lia]).
Qed.

Lemma pairing_runs input g r :
  Some (bn256_pairing_with_4pair_limit halt berlin input g r)
  = if 768 <? len input then Some (Some (halt "bad elliptic curve pairing size" r)) else run_of berlin BN256_PAIRING input g r.
Proof.
  unfold bn256_pairing_with_4pair_limit, run_of. destruct (proj2 (rs_berlin Hsets BN256_PAIRING)) as [p ->]; [unfold BN256_PAIRING; lia|].
  change (4 * 192) with 768. by destruct (768 <? len input).
Qed.

Lemma bernoulli_runs a input g r : Forall is_byte input → run_of bernoulli_set a input g r = table Bernoulli a input g r.
Proof.
  intros Hb. unfold run_of at 1. rewrite bernoulli_lookup. unfold table. cbn [is_morph203 is_emerald hf_geb andb].
  destruct (Z.eqb_spec a RIPEMD160) as [->|]; [done|]. destruct (Z.eqb_spec a BLAKE2F) as [->|]; [done|].
  destruct (Z.eqb_spec a MODEXP) as [->|]; [cbn; by rewrite <- modexp_runs|].
  destruct (Z.eqb_spec a BN256_PAIRING) as [->|]; [done|].
  destruct (Z.leb_spec 1 a), (Z.leb_spec a 9); cbn [andb]; try done.
  all: rewrite berlin_outside by lia; by destruct (_ || _).
Qed.

Lemma morph203_runs a input g r : Forall is_byte input → run_of morph203_set a input g r = table Morph203 a input g r.
Proof.
  intros Hb. unfold run_of at 1. rewrite morph203_lookup. unfold table at 1.
  destruct (Z.eqb_spec a BN256_PAIRING) as [->|Hp]; [cbn -[len]; by rewrite <- pairing_runs|].
  destruct (Z.eqb_spec a RIPEMD160) as [->|Hr]; [done|]. destruct (Z.eqb_spec a BLAKE2F) as [->|Hl]; [done|]. cbn [orb].
  fold (run_of bernoulli_set a input g r). rewrite bernoulli_runs by done. unfold table.
  rewrite (proj2 (Z.eqb_neq _ _) Hp), (proj2 (Z.eqb_neq _ _) Hr), (proj2 (Z.eqb_neq _ _) Hl). done.
Qed.

Lemma emerald_runs a input g r : Forall is_byte input → run_of emerald_set a input g r = table Emerald a input g r.
Proof.
  intros Hb. unfold run_of at 1. rewrite emerald_lookup. destruct (_ || (a =? P256_VERIFY)) eqn:Ho.
  - unfold table.
    assert (Hne : a ≠ RIPEMD160 ∧ a ≠ BLAKE2F ∧ a ≠ BN256_PAIRING ∧ (a ≠ MODEXP → ¬ (1 ≤ a ≤ 9))).
    { bool_simp. unfold RIPEMD160, BLAKE2F, BN256_PAIRING, MODEXP, BLS12_G1ADD, BLS12_MAP_FP2_TO_G2, P256_VERIFY in *. lia. }
    destruct Hne as (H1 & H2 & H3 & H4). rewrite (proj2 (Z.eqb_neq _ _) H1), (proj2 (Z.eqb_neq _ _) H2), (proj2 (Z.eqb_neq _ _) H3).
    destruct (Z.eqb_spec a MODEXP) as [->|H5]; [done|]. cbn [orb] in Ho. rewrite Ho.
    destruct (Z.leb_spec 1 a), (Z.leb_spec a 9); cbn [andb]; try done. exfalso. by apply H4.
  - fold (run_of morph203_set a input g r). rewrite morph203_runs by done. apply orb_false_iff in Ho as [[Hm Hbls]%orb_false_iff Hp].
    unfold table. by rewrite Hm, Hbls, Hp.
Qed.

(** C17. The precompile sets are the table of their hardforks.  At every hardfork, for
    every address and input, running the set that the incremental constructions build is
    what the table says: ripemd160 and blake2f halt before Morph203 and are revm's from it
    on; modexp halts before Emerald when one of its three length words, read with zeros
    past the end of the input, is above 32, and is Osaka's from Emerald on; pairing halts
    above four pairs from Morph203 on; BLS12-381 and P256 are there from Emerald on; the
    others are Berlin's; there is nothing else, the point evaluation included.  An address
    is a warm precompile exactly when the table has it, disabled ones included, and a
    change of hardfork makes the provider the one of the new hardfork. *)
Theorem precompiles_by_fork f a input g r : Forall is_byte input →
  run_of (inner (provider f)) a input g r = table f a input g r
  ∧ contains (provider f) a = bool_decide (is_Some (table f a input g r))
  ∧ (a ∈ warm_addresses (provider f) ↔ contains (provider f) a = true)
  ∧ ∀ f', set_spec Ripemd160 Blake2F ModExp Bn254Pairing halt berlin osaka f' (provider f)
          = (provider f', negb (bool_decide (f' = f))).
Proof.
  intros Hb. assert (Hrun : run_of (inner (provider f)) a input g r = table f a input g r).
  { destruct f; cbn [new_with_spec inner];
      first [rewrite bernoulli_runs by done|rewrite morph203_runs by done|rewrite emerald_runs by done]; reflexivity. }
  split_and!; [done| | |].
  - unfold contains. rewrite <- Hrun. apply bool_decide_ext. unfold run_of. by rewrite fmap_is_Some.
  - unfold contains, warm_addresses. by rewrite bool_decide_eq_true, elem_of_dom.
  - intros f'. unfold set_spec. cbn [mp_spec new_with_spec]. case_bool_decide as Hf; [by subst f'|done].
Qed.
End Facts.

(** *** BLOCKHASH *)

Lemma u64_max_value : u64_max = 2 ^ 64 - 1.
Proof. by vm_compute. Qed.

Lemma u256_max_value : u256_max = 2 ^ 256 - 1.
Proof. by vm_compute. Qed.

Lemma limb_value v i : 0 ≤ v → 0 ≤ i → Z.land (Z.shiftr v (64 * i)) u64_max = v / 2 ^ (64 * i) mod 2 ^ 64.
Proof.
  intros Hv Hi. rewrite u64_max_value. replace (2 ^ 64 - 1) with (Z.ones 64) by reflexivity.
  by rewrite Z.land_ones, Z.shiftr_div_pow2 by lia.
Qed.

Lemma as_u64_saturated_min v : is_u256 v → as_u64_saturated v = Z.min v u64_max.
Proof.
  intros [H0 H1]. unfold as_u64_saturated. cbv zeta. rewrite !limb_value by lia.
  change (64 * 0) with 0. change (64 * 1) with 64. change (64 * 2) with 128. change (64 * 3) with 192.
  rewrite Z.pow_0_r, Z.div_1_r, u64_max_value. rewrite u256_max_value in H1.
  set (q := v / 2 ^ 64). pose proof (Z.div_mod v (2 ^ 64) ltac:(lia)) as Hdm. pose proof (Z.mod_pos_bound v (2 ^ 64) ltac:(lia)) as Hm.
  fold q in Hdm. assert (Hq : 0 ≤ q < 2 ^ 192).
  { split; [apply Z.div_pos; lia|]. apply Z.div_lt_upper_bound; [lia|]. rewrite <- Z.pow_add_r by lia. change (64 + 192) with 256. lia. }
  destruct (Z.eq_dec q 0) as [Hz|Hnz].
  - assert (Hs : v < 2 ^ 64) by lia. assert (Hd : ∀ k, 64 <= k → v / 2 ^ k = 0).
    { intros k Hk. apply Z.div_small. split; [done|]. eapply Z.lt_le_trans; [exact Hs|]. apply Z.pow_le_mono_r; lia. }
    fold q. rewrite Hz, (Hd 128), (Hd 192) by lia. cbn [andb Z.eqb]. rewrite Z.mod_small by lia. cbn. lia.
  - assert (Hmin : Z.min v (2 ^ 64 - 1) = 2 ^ 64 - 1) by nia. rewrite Hmin. fold q.
    destruct (Z.eqb_spec (q mod 2 ^ 64) 0) as [E1|], (Z.eqb_spec (v / 2 ^ 128 mod 2 ^ 64) 0) as [E2|],
      (Z.eqb_spec (v / 2 ^ 192 mod 2 ^ 64) 0) as [E3|]; try reflexivity.
    exfalso. apply Hnz. pose proof (Z.div_mod q (2 ^ 64) ltac:(lia)) as Hd1.
    assert (Hv2 : v / 2 ^ 128 = q / 2 ^ 64) by (unfold q; rewrite Z.div_div by lia; f_equal; by rewrite <- Z.pow_add_r by lia).
    assert (Hv3 : v / 2 ^ 192 = v / 2 ^ 128 / 2 ^ 64) by (rewrite Z.div_div by lia; f_equal; by rewrite <- Z.pow_add_r by lia).
    rewrite Hv2 in *. set (q2 := q / 2 ^ 64) in *. pose proof (Z.div_mod q2 (2 ^ 64) ltac:(lia)) as Hd2.
    rewrite Hv3 in E3. set (q3 := q2 / 2 ^ 64) in *.
    assert (0 ≤ q2) by (apply Z.div_pos; lia). assert (0 ≤ q3) by (apply Z.div_pos; lia).
    assert (q3 < 2 ^ 64) by (apply Z.div_lt_upper_bound; [lia|]; apply Z.div_lt_upper_bound; [lia|]; change (2 ^ 64 * (2 ^ 64 * 2 ^ 64)) with (2 ^ 192); lia).
    rewrite (Z.mod_small q3) in E3 by lia. lia.
Qed.

Section Blockhash.
Context (keccak256 : bytes → Z).

(** BLOCKHASH.  On a chain and block whose numbers are 64-bit, the instruction
    replaces the number on top of the stack and nothing else: by the hash of the chain
    and the number as two big-endian words when the number is one of the 256 before the
    current block, and by zero otherwise, for every 256-bit number; two numbers of the
    window hash different inputs.  On an empty stack it underflows. *)
Theorem blockhash_window chain_id current number rest : is_u64 chain_id → is_u64 current → is_u256 number →
  blockhash_morph keccak256 current chain_id [] = None
  ∧ blockhash_morph keccak256 current chain_id (number :: rest)
    = Some ((if (current - 256 <=? number) && (number <? current)
             then keccak256 (be_word 8 chain_id ++ be_word 8 number) else 0) :: rest)
  ∧ ∀ number', 0 ≤ number' < current → number < current →
      be_word 8 chain_id ++ be_word 8 number = be_word 8 chain_id ++ be_word 8 number' → number = number'.
Proof.
  intros Hc Hcur Hn. pose proof uint_max_order as Hord. split; [done|]. split.
  - unfold blockhash_morph. rewrite !as_u64_saturated_min by (unfold in_range in *; lia).
    rewrite (Z.min_l chain_id), (Z.min_l current) by (unfold in_range in *; lia).
    unfold morph_blockhash_result, BLOCK_HASH_HISTORY, morph_blockhash_value. do 2 f_equal.
    destruct (Z.leb_spec (current - 256) number), (Z.ltb_spec number current),
      (Z.leb_spec (Z.max 0 (current - 256)) (Z.min number u64_max)), (Z.ltb_spec (Z.min number u64_max) current);
      cbn [andb]; unfold in_range in *; try lia; try done. by rewrite Z.min_l by lia.
  - intros n' Hn' Hlt He%app_inv_head. unfold in_range in *. rewrite u64_max_value in *. apply be_word_inj in He; [done|..]; change (256 ^ Z.of_nat 8) with (2 ^ 64); lia.
Qed.
End Blockhash.

(** ** Concrete sets *)

Module SampleSets.
(** A precompile that answers with its address and the length of its input, and the sets
    of such. *)
Definition echo (a : Z) : Precompile nat (string * Z) := {|
  pc_id := 0%nat; pc_address := a; execute input _ _ := Some ("ok"%string, a + 1000 * len input) |}.
Definition set_of (l : list Z) : Precompiles nat (string * Z) := set_to_map (λ a, (a, echo a)) (list_to_set l : gset Z).
Definition berlin := set_of (seqZ 1 9).
Definition osaka := set_of (seqZ 1 17 ++ [256]).

Lemma set_of_lookup l a p : set_of l !! a = Some p ↔ a ∈ l ∧ p = echo a.
Proof.
  unfold set_of. rewrite lookup_set_to_map by (intros y y' _ _ Heq; exact Heq).
  setoid_rewrite elem_of_list_to_set. split; [|naive_solver]. intros (y & Hy & [= <- <-]). done.
Qed.

Lemma sample_sets : revm_sets berlin osaka.
Proof.
  assert (Hs : ∀ l a, is_Some (set_of l !! a) ↔ a ∈ l).
  { intros l a. split; [intros [p [Hp _]%set_of_lookup]; done|]. intros Ha. exists (echo a). by apply set_of_lookup. }
  split.
  - intros a. unfold berlin. rewrite Hs, elem_of_seqZ. lia.
  - intros a Ha. apply Hs, elem_of_app. rewrite elem_of_seqZ, list_elem_of_singleton.
    unfold MODEXP, BLS12_G1ADD, BLS12_MAP_FP2_TO_G2, P256_VERIFY in Ha. lia.
  - by intros a p [_ ->]%set_of_lookup.
  - by intros a p [_ ->]%set_of_lookup.
Qed.
End SampleSets.

Import SampleSets.

(** A modexp whose exponent length is 33, written at the end of an input that stops
    there, at Viridian and at Emerald. *)
Definition long_modexp : bytes := repeat 0 63 ++ [33].

Lemma precompiles_by_fork_witness :
  run_of (inner (new_with_spec 1%nat 2%nat 3%nat 4%nat (λ s r, (s, r)) berlin osaka Viridian)) 5 long_modexp 100 7
    = Some (Some ("modexp temporarily only accepts inputs of 32 bytes (256 bits) or less"%string, 7))
  ∧ run_of (inner (new_with_spec 1%nat 2%nat 3%nat 4%nat (λ s r, (s, r)) berlin osaka Emerald)) 5 long_modexp 100 7
    = Some (Some ("ok"%string, 64005)).
Proof.
  assert (Hb : Forall is_byte long_modexp).
  { apply Forall_app. split; [apply Forall_forall; intros x ->%list_elem_of_In%repeat_spec|repeat constructor]; unfold is_byte; lia. }
  split.
  - simple refine (eq_trans (proj1 (precompiles_by_fork 1%nat 2%nat 3%nat 4%nat (λ s r, (s, r)) berlin osaka sample_sets
      Viridian 5 long_modexp 100 7 Hb)) _). vm_compute. reflexivity.
  - simple refine (eq_trans (proj1 (precompiles_by_fork 1%nat 2%nat 3%nat 4%nat (λ s r, (s, r)) berlin osaka sample_sets
      Emerald 5 long_modexp 100 7 Hb)) _). vm_compute. reflexivity.
Defined.

Lemma blockhash_window_witness :
  blockhash_morph len 300 2818 [44; 1] = Some [16; 1] ∧ blockhash_morph len 300 2818 [43; 1] = Some [0; 1]
  ∧ blockhash_morph len 300 2818 [2 ^ 64 + 44; 1] = Some [0; 1].
Proof.
  split_and!.
  - simple refine (eq_trans (proj1 (proj2 (blockhash_window len 2818 300 44 [1] _ _ _))) _); [vm_compute; by split..|reflexivity].
  - simple refine (eq_trans (proj1 (proj2 (blockhash_window len 2818 300 43 [1] _ _ _))) _); [vm_compute; by split..|reflexivity].
  - simple refine (eq_trans (proj1 (proj2 (blockhash_window len 2818 300 (2 ^ 64 + 44) [1] _ _ _))) _); [vm_compute; by split..|reflexivity].
Defined.
