(* ===== verification/EthRpc.v ===== *)
(** * Ethereum RPC: gas allowance and transaction requests

    Models [crates/rpc/src/eth/call.rs], which bounds the gas that [eth_estimateGas]
    tries by what the caller can pay, and [crates/rpc/src/eth/transaction.rs], which turns
    a request into a transaction, a simulated transaction or an environment.  Alloy's
    and reth's conversions of plain Ethereum requests are parameters. *)

From S2P Require Import Prelude Hardfork Rlp MorphTx Envelope L1Fee TxEnv TokenFee.

(** ** Errors *)

(** [EthApiError] as far as the code builds it; [Er] is the database's error and [X]
    what reth's own conversions report. *)
Inductive EthApiError (Er X : Type) := InvalidParams (what : string) | FromDatabase (e : Er) | EthApiOther (e : X).
Arguments InvalidParams {Er X}.
Arguments FromDatabase {Er X}.
Arguments EthApiOther {Er X}.

(** [MorphEthApiError], with the constructors that the gas allowance reports. *)
Inductive MorphEthApiError (Er X : Type) :=
| EthError (e : EthApiError Er X)
| BlockNotFound
| TransactionNotFound (hash : B256)
| SkippedTransactionNotFound (hash : B256)
| InvalidBlockNumberOrHash
| StateNotAvailable
| InternalErr (message : string)
| DatabaseErr (message : string)
| ProviderErr (message : string)
| InsufficientFundsForTransfer
| InsufficientFundsForL1Fee
| InvalidFeeToken.
Arguments EthError {Er X}.
Arguments InsufficientFundsForTransfer {Er X}.
Arguments InsufficientFundsForL1Fee {Er X}.
Arguments InvalidFeeToken {Er X}.

(** The code of the JSON-RPC error object. *)
Definition STATE_NOT_AVAILABLE_CODE : Z := -32005.
Definition error_code {Er X} (eth_code : EthApiError Er X → Z) (err : MorphEthApiError Er X) : Z :=
  match err with
  | EthError e => eth_code e
  | BlockNotFound _ _ => -32001
  | TransactionNotFound _ _ _ => -32002
  | SkippedTransactionNotFound _ _ _ => -32003
  | InvalidBlockNumberOrHash _ _ => -32004
  | StateNotAvailable _ _ => STATE_NOT_AVAILABLE_CODE
  | InternalErr _ _ _ => -32603
  | DatabaseErr _ _ _ => -32006
  | ProviderErr _ _ _ => -32007
  | InsufficientFundsForTransfer | InsufficientFundsForL1Fee | InvalidFeeToken => -32000
  end.

(** ** Gas allowance *)

(** [U256 / u128 → u64], saturating. *)
Definition saturating_div_u128 (dividend divisor : Z) : Z :=
  if divisor =? 0 then 0
  else
    let quotient := dividend / divisor in
    if u64_max <? quotient then u64_max else quotient.

Definition gas_allowance_from_balance (balance gas_price : Z) : Z :=
  if gas_price =? 0 then u64_max else saturating_div_u128 balance gas_price.

Definition token_amount_to_eth (token_amount : Z) (info : TokenFeeInfo) : option Z :=
  if (price_ratio info =? 0) || (scale info =? 0) then None
  else Some (saturating_mul u256_max token_amount (price_ratio info) / scale info).

Section Allowance.
Context {Er X : Type}.
Abbreviation error := (MorphEthApiError Er X).

Definition gas_allowance_from_token_limit (limit_token l1_fee : Z) (token_info : TokenFeeInfo) (gas_price : Z)
  : result Z error :=
  let l1_fee_in_token := eth_to_token_amount token_info l1_fee in
  reject InsufficientFundsForL1Fee when limit_token <=? l1_fee_in_token in
  let available_token := limit_token - l1_fee_in_token in
  let? available_eth := ok_or (token_amount_to_eth available_token token_info) InvalidFeeToken in
  Ok (gas_allowance_from_balance available_eth gas_price).

Definition token_gas_allowance (eth_balance value : Z) (token_fee_info : TokenFeeInfo) (l1_fee : Z)
    (fee_limit : option Z) (gas_price gas_cap : Z) : result Z error :=
  reject InvalidFeeToken when negb (is_active token_fee_info) || (price_ratio token_fee_info =? 0)
    || (scale token_fee_info =? 0) in
  reject InsufficientFundsForTransfer when eth_balance <? value in
  let limited limit clamp_to_gas_cap :=
    let? allowance := gas_allowance_from_token_limit limit l1_fee token_fee_info gas_price in
    Ok (if clamp_to_gas_cap : bool then Z.min allowance gas_cap else allowance) in
  match balance_slot token_fee_info, fee_limit with
  | Some _, Some limit => limited (if negb (limit =? 0) then Z.min (balance token_fee_info) limit else balance token_fee_info) false
  | Some _, None => limited (balance token_fee_info) false
  | None, Some limit => if negb (limit =? 0) then limited limit true else Ok gas_cap
  | None, None => Ok gas_cap
  end.

(** What the override reads of the EVM environment. *)
Record CallEnv := {
  disable_block_gas_limit : bool;
  ce_number : Z;
  ce_timestamp : Z;
  ce_chain_id : Z;
}.

Context {AL SA RA : Type}.
Abbreviation env := (MorphTxEnv AL SA RA).
Context {C F : Type} `{ForkConditionOps F} `{MorphHardforks C F} (chain_spec : C).
Context (keccak256 : bytes → Z).
(** The database: storage words and the balances of accounts. *)
Context (storage : Address → Z → result Z Er) (basic : Address → result (option Z) Er).
(** [alloy_evm::call::caller_gas_allowance], and the per-call gas ceiling. *)
Context (upstream_caller_gas_allowance : env → result Z (option Er)) (gas_cap : Z).

Definition estimate_l1_fee (ce : CallEnv) (tx : env) : result Z (EthApiError Er X) :=
  if is_l1_msg tx then Ok 0
  else
    reject InvalidParams "invalid block number"%string when u64_max <? ce_number ce in
    reject InvalidParams "invalid block timestamp"%string when u64_max <? ce_timestamp ce in
    let hardfork := morph_hardfork_at chain_spec (ce_number ce) (ce_timestamp ce) in
    let? rlp_bytes := ok_or (rlp_bytes tx) (InvalidParams "missing rlp bytes for l1 fee"%string) in
    let? l1_info := map_err (λ _, InvalidParams "failed to estimate L1 data fee"%string) (try_fetch storage hardfork) in
    Ok (calculate_tx_l1_cost l1_info rlp_bytes hardfork).

Definition balance_of_account (a : Address) : result Z error :=
  let? account := map_err (λ e, EthError (FromDatabase e)) (basic a) in
  Ok (default 0 account).

Definition caller_gas_allowance_with_token (caller : Address) (value l1_fee fee_token_id : Z)
    (fee_limit : option Z) (gas_price : Z) : result Z error :=
  let? info := map_err (λ _, InvalidFeeToken) (load_storage_only keccak256 storage fee_token_id caller) in
  let? token_fee_info := ok_or info InvalidFeeToken in
  let? eth_balance := balance_of_account caller in
  token_gas_allowance eth_balance value token_fee_info l1_fee fee_limit gas_price gas_cap.

(** The upstream error is [CallError]: [None] is lack of funds. *)
Definition upstream_error (e : option Er) : error :=
  match e with Some e => EthError (FromDatabase e) | None => InsufficientFundsForTransfer end.

Definition caller_gas_allowance (ce : CallEnv) (tx : env) : result Z error :=
  if disable_block_gas_limit ce then
    if uses_token_fee tx then Ok u64_max
    else map_err upstream_error (upstream_caller_gas_allowance tx)
  else
    let? l1_fee := map_err EthError (estimate_l1_fee ce tx) in
    match fee_token_id tx ≫= (λ id, if 0 <? id then Some id else None) with
    | Some id =>
        caller_gas_allowance_with_token (TxEnv.caller (inner tx)) (value (inner tx)) l1_fee id (fee_limit tx)
          (gas_price (inner tx))
    | None =>
        let? balance := balance_of_account (TxEnv.caller (inner tx)) in
        let? available := ok_or (checked_sub balance (value (inner tx))) InsufficientFundsForTransfer in
        reject InsufficientFundsForL1Fee when available <=? l1_fee in
        Ok (gas_allowance_from_balance (available - l1_fee) (gas_price (inner tx)))
    end.
End Allowance.

(** ** Requests *)

(** What the code reads of alloy's [TransactionRequest]; [TI] is [TransactionInput] and
    [R] the rest of it. *)
Record TransactionRequest (AL SA TI R : Type) := {
  rq_to : option TxKind;
  rq_gas_price : option Z;
  rq_max_fee_per_gas : option Z;
  rq_max_priority_fee_per_gas : option Z;
  rq_gas : option Z;
  rq_value : option Z;
  rq_input : TI;
  rq_nonce : option Z;
  rq_chain_id : option Z;
  rq_access_list : option AL;
  rq_authorization_list : option (list SA);
  rq_rest : R;
}.
Arguments rq_to {AL SA TI R}.
Arguments rq_gas_price {AL SA TI R}.
Arguments rq_max_fee_per_gas {AL SA TI R}.
Arguments rq_max_priority_fee_per_gas {AL SA TI R}.
Arguments rq_gas {AL SA TI R}.
Arguments rq_value {AL SA TI R}.
Arguments rq_input {AL SA TI R}.
Arguments rq_nonce {AL SA TI R}.
Arguments rq_chain_id {AL SA TI R}.
Arguments rq_access_list {AL SA TI R}.
Arguments rq_authorization_list {AL SA TI R}.
Arguments rq_rest {AL SA TI R}.

Record MorphTransactionRequest (AL SA TI R : Type) := {
  mr_inner : TransactionRequest AL SA TI R;
  mr_fee_token_id : option Z;
  mr_fee_limit : option Z;
  mr_reference : option bytes;
  mr_memo : option bytes;
}.
Arguments mr_inner {AL SA TI R}.
Arguments mr_fee_token_id {AL SA TI R}.
Arguments mr_fee_limit {AL SA TI R}.
Arguments mr_reference {AL SA TI R}.
Arguments mr_memo {AL SA TI R}.

Definition is_nonzero_reference (reference : option bytes) : bool :=
  match reference with Some r => negb (bool_decide (r = TxMorph.B256_ZERO)) | None => false end.

Definition normalize_reference (reference : option bytes) : option bytes :=
  match reference with
  | Some r => if negb (bool_decide (r = TxMorph.B256_ZERO)) then Some r else None
  | None => None
  end.

Definition has_bytes (memo : option bytes) : bool :=
  match memo with Some m => negb (len m =? 0) | None => false end.

(** [EthereumTxEnvelope<TxEip4844>] *)
Inductive EthereumTxEnvelope (ETH B : Type) :=
| ELegacy (t : ETH) | EEip2930 (t : ETH) | EEip1559 (t : ETH) | EEip7702 (t : ETH) | EEip4844 (t : B).
Arguments ELegacy {ETH B}.
Arguments EEip2930 {ETH B}.
Arguments EEip1559 {ETH B}.
Arguments EEip7702 {ETH B}.
Arguments EEip4844 {ETH B}.

Definition morph_envelope_from_ethereum {ETH B AL SA SG} (e : EthereumTxEnvelope ETH B)
  : result (MorphTxEnvelope.MorphTxEnvelope ETH AL SA SG) string :=
  match e with
  | ELegacy tx => Ok (MorphTxEnvelope.Legacy tx)
  | EEip2930 tx => Ok (MorphTxEnvelope.Eip2930 tx)
  | EEip1559 tx => Ok (MorphTxEnvelope.Eip1559 tx)
  | EEip7702 tx => Ok (MorphTxEnvelope.Eip7702 tx)
  | EEip4844 _ => Err "EIP-4844 transactions are not supported on Morph"%string
  end.

(** [SignTxRequestError]; [S] is the signer's error. *)
Inductive SignTxRequestError (S : Type) := InvalidTransactionRequest | SignatureError (e : S).
Arguments InvalidTransactionRequest {S}.
Arguments SignatureError {S}.

Section Requests.
Context {ETH B AL SA RA SG TI R Er X Sg : Type} `{AlloyRlp AL SA SG}.
Abbreviation request := (TransactionRequest AL SA TI R).
Abbreviation morph_request := (MorphTransactionRequest AL SA TI R).
Abbreviation envelope := (MorphTxEnvelope.MorphTxEnvelope ETH AL SA SG).
Abbreviation env := (MorphTxEnv AL SA RA).
(** Alloy: [AccessList::default], [TransactionInput::try_into_unique_input] ([None] when
    the two fields differ), and the plain conversions. *)
Context (default_access_list : AL) (try_into_unique_input : TI → option (option bytes)).
Context (build_typed_simulate_transaction : request → result (EthereumTxEnvelope ETH B) string).
Context (build_typed_tx : request → option ETH).
Context (inner_try_into_tx_env : request → result (TxEnv AL SA RA) X).

Definition try_build_morph_tx_from_request (req : request) (fee_token_id fee_limit : Z)
    (reference memo : option bytes) : result (option (TxMorph.TxMorph AL SA)) string :=
  let reference := normalize_reference reference in
  if bool_decide (is_Some (rq_gas_price req)) then Ok None
  else
    reject "invalid token"%string when u16_max <? fee_token_id in
    let has_fee_token := 0 <? fee_token_id in
    let has_reference := is_nonzero_reference reference in
    let has_memo := has_bytes memo in
    if negb has_fee_token && negb has_reference && negb has_memo then Ok None
    else
      let authorization_list := default [] (rq_authorization_list req) in
      let version := TxMorph.inferred_version (negb (bool_decide (authorization_list = []))) in
      let? chain_id := ok_or (rq_chain_id req) "missing chain_id for morph transaction"%string in
      let? input := ok_or (try_into_unique_input (rq_input req)) "data and input fields must match"%string in
      let input := default [] input in
      let to := default Create (rq_to req) in
      reject "contract creation requires initcode"%string when TxMorph.is_create to && (len input =? 0) in
      let morph_tx := {|
        TxMorph.chain_id := chain_id;
        TxMorph.nonce := default 0 (rq_nonce req);
        TxMorph.gas_limit := default 0 (rq_gas req);
        TxMorph.max_fee_per_gas := default 0 (rq_max_fee_per_gas req);
        TxMorph.max_priority_fee_per_gas := default 0 (rq_max_priority_fee_per_gas req);
        TxMorph.to := to;
        TxMorph.value := default 0 (rq_value req);
        TxMorph.access_list := default default_access_list (rq_access_list req);
        TxMorph.version := version;
        TxMorph.fee_token_id := fee_token_id;
        TxMorph.fee_limit := fee_limit;
        TxMorph.reference := reference;
        TxMorph.memo := memo;
        TxMorph.authorization_list := authorization_list;
        TxMorph.input := input |} in
      do? TxMorph.validate morph_tx in
      Ok (Some morph_tx).

(** The builder with the defaults that its callers use. *)
Definition try_build (r : morph_request) : result (option (TxMorph.TxMorph AL SA)) string :=
  try_build_morph_tx_from_request (mr_inner r) (default 0 (mr_fee_token_id r)) (default 0 (mr_fee_limit r))
    (mr_reference r) (mr_memo r).

(** [zero_signature] is [Signature::new] of zeros. *)
Definition try_into_sim_tx (zero_signature : SG) (r : morph_request) : result envelope string :=
  match try_build r with
  | Ok (Some morph_tx) =>
      Ok (MorphTxEnvelope.Morph {| MorphTxEnvelope.tx := morph_tx; MorphTxEnvelope.signature := zero_signature |})
  | Ok None =>
      let? e := build_typed_simulate_transaction (mr_inner r) in
      morph_envelope_from_ethereum e
  | Err e => Err e
  end.

(** The signer's two uses, and [EthereumTxEnvelope::new_unhashed]. *)
Context (sign_morph : TxMorph.TxMorph AL SA → result SG Sg) (sign_ethereum : ETH → result SG Sg).
Context (new_unhashed : ETH → SG → EthereumTxEnvelope ETH B).

Definition try_build_and_sign (r : morph_request) : result envelope (SignTxRequestError Sg) :=
  match try_build r with
  | Ok (Some morph_tx) =>
      let? signature := map_err SignatureError (sign_morph morph_tx) in
      Ok (MorphTxEnvelope.Morph {| MorphTxEnvelope.tx := morph_tx; MorphTxEnvelope.signature := signature |})
  | Ok None =>
      let? tx := ok_or (build_typed_tx (mr_inner r)) InvalidTransactionRequest in
      let? signature := map_err SignatureError (sign_ethereum tx) in
      map_err (λ _, InvalidTransactionRequest) (morph_envelope_from_ethereum (new_unhashed tx signature))
  | Err _ => Err InvalidTransactionRequest
  end.

Definition with_chain_id (chain_id : Z) (req : request) : request := {|
  rq_to := rq_to req; rq_gas_price := rq_gas_price req; rq_max_fee_per_gas := rq_max_fee_per_gas req;
  rq_max_priority_fee_per_gas := rq_max_priority_fee_per_gas req; rq_gas := rq_gas req; rq_value := rq_value req;
  rq_input := rq_input req; rq_nonce := rq_nonce req; rq_chain_id := Some (default chain_id (rq_chain_id req));
  rq_access_list := rq_access_list req; rq_authorization_list := rq_authorization_list req; rq_rest := rq_rest req |}.

(** The environment as a Morph transaction's, and the tip of a legacy gas price. *)
Definition as_morph (e : env) (legacy_gas_price : option Z) (token limit : option Z) (reference memo : option bytes) : env :=
  let i := inner e in {|
  inner := {| tx_type := TxMorph.MORPH_TX_TYPE_ID; TxEnv.caller := TxEnv.caller i; gas_limit := gas_limit i;
              gas_price := gas_price i; kind := kind i; value := value i; data := data i; nonce := nonce i;
              chain_id := chain_id i; access_list := access_list i;
              gas_priority_fee := match legacy_gas_price with Some p => Some p | None => gas_priority_fee i end;
              blob_hashes := blob_hashes i; max_fee_per_blob_gas := max_fee_per_blob_gas i;
              authorization_list := authorization_list i |};
  rlp_bytes := rlp_bytes e; version := version e; fee_token_id := token; fee_limit := limit;
  reference := reference; memo := memo |}.

Context (encode_for_l1_fee : env → Z → bytes).

Definition try_into_tx_env (evm_chain_id : Z) (r : morph_request) : result env (EthApiError Er X) :=
  let token := mr_fee_token_id r in
  let ref := normalize_reference (mr_reference r) in
  let memo := mr_memo r in
  let req := with_chain_id evm_chain_id (mr_inner r) in
  let has_authorizations := negb (bool_decide (default [] (rq_authorization_list req) = [])) in
  let is_morph_tx :=
    match token with Some id => 0 <? id | None => false end || is_nonzero_reference ref || has_bytes memo in
  let? inner_tx_env := map_err EthApiOther (inner_try_into_tx_env req) in
  let tx_env := env_new inner_tx_env in
  let? tx_env :=
    if is_morph_tx then
      do? match token with
          | Some id => reject InvalidParams "invalid token"%string when u16_max <? id in Ok tt
          | None => Ok tt
          end in
      let tx_env := as_morph tx_env (rq_gas_price req) token (mr_fee_limit r) ref memo in
      reject InvalidParams "MorphTx with an authorization list cannot create a contract"%string
        when has_authorizations && TxMorph.is_create (kind (inner tx_env)) in
      Ok (with_version tx_env (TxMorph.inferred_version has_authorizations))
    else Ok tx_env in
  Ok (with_rlp_bytes tx_env (encode_for_l1_fee tx_env evm_chain_id)).
End Requests.
