(* ===== verification/EthRpcSafety.v ===== *)
(** * What the Ethereum RPC promises

    Theorems about [EthRpc]: gas that [eth_estimateGas] allows can be paid, in ETH and
    in a fee token with a balance slot; a request becomes a valid Morph transaction or none; and the
    environment that prices a request's L1 fee prices the bytes that signing it posts. *)

From S2P Require Import Prelude.
From S2P Require Import Hardfork.
From S2P Require Import Rlp.
From S2P Require Import MorphTx.
From S2P Require Import Envelope.
From S2P Require Import L1Fee.
From S2P Require Import TxEnv.
From S2P Require Import TokenFee.
From S2P Require Import Journal.
From S2P Require Import FeeHandler.
From S2P Require Import FeeSafety.
From S2P Require Import TxPool.
From S2P Require Import PoolSafety.
From S2P Require Import PoolAdmission.
From S2P Require Import EthRpc.

(** ** Allowances *)

Lemma allowance_affordable balance gas_price gas : 0 ≤ balance → 0 ≤ gas_price → 0 ≤ gas →
  gas ≤ gas_allowance_from_balance balance gas_price → gas * gas_price ≤ balance.
Proof.
  intros Hb Hp Hg. unfold gas_allowance_from_balance, saturating_div_u128.
  destruct (Z.eqb_spec gas_price 0) as [->|Hne]; [lia|]. intros Hle.
  assert (Hq : gas ≤ balance / gas_price) by (destruct (Z.ltb_spec u64_max (balance / gas_price)); lia).
  pose proof (Z.mul_div_le balance gas_price ltac:(lia)).
  pose proof (Z.mul_le_mono_nonneg_r _ _ gas_price Hp Hq). lia.
Qed.

(** The token amount of an ETH amount, as a ceiling. *)
Lemma token_amount_ceil i x : usable i → 0 ≤ x →
  let p := Z.min (x * scale i) u256_max in
  p ≤ eth_to_token_amount i x * price_ratio i < p + price_ratio i.
Proof.
  intros Hu Hx p. unfold eth_to_token_amount, eth_to_token_amount_with_credit. rewrite (config_ok i Hu).
  change (saturating_mul u256_max x (scale i)) with p. destruct Hu as [[Hr Hr'] [Hs _]].
  assert (Hp : 0 ≤ p ≤ u256_max) by (unfold p; assert (0 ≤ x * scale i) by nonneg; ulia).
  pose proof (Z.div_mod p (price_ratio i) ltac:(lia)) as Hdm. pose proof (Z.mod_pos_bound p (price_ratio i) Hr) as Hm.
  destruct (Z.eqb_spec (p mod price_ratio i) 0) as [H0|H0]; cbn [fst]; [lia|].
  assert (Hq : p / price_ratio i + 1 ≤ u256_max).
  { assert (price_ratio i ≠ 1) by (intros He; rewrite He, Z.mod_1_r in H0; done).
    pose proof (Z.div_pos p (price_ratio i) ltac:(lia) Hr).
    assert (2 * (p / price_ratio i) ≤ p) by nia. ulia. }
  rewrite saturating_add_exact by done. lia.
Qed.

(** What is left of a limit after the L1 fee, spent on gas, still fits the limit
    together with the L1 fee. *)
Lemma token_limit_affordable {Er X} limit l1 info price gas allowance : usable info → 0 ≤ limit ≤ u256_max → 0 ≤ l1 → 0 ≤ price →
  0 ≤ gas ≤ allowance →
  gas_allowance_from_token_limit (Er := Er) (X := X) limit l1 info price = Ok allowance →
  eth_to_token_amount info (gas * price + l1) ≤ limit.
Proof.
  intros Hu Hlim Hl1 Hp Hg. unfold gas_allowance_from_token_limit. intros [Hlt Hok]%reject_Ok. bool_simp.
  apply bind_Ok in Hok as (eth & Heth%ok_or_Ok & [= <-]). unfold token_amount_to_eth in Heth.
  rewrite (config_ok info Hu) in Heth. injection Heth as Heth. pose proof Hu as [[Hr Hr'] [Hs Hs']].
  set (t := eth_to_token_amount info l1) in *. set (avail := limit - t) in *.
  assert (Ht0 : 0 ≤ t) by (apply token_amount_nonneg; lia).
  assert (Hsat : 0 ≤ saturating_mul u256_max avail (price_ratio info) ≤ avail * price_ratio info).
  { unfold saturating_mul. assert (0 ≤ avail * price_ratio info) by (apply Z.mul_nonneg_nonneg; unfold avail; lia). ulia. }
  assert (Heth0 : 0 ≤ eth) by (rewrite <- Heth; apply Z.div_pos; lia).
  assert (Hcost : gas * price ≤ eth) by (apply (allowance_affordable eth price gas); lia).
  assert (Hbudget : eth * scale info ≤ avail * price_ratio info).
  { rewrite <- Heth. pose proof (Z.mul_div_le (saturating_mul u256_max avail (price_ratio info)) (scale info) Hs). lia. }
  assert (Hgp : 0 ≤ gas * price) by nonneg.
  pose proof (token_amount_ceil info l1 Hu Hl1) as Hc1. pose proof (token_amount_ceil info (gas * price + l1) Hu ltac:(lia)) as Hc2.
  cbv zeta in Hc1, Hc2. fold t in Hc1.
  assert (Hgs : gas * price * scale info ≤ avail * price_ratio info).
  { pose proof (Z.mul_le_mono_nonneg_r _ _ (scale info) ltac:(lia) Hcost). lia. }
  assert (Hsum : Z.min ((gas * price + l1) * scale info) u256_max ≤ limit * price_ratio info).
  { assert ((gas * price + l1) * scale info = gas * price * scale info + l1 * scale info) by ring.
    assert (limit * price_ratio info = avail * price_ratio info + t * price_ratio info) by (unfold avail; ring).
    destruct (Z.le_gt_cases (l1 * scale info) u256_max); [lia|].
    assert (0 ≤ gas * price * scale info) by nonneg. assert (0 ≤ avail * price_ratio info) by (apply Z.mul_nonneg_nonneg; unfold avail; lia). lia. }
  set (tt' := eth_to_token_amount info (gas * price + l1)) in *. nia.
Qed.

(** A registry entry's price ratio and scale are words. *)
Lemma load_ranges {E} keccak256 (storage : Address → Z → result Z E) id entry :
  (∀ a k v, storage a k = Ok v → is_u256 v) → load keccak256 storage id = Ok (Some entry) →
  is_u256 (e_price_ratio entry) ∧ is_u256 (e_scale entry).
Proof.
  intros Hs Ho. unfold load, read_registry_entry in Ho. apply bind_Ok in Ho as (? & ? & Ho).
  destruct (_ =? 0); [done|]. do 4 (apply bind_Ok in Ho as (? & ?%Hs & Ho)). by injection Ho as <-.
Qed.

(** The same transaction with another gas limit. *)
Definition with_gas_limit {AL SA RA} (g : Z) (e : MorphTxEnv AL SA RA) : MorphTxEnv AL SA RA :=
  let i := inner e in {|
  inner := {| tx_type := tx_type i; TxEnv.caller := TxEnv.caller i; gas_limit := g; gas_price := gas_price i;
              kind := kind i; value := value i; data := data i; nonce := nonce i; chain_id := chain_id i;
              access_list := access_list i; gas_priority_fee := gas_priority_fee i; blob_hashes := blob_hashes i;
              max_fee_per_blob_gas := max_fee_per_blob_gas i; authorization_list := authorization_list i |};
  rlp_bytes := rlp_bytes e; version := version e; fee_token_id := fee_token_id e; fee_limit := fee_limit e;
  reference := reference e; memo := memo e |}.

Section Estimate.
Context {J Er Code Log St CP : Type} `{JournalLaws J Er Code Log St CP}.
Context {AL SA RA : Type} (keccak256 : bytes → Z).
Context {C F : Type} `{ForkConditionOps F} `{MorphHardforks C F} (chain_spec : C) {X : Type}.
Abbreviation env := (MorphTxEnv AL SA RA).
Context (price : env → Z → Z).
Context (spending : env → Z → Z → result Z InvalidTransaction).
Context (check_account : AccountInfo Code → Z → bool → bool → result unit InvalidTransaction).
Abbreviation evm := (MorphEvm J Er Log).
Abbreviation error := (EVMError Er InvalidTransaction).
Context (run_exec_loop : FrameInit Code → sm evm error FrameResult).
Context (eip7702_address : Code → option Address).
Context (upstream : env → result Z (option Er)) (basic : Address → result (option Z) Er) (gas_cap : Z).
Context (ce : CallEnv) (tx : env) (block : BlockEnv) (cfg : Cfg) (e : evm).
Abbreviation sender := (TxEnv.caller (inner tx)).
Abbreviation allowance := (caller_gas_allowance (X := X) chain_spec keccak256 (db_storage (journal e)) basic upstream gas_cap ce tx).
Abbreviation l1_fee := (estimate_l1_fee (X := X) chain_spec (db_storage (journal e)) ce tx).

(** The estimate looks at the state that the transaction is executed on, at its
    hardfork; only Morph transactions name a fee token, and the registry gives the token
    a balance slot (a call-mode token has none). *)
Record estimate_at_state : Prop := {
  es_estimate : disable_block_gas_limit ce = false;
  es_spec : morph_hardfork_at chain_spec (ce_number ce) (ce_timestamp ce) = spec cfg;
  es_basic a o : basic a = Ok o → default 0 o = balance_of (journal e) a;
  es_funds : 0 ≤ balance_of (journal e) sender ≤ u128_max;
  es_fresh : fresh_storage (journal e);
  es_l2 : is_l1_msg tx = false;
  es_token : uses_token_fee tx = true → is_morph_tx tx = true;
  es_limit : ∀ l, fee_limit tx = Some l → 0 ≤ l;
  es_slot entry : uses_token_fee tx = true → load keccak256 (db_storage (journal e)) (token_id tx) = Ok (Some entry) →
    ∃ bs, e_balance_slot entry = Some bs;
}.
Hypothesis Hes : estimate_at_state.

Lemma estimate_l1 l1 : l1_fee = Ok l1 → ∃ info, try_fetch (db_storage (journal e)) (spec cfg) = Ok info
  ∧ l1 = calculate_tx_l1_cost info (default [] (rlp_bytes tx)) (spec cfg) ∧ 0 ≤ l1.
Proof.
  unfold estimate_l1_fee. rewrite (es_l2 Hes), (es_spec Hes). intros [_ [_ Hok]%reject_Ok]%reject_Ok.
  apply bind_Ok in Hok as (b & ->%ok_or_Ok & Hok). apply bind_Ok in Hok as (info & Hi%map_err_Ok & [= <-]).
  exists info. split_and!; [done..|]. eapply l1_cost_range; [|exact Hi]. intros. by eapply db_storage_u256.
Qed.

Lemma balance_of_account_Ok b : balance_of_account (Er := Er) (X := X) basic sender = Ok b → b = balance_of (journal e) sender.
Proof. unfold balance_of_account. intros (o & Ho%map_err_Ok & [= <-])%bind_Ok. by apply (es_basic Hes). Qed.

(** The ETH side. *)
Lemma eth_allowance a g : uses_token_fee tx = false → 0 ≤ value (inner tx) → 0 ≤ max_fee_per_gas tx → 0 ≤ g ≤ a → allowance = Ok a →
  ∃ info, try_fetch (db_storage (journal e)) (spec cfg) = Ok info
  ∧ max_cost (with_gas_limit g tx) (calculate_tx_l1_cost info (default [] (rlp_bytes tx)) (spec cfg)) ≤ balance_of (journal e) sender.
Proof.
  intros Htok Hv Hp Hg. unfold caller_gas_allowance. rewrite (es_estimate Hes). intros (l1 & Hl1%map_err_Ok & Hok)%bind_Ok.
  apply estimate_l1 in Hl1 as (info & Hf & -> & Hl1). exists info. split; [done|].
  assert (Hid : (fee_token_id tx ≫= λ id, if 0 <? id then Some id else None) = None).
  { unfold uses_token_fee in Htok. destruct (fee_token_id tx) as [id|]; [cbn; by rewrite Htok|done]. }
  rewrite Hid in Hok. apply bind_Ok in Hok as (b & ->%balance_of_account_Ok & Hok).
  apply bind_Ok in Hok as (av & Hav%ok_or_Ok & Hok). unfold checked_sub in Hav.
  destruct (Z.leb_spec (value (inner tx)) (balance_of (journal e) sender)); [|done]. injection Hav as <-.
  apply reject_Ok in Hok as [Hlt [= <-]]. bool_simp. unfold max_cost. cbn [inner with_gas_limit gas_limit value].
  assert (Haff : g * gas_price (inner tx) ≤ balance_of (journal e) sender - value (inner tx) - calculate_tx_l1_cost info (default [] (rlp_bytes tx)) (spec cfg)).
  { apply allowance_affordable; [lia|exact Hp|lia|exact (proj2 Hg)]. }
  change (max_fee_per_gas (with_gas_limit g tx)) with (gas_price (inner tx)). lia.
Qed.

(** The token side. *)
Lemma token_allowance a g : uses_token_fee tx = true → 0 ≤ max_fee_per_gas tx → 0 ≤ g ≤ a → allowance = Ok a →
  ∃ info entry bs, try_fetch (db_storage (journal e)) (spec cfg) = Ok info ∧ token_id tx ≠ 0
  ∧ load keccak256 (db_storage (journal e)) (token_id tx) = Ok (Some entry) ∧ e_balance_slot entry = Some bs
  ∧ e_is_active entry = true ∧ 0 < e_price_ratio entry ∧ 0 < e_scale entry
  ∧ value (inner tx) ≤ balance_of (journal e) sender
  ∧ let i := fee_info_at keccak256 (with_gas_limit g tx) entry bs e in
    eth_to_token_amount i (g * max_fee_per_gas tx + calculate_tx_l1_cost info (default [] (rlp_bytes tx)) (spec cfg))
      ≤ effective_fee_limit i (default 0 (fee_limit tx)).
Proof.
  intros Htok Hp Hg. unfold caller_gas_allowance. rewrite (es_estimate Hes). intros (l1 & Hl1%map_err_Ok & Hok)%bind_Ok.
  apply estimate_l1 in Hl1 as (info & Hf & -> & Hl1). set (l1 := calculate_tx_l1_cost _ _ _) in *.
  assert (Hid : (fee_token_id tx ≫= λ id, if 0 <? id then Some id else None) = Some (token_id tx) ∧ 0 < token_id tx).
  { unfold uses_token_fee in Htok. unfold token_id. destruct (fee_token_id tx) as [id|]; [|done]. cbn. rewrite Htok.
    split; [done|by apply Z.ltb_lt]. }
  destruct Hid as [Hid Hpos]. rewrite Hid in Hok. unfold caller_gas_allowance_with_token in Hok.
  apply bind_Ok in Hok as (o & Ho%map_err_Ok & Hok). apply bind_Ok in Hok as (i & ->%ok_or_Ok & Hok).
  apply bind_Ok in Hok as (b & ->%balance_of_account_Ok & Hok).
  unfold load_storage_only in Ho. apply bind_Ok in Ho as (oe & Hload & Ho). destruct oe as [entry|]; [|done].
  apply bind_Ok in Ho as (i' & Hi & [= ->]). destruct (es_slot Hes entry Htok Hload) as [bs Hbs].
  unfold entry_load_storage_only in Hi. rewrite Hbs in Hi. apply bind_Ok in Hi as (v & Hv & [= <-]).
  unfold read_balance_from_storage, read_mapping_value in Hv. pose proof (db_storage_u256 _ _ _ _ Hv) as Hvr. apply (es_fresh Hes) in Hv as Hve.
  assert (Hinfo : into_fee_info entry sender v = fee_info_at keccak256 (with_gas_limit g tx) entry bs e)
    by (unfold fee_info_at; by rewrite Hve).
  rewrite Hinfo in Hok. set (i := fee_info_at keccak256 (with_gas_limit g tx) entry bs e) in *.
  unfold token_gas_allowance in Hok. apply reject_Ok in Hok as [Husable Hok]. apply reject_Ok in Hok as [Hval Hok]. bool_simp.
  destruct Husable as [[Hact Hpr] Hsc].
  destruct (load_ranges keccak256 (db_storage (journal e)) (token_id tx) entry) as [Hpr0 Hsc0]; [intros; by eapply db_storage_u256|done|].
  assert (Hu : usable i) by (subst i; unfold usable; cbn in *; unfold in_range in *; lia).
  replace (balance_slot i) with (Some bs) in Hok by done.
  exists info, entry, bs. split_and!; [done|lia|done|done|by subst i| | |lia|]; [subst i; cbn in *; unfold in_range in *; lia..|].
  cbv zeta. assert (Hbal : 0 ≤ balance i ≤ u256_max) by (rewrite <- Hinfo; cbn; exact Hvr).
  unfold effective_fee_limit. destruct (fee_limit tx) as [l|] eqn:Hl; cbv [default id].
  - pose proof (es_limit Hes l Hl). destruct (Z.eqb_spec l 0); cbn [negb] in Hok;
      apply bind_Ok in Hok as (al & Hal & [= <-]); (eapply token_limit_affordable; [exact Hu| |exact Hl1|exact Hp|exact Hg|exact Hal]); fold i; lia.
  - apply bind_Ok in Hok as (al & Hal & [= <-]). eapply token_limit_affordable; [exact Hu|exact Hbal|exact Hl1|exact Hp|exact Hg|exact Hal].
Qed.

(** C15. Gas that an estimate allows can be paid, in ETH or in a fee token whose balances
    are in a storage slot.  When [caller_gas_allowance] answers with an allowance on the
    [eth_estimateGas] path, a transaction that differs from the request in its gas limit
    only, with any limit within the allowance, is not refused by the fee handler for lack
    of funds on the state the estimate looked at ([estimate_at_state]), with fee and
    balance checks enabled and whatever the base fee: neither because ETH does not cover
    value, gas and L1 fee, nor because its fee token is unusable or its balance or limit
    does not cover gas and L1 fee.  For a token without a balance slot the allowance is
    the gas cap, which nothing compares with the balance, and no such claim is made. *)
Theorem estimated_gas_can_be_paid a g : env_ok (with_gas_limit g tx) → 0 ≤ basefee block →
  revm_tx_laws price spending → revm_check_laws price spending check_account →
  is_fee_charge_disabled cfg = false → is_balance_check_disabled cfg = false →
  allowance = Ok a → g ≤ a →
  ∀ err, (validate_against_state_and_deduct_caller keccak256 price spending check_account run_exec_loop eip7702_address
            (with_gas_limit g tx) block cfg e).2 = Err err → ¬ cannot_pay err.
Proof.
  intros Henv Hbf Hlaws Hcheck Hc1 Hc2 Hal Hga err.
  assert (Hg : 0 ≤ g ≤ a) by (split; [exact (proj1 (env_gas_limit _ Henv))|done]).
  assert (Hv : 0 ≤ value (inner tx)) by exact (proj1 (env_value _ Henv)).
  assert (Hp : 0 ≤ max_fee_per_gas tx) by exact (proj1 (env_max_fee _ Henv)).
  destruct (validate_against_state_and_deduct_caller _ _ _ _ _ _ _ _ _ _) as [e' r] eqn:Hrun. cbn [snd]. intros ->.
  destruct (uses_token_fee tx) eqn:Htok.
  - destruct (token_allowance a g Htok Hp Hg Hal) as (info & entry & bs & Hf & Hid & Hload & Hbs & Hact & Hpr & Hsc & Hval & Hlim).
    assert (Hrun' : validate_and_deduct_token_fee keccak256 price check_account run_exec_loop eip7702_address
      (with_gas_limit g tx) block cfg (token_id tx) (reset e) = (e', Err err)).
    { unfold validate_against_state_and_deduct_caller in Hrun. change (is_l1_msg (with_gas_limit g tx)) with (is_l1_msg tx) in Hrun.
      change (is_morph_tx (with_gas_limit g tx)) with (is_morph_tx tx) in Hrun.
      change (token_id (with_gas_limit g tx)) with (token_id tx) in Hrun.
      rewrite (es_l2 Hes), (es_token Hes Htok) in Hrun. unfold uses_token_fee, token_id in *.
      destruct (fee_token_id tx); [|done]. cbn in *. by rewrite Htok in Hrun. }
    eapply (token_fee_accepted keccak256 price spending check_account run_exec_loop eip7702_address (with_gas_limit g tx) block cfg
      Hlaws Hcheck Henv Hbf Hc1 (token_id tx) entry bs info (reset e)); try done. exact (es_fresh Hes).
  - destruct (eth_allowance a g Htok Hv Hp Hg Hal) as (info & Hf & Hcost).
    rewrite deduct_pays_eth in Hrun.
    + eapply (eth_fee_accepted price spending check_account (with_gas_limit g tx) block cfg Hlaws Hcheck Henv Hbf Hc1 Hc2
        (reset e) _ _ _ Hf); [|exact Hrun]. exact (conj Hcost (proj2 (es_funds Hes))).
    + split; [exact (es_l2 Hes)|]. unfold uses_token_fee in Htok. unfold token_id. cbn.
      destruct (fee_token_id tx); cbn in *; [by rewrite Htok, andb_false_r|by rewrite andb_false_r].
Qed.
End Estimate.

(** ** Requests *)

Section Requests.
Context {ETH B AL SA RA SG TI R Er X Sg : Type} `{AlloyRlp AL SA SG}.
Context (default_access_list : AL) (try_into_unique_input : TI → option (option bytes)).
Context (inner_try_into_tx_env : TransactionRequest AL SA TI R → result (TxEnv AL SA RA) X).
Context (eth_encode_2718 : ETH → bytes) (sign_recovered : RA → SG → SA).
Context (mk_eip7702 : Z → Z → Z → Z → Z → Address → Z → AL → list SA → bytes → SG → ETH).
Context (mk_eip1559 : Z → Z → Z → Z → Z → TxKind → Z → AL → bytes → SG → ETH).
Context (placeholder : SG).
Abbreviation morph_tx := (TxMorph.TxMorph AL SA).
Abbreviation build := (try_build default_access_list try_into_unique_input).
Abbreviation to_env := (try_into_tx_env (Er := Er) inner_try_into_tx_env
  (encode_for_l1_fee eth_encode_2718 sign_recovered mk_eip7702 mk_eip1559 placeholder)).

(** A request names a Morph transaction by its Morph fields. *)
Definition names_morph (r : MorphTransactionRequest AL SA TI R) : bool :=
  (0 <? default 0 (mr_fee_token_id r)) || is_nonzero_reference (mr_reference r) || has_bytes (mr_memo r).

Lemma normalize_nonzero ref : is_nonzero_reference (normalize_reference ref) = is_nonzero_reference ref.
Proof.
  destruct ref as [r|]; [|done]. unfold normalize_reference, is_nonzero_reference.
  destruct (bool_decide (r = TxMorph.B256_ZERO)) eqn:E; cbn [negb]; [done|by rewrite E].
Qed.

(** What a built transaction is: the request's fields, with their defaults, a version
    that follows from the authorizations, and the reference unless it is zero. *)
Record built (r : MorphTransactionRequest AL SA TI R) (m : morph_tx) : Prop := {
  bt_chain : rq_chain_id (mr_inner r) = Some (TxMorph.chain_id m);
  bt_token : TxMorph.fee_token_id m = default 0 (mr_fee_token_id r) ∧ TxMorph.fee_token_id m ≤ u16_max;
  bt_limit : TxMorph.fee_limit m = default 0 (mr_fee_limit r);
  bt_reference : TxMorph.reference m = normalize_reference (mr_reference r);
  bt_memo : TxMorph.memo m = mr_memo r;
  bt_auths : TxMorph.authorization_list m = default [] (rq_authorization_list (mr_inner r));
  bt_version : TxMorph.version m = TxMorph.inferred_version (TxMorph.has_authorizations m);
  bt_to : TxMorph.to m = default Create (rq_to (mr_inner r));
  bt_initcode : TxMorph.to m = Create → TxMorph.input m ≠ [];
  bt_valid : TxMorph.validate m = Ok tt;
}.

Lemma build_None r : build r = Ok None ↔
  is_Some (rq_gas_price (mr_inner r)) ∨ default 0 (mr_fee_token_id r) ≤ u16_max ∧ names_morph r = false.
Proof.
  unfold try_build, try_build_morph_tx_from_request, names_morph. rewrite normalize_nonzero.
  destruct (bool_decide_reflect (is_Some (rq_gas_price (mr_inner r)))) as [Hs|Hn]; [by split; [left|]|].
  rewrite <- !negb_orb. destruct (Z.ltb_spec u16_max (default 0 (mr_fee_token_id r))).
  { split; [done|]. intros [|[]]; [done|lia]. }
  destruct (_ || has_bytes (mr_memo r)); cbn [negb]; [|split; [by right|done]].
  split; [|by intros [|[]]]. intros (c & _ & Hok)%bind_Ok. apply bind_Ok in Hok as (b & _ & [_ Hok]%reject_Ok).
  by apply bind_Ok in Hok as (u & _ & Hok).
Qed.

Lemma build_Some r m : build r = Ok (Some m) → rq_gas_price (mr_inner r) = None ∧ names_morph r = true ∧ built r m.
Proof.
  unfold try_build, try_build_morph_tx_from_request, names_morph. rewrite normalize_nonzero.
  destruct (bool_decide_reflect (is_Some (rq_gas_price (mr_inner r)))) as [|Hn]; [done|]. intros [Hle Hok]%reject_Ok.
  rewrite <- !negb_orb in Hok. destruct (_ || has_bytes (mr_memo r)) eqn:Hnm; [|done]. cbn [negb] in Hok.
  apply bind_Ok in Hok as (c & Hc%ok_or_Ok & Hok). apply bind_Ok in Hok as (b & Hb%ok_or_Ok & [Hic Hok]%reject_Ok).
  apply bind_Ok in Hok as ([] & Hval & [= <-]).
  split_and!; [by apply eq_None_not_Some|done|]. apply Z.ltb_ge in Hle. split; try done.
  - unfold TxMorph.has_authorizations. cbn. by destruct (default [] (rq_authorization_list (mr_inner r))).
  - cbn [TxMorph.to TxMorph.input]. intros Hto Hnil. by rewrite Hto, Hnil in Hic.
Qed.
(** A valid transaction with authorizations does not create a contract. *)
Lemma built_calls r m : built r m →
  negb (bool_decide (default [] (rq_authorization_list (mr_inner r)) = [])) && TxMorph.is_create (TxMorph.to m) = false.
Proof.
  intros Hb. rewrite <- (bt_auths _ _ Hb). pose proof (bt_valid _ _ Hb) as [_ [_ Hv]%reject_Ok]%reject_Ok.
  unfold TxMorph.validate_version in Hv. rewrite (bt_version _ _ Hb) in Hv. unfold TxMorph.has_authorizations in Hv.
  destruct (TxMorph.authorization_list m); [done|]. cbn in Hv.
  apply reject_Ok in Hv as [_ [Hcr _]%reject_Ok]. cbn. exact Hcr.
Qed.

(** The plain environment carries a transaction: it has its fields and its signed
    authorizations. *)
Record carries (m : morph_tx) (i : TxEnv AL SA RA) : Prop := {
  cr_chain : chain_id i = Some (TxMorph.chain_id m);
  cr_nonce : nonce i = TxMorph.nonce m;
  cr_gas : gas_limit i = TxMorph.gas_limit m;
  cr_max_fee : gas_price i = TxMorph.max_fee_per_gas m;
  cr_tip : default 0 (gas_priority_fee i) = TxMorph.max_priority_fee_per_gas m;
  cr_kind : kind i = TxMorph.to m;
  cr_value : value i = TxMorph.value m;
  cr_data : data i = TxMorph.input m;
  cr_access : access_list i = TxMorph.access_list m;
  cr_auths : authorization_list i = map inl (TxMorph.authorization_list m);
}.

(** A built transaction, read back from the environment that carries it. *)
Lemma rebuilt r m i c : built r m → rq_gas_price (mr_inner r) = None → carries m i →
  build_morph_tx_for_l1_fee (SG := SG) sign_recovered
    (with_version (as_morph (env_new i) None (mr_fee_token_id r) (mr_fee_limit r) (normalize_reference (mr_reference r)) (mr_memo r))
      (TxMorph.version m)) c placeholder = Some m.
Proof.
  intros Hb _ [H1 H2 H3 H4 H5 H6 H7 H8 H9 H10].
  destruct Hb as [_ [Htok _] Hlim Href Hmemo _ Hver _ _ _]. unfold build_morph_tx_for_l1_fee, signed_authorizations_for_l1_fee.
  unfold max_fee_per_gas. cbn in *. rewrite H1, H2, H3, H4, H5, H6, H7, H8, H9, H10, map_map, map_id, <- Htok, <- Hlim, <- Href, <- Hmemo.
  destruct m as [? ? ? ? ? ? ? ? v ? ? ? ? auths ?]. cbn in *. unfold TxMorph.has_authorizations in Hver. cbn in Hver. subst v.
  by destruct auths.
Qed.

(** C19. An estimate prices the bytes that signing posts.  When a request builds a Morph
    transaction, it is valid and is what [try_build_and_sign] signs; the environment that
    [eth_call] and [eth_estimateGas] run, provided the plain conversion carries the
    request's fields, is one of a Morph transaction with the same version, fee token, fee
    limit, reference and memo, and the bytes it prices the L1 fee of are the wire encoding
    of the transaction under the placeholder signature. *)
Theorem estimate_prices_signed_bytes r m i c build_typed_tx (sign_morph : morph_tx → result SG Sg) sign_ethereum
    (new_unhashed : ETH → SG → EthereumTxEnvelope ETH B) :
  build r = Ok (Some m) → inner_try_into_tx_env (with_chain_id c (mr_inner r)) = Ok i → carries m i →
  TxMorph.validate m = Ok tt
  ∧ (∀ signature, sign_morph m = Ok signature →
       try_build_and_sign default_access_list try_into_unique_input build_typed_tx sign_morph sign_ethereum new_unhashed r
       = Ok (MorphTxEnvelope.Morph {| MorphTxEnvelope.tx := m; MorphTxEnvelope.signature := signature |}))
  ∧ ∃ e, to_env c r = Ok e ∧ is_morph_tx e = true
    ∧ version e = Some (TxMorph.version m) ∧ default 0 (fee_token_id e) = TxMorph.fee_token_id m
    ∧ default 0 (fee_limit e) = TxMorph.fee_limit m ∧ reference e = TxMorph.reference m ∧ memo e = TxMorph.memo m
    ∧ rlp_bytes e = Some (rlp eth_encode_2718 (MorphTxEnvelope.Morph
                            {| MorphTxEnvelope.tx := m; MorphTxEnvelope.signature := placeholder |})).
Proof.
  intros Hb Hi Hc. destruct (build_Some r m Hb) as (Hgp & Hnm & Hbt).
  split_and!; [exact (bt_valid _ _ Hbt)|intros sg Hs; unfold try_build_and_sign; by rewrite Hb, Hs|].
  pose proof (rebuilt r m i c Hbt Hgp Hc) as Hre. destruct (bt_token _ _ Hbt) as [Htok Hu16].
  assert (Hver : TxMorph.inferred_version (negb (bool_decide (default [] (rq_authorization_list (mr_inner r)) = []))) = TxMorph.version m).
  { rewrite (bt_version _ _ Hbt). unfold TxMorph.has_authorizations. rewrite (bt_auths _ _ Hbt).
    by destruct (default [] (rq_authorization_list (mr_inner r))). }
  unfold try_into_tx_env. cbn [rq_authorization_list rq_gas_price with_chain_id]. rewrite Hi, Hgp, Hver. cbn [map_err result_bind].
  assert (Hmorph : match mr_fee_token_id r with Some id => 0 <? id | None => false end
    || is_nonzero_reference (normalize_reference (mr_reference r)) || has_bytes (mr_memo r) = true).
  { rewrite normalize_nonzero, <- Hnm. unfold names_morph. by destruct (mr_fee_token_id r). }
  rewrite Hmorph.
  assert (Ht : (match mr_fee_token_id r with
                | Some id => reject (InvalidParams (Er := Er) (X := X) "invalid token"%string) when u16_max <? id in Ok tt
                | None => Ok tt end) = Ok tt).
  { destruct (mr_fee_token_id r) as [id|]; [|done]. cbn in Htok. subst. by rewrite (proj2 (Z.ltb_ge _ _) Hu16). }
  rewrite Ht. cbn [result_bind kind inner as_morph env_new]. rewrite (cr_kind _ _ Hc), (built_calls r m Hbt). cbn [result_bind].
  eexists. split; [done|]. unfold encode_for_l1_fee. rewrite Hre. cbn.
  by rewrite (bt_limit _ _ Hbt), (bt_reference _ _ Hbt), (bt_memo _ _ Hbt).
Qed.
End Requests.

(** ** A concrete estimate *)

Import Concrete TokenSamples MapJournal FeeSamples PoolSamples.

Definition sample_call : CallEnv := {| ce_number := 9; ce_timestamp := 1793772001; ce_chain_id := 2818;
  disable_block_gas_limit := false |}.
Definition sample_basic (a : Address) : result (option Z) unit := Ok (balances sample_journal !! a).
Definition sample_allowance (tx : MorphTxEnv (list bytes) bytes bytes) : result Z (MorphEthApiError unit unit) :=
  caller_gas_allowance mainnet mix (db_storage sample_journal) sample_basic (λ _, Err None) 50000000 sample_call tx.

Lemma sample_estimate : estimate_at_state (Er := unit) mix mainnet sample_basic sample_call first_env sample_cfg start.
Proof.
  split; try done.
  - intros a o [= <-]. done.
  - exact start_fresh.
  - intros l [= <-]. done.
  - intros entry _ Hload. vm_compute in Hload. injection Hload as <-. exists 5. by vm_compute.
Qed.

Lemma estimated_gas_can_be_paid_witness :
  sample_allowance first_env = Ok 249999753
  ∧ let r := (validate_against_state_and_deduct_caller mix price spending check_account run_frame no_delegate
                (with_gas_limit 249999753 first_env) sample_block sample_cfg start).2 in
    r = Ok tt ∧ ∀ err, r = Err err → ¬ cannot_pay err.
Proof.
  split; [vm_compute; reflexivity|]. split; [vm_compute; reflexivity|].
  simple refine (estimated_gas_can_be_paid mix mainnet (X := unit) price spending check_account run_frame no_delegate
    (λ _, Err None) sample_basic 50000000 sample_call first_env sample_block sample_cfg start sample_estimate
    249999753 249999753 _ _ sample_laws _ _ _ _ _).
  - split; cbn; ulia.
  - cbn. lia.
  - split; [done|]. intros t b p Hle. unfold spending. rewrite (proj2 (Z.leb_le _ _) Hle). eauto.
  - reflexivity.
  - reflexivity.
  - vm_compute. reflexivity.
  - reflexivity.
Defined.

(** ** A concrete request *)

(** A request with an authorization and a reference, on the chain of the node. *)
Definition sample_request : MorphTransactionRequest (list bytes) bytes (option bytes) unit := {|
  mr_inner := {| rq_to := Some (Call 0x33); rq_gas_price := None; rq_max_fee_per_gas := Some 2000000;
    rq_max_priority_fee_per_gas := Some 500000; rq_gas := Some 90000; rq_value := None; rq_input := Some [1; 2];
    rq_nonce := Some 4; rq_chain_id := Some 2818; rq_access_list := None;
    rq_authorization_list := Some [[0xc1; 0x05]]; rq_rest := tt |};
  mr_fee_token_id := Some 3; mr_fee_limit := None; mr_reference := Some (repeat 7 32); mr_memo := None |}.

(** The plain conversion, field by field. *)
Definition plain_env (req : TransactionRequest (list bytes) bytes (option bytes) unit) : result (TxEnv (list bytes) bytes bytes) unit :=
  Ok {| tx_type := 4; TxEnv.caller := 0x11; gas_limit := default 30000000 (rq_gas req);
    gas_price := default 0 (rq_max_fee_per_gas req); kind := default Create (rq_to req); value := default 0 (rq_value req);
    data := default [] (rq_input req); nonce := default 0 (rq_nonce req); chain_id := rq_chain_id req;
    access_list := default [] (rq_access_list req); gas_priority_fee := rq_max_priority_fee_per_gas req;
    blob_hashes := []; max_fee_per_blob_gas := 0;
    authorization_list := map inl (default [] (rq_authorization_list req)) |}.

Definition sample_built : TxMorph.TxMorph (list bytes) bytes := {|
  TxMorph.chain_id := 2818; TxMorph.nonce := 4; TxMorph.gas_limit := 90000;
  TxMorph.max_fee_per_gas := 2000000; TxMorph.max_priority_fee_per_gas := 500000;
  TxMorph.to := Call 0x33; TxMorph.value := 0; TxMorph.access_list := [];
  TxMorph.version := 2; TxMorph.fee_token_id := 3; TxMorph.fee_limit := 0;
  TxMorph.reference := Some (repeat 7 32); TxMorph.memo := None; TxMorph.authorization_list := [[0xc1; 0x05]];
  TxMorph.input := [1; 2] |}.

Lemma estimate_prices_signed_bytes_witness :
  ∃ e, try_into_tx_env (Er := unit) plain_env
         (encode_for_l1_fee (ETH := unit) (λ _, []) (λ r _, r) (λ _ _ _ _ _ _ _ _ _ _ _, tt) (λ _ _ _ _ _ _ _ _ _ _, tt)
            TxMorph.sample_signature) 2818 sample_request = Ok e
    ∧ rlp_bytes e = Some (rlp (ETH := unit) (λ _, []) (MorphTxEnvelope.Morph
        {| MorphTxEnvelope.tx := sample_built; MorphTxEnvelope.signature := TxMorph.sample_signature |})).
Proof.
  assert (Hb : try_build [] Some sample_request = Ok (Some sample_built)) by (vm_compute; reflexivity).
  assert (Hc : ∀ i, plain_env (with_chain_id 2818 (mr_inner sample_request)) = Ok i → carries sample_built i)
    by (intros i [= <-]; by split).
  destruct (proj2 (proj2 (estimate_prices_signed_bytes (B := unit) (Er := unit) (Sg := unit) [] Some plain_env (λ _ : unit, []) (λ r _, r)
    (λ _ _ _ _ _ _ _ _ _ _ _, tt) (λ _ _ _ _ _ _ _ _ _ _, tt) TxMorph.sample_signature sample_request sample_built _ 2818
    (λ _, None) (λ _, Ok TxMorph.sample_signature) (λ _, Err tt) (λ t _, ELegacy t) Hb eq_refl (Hc _ eq_refl))))
    as (e & He & _ & _ & _ & _ & _ & _ & Hr).
  exists e. exact (conj He Hr).
Defined.
