(* ===== verification/ProofsRpc.v ===== *)
(** * Serving historical proofs

    Models the state provider of the proofs store (proofs/src/provider.rs: the lazily
    acquired snapshot and the account and storage reads), the factory that checks the
    window and pins a provider to one snapshot (rpc/src/state.rs), and the handlers of
    [eth_getProof], [eth_getMultiProof] (rpc/src/eth/proofs.rs), [debug_executionWitness]
    (rpc/src/execution_witness.rs) and [debug_proofsSyncStatus] (rpc/src/proof_status.rs).

    The live store may change between any two calls: an operation takes the store that is
    committed when it runs.  reth's proof and witness generation over a snapshot, and
    block lookups in reth's database, are parameters. *)

From S2P Require Import Prelude.
From S2P Require Import Rlp.
From S2P Require Import Hardfork.
From S2P Require Import PayloadTypes.
From S2P Require Import Versioned.
From S2P Require Import HistoryWrites.
From S2P Require Import ProofsStore.
From S2P Require Import StoreRefinement.
From S2P Require Import StoreSafety.
From S2P Require Import ProofsSync.
From stdpp Require Import gmap.
#[local] Open Scope Z_scope.

(** ** The state provider *)

Section Provider.
Context {Tb C Pt : Type → Type → Type} {E Node Account : Type}.
Context `{DupDb Tb C E, PlainDb Pt E}.
Abbreviation db := (Db Tb Pt Node Account).
Abbreviation err := (MorphProofsStorageError E).
Context (keccak256 : bytes → Z).
(** [ro_tx]: beginning a read transaction, whose snapshot is the committed store. *)
Context (begin_ro : db → result unit E).

(** [MorphProofsStateProviderRef], but for the auxiliary provider. *)
Record MorphProofsStateProviderRef := {
  sp_block_number : Z;
  lazy_tx : option db;
}.

Definition new (block_number : Z) : MorphProofsStateProviderRef :=
  {| sp_block_number := block_number; lazy_tx := None |}.
Definition new_with_tx (block_number : Z) (tx : db) : MorphProofsStateProviderRef :=
  {| sp_block_number := block_number; lazy_tx := Some tx |}.

Definition ro_tx (live : db) : result db err :=
  let? _ := lift (begin_ro live) in Ok live.

Definition ensure_tx (live : db) (p : MorphProofsStateProviderRef) : MorphProofsStateProviderRef * result db err :=
  match lazy_tx p with
  | Some tx => (p, Ok tx)
  | None =>
      match ro_tx live with
      | Ok tx => ({| sp_block_number := sp_block_number p; lazy_tx := Some tx |}, Ok tx)
      | Err e => (p, Err e)
      end
  end.

Definition hashed_address (a : Address) : B256 := keccak256 (be_word 20 a).

Definition basic_account (fuel : nat) (address : Address) (live : db) (p : MorphProofsStateProviderRef)
  : MorphProofsStateProviderRef * option (result (option Account) err) :=
  let hashed_key := hashed_address address in
  let '(p, tx) := ensure_tx live p in
  (p, let! tx := Some tx in
      let! c := Some (lift (open_cursor (HashedAccountHistory tx))) in
      let! '(_, o) := lift_loop (cursor_seek (sp_block_number p) fuel hashed_key c) in
      Some (Ok (o ≫= λ '(key, account), if bool_decide (key = hashed_key) then Some account else None))).

Definition storage_by_hashed_key (fuel : nat) (address : Address) (hashed_key : B256) (live : db) (p : MorphProofsStateProviderRef)
  : MorphProofsStateProviderRef * option (result (option Z) err) :=
  let '(p, tx) := ensure_tx live p in
  (p, let! tx := Some tx in
      let! c := Some (lift (open_cursor (HashedStorageHistory tx))) in
      let! '(_, o) := lift_loop (storage_seek (sp_block_number p) (hashed_address address) fuel hashed_key c) in
      Some (Ok (o ≫= λ '(key, val), if bool_decide (key = hashed_key) then Some val else None))).

Definition storage (fuel : nat) (address : Address) (storage_key : B256) (live : db) (p : MorphProofsStateProviderRef)
  : MorphProofsStateProviderRef * option (result (option Z) err) :=
  storage_by_hashed_key fuel address (keccak256 (be_word 32 storage_key)) live p.
End Provider.

(** ** The factory *)

(** [BlockId]; [Tag] is a number or a tag. *)
Inductive BlockId (T : Type) := ByHash (block_hash : B256) | ByNumber (t : T).
Arguments ByHash {T}.
Arguments ByNumber {T}.

(** [EthApiError], as the proof handlers produce it; [PE] is reth's [ProviderError]. *)
Inductive ProofApiError (T PE E : Type) :=
| HeaderNotFound (id : BlockId T)
| FromProvider (e : PE)
| FromStorage (e : MorphProofsStorageError E)
| FromWindow (e : ProofWindowError)
| InternalError (e : PE).
Arguments HeaderNotFound {T PE E}.
Arguments FromProvider {T PE E}.
Arguments FromStorage {T PE E}.
Arguments FromWindow {T PE E}.
Arguments InternalError {T PE E}.

Section Factory.
Context {Tb C Pt : Type → Type → Type} {E Node Account T PE : Type}.
Context `{DupDb Tb C E, PlainDb Pt E}.
Abbreviation db := (Db Tb Pt Node Account).
Abbreviation api_error := (ProofApiError T PE E).
Context (begin_ro : db → result unit E).
(** reth's provider: [block_number_for_id], [block_hash] and [latest]. *)
Context (default_id : BlockId T) (block_number_for_id : BlockId T → result (option Z) PE).
Context (block_hash : Z → result (option B256) PE) (open_latest : result unit PE).

Definition state_provider (live : db) (block_id : option (BlockId T)) : result (MorphProofsStateProviderRef (Tb := Tb) (Pt := Pt)) api_error :=
  let block_id := default default_id block_id in
  let? o := map_err FromProvider (block_number_for_id block_id) in
  let? block_number := ok_or o (HeaderNotFound block_id) in
  do? match block_id with
      | ByHash requested =>
          let? canonical_hash := map_err FromProvider (block_hash block_number) in
          reject HeaderNotFound block_id when negb (bool_decide (canonical_hash = Some requested)) in Ok tt
      | ByNumber _ => Ok tt
      end in
  let? proof_tx := map_err FromStorage (ro_tx begin_ro live) in
  let? earliest := map_err FromStorage (inner_get_earliest_block_number_hash proof_tx) in
  let? latest := map_err FromStorage (inner_get_latest_block_number_hash proof_tx) in
  do? map_err FromWindow (validate_window block_number (number <$> earliest) (number <$> latest)) in
  let? latest := ok_or latest (FromWindow Uninitialized) in
  let? canonical_latest_hash := map_err FromProvider (block_hash (number latest)) in
  do? map_err FromWindow (validate_canonical_anchor (number latest) (nhash latest) canonical_latest_hash) in
  do? map_err FromProvider open_latest in
  Ok (new_with_tx block_number proof_tx).

(** [debug_proofsSyncStatus] *)
Record ProofsSyncStatus := { ps_earliest : option Z; ps_latest : option Z }.

Definition proofs_sync_status (live : db) : result ProofsSyncStatus (MorphProofsStorageError E) :=
  let? tx := ro_tx begin_ro live in
  let? earliest := inner_get_earliest_block_number_hash tx in
  let? latest := inner_get_latest_block_number_hash tx in
  Ok {| ps_earliest := number <$> earliest; ps_latest := number <$> latest |}.
End Factory.

(** ** Handlers *)

Definition MAX_PROOF_KEYS : Z := 1024.
Definition DEFAULT_MAX_MULTI_PROOF_TARGETS : Z := 256.
Definition usize_max : Z := u64_max.

Definition slots_len {A} (l : list A) : Z := Z.of_nat (length l).

(** [ProofKeyLimit::check]; the numbers of the messages are left out. *)
Definition check (keys_len : Z) : result unit string :=
  reject "too many storage keys"%string when MAX_PROOF_KEYS <? keys_len in Ok tt.

(** [try_fold] of [checked_add], over [usize]. *)
Definition total_slots (targets : list (Address * list B256)) : option Z :=
  fold_left (λ total t, total ≫= λ n, let s := n + slots_len t.2 in if s <=? usize_max then Some s else None)
    targets (Some 0).

Definition check_multi (targets : list (Address * list B256)) (max_targets : Z) : result unit string :=
  reject "too many proof targets"%string when max_targets <? slots_len targets in
  let storage_keys := default usize_max (total_slots targets) in
  reject "too many storage keys"%string when MAX_PROOF_KEYS <? storage_keys in
  Ok tt.

(** [ProofRpcMetrics], without the latency. *)
Record ProofRpcMetrics := {
  requests_total : Z;
  rejected_total : Z;
  successful_responses_total : Z;
  failures_total : Z;
}.
Definition record_request (m : ProofRpcMetrics) : ProofRpcMetrics :=
  {| requests_total := requests_total m + 1; rejected_total := rejected_total m;
     successful_responses_total := successful_responses_total m; failures_total := failures_total m |}.
Definition record_rejection (m : ProofRpcMetrics) : ProofRpcMetrics :=
  {| requests_total := requests_total m; rejected_total := rejected_total m + 1;
     successful_responses_total := successful_responses_total m; failures_total := failures_total m |}.
Definition record_response {A X} (r : result A X) (m : ProofRpcMetrics) : ProofRpcMetrics :=
  match r with
  | Ok _ => {| requests_total := requests_total m; rejected_total := rejected_total m;
               successful_responses_total := successful_responses_total m + 1; failures_total := failures_total m |}
  | Err _ => {| requests_total := requests_total m; rejected_total := rejected_total m;
                successful_responses_total := successful_responses_total m; failures_total := failures_total m + 1 |}
  end.

(** An answer of a handler that is no error of the proof task: invalid parameters. *)
Inductive RpcError (X : Type) := InvalidParams (message : string) | TaskError (e : X).
Arguments InvalidParams {X}.
Arguments TaskError {X}.

Section Handlers.
Context {Tb C Pt : Type → Type → Type} {E Node Account T PE : Type}.
Context `{DupDb Tb C E, PlainDb Pt E}.
Abbreviation db := (Db Tb Pt Node Account).
Abbreviation api_error := (ProofApiError T PE E).
Context (keccak256 : bytes → Z) (begin_ro : db → result unit E).
Context (default_id : BlockId T) (block_number_for_id : BlockId T → result (option Z) PE).
Context (block_hash : Z → result (option B256) PE) (open_latest : result unit PE).
Abbreviation provider := (MorphProofsStateProviderRef (Tb := Tb) (Pt := Pt) (Node := Node) (Account := Account)).
Abbreviation provider_at := (state_provider begin_ro default_id block_number_for_id block_hash open_latest).

(** reth's proofs over a snapshot at a block, a multiproof's account proof, and the
    response of a proof; [JsonStorageKey]. *)
Context {AP MP Resp Key : Type}.
Context (account_proof_over : db → Z → Address → list B256 → result AP PE).
Context (multiproof_over : db → Z → gmap B256 (gset B256) → result MP PE).
Context (account_proof : MP → Address → list B256 → result AP PE).
Context (into_eip1186_response : AP → list Key → Resp) (as_b256 : Key → B256) (key_from : B256 → Key).

(** [spawn_proof_task]: the permit, then the task. *)
Definition spawn_proof_task {A} (permit : result unit PE) (task : result A api_error) : result A api_error :=
  let? _ := map_err InternalError permit in task.

(** [proof] and [multiproof] of the provider. *)
Definition proof (address : Address) (slots : list B256) (live : db) (p : provider) : result AP api_error :=
  let? tx := map_err FromStorage (ensure_tx begin_ro live p).2 in
  map_err FromProvider (account_proof_over tx (sp_block_number p) address slots).

Definition multiproof (targets : gmap B256 (gset B256)) (live : db) (p : provider) : result MP api_error :=
  let? tx := map_err FromStorage (ensure_tx begin_ro live p).2 in
  map_err FromProvider (multiproof_over tx (sp_block_number p) targets).

Definition multiproof_targets (targets : list (Address * list B256)) : gmap B256 (gset B256) :=
  fold_left (λ m '(address, slots),
      partial_alter (λ o, Some (default ∅ o ∪ list_to_set (map (λ s, keccak256 (be_word 32 s)) slots)))
        (hashed_address keccak256 address) m)
    targets ∅.

(** The committed store is [live] when the factory looks at it and [later] when the
    proof is generated. *)
Definition get_proof (permit : result unit PE) (live later : db) (address : Address) (keys : list Key)
    (block : option (BlockId T)) (m : ProofRpcMetrics) : ProofRpcMetrics * result Resp (RpcError api_error) :=
  let m := record_request m in
  match check (slots_len keys) with
  | Err msg => (record_rejection m, Err (InvalidParams msg))
  | Ok _ =>
      let result := spawn_proof_task permit (
        let storage_keys := map as_b256 keys in
        let? p := provider_at live block in
        let? ap := proof address storage_keys later p in
        Ok (into_eip1186_response ap keys)) in
      (record_response result m, map_err TaskError result)
  end.

(** [collect] of results: the first error. *)
Fixpoint collect {A X} (l : list (result A X)) : result (list A) X :=
  match l with
  | [] => Ok []
  | r :: l => let? a := r in let? rest := collect l in Ok (a :: rest)
  end.

Definition get_multi_proof (max_multi_proof_targets : Z) (permit : result unit PE) (live later : db)
    (targets : list (Address * list B256)) (block : option (BlockId T)) (m : ProofRpcMetrics)
  : ProofRpcMetrics * result (list Resp) (RpcError api_error) :=
  let m := record_request m in
  match check_multi targets max_multi_proof_targets with
  | Err msg => (record_rejection m, Err (InvalidParams msg))
  | Ok _ =>
      let result := spawn_proof_task permit (
        let? state := provider_at live block in
        let? mp := multiproof (multiproof_targets targets) later state in
        collect (map (λ '(address, slots),
          let? ap := map_err InternalError (account_proof mp address slots) in
          Ok (into_eip1186_response ap (map key_from slots))) targets)) in
      (record_response result m, map_err TaskError result)
  end.

(** *** Execution witnesses *)

Definition parent_block_id (block_number : Z) (parent_hash : B256) : result (BlockId T) string :=
  reject "genesis block has no parent state to generate a witness against"%string when block_number =? 0 in
  Ok (ByHash parent_hash).

(** [recovered_block], a block's execution on a snapshot at a block, and the witness of
    the state it leaves. *)
Context {Block Mode Witness Executed : Type} (default_mode : Mode).
Context (recovered_block : BlockId T → result (option Block) PE).
Context (header_number : Block → Z) (parent_hash : Block → B256).
Context (execute_block : db → Z → Block → result Executed PE).
Context (into_execution_witness : Executed → db → Z → Z → Mode → result Witness PE).

Definition witness_for_block (permit : result unit PE) (live later : db) (block_id : BlockId T) (mode : option Mode)
    (m : ProofRpcMetrics) : ProofRpcMetrics * result Witness (RpcError api_error) :=
  let m := record_request m in
  let mode := default default_mode mode in
  match (let? o := map_err FromProvider (recovered_block block_id) in ok_or o (HeaderNotFound block_id)) with
  | Err e => (record_rejection m, Err (TaskError e))
  | Ok block =>
      match parent_block_id (header_number block) (parent_hash block) with
      | Err msg => (record_rejection m, Err (InvalidParams msg))
      | Ok parent_id =>
          let result := spawn_proof_task permit (
            let? state := provider_at live (Some parent_id) in
            let? tx := map_err FromStorage (ensure_tx begin_ro later state).2 in
            let? executed := map_err InternalError (execute_block tx (sp_block_number state) block) in
            map_err FromProvider (into_execution_witness executed tx (sp_block_number state) (header_number block) mode)) in
          (record_response result m, map_err TaskError result)
      end
  end.
End Handlers.

(** ** What providers read *)

Section Reads.
Context {Tb C Pt : Type → Type → Type} {E Node Account : Type}.
Context `{DupDbLaws Tb C E, PlainDbLaws Pt E}.

Lemma elem_of_live_among {K V} `{KeyOrdLaws K} n (rs : list (K * VersionedValue V)) ks k v :
  (k, v) ∈ live_among n rs ks ↔ k ∈ ks ∧ view rs n k = Some v.
Proof.
  unfold live_among. rewrite list_elem_of_omap. split.
  - intros (k' & Hk & He). destruct (view rs n k') eqn:Hv; cbn in He; by simplify_eq.
  - intros [Hk Hv]. exists k. by rewrite Hv.
Qed.

(** Seeking a key and comparing what is found reads the key. *)
Lemma live_head {K V} `{KeyOrdLaws K} n (rs : list (K * VersionedValue V)) k : sorted_rows rs →
  match head (live_among n rs (from k (keys_of rs))) with
  | Some (k', v) => if bool_decide (k' = k) then Some v else None
  | None => None
  end = view rs n k.
Proof.
  intros Hs. destruct (view rs n k) as [v|] eqn:Hv.
  - rewrite (from_member k) by (first [by apply keys_sorted|by eapply view_key]). cbn. rewrite Hv. cbn.
    by rewrite bool_decide_true.
  - destruct (head _) as [[k' v']|] eqn:Hh; [|done]. case_bool_decide as Hk; [|done]. subst k'.
    apply head_Some_elem_of, elem_of_live_among in Hh as [_ Hh]. by rewrite Hv in Hh.
Qed.

Lemma slot_head n (rs : list (Z * Z * VersionedValue Z)) a k : sorted_rows rs →
  match head (nonzero (bound_entries a (live_among n rs (from (a, k) (keys_of rs))))) with
  | Some (k', v) => if bool_decide (k' = k) then Some v else None
  | None => None
  end = nz (view rs n (a, k)).
Proof.
  intros Hs. set (l := nonzero _).
  assert (Hin : ∀ v, (k, v) ∈ l → nz (view rs n (a, k)) = Some v).
  { intros v [Hv Hne]%elem_of_nonzero. rewrite elem_of_bound, elem_of_live_among in Hv. destruct Hv as [_ ->].
    cbn. by destruct (Z.eqb_spec v 0). }
  destruct (nz (view rs n (a, k))) as [v|] eqn:Hnz.
  - assert (Hv : view rs n (a, k) = Some v ∧ v ≠ 0).
    { unfold nz in Hnz. destruct (view rs n (a, k)) as [x|]; [|done]. cbn in Hnz. by destruct (Z.eqb_spec x 0); simplify_eq. }
    destruct Hv as [Hv Hne].
    assert (Hl : live_among n rs (from (a, k) (keys_of rs)) = (a, k, v) :: live_among n rs (after (a, k) (keys_of rs))).
    { rewrite (from_member (a, k)) by (first [by apply keys_sorted|by eapply view_key]). unfold live_among. cbn. by rewrite Hv. }
    subst l. rewrite Hl. unfold bound_entries, nonzero. cbn. rewrite Z.eqb_refl. cbn.
    rewrite (proj2 (Z.eqb_neq v 0) Hne). cbn. by rewrite bool_decide_true.
  - destruct (head l) as [[k' v']|] eqn:Hh; [|done]. case_bool_decide as Hk; [|done]. subst k'.
    apply head_Some_elem_of, Hin in Hh. done.
Qed.

(** The reads of the provider, over the rows of its snapshot. *)
Context (keccak256 : bytes → Z) (begin_ro : Db Tb Pt Node Account → result unit E).
Abbreviation provider := (MorphProofsStateProviderRef (Tb := Tb) (Pt := Pt) (Node := Node) (Account := Account)).

Lemma account_read fuel address live (p : provider) tx : lazy_tx p = Some tx →
  wf_rows (rows (HashedAccountHistory tx)) → (length (keys_of (rows (HashedAccountHistory tx))) ≤ fuel)%nat →
  (basic_account keccak256 begin_ro fuel address live p).1 = p
  ∧ succeeds (basic_account keccak256 begin_ro fuel address live p).2
      (λ o, o = view (rows (HashedAccountHistory tx)) (sp_block_number p) (hashed_address keccak256 address)).
Proof.
  intros Htx Hwf Hf. unfold basic_account, ensure_tx. rewrite Htx. cbv iota beta. cbn [fst snd]. split; [done|].
  eapply (succeeds_bind _ _ (λ t, t = tx)); [by apply succeeds_Ok|]. intros ? ->.
  eapply succeeds_bind; [apply succeeds_lift, law_open|]. intros c [Hc _].
  eapply succeeds_bind; [apply succeeds_lift_loop, cursor_seek_spec; by rewrite Hc|]. intros [c' o] [_ Ho].
  apply succeeds_Ok. rewrite <- (live_head _ _ _ (proj1 Hwf)). rewrite Hc in Ho.
  destruct o as [[k v]|]; [destruct Ho as [_ Ho]|]; by rewrite Ho.
Qed.

Lemma slot_read fuel address key live (p : provider) tx : lazy_tx p = Some tx →
  wf_rows (rows (HashedStorageHistory tx)) → (2 * length (keys_of (rows (HashedStorageHistory tx))) < fuel)%nat →
  (storage keccak256 begin_ro fuel address key live p).1 = p
  ∧ succeeds (storage keccak256 begin_ro fuel address key live p).2
      (λ o, o = nz (view (rows (HashedStorageHistory tx)) (sp_block_number p)
                      (hashed_address keccak256 address, keccak256 (be_word 32 key)))).
Proof.
  intros Htx Hwf Hf. unfold storage, storage_by_hashed_key, ensure_tx. rewrite Htx. cbv iota beta. cbn [fst snd]. split; [done|].
  eapply (succeeds_bind _ _ (λ t, t = tx)); [by apply succeeds_Ok|]. intros ? ->.
  eapply succeeds_bind; [apply succeeds_lift, law_open|]. intros c [Hc _].
  eapply succeeds_bind; [apply succeeds_lift_loop, storage_seek_spec; by rewrite Hc|]. intros [c' o] [_ Ho].
  apply succeeds_Ok. rewrite <- (slot_head _ _ _ _ (proj1 Hwf)). rewrite Hc in Ho.
  destruct o as [[k v]|]; [destruct Ho as [_ Ho]|]; by rewrite Ho.
Qed.
End Reads.

(** ** What is served *)

Section Served.
Context {Tb C Pt : Type → Type → Type} {E Node Account T PE : Type}.
Context `{DupDbLaws Tb C E, PlainDbLaws Pt E}.
Abbreviation db := (Db Tb Pt Node Account).
Context (keccak256 : bytes → Z) (begin_ro : db → result unit E).
Context (default_id : BlockId T) (block_number_for_id : BlockId T → result (option Z) PE).
Context (block_hash : Z → result (option B256) PE) (open_latest : result unit PE).
Abbreviation provider := (MorphProofsStateProviderRef (Tb := Tb) (Pt := Pt) (Node := Node) (Account := Account)).
Abbreviation provider_at := (state_provider begin_ro default_id block_number_for_id block_hash open_latest).
Implicit Types (w : Window (Node := Node) (Account := Account)).

(** A block that a window on the canonical chain serves. *)
Record servable w (id : BlockId T) (n : Z) : Prop := {
  sv_block : block_number_for_id id = Ok (Some n);
  sv_hash h : id = ByHash h → block_hash n = Ok (Some h);
  sv_window : number (w_earliest w) ≤ n ≤ number (w_latest w);
  sv_anchor : block_hash (number (w_latest w)) = Ok (Some (nhash (w_latest w)));
}.

Lemma earliest_value (d : db) w o : represents d w → inner_get_earliest_block_number_hash d = Ok o → o = Some (w_earliest w).
Proof.
  intros [Hinv _] Ho. unfold inner_get_earliest_block_number_hash, inner_get_block_number_hash in Ho.
  pose proof (law_p_seek_exact EarliestBlock (ProofWindow d)) as Hl. unfold lift in Ho.
  destruct (p_seek_exact EarliestBlock _) as [x|]; [|done]. injection Ho as <-. cbn in Hl. by rewrite Hl, (si_earliest _ _ _ Hinv).
Qed.

Lemma latest_value (d : db) w o : represents d w → inner_get_latest_block_number_hash d = Ok o → o = Some (w_latest w).
Proof.
  intros [Hinv _] Ho. destruct (get_latest_spec d _ _ Hinv) as (r & [= Hr] & Hl). rewrite Ho in Hr. by subst r.
Qed.

(** The factory answers with a provider pinned to the store it looked at. *)
Lemma provider_pinned (live : db) w id p : represents live w → provider_at live id = Ok p →
  lazy_tx p = Some live ∧ servable w (default default_id id) (sp_block_number p).
Proof.
  intros Hrep Hok. unfold state_provider in Hok. cbv zeta in Hok. set (i := default default_id id) in *.
  apply bind_Ok in Hok as (o & Ho%map_err_Ok & Hok). apply bind_Ok in Hok as (n & ->%ok_or_Ok & Hok).
  apply bind_Ok in Hok as ([] & Hcan & Hok). apply bind_Ok in Hok as (tx & Htx%map_err_Ok & Hok).
  unfold ro_tx in Htx. apply bind_Ok in Htx as ([] & _ & [= <-]).
  apply bind_Ok in Hok as (oe & ->%map_err_Ok%(earliest_value _ _ _ Hrep) & Hok).
  apply bind_Ok in Hok as (ol & ->%map_err_Ok%(latest_value _ _ _ Hrep) & Hok).
  apply bind_Ok in Hok as ([] & Hwin%map_err_Ok & Hok). apply bind_Ok in Hok as (l & Hl%ok_or_Ok & Hok). injection Hl as <-.
  apply bind_Ok in Hok as (ch & Hch%map_err_Ok & Hok). apply bind_Ok in Hok as ([] & Hanchor%map_err_Ok & Hok).
  apply bind_Ok in Hok as ([] & _ & [= <-]). cbn. split; [done|]. split.
  - done.
  - intros h Hi. rewrite Hi in Hcan. apply bind_Ok in Hcan as (c & Hc%map_err_Ok & [Hn _]%reject_Ok).
    apply negb_false_iff, bool_decide_eq_true in Hn. by subst c.
  - unfold validate_window in Hwin. cbn in Hwin. destruct (_ || _) eqn:Hb; [done|]. bool_simp. lia.
  - unfold validate_canonical_anchor in Hanchor. case_bool_decide as Heq; [|done]. by subst ch.
Qed.

(** C16. Served state is pinned.  When the factory answers a request with a provider, the
    block is in the window of the store it looked at, the window's latest block is
    canonical, and a block asked for by hash is the canonical block with that hash; every
    account and every storage slot read through the provider, at whatever later moment,
    whatever has been appended, pruned or unwound in the live store meanwhile and however
    often it is read, is exactly that of the window's state of the block (a zero slot
    reads as absent); a read ends, and fails in the database only. *)
Theorem served_state_is_pinned (live : db) w id p fuel : represents live w → provider_at live id = Ok p →
  (length (keys_of (rows (HashedAccountHistory live))) < fuel)%nat →
  (2 * length (keys_of (rows (HashedStorageHistory live))) < fuel)%nat →
  servable w (default default_id id) (sp_block_number p)
  ∧ ∀ (later : db) address key,
    (basic_account keccak256 begin_ro fuel address later p).1 = p
    ∧ succeeds (basic_account keccak256 begin_ro fuel address later p).2
        (λ o, o = v_accounts (w_state w (sp_block_number p)) (hashed_address keccak256 address))
    ∧ (storage keccak256 begin_ro fuel address key later p).1 = p
    ∧ succeeds (storage keccak256 begin_ro fuel address key later p).2
        (λ o, o = v_slots (w_state w (sp_block_number p)) (hashed_address keccak256 address, keccak256 (be_word 32 key))).
Proof.
  intros Hrep Hp F1 F2. destruct (provider_pinned live w id p Hrep Hp) as [Htx Hs]. split; [done|]. intros later address key.
  destruct Hrep as [Hinv Hst]. destruct (Hst _ (sv_window _ _ _ Hs)) as (_ & _ & S3 & S4).
  destruct (si_tables _ _ _ Hinv) as [_ _ I3 I4].
  destruct (account_read keccak256 begin_ro fuel address later p live Htx (ix_wf _ _ _ _ I3)) as [-> A2]; [lia|].
  destruct (slot_read keccak256 begin_ro fuel address key later p live Htx (ix_wf _ _ _ _ I4)) as [-> B2]; [lia|].
  split_and!; [done| |done|].
  - eapply succeeds_mono; [exact A2|]. intros o ->. apply S3.
  - eapply succeeds_mono; [exact B2|]. intros o ->. apply S4.
Qed.
End Served.

(** ** What the handlers answer *)

Section Answers.
Context {Tb C Pt : Type → Type → Type} {E Node Account T PE : Type}.
Context `{DupDbLaws Tb C E, PlainDbLaws Pt E}.
Abbreviation db := (Db Tb Pt Node Account).
Context (keccak256 : bytes → Z) (begin_ro : db → result unit E).
Context (default_id : BlockId T) (block_number_for_id : BlockId T → result (option Z) PE).
Context (block_hash : Z → result (option B256) PE) (open_latest : result unit PE).
Context {AP MP Resp Key : Type}.
Context (account_proof_over : db → Z → Address → list B256 → result AP PE).
Context (multiproof_over : db → Z → gmap B256 (gset B256) → result MP PE).
Context (account_proof : MP → Address → list B256 → result AP PE).
Context (into_eip1186_response : AP → list Key → Resp) (as_b256 : Key → B256) (key_from : B256 → Key).
Abbreviation provider_at := (state_provider begin_ro default_id block_number_for_id block_hash open_latest).
Abbreviation single := (get_proof begin_ro default_id block_number_for_id block_hash open_latest
  account_proof_over into_eip1186_response as_b256).
Abbreviation multi := (get_multi_proof keccak256 begin_ro default_id block_number_for_id block_hash open_latest
  multiproof_over account_proof into_eip1186_response key_from).
Abbreviation targets_of := (multiproof_targets keccak256).
Abbreviation hash_slot := (λ s : B256, keccak256 (be_word 32 s)).

(** *** Limits *)

Definition key_count (ts : list (Address * list B256)) : nat := sum_list_with (λ t, length t.2) ts.

Lemma total_slots_sum ts : ∀ n, 0 ≤ n ≤ usize_max →
  default usize_max (fold_left (λ total t, total ≫= λ n, let s := n + slots_len t.2 in if s <=? usize_max then Some s else None)
    ts (Some n)) = Z.min usize_max (n + Z.of_nat (key_count ts)).
Proof.
  induction ts as [|t ts IH]; intros n Hn; cbn [fold_left key_count sum_list_with]; [cbn; lia|]. cbn [mbind option_bind].
  destruct (Z.leb_spec (n + slots_len t.2) usize_max) as [Hle|Hgt].
  - rewrite IH by (unfold slots_len in *; lia). unfold key_count, slots_len in *. lia.
  - assert (Hnone : ∀ l : list (Address * list B256), fold_left (λ (total : option Z) t, total ≫= λ n,
      let s := n + slots_len t.2 in if s <=? usize_max then Some s else None) l None = None) by (by induction l).
    rewrite Hnone. cbn. unfold slots_len in Hgt. fold (key_count ts). lia.
Qed.

Lemma check_multi_Ok ts mx : check_multi ts mx = Ok tt ↔
  Z.of_nat (length ts) ≤ mx ∧ Z.of_nat (key_count ts) ≤ MAX_PROOF_KEYS.
Proof.
  unfold check_multi, total_slots. rewrite total_slots_sum by (unfold usize_max; ulia).
  assert (MAX_PROOF_KEYS < usize_max) by (unfold MAX_PROOF_KEYS, usize_max; vm_compute; reflexivity).
  unfold slots_len. destruct (Z.ltb_spec mx (Z.of_nat (length ts))); [split; [done|lia]|].
  destruct (Z.ltb_spec MAX_PROOF_KEYS (Z.min usize_max (0 + Z.of_nat (key_count ts))));
    (split; [intros Hd|]); try done; lia.
Qed.

(** *** Consolidated targets *)

Lemma targets_step (m : gmap B256 (gset B256)) t a : 
  default ∅ (partial_alter (λ o, Some (default ∅ o ∪ list_to_set (map hash_slot t.2))) (hashed_address keccak256 t.1) m !! a)
  = default ∅ (m !! a) ∪ (if bool_decide (a = hashed_address keccak256 t.1) then list_to_set (map hash_slot t.2) else ∅).
Proof.
  case_bool_decide as Ha; [subst a; by rewrite lookup_partial_alter_eq|]. rewrite lookup_partial_alter_ne by done. set_solver.
Qed.

Lemma targets_cover ts : ∀ (m : gmap B256 (gset B256)) a s,
  s ∈ default ∅ (m !! a) ∨ (∃ t, t ∈ ts ∧ hashed_address keccak256 t.1 = a ∧ s ∈ map hash_slot t.2) →
  s ∈ default ∅ (fold_left (λ m '(address, slots),
      partial_alter (λ o, Some (default ∅ o ∪ list_to_set (map hash_slot slots))) (hashed_address keccak256 address) m) ts m !! a).
Proof.
  induction ts as [|t ts IH]; intros m a s Hin; cbn [fold_left].
  { destruct Hin as [Hin|(t & Ht & _)]; [done|by apply elem_of_nil in Ht]. }
  destruct t as [x slots]. apply IH. pose proof (targets_step m (x, slots) a) as Hs. cbn [fst snd] in Hs. rewrite Hs.
  destruct Hin as [Hin|(t & Ht & Ha & Hsl)]; [left; set_solver|]. apply elem_of_cons in Ht as [->|Ht]; [|right; by exists t].
  left. cbn [fst snd] in *. rewrite bool_decide_true by done. apply elem_of_union_r. by apply elem_of_list_to_set.
Qed.

Lemma targets_present ts : ∀ (m : gmap B256 (gset B256)) a,
  is_Some (m !! a) ∨ (∃ t, t ∈ ts ∧ hashed_address keccak256 t.1 = a) →
  is_Some (fold_left (λ m '(address, slots),
      partial_alter (λ o, Some (default ∅ o ∪ list_to_set (map hash_slot slots))) (hashed_address keccak256 address) m) ts m !! a).
Proof.
  induction ts as [|[x slots] ts IH]; intros m a Hin; cbn [fold_left].
  { destruct Hin as [Hin|(t & Ht & _)]; [done|by apply elem_of_nil in Ht]. }
  apply IH. destruct Hin as [Hin|(t & [->|Ht]%elem_of_cons & Ha)]; [left|left|right; by exists t].
  - destruct (decide (a = hashed_address keccak256 x)) as [->|]; [rewrite lookup_partial_alter_eq; by eexists|].
    by rewrite lookup_partial_alter_ne.
  - cbn in Ha. subst a. rewrite lookup_partial_alter_eq. by eexists.
Qed.

(** A target's address is among the consolidated ones, with all its slots. *)
Definition covers (m : gmap B256 (gset B256)) (a : Address) (slots : list B256) : Prop :=
  ∃ hs, m !! hashed_address keccak256 a = Some hs ∧ ∀ s, s ∈ slots → hash_slot s ∈ hs.

Lemma targets_of_cover ts a slots : (a, slots) ∈ ts → covers (targets_of ts) a slots.
Proof.
  intros Ht. destruct (targets_present ts ∅ (hashed_address keccak256 a)) as [hs Hhs]; [right; by exists (a, slots)|].
  exists hs. split; [exact Hhs|]. intros s Hs.
  pose proof (targets_cover ts ∅ (hashed_address keccak256 a) (hash_slot s)) as Hc. rewrite Hhs in Hc. apply Hc.
  right. exists (a, slots). split_and!; [done|done|]. cbn. apply list_elem_of_fmap. by exists s.
Qed.

(** What reth and the JSON keys promise: a multiproof holds the account proof of every
    account and slot that it was asked for, and a key of a word stands for the word. *)
Record proof_laws : Prop := {
  pl_multiproof d n m mp a slots : multiproof_over d n m = Ok mp → covers m a slots →
    account_proof mp a slots = account_proof_over d n a slots;
  pl_key s : as_b256 (key_from s) = s;
}.

Lemma collected_Ok {A B X} (f : A → result B X) l bs : collect (map f l) = Ok bs → Forall2 (λ a b, f a = Ok b) l bs.
Proof.
  revert bs. induction l as [|a l IH]; intros bs Hok; cbn in Hok; [injection Hok as <-; constructor|].
  apply bind_Ok in Hok as (b & Hb & Hok). apply bind_Ok in Hok as (rest & Hr & [= <-]). constructor; [done|by apply IH].
Qed.

Lemma Forall2_members {A B} (P : A → B → Prop) l bs : Forall2 P l bs → Forall2 (λ a b, a ∈ l ∧ P a b) l bs.
Proof.
  induction 1 as [|a b l bs Hab Hl IH]; constructor; [by split; [left|]|].
  eapply Forall2_impl; [exact IH|]. intros x y [Hx Hxy]. split; [by right|done].
Qed.

Lemma key_count_elem ts t : t ∈ ts → (length t.2 ≤ key_count ts)%nat.
Proof. unfold key_count. induction 1; cbn; lia. Qed.

Lemma pinned_tx live id p later : provider_at live id = Ok p → (ensure_tx begin_ro later p).2 = Ok live.
Proof.
  intros Hok. unfold state_provider in Hok. cbv zeta in Hok.
  repeat (apply bind_Ok in Hok as (? & ?H & Hok)). injection Hok as <-. unfold ensure_tx. cbn.
  repeat match goal with H : map_err _ (ro_tx _ _) = Ok _ |- _ => apply map_err_Ok in H; unfold ro_tx in H end.
  repeat match goal with H : result_bind (lift _) _ = Ok _ |- _ => apply bind_Ok in H as (? & _ & [= <-]) end. done.
Qed.

(** C18. A multiproof answers every target as [eth_getProof] would.  When
    [eth_getMultiProof] answers, the request has at most the configured number of targets
    and at most 1024 keys in all, and there is one response per target, in the order of
    the request, duplicates included: the response of [eth_getProof] for that account and
    those slots at the same block, whatever the live store has become meanwhile.  A
    request beyond the limits is rejected before any work, and only such a request is. *)
Theorem multi_proof_answers mx permit live later ts id m : proof_laws →
  (∀ rs, (multi mx permit live later ts id m).2 = Ok rs →
     Z.of_nat (length ts) ≤ mx ∧ Z.of_nat (key_count ts) ≤ MAX_PROOF_KEYS
     ∧ Forall2 (λ t r, ∀ later' m', (single permit live later' t.1 (map key_from t.2) id m').2 = Ok r) ts rs)
  ∧ ((∃ msg, (multi mx permit live later ts id m).2 = Err (InvalidParams msg))
     ↔ ¬ (Z.of_nat (length ts) ≤ mx ∧ Z.of_nat (key_count ts) ≤ MAX_PROOF_KEYS)).
Proof.
  intros Hlaws. unfold get_multi_proof. cbv zeta. destruct (check_multi ts mx) as [[]|msg] eqn:Hck.
  2:{ split; [done|]. split; [|by eexists]. intros _ Hlim%check_multi_Ok. by rewrite Hck in Hlim. }
  apply check_multi_Ok in Hck as Hlim. destruct Hlim as [Hts Hkeys]. cbn [snd].
  split; [|split; [intros [msg Hm]; unfold map_err in Hm; by destruct (spawn_proof_task _ _)|tauto]].
  intros rs Hok%map_err_Ok. split_and!; [done..|]. unfold spawn_proof_task in Hok.
  apply bind_Ok in Hok as ([] & Hp%map_err_Ok & Hok). apply bind_Ok in Hok as (p & Hprov & Hok).
  apply bind_Ok in Hok as (mp & Hmp & Hok). unfold multiproof in Hmp. rewrite (pinned_tx _ _ _ _ Hprov) in Hmp.
  cbn [map_err result_bind] in Hmp. apply map_err_Ok in Hmp. apply collected_Ok, Forall2_members in Hok.
  eapply Forall2_impl; [exact Hok|]. cbn. intros [a slots] r [Hin Hr] later' m'. apply bind_Ok in Hr as (ap & Hap%map_err_Ok & [= <-]).
  rewrite (pl_multiproof Hlaws _ _ _ _ _ _ Hmp (targets_of_cover _ _ _ Hin)) in Hap.
  unfold get_proof, check, slots_len. cbn [fst snd]. rewrite length_map.
  pose proof (key_count_elem ts (a, slots) Hin) as Hk. cbn in Hk.
  destruct (Z.ltb_spec MAX_PROOF_KEYS (Z.of_nat (length slots))); [lia|]. cbn [snd].
  unfold spawn_proof_task. rewrite Hp. cbn [map_err result_bind]. rewrite Hprov. cbn [result_bind].
  unfold proof. rewrite (pinned_tx _ _ _ _ Hprov). cbn [map_err result_bind].
  rewrite map_map, (map_ext _ (λ s, s)), map_id by (intros; apply (pl_key Hlaws)). by rewrite Hap.
Qed.

(** *** Witnesses *)

Context {Block Mode Witness Executed : Type} (default_mode : Mode).
Context (recovered_block : BlockId T → result (option Block) PE).
Context (header_number : Block → Z) (parent_hash : Block → B256).
Context (execute_block : db → Z → Block → result Executed PE).
Context (into_execution_witness : Executed → db → Z → Z → Mode → result Witness PE).
Abbreviation witness := (witness_for_block begin_ro default_id block_number_for_id block_hash open_latest
  default_mode recovered_block header_number parent_hash execute_block into_execution_witness).

(** A witness is of a block's own transition.  When a witness is answered, the block
    that was asked for is not genesis, its parent is the canonical block at the number
    whose state is used, that number is in the window of the store and the window is on
    the canonical chain, and both the execution and the witness use the window's state of
    the parent as the store held it when the request was checked, whatever the live store
    has become meanwhile. *)
Theorem witness_of_own_transition permit (live later : db) (w : Window (Node := Node) (Account := Account)) id mode m wit :
  represents live w → (witness permit live later id mode m).2 = Ok wit →
  ∃ block n executed, recovered_block id = Ok (Some block) ∧ header_number block ≠ 0
    ∧ block_hash n = Ok (Some (parent_hash block))
    ∧ servable block_number_for_id block_hash w (ByHash (parent_hash block)) n
    ∧ execute_block live n block = Ok executed
    ∧ into_execution_witness executed live n (header_number block) (default default_mode mode) = Ok wit.
Proof.
  intros Hrep. unfold witness_for_block. cbv zeta.
  destruct (result_bind (map_err FromProvider (recovered_block id)) _) as [block|] eqn:Hb; [|done].
  apply bind_Ok in Hb as (o & Ho%map_err_Ok & ->%ok_or_Ok).
  unfold parent_block_id. destruct (Z.eqb_spec (header_number block) 0) as [|Hn]; [done|]. cbn [snd].
  intros Hok%map_err_Ok. unfold spawn_proof_task in Hok. apply bind_Ok in Hok as ([] & _ & Hok).
  apply bind_Ok in Hok as (p & Hprov & Hok).
  destruct (provider_pinned begin_ro default_id block_number_for_id block_hash open_latest live w _ p Hrep Hprov) as [_ Hs].
  rewrite (pinned_tx _ _ _ _ Hprov) in Hok. cbn [map_err result_bind] in Hok.
  apply bind_Ok in Hok as (x & Hx%map_err_Ok & Hw%map_err_Ok). cbn [default] in Hs.
  exists block, (sp_block_number p), x. split_and!; try done. by apply (sv_hash _ _ _ _ _ Hs).
Qed.

(** *** Counters *)

(** Every request is counted once: as rejected, as answered or as failed. *)
Definition balanced (m : ProofRpcMetrics) : Prop :=
  requests_total m = rejected_total m + successful_responses_total m + failures_total m.

Lemma counters_balanced mx permit live later a keys ts id bid mode m : balanced m →
  balanced (single permit live later a keys id m).1
  ∧ balanced (multi mx permit live later ts id m).1
  ∧ balanced (witness permit live later bid mode m).1.
Proof.
  unfold balanced, get_proof, get_multi_proof, witness_for_block. cbv zeta. intros Hm. split_and!.
  - destruct (check _); cbn [fst]; [|cbn; lia]. destruct (spawn_proof_task _ _); cbn; lia.
  - destruct (check_multi _ _); cbn [fst]; [|cbn; lia]. destruct (spawn_proof_task _ _); cbn; lia.
  - destruct (result_bind (map_err FromProvider (recovered_block bid)) _) as [block|]; [|cbn; lia].
    destruct (parent_block_id _ _); cbn [fst]; [|cbn; lia]. destruct (spawn_proof_task _ _); cbn; lia.
Qed.
End Answers.

(** ** A concrete node *)

Module RpcSamples.
Import ListStore.
Definition last_byte (b : bytes) : Z := default 0 (last b).
Definition begin (_ : store) : result unit string := Ok tt.
(** The canonical chain: blocks 0 to 2, and the ways to name them. *)
Definition hash_at (n : Z) : result (option Z) string := Ok (if (0 <=? n) && (n <=? 2) then Some (1000 + n) else None).
Definition number_for (id : BlockId Z) : result (option Z) string :=
  Ok (match id with ByHash h => Some (h - 1000) | ByNumber n => Some n end).
Definition at_block (n : Z) (live : store) :=
  state_provider begin (ByNumber 1) number_for hash_at (Ok tt) live (Some (ByNumber n)).
Definition pinned : MorphProofsStateProviderRef := new_with_tx 0 store1.
(** The store after block 0 has been pruned. *)
Definition pruned : store :=
  match prune_earliest_state 50 block1 store1 with Some (d, _) => d | None => store1 end.

(** Proofs that list what they prove. *)
Definition prove (d : store) (n : Z) (a : Address) (slots : list Z) : result (Z * Address * list Z) string := Ok (n, a, slots).
Definition multiprove (d : store) (n : Z) (_ : gmap Z (gset Z)) : result Z string := Ok n.
Definition of_multiproof (n : Z) (a : Address) (slots : list Z) : result (Z * Address * list Z) string := Ok (n, a, slots).
Definition respond (p : Z * Address * list Z) (keys : list Z) : Z * Address * list Z := (p.1, keys).

Lemma sample_proof_laws : proof_laws last_byte prove multiprove of_multiproof id id.
Proof. split; [|done]. by intros d n m mp a slots [= <-] _. Qed.
End RpcSamples.

Import ListStore RpcSamples.

Lemma served_state_is_pinned_witness :
  at_block 0 store1 = Ok pinned
  ∧ (storage last_byte begin 50 2 5 pruned pinned).2 = Some (Ok (Some 50))
  ∧ succeeds (E := string) (storage last_byte begin 50 2 5 pruned pinned).2
      (λ o, o = v_slots (w_state window1 0) (hashed_address last_byte 2, last_byte (be_word 32 5))).
Proof.
  split; [vm_compute; reflexivity|]. split; [vm_compute; reflexivity|].
  simple refine (proj2 (proj2 (proj2 (proj2 (served_state_is_pinned (E := string) (T := Z) (PE := string) last_byte begin (ByNumber 1)
    number_for hash_at (Ok tt) store1 window1 (Some (ByNumber 0)) pinned 50 store1_represented _ _ _) pruned 2 5))));
    [vm_compute; reflexivity|vm_compute; lia..].
Defined.

Lemma multi_proof_answers_witness :
  let ask := get_multi_proof (E := string) last_byte begin (ByNumber 1) number_for hash_at (Ok tt)
    multiprove of_multiproof respond id in
  (ask 2 (Ok tt) store1 pruned [(2, [5]); (2, [6])] (Some (ByNumber 0)) {| requests_total := 0; rejected_total := 0;
     successful_responses_total := 0; failures_total := 0 |}).2 = Ok [(0, 2, [5]); (0, 2, [6])]
  ∧ ∃ msg, (ask 1 (Ok tt) store1 pruned [(2, [5]); (2, [6])] (Some (ByNumber 0)) {| requests_total := 0; rejected_total := 0;
     successful_responses_total := 0; failures_total := 0 |}).2 = Err (InvalidParams msg).
Proof.
  cbv zeta. split; [vm_compute; reflexivity|].
  simple refine (proj2 (proj2 (multi_proof_answers (E := string) (Tb := ListDb.table) (Pt := plain) (Node := Z) (Account := Z)
    last_byte begin (ByNumber 1) number_for hash_at (Ok tt) prove
    multiprove of_multiproof respond id id 1 (Ok tt) store1 pruned [(2, [5]); (2, [6])] (Some (ByNumber 0)) _ sample_proof_laws)) _).
  cbn. lia.
Defined.

Lemma witness_of_own_transition_witness :
  ∃ block n executed, (Ok (Some 1) : result (option Z) string) = Ok (Some block) ∧ block ≠ 0
    ∧ hash_at n = Ok (Some (999 + block)) ∧ servable number_for hash_at window1 (ByHash (999 + block)) n
    ∧ (Ok (n, block) : result (Z * Z) string) = Ok executed
    ∧ (Ok executed : result (Z * Z) string) = Ok (0, 1).
Proof.
  simple refine (witness_of_own_transition (E := string) (Tb := ListDb.table) (Pt := plain) (Node := Z) (Account := Z) begin (ByNumber 1)
    number_for hash_at (Ok tt) tt (λ _, Ok (Some 1)) (λ b, b) (λ b, 999 + b)
    (λ _ n b, Ok (n, b)) (λ x _ _ _ _, Ok x) (Ok tt) store1 pruned window1 (ByHash 1001) None
    {| requests_total := 0; rejected_total := 0; successful_responses_total := 0; failures_total := 0 |} (0, 1) store1_represented _).
  vm_compute. reflexivity.
Defined.
