(* ===== verification/ProofsCodec.v ===== *)
(** * The proofs store in bytes

    Models [crates/proofs/src/db/models]: the encodings of the keys, the versioned values,
    the block anchors and the metadata that MDBX stores.  MDBX orders a table by the bytes
    of its keys and, below a key, by the bytes of its values; the theorem shows that this
    is the order of [Versioned], in which the cursors of the store read.

    reth's encodings of accounts, branch nodes and nibble paths are instances of
    [ValueCodec] and [KeyCodec] that the theorems take as parameters.  The last part is the
    identity that a database is opened with ([store.rs]). *)

From S2P Require Import Prelude.
From stdpp Require Import sorting.
From S2P Require Import Rlp.
From S2P Require Import PayloadTypes.
From S2P Require Import Versioned.
From S2P Require Import ProofsStore.
From S2P Require Import RefIndexTables.
#[local] Open Scope Z_scope.

(** ** Values *)

(** [DatabaseError::Decode] *)
Inductive DecodeError := Decode.

(** [Compress] and [Decompress]. *)
Class ValueCodec (V : Type) := {
  compress : V → bytes;
  decompress : bytes → result V DecodeError;
}.
(** A value is never compressed to nothing, as [MaybeDeleted] assumes. *)
Class ValueCodecLaws (V : Type) `{ValueCodec V} := {
  value_ok : V → Prop;
  compress_nonempty v : value_ok v → compress v ≠ [];
  compress_round_trip v : value_ok v → decompress (compress v) = Ok v;
}.

(** [StorageValue] *)
Definition storage_value_compress (z : Z) : bytes := be_word 32 z.
Definition storage_value_decompress (value : bytes) : result Z DecodeError :=
  reject Decode when negb (len value =? 32) in Ok (Standard.of_be value).
#[global] Instance storage_value : ValueCodec Z := {|
  compress := storage_value_compress; decompress := storage_value_decompress |}.

(** [MaybeDeleted] *)
Definition maybe_deleted_compress {V} `{ValueCodec V} (v : option V) : bytes :=
  match v with None => [] | Some value => compress value end.
Definition maybe_deleted_decompress {V} `{ValueCodec V} (value : bytes) : result (option V) DecodeError :=
  if len value =? 0 then Ok None
  else let? inner := decompress value in Ok (Some inner).

(** [VersionedValue]; its subkey is the block number. *)
Definition versioned_compress {V} `{ValueCodec V} (v : VersionedValue V) : bytes :=
  be_word 8 (block_number v) ++ maybe_deleted_compress (vvalue v).
Definition versioned_decompress {V} `{ValueCodec V} (value : bytes) : result (VersionedValue V) DecodeError :=
  reject Decode when len value <? 8 in
  let block_number := Standard.of_be (take 8 value) in
  let? v := maybe_deleted_decompress (drop 8 value) in
  Ok {| block_number := block_number; vvalue := v |}.
Definition get_subkey {V} (v : VersionedValue V) : Z := block_number v.

(** [BlockNumberHash] *)
Definition block_number_hash_compress (b : NumHash) : bytes := be_word 8 (number b) ++ be_word 32 (nhash b).
Definition block_number_hash_decompress (value : bytes) : result NumHash DecodeError :=
  reject Decode when negb (len value =? 40) in
  Ok {| number := Standard.of_be (take 8 value); nhash := Standard.of_be (take 32 (drop 8 value)) |}.

(** ** Keys *)

Class KeyCodec (K : Type) := {
  encode : K → bytes;
  decode : bytes → result K DecodeError;
}.
Class KeyCodecLaws (K : Type) `{KeyCodec K, KeyOrd K} := {
  stored_key_ok : K → Prop;
  encode_round_trip k : stored_key_ok k → decode (encode k) = Ok k;
  encode_order k k' : stored_key_ok k → stored_key_ok k' → path_lt (encode k) (encode k') ↔ key_lt k k';
}.

(** [B256] *)
#[global] Instance b256_codec : KeyCodec Z := {|
  encode k := be_word 32 k;
  decode value := reject Decode when negb (len value =? 32) in Ok (Standard.of_be value) |}.

(** [HashedStorageKey] *)
Definition hashed_storage_key_encode (k : Z * Z) : bytes := be_word 32 k.1 ++ be_word 32 k.2.
Definition hashed_storage_key_decode (value : bytes) : result (Z * Z) DecodeError :=
  reject Decode when negb (len value =? 64) in
  Ok (Standard.of_be (take 32 value), Standard.of_be (take 32 (drop 32 value))).
#[global] Instance hashed_storage_key : KeyCodec (Z * Z) := {|
  encode := hashed_storage_key_encode; decode := hashed_storage_key_decode |}.

(** [StorageTrieKey] *)
Definition storage_trie_key_encode `{KeyCodec (list Z)} (k : Z * list Z) : bytes := be_word 32 k.1 ++ encode k.2.
Definition storage_trie_key_decode `{KeyCodec (list Z)} (value : bytes) : result (Z * list Z) DecodeError :=
  reject Decode when len value <? 32 in
  let hashed_address := Standard.of_be (take 32 value) in
  let? path := decode (drop 32 value) in
  Ok (hashed_address, path).
#[global] Instance storage_trie_key `{KeyCodec (list Z)} : KeyCodec (Z * list Z) := {|
  encode := storage_trie_key_encode; decode := storage_trie_key_decode |}.

(** [ProofWindowKey] and [ProofMetadataKey] *)
Definition proof_window_key_encode (k : ProofWindowKey) : bytes :=
  [match k with EarliestBlock => 0 | LatestBlock => 1 | InitialStateKey => 2 end].
Definition proof_window_key_decode (value : bytes) : result ProofWindowKey DecodeError :=
  match head value with
  | Some b =>
      if b =? 0 then Ok EarliestBlock else if b =? 1 then Ok LatestBlock
      else if b =? 2 then Ok InitialStateKey else Err Decode
  | None => Err Decode
  end.

Inductive ProofMetadataKey := ChainId | GenesisHash | SchemaVersion.
#[global] Instance ProofMetadataKey_eq_dec : EqDecision ProofMetadataKey.
Proof. solve_decision. Defined.
Definition proof_metadata_key_encode (k : ProofMetadataKey) : bytes :=
  [match k with ChainId => 0 | GenesisHash => 1 | SchemaVersion => 2 end].
Definition proof_metadata_key_decode (value : bytes) : result ProofMetadataKey DecodeError :=
  match head value with
  | Some b =>
      if b =? 0 then Ok ChainId else if b =? 1 then Ok GenesisHash
      else if b =? 2 then Ok SchemaVersion else Err Decode
  | None => Err Decode
  end.

(** ** The identity of a database *)

Record ProofDbIdentity := { chain_id : Z; genesis_hash : B256 }.
Definition SCHEMA_VERSION : Z := 1.

Section Identity.
Context {Tb Pt : Type → Type → Type} {E Node Account : Type} `{PlainDb Pt E}.
Abbreviation db := (Db Tb Pt Node Account).
Abbreviation err := (MorphProofsStorageError E).
Abbreviation metadata := (Pt ProofMetadataKey bytes).
(** [entries] of a dup-sorted table, and the write transaction. *)
Context (t_entries : ∀ K V, Tb K V → result Z E).
Context (tx_mut : result unit E) (tx_commit : metadata → result unit E).

(** [decode_u64_metadata], [decode_u32_metadata] and [decode_hash_metadata] are this for
    eight, four and 32 bytes. *)
Definition decode_metadata (width : Z) (value : bytes) (field : string) : result Z err :=
  reject CorruptMetadata field when negb (len value =? width) in Ok (Standard.of_be value).

Definition proof_tables_are_empty (d : db) : result bool E :=
  let? n1 := t_entries _ _ (AccountTrieHistory d) in
  if negb (n1 =? 0) then Ok false else
  let? n2 := t_entries _ _ (StorageTrieHistory d) in
  if negb (n2 =? 0) then Ok false else
  let? n3 := t_entries _ _ (HashedAccountHistory d) in
  if negb (n3 =? 0) then Ok false else
  let? n4 := t_entries _ _ (HashedStorageHistory d) in
  if negb (n4 =? 0) then Ok false else
  let? n5 := p_entries (ProofWindow d) in
  if negb (n5 =? 0) then Ok false else
  let? n6 := p_entries (BlockChangeSet d) in
  Ok (n6 =? 0).

(** The transaction's body: the metadata it leaves. *)
Definition identity_update (identity : ProofDbIdentity) (d : db) (md : metadata) : result metadata err :=
  let? stored_chain_id := lift (p_seek_exact ChainId md) in
  let? stored_genesis_hash := lift (p_seek_exact GenesisHash md) in
  let? stored_schema_version := lift (p_seek_exact SchemaVersion md) in
  let? metadata_entries := lift (p_entries md) in
  match stored_chain_id, stored_genesis_hash, stored_schema_version with
  | None, None, None =>
      reject IncompleteIdentityMetadata when negb (metadata_entries =? 0) in
      let? empty := lift (proof_tables_are_empty d) in
      reject ProofDataWithoutIdentityMetadata when negb empty in
      let? md := lift (p_upsert ChainId (be_word 8 (chain_id identity)) md) in
      let? md := lift (p_upsert GenesisHash (be_word 32 (genesis_hash identity)) md) in
      lift (p_upsert SchemaVersion (be_word 4 SCHEMA_VERSION) md)
  | Some c, Some g, Some v =>
      reject IncompleteIdentityMetadata when negb (metadata_entries =? 3) in
      let? c := decode_metadata 8 c "chain_id" in
      reject ChainIdentityMismatch "chain_id" when negb (c =? chain_id identity) in
      let? g := decode_metadata 32 g "genesis_hash" in
      reject ChainIdentityMismatch "genesis_hash" when negb (g =? genesis_hash identity) in
      let? v := decode_metadata 4 v "schema_version" in
      reject SchemaMismatch SCHEMA_VERSION v when negb (v =? SCHEMA_VERSION) in
      Ok md
  | _, _, _ => Err IncompleteIdentityMetadata
  end.

Definition validate_or_initialize_identity (identity : ProofDbIdentity) (d : db) (md : metadata) : metadata * result unit err :=
  match (let? _ := lift tx_mut in
         let? md' := identity_update identity d md in
         let? _ := lift (tx_commit md') in Ok md') with
  | Ok md' => (md', Ok tt)
  | Err e => (md, Err e)
  end.
End Identity.

(** ** Rows as MDBX stores them *)

(** A row's bytes, and MDBX's order of rows. *)
Definition stored {K V} `{KeyCodec K, ValueCodec V} (r : K * VersionedValue V) : bytes * bytes :=
  (encode r.1, versioned_compress r.2).
Definition loaded {K V} `{KeyCodec K, ValueCodec V} (b : bytes * bytes) : result (K * VersionedValue V) DecodeError :=
  let? k := decode b.1 in
  let? v := versioned_decompress b.2 in
  Ok (k, v).
Definition row_lt (a b : bytes * bytes) : Prop := path_lt a.1 b.1 ∨ a.1 = b.1 ∧ path_lt a.2 b.2.

(** ** Lemmas *)

#[global] Instance storage_value_laws : ValueCodecLaws Z.
Proof.
  refine {| value_ok := is_u256 |}.
  - intros z _ Hz%(f_equal length). change (length (be_word 32 z) = 0%nat) in Hz. by rewrite be_word_length in Hz.
  - intros z Hz%u256_word. cbn -[be_word Standard.of_be]. unfold storage_value_decompress, storage_value_compress, len.
    rewrite be_word_length. cbn -[be_word Standard.of_be]. by rewrite of_be_word.
Defined.

#[global] Instance b256_laws : KeyCodecLaws Z.
Proof.
  refine {| stored_key_ok := is_u256 |}.
  - intros z Hz%u256_word. cbn -[be_word Standard.of_be]. unfold len. rewrite be_word_length. cbn -[be_word Standard.of_be]. by rewrite of_be_word.
  - intros a b Ha%u256_word Hb%u256_word. by apply path_lt_be_word.
Defined.

Lemma take_word n z rest : take n (be_word n z ++ rest) = be_word n z.
Proof. by rewrite take_app_length' by by rewrite be_word_length. Qed.
Lemma drop_word n z rest : drop n (be_word n z ++ rest) = rest.
Proof. by rewrite drop_app_length' by by rewrite be_word_length. Qed.
Lemma len_word_app n z rest : len (be_word n z ++ rest) = Z.of_nat n + len rest.
Proof. unfold len. rewrite length_app, be_word_length. lia. Qed.

#[global] Instance hashed_storage_key_laws : KeyCodecLaws (Z * Z).
Proof.
  refine {| stored_key_ok k := is_u256 k.1 ∧ is_u256 k.2 |}.
  - intros [a k] [Ha%u256_word Hk%u256_word]. cbn -[be_word Standard.of_be]. unfold hashed_storage_key_encode, hashed_storage_key_decode.
    cbn [fst snd]. rewrite len_word_app, drop_word, take_word. unfold len. rewrite be_word_length. cbn -[be_word Standard.of_be].
    rewrite <- (app_nil_r (be_word 32 k)), take_word, !of_be_word; done.
  - intros [a k] [a' k'] [?%u256_word ?%u256_word] [?%u256_word ?%u256_word]. cbn -[be_word Standard.of_be]. unfold hashed_storage_key_encode.
    cbn [fst snd]. by rewrite be_word_prefix, path_lt_be_word by done.
Defined.

#[global] Instance storage_trie_key_laws `{KeyCodecLaws (list Z)} : KeyCodecLaws (Z * list Z).
Proof.
  refine {| stored_key_ok k := is_u256 k.1 ∧ stored_key_ok k.2 |}.
  - intros [a p] [Ha%u256_word Hp]. cbn -[be_word Standard.of_be]. unfold storage_trie_key_encode, storage_trie_key_decode. cbn [fst snd] in *.
    rewrite len_word_app, drop_word, take_word, (encode_round_trip p Hp), of_be_word by done.
    pose proof (Zle_0_nat (length (encode p))). unfold len. by destruct (Z.ltb_spec (Z.of_nat 32 + Z.of_nat (length (encode p))) 32); [lia|].
  - intros [a p] [a' p'] [?%u256_word ?] [?%u256_word ?]. cbn -[be_word Standard.of_be]. unfold storage_trie_key_encode. cbn [fst snd] in *.
    by rewrite be_word_prefix, encode_order by done.
Defined.

Section Rows.
Context {K V : Type} `{KeyCodecLaws K, ValueCodecLaws V, !KeyOrdLaws K}.
Implicit Types (r : K * VersionedValue V) (v : VersionedValue V).

Definition version_ok v : Prop := is_u64 (block_number v) ∧ (∀ x, vvalue v = Some x → value_ok x).
Definition row_ok r : Prop := stored_key_ok r.1 ∧ version_ok r.2.

Lemma versioned_round_trip v : version_ok v → versioned_decompress (versioned_compress v) = Ok v.
Proof.
  intros [Hb%u64_word Hv]. unfold versioned_decompress, versioned_compress. rewrite len_word_app, take_word, drop_word.
  pose proof (Zle_0_nat (length (maybe_deleted_compress (vvalue v)))) as Hl. unfold len at 1.
  destruct (Z.ltb_spec (Z.of_nat 8 + Z.of_nat (length (maybe_deleted_compress (vvalue v)))) 8); [lia|].
  rewrite of_be_word by done. unfold maybe_deleted_decompress, maybe_deleted_compress. destruct v as [n [x|]]; cbn in *; [|done].
  specialize (Hv x eq_refl). unfold len. destruct (Z.eqb_spec (Z.of_nat (length (compress x))) 0) as [Hz|].
  - destruct (compress_nonempty x Hv). by apply nil_length_inv, Nat2Z.inj.
  - by rewrite compress_round_trip.
Qed.

(** Values of a key compare by their blocks, and by a block alone when it is sought. *)
Lemma versioned_order v v' : is_u64 (block_number v) → is_u64 (block_number v') → block_number v ≠ block_number v' →
  path_lt (versioned_compress v) (versioned_compress v') ↔ block_number v < block_number v'.
Proof. intros ?%u64_word ?%u64_word Hne. unfold versioned_compress. rewrite be_word_prefix by done. naive_solver. Qed.

Lemma subkey_order v b : is_u64 (block_number v) → is_u64 b →
  ¬ path_lt (versioned_compress v) (be_word 8 b) ↔ b ≤ get_subkey v.
Proof.
  intros Hv%u64_word Hb%u64_word. unfold versioned_compress, get_subkey. rewrite <- (app_nil_r (be_word 8 b)), be_word_prefix by done.
  assert (Hnil : ¬ path_lt (maybe_deleted_compress (vvalue v)) []) by (destruct (maybe_deleted_compress (vvalue v)); cbn; tauto).
  split; [intros Hn; destruct (Z.lt_ge_cases (block_number v) b); [destruct Hn; by left|lia]|]. intros Hle [?|[_ ?]]; [lia|done].
Qed.

Lemma stored_round_trip r : row_ok r → loaded (stored r) = Ok r.
Proof.
  intros [Hk Hv]. unfold loaded, stored. cbn [fst snd]. rewrite encode_round_trip by done. cbn [result_bind].
  rewrite versioned_round_trip by done. by destruct r.
Qed.

Lemma encode_inj k k' : stored_key_ok k → stored_key_ok k' → encode k = encode k' → k = k'.
Proof. intros Hk Hk' He. pose proof (encode_round_trip k Hk) as Hd. rewrite He, encode_round_trip in Hd by done. by injection Hd. Qed.

Lemma stored_order r r' : row_ok r → row_ok r' → row_key r ≠ row_key r' → row_lt (stored r) (stored r') ↔ key_lt (row_key r) (row_key r').
Proof.
  intros [Hk [Hb _]] [Hk' [Hb' _]] Hne. unfold row_lt, stored, row_key in *. cbn [fst snd]. rewrite encode_order by done. cbn.
  apply or_iff_compat_l. split.
  - intros [He%encode_inj Hlt]; [|done..]. split; [done|]. rewrite He in Hne. apply versioned_order in Hlt; [done..|congruence].
  - intros [He Hlt]. rewrite He. split; [done|]. apply versioned_order; [done..|lia|done].
Qed.

Lemma stored_sorted rs : Forall row_ok rs → NoDup (map row_key rs) → StronglySorted row_lt (map stored rs) ↔ sorted_rows rs.
Proof.
  unfold sorted_rows. induction 1 as [|r rs Hr Hrs IH]; cbn [map]; [split; constructor|]. intros [Hnin Hnd]%NoDup_cons.
  assert (Hall : Forall (row_lt (stored r)) (map stored rs) ↔ Forall (key_lt (row_key r)) (map row_key rs)).
  { rewrite !Forall_map, !Forall_forall. rewrite Forall_forall in Hrs. apply forall_proper. intros r'. split; intros Hlt Hin;
      specialize (Hlt Hin); (apply stored_order in Hlt || apply stored_order); auto;
      intros He; apply Hnin; rewrite He; apply list_elem_of_fmap; by exists r'. }
  split; intros [Hs Hl]%StronglySorted_inv; constructor; try (by apply IH); by apply Hall.
Qed.
End Rows.

Lemma block_number_hash_round_trip b : is_u64 (number b) → is_u256 (nhash b) →
  block_number_hash_decompress (block_number_hash_compress b) = Ok b.
Proof.
  intros Hn%u64_word Hh%u256_word. unfold block_number_hash_decompress, block_number_hash_compress.
  rewrite len_word_app, take_word, drop_word. unfold len. rewrite be_word_length.
  rewrite <- (app_nil_r (be_word 32 (nhash b))), take_word, !of_be_word by done. by destruct b.
Qed.

Lemma proof_window_key_round_trip k : proof_window_key_decode (proof_window_key_encode k) = Ok k.
Proof. by destruct k. Qed.

(** *** Identity *)

Section IdentityLemmas.
Context {Tb Pt : Type → Type → Type} {E Node Account : Type} `{PlainDbLaws Pt E}.
Context (t_entries : ∀ K V, Tb K V → result Z E) (tx_mut : result unit E) (tx_commit : Pt ProofMetadataKey bytes → result unit E).
Abbreviation db := (Db Tb Pt Node Account).
Abbreviation opening := (validate_or_initialize_identity (E := E) t_entries tx_mut tx_commit).

(** The database carries an identity. *)
Definition identified (i : ProofDbIdentity) (md : Pt ProofMetadataKey bytes) : Prop :=
  content md ChainId = Some (be_word 8 (chain_id i)) ∧ content md GenesisHash = Some (be_word 32 (genesis_hash i))
  ∧ content md SchemaVersion = Some (be_word 4 SCHEMA_VERSION).
Definition identity_ok (i : ProofDbIdentity) : Prop := is_u64 (chain_id i) ∧ is_u256 (genesis_hash i).

Lemma seek_value {K V} `{EqDecision K} (k : K) (t : Pt K V) o : lift (E := E) (p_seek_exact k t) = Ok o → o = content t k.
Proof.
  pose proof (law_p_seek_exact k t) as Hl. unfold lift. destruct (p_seek_exact k t); [|done]. intros [= <-]. exact Hl.
Qed.

Lemma upsert_value {K V} `{EqDecision K} (k : K) (v : V) (t t' : Pt K V) : lift (E := E) (p_upsert k v t) = Ok t' →
  ∀ k', content t' k' = if bool_decide (k' = k) then Some v else content t k'.
Proof.
  pose proof (law_p_upsert k v t) as Hl. unfold lift. destruct (p_upsert k v t); [|done]. intros [= <-]. exact Hl.
Qed.

Lemma fixed_le_of_le l : Forall is_byte l → Standard.fixed_le (length l) (Standard.of_le l) = l.
Proof.
  induction 1 as [|x l [Hx0 Hx] Hl IH]; [done|]. cbn [length Standard.fixed_le Standard.of_le].
  replace (x + 256 * Standard.of_le l) with (x + Standard.of_le l * 256) by lia.
  by rewrite Z.mod_add, Z.div_add, Z.mod_small, Z.div_small, Z.add_0_l, IH by lia.
Qed.

Lemma decoded_word n value field z : Forall is_byte value → decode_metadata (E := E) (Z.of_nat n) value field = Ok z →
  value = be_word n z.
Proof.
  intros Hb [Hl [= <-]]%reject_Ok. apply negb_false_iff, Z.eqb_eq in Hl. unfold len in Hl. apply Nat2Z.inj in Hl as <-.
  unfold be_word, Standard.of_be. rewrite <- (length_rev value). rewrite fixed_le_of_le by (by apply Forall_rev).
  by rewrite rev_involutive.
Qed.

(** An identity is fixed when a database is first opened: a successful opening leaves the
    database with the identity it was opened with and, if it had one, had this one; any
    other opening leaves it as it was. *)
Theorem identity_is_fixed i j (d : db) md md' r : identity_ok i → identity_ok j →
  (∀ k value, content md k = Some value → Forall is_byte value) → opening i d md = (md', r) →
  match r with
  | Ok _ => identified i md' ∧ (identified j md → i = j ∧ md' = md)
  | Err _ => md' = md
  end.
Proof.
  intros Hi Hj Hbytes. unfold validate_or_initialize_identity.
  destruct (result_bind _ _) as [x|] eqn:Hx; intros [= <- <-]; [|done].
  apply bind_Ok in Hx as ([] & _ & Hx). apply bind_Ok in Hx as (y & Hx & Hc). apply bind_Ok in Hc as ([] & _ & [= <-]).
  unfold identity_update in Hx.
  apply bind_Ok in Hx as (oc & Hoc%seek_value & Hx). apply bind_Ok in Hx as (og & Hog%seek_value & Hx).
  apply bind_Ok in Hx as (ov & Hov%seek_value & Hx). apply bind_Ok in Hx as (n & _ & Hx).
  destruct oc as [c|], og as [g|], ov as [v|]; try done.
  - apply reject_Ok in Hx as [_ Hx]. apply bind_Ok in Hx as (c' & Hc & [Hc1 Hx]%reject_Ok).
    apply bind_Ok in Hx as (g' & Hg & [Hg1 Hx]%reject_Ok). apply bind_Ok in Hx as (v' & Hv & [Hv1 [= <-]]%reject_Ok). bool_simp. subst.
    apply (decoded_word 8) in Hc; [|by eapply Hbytes]. apply (decoded_word 32) in Hg; [|by eapply Hbytes].
    apply (decoded_word 4) in Hv; [|by eapply Hbytes]. subst c g v.
    split; [by split_and!|]. intros (Jc & Jg & _). split; [|done]. rewrite <- Hoc in Jc. rewrite <- Hog in Jg.
    destruct Hi as [Hi1%u64_word Hi2%u256_word], Hj as [Hj1%u64_word Hj2%u256_word]. destruct i as [ci gi], j as [cj gj]. cbn [chain_id genesis_hash] in *.
    f_equal; [apply (be_word_inj 8)|apply (be_word_inj 32)]; first [done|congruence].
  - apply reject_Ok in Hx as [_ Hx]. apply bind_Ok in Hx as (em & _ & [_ Hx]%reject_Ok).
    apply bind_Ok in Hx as (m1 & H1' & Hx). apply bind_Ok in Hx as (m2 & H2' & H3').
    split; [|intros (Hc & _); by rewrite <- Hoc in Hc].
    split_and!; by rewrite (upsert_value _ _ _ _ H3'), ?(upsert_value _ _ _ _ H2'), ?(upsert_value _ _ _ _ H1').
Qed.
End IdentityLemmas.

(** ** Theorems *)

Section Tables.
Context {Node Account : Type} `{ValueCodecLaws Node, ValueCodecLaws Account}.
Context `{!KeyCodec (list Z), !KeyCodecLaws (list Z)}.

(** What a table relies on: MDBX's order of the stored rows is the order of the rows, a
    row is read back as it was written, and seeking a block among the values of a key
    finds the values from that block on. *)
Definition faithful {K V} `{KeyCodec K, KeyOrd K, ValueCodec V} (rs : list (K * VersionedValue V)) : Prop :=
  (StronglySorted row_lt (map stored rs) ↔ sorted_rows rs)
  ∧ (∀ r, r ∈ rs → loaded (stored r) = Ok r)
  ∧ (∀ r b, r ∈ rs → is_u64 b → ¬ path_lt (stored r).2 (be_word 8 b) ↔ b ≤ get_subkey r.2).

Lemma faithful_rows {K V} `{KeyCodecLaws K, ValueCodecLaws V, !KeyOrdLaws K} (rs : list (K * VersionedValue V)) :
  Forall row_ok rs → NoDup (map row_key rs) → faithful rs.
Proof.
  intros Hok Hnd. split; [by apply stored_sorted|]. rewrite Forall_forall in Hok. split.
  - intros r Hr. by apply stored_round_trip, Hok.
  - intros r b Hr Hb. apply subkey_order; [|done]. by apply (Hok r Hr).
Qed.

(** C28. The bytes of the proofs tables keep the order that the cursors rely on.  In each
    of the four history tables, when no key has two values of one block, MDBX's order of
    the stored bytes is the order of the keys and below a key that of the blocks, for
    composite keys address first; every row, tombstones included, is read back as it was
    written; and seeking a block number among the values of a key, by its eight bytes,
    finds exactly the values of that block and later ones.  Anchors and window keys are
    read back too. *)
Theorem proofs_tables_ordered (account_trie : list (list Z * VersionedValue Node)) (storage_trie : list (Z * list Z * VersionedValue Node))
    (accounts : list (Z * VersionedValue Account)) (slots : list (Z * Z * VersionedValue Z)) (anchor : NumHash) (k : ProofWindowKey) :
  Forall row_ok account_trie → NoDup (map row_key account_trie) → Forall row_ok storage_trie → NoDup (map row_key storage_trie) →
  Forall row_ok accounts → NoDup (map row_key accounts) → Forall row_ok slots → NoDup (map row_key slots) →
  is_u64 (number anchor) → is_u256 (nhash anchor) →
  faithful account_trie ∧ faithful storage_trie ∧ faithful accounts ∧ faithful slots
  ∧ block_number_hash_decompress (block_number_hash_compress anchor) = Ok anchor
  ∧ proof_window_key_decode (proof_window_key_encode k) = Ok k.
Proof.
  intros. split_and!; [by apply faithful_rows..|by apply block_number_hash_round_trip|apply proof_window_key_round_trip].
Qed.
End Tables.

(** ** Concrete tables *)

Module SampleCodec.
(** A path as its nibbles, one byte each. *)
#[export] Instance nibbles : KeyCodec (list Z) := {| encode p := p; decode value := Ok value |}.
#[export] Instance nibbles_laws : KeyCodecLaws (list Z).
Proof. by refine {| stored_key_ok _ := True |}. Defined.
End SampleCodec.

Import SampleCodec.

(** Slots of two accounts, one deleted at block 256, whose number has a smaller last byte
    than the one before it. *)
Definition sample_slots : list (Z * Z * VersionedValue Z) :=
  [((1, 9), {| block_number := 255; vvalue := Some 70 |}); ((1, 9), {| block_number := 256; vvalue := None |});
   ((2, 5), {| block_number := 3; vvalue := Some 0 |})].

Lemma proofs_tables_ordered_witness :
  sorted_rows sample_slots ∧ StronglySorted row_lt (map stored sample_slots).
Proof.
  assert (Hs : sorted_rows sample_slots) by (unfold sorted_rows; cbn; repeat constructor; cbn; naive_solver lia).
  split; [exact Hs|].
  simple refine (proj2 (proj1 (proj1 (proj2 (proj2 (proj2 (proofs_tables_ordered (Node := Z) (Account := Z) [] [] [] sample_slots
    (Build_NumHash 9 1000) EarliestBlock _ _ _ _ _ _ _ _ _ _)))))) Hs); try by constructor.
  - repeat apply Forall_cons_2; [..|constructor]; (split; [split; cbn; ulia|split; [cbn; ulia|cbn; intros x Hx; try done; injection Hx as <-; ulia]]).
  - apply (bool_decide_unpack _). vm_compute. exact I.
Defined.
