(* ===== verification/InMemory.v ===== *)
(** * The in-memory proofs store

    Models [crates/proofs/src/in_memory.rs]: the store over ordered maps from
    (block, key) to values, its cursors, its writers, the initial state and the batch
    session.  A [BTreeMap] is the list of its entries in key order; a triple key
    (block, address, key) is nested to the right, which has the same order.  The lock
    is a value: a cursor that is not yet populated gets the store, or nothing when
    [try_read] fails.  The cursors' [isize] positions grow by one per call and are
    unbounded here.

    [mem_represents] is the contract of [StoreRefinement] for this store, and the
    theorem at the end says that both stores show their readers the same entries. *)

From stdpp Require Import sorting.
From S2P Require Import Prelude.
From S2P Require Import Versioned.
From S2P Require Import HistoryWrites.
From S2P Require Import ProofsStore.
From S2P Require Import StoreRefinement.
From S2P Require Import StoreSafety.
From S2P Require Import Initialize.
#[local] Open Scope Z_scope.

Module Mem.

(** ** Ordered maps *)

Section Maps.
Context {K A : Type} `{KeyOrd K}.

(** [BTreeMap::remove], without the value it returns. *)
Definition btree_remove (k : K) (m : list (K * A)) : list (K * A) :=
  List.filter (λ e, negb (bool_decide (e.1 = k))) m.
End Maps.

(** The newest entries of the keys that [sel] selects, among the blocks that [in_range]
    accepts: the loop that every cursor and the wipe of a storage run. *)
Section Latest.
Context {K K2 A : Type} `{KeyOrd K, KeyOrd K2}.

Definition latest_step (in_range : Z → bool) (sel : K → option K2)
    (to_latest : list (K2 * (Z * A))) (e : Z * K * A) : list (K2 * (Z * A)) :=
  let '((block, key), value) := e in
  if in_range block then
    match sel key with
    | Some k =>
        match item_of to_latest k with
        | Some (existing_block, _) =>
            if existing_block <? block then btree_insert k (block, value) to_latest else to_latest
        | None => btree_insert k (block, value) to_latest
        end
    | None => to_latest
    end
  else to_latest.

Definition collect_latest in_range sel (m : list (Z * K * A)) : list (K2 * (Z * A)) :=
  foldl (latest_step in_range sel) [] m.
End Latest.

Definition any_key {K} (k : K) : option K := Some k.
Definition of_address {K} (hashed_address : B256) (k : B256 * K) : option K :=
  if k.1 =? hashed_address then Some k.2 else None.

(** ** The store *)

(** [TrieUpdatesSorted] and [HashedPostStateSorted] are the two halves of a diff. *)
Record InMemoryStorageInner (Node Account : Type) := {
  account_branches : list (Z * path * option Node);
  storage_branches : list (Z * (B256 * path) * option Node);
  hashed_accounts : list (Z * B256 * option Account);
  hashed_storages : list (Z * (B256 * B256) * Z);
  trie_updates : list (Z * (list (path * option Node) * list (B256 * StorageTrieUpdates Node)));
  post_states : list (Z * (list (B256 * option Account) * list (B256 * HashedStorage)));
  earliest_block : option (Z * B256);
  anchor_block : option (Z * B256);
}.
Arguments account_branches {Node Account}.
Arguments storage_branches {Node Account}.
Arguments hashed_accounts {Node Account}.
Arguments hashed_storages {Node Account}.
Arguments trie_updates {Node Account}.
Arguments post_states {Node Account}.
Arguments earliest_block {Node Account}.
Arguments anchor_block {Node Account}.

Section Store.
Context {E Node Account : Type}.
Abbreviation inner := (InMemoryStorageInner Node Account).
Abbreviation diff := (BlockStateDiff Node Account).
Abbreviation err := (MorphProofsStorageError E).
Implicit Types s : inner.

Definition Inner_default : inner := {|
  account_branches := []; storage_branches := []; hashed_accounts := []; hashed_storages := [];
  trie_updates := []; post_states := []; earliest_block := None; anchor_block := None |}.

(** *** Writing a block *)

Definition store_account_nodes (block_number : Z) (nodes : list (path * option Node)) m :=
  foldl (λ m '(path, branch), btree_insert (block_number, path) branch m) m nodes.

Definition store_storage_tries (block_number : Z)
    (tries : list (B256 * StorageTrieUpdates Node)) (m : list (Z * (B256 * path) * option Node)) :=
  foldl (λ m '(address, updates),
    foldl (λ m '(path, branch), btree_insert (block_number, (address, path)) branch m) m
      (storage_nodes updates)) m tries.

Definition store_accounts (block_number : Z) (accounts : list (B256 * option Account)) m :=
  foldl (λ m '(address, account), btree_insert (block_number, address) account m) m accounts.

(** The slots that a wipe zeroes: the non-zero ones before the block. *)
Definition wiped_slots (block_number : Z) (hashed_address : B256)
    (m : list (Z * (B256 * B256) * Z)) : list (B256 * (Z * Z)) :=
  List.filter (λ e, negb (e.2.2 =? 0))
    (collect_latest (λ block, block <? block_number) (of_address hashed_address) m).

Definition store_storage (block_number : Z) (mc : list (Z * (B256 * B256) * Z) * Z)
    (u : B256 * HashedStorage) : list (Z * (B256 * B256) * Z) * Z :=
  let '(m, count) := mc in
  let '(hashed_address, storage) := u in
  let zeroed := if wiped storage then wiped_slots block_number hashed_address m else [] in
  let m := foldl (λ m '(slot, _), btree_insert (block_number, (hashed_address, slot)) 0 m) m zeroed in
  let m := foldl (λ m '(slot, value), btree_insert (block_number, (hashed_address, slot)) value m) m
    (storage_slots storage) in
  (m, count + Z.of_nat (length zeroed) + Z.of_nat (length (storage_slots storage))).

Definition inner_store_trie_updates (block_number : Z) (bd : diff) s : inner * WriteCounts :=
  let '(storages, storages_written) :=
    foldl (store_storage block_number) (hashed_storages s, 0) (storages bd) in
  ({| account_branches := store_account_nodes block_number (account_nodes bd) (account_branches s);
      storage_branches := store_storage_tries block_number (storage_tries bd) (storage_branches s);
      hashed_accounts := store_accounts block_number (accounts bd) (hashed_accounts s);
      hashed_storages := storages;
      trie_updates := btree_insert block_number (account_nodes bd, storage_tries bd) (trie_updates s);
      post_states := btree_insert block_number (accounts bd, ProofsStore.storages bd) (post_states s);
      earliest_block := earliest_block s; anchor_block := anchor_block s |},
   {| account_trie_updates_written_total := Z.of_nat (length (account_nodes bd));
      storage_trie_updates_written_total := Z.of_nat (trie_entries (storage_tries bd));
      hashed_accounts_written_total := Z.of_nat (length (accounts bd));
      hashed_storages_written_total := storages_written |}).

Definition store_trie_updates (block_ref : BlockWithParent) (bd : diff) s
  : inner * result WriteCounts err :=
  let '(s, counts) := inner_store_trie_updates (number (block block_ref)) bd s in (s, Ok counts).

(** *** Reading back *)

Definition get_earliest_block_number s : option (Z * B256) := earliest_block s.

(** [keys().max()] of an ordered map is its last key. *)
Definition get_latest_block_number s : option (Z * B256) :=
  match last (map fst (trie_updates s)) with
  | Some block => Some (block, 0)
  | None => earliest_block s
  end.

Definition fetch_trie_updates (block_number : Z) s : diff :=
  let '(nodes, tries) := default ([], []) (item_of (trie_updates s) block_number) in
  let '(accounts, storages) := default ([], []) (item_of (post_states s) block_number) in
  {| account_nodes := nodes; storage_tries := tries;
     ProofsStore.accounts := accounts; ProofsStore.storages := storages |}.

(** *** Pruning *)

(** The rows of the pruned blocks, in order, moved to block 0. *)
Definition move_to_base {K A} `{KeyOrd K} (mc : list (Z * K * A) * Z) (key : Z * K)
  : list (Z * K * A) * Z :=
  let '(m, count) := mc in
  match item_of m key with
  | Some value => (btree_insert (0, key.2) value (btree_remove key m), count + 1)
  | None => (m, count)
  end.

Definition prune_map {K A} `{KeyOrd K} (new_earliest : Z) (m : list (Z * K * A))
  : list (Z * K * A) * Z :=
  let keys := List.filter (λ k : Z * K, (0 <? k.1) && (k.1 <=? new_earliest)) (map fst m) in
  foldl move_to_base (m, 0) keys.

Definition prune_earliest_state (new_earliest_block_ref : BlockWithParent) s
  : inner * result WriteCounts err :=
  let new_earliest := number (block new_earliest_block_ref) in
  let '(account_branches, c1) := prune_map new_earliest (account_branches s) in
  let '(storage_branches, c2) := prune_map new_earliest (storage_branches s) in
  let '(hashed_accounts, c3) := prune_map new_earliest (hashed_accounts s) in
  let '(hashed_storages, c4) := prune_map new_earliest (hashed_storages s) in
  ({| account_branches := account_branches; storage_branches := storage_branches;
      hashed_accounts := hashed_accounts; hashed_storages := hashed_storages;
      trie_updates := List.filter (λ e, new_earliest <? e.1) (trie_updates s);
      post_states := List.filter (λ e, new_earliest <? e.1) (post_states s);
      earliest_block := match earliest_block s with
                        | Some (_, hash) => Some (new_earliest, hash)
                        | None => None
                        end;
      anchor_block := anchor_block s |},
   Ok (Build_WriteCounts c1 c2 c3 c4)).

(** *** Unwinding and replacing *)

(** The six [retain] calls that both operations start with. *)
Definition retain_upto (n : Z) s : inner := {|
  account_branches := List.filter (λ e, e.1.1 <=? n) (account_branches s);
  storage_branches := List.filter (λ e, e.1.1 <=? n) (storage_branches s);
  hashed_accounts := List.filter (λ e, e.1.1 <=? n) (hashed_accounts s);
  hashed_storages := List.filter (λ e, e.1.1 <=? n) (hashed_storages s);
  trie_updates := List.filter (λ e, e.1 <=? n) (trie_updates s);
  post_states := List.filter (λ e, e.1 <=? n) (post_states s);
  earliest_block := earliest_block s; anchor_block := anchor_block s |}.

Definition unwind_history (unwind_upto_block : BlockWithParent) s : inner * result unit err :=
  (retain_upto (saturating_sub (number (block unwind_upto_block)) 1) s, Ok tt).

Definition replace_updates (latest_common_block : NumHash)
    (blocks_to_add : list (BlockWithParent * diff)) s : inner * result unit err :=
  (foldl (λ s '(r, bd), (inner_store_trie_updates (number (block r)) bd s).1)
     (retain_upto (number latest_common_block) s) blocks_to_add, Ok tt).

Definition set_earliest_block_number (block_number : Z) (hash : B256) s : inner * result unit err :=
  ({| account_branches := account_branches s; storage_branches := storage_branches s;
      hashed_accounts := hashed_accounts s; hashed_storages := hashed_storages s;
      trie_updates := trie_updates s; post_states := post_states s;
      earliest_block := Some (block_number, hash); anchor_block := anchor_block s |}, Ok tt).

(** [with_batch_session]: the session writes to the store itself, whatever the closure
    returns. *)
Definition with_batch_session {R} (f : inner → inner * result R err) s : inner * result R err := f s.

(** *** The initial state *)

(** The last key of a map's block 0: [range((0, min)..(1, min)).next_back()]. *)
Definition latest_base_key {K A} (m : list (Z * K * A)) : option K :=
  snd <$> last (List.filter (λ k : Z * K, k.1 =? 0) (map fst m)).

Definition get_latest_account_trie_key s : option path := latest_base_key (account_branches s).
Definition get_latest_storage_trie_key s : option (B256 * path) := latest_base_key (storage_branches s).
Definition get_latest_hashed_account_key s : option B256 := latest_base_key (hashed_accounts s).
Definition get_latest_hashed_storage_key s : option (B256 * B256) := latest_base_key (hashed_storages s).

Definition initial_state_anchor s : InitialStateAnchor :=
  match anchor_block s with
  | None => InitialStateAnchor_default
  | Some (block_num, block_hash) =>
      let completed := bool_decide (is_Some (earliest_block s)) in
      {| Initialize.anchor_block := Some (Build_NumHash block_num block_hash);
         status := if completed then Completed else InProgress;
         latest_account_trie_key := get_latest_account_trie_key s;
         latest_storage_trie_key := get_latest_storage_trie_key s;
         latest_hashed_account_key := get_latest_hashed_account_key s;
         latest_hashed_storage_key := get_latest_hashed_storage_key s |}
  end.

Definition set_initial_state_anchor (anchor : NumHash) s : inner := {|
  account_branches := account_branches s; storage_branches := storage_branches s;
  hashed_accounts := hashed_accounts s; hashed_storages := hashed_storages s;
  trie_updates := trie_updates s; post_states := post_states s;
  earliest_block := earliest_block s; anchor_block := Some (number anchor, nhash anchor) |}.

Definition store_account_branches (updates : list (path * option Node)) s : inner := {|
  account_branches :=
    foldl (λ m '(path, branch), btree_insert (0, path) branch m) (account_branches s) updates;
  storage_branches := storage_branches s;
  hashed_accounts := hashed_accounts s; hashed_storages := hashed_storages s;
  trie_updates := trie_updates s; post_states := post_states s;
  earliest_block := earliest_block s; anchor_block := anchor_block s |}.

Definition store_storage_branches (hashed_address : B256) (items : list (path * option Node)) s
  : inner := {|
  account_branches := account_branches s;
  storage_branches :=
    foldl (λ m '(path, branch), btree_insert (0, (hashed_address, path)) branch m)
      (storage_branches s) items;
  hashed_accounts := hashed_accounts s; hashed_storages := hashed_storages s;
  trie_updates := trie_updates s; post_states := post_states s;
  earliest_block := earliest_block s; anchor_block := anchor_block s |}.

Definition store_hashed_accounts (accounts : list (B256 * option Account)) s : inner := {|
  account_branches := account_branches s; storage_branches := storage_branches s;
  hashed_accounts :=
    foldl (λ m '(address, account), btree_insert (0, address) account m) (hashed_accounts s) accounts;
  hashed_storages := hashed_storages s;
  trie_updates := trie_updates s; post_states := post_states s;
  earliest_block := earliest_block s; anchor_block := anchor_block s |}.

Definition store_hashed_storages (hashed_address : B256) (storages : list (B256 * Z)) s : inner := {|
  account_branches := account_branches s; storage_branches := storage_branches s;
  hashed_accounts := hashed_accounts s;
  hashed_storages :=
    foldl (λ m '(slot, value), btree_insert (0, (hashed_address, slot)) value m)
      (hashed_storages s) storages;
  trie_updates := trie_updates s; post_states := post_states s;
  earliest_block := earliest_block s; anchor_block := anchor_block s |}.

Definition commit_initial_state s : inner * result NumHash err :=
  match anchor_block s with
  | Some (number, hash) =>
      ((set_earliest_block_number number hash s).1, Ok (Build_NumHash number hash))
  | None => (s, Err NoBlocksFound)
  end.
End Store.

(** ** Cursors *)

(** The entries of a populated cursor and its position, -1 before the first. *)
Section Entries.
Context {K V : Type} `{KeyOrd K}.
Implicit Types (entries : list (K * V)).

(** What the position points at. *)
Definition entry_at entries (position : Z) : option (K * V) :=
  if 0 <=? position then entries !! Z.to_nat position else None.

(** [iter().position(..)] on the first entry with the key, or from the key on. *)
Definition find_exact entries (key : K) : option (nat * (K * V)) :=
  list_find (λ e, e.1 = key) entries.
Definition find_from entries (key : K) : option (nat * (K * V)) :=
  list_find (λ e, ¬ key_lt e.1 key) entries.
End Entries.

(** [sort_by_key] on the keys. *)
Definition sort_by_key {K V} `{KeyOrd K} (l : list (K * V)) : list (K * V) := merge_sort key_le l.

(** The live values of the newest entries. *)
Definition live_values {K V} (l : list (K * (Z * option V))) : list (K * V) :=
  omap (λ e, (e.1,.) <$> e.2.2) l.

Section TrieCursor.
Context {E Node Account : Type}.
Abbreviation inner := (InMemoryStorageInner Node Account).
Abbreviation err := (MorphProofsStorageError E).

Record InMemoryTrieCursor := {
  tc_hashed_address : option B256;
  tc_max_block_number : Z;
  tc_position : Z;
  tc_is_populated : bool;
  tc_entries : list (path * Node);
}.
Implicit Types c : InMemoryTrieCursor.

Definition trie_cursor_new (hashed_address : option B256) (max_block_number : Z)
  : InMemoryTrieCursor := {|
  tc_hashed_address := hashed_address; tc_max_block_number := max_block_number;
  tc_position := -1; tc_is_populated := false; tc_entries := [] |}.

Definition tc_at (position : Z) c : InMemoryTrieCursor := {|
  tc_hashed_address := tc_hashed_address c; tc_max_block_number := tc_max_block_number c;
  tc_position := position; tc_is_populated := tc_is_populated c; tc_entries := tc_entries c |}.

Definition trie_entries_upto (hashed_address : option B256) (max_block_number : Z) (storage : inner)
  : list (path * Node) :=
  let path_to_latest :=
    match hashed_address with
    | Some addr => collect_latest (λ b, b <=? max_block_number) (of_address addr) (storage_branches storage)
    | None => collect_latest (λ b, b <=? max_block_number) any_key (account_branches storage)
    end in
  sort_by_key (live_values path_to_latest).

(** [try_read] is the store, when the lock is free. *)
Definition tc_ensure_entries_populated (try_read : option inner) c : result InMemoryTrieCursor err :=
  if tc_is_populated c then Ok c
  else
    let? storage := ok_or try_read TryLockError in
    Ok {| tc_hashed_address := tc_hashed_address c; tc_max_block_number := tc_max_block_number c;
          tc_position := tc_position c; tc_is_populated := true;
          tc_entries := trie_entries_upto (tc_hashed_address c) (tc_max_block_number c) storage |}.

Definition tc_seek_exact (try_read : option inner) (p : path) c
  : result (InMemoryTrieCursor * option (path * Node)) err :=
  let? c := tc_ensure_entries_populated try_read c in
  match find_exact (tc_entries c) p with
  | Some (pos, e) => Ok (tc_at (Z.of_nat pos) c, Some e)
  | None => Ok (c, None)
  end.

Definition tc_seek (try_read : option inner) (p : path) c
  : result (InMemoryTrieCursor * option (path * Node)) err :=
  let? c := tc_ensure_entries_populated try_read c in
  match find_from (tc_entries c) p with
  | Some (pos, e) => Ok (tc_at (Z.of_nat pos) c, Some e)
  | None => Ok (c, None)
  end.

Definition tc_next (try_read : option inner) c
  : result (InMemoryTrieCursor * option (path * Node)) err :=
  let? c := tc_ensure_entries_populated try_read c in
  let c := tc_at (tc_position c + 1) c in
  Ok (c, entry_at (tc_entries c) (tc_position c)).

Definition tc_current (try_read : option inner) c : result (InMemoryTrieCursor * option path) err :=
  let? c := tc_ensure_entries_populated try_read c in
  Ok (c, fst <$> entry_at (tc_entries c) (tc_position c)).

Definition tc_reset c : InMemoryTrieCursor := tc_at (-1) c.

Definition tc_set_hashed_address (hashed_address : B256) c : InMemoryTrieCursor :=
  tc_reset {|
    tc_hashed_address := Some hashed_address; tc_max_block_number := tc_max_block_number c;
    tc_position := tc_position c; tc_is_populated := false; tc_entries := [] |}.
End TrieCursor.
Arguments InMemoryTrieCursor : clear implicits.
Arguments trie_cursor_new {Node}.

Section HashedCursors.
Context {E Node Account : Type}.
Abbreviation inner := (InMemoryStorageInner Node Account).
Abbreviation err := (MorphProofsStorageError E).

(** *** Slots *)

Record InMemoryStorageCursor := {
  sc_hashed_address : B256;
  sc_max_block_number : Z;
  sc_position : Z;
  sc_is_populated : bool;
  sc_entries : list (B256 * Z);
}.
Implicit Types c : InMemoryStorageCursor.

Definition storage_cursor_new (hashed_address : B256) (max_block_number : Z) : InMemoryStorageCursor := {|
  sc_hashed_address := hashed_address; sc_max_block_number := max_block_number;
  sc_position := -1; sc_is_populated := false; sc_entries := [] |}.

Definition sc_at (position : Z) c : InMemoryStorageCursor := {|
  sc_hashed_address := sc_hashed_address c; sc_max_block_number := sc_max_block_number c;
  sc_position := position; sc_is_populated := sc_is_populated c; sc_entries := sc_entries c |}.

Definition slot_entries_upto (hashed_address : B256) (max_block_number : Z) (storage : inner)
  : list (B256 * Z) :=
  sort_by_key (omap (λ '(slot, (_, value)), if value =? 0 then None else Some (slot, value))
    (collect_latest (λ b, b <=? max_block_number) (of_address hashed_address) (hashed_storages storage))).

Definition sc_ensure_entries_populated (try_read : option inner) c : result InMemoryStorageCursor err :=
  if sc_is_populated c then Ok c
  else
    let? storage := ok_or try_read TryLockError in
    Ok {| sc_hashed_address := sc_hashed_address c; sc_max_block_number := sc_max_block_number c;
          sc_position := sc_position c; sc_is_populated := true;
          sc_entries := slot_entries_upto (sc_hashed_address c) (sc_max_block_number c) storage |}.

Definition sc_seek (try_read : option inner) (key : B256) c
  : result (InMemoryStorageCursor * option (B256 * Z)) err :=
  let? c := sc_ensure_entries_populated try_read c in
  match find_from (sc_entries c) key with
  | Some (pos, e) => Ok (sc_at (Z.of_nat pos) c, Some e)
  | None => Ok (c, None)
  end.

Definition sc_next (try_read : option inner) c
  : result (InMemoryStorageCursor * option (B256 * Z)) err :=
  let? c := sc_ensure_entries_populated try_read c in
  let c := sc_at (sc_position c + 1) c in
  Ok (c, entry_at (sc_entries c) (sc_position c)).

Definition sc_reset c : InMemoryStorageCursor := sc_at (-1) c.

Definition sc_is_storage_empty (try_read : option inner) c : result (InMemoryStorageCursor * bool) err :=
  let? '(c, o) := sc_seek try_read 0 c in Ok (c, bool_decide (o = None)).

Definition sc_set_hashed_address (hashed_address : B256) c : InMemoryStorageCursor :=
  sc_reset {|
    sc_hashed_address := hashed_address; sc_max_block_number := sc_max_block_number c;
    sc_position := sc_position c; sc_is_populated := false; sc_entries := [] |}.

(** *** Accounts *)

Record InMemoryAccountCursor := { ac_position : Z; ac_entries : list (B256 * Account) }.
Implicit Types ac : InMemoryAccountCursor.

Definition account_cursor_new (storage : inner) (max_block_number : Z) : InMemoryAccountCursor := {|
  ac_position := -1;
  ac_entries := sort_by_key (live_values
    (collect_latest (λ b, b <=? max_block_number) any_key (hashed_accounts storage))) |}.

Definition account_hashed_cursor (try_read : option inner) (max_block_number : Z)
  : result InMemoryAccountCursor err :=
  let? storage := ok_or try_read TryLockError in
  Ok (account_cursor_new storage max_block_number).

Definition ac_seek (key : B256) ac : result (InMemoryAccountCursor * option (B256 * Account)) err :=
  match find_from (ac_entries ac) key with
  | Some (pos, e) => Ok ({| ac_position := Z.of_nat pos; ac_entries := ac_entries ac |}, Some e)
  | None => Ok (ac, None)
  end.

Definition ac_next ac : result (InMemoryAccountCursor * option (B256 * Account)) err :=
  let ac := {| ac_position := ac_position ac + 1; ac_entries := ac_entries ac |} in
  Ok (ac, entry_at (ac_entries ac) (ac_position ac)).

(** [reset] does nothing. *)
Definition ac_reset ac : InMemoryAccountCursor := ac.
End HashedCursors.
Arguments InMemoryAccountCursor : clear implicits.

(** ** Sorted lists *)

Section SortedLists.
Context {K V : Type} `{KeyOrdLaws K}.
Implicit Types (l : list (K * V)).

Lemma mem_btree_filter (p : K * V → bool) l : btree l → btree (List.filter p l).
Proof.
  unfold btree. induction l as [|[k v] l IH]; [done|]. cbn. intros [Hl Hf]%StronglySorted_inv.
  destruct (p (k, v)); cbn; [|by apply IH]. constructor; [by apply IH|].
  rewrite Forall_forall in Hf. rewrite Forall_forall. intros x Hx. apply Hf.
  apply list_elem_of_fmap in Hx as (e & -> & He). apply list_elem_of_fmap. exists e. split; [done|].
  apply list_elem_of_In, filter_In in He as [He _]. by apply list_elem_of_In.
Qed.

Lemma btree_functional l k v1 v2 : btree l → (k, v1) ∈ l → (k, v2) ∈ l → v1 = v2.
Proof.
  intros Hl%btree_NoDup H1 H2. apply (item_of_Some _ _ _ Hl) in H1, H2. by simplify_eq.
Qed.

Lemma key_lt_asym (k1 k2 : K) : key_lt k1 k2 → ¬ key_lt k2 k1.
Proof. intros H1 H2. destruct (irreflexivity key_lt k1). by etrans. Qed.

#[local] Instance key_le_total : Total (@key_le K V _).
Proof.
  intros e1 e2. unfold key_le. destruct (decide (key_lt e2.1 e1.1)) as [Hl|]; [right|by left].
  by apply key_lt_asym.
Qed.

#[local] Instance key_le_trans : Transitive (@key_le K V _).
Proof.
  intros e1 e2 e3. unfold key_le. intros H1 H2 H3.
  destruct (key_lt_total e1.1 e2.1) as [Hl|[Hl|Hl]]; [|rewrite Hl in H3; done|done].
  destruct (key_lt_total e2.1 e3.1) as [Hl'|[Hl'|Hl']]; [|rewrite <- Hl' in H3; done|done].
  destruct (irreflexivity key_lt e1.1). etrans; [done|]. by etrans.
Qed.

(** Sorting the entries of a map changes nothing. *)
Lemma sort_by_key_id l : btree l → sort_by_key l = l.
Proof.
  intros Hl. apply btree_unique; [|done|by intros k v; unfold sort_by_key; rewrite merge_sort_Permutation].
  assert (Hnd : NoDup (map fst (sort_by_key l))).
  { unfold sort_by_key. rewrite merge_sort_Permutation. by apply btree_NoDup. }
  pose proof (StronglySorted_merge_sort key_le l) as Hs. fold (sort_by_key l) in Hs. unfold btree.
  revert Hs Hnd. generalize (sort_by_key l). clear l Hl. intros l. induction 1 as [|[k v] l Hl IH Hf]; intros Hnd; [constructor|].
  cbn in *. apply NoDup_cons in Hnd as [Hk Hnd]. constructor; [by apply IH|].
  rewrite Forall_forall in Hf. rewrite Forall_forall. intros x Hx.
  pose proof Hx as ([k' v'] & -> & Hin)%list_elem_of_fmap. specialize (Hf _ Hin). unfold key_le in Hf; cbn in *.
  destruct (key_lt_total k k') as [?|[->|?]]; done.
Qed.
End SortedLists.

(** ** The newest entry of a key *)

Section LatestSpec.
Context {K A : Type} `{KeyOrdLaws K}.
Implicit Types (m : list (Z * K * A)).

(** [a] is the value of [k] at [b], its newest block that [p] accepts. *)
Definition newest (p : Z → bool) m (k : K) (b : Z) (a : A) : Prop :=
  ((b, k), a) ∈ m ∧ p b = true ∧ ∀ b' a', ((b', k), a') ∈ m → p b' = true → b' ≤ b.

(** A row that the search passes over, or that it takes. *)
Lemma newest_skip p r m k b a : (r.1.2 = k → p r.1.1 = false) →
  newest p (r :: m) k b a ↔ newest p m k b a.
Proof using.
  destruct r as [[b0 k0] a0]; cbn. intros Hr. unfold newest. rewrite elem_of_cons. split.
  - intros ([[= <- <- <-]|Hin] & Hp & Hmax); [by rewrite Hr in Hp|]. split_and!; [done..|].
    intros b' a' Hin'. apply (Hmax b' a'). by right.
  - intros (Hin & Hp & Hmax). split_and!; [by right|done|].
    intros b' a' [[= <- <- <-]|Hin']%elem_of_cons Hp'; [by rewrite Hr in Hp'|by apply (Hmax b' a')].
Qed.

Lemma newest_dec p m k : (∃ b a, newest p m k b a) ∨ ∀ b a, ((b, k), a) ∈ m → p b = false.
Proof using H0.
  induction m as [|[[b0 k0] a0] m IH]; [right; by intros b a []%elem_of_nil|].
  destruct (decide (k0 = k)) as [->|Hne].
  2: { destruct IH as [(b & a & Hn)|Hno]; [left; exists b, a; by apply newest_skip|right].
       intros b a [[= -> -> ->]|Hin]%elem_of_cons; [done|by eapply Hno]. }
  destruct (p b0) eqn:Hp.
  2: { destruct IH as [(b & a & Hn)|Hno]; [left; exists b, a; by apply newest_skip|right].
       intros b a [[= -> ->]|Hin]%elem_of_cons; [done|by eapply Hno]. }
  left. destruct IH as [(b & a & Hin & Hpb & Hmax)|Hno].
  - destruct (Z.le_gt_cases b b0).
    + exists b0, a0. split_and!; [by left|done|]. intros b' a' [[= -> ->]|Hin']%elem_of_cons Hp'; [lia|].
      specialize (Hmax _ _ Hin' Hp'). lia.
    + exists b, a. split_and!; [by right|done|]. intros b' a' [[= -> ->]|Hin']%elem_of_cons Hp'; [lia|].
      by apply (Hmax b' a').
  - exists b0, a0. split_and!; [by left|done|]. intros b' a' [[= -> ->]|Hin']%elem_of_cons Hp'; [lia|].
    by rewrite (Hno _ _ Hin') in Hp'.
Qed.

Lemma newest_functional p m k b1 a1 b2 a2 : btree m →
  newest p m k b1 a1 → newest p m k b2 a2 → b1 = b2 ∧ a1 = a2.
Proof using H0.
  intros Hm (H1 & P1 & M1) (H2 & P2 & M2). assert (b1 = b2) as ->.
  { specialize (M1 _ _ H2 P2). specialize (M2 _ _ H1 P1). lia. }
  split; [done|]. exact (btree_functional _ _ _ _ Hm H1 H2).
Qed.

Lemma newest_ext p q m m' k b a :
  (∀ b a, p b = true ∧ ((b, k), a) ∈ m ↔ q b = true ∧ ((b, k), a) ∈ m') →
  newest p m k b a ↔ newest q m' k b a.
Proof using.
  intros Heq. unfold newest. split; intros (Hin & Hp & Hmax).
  - destruct (proj1 (Heq b a)) as [Hq Hin']; [done|]. split_and!; [done..|].
    intros b' a' Hin2 Hq2. destruct (proj2 (Heq b' a')) as [Hp2 Hin3]; [done|]. by apply (Hmax b' a').
  - destruct (proj2 (Heq b a)) as [Hq Hin']; [done|]. split_and!; [done..|].
    intros b' a' Hin2 Hq2. destruct (proj1 (Heq b' a')) as [Hp2 Hin3]; [done|]. by apply (Hmax b' a').
Qed.

Context {K2 : Type} `{KeyOrdLaws K2} (p : Z → bool) (sel : K → option K2).
Context (sel_inj : ∀ k1 k2 x, sel k1 = Some x → sel k2 = Some x → k1 = k2).

Definition newest_of m (acc : list (K2 * (Z * A))) : Prop :=
  btree acc ∧ ∀ x b a, (x, (b, a)) ∈ acc ↔ ∃ k, sel k = Some x ∧ newest p m k b a.

Lemma newest_of_skip m acc r : newest_of m acc → (∀ x, sel r.1.2 = Some x → p r.1.1 = false) →
  newest_of (r :: m) acc.
Proof using.
  intros [Hs Hacc] Hr. split; [done|]. intros x b a. rewrite Hacc.
  split; intros (k & Hk & Hn); exists k; (split; [done|]).
  - apply newest_skip; [|done]. intros <-. by eapply Hr.
  - apply newest_skip in Hn; [done|]. intros <-. by eapply Hr.
Qed.

Lemma newest_of_take m acc b0 k0 a0 x0 : newest_of m acc → sel k0 = Some x0 → p b0 = true →
  (∀ b a, ((b, k0), a) ∈ m → p b = true → b < b0) →
  newest_of (((b0, k0), a0) :: m) (btree_insert x0 (b0, a0) acc).
Proof using H0 H2 sel_inj.
  intros [Hs Hacc] Hx0 Hp Hold. split; [by apply btree_insert_sorted|].
  assert (Hnew : newest p (((b0, k0), a0) :: m) k0 b0 a0).
  { split_and!; [by left|done|]. intros b' a' [[= -> ->]|Hin]%elem_of_cons Hp'; [lia|].
    specialize (Hold _ _ Hin Hp'). lia. }
  intros x b a. rewrite elem_of_btree_insert by done. split.
  - intros [[= -> -> ->]|[Hne Hin]]; [by exists k0|]. apply Hacc in Hin as (k & Hk & Hn).
    exists k. split; [done|]. apply newest_skip; [|done]. cbn. intros ->. by simplify_eq.
  - intros (k & Hk & Hn). destruct (decide (x = x0)) as [->|Hne].
    + left. assert (k = k0) as -> by (by eapply sel_inj). destruct Hn as (Hin & Hpb & Hmax).
      specialize (Hmax b0 a0 (list_elem_of_here _ _) Hp). apply elem_of_cons in Hin as [[= -> ->]|Hin]; [done|].
      specialize (Hold _ _ Hin Hpb). lia.
    + right. split; [done|]. apply Hacc. exists k. split; [done|]. apply newest_skip in Hn; [done|].
      cbn. intros ->. by simplify_eq.
Qed.

Lemma newest_of_keep m acc b0 k0 a0 b1 a1 : newest_of m acc → newest p m k0 b1 a1 → b0 < b1 →
  newest_of (((b0, k0), a0) :: m) acc.
Proof using.
  intros [Hs Hacc] (Hin1 & Hp1 & Hmax1) Hlt. split; [done|]. intros x b a. rewrite Hacc.
  split; intros (k & Hk & Hin & Hp & Hmax); exists k; (split; [done|]).
  - split_and!; [by right|done|]. intros b' a' [[= -> -> ->]|Hin']%elem_of_cons Hp'; [|by apply (Hmax b' a')].
    specialize (Hmax _ _ Hin1 Hp1). lia.
  - apply elem_of_cons in Hin as [[= -> -> ->]|Hin].
    + specialize (Hmax b1 a1 (list_elem_of_further _ _ _ Hin1) Hp1). lia.
    + split_and!; [done..|]. intros b' a' Hin'. apply (Hmax b' a'). by right.
Qed.

Lemma latest_step_spec m acc r : newest_of m acc → r.1 ∉ map fst m →
  newest_of (r :: m) (latest_step p sel acc r).
Proof using H0 H2 sel_inj.
  destruct r as [[b0 k0] a0]. intros Hacc Hr. unfold latest_step. cbn in Hr.
  destruct (p b0) eqn:Hp; [|by apply newest_of_skip].
  destruct (sel k0) as [x0|] eqn:Hx; [|by apply newest_of_skip; cbn; [|rewrite Hx]].
  assert (Hne : ∀ b a, ((b, k0), a) ∈ m → b ≠ b0).
  { intros b a Hin ->. apply Hr, list_elem_of_fmap. by exists ((b0, k0), a). }
  destruct (item_of acc x0) as [[b1 a1]|] eqn:Hi.
  - apply item_of_Some, Hacc in Hi as (k & Hk & Hn); [|by apply btree_NoDup, Hacc].
    assert (k = k0) as -> by (by eapply sel_inj). destruct (Z.ltb_spec b1 b0).
    + apply newest_of_take; [done..|]. destruct Hn as (_ & _ & Hmax). intros b a Hin Hpb.
      specialize (Hmax _ _ Hin Hpb). lia.
    + eapply newest_of_keep; [done..|]. destruct Hn as (Hin & _). specialize (Hne _ _ Hin). lia.
  - apply newest_of_take; [done..|]. intros b a Hin Hpb.
    destruct (newest_dec p m k0) as [(b2 & a2 & Hn)|Hno]; [|by rewrite (Hno _ _ Hin) in Hpb].
    apply item_of_None in Hi. destruct Hi. apply list_elem_of_fmap. exists (x0, (b2, a2)). split; [done|].
    apply Hacc. by exists k0.
Qed.

Lemma collect_latest_spec m : btree m → newest_of m (collect_latest p sel m).
Proof using H0 H2 sel_inj.
  intros Hm%btree_NoDup. unfold collect_latest.
  assert (Hgen : ∀ done acc, newest_of done acc → NoDup (map fst (m ++ done)) →
    ∃ done', newest_of done' (foldl (latest_step p sel) acc m) ∧ (∀ r, r ∈ done' ↔ r ∈ m ++ done)).
  { clear Hm. induction m as [|r m IH]; intros dn acc Hacc Hnd; [by exists dn|]. cbn in *.
    apply NoDup_cons in Hnd as [Hr Hnd].
    destruct (IH (r :: dn) (latest_step p sel acc r)) as (dn' & Hn & Hin).
    - apply latest_step_spec; [done|]. intros Hc. apply Hr. rewrite map_app, elem_of_app. by right.
    - rewrite map_app in *. cbn. rewrite <- Permutation_middle. apply NoDup_cons. by rewrite <- map_app in *.
    - exists dn'. split; [done|]. intros r'. rewrite Hin, !elem_of_app, !elem_of_cons, elem_of_app. tauto. }
  destruct (Hgen [] []) as (dn & [Hs Hin] & Hdn).
  - split; [constructor|]. intros x b a. rewrite elem_of_nil. split; [done|]. by intros (k & _ & []%elem_of_nil & _).
  - by rewrite app_nil_r.
  - split; [done|]. intros x b a. rewrite Hin. rewrite app_nil_r in Hdn.
    split; intros (k & Hk & Hn); exists k; (split; [done|]); (eapply newest_ext; [|done]); intros; rewrite ?Hdn; tauto.
Qed.
End LatestSpec.

(** ** Views of a map *)

Section Views.
Context {K A : Type} `{KeyOrdLaws K}.
Implicit Types (m : list (Z * K * A)).

(** The value of a key as of a block. *)
Definition mem_view m (n : Z) (k : K) : option A :=
  snd <$> item_of (collect_latest (λ b, b <=? n) any_key m) k.

Lemma mem_view_Some m n k a : btree m →
  mem_view m n k = Some a ↔ ∃ b, newest (λ b, b <=? n) m k b a.
Proof using H0.
  intros Hm. unfold mem_view.
  assert (newest_of (λ b, b <=? n) any_key m (collect_latest (λ b, b <=? n) any_key m)) as [Hs Hin]
    by (apply collect_latest_spec; [by intros k1 k2 x [= ->] [= ->]|done]). split.
  - destruct (item_of _ k) as [[b a']|] eqn:Hi; [|done]. intros [= ->].
    apply item_of_Some, Hin in Hi as (k' & [= ->] & Hn); [|by apply btree_NoDup]. by exists b.
  - intros (b & Hn). rewrite (proj2 (item_of_Some _ k (b, a) (btree_NoDup _ Hs))); [done|].
    apply Hin. by exists k.
Qed.

Lemma view_eq m m' n n' k : btree m → btree m' →
  (∀ b a, b ≤ n ∧ ((b, k), a) ∈ m ↔ b ≤ n' ∧ ((b, k), a) ∈ m') → mem_view m n k = mem_view m' n' k.
Proof using H0.
  intros Hm Hm' Heq. apply option_eq. intros a. rewrite !mem_view_Some by done.
  split; intros (b & Hn); exists b; (eapply newest_ext; [|exact Hn]); intros b' a'; cbn; rewrite !Z.leb_le;
    [symmetry|]; apply Heq.
Qed.

(** The rows of block [b] are replaced by [new]. *)
Definition written (b : Z) (new : K → option A) m m' : Prop :=
  btree m' ∧ ∀ b' k a, ((b', k), a) ∈ m' ↔ (b' = b ∧ new k = Some a) ∨ (b' ≠ b ∧ ((b', k), a) ∈ m).

Definition below (b : Z) m : Prop := ∀ b' k a, ((b', k), a) ∈ m → b' < b.

Lemma view_written b new m m' n k : btree m → below b m → written b new m m' →
  mem_view m' n k =
    if n <? b then mem_view m n k
    else match new k with Some a => Some a | None => mem_view m (b - 1) k end.
Proof using H0.
  intros Hm Hb [Hm' Hin]. destruct (Z.ltb_spec n b).
  { apply view_eq; [done..|]. intros b' a. rewrite Hin. split; [intros [? [[??]|[??]]]; [lia|done]|].
    intros [? ?]. split; [done|]. right. split; [lia|done]. }
  destruct (new k) as [a|] eqn:Hk.
  - apply mem_view_Some; [done|]. exists b. split_and!; [apply Hin; by left|by apply Z.leb_le|].
    intros b' a' [[? _]|[_ Hr]]%Hin _; [lia|]. specialize (Hb _ _ _ Hr). lia.
  - apply view_eq; [done..|]. intros b' a. rewrite Hin. split.
    + intros [? [[_ ?]|[? Hr]]]; [by simplify_eq|]. split; [|done]. specialize (Hb _ _ _ Hr). lia.
    + intros [? Hr]. split; [lia|]. right. split; [lia|done].
Qed.

Lemma written_refl b m : btree m → below b m → written b (λ _, None) m m.
Proof using.
  intros Hm Hb. split; [done|]. intros b' k a. split.
  - intros Hr. right. split; [|done]. specialize (Hb _ _ _ Hr). lia.
  - by intros [[_ ?]|[_ ?]].
Qed.

Lemma written_ext b new new' m m' : (∀ k, new k = new' k) → written b new m m' → written b new' m m'.
Proof using. intros He [Hs Hin]. split; [done|]. intros b' k a. by rewrite Hin, He. Qed.

Lemma written_below b new m m' : below b m → written b new m m' → below (b + 1) m'.
Proof using.
  intros Hb [_ Hin] b' k a [[-> _]|[_ Hr]]%Hin; [lia|]. specialize (Hb _ _ _ Hr). lia.
Qed.

Lemma written_one b new m m1 k a : written b new m m1 →
  written b (λ k', if bool_decide (k' = k) then Some a else new k') m (btree_insert (b, k) a m1).
Proof using H0.
  intros [Hs Hin]. split; [by apply btree_insert_sorted|]. intros b' k' a'.
  rewrite elem_of_btree_insert, Hin by done. case_bool_decide as Hk; [subst k'|]; split.
  - intros [[= -> ->]|[Hne [[-> _]|Hr]]]; [by left|done|by right].
  - intros [[-> [= ->]]|[Hne Hr]]; [by left|]. right. split; [by intros [= ->]|by right].
  - intros [[= -> -> ->]|[_ ?]]; done.
  - intros Hr. right. split; [by intros [= -> ->]|done].
Qed.

(** Entries with distinct keys, inserted at block [b] over others there. *)
Lemma written_insert {T} `{EqDecision T} (f : T → K) (sel : K → option T) b new m m1 (items : list (T * A)) :
  (∀ k x, sel k = Some x ↔ k = f x) → NoDup (map fst items) → written b new m m1 →
  written b (λ k, match sel k ≫= item_of items with Some a => Some a | None => new k end)
    m (foldl (λ m '(x, a), btree_insert (b, f x) a m) m1 items).
Proof using H0.
  intros Hf. revert new m1. induction items as [|[x a] items IH]; intros new m1 Hnd Hw; cbn in *.
  - eapply written_ext; [|exact Hw]. intros k. by destruct (sel k).
  - apply NoDup_cons in Hnd as [Hx Hnd]. specialize (IH _ _ Hnd (written_one _ _ _ _ (f x) a Hw)).
    eapply written_ext; [|exact IH]. intros k. cbn. case_bool_decide as Hk.
    + apply Hf in Hk. rewrite Hk. cbn. rewrite item_of_cons, bool_decide_true by done.
      by rewrite (proj2 (item_of_None items x) Hx).
    + destruct (sel k) as [y|] eqn:Hy; [|done]. cbn. rewrite item_of_cons, bool_decide_false; [done|].
      intros ->. by apply Hk, Hf.
Qed.

Lemma retained_view t m n k : btree m → n ≤ t →
  mem_view (List.filter (λ e, e.1.1 <=? t) m) n k = mem_view m n k.
Proof using H0.
  intros Hm Hn. apply view_eq; [by apply mem_btree_filter|done|]. intros b a.
  rewrite list_elem_of_In, filter_In, <- list_elem_of_In. cbn. rewrite Z.leb_le. split; [tauto|].
  intros [? ?]. split_and!; [done..|lia].
Qed.
End Views.

(** ** Pruning a map *)

Section Prune.
Context {K A : Type} `{KeyOrdLaws K}.
Implicit Types (m : list (Z * K * A)).

Lemma btree_remove_elem k m e : btree m → e ∈ btree_remove k m ↔ e ∈ m ∧ e.1 ≠ k.
Proof using.
  intros _. unfold btree_remove. rewrite list_elem_of_In, filter_In, <- list_elem_of_In.
  by rewrite negb_true_iff, bool_decide_eq_false.
Qed.

Section Move.
Context (m : list (Z * K * A)) (b : Z) (k : K) (a : A).
Context (Hm : btree m) (Hb : 0 < b) (Hrow : ((b, k), a) ∈ m).
Context (Hfirst : ∀ b' a', ((b', k), a') ∈ m → 0 < b' → b ≤ b').

Definition moved : list (Z * K * A) := btree_insert (0, k) a (btree_remove (b, k) m).

Lemma moved_sorted : btree moved.
Proof using H0 Hm. by apply btree_insert_sorted, mem_btree_filter. Qed.

Lemma elem_of_moved b' k' a' : ((b', k'), a') ∈ moved ↔
  ((b', k'), a') = ((0, k), a) ∨ (b', k') ≠ (0, k) ∧ (b', k') ≠ (b, k) ∧ ((b', k'), a') ∈ m.
Proof using H0 Hm.
  unfold moved. rewrite elem_of_btree_insert by (by apply mem_btree_filter).
  rewrite btree_remove_elem by done. cbn. tauto.
Qed.

(** The row moved is the first of its key above block 0, so readers from its block on
    see no difference. *)
Lemma moved_view n k' : b ≤ n → mem_view moved n k' = mem_view m n k'.
Proof using H0 Hm Hb Hrow Hfirst.
  intros Hn. pose proof moved_sorted. destruct (decide (k' = k)) as [->|Hne].
  2: { apply view_eq; [done..|]. intros b' a'. rewrite elem_of_moved. split; [|intuition congruence].
       intros [? [[= -> -> ->]|(_ & _ & ?)]]; done. }
  destruct (newest_dec (λ b, b <=? n) m k) as [(b1 & a1 & Hnew)|Hno].
  2: { specialize (Hno _ _ Hrow). cbn in Hno. lia. }
  transitivity (Some a1); [|symmetry; apply mem_view_Some; [done|by exists b1]].
  apply mem_view_Some; [done|]. destruct Hnew as (Hin1 & Hp1 & Hmax).
  pose proof (Hmax b a Hrow ltac:(by apply Z.leb_le)) as Hle. destruct (Z.eq_dec b1 b) as [->|Hb1].
  - assert (a1 = a) as -> by exact (btree_functional _ _ _ _ Hm Hin1 Hrow).
    exists 0. split_and!; [apply elem_of_moved; by left|lia|].
    intros b' a' Hin' Hp'. apply elem_of_moved in Hin' as [[= -> ->]|(Hn1 & Hn2 & Hin')]; [done|].
    specialize (Hmax _ _ Hin' Hp'). destruct (Z.le_gt_cases b' 0); [done|].
    specialize (Hfirst _ _ Hin'). assert (b' = b) as -> by lia. done.
  - exists b1. split_and!; [|done|].
    + apply elem_of_moved. right. split_and!; [intros [= ->]; lia|by intros [= ->]|done].
    + intros b' a' Hin' Hp'. apply elem_of_moved in Hin' as [[= -> ->]|(Hn1 & Hn2 & Hin')]; [lia|].
      by apply (Hmax b' a').
Qed.
End Move.

(** What pruning up to [t] does to a map. *)
Record pruned_upto (t : Z) m m' : Prop := {
  pu_sorted : btree m';
  pu_view : ∀ n k, t ≤ n → mem_view m' n k = mem_view m n k;
  pu_later : ∀ b k a, t < b → ((b, k), a) ∈ m' ↔ ((b, k), a) ∈ m;
  pu_none : ∀ b k a, ((b, k), a) ∈ m' → 0 < b → t < b;
}.

Lemma move_all_spec t ks m count : btree m → 0 ≤ t → StronglySorted key_lt ks →
  (∀ b k, (b, k) ∈ ks ↔ 0 < b ≤ t ∧ ∃ a, ((b, k), a) ∈ m) →
  pruned_upto t m (foldl move_to_base (m, count) ks).1.
Proof using H0.
  revert m count. induction ks as [|[b k] ks IH]; intros m count Hm Ht Hs Hks; cbn [foldl].
  { split; cbn; [done..|]. intros b k a Hin Hb. destruct (Z.lt_ge_cases t b); [done|].
    assert ((b, k) ∈ []) as []%elem_of_nil. apply Hks. split; [lia|by exists a]. }
  apply StronglySorted_inv in Hs as [Hs Hfirst]. rewrite Forall_forall in Hfirst.
  destruct (proj1 (Hks b k) (list_elem_of_here _ _)) as [Hb [a Hrow]].
  unfold move_to_base at 2. rewrite (proj2 (item_of_Some m (b, k) a (btree_NoDup _ Hm)) Hrow). cbn [snd].
  fold (moved m b k a).
  assert (Hmin : ∀ b' a', ((b', k), a') ∈ m → 0 < b' → b ≤ b').
  { intros b' a' Hin Hb'. destruct (Z.le_gt_cases b b'); [done|].
    assert ((b', k) ∈ (b, k) :: ks) as [[= ->]|Hin']%elem_of_cons; [|lia|].
    - apply Hks. split; [lia|by exists a'].
    - destruct (Hfirst _ Hin') as [Hl|[Hl _]]; cbn in Hl; lia. }
  assert (Hel := elem_of_moved m b k a Hm).
  destruct (IH (moved m b k a) (count + 1)) as [P1 P2 P3 P4];
    [by apply moved_sorted|done|done| |].
  - intros b' k'. split.
    + intros Hin. destruct (proj1 (Hks b' k') (list_elem_of_further _ _ _ Hin)) as [Hb' [a' Hr]].
      split; [done|]. exists a'. apply Hel. right. split_and!; [intros [= ->]; lia| |done].
      intros [= -> ->]. by destruct (irreflexivity key_lt (b, k) (Hfirst _ Hin)).
    + intros [Hb' [a' [[= -> _ _]|(_ & Hne & Hr)]%Hel]]; [lia|].
      assert ((b', k') ∈ (b, k) :: ks) as [?|?]%elem_of_cons; [|done..].
      apply Hks. split; [done|by exists a'].
  - split; [done| | |done].
    + intros n k' Hn. rewrite P2 by done. apply moved_view; [done|lia|done|done|lia].
    + intros b' k' a' Hb'. rewrite P3, Hel by done. split; [intros [[= -> _ _]|(_ & _ & ?)]; [lia|done]|].
      intros Hr. right. split_and!; [intros [= ->]; lia|intros [= ->]; lia|done].
Qed.

Lemma prune_map_spec t m : btree m → 0 ≤ t → pruned_upto t m (prune_map t m).1.
Proof using H0.
  intros Hm Ht. apply move_all_spec; [done..| |].
  - apply filter_sorted. exact Hm.
  - intros b k. rewrite list_elem_of_In, filter_In, <- list_elem_of_In, andb_true_iff, Z.ltb_lt, Z.leb_le.
    cbn. rewrite list_elem_of_fmap. split.
    + intros [([[b' k'] a] & [= -> ->] & Hin) ?]. split; [done|by exists a].
    + intros [? [a Hin]]. split; [by exists ((b, k), a)|done].
Qed.
End Prune.

(** ** Writing a block *)

Lemma any_key_spec {K} (k x : K) : any_key k = Some x ↔ k = x.
Proof. unfold any_key. split; [by intros [= ->]|by intros ->]. Qed.

Lemma of_address_spec {K} a (k : B256 * K) x : of_address a k = Some x ↔ k = (a, x).
Proof.
  unfold of_address. destruct k as [a' k]; cbn. destruct (Z.eqb_spec a' a) as [->|]; split; try done;
    [by intros [= ->]|by intros [= ->]|by intros [= -> ->]].
Qed.

Lemma of_address_inj {K} a (k1 k2 : B256 * K) x :
  of_address a k1 = Some x → of_address a k2 = Some x → k1 = k2.
Proof. by intros ->%of_address_spec ->%of_address_spec. Qed.

Section WriteBlock.
Context {Node Account : Type} (b : Z).

Lemma store_items_written {K A} `{KeyOrdLaws K} (items : list (K * A)) m : btree m → below b m →
  NoDup (map fst items) →
  written b (item_of items) m (foldl (λ m '(k, a), btree_insert (b, k) a m) m items).
Proof.
  intros Hm Hb Hnd. eapply written_ext;
    [|apply (written_insert id any_key b (λ _, None) m m items any_key_spec Hnd); by apply written_refl].
  intros k. cbn. by destruct (item_of items k).
Qed.

(** The rows of the storage tries' updated nodes. *)
Definition new_nodes (tries : list (B256 * StorageTrieUpdates Node)) (k : B256 * path)
  : option (option Node) := item_of tries k.1 ≫= λ u, item_of (storage_nodes u) k.2.

Lemma store_tries_written tries new m m1 : NoDup (map fst tries) →
  (∀ a u, (a, u) ∈ tries → NoDup (map fst (storage_nodes u))) → written b new m m1 →
  written b (λ k, match new_nodes tries k with Some o => Some o | None => new k end)
    m (store_storage_tries b tries m1).
Proof.
  revert new m1. induction tries as [|[a u] tries IH]; intros new m1 Hnd Hnodes Hw; [done|]. cbn in Hnd.
  apply NoDup_cons in Hnd as [Ha Hnd]. cbn.
  pose proof (written_insert (pair a) (of_address a) b new m m1 (storage_nodes u) (of_address_spec a)
    (Hnodes a u (list_elem_of_here _ _)) Hw) as Hw1.
  eapply written_ext; [|exact (IH _ _ Hnd (λ a' u' Hin, Hnodes a' u' (list_elem_of_further _ _ _ Hin)) Hw1)].
  intros [a' p]. unfold new_nodes. cbn. rewrite item_of_cons. unfold of_address; cbn.
  destruct (Z.eqb_spec a' a) as [->|Hne].
  - rewrite bool_decide_true by done. by rewrite (proj2 (item_of_None tries a) Ha).
  - by rewrite bool_decide_false by congruence.
Qed.

(** The rows of an account's slots: its updates, and zero for the live slots it loses. *)
Definition new_slot (m : list (Z * (B256 * B256) * Z)) (a : B256) (u : HashedStorage) (k : B256) : option Z :=
  match item_of (storage_slots u) k with
  | Some v => Some v
  | None => if wiped u && bool_decide (is_Some (nz (mem_view m (b - 1) (a, k)))) then Some 0 else None
  end.

Definition new_slots m (l : list (B256 * HashedStorage)) (k : B256 * B256) : option Z :=
  item_of l k.1 ≫= λ u, new_slot m k.1 u k.2.

Lemma wiped_slots_spec a new m m1 : btree m → written b new m m1 →
  btree (wiped_slots b a m1)
  ∧ ∀ k, k ∈ map fst (wiped_slots b a m1) ↔ is_Some (nz (mem_view m (b - 1) (a, k))).
Proof.
  intros Hm [Hs Hin]. unfold wiped_slots.
  assert (newest_of (λ b', b' <? b) (of_address a) m1
    (collect_latest (λ b', b' <? b) (of_address a) m1)) as [Hcs Hc]
    by (apply collect_latest_spec; [apply of_address_inj|done]).
  split; [by apply mem_btree_filter|]. intros k. rewrite list_elem_of_fmap.
  assert (Hsame : ∀ b1 v, newest (λ b', b' <? b) m1 (a, k) b1 v
    ↔ newest (λ b', b' <=? b - 1) m (a, k) b1 v).
  { intros b1 v. apply newest_ext. intros b2 v2. cbn. rewrite Hin, Z.ltb_lt, Z.leb_le. split.
    - intros [? [[? _]|[_ ?]]]; [lia|]. split; [lia|done].
    - intros [? ?]. split; [lia|]. right. split; [lia|done]. }
  split.
  - intros ([x [b1 v]] & -> & He). cbn. apply list_elem_of_In, filter_In in He as [He Hv].
    apply list_elem_of_In, Hc in He as (k' & ->%of_address_spec & Hn). apply Hsame in Hn. cbn in Hv.
    rewrite (proj2 (mem_view_Some m (b - 1) (a, x) v Hm) (ex_intro _ b1 Hn)). cbn.
    destruct (v =? 0); [done|by eexists].
  - intros [v Hv]. destruct (mem_view m (b - 1) (a, k)) as [v'|] eqn:Hview; [|done]. cbn in Hv.
    apply mem_view_Some in Hview as [b1 Hn]; [|done]. exists (k, (b1, v')). split; [done|].
    apply list_elem_of_In, filter_In. split; [|cbn; by destruct (v' =? 0)].
    apply list_elem_of_In, Hc. exists (a, k). split; [by apply of_address_spec|by apply Hsame].
Qed.

Lemma store_storage_written a u new m m1 c : btree m → NoDup (map fst (storage_slots u)) →
  written b new m m1 → (∀ k, new (a, k) = None) →
  written b (λ k, if k.1 =? a then new_slot m a u k.2 else new k) m (store_storage b (m1, c) (a, u)).1.
Proof.
  intros Hm Hnd Hw Hnone. cbn. set (zeroed := if wiped u then wiped_slots b a m1 else []).
  assert (Hz : NoDup (map fst zeroed)
    ∧ ∀ k, k ∈ map fst zeroed ↔ wiped u = true ∧ is_Some (nz (mem_view m (b - 1) (a, k)))).
  { subst zeroed. destruct (wiped u); [|by split; [constructor|intros k; rewrite elem_of_nil; naive_solver]].
    destruct (wiped_slots_spec a new m m1 Hm Hw) as [Hs Hin]. split; [by apply btree_NoDup|].
    intros k. rewrite Hin. naive_solver. }
  destruct Hz as [Hznd Hzin].
  assert (Hfold : foldl (λ m '(slot, _), btree_insert (b, (a, slot)) 0 m) m1 zeroed
    = foldl (λ m '(slot, v), btree_insert (b, (a, slot)) v m) m1 (map (λ e, (e.1, 0)) zeroed)).
  { generalize zeroed m1. clear. intros l. induction l as [|[k v] l IH]; intros m1; [done|]. cbn. apply IH. }
  assert (Hkeys : map fst (map (λ e, (e.1, 0)) zeroed) = map fst zeroed) by by rewrite map_map.
  rewrite Hfold.
  assert (Hw1 := written_insert (pair a) (of_address a) b new m m1 (map (λ e, (e.1, 0)) zeroed)
    (of_address_spec a) ltac:(by rewrite Hkeys) Hw).
  assert (Hw2 := written_insert (pair a) (of_address a) b _ m _ (storage_slots u) (of_address_spec a) Hnd Hw1).
  eapply written_ext; [|exact Hw2]. intros [a' k]. cbn. unfold of_address; cbn.
  destruct (Z.eqb_spec a' a) as [->|]; [|done]. cbn. unfold new_slot.
  destruct (item_of (storage_slots u) k) as [v|]; [done|]. rewrite Hnone.
  destruct (item_of (map (λ e, (e.1, 0)) zeroed) k) as [v|] eqn:Hi.
  - apply item_of_Some in Hi; [|by rewrite Hkeys]. apply list_elem_of_fmap in Hi as ([k' e] & [= -> ->] & Hin).
    assert (Hk : k' ∈ map fst zeroed) by (apply list_elem_of_fmap; by exists (k', e)).
    apply Hzin in Hk as [-> Hk]. by rewrite bool_decide_true.
  - apply item_of_None in Hi. rewrite Hkeys, Hzin in Hi. destruct (wiped u); [|done]. cbn.
    by rewrite bool_decide_false by naive_solver.
Qed.

Lemma store_storages_written l new m m1 c : btree m → NoDup (map fst l) →
  (∀ a u, (a, u) ∈ l → NoDup (map fst (storage_slots u))) →
  written b new m m1 → (∀ k, k.1 ∈ map fst l → new k = None) →
  written b (λ k, match item_of l k.1 with Some u => new_slot m k.1 u k.2 | None => new k end)
    m (foldl (store_storage b) (m1, c) l).1.
Proof.
  intros Hm. revert new m1 c. induction l as [|[a u] l IH]; intros new m1 c Hnd Hu Hw Hnone; [done|].
  cbn [map fst] in Hnd, Hnone. apply NoDup_cons in Hnd as [Ha Hnd]. cbn [foldl].
  assert (Hw1 := store_storage_written a u new m m1 c Hm (Hu _ _ (list_elem_of_here _ _)) Hw
    ltac:(intros k; apply Hnone; by left)).
  destruct (store_storage b (m1, c) (a, u)) as [m2 c2]. cbn [fst] in Hw1.
  assert (Hw2 := λ Hu' Hn', IH _ m2 c2 Hnd Hu' Hw1 Hn'). eapply written_ext; [|apply Hw2].
  - intros [a' k]. cbn. rewrite item_of_cons. destruct (Z.eqb_spec a' a) as [->|Hne].
    + rewrite bool_decide_true by done. by rewrite (proj2 (item_of_None l a) Ha).
    + by rewrite bool_decide_false by congruence.
  - intros a' u' Hin. apply (Hu a'). by right.
  - intros [a' k] Hin. cbn in *. destruct (Z.eqb_spec a' a) as [->|]; [done|]. apply Hnone. cbn. by right.
Qed.
End WriteBlock.

(** ** The store holds a window of states *)

Section Contract.
Context {E Node Account : Type}.
Abbreviation inner := (InMemoryStorageInner Node Account).
Abbreviation diff := (BlockStateDiff Node Account).
Abbreviation err := (MorphProofsStorageError E).
Implicit Types (s : inner) (w : Window (Node := Node) (Account := Account)).

(** The state that readers of block [n] get. *)
Definition mem_state s (n : Z) : State Node Account := {|
  v_account_nodes k := mem_view (account_branches s) n k ≫= id;
  v_storage_nodes k := mem_view (storage_branches s) n k ≫= id;
  v_accounts k := mem_view (hashed_accounts s) n k ≫= id;
  v_slots k := nz (mem_view (hashed_storages s) n k) |}.

(** A map of rows up to block [l], and a map with an entry per block of the window. *)
Definition rows_upto {K A} `{KeyOrd K} (l : Z) (m : list (Z * K * A)) : Prop :=
  btree m ∧ below (l + 1) m.
Definition per_block {A} (e l : Z) (m : list (Z * A)) : Prop :=
  btree m ∧ ∀ b, b ∈ map fst m ↔ e < b ≤ l.

Record mem_inv s (e l : Z) : Prop := {
  mi_earliest : ∃ h, earliest_block s = Some (e, h);
  mi_window : 0 ≤ e ≤ l;
  mi_account_branches : rows_upto l (account_branches s);
  mi_storage_branches : rows_upto l (storage_branches s);
  mi_hashed_accounts : rows_upto l (hashed_accounts s);
  mi_hashed_storages : rows_upto l (hashed_storages s);
  mi_trie_updates : per_block e l (trie_updates s);
  mi_post_states : per_block e l (post_states s);
}.

Definition mem_represents s w : Prop :=
  mem_inv s (number (w_earliest w)) (number (w_latest w))
  ∧ ∀ n, number (w_earliest w) ≤ n ≤ number (w_latest w) → mem_state s n ≡ w_state w n.

(** *** Appending *)

Lemma written_rows {K A} `{KeyOrd K} l new (m m' : list (Z * K * A)) :
  rows_upto l m → written (l + 1) new m m' → rows_upto (l + 1) m'.
Proof using.
  intros [Hm Hb] Hw. split; [by destruct Hw|]. by eapply written_below.
Qed.

Lemma per_block_insert {A} e l (a : A) m : e ≤ l → per_block e l m → per_block e (l + 1) (btree_insert (l + 1) a m).
Proof using.
  intros Hel [Hm Hin]. split; [by apply btree_insert_sorted|]. intros b. rewrite list_elem_of_fmap. split.
  - intros ([b' a'] & -> & Hr). cbn.
    apply elem_of_btree_insert in Hr as [[= -> ->]|[_ Hr]]; [lia| |done].
    assert (b' ∈ map fst m) as ?%Hin by (apply list_elem_of_fmap; by exists (b', a')). lia.
  - intros Hb. destruct (Z.eq_dec b (l + 1)) as [->|Hne].
    + exists (l + 1, a). split; [done|]. apply elem_of_btree_insert; [done|by left].
    + assert (b ∈ map fst m) as ([b' a'] & -> & Hr)%list_elem_of_fmap by (apply Hin; lia).
      exists (b', a'). split; [done|]. apply elem_of_btree_insert; [done|]. right. by split.
Qed.

(** The store ignores [is_deleted] of a storage trie. *)
Definition tries_kept (bd : diff) : Prop := ∀ a u, (a, u) ∈ storage_tries bd → is_deleted u = false.

Section Append.
Context (s : inner) (e l : Z) (bd : diff).
Context (Hinv : mem_inv s e l) (Hbd : diff_wf bd).
Abbreviation s' := (inner_store_trie_updates (l + 1) bd s).1.

Lemma append_account_branches :
  written (l + 1) (item_of (account_nodes bd)) (account_branches s) (account_branches s').
Proof using Hinv Hbd.
  unfold inner_store_trie_updates. destruct (foldl _ _ _). cbn.
  destruct (mi_account_branches _ _ _ Hinv). apply store_items_written; [apply _|done..|apply Hbd].
Qed.

Lemma append_storage_branches :
  written (l + 1) (new_nodes (storage_tries bd)) (storage_branches s) (storage_branches s').
Proof using Hinv Hbd.
  unfold inner_store_trie_updates. destruct (foldl _ _ _). cbn.
  destruct (mi_storage_branches _ _ _ Hinv). destruct Hbd as [_ [Hnd _] Hnodes _ _ _].
  eapply written_ext; [|apply (store_tries_written _ _ (λ _, None) _ _ Hnd Hnodes); by apply written_refl].
  intros k. cbn. by destruct (new_nodes _ k).
Qed.

Lemma append_hashed_accounts :
  written (l + 1) (item_of (accounts bd)) (hashed_accounts s) (hashed_accounts s').
Proof using Hinv Hbd.
  unfold inner_store_trie_updates. destruct (foldl _ _ _). cbn.
  destruct (mi_hashed_accounts _ _ _ Hinv). apply store_items_written; [apply _|done..|apply Hbd].
Qed.

Lemma append_hashed_storages :
  written (l + 1) (new_slots (l + 1) (hashed_storages s) (storages bd)) (hashed_storages s) (hashed_storages s').
Proof using Hinv Hbd.
  destruct (mi_hashed_storages _ _ _ Hinv) as [Hm Hb]. destruct Hbd as [_ _ _ _ [Hnd _] Hslots].
  pose proof (store_storages_written (l + 1) (storages bd) (λ _, None) (hashed_storages s) (hashed_storages s) 0
    Hm Hnd (λ a u Hin, proj1 (Hslots a u Hin)) (written_refl _ _ Hm Hb) (λ _ _, eq_refl)) as Hw.
  unfold inner_store_trie_updates. destruct (foldl _ _ (storages bd)) as [m c]. cbn in *.
  eapply written_ext; [|exact Hw]. intros k. unfold new_slots. by destruct (item_of (storages bd) k.1).
Qed.

Lemma append_inv : mem_inv s' e (l + 1).
Proof using Hinv Hbd.
  pose proof (written_rows l _ _ _ (mi_account_branches _ _ _ Hinv) append_account_branches).
  pose proof (written_rows l _ _ _ (mi_storage_branches _ _ _ Hinv) append_storage_branches).
  pose proof (written_rows l _ _ _ (mi_hashed_accounts _ _ _ Hinv) append_hashed_accounts).
  pose proof (written_rows l _ _ _ (mi_hashed_storages _ _ _ Hinv) append_hashed_storages).
  destruct Hinv as [Hearl Hwin _ _ _ _ Ht Hp]. unfold inner_store_trie_updates in *.
  destruct (foldl _ _ (storages bd)) as [m c]. cbn in *.
  split; cbn; [done|lia|done..| |]; apply per_block_insert; by try lia.
Qed.

Lemma append_state n : tries_kept bd →
  mem_state s' n ≡ if n <=? l then mem_state s n else apply_diff bd (mem_state s l).
Proof using Hinv Hbd.
  intros Hkept. pose proof append_account_branches as W1. pose proof append_storage_branches as W2.
  pose proof append_hashed_accounts as W3. pose proof append_hashed_storages as W4.
  destruct Hinv as [_ _ [M1 B1] [M2 B2] [M3 B3] [M4 B4] _ _].
  assert (Hif : (n <? l + 1) = (n <=? l)) by lia. assert (Hl : l + 1 - 1 = l) by lia.
  split_and!; intros k; cbn -[inner_store_trie_updates].
  - rewrite (view_written _ _ _ _ n k M1 B1 W1), Hif, Hl. destruct (n <=? l); cbn; [done|].
    by destruct (item_of (account_nodes bd) k).
  - rewrite (view_written _ _ _ _ n k M2 B2 W2), Hif, Hl. destruct (n <=? l); cbn; [done|].
    unfold new_nodes, node_after. destruct (item_of (storage_tries bd) k.1) as [u|] eqn:Hu; [|done]. cbn.
    apply item_of_Some in Hu; [|apply Hbd]. rewrite (Hkept _ _ Hu).
    by destruct (item_of (storage_nodes u) k.2).
  - rewrite (view_written _ _ _ _ n k M3 B3 W3), Hif, Hl. destruct (n <=? l); cbn; [done|].
    by destruct (item_of (accounts bd) k).
  - rewrite (view_written _ _ _ _ n k M4 B4 W4), Hif, Hl. destruct (n <=? l); cbn; [done|].
    unfold new_slots, slot_after. destruct (item_of (storages bd) k.1) as [u|]; [|done]. cbn.
    unfold new_slot. destruct (item_of (storage_slots u) k.2) as [v|]; [done|]. rewrite Hl.
    destruct k as [a k]; cbn. destruct (wiped u); [|done]. cbn. case_bool_decide as Hz; [done|].
    destruct (nz (mem_view (hashed_storages s) l (a, k))) eqn:Hv; [|done]. destruct Hz. by eexists.
Qed.
End Append.

(** *** Pruning *)

Lemma per_block_filter {A} e l e' l' (p : Z → bool) (m : list (Z * A)) : per_block e l m →
  (∀ b, e' < b ≤ l' ↔ p b = true ∧ e < b ≤ l) → per_block e' l' (List.filter (λ x, p x.1) m).
Proof using.
  intros [Hm Hin] Hp. split; [by apply mem_btree_filter|]. intros b. rewrite Hp, <- Hin, !list_elem_of_fmap. split.
  - intros (x & -> & Hx). apply list_elem_of_In, filter_In in Hx as [Hx ?]. split; [done|].
    exists x. by rewrite list_elem_of_In.
  - intros [? (x & -> & Hx)]. exists x. split; [done|].
    by rewrite list_elem_of_In, filter_In, <- list_elem_of_In.
Qed.

Lemma pruned_rows {K A} `{KeyOrdLaws K} t l (m : list (Z * K * A)) : 0 ≤ t ≤ l →
  rows_upto l m → rows_upto l (prune_map t m).1.
Proof using.
  intros Ht [Hm Hb]. destruct (prune_map_spec t m Hm) as [P1 _ P3 P4]; [lia|]. split; [done|].
  intros b k a Hr. destruct (Z.le_gt_cases b t); [lia|]. apply P3 in Hr; [|lia]. by eapply Hb.
Qed.

Section PruneStore.
Context (s : inner) (e l : Z) (r : BlockWithParent).
Context (Hinv : mem_inv s e l) (Ht : e < number (block r) ≤ l).
Abbreviation s' := (prune_earliest_state (E := E) r s).1.

Lemma prune_inv : mem_inv s' (number (block r)) l.
Proof using Hinv Ht.
  destruct Hinv as [[h Hh] Hwin R1 R2 R3 R4 Hu Hp]. set (t := number (block r)) in *.
  pose proof (pruned_rows t l _ ltac:(lia) R1) as P1. pose proof (pruned_rows t l _ ltac:(lia) R2) as P2.
  pose proof (pruned_rows t l _ ltac:(lia) R3) as P3. pose proof (pruned_rows t l _ ltac:(lia) R4) as P4.
  unfold prune_earliest_state. fold t.
  destruct (prune_map t (account_branches s)), (prune_map t (storage_branches s)),
    (prune_map t (hashed_accounts s)), (prune_map t (hashed_storages s)). cbn in *.
  split; cbn; [by rewrite Hh; exists h|lia|done..| |]; eapply (per_block_filter e l t l (λ b, t <? b)); try done; lia.
Qed.

Lemma prune_state n : number (block r) ≤ n → mem_state s' n ≡ mem_state s n.
Proof using Hinv Ht.
  intros Hn. destruct Hinv as [_ Hwin [M1 _] [M2 _] [M3 _] [M4 _] _ _]. set (t := number (block r)) in *.
  pose proof (pu_view _ _ _ (prune_map_spec t _ M1 ltac:(lia)) n) as V1.
  pose proof (pu_view _ _ _ (prune_map_spec t _ M2 ltac:(lia)) n) as V2.
  pose proof (pu_view _ _ _ (prune_map_spec t _ M3 ltac:(lia)) n) as V3.
  pose proof (pu_view _ _ _ (prune_map_spec t _ M4 ltac:(lia)) n) as V4.
  unfold prune_earliest_state. fold t.
  destruct (prune_map t (account_branches s)), (prune_map t (storage_branches s)),
    (prune_map t (hashed_accounts s)), (prune_map t (hashed_storages s)). cbn in *.
  split_and!; intros k; cbn; rewrite ?V1, ?V2, ?V3, ?V4; done.
Qed.
End PruneStore.

(** *** Unwinding *)

Lemma retained_rows {K A} `{KeyOrd K} t l l' (m : list (Z * K * A)) : l' = Z.min t l →
  rows_upto l m → rows_upto l' (List.filter (λ x, x.1.1 <=? t) m).
Proof using.
  intros -> [Hm Hb]. split; [by apply mem_btree_filter|]. intros b k a Hr.
  apply list_elem_of_In, filter_In in Hr as [Hr Hle]. cbn in Hle.
  apply list_elem_of_In, Hb in Hr. lia.
Qed.

Lemma retain_inv t s e l : mem_inv s e l → e ≤ t → mem_inv (retain_upto t s) e (Z.min t l).
Proof using.
  intros [Hh Hwin R1 R2 R3 R4 Hu Hp] Ht.
  split; cbn; [done|lia|by eapply retained_rows..| |]; eapply (per_block_filter e l e _ (λ b, b <=? t)); try done; lia.
Qed.

Lemma retain_state t s e l n : mem_inv s e l → n ≤ t → mem_state (retain_upto t s) n ≡ mem_state s n.
Proof using.
  intros [_ _ [M1 _] [M2 _] [M3 _] [M4 _] _ _] Hn.
  split_and!; intros k; cbn; by rewrite retained_view.
Qed.

(** ** Refinement *)

(** The operations of [StoreRefinement] on this store. *)
Definition mem_exec (op : Op (Node := Node) (Account := Account)) s : inner :=
  match op with
  | Append r bd => (store_trie_updates (E := E) r bd s).1
  | Prune r => (prune_earliest_state (E := E) r s).1
  | Unwind to => (unwind_history (E := E) to s).1
  | Replace common blocks => (replace_updates (E := E) common blocks s).1
  end.

(** What this store needs of its callers, which the database checks or does itself: no
    storage trie is deleted as a whole, pruning moves forward, and the blocks of a
    reorg come in order. *)
Definition mem_op_ok w (op : Op (Node := Node) (Account := Account)) : Prop :=
  match op with
  | Append _ bd => tries_kept bd
  | Prune r => number (w_earliest w) < number (block r)
  | Unwind _ => True
  | Replace _ blocks => merge_sort by_number blocks = blocks ∧ ∀ b, b ∈ blocks → tries_kept b.2
  end.

Lemma append_represents r bd s w : mem_represents s w → number (block r) = number (w_latest w) + 1 →
  diff_wf bd → tries_kept bd → ∀ w', w_append (E := E) r bd w = Ok w' →
  mem_represents (inner_store_trie_updates (number (block r)) bd s).1 w'.
Proof using.
  intros [Hinv Hst] Hn Hbd Hkept w'. unfold w_append. destruct (negb _); [done|]. intros [= <-].
  pose proof (mi_window _ _ _ Hinv) as Hw. rewrite Hn. split; cbn [w_earliest w_latest w_state].
  - rewrite Hn. by apply append_inv.
  - rewrite Hn. intros n Hrange. rewrite (append_state s _ _ bd Hinv Hbd n Hkept).
    destruct (Z.leb_spec n (number (w_latest w))); [apply Hst; lia|].
    by rewrite (Hst (number (w_latest w))) by lia.
Qed.

Lemma append_all_represents blocks s w w' : mem_represents s w →
  follow (number (w_latest w)) blocks → (∀ b, b ∈ blocks → tries_kept b.2) →
  w_append_all (E := E) blocks w = Ok w' →
  mem_represents (foldl (λ s '(r, bd), (inner_store_trie_updates (number (block r)) bd s).1) s blocks) w'.
Proof using.
  revert s w. induction blocks as [|[r bd] blocks IH]; intros s w Hrep Hf Hkept Hall; cbn in *; [by simplify_eq|].
  destruct Hf as (Hn & _ & Hbd & Hf).
  destruct (w_append r bd w) as [w1|] eqn:Hw1; [|done]. cbn in Hall.
  apply (IH _ w1); [|..|done].
  - eapply append_represents; try done. apply (Hkept (r, bd)). by left.
  - assert (number (w_latest w1) = number (w_latest w) + 1) as ->; [|done].
    unfold w_append in Hw1. destruct (negb _); [done|]. by injection Hw1 as <-.
  - intros b Hb. apply Hkept. by right.
Qed.

Lemma mem_exec_represents op s w w' : mem_represents s w → op_ok w op → mem_op_ok w op →
  w_step (E := E) op w = Ok w' → mem_represents (mem_exec op s) w'.
Proof using.
  intros Hrep Hok Hmem Hstep. pose proof Hrep as [Hinv Hst]. pose proof (mi_window _ _ _ Hinv) as Hwin.
  destruct op as [r bd|r|to|common blocks]; cbn [mem_exec w_step op_ok mem_op_ok] in *.
  - unfold store_trie_updates. destruct Hok as (Hn & _ & Hbd).
    assert (Hpar : parent r = nhash (w_latest w)).
    { unfold w_append in Hstep. destruct (Z.eqb_spec (nhash (w_latest w)) (parent r)); [done|]. by cbn in Hstep. }
    pose proof (append_represents r bd s w Hrep (Hn Hpar) Hbd Hmem w' Hstep) as Hr.
    by destruct (inner_store_trie_updates _ _ _).
  - unfold w_prune in Hstep. destruct (Z.ltb_spec (number (w_latest w)) (number (block r))); [done|].
    destruct (Z.leb_spec (number (block r)) (number (w_earliest w))); [lia|]. injection Hstep as <-.
    split; cbn [w_earliest w_latest w_state].
    + eapply prune_inv; [done|lia].
    + intros n Hn. rewrite (prune_state s _ _ r Hinv) by lia. apply Hst. lia.
  - unfold unwind_history. cbn [fst]. unfold w_unwind in Hstep.
    assert (Hsub : number (w_earliest w) < number (block to) →
      saturating_sub (number (block to)) 1 = number (block to) - 1) by (unfold saturating_sub; lia).
    destruct (Z.ltb_spec (number (w_latest w)) (number (block to))).
    + injection Hstep as <-. rewrite Hsub by lia. split.
      * pose proof (retain_inv (number (block to) - 1) _ _ _ Hinv ltac:(lia)) as Hr.
        by rewrite Z.min_r in Hr by lia.
      * intros n Hn. rewrite (retain_state _ s _ _ n Hinv) by lia. by apply Hst.
    + destruct (Z.leb_spec (number (block to)) (number (w_earliest w))); [done|]. injection Hstep as <-.
      rewrite Hsub by lia. split; cbn [w_earliest w_latest w_state number].
      * pose proof (retain_inv (number (block to) - 1) _ _ _ Hinv ltac:(lia)) as Hr.
        by rewrite Z.min_l in Hr by lia.
      * intros n Hn. rewrite (retain_state _ s _ _ n Hinv) by lia. apply Hst. lia.
  - destruct Hok as [Hc Hf], Hmem as [Hsort Hkept]. rewrite Hsort in *. unfold replace_updates. cbn [fst].
    apply (append_all_represents blocks _ {| w_earliest := w_earliest w; w_latest := common; w_state := w_state w |} w');
      [|exact Hf|done|exact Hstep]. split; cbn [w_earliest w_latest w_state].
    + pose proof (retain_inv (number common) _ _ _ Hinv ltac:(lia)) as Hr. by rewrite Z.min_l in Hr by lia.
    + intros n Hn. rewrite (retain_state _ s _ _ n Hinv) by lia. apply Hst. lia.
Qed.
End Contract.

(** ** What readers see *)

Section Readers.
Context {K2 A V : Type} `{KeyOrdLaws K2}.

Lemma btree_omap {B} (g : K2 * B → option (K2 * V)) l : (∀ x y, g x = Some y → y.1 = x.1) →
  btree l → btree (omap g l).
Proof using.
  intros Hg. unfold btree. induction l as [|x l IH]; [done|]. cbn. intros [Hs Hf]%StronglySorted_inv.
  destruct (g x) as [y|] eqn:Hy; [|by apply IH]. cbn. constructor; [by apply IH|].
  rewrite Forall_forall in Hf. rewrite Forall_forall. intros k Hk.
  apply list_elem_of_fmap in Hk as (z & -> & Hz). apply list_elem_of_omap in Hz as (x' & Hx' & Hz).
  rewrite (Hg _ _ Hy), (Hg _ _ Hz). apply Hf, list_elem_of_fmap. by exists x'.
Qed.

Context {K : Type} `{KeyOrdLaws K} (f : K2 → K) (sel : K → option K2).
Context (Hsel : ∀ k x, sel k = Some x ↔ k = f x).

(** Entries read from the newest rows: sorted, and those that [g] keeps of the view. *)
Lemma entries_spec (g : A → option V) n (m : list (Z * K * A)) : btree m →
  let es := sort_by_key (omap (λ e, (e.1,.) <$> g e.2.2) (collect_latest (λ b, b <=? n) sel m)) in
  btree es ∧ ∀ x v, (x, v) ∈ es ↔ mem_view m n (f x) ≫= g = Some v.
Proof using H0 H2 Hsel.
  intros Hm es. assert (newest_of (λ b, b <=? n) sel m (collect_latest (λ b, b <=? n) sel m)) as [Hs Hin].
  { apply collect_latest_spec; [|done]. by intros k1 k2 x ->%Hsel ->%Hsel. }
  assert (Hbt : btree (omap (λ e, (e.1,.) <$> g e.2.2) (collect_latest (λ b, b <=? n) sel m))).
  { apply btree_omap; [|done]. intros x y. destruct (g x.2.2); [by intros [= <-]|done]. }
  subst es. rewrite sort_by_key_id by done. split; [done|]. intros x v. rewrite list_elem_of_omap. split.
  - intros ([x' [b a]] & He & Hg). cbn in Hg. destruct (g a) as [v'|] eqn:Hga; [|done]. injection Hg as <- <-.
    apply Hin in He as (k & ->%Hsel & Hn).
    by rewrite (proj2 (mem_view_Some m n (f x') a Hm) (ex_intro _ b Hn)).
  - destruct (mem_view m n (f x)) as [a|] eqn:Hv; [|done]. cbn. intros Hg.
    apply mem_view_Some in Hv as [b Hn]; [|done]. exists (x, (b, a)). split; [|cbn; by rewrite Hg].
    apply Hin. exists (f x). split; [by apply Hsel|done].
Qed.

(** Calling [next] until it returns nothing lists the entries from the position on. *)
Lemma drain_entries {E Cur X} (next : Cur → result (Cur * option X) E) (es : list X) (at_pos : nat → Cur → Prop) :
  (∀ i c, at_pos i c → ∃ c', next c = Ok (c', es !! i) ∧ at_pos (S i) c') →
  ∀ fuel i c, at_pos i c → (length es - i < fuel)%nat →
  drain (λ c, Some (next c)) fuel c = Some (Ok (drop i es)).
Proof using.
  intros Hnext. induction fuel as [|fuel IH]; intros i c Hi Hfuel; cbn [drain]; [lia|].
  destruct (Hnext i c Hi) as (c' & -> & Hi'). cbn. destruct (es !! i) as [x|] eqn:Hx.
  - rewrite (IH (S i) c' Hi'); [cbn; by rewrite (drop_S _ _ _ Hx)|].
    apply lookup_lt_Some in Hx. lia.
  - rewrite drop_ge; [done|]. by apply lookup_ge_None.
Qed.
End Readers.

Lemma entry_at_next {K V} (es : list (K * V)) (i : nat) : entry_at es (Z.of_nat i - 1 + 1) = es !! i.
Proof.
  unfold entry_at. replace (Z.of_nat i - 1 + 1) with (Z.of_nat i) by lia.
  destruct (Z.leb_spec 0 (Z.of_nat i)); [|lia]. by rewrite Nat2Z.id.
Qed.

(** The four iterations, over the entries of their state. *)
Section Drained.
Context {E Node Account : Type}.
Abbreviation inner := (InMemoryStorageInner Node Account).
Abbreviation err := (MorphProofsStorageError E).
Implicit Types s : inner.

Definition account_entries_upto (n : Z) s : list (B256 * Account) := ac_entries (account_cursor_new s n).

Lemma drain_trie fuel s o n : (length (trie_entries_upto o n s) < fuel)%nat →
  drain (E := err) (λ c, Some (tc_next (Some s) c)) fuel (trie_cursor_new o n) = Some (Ok (trie_entries_upto o n s)).
Proof using.
  intros Hfuel. set (es := trie_entries_upto o n s) in *.
  rewrite (drain_entries (tc_next (E := E) (Some s)) es (λ i c,
    tc_position c = Z.of_nat i - 1 ∧ tc_hashed_address c = o ∧ tc_max_block_number c = n
    ∧ (tc_is_populated c = true → tc_entries c = es))) with (i := 0%nat); [done| |by split_and!|lia].
  intros i c (Hp & Ho & Hn & Hes). unfold tc_next, tc_ensure_entries_populated.
  destruct (tc_is_populated c) eqn:Hpop; cbn.
  - rewrite Hes, Hp, entry_at_next by done. eexists. split; [done|]. cbn. split_and!; [lia|done|done|by intros _; apply Hes].
  - rewrite Ho, Hn, Hp. fold es. rewrite entry_at_next. eexists. split; [done|]. cbn. split_and!; [lia|done..].
Qed.

Lemma drain_slots fuel s a n : (length (slot_entries_upto a n s) < fuel)%nat →
  drain (E := err) (λ c, Some (sc_next (Some s) c)) fuel (storage_cursor_new a n) = Some (Ok (slot_entries_upto a n s)).
Proof using.
  intros Hfuel. set (es := slot_entries_upto a n s) in *.
  rewrite (drain_entries (sc_next (E := E) (Some s)) es (λ i c,
    sc_position c = Z.of_nat i - 1 ∧ sc_hashed_address c = a ∧ sc_max_block_number c = n
    ∧ (sc_is_populated c = true → sc_entries c = es))) with (i := 0%nat); [done| |by split_and!|lia].
  intros i c (Hp & Ho & Hn & Hes). unfold sc_next, sc_ensure_entries_populated.
  destruct (sc_is_populated c) eqn:Hpop; cbn.
  - rewrite Hes, Hp, entry_at_next by done. eexists. split; [done|]. cbn. split_and!; [lia|done|done|by intros _; apply Hes].
  - rewrite Ho, Hn, Hp. fold es. rewrite entry_at_next. eexists. split; [done|]. cbn. split_and!; [lia|done..].
Qed.

Lemma drain_accounts fuel s n : (length (account_entries_upto n s) < fuel)%nat →
  drain (E := err) (λ c, Some (ac_next c)) fuel (account_cursor_new s n) = Some (Ok (account_entries_upto n s)).
Proof using.
  intros Hfuel. rewrite (drain_entries (ac_next (E := E)) (account_entries_upto n s) (λ i c,
    ac_position c = Z.of_nat i - 1 ∧ ac_entries c = account_entries_upto n s)) with (i := 0%nat);
    [done| |by split_and!|lia].
  intros i c (Hp & Hes). unfold ac_next. rewrite Hp, Hes. eexists. split; [by rewrite <- entry_at_next|].
  cbn. split; [lia|done].
Qed.

(** The entries are those of the state, in key order. *)
Lemma account_nodes_entries s e l n : mem_inv s e l →
  btree (trie_entries_upto None n s)
  ∧ ∀ k v, (k, v) ∈ trie_entries_upto None n s ↔ v_account_nodes (mem_state s n) k = Some v.
Proof using. intros Hinv. apply (entries_spec id any_key any_key_spec id n _ (proj1 (mi_account_branches _ _ _ Hinv))). Qed.

Lemma storage_nodes_entries s e l a n : mem_inv s e l →
  btree (trie_entries_upto (Some a) n s)
  ∧ ∀ k v, (k, v) ∈ trie_entries_upto (Some a) n s ↔ v_storage_nodes (mem_state s n) (a, k) = Some v.
Proof using.
  intros Hinv. apply (entries_spec (pair a) (of_address a) (of_address_spec a) id n _ (proj1 (mi_storage_branches _ _ _ Hinv))).
Qed.

Lemma accounts_entries s e l n : mem_inv s e l →
  btree (account_entries_upto n s)
  ∧ ∀ k v, (k, v) ∈ account_entries_upto n s ↔ v_accounts (mem_state s n) k = Some v.
Proof using. intros Hinv. apply (entries_spec id any_key any_key_spec id n _ (proj1 (mi_hashed_accounts _ _ _ Hinv))). Qed.

Lemma slots_entries s e l a n : mem_inv s e l →
  btree (slot_entries_upto a n s)
  ∧ ∀ k v, (k, v) ∈ slot_entries_upto a n s ↔ v_slots (mem_state s n) (a, k) = Some v.
Proof using.
  intros Hinv. pose proof (entries_spec (pair a) (of_address a) (of_address_spec a)
    (λ v, if v =? 0 then None else Some v) n _ (proj1 (mi_hashed_storages _ _ _ Hinv))) as Hes.
  cbn in Hes. unfold slot_entries_upto.
  assert (omap (λ '(slot, (_, value)), if value =? 0 then None else Some (slot, value))
      (collect_latest (λ b, b <=? n) (of_address a) (hashed_storages s))
    = omap (λ e, (e.1,.) <$> (if e.2.2 =? 0 then None else Some e.2.2))
      (collect_latest (λ b, b <=? n) (of_address a) (hashed_storages s))) as ->; [|done].
  generalize (collect_latest (λ b, b <=? n) (of_address a) (hashed_storages s)). intros es.
  induction es as [|[k [b v]] es IH]; [done|]. cbn. destruct (v =? 0); cbn; by rewrite IH.
Qed.
End Drained.
End Mem.

(** ** Both stores agree *)

Section Agreement.
Context {Tb C Pt : Type → Type → Type} {E Node Account : Type}.
Context `{DupDbLaws Tb C E, PlainDbLaws Pt E}.
Abbreviation db := (Db Tb Pt Node Account).
Abbreviation err := (MorphProofsStorageError E).
Context `{TxOps db E}.
Implicit Types (d : db) (s : Mem.InMemoryStorageInner Node Account)
  (w : Window (Node := Node) (Account := Account)) (op : Op (Node := Node) (Account := Account)).

(** A run of operations that the database commits. *)
Inductive committed (fuel : nat) : list Op → db → Window → db → Window → Prop :=
| committed_nil d w : committed fuel [] d w d w
| committed_cons op ops d w d1 w1 d2 w2 :
    op_ok w op → Mem.mem_op_ok w op → op_fuel d op fuel →
    exec (E := E) fuel op d = Some (d1, Ok tt) → w_step (E := E) op w = Ok w1 →
    committed fuel ops d1 w1 d2 w2 → committed fuel (op :: ops) d w d2 w2.

Lemma committed_represents fuel ops d w d' w' s : represents (E := E) d w → Mem.mem_represents s w →
  committed fuel ops d w d' w' →
  represents (E := E) d' w' ∧ Mem.mem_represents (foldl (λ s op, Mem.mem_exec (E := E) op s) s ops) w'.
Proof.
  intros Hd Hs Hrun. revert s Hd Hs.
  induction Hrun as [d w|op ops d w d1 w1 d2 w2 Hok Hmem Hfuel Hex Hstep Hrun IH]; intros s Hd Hs; [done|].
  cbn. apply IH.
  - destruct (exec_commits fuel op d w Hd Hok Hfuel) as (d' & r & Hex' & Hr). rewrite Hex in Hex'.
    injection Hex' as <- <-. destruct Hr as (w'' & Hw & Hrep). rewrite Hstep in Hw. by injection Hw as <-.
  - by eapply Mem.mem_exec_represents.
Qed.

(** The entries that a database reader of block [n] gets, if the database does not fail,
    are those of a listing of the in-memory store. *)
Definition same_entries {X} (database : option (result (list X) E))
    (memory : nat → option (result (list X) err)) : Prop :=
  returns database (λ es, ∀ fuel, (length es < fuel)%nat → memory fuel = Some (Ok es)).

Lemma same_entries_intro {K V} `{KeyOrdLaws K} (database : option (result (list (K * V)) E))
    (memory : nat → option (result (list (K * V)) err)) (ms : list (K * V)) (at_key : K → option V) :
  returns database (λ es, btree es ∧ ∀ k v, (k, v) ∈ es ↔ at_key k = Some v) →
  (btree ms ∧ ∀ k v, (k, v) ∈ ms ↔ at_key k = Some v) →
  (∀ fuel, (length ms < fuel)%nat → memory fuel = Some (Ok ms)) → same_entries database memory.
Proof using.
  intros Hdb [Hms Hin] Hmem. eapply returns_mono; [exact Hdb|]. intros es [Hes Hin'].
  assert (es = ms) as ->; [|done]. apply btree_unique; [done..|]. intros k v. by rewrite Hin', Hin.
Qed.

(** C29. The in-memory store and the database agree.  From stores that hold the same
    window, run the same operations (appended blocks, prunes, unwinds and reorgs) on both;
    when the database commits them all, readers of any block of the resulting window get
    the same entries in the same order from both stores, through the cursors of all four
    tables.  The operations are those the in-memory store supports: no storage trie is
    deleted as a whole, pruning moves forward and the blocks of a reorg are in order. *)
Theorem in_memory_agrees fuel ops d w d' w' s n a :
  represents (E := E) d w → Mem.mem_represents s w → committed fuel ops d w d' w' →
  number (w_earliest w') ≤ n ≤ number (w_latest w') → read_fuel d' fuel →
  let s' := foldl (λ s op, Mem.mem_exec (E := E) op s) s ops in
  same_entries (let! c := Some (open_cursor (AccountTrieHistory d')) in drain (cursor_next n fuel) fuel c)
    (λ f, drain (λ c, Some (Mem.tc_next (Some s') c)) f (Mem.trie_cursor_new None n))
  ∧ same_entries (let! c := Some (open_cursor (StorageTrieHistory d')) in drain (trie_next n a fuel) fuel c)
    (λ f, drain (λ c, Some (Mem.tc_next (Some s') c)) f (Mem.trie_cursor_new (Some a) n))
  ∧ same_entries (let! c := Some (open_cursor (HashedAccountHistory d')) in drain (cursor_next n fuel) fuel c)
    (λ f, drain (λ c, Some (Mem.ac_next c)) f (Mem.account_cursor_new s' n))
  ∧ same_entries (let! c := Some (open_cursor (HashedStorageHistory d')) in drain (storage_next n a fuel) fuel c)
    (λ f, drain (λ c, Some (Mem.sc_next (Some s') c)) f (Mem.storage_cursor_new a n)).
Proof.
  intros Hd Hs Hrun Hn (F1 & F2 & F3 & F4) s'.
  destruct (committed_represents fuel ops d w d' w' s Hd Hs Hrun) as [[Hdi Hdst] [Hmi Hmst]].
  fold s' in Hmi, Hmst. destruct (Hdst n Hn) as (S1 & S2 & S3 & S4). destruct (Hmst n Hn) as (M1 & M2 & M3 & M4).
  destruct (si_tables _ _ _ Hdi) as [I1 I2 I3 I4]. split_and!.
  - eapply same_entries_intro; [exact (read_all n fuel _ (ix_wf _ _ _ _ I1) F1)| |intros f; apply Mem.drain_trie].
    destruct (Mem.account_nodes_entries s' _ _ n Hmi) as [Hb Hin]. split; [done|].
    intros k v. rewrite Hin, M1, <- S1. done.
  - eapply same_entries_intro; [exact (read_trie n fuel a _ (ix_wf _ _ _ _ I2) F2)| |intros f; apply Mem.drain_trie].
    destruct (Mem.storage_nodes_entries s' _ _ a n Hmi) as [Hb Hin]. split; [done|].
    intros k v. rewrite Hin, M2, <- S2. done.
  - eapply same_entries_intro; [exact (read_all n fuel _ (ix_wf _ _ _ _ I3) F3)| |intros f; apply Mem.drain_accounts].
    destruct (Mem.accounts_entries s' _ _ n Hmi) as [Hb Hin]. split; [done|].
    intros k v. rewrite Hin, M3, <- S3. done.
  - apply (same_entries_intro _ _ (Mem.slot_entries_upto a n s') (λ k, v_slots (w_state w' n) (a, k)));
      [| |intros f; apply Mem.drain_slots].
    + eapply returns_mono; [exact (read_storage n fuel a _ (ix_wf _ _ _ _ I4) F4)|]. intros es [Hb Hin].
      split; [done|]. intros k v. rewrite Hin, <- S4. apply nz_view.
    + destruct (Mem.slots_entries s' _ _ a n Hmi) as [Hb Hin]. split; [done|]. intros k v. by rewrite Hin, M4.
Qed.
End Agreement.

(** ** A run on both stores *)

Module MemSamples.
Import ListStore.

(** The genesis state, written through the initial-state operations. *)
Definition mem_genesis : Mem.InMemoryStorageInner Z Z :=
  (Mem.commit_initial_state (E := string)
    (Mem.store_hashed_storages 2 [(6, 60); (5, 50)]
      (Mem.store_hashed_accounts [(2, Some 12); (1, Some 11)]
        (Mem.store_storage_branches 2 [([7], Some 200)]
          (Mem.store_account_branches [([1], Some 100)]
            (Mem.set_initial_state_anchor (Build_NumHash 0 1000) Mem.Inner_default)))))).1.

(** Block 1 of [ListStore] without the deletion of the storage trie. *)
Definition kept_diff : sample_diff := {|
  account_nodes := account_nodes diff1;
  storage_tries := [(2, {| is_deleted := false; storage_nodes := [([8], Some 208); ([7], None)] |})];
  accounts := accounts diff1; storages := storages diff1 |}.

Lemma kept_diff_wf : diff_wf kept_diff.
Proof.
  split; cbn; [by_decide|split; by_decide| |split; by_decide|split; by_decide|].
  - intros a u [[= -> ->]|[]%elem_of_nil]%elem_of_cons. by_decide.
  - intros a u [[= -> ->]|[]%elem_of_nil]%elem_of_cons. split; by_decide.
Qed.

Lemma diff2_wf : diff_wf diff2.
Proof.
  split; cbn; [by_decide|split; by_decide|intros a u []%elem_of_nil|split; by_decide|split; by_decide|].
  intros a u [[= -> ->]|[]%elem_of_nil]%elem_of_cons. split; by_decide.
Qed.

Lemma kept_diff_kept : Mem.tries_kept kept_diff.
Proof. by intros a u [[= -> ->]|[]%elem_of_nil]%elem_of_cons. Qed.

Lemma mem_genesis_represents : Mem.mem_represents mem_genesis genesis_window.
Proof.
  split.
  - split; cbn; [by exists 1000|lia|..]; split; try (repeat constructor; cbn; lia); try by_decide.
    all: try (intros b; rewrite elem_of_nil; lia).
    all: intros b k v Hr; repeat (apply elem_of_cons in Hr as [[= -> -> ->]|Hr]; [lia|]); by apply elem_of_nil in Hr.
  - intros n Hn. assert (n = 0) as -> by (cbn in Hn; lia).
    split_and!; intros k; cbn -[bool_decide]; unfold Mem.mem_view;
      (match goal with |- context [Mem.collect_latest ?p ?f ?m] =>
         let l := eval vm_compute in (Mem.collect_latest p f m) in
         change (Mem.collect_latest p f m) with l end);
      rewrite ?item_of_cons; unfold view, version_at, last_row, of_key; cbn -[bool_decide];
      repeat (case_bool_decide; cbn -[bool_decide]); by subst.
Qed.

Definition run : list (Op (Node := Z) (Account := Z)) :=
  [Append block1 kept_diff; Append block2 diff2; Prune block1].

Definition step_db (d : store) (op : Op (Node := Z) (Account := Z)) : store :=
  match exec (E := string) 50 op d with Some (d, _) => d | None => d end.
Definition step_window w (op : Op (Node := Z) (Account := Z)) : Window :=
  match w_step (E := string) op w with Ok w => w | Err _ => w end.

Definition run_db : store := Eval vm_compute in foldl step_db genesis run.
Definition run_window : Window := foldl step_window genesis_window run.

Lemma run_committed : committed (E := string) 50 run genesis genesis_window run_db run_window.
Proof.
  eapply committed_cons; [| | |vm_compute; reflexivity|reflexivity|].
  { split_and!; [done|vm_compute; done|apply kept_diff_wf]. }
  { apply kept_diff_kept. } { split; vm_compute; lia. }
  eapply committed_cons; [| | |vm_compute; reflexivity|reflexivity|].
  { split_and!; [done|vm_compute; done|apply diff2_wf]. }
  { by intros a u []%elem_of_nil. } { split; vm_compute; lia. }
  eapply committed_cons; [done|vm_compute; done| |vm_compute; reflexivity|reflexivity|].
  { split_and!; vm_compute; lia. }
  apply committed_nil.
Qed.

(** The storage trie of a destroyed account: the database drops the old node, this store
    keeps it. *)
Lemma deleted_trie_kept :
  drain (E := string) (trie_next 1 2 50) 50 (ListDb.Build_cursor _ _ (StorageTrieHistory (step_db genesis (Append block1 diff1))) None)
    = Some (Ok [([8], 208)])
  ∧ Mem.trie_entries_upto (Some 2) 1 (Mem.mem_exec (E := string) (Append block1 diff1) mem_genesis)
    = [([7], 200); ([8], 208)].
Proof. by vm_compute. Qed.
End MemSamples.

Import MemSamples.

Lemma in_memory_agrees_witness :
  drain (λ c, Some (Mem.sc_next (E := string)
      (Some (foldl (λ s op, Mem.mem_exec (E := string) op s) mem_genesis run)) c)) 50 (Mem.storage_cursor_new 2 1)
    = Some (Ok [(6, 66)])
  ∧ same_entries (E := string)
      (let! c := Some (open_cursor (HashedStorageHistory run_db)) in drain (storage_next 1 2 50) 50 c)
      (λ f, drain (λ c, Some (Mem.sc_next (Some (foldl (λ s op, Mem.mem_exec (E := string) op s) mem_genesis run)) c)) f
         (Mem.storage_cursor_new 2 1)).
Proof.
  split; [vm_compute; reflexivity|].
  simple refine (proj2 (proj2 (proj2 (in_memory_agrees 50 run ListStore.genesis ListStore.genesis_window run_db run_window mem_genesis 1 2
    _ _ _ _ _))));
    [exact ListStore.genesis_represented|exact mem_genesis_represents|exact run_committed
    |vm_compute; split; discriminate|split_and!; vm_compute; lia].
Defined.
