(* ===== verification/FetchUpdates.v ===== *)
(** * Reading a block's changes back

    Models [fetch_trie_updates] of [crates/proofs/src/db/store.rs]: the changes of a
    block, rebuilt from its change set and the rows of that block.  reth's [into_sorted],
    which turns the hash maps of updates into sorted lists, is foreign: the class
    [SortUpdates] holds it and what it documents.  The theorem says that what is read back
    replays the block. *)

From stdpp Require Import gmap sorting.
From S2P Require Import Prelude.
From S2P Require Import Versioned.
From S2P Require Import HistoryWrites.
From S2P Require Import ProofsStore.
From S2P Require Import StoreRefinement.
From S2P Require Import StoreSafety.
#[local] Open Scope Z_scope.

(** ** Updates by key *)

(** [StorageTrieUpdates] and [TrieUpdates] of reth. *)
Record RawStorageTrie (Node : Type) := {
  rt_is_deleted : bool;
  rt_storage_nodes : gmap path Node;
  rt_removed_nodes : gset path;
}.
Arguments rt_is_deleted {Node}.
Arguments rt_storage_nodes {Node}.
Arguments rt_removed_nodes {Node}.

Record RawTrieUpdates (Node : Type) := {
  tu_account_nodes : gmap path Node;
  tu_removed_nodes : gset path;
  tu_storage_tries : gmap B256 (RawStorageTrie Node);
}.
Arguments tu_account_nodes {Node}.
Arguments tu_removed_nodes {Node}.
Arguments tu_storage_tries {Node}.

(** [HashedStorage] and [HashedPostState] of reth. *)
Record RawStorage := { hs_wiped : bool; hs_storage : gmap B256 Z }.
Record RawPostState (Account : Type) := {
  ps_accounts : gmap B256 (option Account);
  ps_storages : gmap B256 RawStorage;
}.
Arguments ps_accounts {Account}.
Arguments ps_storages {Account}.

Definition RawStorageTrie_default {Node} : RawStorageTrie Node := Build_RawStorageTrie Node false ∅ ∅.
Definition RawTrieUpdates_default {Node} : RawTrieUpdates Node := Build_RawTrieUpdates Node ∅ ∅ ∅.
Definition RawStorage_default : RawStorage := Build_RawStorage false ∅.
Definition RawPostState_default {Account} : RawPostState Account := Build_RawPostState Account ∅ ∅.

(** A path's entry: its node, or its removal; an updated node takes precedence. *)
Definition node_update {Node} (nodes : gmap path Node) (removed : gset path) (p : path)
  : option (option Node) :=
  match nodes !! p with
  | Some node => Some (Some node)
  | None => if bool_decide (p ∈ removed) then Some None else None
  end.

(** reth's [into_sorted]. *)
Class SortUpdates (Node Account : Type) := {
  trie_into_sorted : RawTrieUpdates Node →
    list (path * option Node) * list (B256 * StorageTrieUpdates Node);
  post_into_sorted : RawPostState Account →
    list (B256 * option Account) * list (B256 * HashedStorage);
}.

(** It keeps every entry once. *)
Class SortUpdatesLaws (Node Account : Type) `{!SortUpdates Node Account} := {
  sorted_account_nodes t p :
    item_of (trie_into_sorted t).1 p = node_update (tu_account_nodes t) (tu_removed_nodes t) p;
  sorted_storage_tries t a :
    match tu_storage_tries t !! a with
    | None => item_of (trie_into_sorted t).2 a = None
    | Some r => ∃ u, item_of (trie_into_sorted t).2 a = Some u ∧ is_deleted u = rt_is_deleted r
        ∧ ∀ p, item_of (storage_nodes u) p = node_update (rt_storage_nodes r) (rt_removed_nodes r) p
    end;
  sorted_accounts s a : item_of (post_into_sorted s).1 a = ps_accounts s !! a;
  sorted_storages s a :
    match ps_storages s !! a with
    | None => item_of (post_into_sorted s).2 a = None
    | Some r => ∃ u, item_of (post_into_sorted s).2 a = Some u ∧ wiped u = hs_wiped r
        ∧ ∀ k, item_of (storage_slots u) k = hs_storage r !! k
    end;
}.

(** ** The operation *)

Section Fetch.
Context {Tb C Pt : Type → Type → Type} {E Node Account : Type}.
Context `{DupDb Tb C E, PlainDb Pt E, !SortUpdates Node Account}.
Abbreviation db := (Db Tb Pt Node Account).
Abbreviation err := (MorphProofsStorageError E).
(** Opening the read transaction of [env.view]. *)
Context (view_tx : db → result unit E).

(** The loop over the keys of one column: [record] adds the entry that the row of the
    block holds. *)
Fixpoint fetch_loop {K V Acc} `{KeyOrd K} (b : Z) (missing : K → err) (record : K → option V → Acc → Acc)
    (keys : list K) (acc : Acc) (cur : C K V) : result Acc err :=
  match keys with
  | [] => Ok acc
  | key :: keys =>
      let? '(cur, o) := lift (c_seek_by_key_subkey key b cur) in
      match o with
      | Some v =>
          if block_number v =? b then fetch_loop b missing record keys (record key (vvalue v) acc) cur
          else Err (missing key)
      | None => Err (missing key)
      end
  end.

Definition record_account_node (p : path) (entry : option Node) (t : RawTrieUpdates Node) : RawTrieUpdates Node :=
  match entry with
  | Some value => Build_RawTrieUpdates Node (<[p := value]> (tu_account_nodes t)) (tu_removed_nodes t) (tu_storage_tries t)
  | None => Build_RawTrieUpdates Node (tu_account_nodes t) ({[p]} ∪ tu_removed_nodes t) (tu_storage_tries t)
  end.

Definition record_storage_node (key : B256 * path) (entry : option Node) (t : RawTrieUpdates Node)
  : RawTrieUpdates Node :=
  let '(hashed_address, p) := key in
  let stu := default RawStorageTrie_default (tu_storage_tries t !! hashed_address) in
  let stu :=
    match entry with
    | Some value => Build_RawStorageTrie Node (rt_is_deleted stu) (<[p := value]> (rt_storage_nodes stu)) (rt_removed_nodes stu)
    | None => Build_RawStorageTrie Node (rt_is_deleted stu) (rt_storage_nodes stu) ({[p]} ∪ rt_removed_nodes stu)
    end in
  Build_RawTrieUpdates Node (tu_account_nodes t) (tu_removed_nodes t) (<[hashed_address := stu]> (tu_storage_tries t)).

Definition record_account (a : B256) (entry : option Account) (s : RawPostState Account) : RawPostState Account :=
  Build_RawPostState Account (<[a := entry]> (ps_accounts s)) (ps_storages s).

Definition record_slot (key : B256 * B256) (entry : option Z) (s : RawPostState Account) : RawPostState Account :=
  let '(hashed_address, hashed_storage_key) := key in
  let hs := default RawStorage_default (ps_storages s !! hashed_address) in
  let hs := Build_RawStorage (hs_wiped hs) (<[hashed_storage_key := default 0 entry]> (hs_storage hs)) in
  Build_RawPostState Account (ps_accounts s) (<[hashed_address := hs]> (ps_storages s)).

Definition fetch_trie_updates (b : Z) (d : db) : result (BlockStateDiff Node Account) err :=
  let? _ := lift (view_tx d) in
  let? found := lift (p_seek_exact b (BlockChangeSet d)) in
  match found with
  | None => Err (NoChangeSetForBlock b)
  | Some change_set =>
      let? account_trie_cursor := lift (open_cursor (AccountTrieHistory d)) in
      let? storage_trie_cursor := lift (open_cursor (StorageTrieHistory d)) in
      let? hashed_account_cursor := lift (open_cursor (HashedAccountHistory d)) in
      let? hashed_storage_cursor := lift (open_cursor (HashedStorageHistory d)) in
      let? trie_updates := fetch_loop b (λ key, MissingAccountTrieHistory key b) record_account_node
        (account_trie_keys change_set) RawTrieUpdates_default account_trie_cursor in
      let? trie_updates := fetch_loop b (λ key : B256 * path, MissingStorageTrieHistory key.1 key.2 b) record_storage_node
        (storage_trie_keys change_set) trie_updates storage_trie_cursor in
      let? post_state := fetch_loop b (λ key, MissingHashedAccountHistory key b) record_account
        (hashed_account_keys change_set) RawPostState_default hashed_account_cursor in
      let? post_state := fetch_loop b (λ key : B256 * B256, MissingHashedStorageHistory key.1 key.2 b) record_slot
        (hashed_storage_keys change_set) post_state hashed_storage_cursor in
      let '(nodes, tries) := trie_into_sorted trie_updates in
      let '(accounts, storages) := post_into_sorted post_state in
      Ok {| account_nodes := nodes; storage_tries := tries;
            ProofsStore.accounts := accounts; ProofsStore.storages := storages |}
  end.
End Fetch.

(** ** Lemmas *)

Section Rows.
Context {K V : Type} `{KeyOrdLaws K}.
Implicit Types (rs : list (K * VersionedValue V)).

Lemma view_at_row rs b k v : wf_rows rs → (k, v) ∈ rs → block_number v = b → view rs b k = vvalue v.
Proof using H0.
  intros [Hs _] Hin Hb. unfold view. rewrite (proj2 (version_at_Some rs b k v Hs)); [done|].
  split_and!; [done|lia|]. intros v' _ Hv'. lia.
Qed.

Lemma view_no_row rs b k : wf_rows rs → (∀ v, (k, v) ∈ rs → block_number v ≠ b) →
  view rs b k = view rs (b - 1) k.
Proof using H0.
  intros [Hs _] Hno. unfold view. f_equal. apply option_eq. intros v. rewrite !version_at_Some by done.
  split; intros (Hin & Hb & Hmax); pose proof (Hno _ Hin); split_and!; [done|lia| |done|lia|].
  - intros v' Hin' Hb'. apply Hmax; [done|lia].
  - intros v' Hin' Hb'. pose proof (Hno _ Hin'). apply Hmax; [done|lia].
Qed.

(** A column of a block: its keys are those with a row of the block, so the view of the
    block is that of its parent with the column's entries in place. *)
Lemma column_view e l ka rs b k : indexed e l ka rs → e < b ≤ l →
  view rs b k = if bool_decide (k ∈ ka b) then view rs b k else view rs (b - 1) k.
Proof using H0.
  intros [Hwf _ Hkeys] Hb. case_bool_decide as Hk; [done|]. apply view_no_row; [done|].
  intros v Hin <-. apply Hk, Hkeys; [done|]. by exists v.
Qed.

(** Entries recorded one by one are read back. *)
Lemma fold_record {Acc X} (read : Acc → K → option X) (g : K → X) (record : K → Acc → Acc) (I : Acc → Prop) :
  (∀ acc k, I acc → I (record k acc)
    ∧ ∀ k', read (record k acc) k' = if bool_decide (k' = k) then Some (g k) else read acc k') →
  ∀ keys acc, I acc →
  I (foldl (λ acc k, record k acc) acc keys)
  ∧ ∀ k', read (foldl (λ acc k, record k acc) acc keys) k'
          = if bool_decide (k' ∈ keys) then Some (g k') else read acc k'.
Proof using.
  intros Hstep. induction keys as [|k keys IH]; intros acc HI; cbn [foldl].
  { split; [done|]. intros k'. by rewrite bool_decide_false by apply not_elem_of_nil. }
  destruct (Hstep acc k HI) as [HI' Hread]. destruct (IH _ HI') as [HI2 Hread2]. split; [done|].
  intros k'. rewrite Hread2, Hread. destruct (decide (k' ∈ keys)) as [Hin|Hin].
  - by rewrite !bool_decide_true by (done || by right).
  - rewrite (bool_decide_false (k' ∈ keys)) by done. destruct (decide (k' = k)) as [->|Hne].
    + by rewrite !bool_decide_true by (done || by left).
    + rewrite !bool_decide_false; [done|by intros [?|?]%elem_of_cons|done].
Qed.
End Rows.

Section FetchLemmas.
Context {Tb C Pt : Type → Type → Type} {E Node Account : Type}.
Context `{DupDbLaws Tb C E, PlainDbLaws Pt E}.

Lemma fetch_loop_spec {K V Acc} `{KeyOrdLaws K} b (missing : K → MorphProofsStorageError E)
    (record : K → option V → Acc → Acc) keys acc (c : C K V) rs :
  rows (table_of c) = rs → wf_rows rs → (∀ k, k ∈ keys → ∃ v, (k, v) ∈ rs ∧ block_number v = b) →
  succeeds (Some (fetch_loop b missing record keys acc c))
    (λ acc', acc' = foldl (λ acc k, record k (view rs b k) acc) acc keys).
Proof.
  intros <- Hwf. set (rs := rows (table_of c)) in *. assert (Hc : rows (table_of c) = rs) by done. clearbody rs.
  revert acc c Hc. induction keys as [|k keys IH]; intros acc c Hc Hkeys; cbn [fetch_loop foldl].
  { by apply succeeds_Ok. }
  eapply succeeds_rbind; [apply succeeds_lift, seek_version_spec; by rewrite Hc|].
  intros [c' o] [Ht Ho]. rewrite Hc in Ho. destruct (Hkeys k) as (v & Hin & Hv); [by left|].
  destruct o as [v'|]; [|specialize (Ho _ Hin); lia]. destruct Ho as (Hin' & Hb & _ & Hmin).
  assert (block_number v' = b) as Hb' by (specialize (Hmin _ Hin); lia).
  rewrite Hb', Z.eqb_refl. rewrite (view_at_row rs b k v' Hwf Hin' Hb').
  apply IH; [by rewrite Ht|]. intros k' Hk'. apply Hkeys. by right.
Qed.

Definition account_node_of (t : RawTrieUpdates Node) (p : path) : option (option Node) :=
  node_update (tu_account_nodes t) (tu_removed_nodes t) p.
Definition storage_node_of (t : RawTrieUpdates Node) (k : B256 * path) : option (option Node) :=
  tu_storage_tries t !! k.1 ≫= λ r, node_update (rt_storage_nodes r) (rt_removed_nodes r) k.2.
Definition slot_of (s : RawPostState Account) (k : B256 * B256) : option Z :=
  ps_storages s !! k.1 ≫= λ r, hs_storage r !! k.2.

(** One update of a set of nodes, which agrees with the others. *)
Lemma node_update_insert (f : path → option Node) nodes removed p :
  (node_update nodes removed p = None ∨ node_update nodes removed p = Some (f p)) →
  ∀ p', node_update (match f p with Some n => <[p := n]> nodes | None => nodes end)
      (match f p with Some _ => removed | None => {[p]} ∪ removed end) p'
    = if bool_decide (p' = p) then Some (f p) else node_update nodes removed p'.
Proof using.
  intros Hold p'. unfold node_update in *. destruct (decide (p' = p)) as [->|Hp].
  - rewrite (bool_decide_true (p = p)) by done. destruct (f p) as [n|]; [by rewrite lookup_insert_eq|].
    destruct (nodes !! p); [naive_solver|]. rewrite bool_decide_true by set_solver. done.
  - rewrite (bool_decide_false (p' = p)) by done. destruct (f p) as [n|]; [by rewrite lookup_insert_ne|].
    destruct (nodes !! p'); [done|]. destruct (decide (p' ∈ removed)); [by rewrite !bool_decide_true by set_solver|].
    by rewrite !bool_decide_false by set_solver.
Qed.

(** Every recorded entry is the block's. *)
Lemma recorded_account_nodes (f : path → option Node) keys (t : RawTrieUpdates Node) : (∀ p, account_node_of t p = None) →
  let t' := foldl (λ t p, record_account_node p (f p) t) t keys in
  tu_storage_tries t' = tu_storage_tries t
  ∧ ∀ p, account_node_of t' p = if bool_decide (p ∈ keys) then Some (f p) else None.
Proof using.
  intros Hempty t'.
  destruct (fold_record account_node_of f (λ p t, record_account_node p (f p) t) (λ t',
    tu_storage_tries t' = tu_storage_tries t
    ∧ ∀ p, account_node_of t' p = None ∨ account_node_of t' p = Some (f p))) with (keys := keys) (acc := t)
    as [[Htries _] Hread].
  - intros acc p [Htries Hold].
    assert (Hnew : ∀ p', account_node_of (record_account_node p (f p) acc) p'
      = if bool_decide (p' = p) then Some (f p) else account_node_of acc p').
    { intros p'. unfold account_node_of at 2. rewrite <- (node_update_insert f); [|apply Hold].
      unfold record_account_node, account_node_of. by destruct (f p). }
    split; [split|done]; [unfold record_account_node; by destruct (f p)|].
    intros p'. rewrite Hnew. case_bool_decide as Hp; [subst; by right|apply Hold].
  - split; [done|]. intros p. left. apply Hempty.
  - split; [exact Htries|]. intros p. rewrite Hread. by rewrite Hempty.
Qed.

Lemma recorded_storage_nodes (g : B256 * path → option Node) keys (t : RawTrieUpdates Node) : tu_storage_tries t = ∅ →
  let t' := foldl (λ t k, record_storage_node k (g k) t) t keys in
  (tu_account_nodes t' = tu_account_nodes t ∧ tu_removed_nodes t' = tu_removed_nodes t)
  ∧ (∀ a r, tu_storage_tries t' !! a = Some r → rt_is_deleted r = false)
  ∧ ∀ k, storage_node_of t' k = if bool_decide (k ∈ keys) then Some (g k) else None.
Proof using.
  intros Hempty t'.
  assert (Hnone : ∀ k, storage_node_of t k = None) by (intros k; unfold storage_node_of; by rewrite Hempty).
  destruct (fold_record storage_node_of g (λ k t, record_storage_node k (g k) t) (λ t',
    (tu_account_nodes t' = tu_account_nodes t ∧ tu_removed_nodes t' = tu_removed_nodes t)
    ∧ (∀ a r, tu_storage_tries t' !! a = Some r → rt_is_deleted r = false)
    ∧ ∀ k, storage_node_of t' k = None ∨ storage_node_of t' k = Some (g k))) with (keys := keys) (acc := t)
    as [(Hacc & Hdel & _) Hread].
  - intros acc [a p] (Hacc & Hdel & Hold).
    assert (Hnew : ∀ k', storage_node_of (record_storage_node (a, p) (g (a, p)) acc) k'
      = if bool_decide (k' = (a, p)) then Some (g (a, p)) else storage_node_of acc k').
    { intros [a' p']. unfold storage_node_of, record_storage_node. cbn [fst snd tu_storage_tries].
      destruct (decide (a' = a)) as [->|Ha].
      - rewrite lookup_insert_eq. cbn [mbind option_bind].
        set (r := default RawStorageTrie_default (tu_storage_tries acc !! a)).
        assert (Hr : ∀ q, tu_storage_tries acc !! a ≫= (λ r, node_update (rt_storage_nodes r) (rt_removed_nodes r) q)
          = node_update (rt_storage_nodes r) (rt_removed_nodes r) q).
        { intros q. subst r. by destruct (tu_storage_tries acc !! a). }
        rewrite Hr. rewrite (bool_decide_ext ((a, p') = (a, p)) (p' = p)) by naive_solver.
        rewrite <- (node_update_insert (λ p, g (a, p))).
        + by destruct (g (a, p)).
        + pose proof (Hold (a, p)) as Hc. unfold storage_node_of in Hc. cbn [fst snd] in Hc. by rewrite Hr in Hc.
      - rewrite lookup_insert_ne by done. by rewrite bool_decide_false by naive_solver. }
    split; [split_and!|done].
    + apply Hacc.
    + apply Hacc.
    + intros a' r. unfold record_storage_node. cbn [tu_storage_tries].
      destruct (decide (a' = a)) as [->|Ha]; [rewrite lookup_insert_eq|rewrite lookup_insert_ne by done; apply Hdel].
      intros [= <-]. destruct (tu_storage_tries acc !! a) as [r|] eqn:Hr; cbn.
      * apply Hdel in Hr. by destruct (g (a, p)).
      * by destruct (g (a, p)).
    + intros k'. rewrite Hnew. case_bool_decide as Hp; [subst; by right|apply Hold].
  - split; [done|]. split; [intros a r; by rewrite Hempty|]. intros k. left. apply Hnone.
  - split; [exact Hacc|]. split; [exact Hdel|]. intros k. rewrite Hread. by rewrite Hnone.
Qed.

Lemma recorded_accounts (h : B256 → option Account) keys (s : RawPostState Account) : ps_accounts s = ∅ →
  let s' := foldl (λ s a, record_account a (h a) s) s keys in
  ps_storages s' = ps_storages s
  ∧ ∀ a, ps_accounts s' !! a = if bool_decide (a ∈ keys) then Some (h a) else None.
Proof using.
  intros Hempty s'.
  destruct (fold_record (λ s a, ps_accounts s !! a) h (λ a s, record_account a (h a) s)
    (λ s', ps_storages s' = ps_storages s)) with (keys := keys) (acc := s) as [Hst Hread]; [|done|].
  - intros acc a Hst. split; [done|]. intros a'. cbn. case_bool_decide as Ha; [subst; by rewrite lookup_insert_eq|].
    by rewrite lookup_insert_ne.
  - split; [exact Hst|]. intros a. cbn in Hread. rewrite Hread. by rewrite Hempty.
Qed.

Lemma recorded_slots (v : B256 * B256 → option Z) keys (s : RawPostState Account) : ps_storages s = ∅ →
  let s' := foldl (λ s k, record_slot k (v k) s) s keys in
  ps_accounts s' = ps_accounts s
  ∧ (∀ a r, ps_storages s' !! a = Some r → hs_wiped r = false)
  ∧ ∀ k, slot_of s' k = if bool_decide (k ∈ keys) then Some (default 0 (v k)) else None.
Proof using.
  intros Hempty s'.
  destruct (fold_record slot_of (λ k, default 0 (v k)) (λ k s, record_slot k (v k) s) (λ s',
    ps_accounts s' = ps_accounts s ∧ ∀ a r, ps_storages s' !! a = Some r → hs_wiped r = false))
    with (keys := keys) (acc := s) as [[Hacc Hw] Hread].
  - intros acc [a k] [Hacc Hw]. unfold slot_of, record_slot. cbn [ps_accounts ps_storages]. split; [split; [done|]|].
    + intros a' r. destruct (decide (a' = a)) as [->|Ha]; [rewrite lookup_insert_eq|rewrite lookup_insert_ne by done; apply Hw].
      intros [= <-]. destruct (ps_storages acc !! a) eqn:Hr; cbn; [by eapply Hw|done].
    + intros [a' k']; cbn [fst snd]. destruct (decide (a' = a)) as [->|Ha].
      * rewrite lookup_insert_eq. cbn [mbind option_bind hs_storage].
        rewrite (bool_decide_ext ((a, k') = (a, k)) (k' = k)) by naive_solver.
        case_bool_decide as Hk; [subst; by rewrite lookup_insert_eq|]. rewrite lookup_insert_ne by done.
        by destruct (ps_storages acc !! a).
      * rewrite lookup_insert_ne by done. by rewrite bool_decide_false by naive_solver.
  - split; [done|]. intros a r. by rewrite Hempty.
  - split; [exact Hacc|]. split; [exact Hw|]. intros k. rewrite Hread. unfold slot_of. by rewrite Hempty.
Qed.
End FetchLemmas.

(** ** Replaying a block *)

Section Replay.
Context {Tb C Pt : Type → Type → Type} {E Node Account : Type}.
Context `{DupDbLaws Tb C E, PlainDbLaws Pt E, !SortUpdates Node Account, !SortUpdatesLaws Node Account}.
Abbreviation db := (Db Tb Pt Node Account).
Context (view_tx : db → result unit E).
Implicit Types d : db.

(** The updates of a block, read back from its columns [ks1] to [ks4] and the rows. *)
Definition read_back d (b : Z) (cs : ChangeSet) : BlockStateDiff Node Account :=
  let t := foldl (λ t k, record_storage_node k (view (rows (StorageTrieHistory d)) b k) t)
    (foldl (λ t p, record_account_node p (view (rows (AccountTrieHistory d)) b p) t)
       RawTrieUpdates_default (account_trie_keys cs)) (storage_trie_keys cs) in
  let s := foldl (λ s k, record_slot k (view (rows (HashedStorageHistory d)) b k) s)
    (foldl (λ s a, record_account a (view (rows (HashedAccountHistory d)) b a) s)
       RawPostState_default (hashed_account_keys cs)) (hashed_storage_keys cs) in
  {| account_nodes := (trie_into_sorted t).1; storage_tries := (trie_into_sorted t).2;
     ProofsStore.accounts := (post_into_sorted s).1; ProofsStore.storages := (post_into_sorted s).2 |}.

(** Whether a key is in a column. *)
Ltac by_column k ks :=
  destruct (decide (k ∈ ks)); [rewrite !bool_decide_true by done|rewrite !bool_decide_false by done].

(** Applied to any state, they set exactly the entries of the columns. *)
Lemma read_back_applies d b cs (st : State Node Account) :
  apply_diff (read_back d b cs) st ≡ {|
    v_account_nodes k := if bool_decide (k ∈ account_trie_keys cs)
      then view (rows (AccountTrieHistory d)) b k else v_account_nodes st k;
    v_storage_nodes k := if bool_decide (k ∈ storage_trie_keys cs)
      then view (rows (StorageTrieHistory d)) b k else v_storage_nodes st k;
    v_accounts k := if bool_decide (k ∈ hashed_account_keys cs)
      then view (rows (HashedAccountHistory d)) b k else v_accounts st k;
    v_slots k := if bool_decide (k ∈ hashed_storage_keys cs)
      then nz (view (rows (HashedStorageHistory d)) b k) else v_slots st k |}.
Proof using All.
  unfold read_back.
  pose proof (recorded_account_nodes (Node := Node) (λ p, view (rows (AccountTrieHistory d)) b p)
    (account_trie_keys cs) RawTrieUpdates_default (λ _, eq_refl)) as R1. cbv zeta in R1. destruct R1 as [T1 N1].
  set (t1 := foldl _ RawTrieUpdates_default (account_trie_keys cs)) in *.
  pose proof (recorded_storage_nodes (Node := Node) (λ k, view (rows (StorageTrieHistory d)) b k)
    (storage_trie_keys cs) t1 T1) as R2. cbv zeta in R2. destruct R2 as ([A2 B2] & D2 & N2).
  set (t2 := foldl _ t1 (storage_trie_keys cs)) in *.
  pose proof (recorded_accounts (Account := Account) (λ a, view (rows (HashedAccountHistory d)) b a)
    (hashed_account_keys cs) RawPostState_default eq_refl) as R3. cbv zeta in R3. destruct R3 as [T3 N3].
  set (s1 := foldl _ RawPostState_default (hashed_account_keys cs)) in *.
  pose proof (recorded_slots (Account := Account) (λ k, view (rows (HashedStorageHistory d)) b k)
    (hashed_storage_keys cs) s1 T3) as R4. cbv zeta in R4. destruct R4 as (A4 & W4 & N4).
  set (s2 := foldl _ s1 (hashed_storage_keys cs)) in *.
  split_and!; intros k; cbn.
  - rewrite sorted_account_nodes, A2, B2. specialize (N1 k). unfold account_node_of in N1. rewrite N1.
    by by_column k (account_trie_keys cs).
  - specialize (N2 k). unfold storage_node_of in N2. unfold node_after.
    pose proof (sorted_storage_tries (Account := Account) t2 k.1) as Hs. revert N2.
    by_column k (storage_trie_keys cs); destruct (tu_storage_tries t2 !! k.1) as [r|] eqn:Hr; cbn; intros N2; try done;
      [| |by rewrite Hs]; destruct Hs as (u & -> & Hdel & Hnodes); by rewrite Hdel, (D2 _ _ Hr), Hnodes, N2.
  - rewrite sorted_accounts, A4, N3. by by_column k (hashed_account_keys cs).
  - specialize (N4 k). unfold slot_of in N4. unfold slot_after.
    pose proof (sorted_storages (Node := Node) s2 k.1) as Hs. revert N4.
    by_column k (hashed_storage_keys cs); destruct (ps_storages s2 !! k.1) as [r|] eqn:Hr; cbn; intros N4; try done;
      [| |by rewrite Hs]; destruct Hs as (u & -> & Hw & Hslots); rewrite Hslots, N4, ?Hw, ?(W4 _ _ Hr); [|done].
    by destruct (view _ b k).
Qed.

Lemma fetch_spec d e l b : store_inv d e l → number e < b ≤ number l →
  succeeds (Some (fetch_trie_updates view_tx b d))
    (λ bd, ∃ cs, content (BlockChangeSet d) b = Some cs ∧ bd = read_back d b cs).
Proof using All.
  intros [_ _ _ Hcs [I1 I2 I3 I4]] Hb. unfold fetch_trie_updates.
  eapply succeeds_rbind; [apply (succeeds_lift _ (λ _, True)); by destruct (view_tx d)|]. intros _ _.
  eapply succeeds_rbind; [apply succeeds_lift, law_p_seek_exact|]. intros o ->.
  destruct (content (BlockChangeSet d) b) as [cs|] eqn:Hc; [|by apply Hcs in Hb].
  assert (Hcol : ∀ {K} (keys : ChangeSet → list K), col keys d b = keys cs) by (intros; unfold col; by rewrite Hc).
  destruct I1 as [W1 _ K1], I2 as [W2 _ K2], I3 as [W3 _ K3], I4 as [W4 _ K4].
  do 4 (eapply succeeds_rbind; [apply succeeds_lift, law_open|]; intros ? [? _]).
  eapply succeeds_rbind; [eapply (fetch_loop_spec b _ _ _ _ _ (rows (AccountTrieHistory d))); [by f_equal|done|]|].
  { intros k Hk. apply K1; [done|by rewrite Hcol]. }
  intros t1 ->. eapply succeeds_rbind; [eapply (fetch_loop_spec b _ _ _ _ _ (rows (StorageTrieHistory d))); [by f_equal|done|]|].
  { intros k Hk. apply K2; [done|by rewrite Hcol]. }
  intros t2 ->. eapply succeeds_rbind; [eapply (fetch_loop_spec b _ _ _ _ _ (rows (HashedAccountHistory d))); [by f_equal|done|]|].
  { intros k Hk. apply K3; [done|by rewrite Hcol]. }
  intros s1 ->. eapply succeeds_rbind; [eapply (fetch_loop_spec b _ _ _ _ _ (rows (HashedStorageHistory d))); [by f_equal|done|]|].
  { intros k Hk. apply K4; [done|by rewrite Hcol]. }
  intros s2 ->. unfold read_back.
  destruct (trie_into_sorted _) as [nodes tries] eqn:Ht, (post_into_sorted _) as [accounts storages] eqn:Hp.
  apply succeeds_Ok. exists cs. split; [done|]. by rewrite Ht, Hp.
Qed.

(** C32. A block's changes read back replay the block.  In a store that holds a window, for
    every block after the earliest up to the latest, [fetch_trie_updates] finds all rows
    that the change set lists, unless the database fails, and what it returns takes the
    state of the parent block to the state of the block: trie nodes, accounts and slots,
    also where the block had deleted a storage trie or wiped a storage.  Outside that
    range it fails with [NoChangeSetForBlock]. *)
Theorem fetched_changes_replay d w b :
  represents (E := E) d w →
  if (number (w_earliest w) <? b) && (b <=? number (w_latest w)) then
    succeeds (Some (fetch_trie_updates view_tx b d))
      (λ bd, apply_diff bd (w_state w (b - 1)) ≡ w_state w b)
  else
    ∃ x, fetch_trie_updates view_tx b d = Err x ∧ (x = NoChangeSetForBlock b ∨ ∃ y, x = DatabaseError y).
Proof using All.
  intros [Hinv Hst]. destruct (_ && _) eqn:Hb.
  - apply andb_true_iff in Hb as [Hb1%Z.ltb_lt Hb2%Z.leb_le].
    eapply succeeds_mono; [by eapply fetch_spec|]. intros bd (cs & Hc & ->).
    rewrite <- (Hst (b - 1)), <- (Hst b) by lia. rewrite read_back_applies.
    destruct (si_tables _ _ _ Hinv) as [I1 I2 I3 I4].
    assert (Hcol : ∀ {K} (keys : ChangeSet → list K), col keys d b = keys cs) by (intros; unfold col; by rewrite Hc).
    split_and!; intros k; cbn; rewrite <- Hcol.
    + pose proof (column_view _ _ _ _ b k I1 ltac:(lia)) as Hv. revert Hv.
      by by_column k (col account_trie_keys d b).
    + pose proof (column_view _ _ _ _ b k I2 ltac:(lia)) as Hv. revert Hv.
      by by_column k (col storage_trie_keys d b).
    + pose proof (column_view _ _ _ _ b k I3 ltac:(lia)) as Hv. revert Hv.
      by by_column k (col hashed_account_keys d b).
    + pose proof (column_view _ _ _ _ b k I4 ltac:(lia)) as Hv. revert Hv.
      by_column k (col hashed_storage_keys d b); [done|]. by intros ->.
  - assert (Hnone : content (BlockChangeSet d) b = None).
    { destruct (content (BlockChangeSet d) b) eqn:Hc; [|done].
      assert (Hne : content (BlockChangeSet d) b ≠ None) by by rewrite Hc.
      apply (si_change_sets _ _ _ Hinv) in Hne. lia. }
    unfold fetch_trie_updates. destruct (view_tx d) as [[]|y]; cbn; [|by eexists; eauto].
    pose proof (law_p_seek_exact b (BlockChangeSet d)) as Hseek.
    destruct (p_seek_exact b (BlockChangeSet d)) as [o|y]; cbn in *; [|by eexists; eauto].
    rewrite Hseek, Hnone. eexists. eauto.
Qed.
End Replay.

(** ** A sorting function and a witness *)

Module FetchSamples.
Section Sample.
Context {K A : Type} `{Countable K}.

Lemma item_of_map (m : gmap K A) k : item_of (map_to_list m) k = m !! k.
Proof.
  apply option_eq. intros a. rewrite item_of_Some, elem_of_map_to_list by apply NoDup_fst_map_to_list. done.
Qed.

(** The nodes, and the removals of other paths. *)
Definition updates (nodes : gmap K A) (removed : gset K) : list (K * option A) :=
  map_to_list (Some <$> nodes) ++ map (λ k, (k, None)) (elements removed).

Lemma item_of_removed (l : list K) k :
  item_of (map (λ k, (k, @None A)) l) k = if bool_decide (k ∈ l) then Some None else None.
Proof.
  induction l as [|k' l IH]; cbn [map].
  { by rewrite bool_decide_false by apply not_elem_of_nil. }
  rewrite item_of_cons, IH. destruct (decide (k' = k)) as [->|Hne].
  - rewrite (bool_decide_true (k = k)), (bool_decide_true (k ∈ k :: l)); [done|by left|done].
  - rewrite (bool_decide_false (k' = k)) by done. destruct (decide (k ∈ l)).
    + by rewrite !bool_decide_true by (done || by right).
    + rewrite !bool_decide_false; [done|by intros [?|?]%elem_of_cons|done].
Qed.
End Sample.

Definition sample_trie (t : RawTrieUpdates Z) : list (path * option Z) * list (B256 * StorageTrieUpdates Z) :=
  (updates (tu_account_nodes t) (tu_removed_nodes t),
   map_to_list ((λ r, {| is_deleted := rt_is_deleted r;
                         storage_nodes := updates (rt_storage_nodes r) (rt_removed_nodes r) |}) <$> tu_storage_tries t)).

Definition sample_post (s : RawPostState Z) : list (B256 * option Z) * list (B256 * HashedStorage) :=
  (map_to_list (ps_accounts s),
   map_to_list ((λ r, {| wiped := hs_wiped r; storage_slots := map_to_list (hs_storage r) |}) <$> ps_storages s)).

#[export] Instance sample_sort : SortUpdates Z Z := {| trie_into_sorted := sample_trie; post_into_sorted := sample_post |}.

Lemma item_of_updates (nodes : gmap path Z) removed p : item_of (updates nodes removed) p = node_update nodes removed p.
Proof.
  unfold updates, node_update. rewrite item_of_app, item_of_map, item_of_removed, lookup_fmap.
  destruct (nodes !! p); cbn; [done|].
  destruct (decide (p ∈ removed)); [by rewrite !bool_decide_true by set_solver|by rewrite !bool_decide_false by set_solver].
Qed.

#[export] Instance sample_sort_laws : SortUpdatesLaws Z Z.
Proof.
  split; cbn.
  - intros t p. apply item_of_updates.
  - intros t a. rewrite item_of_map, lookup_fmap. destruct (tu_storage_tries t !! a) as [r|]; cbn; [|done].
    eexists. split_and!; [done..|]. intros p. apply item_of_updates.
  - intros s a. apply item_of_map.
  - intros s a. rewrite item_of_map, lookup_fmap. destruct (ps_storages s !! a) as [r|]; cbn; [|done].
    eexists. split_and!; [done..|]. intros k. apply item_of_map.
Qed.

(** Block 1 of [ListStore], which destroys and recreates account 2, is read back as the
    updates and removals of single entries. *)
Lemma sample_fetch :
  fetch_trie_updates (E := string) (λ _, Ok tt) 1 ListStore.store1 = Ok {|
    account_nodes := [([3], Some 103); ([1], None)];
    storage_tries := [(2, {| is_deleted := false; storage_nodes := [([8], Some 208); ([7], None)] |})];
    accounts := [(2, Some 22); (1, Some 21)];
    storages := [(2, {| wiped := false; storage_slots := [(5, 0); (6, 66)] |})] |}.
Proof. by vm_compute. Qed.
End FetchSamples.

Import FetchSamples.

Lemma fetched_changes_replay_witness :
  succeeds (Some (fetch_trie_updates (E := string) (λ _, Ok tt) 1 ListStore.store1))
    (λ bd, apply_diff bd (w_state ListStore.window1 0) ≡ w_state ListStore.window1 1).
Proof.
  simple refine (let H := fetched_changes_replay (λ _, Ok tt) ListStore.store1 ListStore.window1 1 _ in _);
    [exact ListStore.store1_represented|]. exact H.
Defined.
