(* ===== verification/RpcReceipts.v ===== *)
(** * Receipts served over RPC

    Models [crates/primitives/src/receipt/envelope.rs] (the receipt envelope with its
    bloom, and its EIP-2718 encoding), [crates/rpc/src/eth/receipt.rs] (the conversion of
    stored receipts for [eth_getTransactionReceipt], [eth_getBlockReceipts] and the
    receipts subscription) and the data of [crates/rpc/src/types/receipt.rs].  alloy's
    [ReceiptWithBloom] codec and reth's [build_receipt] and [Log::collect_for_receipt] are
    foreign: the classes [WithBloomOps] and [RpcConvertOps] hold them and what the
    conversion relies on. *)

From S2P Require Import Prelude Rlp MorphTx Envelope Receipts BlockExecutor.

Import MorphTxEnvelope.

(** ** The receipt envelope *)

Record ReceiptWithBloom (T : Type) := { wb_receipt : Receipt T; wb_logs_bloom : Z }.
Arguments wb_receipt {T}.
Arguments wb_logs_bloom {T}.

Inductive MorphReceiptEnvelope (T : Type) :=
| ELegacy (r : ReceiptWithBloom T)
| EEip2930 (r : ReceiptWithBloom T)
| EEip1559 (r : ReceiptWithBloom T)
| EEip7702 (r : ReceiptWithBloom T)
| EL1Message (r : ReceiptWithBloom T)
| EMorph (r : ReceiptWithBloom T).
Arguments ELegacy {T} r.
Arguments EEip2930 {T} r.
Arguments EEip1559 {T} r.
Arguments EEip7702 {T} r.
Arguments EL1Message {T} r.
Arguments EMorph {T} r.

Section EnvelopeOps.
Context {T : Type}.
Implicit Types e : MorphReceiptEnvelope T.

(** The variant of a transaction type. *)
Definition env_of_type (tx_type : MorphTxType) (r : ReceiptWithBloom T) : MorphReceiptEnvelope T :=
  match tx_type with
  | TLegacy => ELegacy r
  | TEip2930 => EEip2930 r
  | TEip1559 => EEip1559 r
  | TEip7702 => EEip7702 r
  | TL1Msg => EL1Message r
  | TMorph => EMorph r
  end.

Definition env_tx_type e : MorphTxType :=
  match e with
  | ELegacy _ => TLegacy
  | EEip2930 _ => TEip2930
  | EEip1559 _ => TEip1559
  | EEip7702 _ => TEip7702
  | EL1Message _ => TL1Msg
  | EMorph _ => TMorph
  end.

Definition env_with_bloom e : ReceiptWithBloom T :=
  match e with
  | ELegacy t | EEip2930 t | EEip1559 t | EEip7702 t | EL1Message t | EMorph t => t
  end.

Definition env_as_receipt e : Receipt T := wb_receipt (env_with_bloom e).
Definition env_status e : bool := coerce_status (status (env_as_receipt e)).
Definition env_cumulative_gas_used e : Z := cumulative_gas_used (env_as_receipt e).
Definition env_logs e : list T := logs (env_as_receipt e).
Definition env_logs_bloom e : Z := wb_logs_bloom (env_with_bloom e).

Definition as_l1_message_receipt_with_bloom e : option (ReceiptWithBloom T) :=
  match e with EL1Message t => Some t | _ => None end.
Definition as_l1_message_receipt e : option (Receipt T) :=
  match e with EL1Message t => Some (wb_receipt t) | _ => None end.

Definition env_type_flag e : option Z :=
  match e with
  | ELegacy _ => None
  | EEip2930 _ => Some (tx_type_byte TEip2930)
  | EEip1559 _ => Some (tx_type_byte TEip1559)
  | EEip7702 _ => Some (tx_type_byte TEip7702)
  | EL1Message _ => Some (tx_type_byte TL1Msg)
  | EMorph _ => Some (tx_type_byte TMorph)
  end.

Definition env_ty e : Z := tx_type_byte (env_tx_type e).

(** [Typed2718::is_legacy]. *)
Definition env_is_legacy e : bool := env_ty e =? 0.
End EnvelopeOps.

(** The envelope around logs that a receipt of the chain has. *)
Section Constructors.
Context {Log : Type} (logs_bloom : list Log → Z).

Definition from_parts (st : bool) (gas : Z) (ls : list Log) (tx_type : MorphTxType)
  : MorphReceiptEnvelope Log :=
  env_of_type tx_type {|
    wb_receipt := {| status := Eip658 st; cumulative_gas_used := gas; logs := ls |};
    wb_logs_bloom := logs_bloom ls |}.

(** [From<MorphReceipt>]. *)
Definition env_from_receipt (value : MorphReceipt Log) : MorphReceiptEnvelope Log :=
  let '(tx_type, inner) :=
    match value with
    | RLegacy r => (TLegacy, inner r)
    | REip2930 r => (TEip2930, inner r)
    | REip1559 r => (TEip1559, inner r)
    | REip7702 r => (TEip7702, inner r)
    | RMorph r => (TMorph, inner r)
    | RL1Msg r => (TL1Msg, r)
    end in
  env_of_type tx_type {| wb_receipt := inner; wb_logs_bloom := logs_bloom (logs inner) |}.
End Constructors.

(** alloy's codec of a receipt with its bloom. *)
Class WithBloomOps (Log : Type) := {
  wb_length : ReceiptWithBloom Log → Z;
  wb_encode : ReceiptWithBloom Log → bytes;
  wb_decode : bytes → result (ReceiptWithBloom Log * bytes) rlp_error;
}.

(** It is the list of the receipt's fields with the bloom. *)
Class WithBloomLaws (AL SA SG Log : Type) `{AlloyRlp AL SA SG, AlloyReceipt Log, !WithBloomOps Log} := {
  wb_length_spec r : wb_length r = length_with_payload
    {| hdr_list := true; payload_length := fields_length_with_bloom (wb_receipt r) (wb_logs_bloom r) |};
  wb_encode_spec r : wb_encode r =
    header_encode {| hdr_list := true;
      payload_length := fields_length_with_bloom (wb_receipt r) (wb_logs_bloom r) |}
    ++ encode_fields_with_bloom (wb_receipt r) (wb_logs_bloom r);
  wb_decode_spec buf : wb_decode buf =
    (let? '((r, bloom), buf) := decode_with_bloom buf in
     Ok ({| wb_receipt := r; wb_logs_bloom := bloom |}, buf));
}.

Section EnvelopeCodec.
Context {AL SA SG Log : Type} `{AlloyRlp AL SA SG, WithBloomOps Log}.
Implicit Types e : MorphReceiptEnvelope Log.

Definition inner_length e : Z := wb_length (env_with_bloom e).

Definition rlp_payload_length e : Z :=
  let length := inner_length e in
  match e with ELegacy _ => length | _ => length + 1 end.

(** [length_of_length] is the length of a header. *)
Definition env_length e : Z :=
  let payload := rlp_payload_length e in
  if negb (env_is_legacy e) then
    payload + header_length {| hdr_list := false; payload_length := payload |}
  else payload.

Definition env_encode_2718_len e : Z := inner_length e + (if negb (env_is_legacy e) then 1 else 0).

Definition env_encode_2718 e : bytes :=
  match env_type_flag e with Some ty => [ty] | None => [] end ++ wb_encode (env_with_bloom e).

Definition env_typed_decode (ty : Z) (buf : bytes)
  : result (MorphReceiptEnvelope Log * bytes) TxL1Msg.Eip2718Error :=
  let? tx_type := ok_or (type_try_from ty) (TxL1Msg.UnexpectedType ty) in
  match tx_type with
  | TLegacy => Err (TxL1Msg.RlpError (Custom "type-0 eip2718 receipts are not supported"%string))
  | _ =>
      let? '(r, buf) := map_err TxL1Msg.RlpError (wb_decode buf) in
      Ok (env_of_type tx_type r, buf)
  end.

Definition env_fallback_decode (buf : bytes)
  : result (MorphReceiptEnvelope Log * bytes) TxL1Msg.Eip2718Error :=
  let? '(r, buf) := map_err TxL1Msg.RlpError (wb_decode buf) in
  Ok (ELegacy r, buf).
End EnvelopeCodec.

(** ** The conversion *)

Definition morph_tx_type_from_u8 (tx_type : Z) : MorphTxType :=
  if tx_type =? 0 then TLegacy
  else if tx_type =? 1 then TEip2930
  else if tx_type =? 2 then TEip1559
  else if tx_type =? 4 then TEip7702
  else if tx_type =? TxL1Msg.L1_TX_TYPE_ID then TL1Msg
  else if tx_type =? TxMorph.MORPH_TX_TYPE_ID then TMorph
  else TLegacy.

Record MorphTxReceiptFields := {
  rf_l1_fee : Z;
  rf_version : option Z;
  rf_fee_token_id : option Z;
  rf_fee_rate : option Z;
  rf_token_scale : option Z;
  rf_fee_limit : option Z;
  rf_reference : option bytes;
  rf_memo : option bytes;
}.

Definition morph_tx_receipt_fields {Log} (receipt : MorphReceipt Log) : MorphTxReceiptFields :=
  match receipt with
  | RLegacy r | REip2930 r | REip1559 r | REip7702 r | RMorph r => {|
      rf_l1_fee := l1_fee r; rf_version := Some (default 0 (Receipts.version r));
      rf_fee_token_id := Receipts.fee_token_id r; rf_fee_rate := fee_rate r;
      rf_token_scale := token_scale r; rf_fee_limit := Receipts.fee_limit r;
      rf_reference := Receipts.reference r; rf_memo := Receipts.memo r |}
  | RL1Msg _ => {|
      rf_l1_fee := 0; rf_version := Some 0; rf_fee_token_id := None; rf_fee_rate := None;
      rf_token_scale := None; rf_fee_limit := None; rf_reference := None; rf_memo := None |}
  end.

(** [MorphRpcReceipt]; the inner response is reth's. *)
Record MorphRpcReceipt (Response : Type) := {
  rr_inner : Response;
  rr_l1_fee : Z;
  rr_version : option Z;
  rr_fee_token_id : option Z;
  rr_fee_rate : option Z;
  rr_token_scale : option Z;
  rr_fee_limit : option Z;
  rr_reference : option bytes;
  rr_memo : option bytes;
}.
Arguments rr_inner {Response}.
Arguments rr_l1_fee {Response}.
Arguments rr_version {Response}.
Arguments rr_fee_token_id {Response}.
Arguments rr_fee_rate {Response}.
Arguments rr_token_scale {Response}.
Arguments rr_fee_limit {Response}.
Arguments rr_reference {Response}.
Arguments rr_memo {Response}.

(** reth's input of a conversion: the receipt, the transaction, and what the response
    needs besides. *)
Record ConvertReceiptInput (Tx Log Meta : Type) := {
  in_receipt : MorphReceipt Log;
  in_tx : Tx;
  in_gas_used : Z;
  in_next_log_index : Z;
  in_meta : Meta;
}.
Arguments in_receipt {Tx Log Meta}.
Arguments in_tx {Tx Log Meta}.
Arguments in_gas_used {Tx Log Meta}.
Arguments in_next_log_index {Tx Log Meta}.
Arguments in_meta {Tx Log Meta}.

(** reth's side: the RPC form of logs, their bloom, and the response around a receipt. *)
Class RpcConvertOps (Tx Log RpcLog Meta Response : Type) := {
  collect_for_receipt : Z → Meta → list Log → list RpcLog;
  rpc_logs_bloom : list RpcLog → Z;
  reth_build_receipt : ConvertReceiptInput Tx Log Meta →
    (MorphReceipt Log → Z → Meta → MorphReceiptEnvelope RpcLog) → Response;
  (** what a response and an RPC log hold *)
  response_inner : Response → MorphReceiptEnvelope RpcLog;
  log_inner : RpcLog → Log;
  log_index : RpcLog → Z;
}.

Class RpcConvertLaws (Tx Log RpcLog Meta Response : Type) (logs_bloom : list Log → Z)
    `{!RpcConvertOps Tx Log RpcLog Meta Response} := {
  (** the logs are kept and numbered from the given index on *)
  collect_inner n meta ls : map log_inner (collect_for_receipt n meta ls) = ls;
  collect_index n meta ls : map log_index (collect_for_receipt n meta ls)
    = map (λ i, n + Z.of_nat i) (seq 0 (length ls));
  rpc_bloom ls : rpc_logs_bloom ls = logs_bloom (map log_inner ls);
  response_holds input f : response_inner (reth_build_receipt input f)
    = f (in_receipt input) (in_next_log_index input) (in_meta input);
}.

Section Convert.
Context {ETH AL SA SG Log RpcLog Meta Response : Type}.
Abbreviation envelope := (MorphTxEnvelope ETH AL SA SG).
Context `{!RpcConvertOps envelope Log RpcLog Meta Response}.
Implicit Types input : ConvertReceiptInput envelope Log Meta.

Definition map_logs (next_log_index : Z) (meta : Meta) (receipt : Receipt Log) : Receipt RpcLog := {|
  status := status receipt; cumulative_gas_used := cumulative_gas_used receipt;
  logs := collect_for_receipt next_log_index meta (logs receipt) |}.

(** [into_with_bloom]. *)
Definition into_with_bloom (r : Receipt RpcLog) : ReceiptWithBloom RpcLog :=
  {| wb_receipt := r; wb_logs_bloom := rpc_logs_bloom (logs r) |}.

(** [MorphReceiptBuilder::new] and [build]. *)
Definition builder_new input : MorphRpcReceipt Response :=
  let tx_receipt_fields := morph_tx_receipt_fields (in_receipt input) in
  let tx_type := morph_tx_type_from_u8 (tx_type_byte (tx_type (in_tx input))) in
  let core_receipt := reth_build_receipt input (λ receipt next_log_index meta,
    let receipt :=
      into_with_bloom
        match receipt with
        | RLegacy r | REip2930 r | REip1559 r | REip7702 r | RMorph r => map_logs next_log_index meta (inner r)
        | RL1Msg r => map_logs next_log_index meta r
        end in
    env_of_type tx_type receipt) in
  {| rr_inner := core_receipt; rr_l1_fee := rf_l1_fee tx_receipt_fields;
     rr_version := rf_version tx_receipt_fields; rr_fee_token_id := rf_fee_token_id tx_receipt_fields;
     rr_fee_rate := rf_fee_rate tx_receipt_fields; rr_token_scale := rf_token_scale tx_receipt_fields;
     rr_fee_limit := rf_fee_limit tx_receipt_fields; rr_reference := rf_reference tx_receipt_fields;
     rr_memo := rf_memo tx_receipt_fields |}.

Definition convert_log {Err} (log : RpcLog) : result RpcLog Err := Ok log.

Definition convert_receipts {Err} (inputs : list (ConvertReceiptInput envelope Log Meta))
  : result (list (MorphRpcReceipt Response)) Err := Ok (map builder_new inputs).
End Convert.

(** ** The envelope's encoding *)

Section EnvelopeTheorems.
Context {AL SA SG Log : Type} `{AlloyRlpLaws AL SA SG}.
Context `{!AlloyReceipt Log, !AlloyReceiptLaws AL SA SG Log, !WithBloomOps Log, !WithBloomLaws AL SA SG Log}.
Implicit Types e : MorphReceiptEnvelope Log.

Lemma env_of_type_parts {T} t (r : ReceiptWithBloom T) :
  env_tx_type (env_of_type t r) = t ∧ env_with_bloom (env_of_type t r) = r.
Proof using. by destruct t. Qed.

Lemma env_eta {T} (e : MorphReceiptEnvelope T) : env_of_type (env_tx_type e) (env_with_bloom e) = e.
Proof using. by destruct e. Qed.

(** The envelope of a receipt has the receipt's consensus encoding. *)
Lemma env_consensus_encoding logs_bloom (r : MorphReceipt Log) :
  env_encode_2718 (env_from_receipt logs_bloom r) = eip2718_encode_with_bloom r (receipt_bloom logs_bloom r).
Proof using All.
  unfold env_encode_2718, eip2718_encode_with_bloom. destruct r; cbn; by rewrite wb_encode_spec.
Qed.

(** EIP-2718 round trip of the envelope: the typed decoder, after the type byte, or the
    legacy decoder reads back what was written, which is as long as announced. *)
Theorem envelope_2718_round_trip e (rest : bytes) :
  receipt_ok (env_as_receipt e) → 0 ≤ env_logs_bloom e < BLOOM_BOUND →
  len (encode_fields_with_bloom (env_as_receipt e) (env_logs_bloom e)) ≤ u64_max →
  env_encode_2718_len e = len (env_encode_2718 e)
  ∧ match env_type_flag e with
    | Some ty => ∃ body, env_encode_2718 e = ty :: body ∧ env_typed_decode ty (body ++ rest) = Ok (e, rest)
    | None => env_fallback_decode (env_encode_2718 e ++ rest) = Ok (e, rest)
    end.
Proof using All.
  intros Hok Hbloom Hlen. unfold env_as_receipt, env_logs_bloom in *.
  assert (Hdec : wb_decode (wb_encode (env_with_bloom e) ++ rest) = Ok (env_with_bloom e, rest)).
  { rewrite wb_decode_spec, wb_encode_spec, <- app_assoc, fields_length_exact by done.
    rewrite decode_with_bloom_encode by done. cbn. by destruct (env_with_bloom e). }
  assert (Hl : wb_length (env_with_bloom e) = len (wb_encode (env_with_bloom e))).
  { rewrite wb_length_spec, wb_encode_spec, len_app. unfold length_with_payload. cbn.
    rewrite fields_length_exact by done. rewrite header_length_exact; [done|].
    split; [apply len_nonneg|done]. }
  unfold env_encode_2718_len, env_encode_2718, inner_length, env_fallback_decode, env_is_legacy. rewrite Hl.
  destruct e as [x|x|x|x|x|x]; cbn [env_type_flag env_with_bloom app env_ty env_tx_type] in *;
    (split; [rewrite ?len_cons; cbn; lia|]).
  1: by rewrite Hdec.
  all: eexists; (split; [done|]); unfold env_typed_decode; rewrite type_try_from_byte; cbn [ok_or result_bind];
    by rewrite Hdec.
Qed.
End EnvelopeTheorems.

(** ** What clients get *)

Lemma tx_type_round_trip t : morph_tx_type_from_u8 (tx_type_byte t) = t.
Proof. by destruct t. Qed.

Section ConvertTheorems.
Context {ETH AL SA SG Log RpcLog Meta Response : Type} `{AlloyRlpLaws AL SA SG}.
Context `{!AlloyReceipt Log, !AlloyReceiptLaws AL SA SG Log, !WithBloomOps Log, !WithBloomLaws AL SA SG Log}.
Abbreviation envelope := (MorphTxEnvelope ETH AL SA SG).
Context (logs_bloom : list Log → Z).
Context `{!RpcConvertOps envelope Log RpcLog Meta Response}.
Context `{!RpcConvertLaws envelope Log RpcLog Meta Response logs_bloom}.
Context (to_c : CompactMorphReceipt Log → bytes) (from_c : bytes → Z → CompactMorphReceipt Log * bytes).
Context (ordered_trie_root : list bytes → Z).
Abbreviation ctx := (MorphReceiptBuilderCtx ETH AL SA SG Log).
Implicit Types (c : ctx) (input : ConvertReceiptInput envelope Log Meta) (o : MorphRpcReceipt Response).

(** A served envelope with the chain's logs in place of their RPC form. *)
Definition primitive (e : MorphReceiptEnvelope RpcLog) : MorphReceiptEnvelope Log :=
  env_of_type (env_tx_type e) {|
    wb_receipt := {| status := status (env_as_receipt e);
                     cumulative_gas_used := cumulative_gas_used (env_as_receipt e);
                     logs := map log_inner (env_logs e) |};
    wb_logs_bloom := env_logs_bloom e |}.

(** The receipt of a transaction as the node reads it back from its database. *)
Definition stored (r : MorphReceipt Log) : MorphReceipt Log :=
  (receipt_from_compact from_c (receipt_to_compact to_c r) (len (receipt_to_compact to_c r))).1.

(** The MorphTx fields that a response shows: those that execution recorded, and for any
    other transaction version 0 and nothing else. *)
Definition morph_fields_shown c o : Prop :=
  match (if is_morph_tx (ctx_tx c) then ctx_morph_tx_fields c else None) with
  | Some f =>
      rr_version o = Some (f_version f) ∧ rr_fee_token_id o = Some (f_fee_token_id f)
      ∧ rr_fee_rate o = f_fee_rate f ∧ rr_token_scale o = f_token_scale f
      ∧ rr_fee_limit o = Some (f_fee_limit f) ∧ rr_reference o = f_reference f ∧ rr_memo o = f_memo f
  | None =>
      rr_version o = Some 0 ∧ rr_fee_token_id o = None ∧ rr_fee_rate o = None ∧ rr_token_scale o = None
      ∧ rr_fee_limit o = None ∧ rr_reference o = None ∧ rr_memo o = None
  end.

(** A response for the transaction that was executed in [c]. *)
Record served c input o : Prop := {
  sv_type : env_ty (response_inner (rr_inner o)) = tx_type_byte (tx_type (ctx_tx c));
  sv_status : env_status (response_inner (rr_inner o)) = is_success (ctx_result c);
  sv_gas : env_cumulative_gas_used (response_inner (rr_inner o)) = ctx_cumulative_gas_used c;
  sv_logs : map log_inner (env_logs (response_inner (rr_inner o)))
    = ctx_pre_fee_logs c ++ into_logs (ctx_result c) ++ ctx_post_fee_logs c;
  sv_index : map log_index (env_logs (response_inner (rr_inner o)))
    = map (λ i, in_next_log_index input + Z.of_nat i)
        (seq 0 (length (env_logs (response_inner (rr_inner o)))));
  sv_l1_fee : rr_l1_fee o = if is_l1_msg (ctx_tx c) then 0 else ctx_l1_fee c;
  sv_fields : morph_fields_shown c o;
}.

Lemma stored_id r : (∀ x buf, from_c (to_c x ++ buf) (len (to_c x)) = (x, buf)) →
  fields_ok r → (∃ b, status (as_receipt r) = Eip658 b) → stored r = r.
Proof using.
  intros Hrt Hok [b Hb]. unfold stored, receipt_from_compact, receipt_to_compact.
  rewrite <- (app_nil_r (to_c (compact_of_receipt r))) at 1. rewrite Hrt. cbn. by eapply receipt_of_compact_of.
Qed.

Lemma collect_length n meta ls : length (collect_for_receipt n meta ls) = length ls.
Proof using All.
  pose proof (f_equal length (collect_inner n meta ls)) as Hl. by rewrite length_map in Hl.
Qed.

(** The envelope of a response, for a receipt of the transaction's type. *)
Lemma builder_envelope input : receipt_type (in_receipt input) = tx_type (in_tx input) →
  response_inner (rr_inner (builder_new input))
  = env_of_type (tx_type (in_tx input))
      (into_with_bloom (map_logs (in_next_log_index input) (in_meta input) (as_receipt (in_receipt input)))).
Proof using All.
  intros Ht. unfold builder_new. cbn [rr_inner]. rewrite response_holds, tx_type_round_trip.
  by destruct (in_receipt input).
Qed.

Lemma builder_primitive input : receipt_type (in_receipt input) = tx_type (in_tx input) →
  primitive (response_inner (rr_inner (builder_new input))) = env_from_receipt logs_bloom (in_receipt input).
Proof using All.
  intros Ht. rewrite builder_envelope by done. unfold primitive.
  destruct (env_of_type_parts (tx_type (in_tx input)) (into_with_bloom (map_logs (in_next_log_index input)
    (in_meta input) (as_receipt (in_receipt input))))) as [-> Hb].
  unfold env_as_receipt, env_logs, env_logs_bloom, env_as_receipt. rewrite Hb. cbn.
  rewrite rpc_bloom, collect_inner, <- Ht. by destruct (in_receipt input) as [[[]]|[[]]|[[]]|[[]]|[]|[[]]].
Qed.

Lemma builder_served c input : in_receipt input = build_receipt c → in_tx input = ctx_tx c →
  served c input (builder_new input).
Proof using All.
  intros Hr Htx. destruct (build_receipt_type c) as [Ht _].
  pose proof (BlockExecutor.build_receipt_inner c) as [Hin Hfee].
  assert (Hty : receipt_type (in_receipt input) = tx_type (in_tx input)) by by rewrite Hr, Htx.
  pose proof (builder_envelope input Hty) as He.
  destruct (env_of_type_parts (tx_type (in_tx input)) (into_with_bloom (map_logs (in_next_log_index input)
    (in_meta input) (as_receipt (in_receipt input))))) as [Hp1 Hp2]. rewrite <- He in Hp1, Hp2.
  split; unfold env_ty, env_status, env_cumulative_gas_used, env_logs, env_as_receipt;
    rewrite ?Hp1, ?Hp2, ?Htx; cbn [wb_receipt into_with_bloom map_logs status cumulative_gas_used logs].
  - done.
  - by rewrite Hr, Hin.
  - by rewrite Hr, Hin.
  - by rewrite collect_inner, Hr, Hin.
  - by rewrite collect_index, collect_length.
  - rewrite <- Hfee. cbn. rewrite Hr. by destruct (build_receipt c).
  - unfold morph_fields_shown, builder_new, is_morph_tx. cbn. rewrite Hr. unfold build_receipt.
    destruct (tx_type (ctx_tx c)); cbn; try by split_and!. destruct (ctx_morph_tx_fields c); by split_and!.
Qed.

(** C33. Receipts reach clients as execution built them.  Take the receipts of executed
    transactions, written to the database and read back, and convert them for RPC: the
    conversion does not fail, and each response has the transaction's type, the status,
    the cumulative gas and the logs of the execution with consecutive indices, the L1 fee
    it charged (zero for an L1 message), and exactly the MorphTx fields recorded (version 0
    and nothing else for another transaction).  The responses determine the receipts root:
    encoding the envelopes with their plain logs gives the root that consensus computes
    from the receipts.  Assumes that the derived database codec round-trips and that the
    recorded version and token id have their widths. *)
Theorem served_receipts_faithful {Err} (cs : list ctx) (inputs : list (ConvertReceiptInput envelope Log Meta)) :
  (∀ x buf, from_c (to_c x ++ buf) (len (to_c x)) = (x, buf)) →
  Forall (λ c, fields_ok (build_receipt c)) cs →
  Forall2 (λ c input, in_receipt input = stored (build_receipt c) ∧ in_tx input = ctx_tx c) cs inputs →
  ∃ out, convert_receipts (Err := Err) inputs = Ok out ∧ length out = length cs
    ∧ (∀ i c input o, cs !! i = Some c → inputs !! i = Some input → out !! i = Some o → served c input o)
    ∧ ordered_trie_root (map (λ o, env_encode_2718 (primitive (response_inner (rr_inner o)))) out)
      = calculate_receipt_root_no_memo logs_bloom ordered_trie_root (map build_receipt cs).
Proof using All.
  intros Hrt Hok Hin. exists (map builder_new inputs). split; [done|].
  assert (Hin' : Forall2 (λ c input, in_receipt input = build_receipt c ∧ in_tx input = ctx_tx c) cs inputs).
  { clear -Hrt Hok Hin. induction Hin as [|c input cs inputs [Hr Htx] _ IH]; [constructor|].
    apply Forall_cons in Hok as [Hc Hok]. constructor; [|by apply IH]. split; [|done]. rewrite Hr. apply stored_id; [done..|].
    destruct (BlockExecutor.build_receipt_inner c) as [-> _]. by eexists. }
  split_and!.
  - rewrite length_map. symmetry. by eapply Forall2_length.
  - intros i c input o Hc Hi Ho. rewrite list_lookup_fmap, Hi in Ho. injection Ho as <-.
    destruct (Forall2_lookup_lr _ _ _ _ _ _ Hin' Hc Hi) as [Hr Htx]. by apply builder_served.
  - unfold calculate_receipt_root_no_memo. f_equal. rewrite !map_map.
    induction Hin' as [|c input cs' inputs' [Hr Htx] Hrest IH]; [done|]. cbn [map].
    apply Forall_cons in Hok as [_ Hok]. apply Forall2_cons in Hin as [_ Hin]. f_equal; [|by apply IH].
    rewrite builder_primitive, env_consensus_encoding by (rewrite Hr, Htx; apply build_receipt_type).
    by rewrite Hr.
Qed.
End ConvertTheorems.

(** ** Executable instances and a witness *)

Module RpcSamples.
(** A log is a byte, as in [ReceiptSamples]; its RPC form adds the index. *)
#[export] Instance sample_with_bloom : WithBloomOps Z := {|
  wb_length r := Receipts.length_with_payload (H := Standard.ops) {| hdr_list := true;
    payload_length := len (ReceiptSamples.encode_fields (wb_receipt r) (wb_logs_bloom r)) |};
  wb_encode r := Standard.header_bytes {| hdr_list := true;
      payload_length := len (ReceiptSamples.encode_fields (wb_receipt r) (wb_logs_bloom r)) |}
    ++ ReceiptSamples.encode_fields (wb_receipt r) (wb_logs_bloom r);
  wb_decode buf :=
    let? '((r, bloom), buf) := decode_with_bloom (AlloyReceipt := ReceiptSamples.sample_receipt) buf in
    Ok ({| wb_receipt := r; wb_logs_bloom := bloom |}, buf);
|}.

#[export] Instance sample_with_bloom_laws :
  @WithBloomLaws (list bytes) bytes Standard.Signature Z Standard.ops ReceiptSamples.sample_receipt sample_with_bloom.
Proof. by split. Qed.

Abbreviation envelope := (MorphTxEnvelope Z (list bytes) bytes Standard.Signature).

Definition sum_bloom (ls : list Z) : Z := foldr Z.add 0 ls.

#[export] Instance sample_convert : RpcConvertOps envelope Z (Z * Z) unit (MorphReceiptEnvelope (Z * Z)) := {|
  collect_for_receipt n _ ls := imap (λ i l, (l, n + Z.of_nat i)) ls;
  rpc_logs_bloom ls := sum_bloom (map fst ls);
  reth_build_receipt input f := f (in_receipt input) (in_next_log_index input) (in_meta input);
  response_inner e := e; log_inner := fst; log_index := snd;
|}.

#[export] Instance sample_convert_laws :
  RpcConvertLaws envelope Z (Z * Z) unit (MorphReceiptEnvelope (Z * Z)) sum_bloom.
Proof.
  split; [..|done|done]; intros n meta ls; cbn.
  - apply list_eq. intros i. rewrite list_lookup_fmap, list_lookup_imap. by destruct (ls !! i).
  - apply list_eq. intros i. rewrite !list_lookup_fmap, list_lookup_imap. destruct (ls !! i) as [l|] eqn:Hl; cbn.
    + apply lookup_lt_Some in Hl. rewrite lookup_seq_lt by done. done.
    + apply lookup_ge_None in Hl. by rewrite lookup_seq_ge.
Qed.

(** An L1 message and a MorphTx that paid in token 3. *)
Definition l1_ctx : MorphReceiptBuilderCtx Z (list bytes) bytes Standard.Signature Z := {|
  ctx_tx := L1Msg TxL1Msg.sample_msg;
  ctx_result := {| is_success := false; into_logs := []; tx_gas_used := 21000 |};
  ctx_cumulative_gas_used := 21000; ctx_l1_fee := 7; ctx_morph_tx_fields := None;
  ctx_pre_fee_logs := []; ctx_post_fee_logs := [] |}.

Definition morph_ctx : MorphReceiptBuilderCtx Z (list bytes) bytes Standard.Signature Z := {|
  ctx_tx := Morph {| tx := TxMorph.sample_v1; signature := TxMorph.sample_signature |};
  ctx_result := {| is_success := true; into_logs := [9]; tx_gas_used := 30000 |};
  ctx_cumulative_gas_used := 51000; ctx_l1_fee := 5;
  ctx_morph_tx_fields := Some {| f_version := 1; f_fee_token_id := 3; f_fee_rate := Some 10;
    f_token_scale := Some 1000; f_fee_limit := 0; f_reference := None; f_memo := Some [1] |};
  ctx_pre_fee_logs := [7]; ctx_post_fee_logs := [200] |}.

Definition sample_input (n : Z) (c : MorphReceiptBuilderCtx Z (list bytes) bytes Standard.Signature Z)
  : ConvertReceiptInput envelope Z unit := {|
  in_receipt := stored ReceiptSamples.to_c ReceiptSamples.from_c (build_receipt c);
  in_tx := ctx_tx c; in_gas_used := 0; in_next_log_index := n; in_meta := tt |}.

Definition sample_root (items : list bytes) : Z := len (concat items).

(** What the MorphTx's sender sees. *)
Lemma sample_response :
  let o := builder_new (sample_input 4 morph_ctx) in
  rr_fee_token_id o = Some 3 ∧ rr_version o = Some 1 ∧ rr_l1_fee o = 5
  ∧ env_logs (rr_inner o) = [(7, 4); (9, 5); (200, 6)] ∧ env_ty (rr_inner o) = 0x7f.
Proof. by vm_compute. Qed.
End RpcSamples.

Import RpcSamples.

Lemma served_receipts_faithful_witness :
  ∃ out, convert_receipts (Err := string) [sample_input 0 l1_ctx; sample_input 0 morph_ctx] = Ok out
    ∧ length out = 2%nat
    ∧ sample_root (map (λ o, env_encode_2718 (primitive (response_inner (rr_inner o)))) out)
      = @calculate_receipt_root_no_memo _ _ _ _ Standard.ops ReceiptSamples.sample_receipt sum_bloom sample_root
          (map build_receipt [l1_ctx; morph_ctx]).
Proof.
  simple refine (let H := @served_receipts_faithful _ _ _ _ _ _ _ _ Standard.ops Standard.laws
    ReceiptSamples.sample_receipt ReceiptSamples.sample_receipt_laws _ _ sum_bloom _ _
    ReceiptSamples.to_c ReceiptSamples.from_c sample_root string [l1_ctx; morph_ctx]
    [sample_input 0 l1_ctx; sample_input 0 morph_ctx] _ _ _ in _).
  - exact ReceiptSamples.from_to.
  - apply Forall_cons. split; [exact I|]. apply Forall_cons. split; [|exact (Forall_nil_2 _)].
    split; intros v [= <-]; split; vm_compute; discriminate.
  - repeat constructor.
  - destruct H as (out & Hout & Hlen & _ & Hroot). exists out. split; [exact Hout|]. split; [exact Hlen|exact Hroot].
Defined.
