(* ===== verification/TrieCursors.v ===== *)
(** * Cursor factories for trie computations

    Models [crates/proofs/src/cursor_factory.rs, cursor.rs] and the cursors of
    [db/cursor.rs] as reth's trie code sees them: the traits [TrieCursorFactory] and
    [HashedCursorFactory] with their cursors, implemented over a read transaction
    ([MorphProofsTrieCursorFactory]) and over a write session
    ([MorphProofsBatchTrieCursorFactory]).

    A trie computation of reth is code that is generic over the factories.  Here it is
    a tree of [reads]: what it opens and asks, and how it goes on with each answer.
    [run] executes it over any [Factories].  [listing] is the reference factory, over
    the sorted entries of a state; it answers only what the contract of the cursor
    traits covers: after the end of an iteration, a missed exact search, [reset] or
    [set_hashed_address] a cursor has to be positioned by a search.  The theorem is that
    what a computation gets over the store at a block is what it gets over the listing
    of the block's state. *)

From S2P Require Import Prelude.
From S2P Require Import Versioned.
From S2P Require Import HistoryWrites.
From S2P Require Import ProofsStore.
From S2P Require Import StoreRefinement.
#[local] Open Scope Z_scope.

(** ** The cursor traits *)

Inductive CursorKind := AccountTrieKind | StorageTrieKind | AccountKind | StorageKind.

(** [TrieCursor], [HashedCursor], and the traits of cursors bound to an address. *)
Variant trie_request := TrieSeekExact (p : path) | TrieSeek (p : path) | TrieNext | TrieCurrent | TrieReset.
Variant hashed_request := HashedSeek (k : B256) | HashedNext | HashedReset.
Variant storage_trie_request := OnTrie (r : trie_request) | TrieSetAddress (a : B256).
Variant storage_request := OnStorage (r : hashed_request) | IsStorageEmpty | StorageSetAddress (a : B256).

Definition request (κ : CursorKind) : Type :=
  match κ with
  | AccountTrieKind => trie_request
  | StorageTrieKind => storage_trie_request
  | AccountKind => hashed_request
  | StorageKind => storage_request
  end.

(** What a cursor of a kind is opened with. *)
Definition address (κ : CursorKind) : Type :=
  match κ with StorageTrieKind | StorageKind => B256 | AccountTrieKind | AccountKind => unit end.

Section Traits.
Context {Node Account : Type}.

Definition trie_answer (r : trie_request) : Type :=
  match r with
  | TrieSeekExact _ | TrieSeek _ | TrieNext => option (path * Node)
  | TrieCurrent => option path
  | TrieReset => unit
  end.

Definition hashed_answer (V : Type) (r : hashed_request) : Type :=
  match r with HashedSeek _ | HashedNext => option (B256 * V) | HashedReset => unit end.

Definition answer (κ : CursorKind) : request κ → Type :=
  match κ with
  | AccountTrieKind => trie_answer
  | StorageTrieKind => λ r, match r with OnTrie r => trie_answer r | TrieSetAddress _ => unit end
  | AccountKind => hashed_answer Account
  | StorageKind => λ r, match r with
                        | OnStorage r => hashed_answer Z r
                        | IsStorageEmpty => bool
                        | StorageSetAddress _ => unit
                        end
  end.

(** [TrieCursorFactory] and [HashedCursorFactory]; [E] is reth's [DatabaseError].  A
    cursor's loop returns [None] when its fuel runs out. *)
Record Factories (E : Type) := {
  Cur : CursorKind → Type;
  open_cur (κ : CursorKind) : address κ → result (Cur κ) E;
  ask (κ : CursorKind) (r : request κ) : Cur κ → option (result (Cur κ * answer κ r) E);
}.
Arguments Cur {E}.
Arguments open_cur {E}.
Arguments ask {E}.

(** ** Computations over the traits *)

(** A computation names a cursor by its kind and by its number among the cursors of the
    kind that it opened; an error of the database ends it. *)
Inductive reads (A : Type) : Type :=
| Done (a : A)
| Open (κ : CursorKind) (a : address κ) (k : reads A)
| Ask (κ : CursorKind) (h : nat) (r : request κ) (k : answer κ r → reads A).
Arguments Done {A}.
Arguments Open {A}.
Arguments Ask {A}.

Section Run.
Context {E : Type} (F : Factories E).

(** The open cursors. *)
Record pools := {
  account_tries : list (Cur F AccountTrieKind);
  storage_tries_open : list (Cur F StorageTrieKind);
  accounts_open : list (Cur F AccountKind);
  storages_open : list (Cur F StorageKind);
}.
Definition no_cursors : pools := Build_pools [] [] [] [].
Definition pool (κ : CursorKind) (p : pools) : list (Cur F κ) :=
  match κ with
  | AccountTrieKind => account_tries p
  | StorageTrieKind => storage_tries_open p
  | AccountKind => accounts_open p
  | StorageKind => storages_open p
  end.
Definition set_pool (κ : CursorKind) : list (Cur F κ) → pools → pools :=
  match κ with
  | AccountTrieKind => λ l p, Build_pools l (storage_tries_open p) (accounts_open p) (storages_open p)
  | StorageTrieKind => λ l p, Build_pools (account_tries p) l (accounts_open p) (storages_open p)
  | AccountKind => λ l p, Build_pools (account_tries p) (storage_tries_open p) l (storages_open p)
  | StorageKind => λ l p, Build_pools (account_tries p) (storage_tries_open p) (accounts_open p) l
  end.

Fixpoint run_from {A} (m : reads A) (p : pools) : option (result A E) :=
  match m with
  | Done a => Some (Ok a)
  | Open κ a k =>
      let! c := Some (open_cur F κ a) in
      run_from k (set_pool κ (pool κ p ++ [c]) p)
  | Ask κ h r k =>
      match pool κ p !! h with
      | None => None
      | Some c =>
          let! '(c, x) := ask F κ r c in
          run_from (k x) (set_pool κ (<[h := c]> (pool κ p)) p)
      end
  end.

Definition run {A} (m : reads A) : option (result A E) := run_from m no_cursors.
End Run.

(** ** The reference: sorted listings of a state *)

(** The entries of the four tables at a block. *)
Record Listing := {
  li_account_nodes : list (path * Node);
  li_storage_nodes : B256 → list (path * Node);
  li_accounts : list (B256 * Account);
  li_slots : B256 → list (B256 * Z);
}.

(** A listing of a state: its entries, in increasing key order. *)
Definition lists {K V} `{KeyOrd K} (l : list (K * V)) (f : K → option V) : Prop :=
  btree l ∧ ∀ k v, (k, v) ∈ l ↔ f k = Some v.
Record listing_of (li : Listing) (s : State Node Account) : Prop := {
  lo_account_nodes : lists (li_account_nodes li) (v_account_nodes s);
  lo_storage_nodes a : lists (li_storage_nodes li a) (λ p, v_storage_nodes s (a, p));
  lo_accounts : lists (li_accounts li) (v_accounts s);
  lo_slots a : lists (li_slots li a) (λ k, v_slots s (a, k));
}.

(** Where a cursor is: not yet positioned, on a key, or to be positioned by a search. *)
Inductive spot (K : Type) := Fresh | At (k : K) | Adrift.
Arguments Fresh {K}.
Arguments At {K}.
Arguments Adrift {K}.

Section Walk.
Context {K V : Type} `{KeyOrd K}.
Definition land (o : option (K * V)) : spot K * option (K * V) :=
  (match o with Some (k, _) => At k | None => Adrift end, o).
Definition seek_in (l : list (K * V)) (k : K) : option (K * V) :=
  head (List.filter (λ e, negb (bool_decide (key_lt e.1 k))) l).
Definition exact_in (l : list (K * V)) (k : K) : option (K * V) :=
  head (List.filter (λ e, bool_decide (e.1 = k)) l).
Definition next_in (l : list (K * V)) (s : spot K) : option (spot K * option (K * V)) :=
  match s with
  | Fresh => Some (land (head l))
  | At k => Some (land (head (List.filter (λ e, bool_decide (key_lt k e.1)) l)))
  | Adrift => None
  end.
Definition current_in (s : spot K) : option (spot K * option K) :=
  match s with Fresh => Some (s, None) | At k => Some (s, Some k) | Adrift => None end.
End Walk.

Definition trie_in (l : list (path * Node)) (r : trie_request) (s : spot path) : option (spot path * trie_answer r) :=
  match r with
  | TrieSeekExact p => Some (land (exact_in l p))
  | TrieSeek p => Some (land (seek_in l p))
  | TrieNext => next_in l s
  | TrieCurrent => current_in s
  | TrieReset => Some (Adrift, tt)
  end.
Definition hashed_in {V} (l : list (B256 * V)) (r : hashed_request) (s : spot B256)
  : option (spot B256 * hashed_answer V r) :=
  match r with
  | HashedSeek k => Some (land (seek_in l k))
  | HashedNext => next_in l s
  | HashedReset => Some (Adrift, tt)
  end.

Definition listing_cursor (κ : CursorKind) : Type :=
  match κ with
  | AccountTrieKind => spot path
  | StorageTrieKind => B256 * spot path
  | AccountKind => spot B256
  | StorageKind => B256 * spot B256
  end.
Definition listing_open (κ : CursorKind) : address κ → listing_cursor κ :=
  match κ with
  | AccountTrieKind => λ _, Fresh
  | StorageTrieKind => λ a, (a, Fresh)
  | AccountKind => λ _, Fresh
  | StorageKind => λ a, (a, Fresh)
  end.
Definition listing_ask (li : Listing) (κ : CursorKind)
  : ∀ r : request κ, listing_cursor κ → option (listing_cursor κ * answer κ r) :=
  match κ with
  | AccountTrieKind => trie_in (li_account_nodes li)
  | StorageTrieKind => λ r '(a, s),
      match r with
      | OnTrie r => '(s, x) ← trie_in (li_storage_nodes li a) r s; Some ((a, s), x)
      | TrieSetAddress a => Some ((a, Adrift), tt)
      end
  | AccountKind => hashed_in (li_accounts li)
  | StorageKind => λ r '(a, s),
      match r with
      | OnStorage r => '(s, x) ← hashed_in (li_slots li a) r s; Some ((a, s), x)
      | IsStorageEmpty => Some ((a, Adrift), bool_decide (seek_in (li_slots li a) 0 = None))
      | StorageSetAddress a => Some ((a, Adrift), tt)
      end
  end.

(** The factories over a listing. *)
Definition listing {E} (li : Listing) : Factories E := {|
  Cur := listing_cursor;
  open_cur κ a := Ok (listing_open κ a);
  ask κ r c := Ok <$> listing_ask li κ r c |}.
End Traits.
Arguments Factories : clear implicits.
Arguments reads : clear implicits.
Arguments Listing : clear implicits.
Arguments Cur {Node Account E}.
Arguments open_cur {Node Account E}.
Arguments ask {Node Account E}.
Arguments Done {Node Account A}.
Arguments Open {Node Account A}.
Arguments Ask {Node Account A}.
Arguments Fresh {K}.
Arguments At {K}.
Arguments Adrift {K}.

(** ** The factories over the store *)

Section StoreFactories.
Context {Tb C Pt : Type → Type → Type} {E Node Account : Type}.
Context `{DupDb Tb C E}.
Abbreviation db := (Db Tb Pt Node Account).
Abbreviation err := (MorphProofsStorageError E).
Abbreviation Factories := (Factories Node Account E).
(** [DatabaseError::Custom], which carries an error of the store. *)
Context (Custom : err → E).
(** The block of the readers, and fuel for their loops. *)
Context (max_block_number : Z) (fuel : nat).

Definition into_database_error (error : err) : E :=
  match error with DatabaseError e => e | _ => Custom error end.

(** [MdbxTrieCursor] of storage tries and [MdbxStorageCursor]. *)
Record MdbxTrieCursor := { mt_inner : C (B256 * path)%type Node; mt_hashed_address : option B256 }.
Record MdbxStorageCursor := { ms_inner : C (B256 * B256)%type Z; ms_hashed_address : B256 }.

Definition account_trie_ask (r : trie_request) (c : C path Node)
  : option (result (C path Node * trie_answer r) E) :=
  match r with
  | TrieSeekExact p => Some (cursor_seek_exact max_block_number p c)
  | TrieSeek p => cursor_seek max_block_number fuel p c
  | TrieNext => cursor_next max_block_number fuel c
  | TrieCurrent => Some (let? o := c_current c in Ok (c, fst <$> o))
  | TrieReset => Some (Ok (c, tt))
  end.

(** A cursor without an address answers nothing. *)
Definition unbound_answer (r : trie_request) : trie_answer (Node := Node) r :=
  match r with
  | TrieSeekExact _ | TrieSeek _ | TrieNext => None
  | TrieCurrent => None
  | TrieReset => tt
  end.

Definition bound_trie_ask (a : B256) (r : trie_request) (c : C (B256 * path)%type Node)
  : option (result (C (B256 * path)%type Node * trie_answer r) E) :=
  match r with
  | TrieSeekExact p => Some (bound_seek_exact max_block_number a p c)
  | TrieSeek p => trie_seek max_block_number a fuel p c
  | TrieNext => trie_next max_block_number a fuel c
  | TrieCurrent => Some (let? o := c_current c in
      Ok (c, o ≫= λ '((a', p), _), if a' =? a then Some p else None))
  | TrieReset => Some (Ok (c, tt))
  end.

Definition storage_trie_ask (r : storage_trie_request) (c : MdbxTrieCursor)
  : option (result (MdbxTrieCursor * answer (Account := Account) StorageTrieKind r) E) :=
  match r with
  | OnTrie r =>
      match mt_hashed_address c with
      | None => Some (Ok (c, unbound_answer r))
      | Some a =>
          let! '(i, x) := bound_trie_ask a r (mt_inner c) in
          Some (Ok (Build_MdbxTrieCursor i (Some a), x))
      end
  | TrieSetAddress a => Some (Ok (Build_MdbxTrieCursor (mt_inner c) (Some a), tt))
  end.

(** [MdbxAccountCursor] *)
Definition account_ask (r : hashed_request) (c : C B256 Account)
  : option (result (C B256 Account * hashed_answer Account r) E) :=
  match r with
  | HashedSeek k => cursor_seek max_block_number fuel k c
  | HashedNext => cursor_next max_block_number fuel c
  | HashedReset => Some (Ok (c, tt))
  end.

Definition bound_slot_ask (a : B256) (r : hashed_request) (c : C (B256 * B256)%type Z)
  : option (result (C (B256 * B256)%type Z * hashed_answer Z r) E) :=
  match r with
  | HashedSeek k => storage_seek max_block_number a fuel k c
  | HashedNext => storage_next max_block_number a fuel c
  | HashedReset => Some (Ok (c, tt))
  end.

Definition storage_ask (r : storage_request) (c : MdbxStorageCursor)
  : option (result (MdbxStorageCursor * answer (Node := Node) (Account := Account) StorageKind r) E) :=
  let a := ms_hashed_address c in
  match r with
  | OnStorage r =>
      let! '(i, x) := bound_slot_ask a r (ms_inner c) in Some (Ok (Build_MdbxStorageCursor i a, x))
  | IsStorageEmpty =>
      let! '(i, x) := is_storage_empty max_block_number a fuel (ms_inner c) in
      Some (Ok (Build_MdbxStorageCursor i a, x))
  | StorageSetAddress a => Some (Ok (Build_MdbxStorageCursor (ms_inner c) a, tt))
  end.

(** *** The store's cursors *)

Definition mdbx_cursor (κ : CursorKind) : Type :=
  match κ with
  | AccountTrieKind => C path Node
  | StorageTrieKind => MdbxTrieCursor
  | AccountKind => C B256 Account
  | StorageKind => MdbxStorageCursor
  end.

Definition mdbx_ask (κ : CursorKind) : ∀ r : request κ, mdbx_cursor κ → option (result (mdbx_cursor κ * answer κ r) E) :=
  match κ with
  | AccountTrieKind => account_trie_ask
  | StorageTrieKind => storage_trie_ask
  | AccountKind => account_ask
  | StorageKind => storage_ask
  end.

(** The readers of the store over a transaction. *)
Definition account_trie_cursor_with_tx (tx : db) : result (C path Node) err :=
  let? c := lift (open_cursor (AccountTrieHistory tx)) in Ok c.
Definition storage_trie_cursor_with_tx (tx : db) (hashed_address : B256) : result MdbxTrieCursor err :=
  let? c := lift (open_cursor (StorageTrieHistory tx)) in Ok (Build_MdbxTrieCursor c (Some hashed_address)).
Definition account_hashed_cursor_with_tx (tx : db) : result (C B256 Account) err :=
  let? c := lift (open_cursor (HashedAccountHistory tx)) in Ok c.
Definition storage_hashed_cursor_with_tx (tx : db) (hashed_address : B256) : result MdbxStorageCursor err :=
  let? c := lift (open_cursor (HashedStorageHistory tx)) in Ok (Build_MdbxStorageCursor c hashed_address).

Definition tx_open (tx : db) (κ : CursorKind) : address κ → result (mdbx_cursor κ) E :=
  match κ with
  | AccountTrieKind => λ _, map_err into_database_error (account_trie_cursor_with_tx tx)
  | StorageTrieKind => λ a, map_err into_database_error (storage_trie_cursor_with_tx tx a)
  | AccountKind => λ _, map_err into_database_error (account_hashed_cursor_with_tx tx)
  | StorageKind => λ a, map_err into_database_error (storage_hashed_cursor_with_tx tx a)
  end.

(** [MorphProofsTrieCursorFactory] and [MorphProofsHashedAccountCursorFactory]. *)
Definition tx_factories (tx : db) : Factories := {|
  Cur := mdbx_cursor; open_cur := tx_open tx; ask := mdbx_ask |}.

(** *** The session's cursors *)

(** [MdbxBatchSession]: its transaction, until it is committed or aborted. *)
Abbreviation session := (option db).
Definition tx_ref (s : session) : result db err := ok_or s BatchSessionClosed.

Definition session_account_trie_cursor (s : session) : result (C path Node) err :=
  let? tx := tx_ref s in let? c := lift (open_cursor (AccountTrieHistory tx)) in Ok c.
Definition session_storage_trie_cursor (s : session) (hashed_address : B256) : result MdbxTrieCursor err :=
  let? tx := tx_ref s in
  let? c := lift (open_cursor (StorageTrieHistory tx)) in Ok (Build_MdbxTrieCursor c (Some hashed_address)).
Definition session_account_hashed_cursor (s : session) : result (C B256 Account) err :=
  let? tx := tx_ref s in let? c := lift (open_cursor (HashedAccountHistory tx)) in Ok c.
Definition session_storage_hashed_cursor (s : session) (hashed_address : B256) : result MdbxStorageCursor err :=
  let? tx := tx_ref s in
  let? c := lift (open_cursor (HashedStorageHistory tx)) in Ok (Build_MdbxStorageCursor c hashed_address).

Definition session_open (s : session) (κ : CursorKind) : address κ → result (mdbx_cursor κ) E :=
  match κ with
  | AccountTrieKind => λ _, map_err into_database_error (session_account_trie_cursor s)
  | StorageTrieKind => λ a, map_err into_database_error (session_storage_trie_cursor s a)
  | AccountKind => λ _, map_err into_database_error (session_account_hashed_cursor s)
  | StorageKind => λ a, map_err into_database_error (session_storage_hashed_cursor s a)
  end.

(** [MorphProofsBatchTrieCursorFactory] and
    [MorphProofsBatchHashedAccountCursorFactory]. *)
Definition session_factories (s : session) : Factories := {|
  Cur := mdbx_cursor; open_cur := session_open s; ask := mdbx_ask |}.
End StoreFactories.

(** ** Computations with equal answers *)

Section Simulation.
Context {Node Account E X : Type} (F : Factories Node Account E) (G : Factories Node Account X).
Context (R : ∀ κ, Cur F κ → Cur G κ → Prop).

(** Cursors that are related give the same answers and stay related, and so do freshly
    opened ones, unless the database fails. *)
Record simulates : Prop := {
  sim_open κ a c' : open_cur G κ a = Ok c' → outcome (open_cur F κ a) (λ c, R κ c c');
  sim_ask κ r c c' d' x : R κ c c' → ask G κ r c' = Some (Ok (d', x)) →
    returns (ask F κ r c) (λ '(d, y), R κ d d' ∧ y = x);
}.

Definition pools_related (p : pools F) (q : pools G) : Prop := ∀ κ, Forall2 (R κ) (pool F κ p) (pool G κ q).

Lemma pools_related_set p q κ l l' : pools_related p q → Forall2 (R κ) l l' →
  pools_related (set_pool F κ l p) (set_pool G κ l' q).
Proof. intros Hp Hl κ'. specialize (Hp κ'). by destruct κ, κ'. Qed.

Lemma run_from_simulated {A} (m : reads Node Account A) (Hs : simulates) : ∀ p q a,
  pools_related p q → run_from G m q = Some (Ok a) → returns (run_from F m p) (λ x, x = a).
Proof.
  induction m as [b|κ a m IH|κ h r k IH]; intros p q v Hp; cbn [run_from].
  - intros [= ->]. by apply returns_Ok.
  - intros Hrun. destruct (open_cur G κ a) as [c'|] eqn:Ho; [|done]. cbn [fbind] in Hrun.
    eapply returns_bind; [by eapply returns_Some, sim_open|]. intros c Hc.
    eapply IH; [|exact Hrun]. apply pools_related_set; [done|]. apply Forall2_app; [apply Hp|by repeat constructor].
  - intros Hrun. destruct (pool G κ q !! h) as [c'|] eqn:Hc'; [|done].
    destruct (Forall2_lookup_r _ _ _ _ _ (Hp κ) Hc') as (c & -> & Hc).
    destruct (ask G κ r c') as [[[d' x]|]|] eqn:Ha; [|done..]. cbn [fbind] in Hrun.
    eapply returns_bind; [by eapply sim_ask|]. intros [d y] [Hd ->].
    eapply IH; [|exact Hrun]. apply pools_related_set; [done|]. apply Forall2_insert; [apply Hp|done].
Qed.

Lemma run_simulated {A} (m : reads Node Account A) a : simulates →
  run G m = Some (Ok a) → returns (run F m) (λ x, x = a).
Proof. intros Hs. apply run_from_simulated; [done|]. intros []; constructor. Qed.
End Simulation.

(** ** Listings of the store's tables *)

Lemma lists_unique {K V} `{KeyOrdLaws K} (l1 l2 : list (K * V)) f g :
  lists l1 f → lists l2 g → (∀ k, f k = g k) → l1 = l2.
Proof.
  intros [S1 I1] [S2 I2] Hfg. apply btree_unique; [done..|]. intros k v. by rewrite I1, I2, Hfg.
Qed.

Section Walks.
Context {K V : Type} `{KeyOrdLaws K}.
Implicit Types (l : list (K * V)) (rs : list (K * VersionedValue V)).

Lemma exact_in_lists l f k : lists l f → exact_in l k = (k,.) <$> f k.
Proof.
  intros [_ Hin]. unfold exact_in. destruct (head _) as [[k' v]|] eqn:Hh; cbn.
  - apply head_Some_elem_of in Hh. rewrite list_elem_of_In, filter_In, bool_decide_eq_true, <- list_elem_of_In in Hh.
    cbn in Hh. destruct Hh as [Hv ->]. apply Hin in Hv. by rewrite Hv.
  - destruct (f k) as [v|] eqn:Hf; [|done]. apply Hin in Hf.
    assert (Hx : (k, v) ∈ List.filter (λ e, bool_decide (e.1 = k)) l).
    { rewrite list_elem_of_In, filter_In, bool_decide_eq_true, <- list_elem_of_In. done. }
    destruct (List.filter _ l); [by apply elem_of_nil in Hx|done].
Qed.

Lemma live_among_filter n rs ks (p : K → bool) :
  live_among n rs (List.filter p ks) = List.filter (λ e, p e.1) (live_among n rs ks).
Proof.
  unfold live_among. induction ks as [|k ks IH]; [done|]. cbn. destruct (p k) eqn:Hp; cbn.
  - destruct (view rs n k); cbn; [by rewrite Hp, IH|done].
  - destruct (view rs n k); cbn; [by rewrite Hp|done].
Qed.

Lemma lists_live n rs : sorted_rows rs → lists (live_among n rs (keys_of rs)) (view rs n).
Proof. apply live_entries_spec. Qed.
End Walks.

Section BoundWalks.
Context {K V : Type} `{KeyOrdLaws K} (a : Z).

Lemma bound_entries_filter (l : list (Z * K * V)) (p : Z * K → bool) :
  bound_entries a (List.filter (λ e, p e.1) l) = List.filter (λ e, p (a, e.1)) (bound_entries a l).
Proof.
  unfold bound_entries. induction l as [|[[a' k] v] l IH]; [done|]. cbn [List.filter fst omap list_omap bound_to].
  destruct (Z.eqb_spec a' a) as [->|Hne]; cbn [List.filter fst].
  - destruct (p (a, k)); cbn; [|exact IH]. rewrite Z.eqb_refl. by f_equal.
  - destruct (p (a', k)); cbn; [|exact IH]. by rewrite (proj2 (Z.eqb_neq a' a) Hne).
Qed.

Lemma bound_lt (k k' : K) : key_lt (a, k) (a, k') ↔ key_lt k k'.
Proof. cbn. split; [|by auto]. intros [Hl|[_ Hl]]; [lia|done]. Qed.

Lemma lists_bound n (rs : list (Z * K * VersionedValue V)) : sorted_rows rs →
  lists (bound_entries a (live_among n rs (keys_of rs))) (λ k, view rs n (a, k)).
Proof.
  intros Hs. destruct (lists_live n rs Hs) as [Hl Hin]. split; [by apply bound_sorted|].
  intros k v. by rewrite elem_of_bound, Hin.
Qed.
End BoundWalks.

Lemma nonzero_filter (l : list (Z * Z)) p : nonzero (List.filter p l) = List.filter p (nonzero l).
Proof.
  unfold nonzero. induction l as [|e l IH]; [done|]. cbn [List.filter].
  destruct (p e) eqn:Hp, (e.2 =? 0) eqn:Hv; cbn [List.filter negb]; rewrite ?Hp, ?Hv; cbn; by rewrite ?IH.
Qed.

Lemma lists_slots n a (rs : list (Z * Z * VersionedValue Z)) : sorted_rows rs →
  lists (nonzero (bound_entries a (live_among n rs (keys_of rs)))) (λ k, nz (view rs n (a, k))).
Proof.
  intros Hs. destruct (lists_bound a n rs Hs) as [Hl Hin]. split; [by apply nonzero_sorted|].
  intros k v. rewrite elem_of_nonzero, Hin. apply nz_view.
Qed.

(** ** The store's cursors walk the listings *)

Section StoreWalks.
Context {Tb C : Type → Type → Type} {E : Type} `{DupDbLaws Tb C E}.
Context (n : Z) (fuel : nat).
Abbreviation rs_of c := (rows (table_of c)).

(** The cursor is where the listing's cursor is. *)
Definition spot_at {K K' V} `{KeyOrd K} (f : K' → K) (c : C K V) (s : spot K') : Prop :=
  match s with Fresh => position c = None | At k => on_key c (f k) | Adrift => True end.

(** A step of a walk: what it found, where the cursor landed, over the same rows. *)
Definition stepped {K K' V} `{KeyOrd K} (f : K' → K) (c : C K V) (o : option (K' * V))
    (r : C K V * option (K' * V)) : Prop :=
  rs_of r.1 = rs_of c ∧ spot_at f r.1 (land o).1 ∧ r.2 = o.

Section Unbound.
Context {K V : Type} `{KeyOrdLaws K}.
Implicit Types (c : C K V).
Abbreviation listed c := (live_among n (rs_of c) (keys_of (rs_of c))).

Lemma scanned_stepped c c' o (entries : list (K * V)) : scanned n (rs_of c) c' o entries → stepped id c (head entries) (c', o).
Proof. intros [Hrs Ho]. destruct o as [[k v]|]; [destruct Ho as [Hk ->]|rewrite Ho]; by split_and!. Qed.

Lemma seek_stepped c k : wf_rows (rs_of c) → (length (keys_of (rs_of c)) ≤ fuel)%nat →
  returns (cursor_seek n fuel k c) (stepped id c (seek_in (listed c) k)).
Proof.
  intros Hwf Hf. eapply returns_mono; [by apply cursor_seek_spec|]. intros [c' o] Hs.
  unfold from in Hs. rewrite live_among_filter in Hs. by apply scanned_stepped.
Qed.

Lemma next_stepped c s s' o : wf_rows (rs_of c) → (length (keys_of (rs_of c)) ≤ fuel)%nat →
  spot_at id c s → next_in (listed c) s = Some (s', o) →
  s' = (land o).1 ∧ returns (cursor_next n fuel c) (stepped id c o).
Proof.
  intros Hwf Hf Hs Hn. destruct s as [|k|]; [..|done].
  - cbn in Hn. injection Hn as <- <-. split; [done|]. eapply returns_mono; [apply cursor_next_spec; [done|by left|done]|].
    intros [c' o] Hsc. unfold remaining in Hsc. cbn in Hs. rewrite Hs in Hsc. by apply scanned_stepped.
  - cbn in Hn. injection Hn as <- <-. split; [done|].
    eapply returns_mono; [apply cursor_next_spec; [done|right; by exists k|done]|].
    intros [c' o] Hsc. rewrite (remaining_on_key _ _ Hs) in Hsc. unfold after in Hsc.
    rewrite live_among_filter in Hsc. by apply scanned_stepped.
Qed.

Lemma exact_stepped c k : wf_rows (rs_of c) →
  returns (Some (cursor_seek_exact n k c)) (stepped id c (exact_in (listed c) k)).
Proof.
  intros Hwf. apply returns_Some. eapply outcome_mono; [by apply seek_exact_spec|]. intros [c' o] (Ht & -> & Hk).
  rewrite (exact_in_lists _ _ _ (lists_live n (rs_of c) (proj1 Hwf))). split; [cbn; by rewrite Ht|].
  destruct (view (rs_of c) n k) as [v|] eqn:Hv; [|done]. split; [|done]. cbn. apply Hk. by eapply view_key; [apply Hwf|].
Qed.

Lemma current_stepped c s s' o : wf_rows (rs_of c) → spot_at id c s → current_in s = Some (s', o) →
  s' = s ∧ outcome (c_current c) (λ x, fst <$> x = o).
Proof.
  intros Hwf Hs Hc. destruct s as [|k|]; [..|done]; cbn in Hc; injection Hc as <- <-.
  - split; [done|]. eapply outcome_mono; [by apply law_current|]. intros x ->. cbn in Hs. by rewrite Hs.
  - split; [done|]. pose proof (on_key_current c k Hwf Hs) as Hsome. destruct Hs as (b & Hp & _).
    pose proof (law_current c Hwf) as Hl. destruct (c_current c) as [x|]; [|done]. cbn in *. subst x.
    rewrite Hp in Hsome |- *. cbn in *. destruct (first_row _ _) as [r|] eqn:Hr; [|by destruct Hsome].
    apply head_Some_elem_of, elem_of_filter_rows in Hr as [_ Hr%bool_decide_eq_true]. cbn. by injection Hr as <- _.
Qed.
End Unbound.

Section BoundTo.
Context {K V : Type} `{KeyOrdLaws K} (a : Z).
Implicit Types (c : C (Z * K) V).
Abbreviation listed c := (bound_entries a (live_among n (rs_of c) (keys_of (rs_of c)))).

Lemma bound_stepped c c' o (entries : list (K * V)) : bound_scanned n a (rs_of c) c' o entries →
  stepped (pair a) c (head entries) (c', o).
Proof. intros [Hrs Ho]. destruct o as [[k v]|]; [destruct Ho as [Hk ->]|rewrite Ho]; by split_and!. Qed.

Lemma listed_from c k : bound_entries a (live_among n (rs_of c) (from (a, k) (keys_of (rs_of c))))
  = List.filter (λ e, negb (bool_decide (key_lt e.1 k))) (listed c).
Proof.
  unfold from. rewrite live_among_filter.
  etrans; [exact (bound_entries_filter a _ (λ k', negb (bool_decide (key_lt k' (a, k)))))|]. apply filter_ext. intros e. f_equal. apply bool_decide_ext, bound_lt.
Qed.

Lemma listed_after c k : bound_entries a (live_among n (rs_of c) (after (a, k) (keys_of (rs_of c))))
  = List.filter (λ e, bool_decide (key_lt k e.1)) (listed c).
Proof.
  unfold after. rewrite live_among_filter.
  etrans; [exact (bound_entries_filter a _ (λ k', bool_decide (key_lt (a, k) k')))|]. apply filter_ext. intros e. apply bool_decide_ext, bound_lt.
Qed.

Lemma spot_placed c (s : spot K) : s ≠ Adrift → spot_at (pair a) c s → bound_placed a c.
Proof. destruct s as [|k|]; [by left|right; by exists k|done]. Qed.

Lemma bound_remaining_spot c (s s' : spot K) (f : list (K * V) → list (K * V)) o :
  (∀ p l, f (List.filter p l) = List.filter p (f l)) →
  spot_at (pair a) c s → next_in (f (listed c)) s = Some (s', o) →
  s' = (land o).1 ∧ o = head (f (bound_remaining n a c)).
Proof.
  intros Hf Hs Hn. unfold bound_remaining. destruct s as [|k|]; [..|done]; cbn in Hn; injection Hn as <- <-.
  - split; [done|]. unfold remaining. cbn in Hs. by rewrite Hs.
  - split; [done|]. rewrite (remaining_on_key _ _ Hs), listed_after. by rewrite Hf.
Qed.

Lemma trie_seek_stepped c k : wf_rows (rs_of c) → (length (keys_of (rs_of c)) ≤ fuel)%nat →
  returns (trie_seek n a fuel k c) (stepped (pair a) c (seek_in (listed c) k)).
Proof.
  intros Hwf Hf. eapply returns_mono; [by apply bound_seek_spec|]. intros [c' o] Hs.
  rewrite listed_from in Hs. by apply bound_stepped.
Qed.

Lemma trie_next_stepped c s s' o : wf_rows (rs_of c) → (length (keys_of (rs_of c)) ≤ fuel)%nat →
  spot_at (pair a) c s → next_in (listed c) s = Some (s', o) →
  s' = (land o).1 ∧ returns (trie_next n a fuel c) (stepped (pair a) c o).
Proof.
  intros Hwf Hf Hs Hn. destruct (bound_remaining_spot c s s' id o) as [-> ->]; [done..|]. split; [done|].
  eapply returns_mono; [apply trie_next_spec; [done|apply (spot_placed c s); [by destruct s|done]|done]|].
  intros [c' o] Hsc. by apply bound_stepped.
Qed.

Lemma trie_exact_stepped c k : wf_rows (rs_of c) →
  returns (Some (bound_seek_exact n a k c)) (stepped (pair a) c (exact_in (listed c) k)).
Proof.
  intros Hwf. apply returns_Some. unfold bound_seek_exact.
  eapply outcome_bind; [by apply seek_exact_spec|]. intros [c' o] (Ht & -> & Hk). cbn.
  rewrite (exact_in_lists _ _ _ (lists_bound a n (rs_of c) (proj1 Hwf))). split; [cbn; by rewrite Ht|].
  destruct (view (rs_of c) n (a, k)) as [v|] eqn:Hv; cbn; [|done]. rewrite Z.eqb_refl. cbn.
  split; [|done]. apply Hk. by eapply view_key; [apply Hwf|].
Qed.

Lemma trie_current_stepped c s s' o : wf_rows (rs_of c) → spot_at (pair a) c s → current_in s = Some (s', o) →
  s' = s ∧ outcome (c_current c) (λ x, x ≫= (λ '((a', p), _), if a' =? a then Some p else None) = o).
Proof.
  intros Hwf Hs Hc.
  assert (Hc' : current_in (match s with Fresh => Fresh | At k => At (a, k) | Adrift => Adrift end)
    = Some (match s with Fresh => Fresh | At k => At (a, k) | Adrift => Adrift end, pair a <$> o))
    by (destruct s; cbn in *; by simplify_eq).
  split; [by destruct s; cbn in Hc; simplify_eq|].
  apply (current_stepped c) in Hc' as [_ Hx]; [|done|by destruct s].
  eapply outcome_mono; [exact Hx|]. intros [[[a' k'] v]|] He; cbn in He; destruct o as [k|]; simplify_eq/=; [|done].
  by rewrite Z.eqb_refl.
Qed.
End BoundTo.

Section Slots.
Context (a : Z).
Implicit Types (c : C (Z * Z) Z).
Abbreviation listed c := (nonzero (bound_entries a (live_among n (rs_of c) (keys_of (rs_of c))))).

Lemma storage_stepped c c' o (entries : list (Z * Z)) : storage_scanned n a (rs_of c) c' o entries →
  stepped (pair a) c (head entries) (c', o).
Proof. intros [Hrs Ho]. destruct o as [[k v]|]; [destruct Ho as [Hk ->]|rewrite Ho]; by split_and!. Qed.

Lemma storage_seek_stepped c k : wf_rows (rs_of c) → (2 * length (keys_of (rs_of c)) < fuel)%nat →
  returns (storage_seek n a fuel k c) (stepped (pair a) c (seek_in (listed c) k)).
Proof.
  intros Hwf Hf. eapply returns_mono; [by apply storage_seek_spec|]. intros [c' o] Hs.
  rewrite listed_from, nonzero_filter in Hs. by apply storage_stepped.
Qed.

Lemma storage_next_stepped c s s' o : wf_rows (rs_of c) → (2 * length (keys_of (rs_of c)) < fuel)%nat →
  spot_at (pair a) c s → next_in (listed c) s = Some (s', o) →
  s' = (land o).1 ∧ returns (storage_next n a fuel c) (stepped (pair a) c o).
Proof.
  intros Hwf Hf Hs Hn. destruct (bound_remaining_spot a c s s' nonzero o) as [-> ->];
    [intros p l; apply nonzero_filter|done..|]. split; [done|].
  eapply returns_mono; [apply storage_next_spec; [done|apply (spot_placed a c s); [by destruct s|done]|done]|].
  intros [c' o] Hsc. by apply storage_stepped.
Qed.

Lemma storage_empty_stepped c : wf_rows (rs_of c) → (2 * length (keys_of (rs_of c)) < fuel)%nat →
  returns (is_storage_empty n a fuel c)
    (λ '(c', b), rs_of c' = rs_of c ∧ b = bool_decide (seek_in (listed c) 0 = None)).
Proof.
  intros Hwf Hf. unfold is_storage_empty. eapply returns_bind; [by apply storage_seek_stepped|].
  intros [c' o] (Hrs & _ & Ho). apply returns_Ok. cbn in *. by rewrite Ho.
Qed.
End Slots.
End StoreWalks.

(** ** A store answers as the listing of its state *)

Section StoreListing.
Context {Tb C Pt : Type → Type → Type} {E Node Account : Type}.
Context `{DupDbLaws Tb C E}.
Abbreviation db := (Db Tb Pt Node Account).
Abbreviation err := (MorphProofsStorageError E).
Context (Custom : err → E) (n : Z) (fuel : nat) (tx : db) (li : Listing Node Account).
Abbreviation rs_of c := (rows (table_of c)).

(** What holds of the tables that are read. *)
Record readable : Prop := {
  rd_account_trie : wf_rows (rows (AccountTrieHistory tx));
  rd_storage_trie : wf_rows (rows (StorageTrieHistory tx));
  rd_accounts : wf_rows (rows (HashedAccountHistory tx));
  rd_storages : wf_rows (rows (HashedStorageHistory tx));
  rd_fuel : read_fuel tx fuel;
  rd_listing : listing_of li (state_at tx n);
}.
Context (Hrd : readable).

(** The cursor reads the store's table, and is where the listing's cursor is. *)
Definition tracks (κ : CursorKind) : mdbx_cursor κ → listing_cursor κ → Prop :=
  match κ with
  | AccountTrieKind => λ c s, rs_of c = rows (AccountTrieHistory tx) ∧ spot_at id c s
  | StorageTrieKind => λ c s,
      mt_hashed_address c = Some s.1 ∧ rs_of (mt_inner c) = rows (StorageTrieHistory tx)
      ∧ spot_at (pair s.1) (mt_inner c) s.2
  | AccountKind => λ c s, rs_of c = rows (HashedAccountHistory tx) ∧ spot_at id c s
  | StorageKind => λ c s,
      ms_hashed_address c = s.1 ∧ rs_of (ms_inner c) = rows (HashedStorageHistory tx)
      ∧ spot_at (pair s.1) (ms_inner c) s.2
  end.

(** A step leaves the cursor on the same rows. *)
Lemma stepped_spot {K K' V} `{KeyOrd K} (f : K' → K) (c : C K V) o (m : option (result (C K V * option (K' * V)) E)) rs :
  rs_of c = rs → returns m (stepped f c o) →
  returns m (λ '(c', y), (rs_of c' = rs ∧ spot_at f c' (land o).1) ∧ y = o).
Proof. intros <- Hm. eapply returns_mono; [exact Hm|]. by intros [c' y] (? & ? & ?). Qed.

Lemma account_nodes_listed (c : C path Node) : rs_of c = rows (AccountTrieHistory tx) →
  li_account_nodes li = live_among n (rs_of c) (keys_of (rs_of c)).
Proof using Hrd.
  intros ->. eapply lists_unique; [apply (lo_account_nodes _ _ (rd_listing Hrd))|apply lists_live, (rd_account_trie Hrd)|done].
Qed.

Lemma storage_nodes_listed (c : C (B256 * path)%type Node) a : rs_of c = rows (StorageTrieHistory tx) →
  li_storage_nodes li a = bound_entries a (live_among n (rs_of c) (keys_of (rs_of c))).
Proof using Hrd.
  intros ->. eapply lists_unique; [apply (lo_storage_nodes _ _ (rd_listing Hrd))|apply lists_bound, (rd_storage_trie Hrd)|done].
Qed.

Lemma accounts_listed (c : C B256 Account) : rs_of c = rows (HashedAccountHistory tx) →
  li_accounts li = live_among n (rs_of c) (keys_of (rs_of c)).
Proof using Hrd.
  intros ->. eapply lists_unique; [apply (lo_accounts _ _ (rd_listing Hrd))|apply lists_live, (rd_accounts Hrd)|done].
Qed.

Lemma slots_listed (c : C (B256 * B256)%type Z) a : rs_of c = rows (HashedStorageHistory tx) →
  li_slots li a = nonzero (bound_entries a (live_among n (rs_of c) (keys_of (rs_of c)))).
Proof using Hrd.
  intros ->. eapply lists_unique; [apply (lo_slots _ _ (rd_listing Hrd))|apply lists_slots, (rd_storages Hrd)|done].
Qed.

Lemma account_trie_tracks r (c : C path Node) s s' x :
  tracks AccountTrieKind c s → trie_in (li_account_nodes li) r s = Some (s', x) →
  returns (account_trie_ask n fuel r c) (λ '(c', y), tracks AccountTrieKind c' s' ∧ y = x).
Proof using Hrd.
  intros [Hrs Hs]. rewrite (account_nodes_listed c Hrs). pose proof (rd_account_trie Hrd) as Hwf.
  destruct (rd_fuel Hrd) as [Hf _]. rewrite <- Hrs in Hwf, Hf.
  destruct r; cbn [trie_in account_trie_ask]; intros Hin.
  - injection Hin as <- <-. eapply stepped_spot; [exact Hrs|by apply (exact_stepped n c)].
  - injection Hin as <- <-. eapply stepped_spot; [exact Hrs|]. apply (seek_stepped n fuel c); [done|lia].
  - eapply (next_stepped n fuel c) in Hin as [-> Hin]; [by eapply stepped_spot|done|lia|done].
  - apply (current_stepped c) in Hin as [-> Hin]; [|done..]. apply returns_Some.
    eapply outcome_bind; [exact Hin|]. intros o <-. done.
  - injection Hin as <- <-. by apply returns_Ok.
Qed.

Lemma bound_trie_tracks r a (c : C (B256 * path)%type Node) s s' x :
  rs_of c = rows (StorageTrieHistory tx) → spot_at (pair a) c s →
  trie_in (li_storage_nodes li a) r s = Some (s', x) →
  returns (bound_trie_ask n fuel a r c) (λ '(c', y), (rs_of c' = rows (StorageTrieHistory tx) ∧ spot_at (pair a) c' s') ∧ y = x).
Proof using Hrd.
  intros Hrs Hs. rewrite (storage_nodes_listed c a Hrs). pose proof (rd_storage_trie Hrd) as Hwf.
  destruct (rd_fuel Hrd) as (_ & Hf & _). rewrite <- Hrs in Hwf, Hf.
  destruct r; cbn [trie_in bound_trie_ask]; intros Hin.
  - injection Hin as <- <-. eapply stepped_spot; [exact Hrs|by apply (trie_exact_stepped n a c)].
  - injection Hin as <- <-. eapply stepped_spot; [exact Hrs|]. apply (trie_seek_stepped n fuel a c); [done|lia].
  - eapply (trie_next_stepped n fuel a c) in Hin as [-> Hin]; [by eapply stepped_spot|done|lia|done].
  - apply (trie_current_stepped a c) in Hin as [-> Hin]; [|done..]. apply returns_Some.
    eapply outcome_bind; [exact Hin|]. intros o <-. done.
  - injection Hin as <- <-. by apply returns_Ok.
Qed.

Lemma account_tracks r (c : C B256 Account) s s' x :
  tracks AccountKind c s → hashed_in (li_accounts li) r s = Some (s', x) →
  returns (account_ask n fuel r c) (λ '(c', y), tracks AccountKind c' s' ∧ y = x).
Proof using Hrd.
  intros [Hrs Hs]. rewrite (accounts_listed c Hrs). pose proof (rd_accounts Hrd) as Hwf.
  destruct (rd_fuel Hrd) as (_ & _ & Hf & _). rewrite <- Hrs in Hwf, Hf.
  destruct r; cbn [hashed_in account_ask]; intros Hin.
  - injection Hin as <- <-. eapply stepped_spot; [exact Hrs|]. apply (seek_stepped n fuel c); [done|lia].
  - eapply (next_stepped n fuel c) in Hin as [-> Hin]; [by eapply stepped_spot|done|lia|done].
  - injection Hin as <- <-. by apply returns_Ok.
Qed.

Lemma bound_slot_tracks r a (c : C (B256 * B256)%type Z) s s' x :
  rs_of c = rows (HashedStorageHistory tx) → spot_at (pair a) c s →
  hashed_in (li_slots li a) r s = Some (s', x) →
  returns (bound_slot_ask n fuel a r c) (λ '(c', y), (rs_of c' = rows (HashedStorageHistory tx) ∧ spot_at (pair a) c' s') ∧ y = x).
Proof using Hrd.
  intros Hrs Hs. rewrite (slots_listed c a Hrs). pose proof (rd_storages Hrd) as Hwf.
  destruct (rd_fuel Hrd) as (_ & _ & _ & Hf). rewrite <- Hrs in Hwf, Hf.
  destruct r; cbn [hashed_in bound_slot_ask]; intros Hin.
  - injection Hin as <- <-. eapply stepped_spot; [exact Hrs|by apply (storage_seek_stepped n fuel a c)].
  - eapply (storage_next_stepped n fuel a c) in Hin as [-> Hin]; [by eapply stepped_spot|done..].
  - injection Hin as <- <-. by apply returns_Ok.
Qed.

Lemma mdbx_ask_tracks κ r c s s' x : tracks κ c s → listing_ask li κ r s = Some (s', x) →
  returns (mdbx_ask (Account := Account) n fuel κ r c) (λ '(c', y), tracks κ c' s' ∧ y = x).
Proof using Hrd.
  destruct κ; cbn [mdbx_ask listing_ask].
  - apply account_trie_tracks.
  - destruct c as [c o], s as [a s]. intros (Ha & Hrs & Hs) Hin. cbn in Ha, Hrs, Hs. subst o. cbn [storage_trie_ask].
    destruct r as [r|a']; [|injection Hin as <- <-; by apply returns_Ok].
    apply bind_Some in Hin as ([s2 y] & Hin & [= <- <-]).
    eapply returns_bind; [by eapply bound_trie_tracks|]. intros [c' z] [[? ?] ->]. by apply returns_Ok.
  - apply account_tracks.
  - destruct c as [c o], s as [a s]. intros (Ha & Hrs & Hs) Hin. cbn in Ha, Hrs, Hs. subst o. cbn [storage_ask].
    destruct r as [r| |a']; [| |injection Hin as <- <-; by apply returns_Ok].
    + apply bind_Some in Hin as ([s2 y] & Hin & [= <- <-]).
      eapply returns_bind; [by eapply bound_slot_tracks|]. intros [c' z] [[? ?] ->]. by apply returns_Ok.
    + injection Hin as <- <-. pose proof (rd_storages Hrd) as Hwf. destruct (rd_fuel Hrd) as (_ & _ & _ & Hf).
      cbn [ms_hashed_address ms_inner]. rewrite (slots_listed c a Hrs). rewrite <- Hrs in Hwf, Hf.
      eapply returns_bind; [by apply storage_empty_stepped|]. intros [c' b] [Hc ->]. apply returns_Ok. cbn.
      by rewrite Hc.
Qed.

Lemma opened_outcome {K V} `{KeyOrdLaws K} (t : Tb K V) {X} (mk : C K V → X) (P : X → Prop) :
  (∀ c, table_of c = t → position c = None → P (mk c)) →
  outcome (map_err (into_database_error Custom) (let? c := lift (open_cursor t) in Ok (mk c))) P.
Proof.
  intros HP. pose proof (law_open t) as Ho. destruct (open_cursor t) as [c|]; [|done]. cbn in *. destruct Ho. by apply HP.
Qed.

(** The factories over a transaction. *)
Lemma tx_simulates {X} : simulates (tx_factories Custom n fuel tx) (listing (E := X) li) tracks.
Proof using Hrd.
  split.
  - intros κ a c' [= <-]. destruct κ; cbn; apply opened_outcome; intros c Hc Hp; cbn; rewrite ?Hc; by split_and!.
  - intros κ r c c' d' x Hc Ha. cbn [ask listing tx_factories] in *.
    apply fmap_Some in Ha as ([s y] & Ha & [= <- <-]). by eapply mdbx_ask_tracks.
Qed.

(** The factories over an open session. *)
Lemma session_simulates {X} : simulates (session_factories Custom n fuel (Some tx)) (listing (E := X) li) tracks.
Proof using Hrd.
  split.
  - intros κ a c' [= <-]. destruct κ; cbn; apply opened_outcome; intros c Hc Hp; cbn; rewrite ?Hc; by split_and!.
  - intros κ r c c' d' x Hc Ha. cbn [ask listing session_factories] in *.
    apply fmap_Some in Ha as ([s y] & Ha & [= <- <-]). by eapply mdbx_ask_tracks.
Qed.
End StoreListing.

Section Windows.
Context {Tb C Pt : Type → Type → Type} {E Node Account : Type}.
Context `{DupDbLaws Tb C E, PlainDbLaws Pt E}.
Implicit Types (d : Db Tb Pt Node Account) (w : Window (Node := Node) (Account := Account)).

Lemma listing_of_proper (li : Listing Node Account) (s1 s2 : State Node Account) :
  s1 ≡ s2 → listing_of li s1 → listing_of li s2.
Proof.
  intros (E1 & E2 & E3 & E4) [[S1 L1] L2 [S3 L3] L4]. split.
  - split; [exact S1|]. intros k v. by rewrite L1, E1.
  - intros a. destruct (L2 a) as [Hs Hl]. split; [exact Hs|]. intros k v. by rewrite Hl, E2.
  - split; [exact S3|]. intros k v. by rewrite L3, E3.
  - intros a. destruct (L4 a) as [Hs Hl]. split; [exact Hs|]. intros k v. by rewrite Hl, E4.
Qed.

(** A store that holds a window is readable at the window's blocks. *)
Lemma window_readable d w n fuel li : represents d w → number (w_earliest w) ≤ n ≤ number (w_latest w) →
  read_fuel d fuel → listing_of li (w_state w n) → readable n fuel d li.
Proof.
  intros [Hinv Hst] Hn Hf Hl. destruct (si_tables _ _ _ Hinv) as [I1 I2 I3 I4].
  split; [apply I1|apply I2|apply I3|apply I4|done|]. eapply listing_of_proper; [|exact Hl]. symmetry. by apply Hst.
Qed.

(** Its states have listings. *)
Lemma window_listed d w n : represents d w → number (w_earliest w) ≤ n ≤ number (w_latest w) →
  ∃ li, listing_of li (w_state w n).
Proof.
  intros [Hinv Hst] Hn. destruct (si_tables _ _ _ Hinv) as [I1 I2 I3 I4].
  exists {| li_account_nodes := live_among n (rows (AccountTrieHistory d)) (keys_of (rows (AccountTrieHistory d)));
            li_storage_nodes a := bound_entries a (live_among n (rows (StorageTrieHistory d)) (keys_of (rows (StorageTrieHistory d))));
            li_accounts := live_among n (rows (HashedAccountHistory d)) (keys_of (rows (HashedAccountHistory d)));
            li_slots a := nonzero (bound_entries a (live_among n (rows (HashedStorageHistory d)) (keys_of (rows (HashedStorageHistory d))))) |}.
  eapply listing_of_proper; [by apply Hst|].
  split; cbn; intros; [apply lists_live, I1|apply lists_bound, I2|apply lists_live, I3|apply lists_slots, I4].
Qed.
End Windows.
