(* ===== verification/HistoricalTrie.v ===== *)
(** * Historical roots, proofs and witnesses

    Models [crates/proofs/src/proof.rs], the root, proof and witness methods of
    [provider.rs], and [batch_provider.rs]: which cursors, overlays, prefix sets and
    options they hand to reth's trie code, over which transaction, and what they make of
    the answer.  reth's trie code is the class [RethTrie]: computations that are generic
    over the cursor factories ([TrieCursors.reads]) and conversions of their arguments.
    The in-memory overlays ([InMemoryTrieCursorFactory],
    [HashedPostStateCursorFactory]) are reth's and belong to the computations, which
    take the sorted updates and post state.

    The theorems say that the answers are those of the same computation over the entries
    of the block's state. *)

From stdpp Require Import sorting.
From S2P Require Import Prelude.
From S2P Require Import Rlp.
From S2P Require Import Hardfork.
From S2P Require Import PayloadTypes.
From S2P Require Import Versioned.
From S2P Require Import HistoryWrites.
From S2P Require Import ProofsStore.
From S2P Require Import StoreRefinement.
From S2P Require Import StoreSafety.
From S2P Require Import ProofsRpc.
From S2P Require Import InMemory.
From S2P Require Import TrieCursors.
#[local] Open Scope Z_scope.

(** ** reth's trie code *)

Class RethTrie (Node Account : Type) := {
  TrieUpdates : Type; TrieUpdatesSorted : Type;
  HashedPostState : Type; HashedPostStateSorted : Type;
  RHashedStorage : Type; HashedStorageSorted : Type;
  TriePrefixSetsMut : Type; TriePrefixSets : Type;
  PrefixSetMut : Type; PrefixSet : Type;
  BundleState : Type; MultiProofTargets : Type;
  AccountProof : Type; MultiProof : Type; SlotProof : Type; SlotMultiProof : Type;
  ExecutionWitnessMode : Type;
  (** the error of a computation, its database error aside *)
  TrieFailure : Type;

  updates_into_sorted : TrieUpdates → TrieUpdatesSorted;
  state_into_sorted : HashedPostState → HashedPostStateSorted;
  storage_into_sorted : RHashedStorage → HashedStorageSorted;
  construct_prefix_sets : HashedPostState → TriePrefixSetsMut;
  construct_prefix_set : RHashedStorage → PrefixSetMut;
  freeze : TriePrefixSetsMut → TriePrefixSets;
  freeze_set : PrefixSetMut → PrefixSet;
  from_hashed_storage : B256 → RHashedStorage → HashedPostState;
  (** a sorted post state of one account's storage *)
  one_storage : B256 → HashedStorageSorted → HashedPostStateSorted;
  from_bundle_state : BundleState → HashedPostState;
  is_canonical : ExecutionWitnessMode → bool;

  (** [StateRoot]: with an overlay of trie nodes or without, over an overlay of hashed
      entries, with prefix sets. *)
  StateRoot_root : option TrieUpdatesSorted → HashedPostStateSorted → TriePrefixSets →
    reads Node Account (result B256 TrieFailure);
  StateRoot_root_with_updates : option TrieUpdatesSorted → HashedPostStateSorted → TriePrefixSets →
    reads Node Account (result (B256 * TrieUpdates) TrieFailure);
  StorageRoot_root : HashedPostStateSorted → Address → PrefixSet → reads Node Account (result B256 TrieFailure);
  StorageProof_storage_proof : HashedPostStateSorted → Address → PrefixSetMut → B256 →
    reads Node Account (result SlotProof TrieFailure);
  StorageProof_storage_multiproof : HashedPostStateSorted → Address → PrefixSetMut → gset B256 →
    reads Node Account (result SlotMultiProof TrieFailure);
  Proof_account_proof : TrieUpdatesSorted → HashedPostStateSorted → TriePrefixSetsMut → Address → list B256 →
    reads Node Account (result AccountProof TrieFailure);
  Proof_multiproof : TrieUpdatesSorted → HashedPostStateSorted → TriePrefixSetsMut → MultiProofTargets →
    reads Node Account (result MultiProof TrieFailure);
  (** [TrieWitness], with a mode if one was set, and with the root node if it was asked
      for; the map's entries in the order of its iteration. *)
  TrieWitness_compute : TrieUpdatesSorted → HashedPostStateSorted → TriePrefixSetsMut → option ExecutionWitnessMode →
    bool → HashedPostState → reads Node Account (result (list (B256 * bytes)) TrieFailure);
  zero_destroyed_account_storage : BundleState → HashedPostState → reads Node Account HashedPostState;
}.

(** [TrieInput] *)
Record TrieInput {Node Account} `{RethTrie Node Account} := {
  ti_nodes : TrieUpdates;
  ti_state : HashedPostState;
  ti_prefix_sets : TriePrefixSetsMut;
}.

(** The errors of reth's trie computations: one of the database, or their own. *)
Inductive TrieError (E X : Type) := InDatabase (e : E) | InTrie (x : X).
Arguments InDatabase {E X}.
Arguments InTrie {E X}.

(** What a run of a computation is as its result. *)
Definition finish {A E X} (m : option (result (result A X) E)) : option (result A (TrieError E X)) :=
  match m with
  | Some (Ok (Ok a)) => Some (Ok a)
  | Some (Ok (Err x)) => Some (Err (InTrie x))
  | Some (Err e) => Some (Err (InDatabase e))
  | None => None
  end.

(** [map_err] on the outcome of a loop. *)
Definition loop_map_err {A E F} (f : E → F) (m : option (result A E)) : option (result A F) := map_err f <$> m.

(** [sort_unstable] on byte strings, which are ordered lexicographically. *)
Definition bytes_le (p q : bytes) : Prop := p = q ∨ path_lt p q.
#[global] Instance bytes_le_dec : RelDecision bytes_le.
Proof. intros p q. unfold bytes_le. apply _. Defined.
Definition sort_unstable (l : list bytes) : list bytes := merge_sort bytes_le l.

(** ** [proof.rs] *)

Section Overlays.
Context {Tb C Pt : Type → Type → Type} {E Node Account : Type}.
Context `{DupDb Tb C E, PlainDb Pt E, RethTrie Node Account}.
Abbreviation db := (Db Tb Pt Node Account).
Abbreviation err := (MorphProofsStorageError E).
Abbreviation trie_result A := (option (result A (TrieError E TrieFailure))).
Context (Custom : err → E) (keccak256 : bytes → Z) (begin_ro : db → result unit E).
Context (fuel : nat).

Definition from_tx (tx : db) (block_number : Z) : Factories Node Account E := tx_factories Custom block_number fuel tx.

(** A method that opens a transaction on the committed store, and goes on with it. *)
Definition in_ro_tx {A} (storage : db) (k : db → trie_result A) : trie_result A :=
  let! tx := Some (map_err (λ e, InDatabase (into_database_error Custom e)) (ro_tx begin_ro storage)) in k tx.

Definition overlay_account_proof_with_tx (tx : db) (block_number : Z) (input : TrieInput) (address : Address)
    (slots : list B256) : trie_result AccountProof :=
  let nodes_sorted := updates_into_sorted (ti_nodes input) in
  let state_sorted := state_into_sorted (ti_state input) in
  finish (run (from_tx tx block_number)
    (Proof_account_proof nodes_sorted state_sorted (ti_prefix_sets input) address slots)).

Definition overlay_account_proof (storage : db) (block_number : Z) (input : TrieInput) (address : Address)
    (slots : list B256) : trie_result AccountProof :=
  in_ro_tx storage (λ tx, overlay_account_proof_with_tx tx block_number input address slots).

Definition overlay_multiproof_with_tx (tx : db) (block_number : Z) (input : TrieInput) (targets : MultiProofTargets)
  : trie_result MultiProof :=
  let nodes_sorted := updates_into_sorted (ti_nodes input) in
  let state_sorted := state_into_sorted (ti_state input) in
  finish (run (from_tx tx block_number) (Proof_multiproof nodes_sorted state_sorted (ti_prefix_sets input) targets)).

Definition overlay_multiproof (storage : db) (block_number : Z) (input : TrieInput) (targets : MultiProofTargets)
  : trie_result MultiProof :=
  in_ro_tx storage (λ tx, overlay_multiproof_with_tx tx block_number input targets).

Definition overlay_storage_proof (storage : db) (block_number : Z) (address : Address) (slot : B256)
    (hashed_storage : RHashedStorage) : trie_result SlotProof :=
  let prefix_set := construct_prefix_set hashed_storage in
  let state_sorted := one_storage (hashed_address keccak256 address) (storage_into_sorted hashed_storage) in
  in_ro_tx storage (λ tx, finish (run (from_tx tx block_number)
    (StorageProof_storage_proof state_sorted address prefix_set slot))).

Definition overlay_storage_multiproof (storage : db) (block_number : Z) (address : Address) (slots : list B256)
    (hashed_storage : RHashedStorage) : trie_result SlotMultiProof :=
  let targets := list_to_set (map (λ s, keccak256 (be_word 32 s)) slots) in
  let prefix_set := construct_prefix_set hashed_storage in
  let state_sorted := one_storage (hashed_address keccak256 address) (storage_into_sorted hashed_storage) in
  in_ro_tx storage (λ tx, finish (run (from_tx tx block_number)
    (StorageProof_storage_multiproof state_sorted address prefix_set targets))).

Definition overlay_root (storage : db) (block_number : Z) (post_state : HashedPostState) : trie_result B256 :=
  let prefix_sets := freeze (construct_prefix_sets post_state) in
  let state_sorted := state_into_sorted post_state in
  in_ro_tx storage (λ tx, finish (run (from_tx tx block_number) (StateRoot_root None state_sorted prefix_sets))).

Definition overlay_root_with_updates (storage : db) (block_number : Z) (post_state : HashedPostState)
  : trie_result (B256 * TrieUpdates) :=
  let prefix_sets := freeze (construct_prefix_sets post_state) in
  let state_sorted := state_into_sorted post_state in
  in_ro_tx storage (λ tx, finish (run (from_tx tx block_number)
    (StateRoot_root_with_updates None state_sorted prefix_sets))).

Definition overlay_root_from_nodes (storage : db) (block_number : Z) (input : TrieInput) : trie_result B256 :=
  let state_sorted := state_into_sorted (ti_state input) in
  let nodes_sorted := updates_into_sorted (ti_nodes input) in
  in_ro_tx storage (λ tx, finish (run (from_tx tx block_number)
    (StateRoot_root (Some nodes_sorted) state_sorted (freeze (ti_prefix_sets input))))).

Definition overlay_root_from_nodes_with_updates (storage : db) (block_number : Z) (input : TrieInput)
  : trie_result (B256 * TrieUpdates) :=
  let state_sorted := state_into_sorted (ti_state input) in
  let nodes_sorted := updates_into_sorted (ti_nodes input) in
  in_ro_tx storage (λ tx, finish (run (from_tx tx block_number)
    (StateRoot_root_with_updates (Some nodes_sorted) state_sorted (freeze (ti_prefix_sets input))))).

(** [DatabaseStorageRoot::overlay_root] *)
Definition overlay_storage_root (storage : db) (block_number : Z) (address : Address) (hashed_storage : RHashedStorage)
  : trie_result B256 :=
  let prefix_set := freeze_set (construct_prefix_set hashed_storage) in
  let state_sorted := state_into_sorted (from_hashed_storage (hashed_address keccak256 address) hashed_storage) in
  in_ro_tx storage (λ tx, finish (run (from_tx tx block_number) (StorageRoot_root state_sorted address prefix_set))).

Definition overlay_witness_with_tx (tx : db) (block_number : Z) (input : TrieInput) (target : HashedPostState)
    (mode : ExecutionWitnessMode) : trie_result (list (B256 * bytes)) :=
  let nodes_sorted := updates_into_sorted (ti_nodes input) in
  let state_sorted := state_into_sorted (ti_state input) in
  let witness := TrieWitness_compute nodes_sorted state_sorted (ti_prefix_sets input) (Some mode) in
  finish (run (from_tx tx block_number)
    (if is_canonical mode then witness false target else witness true target)).

Definition overlay_witness (storage : db) (block_number : Z) (input : TrieInput) (target : HashedPostState)
    (mode : ExecutionWitnessMode) : trie_result (list (B256 * bytes)) :=
  in_ro_tx storage (λ tx, overlay_witness_with_tx tx block_number input target mode).
End Overlays.

(** ** The provider of the store *)

Section Provider.
Context {Tb C Pt : Type → Type → Type} {E Node Account PE : Type}.
Context `{DupDb Tb C E, PlainDb Pt E, RethTrie Node Account}.
Abbreviation db := (Db Tb Pt Node Account).
Abbreviation err := (MorphProofsStorageError E).
Abbreviation trie_error := (TrieError E TrieFailure).
Abbreviation provider := (MorphProofsStateProviderRef (Tb := Tb) (Pt := Pt) (Node := Node) (Account := Account)).
Context (Custom : err → E) (keccak256 : bytes → Z) (begin_ro : db → result unit E).
Context (fuel : nat).
(** [ProviderError]'s conversions; a storage root's error becomes a [DatabaseError]. *)
Context (from_storage : err → PE) (from_database : E → PE).
Context (from_root from_proof from_witness : trie_error → PE) (storage_root_into : trie_error → E).

Abbreviation provider_result A := (option (result A PE)).

(** A method that reads the store: every call opens a transaction of its own. *)
Definition state_root (live : db) (p : provider) (state : HashedPostState) : provider_result B256 :=
  loop_map_err from_root (overlay_root Custom begin_ro fuel live (sp_block_number p) state).

Definition state_root_from_nodes (live : db) (p : provider) (input : TrieInput) : provider_result B256 :=
  loop_map_err from_root (overlay_root_from_nodes Custom begin_ro fuel live (sp_block_number p) input).

Definition state_root_with_updates (live : db) (p : provider) (state : HashedPostState)
  : provider_result (B256 * TrieUpdates) :=
  loop_map_err from_root (overlay_root_with_updates Custom begin_ro fuel live (sp_block_number p) state).

Definition state_root_from_nodes_with_updates (live : db) (p : provider) (input : TrieInput)
  : provider_result (B256 * TrieUpdates) :=
  loop_map_err from_root (overlay_root_from_nodes_with_updates Custom begin_ro fuel live (sp_block_number p) input).

Definition storage_root (live : db) (p : provider) (address : Address) (storage : RHashedStorage) : provider_result B256 :=
  loop_map_err (λ e, from_database (storage_root_into e))
    (overlay_storage_root Custom keccak256 begin_ro fuel live (sp_block_number p) address storage).

Definition storage_proof (live : db) (p : provider) (address : Address) (slot : B256) (storage : RHashedStorage)
  : provider_result SlotProof :=
  loop_map_err from_proof
    (overlay_storage_proof Custom keccak256 begin_ro fuel live (sp_block_number p) address slot storage).

Definition storage_multiproof (live : db) (p : provider) (address : Address) (slots : list B256) (storage : RHashedStorage)
  : provider_result SlotMultiProof :=
  loop_map_err from_proof
    (overlay_storage_multiproof Custom keccak256 begin_ro fuel live (sp_block_number p) address slots storage).

(** A method that uses the provider's transaction. *)
Definition with_tx {A} (live : db) (p : provider) (k : db → provider_result A) : provider * provider_result A :=
  let '(p, tx) := ensure_tx begin_ro live p in
  (p, let! tx := Some (map_err from_storage tx) in k tx).

Definition proof (live : db) (p : provider) (input : TrieInput) (address : Address) (slots : list B256)
  : provider * provider_result AccountProof :=
  with_tx live p (λ tx, loop_map_err from_proof
    (overlay_account_proof_with_tx Custom fuel tx (sp_block_number p) input address slots)).

Definition multiproof (live : db) (p : provider) (input : TrieInput) (targets : MultiProofTargets)
  : provider * provider_result MultiProof :=
  with_tx live p (λ tx, loop_map_err from_proof
    (overlay_multiproof_with_tx Custom fuel tx (sp_block_number p) input targets)).

(** The values of the witness map, which a canonical witness has in order. *)
Definition witness_values (mode : ExecutionWitnessMode) (hm : list (B256 * bytes)) : list bytes :=
  let values := map snd hm in
  if is_canonical mode then sort_unstable values else values.

Definition witness (live : db) (p : provider) (input : TrieInput) (target : HashedPostState) (mode : ExecutionWitnessMode)
  : provider * provider_result (list bytes) :=
  with_tx live p (λ tx,
    let! hm := loop_map_err from_witness
      (overlay_witness_with_tx Custom fuel tx (sp_block_number p) input target mode) in
    Some (Ok (witness_values mode hm))).

Definition hashed_post_state (live : db) (p : provider) (bundle_state : BundleState)
  : provider * provider_result HashedPostState :=
  let hashed_state := from_bundle_state bundle_state in
  with_tx live p (λ tx, loop_map_err from_database
    (run (from_tx Custom fuel tx (sp_block_number p)) (zero_destroyed_account_storage bundle_state hashed_state))).
End Provider.

(** ** The provider of a session *)

Module Batch.
Section Provider.
Context {Tb C Pt : Type → Type → Type} {E Node Account PE : Type}.
Context `{DupDb Tb C E, PlainDb Pt E, RethTrie Node Account}.
Abbreviation db := (Db Tb Pt Node Account).
Abbreviation err := (MorphProofsStorageError E).
Abbreviation trie_error := (TrieError E TrieFailure).
Context (Custom : err → E) (keccak256 : bytes → Z) (fuel : nat).
Context (from_storage : err → PE) (from_database : E → PE).
Context (from_root from_proof from_witness : trie_error → PE) (storage_root_into : trie_error → E).
Abbreviation provider_result A := (option (result A PE)).

(** [MorphProofsBatchStateProviderRef], but for the auxiliary provider; the session is
    its transaction while it is open. *)
Record MorphProofsBatchStateProviderRef := { session : option db; block_number : Z }.
Implicit Types (p : MorphProofsBatchStateProviderRef).

Definition factories p : Factories Node Account E := session_factories Custom (block_number p) fuel (session p).

Definition state_root p (state : HashedPostState) : provider_result B256 :=
  let prefix_sets := freeze (construct_prefix_sets state) in
  let state_sorted := state_into_sorted state in
  loop_map_err from_root (finish (run (factories p) (StateRoot_root None state_sorted prefix_sets))).

Definition state_root_from_nodes p (input : TrieInput) : provider_result B256 :=
  let state_sorted := state_into_sorted (ti_state input) in
  let nodes_sorted := updates_into_sorted (ti_nodes input) in
  loop_map_err from_root (finish (run (factories p)
    (StateRoot_root (Some nodes_sorted) state_sorted (freeze (ti_prefix_sets input))))).

Definition state_root_with_updates p (state : HashedPostState) : provider_result (B256 * TrieUpdates) :=
  let prefix_sets := freeze (construct_prefix_sets state) in
  let state_sorted := state_into_sorted state in
  loop_map_err from_root (finish (run (factories p) (StateRoot_root_with_updates None state_sorted prefix_sets))).

Definition state_root_from_nodes_with_updates p (input : TrieInput) : provider_result (B256 * TrieUpdates) :=
  let state_sorted := state_into_sorted (ti_state input) in
  let nodes_sorted := updates_into_sorted (ti_nodes input) in
  loop_map_err from_root (finish (run (factories p)
    (StateRoot_root_with_updates (Some nodes_sorted) state_sorted (freeze (ti_prefix_sets input))))).

Definition storage_root p (address : Address) (storage : RHashedStorage) : provider_result B256 :=
  let prefix_set := freeze_set (construct_prefix_set storage) in
  let state_sorted := state_into_sorted (from_hashed_storage (hashed_address keccak256 address) storage) in
  loop_map_err (λ e, from_database (storage_root_into e))
    (finish (run (factories p) (StorageRoot_root state_sorted address prefix_set))).

Definition storage_proof p (address : Address) (slot : B256) (hashed_storage : RHashedStorage) : provider_result SlotProof :=
  let prefix_set := construct_prefix_set hashed_storage in
  let state_sorted := one_storage (hashed_address keccak256 address) (storage_into_sorted hashed_storage) in
  loop_map_err from_proof (finish (run (factories p) (StorageProof_storage_proof state_sorted address prefix_set slot))).

Definition storage_multiproof p (address : Address) (slots : list B256) (hashed_storage : RHashedStorage)
  : provider_result SlotMultiProof :=
  let targets := list_to_set (map (λ s, keccak256 (be_word 32 s)) slots) in
  let prefix_set := construct_prefix_set hashed_storage in
  let state_sorted := one_storage (hashed_address keccak256 address) (storage_into_sorted hashed_storage) in
  loop_map_err from_proof
    (finish (run (factories p) (StorageProof_storage_multiproof state_sorted address prefix_set targets))).

Definition proof p (input : TrieInput) (address : Address) (slots : list B256) : provider_result AccountProof :=
  let nodes_sorted := updates_into_sorted (ti_nodes input) in
  let state_sorted := state_into_sorted (ti_state input) in
  loop_map_err from_proof (finish (run (factories p)
    (Proof_account_proof nodes_sorted state_sorted (ti_prefix_sets input) address slots))).

Definition multiproof p (input : TrieInput) (targets : MultiProofTargets) : provider_result MultiProof :=
  let nodes_sorted := updates_into_sorted (ti_nodes input) in
  let state_sorted := state_into_sorted (ti_state input) in
  loop_map_err from_proof (finish (run (factories p)
    (Proof_multiproof nodes_sorted state_sorted (ti_prefix_sets input) targets))).

(** The mode is not used. *)
Definition witness p (input : TrieInput) (target : HashedPostState) (_mode : ExecutionWitnessMode)
  : provider_result (list bytes) :=
  let nodes_sorted := updates_into_sorted (ti_nodes input) in
  let state_sorted := state_into_sorted (ti_state input) in
  let! result := loop_map_err from_witness (finish (run (factories p)
    (TrieWitness_compute nodes_sorted state_sorted (ti_prefix_sets input) None true target))) in
  Some (Ok (map snd result)).

Definition hashed_post_state p (bundle_state : BundleState) : provider_result HashedPostState :=
  let hashed_state := from_bundle_state bundle_state in
  loop_map_err from_database (run (factories p) (zero_destroyed_account_storage bundle_state hashed_state)).

(** Errors of the store's cursors become [DatabaseError]s when a cursor moves. *)
Definition basic_account p (address : Address) : provider_result (option Account) :=
  let hashed_key := hashed_address keccak256 address in
  let! c := Some (map_err from_storage (session_account_hashed_cursor (session p))) in
  let! '(_, o) := loop_map_err from_database (account_ask (block_number p) fuel (HashedSeek hashed_key) c) in
  Some (Ok (o ≫= λ '(key, account), if bool_decide (key = hashed_key) then Some account else None)).

Definition storage p (address : Address) (storage_key : B256) : provider_result (option Z) :=
  let hashed_key := keccak256 (be_word 32 storage_key) in
  let! c := Some (map_err from_storage (session_storage_hashed_cursor (session p) (hashed_address keccak256 address))) in
  let! '(_, o) := loop_map_err from_database
    (storage_ask (Node := Node) (Account := Account) (block_number p) fuel (OnStorage (HashedSeek hashed_key)) c) in
  Some (Ok (o ≫= λ '(key, storage), if bool_decide (key = hashed_key) then Some storage else None)).
End Provider.
End Batch.

(** ** What the providers answer *)

(** What a computation answers over a listing, if it keeps to the contract of the cursor
    traits. *)
Definition over {Node Account A} (li : Listing Node Account) (m : reads Node Account A) : option A :=
  match run (listing (E := Empty_set) li) m with Some (Ok a) => Some a | _ => None end.

(** A method answers what is expected, or the database fails. *)
Definition answers {A E PE} (failed : E → PE) (m expected : option (result A PE)) : Prop :=
  ∀ r, expected = Some r → ∃ r', m = Some r' ∧ (r' = r ∨ ∃ e, r' = Err (failed e)).

Section Answers.
Context {Tb C Pt : Type → Type → Type} {E Node Account PE : Type}.
Context `{DupDbLaws Tb C E, PlainDbLaws Pt E, RethTrie Node Account}.
Abbreviation db := (Db Tb Pt Node Account).
Abbreviation err := (MorphProofsStorageError E).
Abbreviation trie_error := (TrieError E TrieFailure).
Context (Custom : err → E) (keccak256 : bytes → Z) (begin_ro : db → result unit E).
Context (fuel : nat).
Context (from_storage : err → PE) (from_database : E → PE).
Context (from_root from_proof from_witness : trie_error → PE) (storage_root_into : trie_error → E).
Implicit Types (tx live : db) (w : Window (Node := Node) (Account := Account)) (li : Listing Node Account).

(** The answer of a computation, its own failures converted. *)
Definition expected {A} (li : Listing Node Account) (conv : trie_error → PE) (m : reads Node Account (result A TrieFailure))
  : option (result A PE) := map_err (λ x, conv (InTrie x)) <$> over li m.

Lemma over_Some {A} li (m : reads Node Account A) a : over li m = Some a → run (listing (E := Empty_set) li) m = Some (Ok a).
Proof. unfold over. destruct (run _ m) as [[x|]|]; [|done..]. by intros [= ->]. Qed.

Lemma run_answers {A} (F : Factories Node Account E) li R (conv : trie_error → PE) (m : reads Node Account (result A TrieFailure)) :
  simulates F (listing (E := Empty_set) li) R →
  answers (λ e, conv (InDatabase e)) (loop_map_err conv (finish (run F m))) (expected li conv m).
Proof.
  intros Hs r Hr. unfold expected in Hr. apply fmap_Some in Hr as (x & Hx%over_Some & ->).
  destruct (run_simulated F (listing (E := Empty_set) li) R m x Hs Hx) as (y & -> & Hy).
  destruct y as [y|e]; cbn in Hy; [subst y; destruct x as [a|x]|]; cbn; (eexists; split; [done|]); [by left|by left|right; by exists e].
Qed.

Lemma run_plain_answers {A} (F : Factories Node Account E) li R (m : reads Node Account A) :
  simulates F (listing (E := Empty_set) li) R →
  answers from_database (loop_map_err from_database (run F m)) (Ok <$> over li m).
Proof.
  intros Hs r Hr. apply fmap_Some in Hr as (x & Hx%over_Some & ->).
  destruct (run_simulated F (listing (E := Empty_set) li) R m x Hs Hx) as (y & -> & Hy).
  destruct y as [y|e]; cbn in Hy; [subst y|]; cbn; (eexists; split; [done|]); [by left|right; by exists e].
Qed.

Lemma answers_map {A B} (f : A → B) (failed : E → PE) m o : answers failed m o →
  answers failed (let! a := m in Some (Ok (f a))) (o ≫= λ r, Some (result_bind r (λ a, Ok (f a)))).
Proof.
  intros Hm r Hr. apply bind_Some in Hr as (x & Hx & [= <-]). destruct (Hm x Hx) as (y & -> & [->|[e ->]]).
  - destruct x; (eexists; split; [done|]); by left.
  - eexists. split; [done|]. right. by exists e.
Qed.

(** A method that opens a transaction on the committed store. *)
Lemma ro_tx_answers {A} (conv : trie_error → PE) live (k : db → option (result A trie_error)) o :
  answers (λ e, conv (InDatabase e)) (loop_map_err conv (k live)) o →
  answers (λ e, conv (InDatabase e)) (loop_map_err conv (in_ro_tx Custom begin_ro live k)) o.
Proof.
  intros Hk r Hr. unfold in_ro_tx, ro_tx. destruct (begin_ro live) as [[]|e]; cbn; [by apply Hk|].
  eexists. split; [done|]. right. by exists e.
Qed.

Lemma with_pinned_tx tx p live : lazy_tx p = Some tx → ∀ A (k : db → option (result A PE)),
  with_tx begin_ro from_storage live p k = (p, k tx).
Proof. intros Hp A k. unfold with_tx, ensure_tx. by rewrite Hp. Qed.

(** C30. Historical proofs are those of the block's state.  A provider that is pinned to a
    transaction whose tables hold a window, at a block of the window, answers account
    proofs, multiproofs, witnesses and hashed post states, whatever has happened to the
    live store, exactly as reth's computations do over the sorted entries of the
    block's state, their own failures included, unless the database fails; a canonical
    witness is sorted and without a forced root node.  This holds of every computation
    that uses cursors as their traits say. *)
Theorem historical_proofs_exact tx w p li live :
  represents tx w → number (w_earliest w) ≤ sp_block_number p ≤ number (w_latest w) → read_fuel tx fuel →
  lazy_tx p = Some tx → listing_of li (w_state w (sp_block_number p)) →
  (∀ input address slots,
    (proof Custom begin_ro fuel from_storage from_proof live p input address slots).1 = p
    ∧ answers (λ e, from_proof (InDatabase e)) (proof Custom begin_ro fuel from_storage from_proof live p input address slots).2
        (expected li from_proof (Proof_account_proof (updates_into_sorted (ti_nodes input))
          (state_into_sorted (ti_state input)) (ti_prefix_sets input) address slots)))
  ∧ (∀ input targets,
    (multiproof Custom begin_ro fuel from_storage from_proof live p input targets).1 = p
    ∧ answers (λ e, from_proof (InDatabase e)) (multiproof Custom begin_ro fuel from_storage from_proof live p input targets).2
        (expected li from_proof (Proof_multiproof (updates_into_sorted (ti_nodes input))
          (state_into_sorted (ti_state input)) (ti_prefix_sets input) targets)))
  ∧ (∀ input target mode,
    (witness Custom begin_ro fuel from_storage from_witness live p input target mode).1 = p
    ∧ answers (λ e, from_witness (InDatabase e)) (witness Custom begin_ro fuel from_storage from_witness live p input target mode).2
        (expected li from_witness (TrieWitness_compute (updates_into_sorted (ti_nodes input))
            (state_into_sorted (ti_state input)) (ti_prefix_sets input) (Some mode) (negb (is_canonical mode)) target)
         ≫= λ r, Some (result_bind r (λ hm,
              Ok (if is_canonical mode then sort_unstable (map snd hm) else map snd hm)))))
  ∧ ∀ bundle,
    (hashed_post_state Custom begin_ro fuel from_storage from_database live p bundle).1 = p
    ∧ answers from_database (hashed_post_state Custom begin_ro fuel from_storage from_database live p bundle).2
        (Ok <$> over li (zero_destroyed_account_storage bundle (from_bundle_state bundle))).
Proof.
  intros Hrep Hn Hf Hp Hli. pose proof (window_readable tx w _ fuel li Hrep Hn Hf Hli) as Hrd.
  pose proof (tx_simulates Custom _ fuel tx li Hrd (X := Empty_set)) as Hs. split_and!; intros;
    unfold proof, multiproof, witness, hashed_post_state; rewrite (with_pinned_tx tx p live Hp); (split; [done|]).
  - by eapply run_answers.
  - by eapply run_answers.
  - apply (answers_map (witness_values mode)). unfold overlay_witness_with_tx.
    destruct (is_canonical mode); by eapply run_answers.
  - by eapply run_plain_answers.
Qed.

(** C31. Roots are those of the block's state.  The provider, whose root methods read the
    committed store, and the provider of a session, which reads the session's writes,
    answer state roots (with overlaid nodes and with updates) and storage roots at a
    block of the window that the tables hold exactly as reth's computations do over the
    sorted entries of the block's state, unless the database fails; a session's account
    and slot reads and hashed post states are of that state as well. *)
Theorem roots_of_state_exact d w n li p :
  represents d w → number (w_earliest w) ≤ n ≤ number (w_latest w) → read_fuel d fuel →
  listing_of li (w_state w n) → sp_block_number p = n →
  let s := {| Batch.session := Some d; Batch.block_number := n |} in
  let root_failed := λ e, from_root (InDatabase e) in
  (∀ state,
    let m := StateRoot_root_with_updates None (state_into_sorted state) (freeze (construct_prefix_sets state)) in
    answers root_failed (state_root_with_updates Custom begin_ro fuel from_root d p state) (expected li from_root m)
    ∧ answers root_failed (Batch.state_root_with_updates Custom fuel from_root s state) (expected li from_root m))
  ∧ (∀ input,
    let m := StateRoot_root (Some (updates_into_sorted (ti_nodes input))) (state_into_sorted (ti_state input))
               (freeze (ti_prefix_sets input)) in
    answers root_failed (state_root_from_nodes Custom begin_ro fuel from_root d p input) (expected li from_root m)
    ∧ answers root_failed (Batch.state_root_from_nodes Custom fuel from_root s input) (expected li from_root m))
  ∧ (∀ address storage,
    let conv := λ e, from_database (storage_root_into e) in
    let m := StorageRoot_root (state_into_sorted (from_hashed_storage (hashed_address keccak256 address) storage)) address
               (freeze_set (construct_prefix_set storage)) in
    answers (λ e, conv (InDatabase e))
      (storage_root Custom keccak256 begin_ro fuel from_database storage_root_into d p address storage) (expected li conv m)
    ∧ answers (λ e, conv (InDatabase e))
      (Batch.storage_root Custom keccak256 fuel from_database storage_root_into s address storage) (expected li conv m))
  ∧ ∀ bundle,
    answers from_database (Batch.hashed_post_state Custom fuel from_database s bundle)
      (Ok <$> over li (zero_destroyed_account_storage bundle (from_bundle_state bundle))).
Proof.
  intros Hrep Hn Hf Hli <- s root_failed. pose proof (window_readable d w _ fuel li Hrep Hn Hf Hli) as Hrd.
  pose proof (tx_simulates Custom _ fuel d li Hrd (X := Empty_set)) as Ht.
  pose proof (session_simulates Custom _ fuel d li Hrd (X := Empty_set)) as Hs. split_and!; cbn zeta; intros.
  1-3: split; [apply ro_tx_answers|]; by eapply run_answers.
  by eapply run_plain_answers.
Qed.

(** A session's reads are of the block's state as well. *)
Theorem session_reads_exact d w n address key : represents d w →
  number (w_earliest w) ≤ n ≤ number (w_latest w) → read_fuel d fuel →
  let s := {| Batch.session := Some d; Batch.block_number := n |} in
  let of_state := λ {A} (m : option (result A PE)) (a : A),
    ∃ r, m = Some r ∧ (r = Ok a ∨ ∃ e, r = Err (from_storage (DatabaseError e)) ∨ r = Err (from_database e)) in
  of_state (Batch.basic_account keccak256 fuel from_storage from_database s address)
    (v_accounts (w_state w n) (hashed_address keccak256 address))
  ∧ of_state (Batch.storage keccak256 fuel from_storage from_database s address key)
    (v_slots (w_state w n) (hashed_address keccak256 address, keccak256 (be_word 32 key))).
Proof.
  intros [Hinv Hst] Hn (_ & _ & F3 & F4) s of_state. destruct (Hst n Hn) as (_ & _ & S3 & S4).
  destruct (si_tables _ _ _ Hinv) as [_ _ I3 I4]. split.
  - unfold Batch.basic_account, session_account_hashed_cursor; cbn [Batch.session Batch.block_number s tx_ref ok_or result_bind].
    pose proof (law_open (HashedAccountHistory d)) as Ho. unfold lift.
    destruct (open_cursor (HashedAccountHistory d)) as [c|e]; cbn [map_err result_bind fbind];
      [|eexists; split; [done|]; right; exists e; by left]. destruct Ho as [Hc _]. cbn [account_ask].
    destruct (cursor_seek_spec n fuel (hashed_address keccak256 address) c) as (r & -> & Hr); [rewrite Hc; apply I3|rewrite Hc; lia|].
    destruct r as [[c' o]|e]; cbn [loop_map_err fmap option_fmap option_map map_err fbind];
      [|eexists; split; [done|]; right; exists e; by right].
    destruct Hr as [_ Hr]. eexists; split; [done|]. left. f_equal. rewrite <- S3. cbn [state_at v_accounts].
    rewrite <- (live_head n _ _ (proj1 (ix_wf _ _ _ _ I3))). rewrite Hc in Hr.
    destruct o as [[k v]|]; [destruct Hr as [_ Hr]|]; by rewrite Hr.
  - unfold Batch.storage, session_storage_hashed_cursor; cbn [Batch.session Batch.block_number s tx_ref ok_or result_bind].
    pose proof (law_open (HashedStorageHistory d)) as Ho. unfold lift.
    destruct (open_cursor (HashedStorageHistory d)) as [c|e]; cbn [map_err result_bind fbind];
      [|eexists; split; [done|]; right; exists e; by left]. destruct Ho as [Hc _].
    cbn [storage_ask bound_slot_ask ms_inner ms_hashed_address].
    destruct (storage_seek_spec n (hashed_address keccak256 address) fuel (keccak256 (be_word 32 key)) c) as (r & -> & Hr);
      [rewrite Hc; apply I4|by rewrite Hc|].
    destruct r as [[c' o]|e]; cbn [loop_map_err fmap option_fmap option_map map_err fbind];
      [|eexists; split; [done|]; right; exists e; by right].
    destruct Hr as [_ Hr]. eexists; split; [done|]. left. f_equal. rewrite <- S4. cbn [state_at v_slots].
    rewrite <- (slot_head n _ _ _ (proj1 (ix_wf _ _ _ _ I4))). rewrite Hc in Hr.
    destruct o as [[k v]|]; [destruct Hr as [_ Hr]|]; by rewrite Hr.
Qed.
End Answers.

(** ** Canonical witnesses *)

#[local] Instance path_lt_strict : StrictOrder path_lt := key_lt_strict (K := list Z).
#[global] Instance bytes_le_total : Total bytes_le.
Proof. intros p q. unfold bytes_le. destruct (key_lt_total (K := list Z) p q) as [?|[->|?]]; auto. Qed.
#[global] Instance bytes_le_trans : Transitive bytes_le.
Proof.
  intros p q r [->|Hpq] [->|Hqr]; [by left|by right|by right|]. right. by etrans.
Qed.
#[global] Instance bytes_le_anti : AntiSymm (=) bytes_le.
Proof.
  intros p q [->|Hpq] [Hqp|Hqp]; [done..|]. destruct (irreflexivity path_lt p). by etrans.
Qed.

(** A canonical witness does not depend on the order in which the map iterates. *)
Theorem canonical_witness_unordered `{RethTrie Node Account} mode (hm1 hm2 : list (B256 * bytes)) :
  is_canonical mode = true → Permutation hm1 hm2 → witness_values mode hm1 = witness_values mode hm2.
Proof.
  intros Hm Hp. unfold witness_values. rewrite Hm. unfold sort_unstable.
  apply (StronglySorted_unique bytes_le); [exact (StronglySorted_merge_sort bytes_le _)..|].
  rewrite !merge_sort_Permutation. by apply Permutation_map.
Qed.

(** ** Concrete computations *)

Module TrieSamples.
Import ListStore.

(** Computations that walk the cursors as reth's do: a root that sums the accounts, a
    storage root that counts an account's slots, proofs that read one key, a witness
    with the keys of the account trie. *)
Fixpoint walk_accounts (steps : nat) (sum : Z) : reads Z Z (result Z string) :=
  match steps with
  | O => Done (Err "too many accounts"%string)
  | S steps => Ask AccountKind 0 HashedNext (λ o,
      match o with Some (k, v) => walk_accounts steps (sum + k * v) | None => Done (Ok sum) end)
  end.
Fixpoint walk_slots (steps : nat) (sum : Z) : reads Z Z (result Z string) :=
  match steps with
  | O => Done (Err "too many slots"%string)
  | S steps => Ask StorageKind 0 (OnStorage HashedNext) (λ o,
      match o with Some (k, v) => walk_slots steps (sum + k * v) | None => Done (Ok sum) end)
  end.
Definition root_reads : reads Z Z (result Z string) := Open AccountKind tt (walk_accounts 10 0).
Definition account_reads (a : Z) : reads Z Z (result (option (Z * Z)) string) :=
  Open AccountKind tt (Ask AccountKind 0 (HashedSeek a) (λ o, Done (Ok o))).
Definition slot_reads (a k : Z) : reads Z Z (result (option (Z * Z)) string) :=
  Open StorageKind a (Ask StorageKind 0 (OnStorage (HashedSeek k)) (λ o, Done (Ok o))).
Definition witness_reads : reads Z Z (result (list (B256 * bytes)) string) :=
  Open AccountTrieKind tt (Ask AccountTrieKind 0 (TrieSeek []) (λ o,
    Ask AccountTrieKind 0 TrieNext (λ o', Done (Ok (map (λ x : path * Z, (x.2, x.1)) (option_list o' ++ option_list o)))))).

#[export] Instance sample_trie : RethTrie Z Z := {|
  TrieUpdates := unit; TrieUpdatesSorted := unit; HashedPostState := unit; HashedPostStateSorted := unit;
  RHashedStorage := unit; HashedStorageSorted := unit; TriePrefixSetsMut := unit; TriePrefixSets := unit;
  PrefixSetMut := unit; PrefixSet := unit; BundleState := unit; MultiProofTargets := Z;
  AccountProof := option (Z * Z); MultiProof := option (Z * Z); SlotProof := option (Z * Z); SlotMultiProof := option (Z * Z);
  ExecutionWitnessMode := bool; TrieFailure := string;
  updates_into_sorted := id; state_into_sorted := id; storage_into_sorted := id;
  construct_prefix_sets := id; construct_prefix_set := id; freeze := id; freeze_set := id;
  from_hashed_storage _ := id; one_storage _ := id; from_bundle_state := id; is_canonical := id;
  StateRoot_root _ _ _ := root_reads;
  StateRoot_root_with_updates _ _ _ := Open AccountKind tt
    (Ask AccountKind 0 HashedNext (λ o, Done (Ok (default 0 (fst <$> o), tt))));
  StorageRoot_root _ a _ := Open StorageKind a (walk_slots 10 0);
  StorageProof_storage_proof _ a _ k := slot_reads a k;
  StorageProof_storage_multiproof _ a _ ks := slot_reads a (default 0 (head (elements ks)));
  Proof_account_proof _ _ _ a _ := account_reads a;
  Proof_multiproof _ _ _ a := account_reads a;
  TrieWitness_compute _ _ _ _ _ _ := witness_reads;
  zero_destroyed_account_storage _ _ := Done tt |}.

Definition sample_input : TrieInput (Node := Z) (Account := Z) := Build_TrieInput _ _ _ tt tt tt.
Definition no_custom (x : MorphProofsStorageError string) : string := "custom"%string.
Definition sample_keccak (l : bytes) : Z := foldl Z.add 0 l.
Definition in_trie (x : TrieError string string) : string := match x with InDatabase e => e | InTrie e => e end.
Definition no_begin (d : store) : result unit string := Ok tt.

(** Block 1 of the store with the accounts 1 and 2, pinned; the store has since been
    unwound. *)
Definition pinned : MorphProofsStateProviderRef (Tb := ListDb.table) (Pt := ListStore.plain) := new_with_tx 1 store1.

Example sample_proof :
  (proof no_custom no_begin 50 no_custom in_trie genesis pinned sample_input 2 []).2 = Some (Ok (Some (2, 22))).
Proof. by vm_compute. Qed.
Example sample_witness :
  (witness no_custom no_begin 50 no_custom in_trie genesis pinned sample_input tt true).2 = Some (Ok [[3]]).
Proof. by vm_compute. Qed.
Example sample_root :
  Batch.state_root no_custom 50 in_trie (Batch.Build_MorphProofsBatchStateProviderRef (Some store1) 1) tt = Some (Ok 65).
Proof. by vm_compute. Qed.

(** The computations keep to the contract of the cursors over a listing. *)
Definition sample_listing : Listing Z Z := {|
  li_account_nodes := [([3], 103)]; li_storage_nodes a := if a =? 2 then [([8], 208)] else [];
  li_accounts := [(1, 21); (2, 22)]; li_slots a := if a =? 2 then [(6, 66)] else [] |}.
Example sample_over :
  over sample_listing root_reads = Some (Ok 65)
  ∧ over sample_listing (Proof_account_proof tt tt tt 2 []) = Some (Ok (Some (2, 22)))
  ∧ over sample_listing witness_reads = Some (Ok [(103, [3])])
  ∧ over sample_listing (Open StorageKind 2 (walk_slots 10 0)) = Some (Ok 396).
Proof. by vm_compute. Qed.

(** A session that was committed answers nothing more. *)
Example closed_session :
  Batch.state_root no_custom 50 in_trie (Batch.Build_MorphProofsBatchStateProviderRef (Tb := ListDb.table) (Pt := ListStore.plain) None 1) tt
  = Some (Err "custom"%string).
Proof. by vm_compute. Qed.

(** The roots of a pinned provider are read from the live store.  A provider is pinned to
    the genesis store at block 0; block 1 is then appended to the live store and block 0
    pruned.  The provider still proves the genesis account, but its state root is that
    of a store without accounts. *)
Definition genesis_pinned : MorphProofsStateProviderRef (Tb := ListDb.table) (Pt := ListStore.plain) := new_with_tx 0 genesis.
Definition pruned_store : store := MemSamples.step_db store1 (Prune block1).

Example pinned_root_reads_live :
  (proof no_custom no_begin 50 no_custom in_trie pruned_store genesis_pinned sample_input 2 []).2 = Some (Ok (Some (2, 12)))
  ∧ state_root no_custom no_begin 50 in_trie genesis genesis_pinned tt = Some (Ok 35)
  ∧ state_root no_custom no_begin 50 in_trie pruned_store genesis_pinned tt = Some (Ok 0).
Proof. by vm_compute. Qed.
End TrieSamples.

Import TrieSamples ListStore.

Lemma historical_proofs_exact_witness :
  (proof no_custom no_begin 50 no_custom in_trie genesis pinned sample_input 2 []).2 = Some (Ok (Some (2, 22)))
  ∧ ∃ li, listing_of li (w_state window1 1)
    ∧ answers (λ e, in_trie (InDatabase e))
      (proof no_custom no_begin 50 no_custom in_trie genesis pinned sample_input 2 []).2
      (expected (E := string) li in_trie (Proof_account_proof tt tt tt 2 [])).
Proof.
  split; [vm_compute; reflexivity|].
  destruct (window_listed (E := string) store1 window1 1 store1_represented) as [li Hli]; [vm_compute; split; discriminate|].
  exists li. split; [exact Hli|].
  simple refine (proj2 (proj1 (historical_proofs_exact no_custom no_begin 50 no_custom id in_trie in_trie store1 window1 pinned li genesis
    _ _ _ _ _) sample_input 2 [])); [exact store1_represented|vm_compute; split; discriminate|split_and!; vm_compute; lia|done|exact Hli].
Defined.

Lemma roots_of_state_exact_witness :
  Batch.state_root_from_nodes no_custom 50 in_trie (Batch.Build_MorphProofsBatchStateProviderRef (Some store1) 1) sample_input
    = Some (Ok 65)
  ∧ ∃ li, listing_of li (w_state window1 1)
    ∧ answers (λ e, in_trie (InDatabase e))
      (Batch.state_root_from_nodes no_custom 50 in_trie (Batch.Build_MorphProofsBatchStateProviderRef (Some store1) 1) sample_input)
      (expected (E := string) li in_trie (StateRoot_root (Some tt) tt tt)).
Proof.
  split; [vm_compute; reflexivity|].
  destruct (window_listed (E := string) store1 window1 1 store1_represented) as [li Hli]; [vm_compute; split; discriminate|].
  exists li. split; [exact Hli|].
  simple refine (proj2 (proj1 (proj2 (roots_of_state_exact no_custom sample_keccak no_begin 50 id in_trie in_trie store1 window1 1 li pinned
    _ _ _ _ _)) sample_input)); [exact store1_represented|vm_compute; split; discriminate|split_and!; vm_compute; lia|exact Hli|done].
Defined.
